(* ===== verification/_CoqProject ===== *)
-Q . S2P
Prelude.v
Text.v
Unicode.v
Paths.v
Crontab.v
Priority.v
Redis.v
Queue.v
Budget.v
Resilience.v
DomainGuard.v
RateLimiter.v
Sha256.v
Envelope.v
Rows.v
JobDb.v
JobModel.v
Tx.v
Json.v
JsonEncoding.v
Filesystem.v
IpPolicy.v
Redaction.v
SensitiveData.v
UrlGuard.v
UrlGuardSpec.v
Transforms.v
TransformsSpec.v
Outbox.v
JobTerminal.v
Payload.v
JobRecovery.v
JobDeletion.v
JobRetention.v
JobStore.v
TxStore.v
JobRuns.v
Lifecycle.v
LifecycleStore.v
OutboxSpec.v
System.v
Samples.v
RunSpec.v
Deliveries.v
ScrubSpec.v
StoreSpec.v
Guarantees.v
RecoverySpec.v
Dispatcher.v
DispatcherSpec.v
ClientCache.v
Ownership.v
Proc.v
Models.v
ErrorStore.v
LocalResults.v
LocalResultsSpec.v
ResultRemoval.v
Artifacts.v
ArtifactsSpec.v
Worker.v
WorkerSpec.v
WorkerResult.v
Service.v
ResultClients.v
Reconcile.v
ReconcileSpec.v
TerminalSpec.v
Submission.v
Scheduler.v
SchedulerSpec.v
JobLifecycle.v
Cleanup.v
CleanupSpec.v
CleanupHost.v
Proxy.v
Fields.v
Schema.v
SchemaSpec.v
Loader.v
