(* ===== verification/Prelude.v ===== *)
(** * Verification of the Scrapeyard service

    Scrapeyard accepts scrape jobs over HTTP or from cron schedules, queues their runs on
    Redis by priority, executes them under budgets, retry and politeness rules, records
    jobs, runs, errors and webhook deliveries in SQLite databases and results in a tree of
    files, and cleans all of them up. This development models its configuration, its queue,
    its execution policies, its stores, the worker that executes a run, the submission,
    cancellation and deletion of jobs, the scheduler, the loops that reconcile what a crash
    left behind, the cleanup, the webhook dispatcher, the redaction of secrets and the guard
    of URLs, and proves them correct. Paths below are under src/src/scrapeyard/.

    ** Conventions

    A Python exception is [Raise] of an error type, a return is [Ok] ([outcome]). Stateful
    code is a function from the state to a result and the state it leaves ([prog], with the
    notations [let!] and [do!]). Coroutines are procedures (Proc.v, with [let*] and [do*]).
    Times are integers (microseconds, or milliseconds in the Redis files, as each file says);
    the code stores them as text of one fixed format that sorts like the time. Python's int
    is Z. Third-party code is a parameter: AES-GCM, arq, the calendar, JSON text, APScheduler,
    the regular expression engine, IDNA, random nonces and run ids ([entropy], [Vault],
    [JsonText], [CronScheduler], [RegexLib], [NetLib]). Tables of the databases and Redis
    keys are [gmap]s.

    ** The queue (queue/)

    - Priority.v: queue/priority.py, the weighted choice among the intake queues.
    - Redis.v: the part of Redis the scripts use, with expiry, sorted sets and scripts.
    - Queue.v: queue/pool.py, the three Lua scripts (enqueue, admission, removal), polling,
      snapshots and cancellation. [qstep] is any event of any worker or producer; the
      theorems say that deliveries wait in one place, in order, are not lost, are served
      within seven turns, and that a cancellation says only what it saw.

    ** Execution policies (common/, engine/)

    - Budget.v: common/budgets.py. [bstep] is one atomic section of one of a run's tasks.
    - Resilience.v: engine/resilience.py, the retry loop, the validator, and the circuit
      breaker with a ledger of the probes it granted.
    - DomainGuard.v: engine/domain_guard.py. The guard protocol is a class with two
      instances, in memory and on Redis; theorems about runs are proved of the class.
    - RateLimiter.v: the Redis limiter of engine/rate_limiter.py.

    ** The job database (storage/)

    Definitions:
    - Sha256.v: hashlib.sha256, executable, on bytes. Envelope.v: storage/secret_envelope.py:
      base64, the envelope text, the keyring; [Vault] is what the store needs of it and
      [keyring_vault] provides it.
    - Rows.v: the five tables as records with one setter per column that is assigned.
      JobDb.v: a connection (committed and working copy), BEGIN IMMEDIATE, commit, rollback,
      and the statements the store issues with their keys, cascades, the unique project
      name and the run counting trigger. JobModel.v: rows as jobs, encryption purposes.
    - Outbox.v (webhook_outbox.py), JobTerminal.v (job_terminal_reconciliation.py),
      JobRecovery.v, JobDeletion.v, JobRetention.v (the files of these names), JobStore.v
      (first half of job_store.py: submission, replay, schedules, missed fires) and
      JobRuns.v (second half: queueing, claiming, heartbeats, the end of a run). Names are
      those of the methods; each is a whole method, its early returns included.

    Proof technique: Tx.v gives one rule per statement for [tx_post], the postconditions of
    a transaction, with tactics that walk through a method; TxStore.v has the rules of the
    steps that several methods share.

    Specification and theorems:
    - Lifecycle.v is the abstract specification: jobs are a status and a current run, runs
      an owner, a status and an outcome; [astep] lists the allowed transitions, and the
      invariants are proved of it. LifecycleStore.v simulates each store operation by
      abstract steps. OutboxSpec.v does the same for single outbox rows.
    - System.v: [sstep] is one store call by any part of the service, with any arguments
      its callers may pass, but for the call that replaces a running run; [any_call] has that
      one too, and the abstract steps with it are [any_astep]. SQLite admits one writing
      transaction at a time, so executions are sequences of such steps. Samples.v evaluates
      one execution.
    - Guarantees.v, RunSpec.v, RecoverySpec.v, StoreSpec.v, Deliveries.v and ScrubSpec.v
      hold the theorems: refinement, one running row per running job, exact
      compare-and-set behaviour of claims and of the end of runs, at most one claim and one
      end per run, cancellation that holds, configurations that always verify, exact stale
      recovery, submissions that stay idempotent whatever is called in between, bounded admission, complete deletion, safe pruning,
      and the life of a delivery from its insertion to its erasure.

    ** Configuration (config/, common/)

    - Unicode.v: strings as code points and the methods of [str] that need them. Paths.v:
      common/paths.py, the parts of a path that are safe. Crontab.v: common/crontab.py, the
      fields of a cron expression.
    - Transforms.v: config/transforms.py, splitting, parsing and applying the pipelines of a
      selector, and the bound on what a regular expression can expand to. TransformsSpec.v:
      accepted patterns are bounded, a bounded application is exact or refuses, pipelines
      have the arities they need, and a printed pipeline parses back.
    - Fields.v: documents as YAML builds them, and validators: a value to a typed value or
      all its errors with their locations, collected as pydantic collects them. What pydantic
      makes of a value of another type is [Pydantic]. Schema.v: config/schema.py, every model
      and validator; SchemaSpec.v: an accepted document gives a well-formed configuration,
      and has no unknown key at any depth ([config_shape]). Messages are shortened to their
      fixed parts.
    - Loader.v: config/loader.py, references to deployment secrets, who may refer to which,
      and what an error says of a document with secrets. The secrets of a configuration are
      exactly the authorized ones it refers to, and no others can influence it.
    - Proxy.v: engine/proxy.py; a run's session token completes an accepted proxy URL.

    ** Addresses and URLs (engine/ip_policy.py, engine/url_guard.py)

    - IpPolicy.v: which addresses are refused, on addresses as numbers and networks as
      prefixes, and the ordered firewall entries; a firewall with these entries decides as
      the application does, where it can.
    - UrlGuard.v: the lexical checks of a URL, the IPv4 parser of browsers, the resolution
      of names and the pinning of a connection; [NetLib] is what the library provides.
      UrlGuardSpec.v: a pinned URL leads to a judged public address, every spelling of an
      IPv4 address is read, and what the guard raises; with a small concrete [NetLib].

    ** Redaction and webhooks (engine/url_guard.py, webhook/)

    - Text.v: strings as UTF-8 bytes, decimal numbers, stripping. Json.v: documents.
    - Redaction.v: resolved deployment secrets in text and in JSON-like
      values; no spelling of a secret survives, and values keep their shape and their keys
      stay distinct. SensitiveData.v: secret-bearing keys and the URLs inside a text, and
      when a text is left alone. How one URL is rewritten is a parameter.
    - Payload.v: delivery ids and payloads (webhook/payload.py). Dispatcher.v,
      DispatcherSpec.v: webhook/dispatcher.py, one attempt from its limits to the stored
      outcome, the coordinator and its workers as a step relation ([dstep]); attempts are
      bounded, retries end, one worker per delivery. ClientCache.v: its HTTP client cache.

    ** Results and errors (storage/)

    - JsonEncoding.v: common/json_encoding.py, the streamed encoder and the size of a
      document; the stream is the encoding, and the size is its length.
    - Filesystem.v: storage/filesystem.py on a tree of files whose calls can fail ([disk],
      with a list of faults): writing through a temporary file, reading without following
      links, removing folders.
    - LocalResults.v: storage/result_store.py and storage/result_queries.py, saving,
      reading, deleting and retaining results, on a tree and the table of results
      ([archive]). LocalResultsSpec.v: paths stay under the root, what a save may
      leave when it is stopped, and a saved result reads back. ResultRemoval.v: an interrupted removal is taken up again, and
      pruning keeps the newest. Artifacts.v: the reconciliation of tree and table.
      ArtifactsSpec.v: it keeps what a row names, and its pages cover the tree.
    - ErrorStore.v: storage/error_store.py; logged errors are found by queries.
    - ResultClients.v: the result store behind the interfaces of its callers.

    ** The worker (queue/worker.py, queue/run_lifecycle.py, queue/heartbeat.py)

    - Proc.v: asynchronous procedures. A call is atomic; between two calls the rest of the
      service runs (a relation), a call on a channel that may fail can raise, and the task
      can be cancelled before a call or after its effect. [runs] is the set of executions
      with a bounded number of cancellations; [triple] (at most so many) and [always] (any
      number) are the proof rules; [exec], [exec_cut] and [exec_late] compute single
      executions.
    - Models.v: configuration, results and error records as the worker reads them, and the
      terminal deliveries it builds. Worker.v: [scrape_task] and everything it calls to
      load, claim, save and finish a run, with its handlers for budget stops, cancellation,
      lost ownership and crashes. [ResultStore] is what it needs of the result store,
      [Deployment] the settings and library functions; samples of both close the file.
    - Ownership.v: what holds of a claimed run whatever the other store calls do.
      WorkerSpec.v: with at most one cancellation a claimed run never stays running.
      WorkerResult.v: with any number of them, a run recorded complete or partial keeps its
      saved result.

    ** The service around it (api/, scheduler/, queue/)

    - Service.v: the stores, the queue, the artifacts and the clocks as one state ([host]),
      and the calls on them. The queue is an interface ([DeliveryQueue]) that
      [RedisDeliveries] implements with the scripts of Queue.v. Also runtime/background.py.
    - Reconcile.v: queue/reconciliation.py, queue/running_reconciliation.py and
      queue/terminal_reconciliation.py, with the samples of a service. ReconcileSpec.v: a
      stale delivery is accounted for and a pass takes them all; TerminalSpec.v: after a pass
      over terminal runs none of those it was there for is a candidate any more.
    - Submission.v: api/scrape_submission.py and the wait for a job of api/; a completed
      submission is durable and a failed one is undone. JobLifecycle.v:
      api/job_lifecycle.py, cancellation and deletion; a cancelled run is stopped, an
      interrupted deletion is taken up again.
    - Scheduler.v: scheduler/cron.py. SchedulerSpec.v: a trigger does not strand the run that
      it queues.
    - Cleanup.v: storage/cleanup.py over an interface of the stores ([RetentionStores]), the
      budget of a pass kept beside the state of the stores. CleanupSpec.v: a pass stays
      within its budget, its loops end, and a pass that is not saturated has left nothing
      due; the last is proved from a contract ([RetentionContract]). CleanupHost.v: the
      real stores behind the interface, and the contract proved of them.

    ** Bounds and fuel

    Loops over a list recurse on it. The retry loop recurses on the attempts that are left,
    the paging of the outbox ([fetch_pages]) on the inspection limit, which every page
    lowers, and the rate limiter's loop takes the number of rounds as an argument: the
    liveness theorem says that two are enough for a caller nobody overtakes. SHA-256 and
    base64 recurse on their input or on its number of blocks. Replacing in a text, looking
    for its URLs and finding a free key take the length of what they consume as fuel. The
    worker's procedures are finite trees, so they always stop. The wait for a persisted job
    takes as many rounds as its timeout has polls. A snapshot of a tree has one more unit of
    fuel than the entries it may see; the scan of the namespace recurses on its depth of
    three. The loops of a cleanup pass take one round more than the items a phase may count
    (twice that, plus two, for the two scans that run side by side): a round adds an item,
    ends a scan, or is the last, and CleanupSpec.v proves that the fuel does not run out.

    ** What is assumed of callers

    [sstep] requires that new run ids are fresh, that submissions come in as queued jobs,
    that recorded attempt counts are not negative and that [queue_run] is not called with
    the expected status running. The last one scheduler/cron.py (line 411) does not keep: see
    [queue_over_running_orphans] in Samples.v. The refinement theorem and the one on
    idempotent submission are about [any_call], which allows it; the others are about
    [sstep], and say nothing once a running run has been replaced.

    The theorems about the worker assume that its calls on the job store return ([fails]
    may hold of every other channel), that heartbeats keep up with the timeout, and that no
    secret is part of the names in a webhook payload ([names_clear]). The theorem about a
    trigger assumes that the rest of the service neither uses the trigger's new run id nor
    records a missed fire under it while its run is queued ([rely] in SchedulerSpec.v). The theorems that an interrupted deletion or a failed
    submission is completed, and that pages cover the tree, are about executions in which
    the other tasks do not touch the same job or tree; a deletion is completed if the result
    store can remove, when it is resumed, what is left of the results.

    A call that runs in a thread is atomic. The theorems about a save assume that nobody else
    writes the artifact or the row of that run, which the save lock ensures. The one about
    reconciliation assumes that others keep the artifacts of rows and that a row that appears
    has an artifact just written; its own lock is not modelled. Nothing is found behind a
    link: links are entries that are refused. A deadline is a number of looks at the clock
    that still pass ([checks_left]). The theorem on thorough cleanup passes assumes
    retention periods of a day at least, and that what the service writes meanwhile is news
    ([host_rely]): errors and finished deliveries stamped less than a day before they are
    written, and records that expire later than that.

    What pydantic and [float] make of a value of another type is not known ([Pydantic] has no
    laws), so the bound on a browser's [humanize] is about documents that give a number or a
    text that [float] reads: other values pass its validator unchecked.

    ** Not modelled

    The targets of a run, which Worker.v takes as any sequence of checkpoints, budget
    reservations and error records, with the browser, the DOM and the HTTP client under them
    (engine/); the loop of the heartbeat, whose effects are steps of the rest of the service;
    the verdict caches of a run; the HTTP handlers, their middleware and serializers, which
    are FastAPI; the settings of the service (common/settings.py) and the YAML loader
    (common/yaml.py), which wrap pydantic and PyYAML; the reads of the job store that only list or count; schema migrations and
    connection caching; start-up, logging, metrics and health endpoints, which are wiring and
    I/O. *)

From stdpp Require Export base gmap strings list sorting.
From Stdlib Require Export ZArith Lia.

(** ** Scope and options *)

#[export] Set Warnings "-clear-no-such-hyp,-level-tolerance".

Declare Scope scrape_scope.
Delimit Scope scrape_scope with scrape.
Global Open Scope scrape_scope.

(** ** Results of fallible code

    [Ok a] is a normal return; [Raise e] is a Python exception. *)

Inductive outcome (E A : Type) : Type :=
| Ok (a : A)
| Raise (e : E).
Arguments Ok {E A} a.
Arguments Raise {E A} e.

#[export] Instance outcome_eq_dec {E A} `{EqDecision E, EqDecision A} :
  EqDecision (outcome E A).
Proof. solve_decision. Defined.

Definition is_ok {E A} (o : outcome E A) : bool :=
  match o with Ok _ => true | Raise _ => false end.

(** ** Stateful fallible code

    A computation takes the state, and gives a result and the state it leaves.
    An exception keeps the mutations made before it, as in Python; a database
    transaction undoes them explicitly. *)

Definition prog (S E A : Type) : Type := S → outcome E A * S.

Section prog_ops.
Context {S E : Type}.

Definition pret {A} (a : A) : prog S E A := λ s, (Ok a, s).
Definition praise {A} (e : E) : prog S E A := λ s, (Raise e, s).
Definition pbind {A B} (m : prog S E A) (k : A → prog S E B) : prog S E B :=
  λ s, match m s with
       | (Ok a, s') => k a s'
       | (Raise e, s') => (Raise e, s')
       end.
Definition pget : prog S E S := λ s, (Ok s, s).
Definition pput (s : S) : prog S E unit := λ _, (Ok tt, s).
Definition pmodify (f : S → S) : prog S E unit := λ s, (Ok tt, f s).
End prog_ops.

Notation "'let!' x := m 'in' k" := (pbind m (λ x, k))
  (at level 10, x name, m at level 200, k at level 200,
   format "'let!'  x  :=  m  'in' '//' k") : scrape_scope.
Notation "'let!' ' x := m 'in' k" := (pbind m (λ z, match z with x => k end))
  (at level 10, x pattern, m at level 200, k at level 200) : scrape_scope.
Notation "'do!' m 'in' k" := (pbind m (λ _, k))
  (at level 10, m at level 200, k at level 200,
   format "'do!'  m  'in' '//' k") : scrape_scope.

(** ** Tactics of the development *)

(** Case analysis on the first [match]/[if] of the goal, else of a hypothesis. *)
Ltac dmatch :=
  match goal with
  | |- context [match ?x with _ => _ end] =>
      lazymatch x with
      | context [match _ with _ => _ end] => fail
      | _ => destruct x eqn:?
      end
  | H : context [match ?x with _ => _ end] |- _ =>
      lazymatch x with
      | context [match _ with _ => _ end] => fail
      | _ => destruct x eqn:?
      end
  end.

Ltac dmatches := repeat (dmatch; simplify_eq/=).

(** Booleans of the code to the propositions they decide. *)
Ltac boolprop :=
  repeat match goal with
  | H : _ && _ = true |- _ => apply andb_true_iff in H; destruct H
  | H : _ || _ = false |- _ => apply orb_false_iff in H; destruct H
  | H : negb _ = true |- _ => apply negb_true_iff in H
  | H : negb _ = false |- _ => apply negb_false_iff in H
  | H : bool_decide _ = true |- _ => apply bool_decide_eq_true in H
  | H : bool_decide _ = false |- _ => apply bool_decide_eq_false in H
  | H : (_ <? _)%Z = true |- _ => apply Z.ltb_lt in H
  | H : (_ <? _)%Z = false |- _ => apply Z.ltb_ge in H
  | H : (_ <=? _)%Z = true |- _ => apply Z.leb_le in H
  | H : (_ <=? _)%Z = false |- _ => apply Z.leb_gt in H
  | H : (_ =? _)%Z = true |- _ => apply Z.eqb_eq in H
  | H : (_ =? _)%Z = false |- _ => apply Z.eqb_neq in H
  end.

Create HintDb scrape discriminated.

Lemma pbind_ret {S E A B} (a : A) (k : A → prog S E B) s :
  pbind (pret a) k s = k a s.
Proof. done. Qed.

Lemma pbind_raise {S E A B} (e : E) (k : A → prog S E B) s :
  pbind (praise e) k s = (Raise e, s).
Proof. done. Qed.

(** An invariant of the state kept by every step of a computation is kept by
    the whole, whatever it returns. *)
Definition keeps {S E A} (I : S → Prop) (m : prog S E A) : Prop :=
  ∀ s, I s → I (m s).2.

Lemma keeps_ret {S E A} (I : S → Prop) (a : A) : keeps I (@pret S E A a).
Proof. by intros s. Qed.

Lemma keeps_raise {S E A} (I : S → Prop) (e : E) : keeps I (@praise S E A e).
Proof. by intros s. Qed.

Lemma keeps_bind {S E A B} (I : S → Prop) (m : prog S E A) (k : A → prog S E B) :
  keeps I m → (∀ a, keeps I (k a)) → keeps I (pbind m k).
Proof.
  intros Hm Hk s Hs. unfold pbind. specialize (Hm s Hs).
  destruct (m s) as [[a|e] s']; [by apply Hk | done].
Qed.

#[export] Hint Resolve keeps_ret keeps_raise keeps_bind : scrape.

(** ** Step systems: reachability and invariants by rule induction *)

Section steps.
Context {St : Type} (step : St → St → Prop).

Lemma rtc_invariant (I : St → Prop) :
  (∀ s s', I s → step s s' → I s') → ∀ s s', rtc step s s' → I s → I s'.
Proof. intros Hstep s s' Hrtc. induction Hrtc; eauto. Qed.

(** A relation between the first and the last state, kept by each step. *)
Lemma rtc_monotone (R : St → St → Prop) :
  (∀ s, R s s) → (∀ a b c, R a b → R b c → R a c) →
  (∀ s s', step s s' → R s s') → ∀ s s', rtc step s s' → R s s'.
Proof. intros Hr Ht Hs s s' Hrtc. induction Hrtc; eauto. Qed.
End steps.

(** ** Optional values: the comparisons SQL makes with NULL *)

(** [opt_is x y]: SQL's [x IS y], where NULL is equal to itself. *)
Definition opt_is {A} `{EqDecision A} (x y : option A) : bool := bool_decide (x = y).

(** [opt_eqb x v]: SQL's [x = v] for a non-NULL [v]; NULL satisfies nothing. *)
Definition opt_eqb {A} `{EqDecision A} (x : option A) (v : A) : bool :=
  match x with Some a => bool_decide (a = v) | None => false end.

(** [opt_leb x v], [opt_gtb x v]: SQL's [x <= v] and [x > v]. *)
Definition opt_leb (x : option Z) (v : Z) : bool :=
  match x with Some a => (a <=? v)%Z | None => false end.
Definition opt_gtb (x : option Z) (v : Z) : bool :=
  match x with Some a => (v <? a)%Z | None => false end.

(** SQL's [COALESCE] of two values, and Python's [a or b] on optional values. *)
Definition coalesce {A} (x y : option A) : option A :=
  match x with Some a => Some a | None => y end.

Lemma opt_eqb_true {A} `{EqDecision A} (x : option A) v :
  opt_eqb x v = true ↔ x = Some v.
Proof. destruct x; simpl; [rewrite bool_decide_eq_true|]; naive_solver. Qed.

Lemma opt_eqb_true_Some {A} `{EqDecision A} (x : option A) v : x = Some v → opt_eqb x v = true.
Proof. apply opt_eqb_true. Qed.

Lemma opt_is_true {A} `{EqDecision A} (x y : option A) :
  opt_is x y = true ↔ x = y.
Proof. unfold opt_is. by rewrite bool_decide_eq_true. Qed.

(** ** Lists *)

(** The least element of a list for a boolean order (Python's [min]). *)
Fixpoint list_least {A} (leb : A → A → bool) (l : list A) : option A :=
  match l with
  | [] => None
  | x :: xs =>
      match list_least leb xs with
      | Some y => Some (if leb x y then x else y)
      | None => Some x
      end
  end.

Lemma list_least_None {A} (leb : A → A → bool) l :
  list_least leb l = None ↔ l = [].
Proof. destruct l; simpl; [done|]. dmatches; naive_solver. Qed.

Lemma list_least_elem {A} (leb : A → A → bool) l x :
  list_least leb l = Some x → x ∈ l.
Proof.
  revert x. induction l as [|y l IH]; simpl; [done|]. intros x.
  destruct (list_least leb l) as [z|] eqn:Hz; [|intros; simplify_eq; set_solver].
  intros ?; simplify_eq. destruct (leb y z); set_solver.
Qed.

Lemma list_least_least {A} (leb : A → A → bool) l x :
  (∀ a b, leb a b = true ∨ leb b a = true) →
  (∀ a b c, leb a b = true → leb b c = true → leb a c = true) →
  list_least leb l = Some x → ∀ y, y ∈ l → leb x y = true.
Proof.
  intros Htot Htr. revert x. induction l as [|a l IH]; simpl; [done|].
  intros x Hx y Hy. destruct (list_least leb l) as [z|] eqn:Hz.
  - specialize (IH z eq_refl). apply elem_of_cons in Hy as [->|Hy].
    + injection Hx as <-. destruct (leb a z) eqn:E; [destruct (Htot a a); done|].
      destruct (Htot a z); congruence.
    + injection Hx as <-. specialize (IH y Hy).
      destruct (leb a z) eqn:E; eauto.
  - apply list_least_None in Hz as ->. injection Hx as <-.
    apply elem_of_cons in Hy as [->|Hy]; [destruct (Htot a a); done|set_solver].
Qed.

(** [String.leb] is a total order (Python compares [str] by code point, and the
    byte order of UTF-8 is the code-point order). *)
Lemma str_leb_total a b : String.leb a b = true ∨ String.leb b a = true.
Proof. apply String.leb_total. Qed.

Lemma str_leb_trans a b c :
  String.leb a b = true → String.leb b c = true → String.leb a c = true.
Proof.
  intros H1 H2. pose proof (transitivity (R := String.le) (x := a) (y := b) (z := c)) as T.
  unfold String.le in T. apply Is_true_true. apply T; by apply Is_true_true.
Qed.

Lemma str_leb_antisym a b :
  String.leb a b = true → String.leb b a = true → a = b.
Proof. apply String.leb_antisym. Qed.

Lemma str_length_app a b : String.length (a +:+ b) = (String.length a + String.length b)%nat.
Proof. induction a as [|x a IH]; [done|]. cbn. by rewrite <- IH. Qed.

(** A separator that the last parts do not contain splits a string uniquely. *)
Fixpoint str_free (c : Ascii.ascii) (s : string) : bool :=
  match s with
  | EmptyString => true
  | String x s => negb (Ascii.eqb x c) && str_free c s
  end.

Lemma str_free_app c a b : str_free c (a +:+ String c b) = false.
Proof.
  induction a as [|x a IH].
  - change (negb (Ascii.eqb c c) && str_free c b = false). by rewrite Ascii.eqb_refl.
  - change (negb (Ascii.eqb x c) && str_free c (a +:+ String c b) = false).
    by rewrite IH, andb_false_r.
Qed.

Lemma str_split_last c a b x y :
  str_free c x = true → str_free c y = true →
  a +:+ String c x = b +:+ String c y → a = b ∧ x = y.
Proof.
  intros Hx Hy. revert b. induction a as [|p a IH]; intros [|q b] E.
  - by injection E.
  - injection E as -> E. by rewrite E, str_free_app in Hx.
  - injection E as -> E. by rewrite <- E, str_free_app in Hy.
  - injection E as -> E. by destruct (IH _ E) as [-> ->].
Qed.

(** [existsb]/[forallb] as quantifiers over membership. *)
Lemma existsb_elem {A} (f : A → bool) l :
  existsb f l = true ↔ ∃ x, x ∈ l ∧ f x = true.
Proof.
  rewrite existsb_exists. setoid_rewrite <- list_elem_of_In. done.
Qed.

Lemma existsb_elem_false {A} (f : A → bool) l :
  existsb f l = false ↔ ∀ x, x ∈ l → f x = false.
Proof.
  split.
  - intros H x Hx. destruct (f x) eqn:E; [|done].
    assert (existsb f l = true) by (apply existsb_elem; eauto). congruence.
  - intros H. destruct (existsb f l) eqn:E; [|done].
    apply existsb_elem in E as (x & Hx & Hf). by rewrite H in Hf.
Qed.

Lemma forallb_elem {A} (f : A → bool) l :
  forallb f l = true ↔ ∀ x, x ∈ l → f x = true.
Proof.
  rewrite forallb_forall. setoid_rewrite <- list_elem_of_In. done.
Qed.

(** ** Integers *)

(** [ceil_div a b] is [math.ceil(a / b)] for a positive [b]. *)
Definition ceil_div (a b : Z) : Z := (- ((- a) / b))%Z.

Lemma ceil_div_spec a b : (0 < b → a ≤ b * ceil_div a b < a + b)%Z.
Proof.
  unfold ceil_div. intros Hb.
  pose proof (Z.div_mod (- a) b ltac:(lia)).
  pose proof (Z.mod_pos_bound (- a) b Hb). lia.
Qed.

Lemma ceil_div_nonneg a b : (0 < b → 0 ≤ a → 0 ≤ ceil_div a b)%Z.
Proof. intros Hb Ha. pose proof (ceil_div_spec a b Hb). nia. Qed.

(** ** Association lists *)

Lemma NoDup_fst_filter {K A} (P : K * A → Prop) `{∀ x, Decision (P x)} (l : list (K * A)) :
  NoDup l.*1 → NoDup (filter P l).*1.
Proof. intros Hn. eapply sublist_NoDup; [done|]. apply fmap_sublist, sublist_filter. Qed.
