(* ===== verification/Text.v ===== *)
(** * Text as bytes

    Python strings are modelled by their UTF-8 bytes. Searching, replacing and comparing
    give the same results on code points and on UTF-8; [len] is the number of bytes that
    do not continue a code point. *)

From S2P Require Import Prelude.

Abbreviation text := (list Ascii.ascii).
Definition txt (s : string) : text := String.list_ascii_of_string s.

Lemma txt_app s s' : txt (s +:+ s') = txt s ++ txt s'.
Proof. unfold txt. induction s as [|c s IH]; [done|]. cbn. unfold String.app in *. cbn. by rewrite IH. Qed.

Definition code (a : Ascii.ascii) : Z := Z.of_nat (Ascii.nat_of_ascii a).
Definition chr (n : Z) : Ascii.ascii := Ascii.ascii_of_nat (Z.to_nat n).

Definition is_digit (a : Ascii.ascii) : bool := ((48 <=? code a) && (code a <=? 57))%Z.
Definition is_upper (a : Ascii.ascii) : bool := ((65 <=? code a) && (code a <=? 90))%Z.
Definition is_lower (a : Ascii.ascii) : bool := ((97 <=? code a) && (code a <=? 122))%Z.
Definition is_letter (a : Ascii.ascii) : bool := is_upper a || is_lower a.

(** White space, as [str.isspace] has it: one byte (ASCII), two (U+0085, U+00A0) or three
    (U+1680, U+2000 to U+200A, U+2028, U+2029, U+202F, U+205F, U+3000). *)
Definition is_space (a : Ascii.ascii) : bool :=
  let n := code a in (((9 <=? n) && (n <=? 13)) || ((28 <=? n) && (n <=? 32)))%Z.
Definition is_space2 (a b : Ascii.ascii) : bool :=
  ((code a =? 194) && ((code b =? 133) || (code b =? 160)))%Z.
Definition is_space3 (a b c : Ascii.ascii) : bool :=
  let x := code a in let y := code b in let z := code c in
  (((x =? 225) && (y =? 154) && (z =? 128)) ||
   ((x =? 226) && (y =? 128) &&
      (((128 <=? z) && (z <=? 138)) || (z =? 168) || (z =? 169) || (z =? 175))) ||
   ((x =? 226) && (y =? 129) && (z =? 159)) ||
   ((x =? 227) && (y =? 128) && (z =? 128)))%Z.

Section strip.
Context (two : Ascii.ascii → Ascii.ascii → bool) (three : Ascii.ascii → Ascii.ascii → Ascii.ascii → bool).
Fixpoint drop_space (l : text) : text :=
  match l with
  | [] => []
  | a :: l1 =>
      if is_space a then drop_space l1
      else match l1 with
           | [] => l
           | b :: l2 =>
               if two a b then drop_space l2
               else match l2 with
                    | [] => l
                    | c :: l3 => if three a b c then drop_space l3 else l
                    end
           end
  end.
End strip.
Definition lstrip (l : text) : text := drop_space is_space2 is_space3 l.
(** From the end, a code point is read backwards. *)
Definition rstrip (l : text) : text :=
  rev (drop_space (λ b a, is_space2 a b) (λ c b a, is_space3 a b c) (rev l)).
Definition strip (l : text) : text := rstrip (lstrip l).

(** [value.isascii() and value.isdigit()] *)
Definition all_digits (l : text) : bool :=
  match l with [] => false | _ => forallb is_digit l end.
(** [int(value)] of such a text. *)
Definition decimal (l : text) : Z := foldl (λ n a, 10 * n + (code a - 48))%Z 0%Z l.

(** ** Decimal numbers *)

Fixpoint digits_acc (fuel : nat) (n : N) (acc : text) : text :=
  match fuel with
  | O => acc
  | Datatypes.S fuel =>
      let acc := chr (48 + Z.of_N (n mod 10)) :: acc in
      if (n <? 10)%N then acc else digits_acc fuel (n / 10) acc
  end.
(** [str(n)]; a number has no more decimal digits than bits. *)
Definition digits (n : N) : text := digits_acc (Datatypes.S (N.to_nat (N.log2 n))) n [].
Definition str_int (z : Z) : text :=
  if (z <? 0)%Z then chr 45 :: digits (Z.to_N (- z)) else digits (Z.to_N z).

Lemma is_digit_chr n : (n < 10)%N → is_digit (chr (48 + Z.of_N n)) = true.
Proof.
  intros Hn. assert (n ∈ [0; 1; 2; 3; 4; 5; 6; 7; 8; 9]%N) as Hin.
  { rewrite !elem_of_cons. lia. }
  revert n Hn Hin. assert (Forall (λ n, is_digit (chr (48 + Z.of_N n)) = true) [0; 1; 2; 3; 4; 5; 6; 7; 8; 9]%N) as Hf
    by by repeat constructor.
  intros n _ Hin. by apply (proj1 (Forall_forall _ _) Hf).
Qed.

Lemma digits_acc_digits fuel n acc :
  Forall (λ a, is_digit a = true) acc → Forall (λ a, is_digit a = true) (digits_acc fuel n acc).
Proof.
  revert n acc. induction fuel as [|fuel IH]; intros n acc Ha; cbn; [done|].
  assert (Forall (λ a, is_digit a = true) (chr (48 + Z.of_N (n mod 10)) :: acc)) as Ha'.
  { constructor; [|done]. apply is_digit_chr, N.mod_lt. done. }
  destruct (n <? 10)%N; [done|by apply IH].
Qed.
Lemma digits_digits n : Forall (λ a, is_digit a = true) (digits n).
Proof. by apply digits_acc_digits. Qed.

(** The number is read back. *)
Lemma decimal_foldl l x : foldl (λ n a, 10 * n + (code a - 48))%Z x l = (x * 10 ^ Z.of_nat (length l) + decimal l)%Z.
Proof.
  revert x. induction l as [|a l IH]; intros x; [cbn; lia|].
  unfold decimal. cbn [foldl]. rewrite (IH (10 * x + (code a - 48)))%Z, (IH (10 * 0 + (code a - 48)))%Z.
  cbn [length]. rewrite Nat2Z.inj_succ, Z.pow_succ_r by lia. lia.
Qed.
Lemma decimal_cons a l : decimal (a :: l) = ((code a - 48) * 10 ^ Z.of_nat (length l) + decimal l)%Z.
Proof. unfold decimal at 1. cbn [foldl]. by rewrite decimal_foldl. Qed.

Lemma code_chr n : (0 ≤ n < 256)%Z → code (chr n) = n.
Proof. intros Hn. unfold code, chr. rewrite Ascii.nat_ascii_embedding; lia. Qed.

Lemma decimal_digit m l :
  (m < 10)%N → decimal (chr (48 + Z.of_N m) :: l) = (Z.of_N m * 10 ^ Z.of_nat (length l) + decimal l)%Z.
Proof. intros Hm. rewrite decimal_cons, code_chr by lia. lia. Qed.

Lemma decimal_digits_acc fuel n acc :
  (n < 2 ^ N.of_nat fuel)%N →
  decimal (digits_acc fuel n acc) = (Z.of_N n * 10 ^ Z.of_nat (length acc) + decimal acc)%Z.
Proof.
  revert n acc. induction fuel as [|fuel IH]; intros n acc Hn; cbn [digits_acc].
  { cbn in Hn. assert (n = 0%N) as -> by lia. lia. }
  pose proof (decimal_digit (n mod 10) acc (N.mod_lt n 10 ltac:(done))) as Hd.
  destruct (N.ltb_spec n 10) as [Hlt|Hge].
  - rewrite Hd, N.mod_small by done. done.
  - rewrite IH, Hd. 
    + cbn [length]. rewrite Nat2Z.inj_succ, Z.pow_succ_r by lia.
      pose proof (N.div_mod n 10 ltac:(done)) as E. rewrite E at 3. rewrite N2Z.inj_add, N2Z.inj_mul. lia.
    + rewrite Nat2N.inj_succ, N.pow_succ_r in Hn by lia. apply N.Div0.div_lt_upper_bound. lia.
Qed.
Lemma decimal_digits n : decimal (digits n) = Z.of_N n.
Proof.
  unfold digits. rewrite decimal_digits_acc; [cbn; lia|].
  rewrite Nat2N.inj_succ, N2Nat.id. destruct (decide (n = 0%N)) as [->|]; [done|].
  apply N.log2_spec. lia.
Qed.
