(* ===== verification/Unicode.v ===== *)
(** * Strings as code points

    Python strings as lists of code points, and the methods of [str] that need them so. *)

From S2P Require Import Prelude.
From S2P Require Import Text.
Open Scope Z_scope.

Abbreviation ustr := (list Z).
Definition u (s : string) : ustr := map code (txt s).

Definition isspace (c : Z) : bool :=
  ((9 <=? c) && (c <=? 13)) || ((28 <=? c) && (c <=? 32)) || (c =? 133) || (c =? 160) || (c =? 5760) ||
  ((8192 <=? c) && (c <=? 8202)) || (c =? 8232) || (c =? 8233) || (c =? 8239) || (c =? 8287) || (c =? 12288).
Fixpoint lstrip_by (p : Z → bool) (s : ustr) : ustr :=
  match s with c :: s' => if p c then lstrip_by p s' else s | [] => [] end.
Definition strip (s : ustr) : ustr := rev (lstrip_by isspace (rev (lstrip_by isspace s))).

(** [s.removeprefix(p)] is the rest after [p], if [s] starts with it. *)
Fixpoint cut (p s : ustr) : option ustr :=
  match p, s with
  | [], _ => Some s
  | a :: p, b :: s => if a =? b then cut p s else None
  | _ :: _, [] => None
  end.
Definition removeprefix (p s : ustr) : ustr := default s (cut p s).
Definition removesuffix (p s : ustr) : ustr :=
  match cut (rev p) (rev s) with Some r => rev r | None => s end.

(** [s.replace(old, new)] and [s.count(old)] for a non-empty [old]. *)
Fixpoint replace_from (fuel : nat) (old new s : ustr) : ustr * Z :=
  match fuel, s with
  | S fuel, c :: s' =>
      match cut old s with
      | Some rest => let '(r, n) := replace_from fuel old new rest in (new ++ r, n + 1)
      | None => let '(r, n) := replace_from fuel old new s' in (c :: r, n)
      end
  | _, _ => (s, 0)
  end.
(** An empty [old] is found before each character and at the end. *)
Definition replace (old new s : ustr) : ustr :=
  match old with [] => new ++ flat_map (λ c, c :: new) s | _ => (replace_from (length s) old new s).1 end.
Definition count (old s : ustr) : Z :=
  match old with [] => Z.of_nat (length s) + 1 | _ => (replace_from (length s) old [] s).2 end.

(** [s.split()]: the runs of characters that are no white space. *)
Fixpoint words_from (s : ustr) : ustr * list ustr :=
  match s with
  | [] => ([], [])
  | c :: s =>
      let '(w, ws) := words_from s in
      if isspace c then ([], match w with [] => ws | _ => w :: ws end) else (c :: w, ws)
  end.
Definition split_words (s : ustr) : list ustr :=
  let '(w, ws) := words_from s in match w with [] => ws | _ => w :: ws end.

(** [s.split(c)] and [s.partition(c)] for one character. *)
Fixpoint split_at (c : Z) (s : ustr) : list ustr :=
  match s with
  | [] => [[]]
  | d :: s =>
      if d =? c then [] :: split_at c s
      else match split_at c s with w :: ws => (d :: w) :: ws | [] => [[d]] end
  end.
Fixpoint partition (c : Z) (s : ustr) : ustr * bool * ustr :=
  match s with
  | [] => ([], false, [])
  | d :: s => if d =? c then ([], true, s) else let '(a, found, b) := partition c s in (d :: a, found, b)
  end.
Fixpoint join (sep : ustr) (l : list ustr) : ustr :=
  match l with [] => [] | [w] => w | w :: l => w ++ sep ++ join sep l end.

(** The code points of UTF-8 bytes. *)
Fixpoint decode (l : text) : ustr :=
  match l with
  | a :: l1 =>
      let n := code a in
      if n <? 194 then n :: decode l1
      else match l1 with
           | b :: l2 =>
               let m := code b - 128 in
               if n <? 224 then ((n - 192) * 64 + m) :: decode l2
               else match l2 with
                    | c :: l3 =>
                        let k := code c - 128 in
                        if n <? 240 then ((n - 224) * 4096 + m * 64 + k) :: decode l3
                        else match l3 with
                             | d :: l4 => ((n - 240) * 262144 + m * 4096 + k * 64 + (code d - 128)) :: decode l4
                             | [] => [n; code b; code c]
                             end
                    | [] => [n; code b]
                    end
           | [] => [n]
           end
  | [] => []
  end.
