(* ===== verification/Paths.v ===== *)
(** * Path segments ([common/paths.py])

    Names that users give, as one segment of a path. Strings are UTF-8. *)

From S2P Require Import Prelude.
From S2P Require Import Text.
From S2P Require Import Unicode.
Open Scope Z_scope.

(** [str.isprintable], outside ASCII a table of Unicode. *)
Class Printable := { printable_other : Z → bool }.

Definition MAX_PATH_PART_BYTES : nat := 255.
Definition _UNSAFE_PATH_CHARS : ustr := [47; 92; 0].

(** What is left of UTF-8 bytes that were cut: a last character that is not complete goes. *)
Fixpoint complete (l : text) : text :=
  match l with
  | a :: l1 =>
      let n := code a in
      if n <? 194 then a :: complete l1
      else match l1 with
           | b :: l2 =>
               if n <? 224 then a :: b :: complete l2
               else match l2 with
                    | c :: l3 =>
                        if n <? 240 then a :: b :: c :: complete l3
                        else match l3 with d :: l4 => a :: b :: c :: d :: complete l4 | [] => [] end
                    | [] => []
                    end
           | [] => []
           end
  | [] => []
  end.

Section paths.
Context `{Printable}.

Definition printable (c : Z) : bool := if c <? 128 then (32 <=? c) && (c <=? 126) else printable_other c.

Definition safe_path_part (value : string) : outcome string string :=
  let s := decode (txt value) in
  if forallb isspace s then Raise "ValueError"
  else if bool_decide (value = ".") || bool_decide (value = "..") ||
          existsb (λ c, existsb (Z.eqb c) _UNSAFE_PATH_CHARS) s || negb (forallb printable s)
  then Raise "ValueError"
  else if (MAX_PATH_PART_BYTES <? length (txt value))%nat then Raise "ValueError"
  else Ok value.

(** A path as its segments below the root. *)
Fixpoint safe_join (parts : list string) : outcome string (list string) :=
  match parts with
  | [] => Ok []
  | part :: parts =>
      match safe_path_part part with
      | Raise e => Raise e
      | Ok part => match safe_join parts with Raise e => Raise e | Ok path => Ok (part :: path) end
      end
  end.

(** [value.encode("utf-8")[:n].decode("utf-8", errors="ignore")] *)
Definition truncate (n : nat) (value : string) : string :=
  String.string_of_list_ascii (complete (take n (txt value))).
End paths.
