(* ===== verification/Crontab.v ===== *)
(** * Crontab expressions ([common/crontab.py])

    Five fields, the days of the week spelled out by name. *)

From S2P Require Import Prelude.
From S2P Require Import Text.
From S2P Require Import Unicode.
Open Scope Z_scope.

(** The digits of Unicode beyond ASCII: whether [str.isdigit] holds, and the value [int]
    gives it, if any. *)
Class Digits := {
  other_digit : Z → bool;
  other_value : Z → option Z;
}.

Definition _DAY_NAMES : list string := ["sun"; "mon"; "tue"; "wed"; "thu"; "fri"; "sat"].
Definition day_name (d : nat) : ustr := u (default "" (_DAY_NAMES !! d)).
Abbreviation cresult := (outcome string).

Section crontab.
Context `{Digits}.

Definition ascii_digit (c : Z) : bool := (48 <=? c) && (c <=? 57).
Definition isdigit (s : ustr) : bool :=
  match s with [] => false | _ => forallb (λ c, ascii_digit c || ((128 <=? c) && other_digit c)) s end.
(** [int(s)] of such a text, which may still be refused, or be too long. *)
Definition digit_of (c : Z) : option Z := if ascii_digit c then Some (c - 48) else other_value c.
Definition int_of (s : ustr) : cresult Z :=
  if 4300 <? Z.of_nat (length s) then Raise "ValueError"
  else foldl (λ acc c, match acc, digit_of c with
                       | Ok n, Some d => Ok (10 * n + d)
                       | _, _ => Raise "ValueError"
                       end) (Ok 0) s.

(** [str.lower], of ASCII: no other character is lowered to a letter of a day. *)
Definition lower (s : ustr) : ustr := map (λ c, if (65 <=? c) && (c <=? 90) then c + 32 else c) s.

Fixpoint index_of (w : ustr) (names : list string) (i : Z) : option Z :=
  match names with
  | [] => None
  | n :: names => if bool_decide (w = u n) then Some i else index_of w names (i + 1)
  end.

Definition _day_number (token : ustr) : cresult Z :=
  match index_of (lower token) _DAY_NAMES 0 with
  | Some i => Ok i
  | None =>
      if isdigit token then
        match int_of token with
        | Ok n => if n <=? 7 then Ok n else Raise "ValueError"
        | Raise e => Raise e
        end
      else Raise "ValueError"
  end.

(** The step of a part, and the days from its first to its last, before the step. *)
Definition step_of (slash : bool) (step_text : ustr) : cresult Z :=
  if negb slash then Ok 1
  else if negb (isdigit step_text) then Raise "ValueError"
  else match int_of step_text with
       | Ok n => if n <? 1 then Raise "ValueError" else Ok n
       | Raise e => Raise e
       end.
Definition range_of (base : ustr) (slash : bool) : cresult (Z * Z) :=
  if bool_decide (base = [42]) then Ok (0, 6)
  else if existsb (λ c, c =? 45) base then
    let '(start, _, stop) := partition 45 base in
    match _day_number start with
    | Raise e => Raise e
    | Ok first =>
        match _day_number stop with
        | Raise e => Raise e
        | Ok last =>
            let last := if bool_decide (lower stop = u "sun") && (0 <? first) then 7 else last in
            if last <? first then Raise "ValueError" else Ok (first, last)
        end
    end
  else
    match _day_number base with
    | Raise e => Raise e
    | Ok first => Ok (first, if slash then 7 else first)
    end.

(** Whether a day is one of [day % 7 for day in range(first, last + 1, step)]. *)
Definition in_part (first last step : Z) (d : nat) : bool :=
  existsb (λ k, let day := Z.of_nat k in
     (first <=? day) && (day <=? last) && ((day - first) mod step =? 0) && (day mod 7 =? Z.of_nat d)) (seq 0 8).

Definition part_days (part : ustr) : cresult (nat → bool) :=
  let '(base, slash, step_text) := partition 47 part in
  match step_of slash step_text with
  | Raise e => Raise e
  | Ok step =>
      match range_of base slash with
      | Raise e => Raise e
      | Ok (first, last) => Ok (in_part first last step)
      end
  end.

Fixpoint field_days (parts : list ustr) : cresult (nat → bool) :=
  match parts with
  | [] => Ok (λ _, false)
  | part :: parts =>
      match part_days part with
      | Raise e => Raise e
      | Ok days =>
          match field_days parts with
          | Raise e => Raise e
          | Ok rest => Ok (λ d, days d || rest d)
          end
      end
  end.

(** [",".join(_DAY_NAMES[day] for day in sorted(days))] *)
Definition spell (days : nat → bool) : ustr := join [44] (map day_name (filter (λ d, days d = true) (seq 0 7))).

Definition standard_day_of_week (field : ustr) : cresult ustr :=
  if bool_decide (field = [42]) then Ok field
  else match field_days (split_at 44 field) with
       | Raise e => Raise e
       | Ok days => Ok (spell days)
       end.

Record cron_fields := { minute : ustr; hour : ustr; day : ustr; month : ustr; day_of_week : ustr }.

Definition crontab_fields (expression : ustr) : cresult cron_fields :=
  match split_words expression with
  | [m; h; d; mo; dow] =>
      match standard_day_of_week dow with
      | Raise e => Raise e
      | Ok dow => Ok {| minute := m; hour := h; day := d; month := mo; day_of_week := dow |}
      end
  | _ => Raise "ValueError"
  end.
End crontab.
