(* ===== verification/Priority.v ===== *)
(** * Queue priorities: [src/scrapeyard/queue/priority.py]

    The three fixed priorities, their intake queue names, and the weighted
    admission policy: a cursor over a repeating cycle of seven fair turns. The
    theorems show that the policy is work conserving (every turn tries every
    queue, the preferred one first), that the cursor stays in range for ever,
    and that any seven consecutive turns prefer [high] four times, [normal]
    twice and [low] once, whatever turn they start from. *)

From S2P Require Import Prelude.

Module Priority.

Local Open Scope string_scope.

Definition PRIORITIES : list string := ["high"; "normal"; "low"].

Definition FAIR_ADMISSION_CYCLE : list string :=
  ["high"; "high"; "high"; "high"; "normal"; "normal"; "low"].

(** The name of the intake queue of one priority. *)
Definition priority_queue_name (base_queue_name priority : string) : string :=
  base_queue_name ++ ":priority:" ++ priority.

(** The dict of all of them, in the order of [PRIORITIES]. *)
Definition priority_queue_names (base_queue_name : string) : list (string * string) :=
  map (λ priority, (priority, priority_queue_name base_queue_name priority)) PRIORITIES.

Record WeightedPriorityPolicy := { cursor : nat }.

(** [FAIR_ADMISSION_CYCLE[self.cursor]]; [None] is the [IndexError]. *)
Definition preferred (p : WeightedPriorityPolicy) : option string :=
  FAIR_ADMISSION_CYCLE !! cursor p.

Definition selection_order (p : WeightedPriorityPolicy) : option (list string) :=
  match preferred p with
  | Some pref => Some (pref :: filter (λ q, q ≠ pref) PRIORITIES)
  | None => None
  end.

Definition policy_admitted (p : WeightedPriorityPolicy) : WeightedPriorityPolicy :=
  {| cursor := (cursor p + 1) mod length FAIR_ADMISSION_CYCLE |}.

Definition policy_init : WeightedPriorityPolicy := {| cursor := 0 |}.

(** The policy after [n] further deliveries were taken in. *)
Definition after (n : nat) (p : WeightedPriorityPolicy) : WeightedPriorityPolicy :=
  Nat.iter n policy_admitted p.

(** The class invariant: the cursor indexes the cycle. *)
Definition policy_wf (p : WeightedPriorityPolicy) : Prop :=
  cursor p < length FAIR_ADMISSION_CYCLE.

Lemma policy_init_wf : policy_wf policy_init.
Proof. unfold policy_wf; simpl; lia. Qed.

Lemma policy_admitted_wf p : policy_wf (policy_admitted p).
Proof. unfold policy_wf, policy_admitted. apply Nat.mod_upper_bound. simpl; lia. Qed.

Lemma after_wf n p : policy_wf p → policy_wf (after n p).
Proof. destruct n; [done|]. intros _. apply policy_admitted_wf. Qed.

#[export] Hint Resolve policy_init_wf policy_admitted_wf after_wf : scrape.

(** Every in-range cursor, by enumeration. *)
Lemma policy_cases p :
  policy_wf p → p ∈ map (λ c, {| cursor := c |}) (seq 0 7).
Proof.
  destruct p as [c]. unfold policy_wf; simpl. intros Hc.
  do 7 (destruct c as [|c]; [set_solver|]). lia.
Qed.

Ltac each_policy H :=
  apply policy_cases in H; simpl in H;
  repeat (apply elem_of_cons in H as [->|H]; [|]); [..|by apply elem_of_nil in H].

Lemma preferred_wf p : policy_wf p → ∃ q, preferred p = Some q ∧ q ∈ PRIORITIES.
Proof. intros H. each_policy H; eexists; (split; [reflexivity|set_solver]). Qed.

(** Work conservation: with the cursor in range, every turn has a
    selection order; it starts with the preferred priority and is a
    permutation of all three priorities, so a turn finds a delivery whenever
    any intake queue has one. The remaining two keep their fixed
    high-to-low order. *)
Theorem selection_order_work_conserving p :
  policy_wf p →
  ∃ pref rest, selection_order p = Some (pref :: rest)
    ∧ preferred p = Some pref
    ∧ pref :: rest ≡ₚ PRIORITIES
    ∧ sublist rest PRIORITIES.
Proof.
  intros H. each_policy H; eexists _, _; (split; [reflexivity|]);
    (split; [reflexivity|]); (split; [apply (bool_decide_unpack _); vm_compute; exact I|]);
    repeat first [apply sublist_nil | apply sublist_skip | apply sublist_cons]; done.
Qed.

Lemma selection_order_work_conserving_witness :
  policy_wf {| cursor := 6 |} ∧
  ∃ pref rest, selection_order {| cursor := 6 |} = Some (pref :: rest)
    ∧ preferred {| cursor := 6 |} = Some pref
    ∧ pref :: rest ≡ₚ PRIORITIES ∧ sublist rest PRIORITIES.
Proof.
  assert (H : policy_wf {| cursor := 6 |}) by (unfold policy_wf; simpl; lia).
  split; [exact H | exact (selection_order_work_conserving _ H)].
Defined.

(** The preferred priorities of [n] consecutive turns. *)
Definition turns (n : nat) (p : WeightedPriorityPolicy) : list (option string) :=
  map (λ i, preferred (after i p)) (seq 0 n).

Definition turn_count (q : string) (n : nat) (p : WeightedPriorityPolicy) : nat :=
  length (filter (λ o, o = Some q) (turns n p)).

(** The weights: in any seven consecutive turns, from any cursor, high is
    preferred exactly four times, normal twice and low once; and after seven
    turns the policy is where it started. *)
Theorem fair_turns_in_a_cycle p :
  policy_wf p →
  turn_count "high" 7 p = 4 ∧ turn_count "normal" 7 p = 2
  ∧ turn_count "low" 7 p = 1 ∧ after 7 p = p.
Proof. intros H. each_policy H; repeat split; vm_compute; reflexivity. Qed.

Lemma fair_turns_in_a_cycle_witness :
  policy_wf {| cursor := 5 |} ∧ turn_count "low" 7 {| cursor := 5 |} = 1.
Proof.
  assert (H : policy_wf {| cursor := 5 |}) by (unfold policy_wf; simpl; lia).
  split; [exact H | exact (proj1 (proj2 (proj2 (fair_turns_in_a_cycle _ H))))].
Defined.

(** Each priority's turn comes within seven turns. *)
Lemma turn_within_seven p q :
  policy_wf p → q ∈ PRIORITIES → ∃ i, i < 7 ∧ preferred (after i p) = Some q.
Proof.
  intros H Hq.
  assert (Hn : 0 < turn_count q 7 p).
  { each_policy H; unfold PRIORITIES in Hq;
      repeat (apply elem_of_cons in Hq as [->|Hq]; [vm_compute; lia|]);
      by apply elem_of_nil in Hq. }
  unfold turn_count in Hn.
  destruct (filter _ (turns 7 p)) as [|o l] eqn:E; [simpl in Hn; lia|].
  assert (Ho : o ∈ filter (λ o, o = Some q) (turns 7 p)) by (rewrite E; set_solver).
  apply list_elem_of_filter in Ho as [-> Ho]. unfold turns in Ho.
  apply list_elem_of_In, in_map_iff in Ho as (i & Hi & Hin). apply in_seq in Hin.
  exists i. split; [lia | done].
Qed.

Lemma after_S n p : after (S n) p = after n (policy_admitted p).
Proof. unfold after. by rewrite <- Nat.iter_succ_r. Qed.

Lemma priority_queue_name_inj base p q :
  priority_queue_name base p = priority_queue_name base q → p = q.
Proof.
  unfold priority_queue_name. intros H.
  apply (inj (String.append base)) in H. by simplify_eq/=.
Qed.

End Priority.
