(* ===== verification/Redis.v ===== *)
(** * The Redis commands the service relies on

    Redis is not part of the repository: the queue, the rate limiter and the
    domain guard reach it through commands and Lua scripts. The class [Redis]
    is the interface they are verified against: string keys with an optional
    expiry time, and sorted sets; its laws are the documented effect of each
    write on later reads. The commands the service issues (GET, SET with EX,
    PSETEX, DEL, EXISTS, PTTL, INCR, EXPIRE, ZSCORE, ZADD, ZREM, ZRANGEBYSCORE
    with LIMIT 0 1, ZCOUNT, ZCARD) are the operations of the class or one-line definitions over
    them. [GRedis] at the end is a concrete store on finite maps that satisfies
    every law, so the interface is inhabited and witnesses evaluate against it.

    A key written at time [now] with a lifetime of [ttl] milliseconds exists
    until [now + ttl]. Sorted sets never expire here (no script sets a
    lifetime on one). Scores are integers: the queue's scores are multiples
    of 0.001, kept in thousandths. *)

From S2P Require Import Prelude.
From stdpp Require Import fin_maps.

Local Open Scope Z_scope.

(** The content of a string key: a number (stored in decimal) or opaque bytes. *)
Inductive bulk : Type :=
| Num (z : Z)
| Blob (b : string).

#[export] Instance bulk_eq_dec : EqDecision bulk.
Proof. solve_decision. Defined.

(** A stored string key: its content and, when it expires, the time it does. *)
Definition entry : Type := bulk * option Z.

(** The order of a sorted set: by score, then by member. *)
Definition zbefore (a b : string * Z) : bool :=
  (a.2 <? b.2) || ((a.2 =? b.2) && String.leb a.1 b.1).

Class Redis (S : Type) : Type := {
  r_entry : S → string → option entry;
  r_write : S → string → option entry → S;
  z_score : S → string → string → option Z;
  z_add : S → string → string → Z → S;
  z_rem : S → string → string → S;
  z_members : S → string → list (string * Z);

  entry_write s k e k' :
    r_entry (r_write s k e) k' = if decide (k = k') then e else r_entry s k';
  entry_add s q m x k : r_entry (z_add s q m x) k = r_entry s k;
  entry_rem s q m k : r_entry (z_rem s q m) k = r_entry s k;
  score_add s q m x q' m' :
    z_score (z_add s q m x) q' m' =
      if decide (q = q' ∧ m = m') then Some x else z_score s q' m';
  score_rem s q m q' m' :
    z_score (z_rem s q m) q' m' =
      if decide (q = q' ∧ m = m') then None else z_score s q' m';
  score_write s k e q m : z_score (r_write s k e) q m = z_score s q m;
  members_nodup s q : NoDup (z_members s q).*1;
  members_score s q m x : (m, x) ∈ z_members s q ↔ z_score s q m = Some x;
}.

Lemma zbefore_total a b : zbefore a b = true ∨ zbefore b a = true.
Proof.
  destruct a as [m x], b as [n y]. unfold zbefore; simpl.
  destruct (Z.lt_trichotomy x y) as [Hxy|[->|Hxy]].
  - left. apply Z.ltb_lt in Hxy. by rewrite Hxy.
  - rewrite Z.ltb_irrefl, Z.eqb_refl. simpl. apply str_leb_total.
  - right. apply Z.ltb_lt in Hxy. by rewrite Hxy.
Qed.

Lemma zbefore_trans a b c :
  zbefore a b = true → zbefore b c = true → zbefore a c = true.
Proof.
  destruct a as [m x], b as [n y], c as [o z]. unfold zbefore; simpl.
  rewrite !orb_true_iff, !andb_true_iff, !Z.ltb_lt, !Z.eqb_eq.
  intros [?|[-> ?]] [?|[-> ?]]; [left; lia..|right]. split; [done|].
  by eapply str_leb_trans.
Qed.

Section redis_commands.
Context {S : Type} `{Redis S}.
Implicit Types (s t : S).

(** GET *)
Definition r_get s (now : Z) (k : string) : option bulk :=
  match r_entry s k with
  | Some (v, None) => Some v
  | Some (v, Some d) => if now <? d then Some v else None
  | None => None
  end.

(** EXISTS *)
Definition r_exists s (now : Z) (k : string) : bool :=
  bool_decide (is_Some (r_get s now k)).

(** SET, and SET .. EX / PSETEX with the lifetime in milliseconds *)
Definition r_set s (k : string) (v : bulk) : S := r_write s k (Some (v, None)).
Definition r_setex s (now : Z) (k : string) (ttl : Z) (v : bulk) : S :=
  r_write s k (Some (v, Some (now + ttl))).

(** DEL *)
Definition r_del s (k : string) : S := r_write s k None.

(** PTTL: the remaining lifetime; -1 without one, -2 without the key *)
Definition r_pttl s (now : Z) (k : string) : Z :=
  match r_entry s k with
  | Some (_, Some d) => if now <? d then d - now else -2
  | Some (_, None) => -1
  | None => -2
  end.

(** ZRANGEBYSCORE key -inf max, its first member; ZCOUNT key -inf max; ZCARD *)
Definition z_upto s (q : string) (mx : Z) : list (string * Z) :=
  filter (λ e, e.2 ≤ mx) (z_members s q).
Definition z_first s (q : string) (mx : Z) : option (string * Z) :=
  list_least zbefore (z_upto s q mx).
Definition z_count s (q : string) (mx : Z) : nat := length (z_upto s q mx).
Definition z_card s (q : string) : nat := length (z_members s q).

(** INCR: a missing or expired key counts from zero and has no lifetime, an
    existing one keeps its lifetime; [None] is the error for a value that is not
    an integer. EXPIRE gives an existing key a lifetime. *)
Definition r_incr s (now : Z) (k : string) : option (Z * S) :=
  match r_entry s k with
  | Some (Num n, None) => Some (n + 1, r_write s k (Some (Num (n + 1), None)))
  | Some (Num n, Some d) =>
      if now <? d then Some (n + 1, r_write s k (Some (Num (n + 1), Some d)))
      else Some (1, r_write s k (Some (Num 1, None)))
  | Some (Blob _, Some d) =>
      if now <? d then None else Some (1, r_write s k (Some (Num 1, None)))
  | Some (Blob _, None) => None
  | None => Some (1, r_write s k (Some (Num 1, None)))
  end.

Definition r_expire s (now : Z) (k : string) (ttl : Z) : S :=
  match r_get s now k with
  | Some v => r_write s k (Some (v, Some (now + ttl)))
  | None => s
  end.

(** ** Reads after writes *)

Lemma get_write s k e now k' :
  r_get (r_write s k e) now k' =
    if decide (k = k') then
      match e with
      | Some (v, None) => Some v
      | Some (v, Some d) => if now <? d then Some v else None
      | None => None
      end
    else r_get s now k'.
Proof. unfold r_get. rewrite entry_write. by case_decide. Qed.

Lemma get_add s q m x now k : r_get (z_add s q m x) now k = r_get s now k.
Proof. unfold r_get. by rewrite entry_add. Qed.

Lemma get_rem s q m now k : r_get (z_rem s q m) now k = r_get s now k.
Proof. unfold r_get. by rewrite entry_rem. Qed.

Lemma exists_add s q m x now k : r_exists (z_add s q m x) now k = r_exists s now k.
Proof. unfold r_exists. by rewrite get_add. Qed.

Lemma exists_rem s q m now k : r_exists (z_rem s q m) now k = r_exists s now k.
Proof. unfold r_exists. by rewrite get_rem. Qed.

Lemma exists_write_other s k e now k' :
  k ≠ k' → r_exists (r_write s k e) now k' = r_exists s now k'.
Proof. intros. unfold r_exists. rewrite get_write. by rewrite decide_False. Qed.

Lemma exists_del s now k : r_exists (r_del s k) now k = false.
Proof.
  unfold r_exists, r_del. rewrite get_write, decide_True by done.
  apply bool_decide_eq_false. by intros [? ?].
Qed.

Lemma exists_setex s now k ttl v now' :
  r_exists (r_setex s now k ttl v) now' k = (now' <? now + ttl).
Proof.
  unfold r_exists, r_setex. rewrite get_write, decide_True by done.
  destruct (now' <? now + ttl); [by apply bool_decide_eq_true|].
  apply bool_decide_eq_false. by intros [? ?].
Qed.

(** A key that exists later, with no write between, existed before. *)
Lemma exists_mono s k now now' :
  now ≤ now' → r_exists s now' k = true → r_exists s now k = true.
Proof.
  unfold r_exists, r_get. rewrite !bool_decide_eq_true.
  destruct (r_entry s k) as [[v [d|]]|]; [|done..].
  intros Hle [w Hw]. destruct (Z.ltb_spec now' d); [|done].
  destruct (Z.ltb_spec now d); [eauto|lia].
Qed.

Lemma zrem_same s q m : z_score (z_rem s q m) q m = None.
Proof. rewrite score_rem. by rewrite decide_True. Qed.

Lemma zrem_other s q m q' m' :
  q ≠ q' ∨ m ≠ m' → z_score (z_rem s q m) q' m' = z_score s q' m'.
Proof. intros. rewrite score_rem. rewrite decide_False; [done|naive_solver]. Qed.

Lemma zrem_some s q m q' m' x :
  z_score (z_rem s q m) q' m' = Some x → z_score s q' m' = Some x.
Proof. rewrite score_rem. by case_decide. Qed.

Lemma zadd_same s q m x : z_score (z_add s q m x) q m = Some x.
Proof. rewrite score_add. by rewrite decide_True. Qed.

Lemma zadd_other s q m x q' m' :
  q ≠ q' ∨ m ≠ m' → z_score (z_add s q m x) q' m' = z_score s q' m'.
Proof. intros. rewrite score_add. rewrite decide_False; [done|naive_solver]. Qed.

Lemma upto_elem s q mx m x : (m, x) ∈ z_upto s q mx ↔ z_score s q m = Some x ∧ x ≤ mx.
Proof. unfold z_upto. rewrite list_elem_of_filter, members_score. naive_solver. Qed.

Lemma first_none s q mx :
  z_first s q mx = None ↔ ∀ m x, z_score s q m = Some x → mx < x.
Proof.
  unfold z_first. rewrite list_least_None. split.
  - intros Hnil m x Hs. destruct (Z.lt_ge_cases mx x) as [|Hx]; [done|].
    assert (Hin : (m, x) ∈ z_upto s q mx) by by apply upto_elem.
    rewrite Hnil in Hin. by apply elem_of_nil in Hin.
  - intros Hall. destruct (z_upto s q mx) as [|[m x] l] eqn:E; [done|].
    assert (Hin : (m, x) ∈ z_upto s q mx) by (rewrite E; set_solver).
    apply upto_elem in Hin as [Hs Hx]. specialize (Hall _ _ Hs). lia.
Qed.

Lemma first_some s q mx m x :
  z_first s q mx = Some (m, x) →
  z_score s q m = Some x ∧ x ≤ mx
  ∧ ∀ m' x', z_score s q m' = Some x' → zbefore (m, x) (m', x') = true.
Proof.
  intros Hf. unfold z_first in Hf.
  pose proof (list_least_elem _ _ _ Hf) as Hin. apply upto_elem in Hin as [Hs Hx].
  repeat split; [done..|]. intros m' x' Hs'.
  destruct (Z.le_gt_cases x' mx) as [Hx'|Hx'].
  - eapply list_least_least; eauto using zbefore_total, zbefore_trans.
    by apply upto_elem.
  - unfold zbefore; simpl. apply orb_true_iff. left. apply Z.ltb_lt. lia.
Qed.

Lemma first_least s q mx m x m' x' :
  z_first s q mx = Some (m, x) → z_score s q m' = Some x' → x ≤ x'.
Proof.
  intros Hf Hs. destruct (first_some _ _ _ _ _ Hf) as (_ & _ & Hl).
  specialize (Hl _ _ Hs). unfold zbefore in Hl; simpl in Hl.
  apply orb_true_iff in Hl as [Hl|Hl]; boolprop; lia.
Qed.

Lemma first_is_some s q mx m x :
  z_score s q m = Some x → x ≤ mx → is_Some (z_first s q mx).
Proof.
  intros Hs Hx. destruct (z_first s q mx) eqn:E; [eauto|].
  rewrite first_none in E. specialize (E _ _ Hs). lia.
Qed.

(** ** Stores that no read distinguishes *)

Definition r_equiv (s t : S) : Prop :=
  (∀ k, r_entry s k = r_entry t k) ∧ (∀ q m, z_score s q m = z_score t q m).

#[export] Instance r_equiv_equivalence : Equivalence r_equiv.
Proof.
  split; [by intros s | intros s t [??]; split; intros; by symmetry |].
  intros s t u [H1 H2] [K1 K2]. split; intros; etrans; eauto.
Qed.

#[export] Instance r_write_proper : Proper (r_equiv ==> eq ==> eq ==> r_equiv) r_write.
Proof.
  intros s t [H1 H2] k ? <- e ? <-.
  split; intros; rewrite ?entry_write, ?score_write, ?H1, ?H2; done.
Qed.

#[export] Instance z_rem_proper : Proper (r_equiv ==> eq ==> eq ==> r_equiv) z_rem.
Proof.
  intros s t [H1 H2] q ? <- m ? <-.
  split; intros; rewrite ?entry_rem, ?score_rem, ?H1, ?H2; done.
Qed.

#[export] Instance z_add_proper :
  Proper (r_equiv ==> eq ==> eq ==> eq ==> r_equiv) z_add.
Proof.
  intros s t [H1 H2] q ? <- m ? <- x ? <-.
  split; intros; rewrite ?entry_add, ?score_add, ?H1, ?H2; done.
Qed.

#[export] Instance r_get_proper : Proper (r_equiv ==> eq ==> eq ==> eq) r_get.
Proof. intros s t [H1 H2] n ? <- k ? <-. unfold r_get. by rewrite H1. Qed.

#[export] Instance r_exists_proper : Proper (r_equiv ==> eq ==> eq ==> eq) r_exists.
Proof.
  intros s t Hst n ? <- k ? <-. unfold r_exists.
  assert (r_get s n k = r_get t n k) as -> by by rewrite Hst. done.
Qed.

(** Removing a member that is not there changes nothing. *)
Lemma zrem_absent s q m : z_score s q m = None → r_equiv (z_rem s q m) s.
Proof.
  intros Hn. split; intros; [by rewrite entry_rem|].
  rewrite score_rem. case_decide; naive_solver.
Qed.
End redis_commands.

(** ** Scripts by digest

    A client calls a script by its digest: it loads the script once, remembers the
    digest, and loads it again when the server answers [NOSCRIPT] because its cache
    was flushed. [server_has] and [sha_cached] are the two sides of that; the loop of
    the clients has at most two rounds when nobody flushes in between, so two units
    of fuel are enough. *)
Record scripted (T : Type) : Type := {
  store : T;
  server_has : bool;
  sha_cached : bool;
}.
Arguments store {T}. Arguments server_has {T}. Arguments sha_cached {T}.
Arguments Build_scripted {T}.

Fixpoint evalsha {T A} (fuel : nat) (script : T → A * T) (c : scripted T) :
    option (A * scripted T) :=
  match fuel with
  | O => None
  | Datatypes.S fuel =>
      let c := if sha_cached c then c else Build_scripted (store c) true true in
      if server_has c
      then let '(a, t) := script (store c) in
           Some (a, Build_scripted t (server_has c) (sha_cached c))
      else evalsha fuel script (Build_scripted (store c) false false)
  end.

Lemma evalsha_total {T A} (script : T → A * T) (c : scripted T) :
  ∃ c', evalsha 2 script c = Some ((script (store c)).1, c') ∧
        store c' = (script (store c)).2.
Proof.
  destruct c as [t [] []]; simpl; destruct (script t); simpl; eauto.
Qed.

(** ** A concrete store *)

Record GRedis : Type := {
  g_strings : gmap string entry;
  g_sets : gmap (string * string) Z;   (** (key, member) to score *)
}.

Definition g_empty : GRedis := {| g_strings := ∅; g_sets := ∅ |}.

Definition g_members (s : GRedis) (q : string) : list (string * Z) :=
  omap (λ e : (string * string) * Z,
          if bool_decide (e.1.1 = q) then Some (e.1.2, e.2) else None)
       (map_to_list (g_sets s)).

Lemma g_members_elem s q m x : (m, x) ∈ g_members s q ↔ g_sets s !! (q, m) = Some x.
Proof.
  unfold g_members. rewrite list_elem_of_omap. split.
  - intros ([[q' m'] x'] & Hin & He). apply elem_of_map_to_list in Hin. simpl in He.
    destruct (bool_decide (q' = q)) eqn:E; [|done]. boolprop. by simplify_eq.
  - intros Hs. exists ((q, m), x). split; [by apply elem_of_map_to_list|].
    simpl. by rewrite bool_decide_true by done.
Qed.

Lemma g_members_nodup s q : NoDup (g_members s q).*1.
Proof.
  unfold g_members. pose proof (NoDup_fst_map_to_list (g_sets s)) as Hnd.
  assert (Hl : ∀ k x, (k, x) ∈ map_to_list (g_sets s) → g_sets s !! k = Some x)
    by (intros; by apply elem_of_map_to_list).
  revert Hnd Hl. generalize (map_to_list (g_sets s)) as l.
  induction l as [|[[q' m'] x'] l IH]; csimpl; intros Hnd Hl; [constructor|].
  apply NoDup_cons in Hnd as [Hni Hnd].
  destruct (bool_decide (q' = q)) eqn:E; [|apply IH; [done|set_solver]].
  boolprop; subst. csimpl. apply NoDup_cons. split; [|apply IH; [done|set_solver]].
  intros Hin. apply Hni. apply list_elem_of_fmap in Hin as ([m2 x2] & Hm & Hin).
  apply list_elem_of_omap in Hin as ([[q3 m3] x3] & Hin & He); simpl in *.
  destruct (bool_decide (q3 = q)) eqn:E; [|done]. boolprop; simplify_eq.
  apply list_elem_of_fmap. eexists. by split; [|exact Hin].
Qed.

#[export] Program Instance GRedis_redis : Redis GRedis := {
  r_entry s k := g_strings s !! k;
  r_write s k e :=
    {| g_strings := partial_alter (λ _, e) k (g_strings s); g_sets := g_sets s |};
  z_score s q m := g_sets s !! (q, m);
  z_add s q m x := {| g_strings := g_strings s; g_sets := <[(q, m) := x]> (g_sets s) |};
  z_rem s q m := {| g_strings := g_strings s; g_sets := delete (q, m) (g_sets s) |};
  z_members := g_members;
  members_nodup := g_members_nodup;
  members_score := g_members_elem;
}.
Next Obligation.
  intros s k e k'. simpl. case_decide as Hk; [subst; apply lookup_partial_alter_eq|].
  by apply lookup_partial_alter_ne.
Qed.
Next Obligation. done. Qed.
Next Obligation. done. Qed.
Next Obligation.
  intros s q m x q' m'. simpl. rewrite lookup_insert.
  repeat case_decide; naive_solver.
Qed.
Next Obligation.
  intros s q m q' m'. simpl. rewrite lookup_delete.
  repeat case_decide; naive_solver.
Qed.
Next Obligation. done. Qed.
