(* ===== verification/Queue.v ===== *)
(** * The Redis-backed run queue: [src/scrapeyard/queue/pool.py]

    One delivery per run id. Accepted deliveries wait in one of three priority
    intake queues; the embedded worker moves them to the base execution queue
    one at a time, in the order of the weighted policy of [Priority], and the
    arq library executes what is in the base queue. The three Lua scripts run
    atomically in Redis and are translated statement by statement; the Python
    methods around them follow. Time is in milliseconds; scores are in
    thousandths of a millisecond (the scripts' 0.001 steps). A script gets the
    server's clock ([now]: key expiry) and the caller's ([ready_ms],
    [enqueue_ms]) separately.

    [qstep] is the system: any interleaving of enqueues, admissions, removals of
    unstarted deliveries, startup releases and whatever arq and key expiry do to
    the worker's own keys. The theorems: a run is never in two queues; the first
    enqueue of a run wins; each intake queue is first-in first-out whatever the
    clocks do; admission takes the oldest due delivery of the first non-empty
    queue, never fills the base queue past the worker's limit, and serves every
    priority within seven turns; a removed delivery is gone from every queue;
    and [cancel_run] answers as its outcome promises. *)

From S2P Require Import Prelude Redis Priority.
Import Priority.

Local Open Scope Z_scope.

(** ** Names *)

(** The queue's base name and arq's three key prefixes, with what the code
    relies on: the three families of keys, and the queues' score keys, do not
    overlap. *)
Class QueueNames : Type := {
  base_queue_name : string;
  job_key_prefix : string;
  result_key_prefix : string;
  in_progress_key_prefix : string;
  job_result_disjoint r r' :
    String.append job_key_prefix r ≠ String.append result_key_prefix r';
  job_progress_disjoint r r' :
    String.append job_key_prefix r ≠ String.append in_progress_key_prefix r';
  fifo_disjoint p r :
    p ∈ PRIORITIES →
    String.append (priority_queue_name base_queue_name p) ":fifo-score"
    ≠ String.append job_key_prefix r;
  fifo_progress_disjoint p r :
    p ∈ PRIORITIES →
    String.append (priority_queue_name base_queue_name p) ":fifo-score"
    ≠ String.append in_progress_key_prefix r;
}.

(** [QueueDeliveryState], [QueueCancellationOutcome]: cancellation.py *)
Inductive QueueDeliveryState : Type :=
| st_queued | st_deferred | st_in_progress | st_complete | st_missing.

Inductive QueueCancellationOutcome : Type :=
| queued_cancelled | deferred_cancelled | in_progress_cancelled
| oc_complete | oc_missing | oc_timeout | oc_unavailable.

#[export] Instance QueueDeliveryState_eq_dec : EqDecision QueueDeliveryState.
Proof. solve_decision. Defined.
#[export] Instance QueueCancellationOutcome_eq_dec : EqDecision QueueCancellationOutcome.
Proof. solve_decision. Defined.

(** Errors a script or method raises. *)
Inductive queue_error : Type :=
| ScriptError                (** Lua: arithmetic on a value that is no number *)
| MultipleQueues             (** the run is in more than one configured queue *)
| UnknownPriority
| MissingRunId
| NotStarted
| ShutdownUnresolved
| RedisDown
| KeyError.

#[export] Instance queue_error_eq_dec : EqDecision queue_error.
Proof. solve_decision. Defined.

Record DeliverySnapshot : Type := {
  snap_state : QueueDeliveryState;
  snap_queue : option string;
}.

Record RunCancellationResult : Type := {
  rc_outcome : QueueCancellationOutcome;
  rc_initial : option QueueDeliveryState;
  rc_final : option QueueDeliveryState;
}.

Definition quiescent (r : RunCancellationResult) : bool :=
  negb (bool_decide (rc_outcome r = oc_timeout ∨ rc_outcome r = oc_unavailable)).

Section queue.
Context {T : Type} `{Redis T} `{QueueNames}.
Implicit Types (s : T) (q r m : string) (p : WeightedPriorityPolicy).

Definition job_key r : string := String.append job_key_prefix r.
Definition result_key r : string := String.append result_key_prefix r.
Definition in_progress_key r : string := String.append in_progress_key_prefix r.

Definition intake q_priority : string := priority_queue_name base_queue_name q_priority.
Definition fifo_key q : string := String.append q ":fifo-score".

(** [self._known_queues]: the base execution queue, then the intake queues. *)
Definition known_queues : list string := base_queue_name :: map intake PRIORITIES.

(** ** The scripts *)

(** [_ATOMIC_ENQUEUE_LUA]: true when the delivery was stored. *)
Definition atomic_enqueue (now : Z) (target r : string)
    (enqueue_ms payload_ttl_ms : Z) (payload : string) : prog T queue_error bool := λ s,
  if r_exists s now (result_key r) || r_exists s now (in_progress_key r)
  then (Ok false, s)
  else
    let payload_exists := r_exists s now (job_key r) in
    if payload_exists && existsb (λ q, bool_decide (is_Some (z_score s q r))) known_queues
    then (Ok false, s)
    else
      let s1 := if payload_exists then s
                else foldl (λ s q, z_rem s q r) s known_queues in
      let arg := 1000 * enqueue_ms in
      match r_get s1 now (fifo_key target) with
      | Some (Blob _) => (Raise ScriptError, s1)
      | last =>
          let score := match last with
                       | Some (Num l) => if arg <=? l then l + 1 else arg
                       | _ => arg
                       end in
          let ttl := payload_ttl_ms + ceil_div (Z.max 0 (score - arg)) 1000 in
          let s2 := r_setex s1 now (job_key r) ttl (Blob payload) in
          let s3 := z_add s2 target r score in
          (Ok true, r_set s3 (fifo_key target) (Num score))
      end.

(** [_ADMIT_ONE_LUA], one intake queue: remove its oldest due member until one
    still has a payload. [left] is how many more orphans may be removed. *)
Inductive drained : Type :=
| Moved (m q : string)
| QueueDone (left : nat)
| LimitReached.

Fixpoint drain (left : nat) (now ready_ms : Z) (q : string) (s : T) : drained * T :=
  match z_first s q (1000 * ready_ms) with
  | None => (QueueDone left, s)
  | Some (m, x) =>
      let s1 := z_rem s q m in
      if r_exists s1 now (job_key m)
      then (Moved m q, z_add s1 base_queue_name m x)
      else match left with
           | S (S _ as left') => drain left' now ready_ms q s1
           | _ => (LimitReached, s1)
           end
  end.

(** The script's loop over the three queues in the policy's order. *)
Fixpoint admit_script (left : nat) (now ready_ms : Z) (queues : list string) (s : T) :
    option (string * string) * T :=
  match queues with
  | [] => (None, s)
  | q :: rest =>
      match drain left now ready_ms q s with
      | (Moved m q', s') => (Some (m, q'), s')
      | (LimitReached, s') => (None, s')
      | (QueueDone left', s') => admit_script left' now ready_ms rest s'
      end
  end.

Definition orphan_limit : nat := 100.

(** [_PriorityWorker._admit_one] *)
Definition admit_one (now ready_ms : Z) (ps : WeightedPriorityPolicy * T) :
    option (string * string) * (WeightedPriorityPolicy * T) :=
  let (p, s) := ps in
  match selection_order p with
  | None => (None, ps)
  | Some order =>
      match admit_script orphan_limit now ready_ms (map intake order) s with
      | (Some mq, s') => (Some mq, (policy_admitted p, s'))
      | (None, s') => (None, (p, s'))
      end
  end.

(** [_poll_iteration]'s admission loop: at most [available] times, until one
    attempt takes nothing. *)
Fixpoint admit_loop (available : nat) (now ready_ms : Z)
    (ps : WeightedPriorityPolicy * T) : WeightedPriorityPolicy * T :=
  match available with
  | O => ps
  | S n =>
      match admit_one now ready_ms ps with
      | (None, ps') => ps'
      | (Some _, ps') => admit_loop n now ready_ms ps'
      end
  end.

(** The start of [_poll_iteration]: nothing is taken in unless the worker is
    picking jobs, is not full and has memory; then as many deliveries as the
    base queue has room for. *)
Definition poll_admissions (allow_pick_jobs : bool) (job_counter max_jobs : nat)
    (memory_available : bool) (now ready_ms : Z) (ps : WeightedPriorityPolicy * T) :
    WeightedPriorityPolicy * T :=
  if allow_pick_jobs && Nat.ltb job_counter max_jobs && memory_available
  then
    let ready := z_count ps.2 base_queue_name (1000 * ready_ms) in
    admit_loop (max_jobs - ready) now ready_ms ps
  else ps.

(** [_REMOVE_UNSTARTED_LUA]: how many queues held the delivery. *)
Definition remove_unstarted (now : Z) (r : string) (s : T) : nat * T :=
  if r_exists s now (in_progress_key r) then (0%nat, s)
  else
    let '(removed, s') :=
      foldl (λ acc q,
               ((acc.1 + if bool_decide (is_Some (z_score acc.2 q r)) then 1 else 0)%nat,
                z_rem acc.2 q r))
            (0%nat, s) known_queues in
    (removed, if (0 <? removed)%nat then r_del s' (job_key r) else s').

(** [_delivery_snapshot]: one transaction reads the three keys and the four
    scores; [clock_ms] is the caller's clock. *)
Definition delivery_snapshot (now clock_ms : Z) (r : string) (s : T) :
    outcome queue_error DeliverySnapshot :=
  let queue_members :=
    omap (λ q, (λ x, (q, x)) <$> z_score s q r) known_queues in
  if r_exists s now (result_key r)
  then Ok {| snap_state := st_complete; snap_queue := None |}
  else if (1 <? length queue_members)%nat then Raise MultipleQueues
  else
    let located := fst <$> head queue_members in
    if r_exists s now (in_progress_key r)
    then Ok {| snap_state := st_in_progress; snap_queue := located |}
    else
      match r_exists s now (job_key r), head queue_members with
      | true, Some (q, x) =>
          Ok {| snap_state := if 1000 * clock_ms <? x then st_deferred else st_queued;
                snap_queue := Some q |}
      | _, _ => Ok {| snap_state := st_missing; snap_queue := None |}
      end.

(** [WorkerPool.enqueue]: the guards, then the script. The caller gets a handle
    on the run id. *)
Definition pool_enqueue (started stopping : bool) (now : Z) (priority : string)
    (run_id : option string) (enqueue_ms payload_ttl_ms : Z) (payload : string) :
    prog T queue_error string :=
  if stopping then praise ShutdownUnresolved
  else if negb started then praise NotStarted
  else if negb (bool_decide (priority ∈ PRIORITIES)) then praise UnknownPriority
  else
    match run_id with
    | None => praise MissingRunId
    | Some r =>
        do! atomic_enqueue now (intake priority) r enqueue_ms payload_ttl_ms payload in
        pret r
    end.

(** [_release_abandoned_deliveries]: at startup, the in-progress keys of
    every member of the base queue are deleted. *)
Definition release_abandoned (s : T) : T :=
  foldl (λ s m, r_del s (in_progress_key m)) s (z_members s base_queue_name).*1.

(** ** Cancellation of one delivery

    [cancel_run] awaits Redis several times, and anything may happen between
    two awaits. [env n] is what the rest of the system does to the store
    before the [n]-th Redis call, [fails n] whether that call raises,
    [now n] and [clock n] the clocks then; [abort] is arq's [Job.abort]. *)

Inductive abort_outcome : Type :=
| AbortReturned (aborted : bool)
| AbortTimeout
| AbortError.

Record cancel_env : Type := {
  env : nat → T → T;
  fails : nat → bool;
  now_at : nat → Z;
  clock_at : nat → Z;
  abort : T → abort_outcome * T;
}.

Definition cancel_result (o : QueueCancellationOutcome) (i f : option QueueDeliveryState) :
    outcome queue_error RunCancellationResult :=
  Ok {| rc_outcome := o; rc_initial := i; rc_final := f |}.

(** One [_delivery_snapshot] call of [cancel_run]. *)
Definition snapshot_call (E : cancel_env) (n : nat) r s :
    outcome queue_error DeliverySnapshot :=
  if fails E n then Raise RedisDown
  else delivery_snapshot (now_at E n) (clock_at E n) r s.

(** The [outcomes] dict. *)
Definition cancelled_outcome (st : QueueDeliveryState) : option QueueCancellationOutcome :=
  match st with
  | st_queued => Some queued_cancelled
  | st_deferred => Some deferred_cancelled
  | st_in_progress => Some in_progress_cancelled
  | _ => None
  end.

(** From [job.abort] to the end of [cancel_run]. *)
Definition abort_running (E : cancel_env) r (initial : QueueDeliveryState) s :
    outcome queue_error RunCancellationResult * T :=
  let '(o, s2) := abort E (env E 3%nat s) in
  match o with
  | AbortTimeout => (cancel_result oc_timeout (Some initial) None, s2)
  | AbortError => (cancel_result oc_unavailable (Some initial) None, s2)
  | AbortReturned aborted =>
      let s3 := env E 4%nat s2 in
      match snapshot_call E 4%nat r s3 with
      | Raise _ => (cancel_result oc_unavailable (Some initial) None, s3)
      | Ok final =>
          let fin := snap_state final in
          if aborted then
            match cancelled_outcome initial with
            | Some o => (cancel_result o (Some initial) (Some fin), s3)
            | None => (Raise KeyError, s3)
            end
          else
            match fin with
            | st_complete => (cancel_result oc_complete (Some initial) (Some fin), s3)
            | st_missing => (cancel_result oc_missing (Some initial) (Some fin), s3)
            | _ => (cancel_result oc_timeout (Some initial) (Some fin), s3)
            end
      end
  end.

(** The branch for a delivery seen queued or deferred: take it out of its
    queue at once, unless it has started meanwhile. *)
Definition cancel_unstarted (E : cancel_env) r (initial : QueueDeliveryState) s :
    outcome queue_error RunCancellationResult * T :=
  let s1 := env E 1%nat s in
  if fails E 1%nat then (cancel_result oc_unavailable (Some initial) None, s1)
  else
    let '(removed, s2) := remove_unstarted (now_at E 1%nat) r s1 in
    if (0 <? removed)%nat then
      (cancel_result (if bool_decide (initial = st_queued) then queued_cancelled
           else deferred_cancelled) (Some initial) (Some st_missing), s2)
    else
      let s3 := env E 2%nat s2 in
      match snapshot_call E 2%nat r s3 with
      | Raise _ => (cancel_result oc_unavailable (Some initial) None, s3)
      | Ok refreshed =>
          match snap_state refreshed with
          | st_complete => (cancel_result oc_complete (Some initial) (Some st_complete), s3)
          | st_missing => (cancel_result oc_missing (Some initial) (Some st_missing), s3)
          | st => abort_running E r st s3
          end
      end.

(** [WorkerPool.cancel_run] *)
Definition cancel_run (connected : bool) (E : cancel_env) r s :
    outcome queue_error RunCancellationResult * T :=
  if negb connected then (cancel_result oc_unavailable None None, s)
  else
    match snapshot_call E 0%nat r s with
    | Raise _ => (cancel_result oc_unavailable None None, s)
    | Ok snp =>
        let initial := snap_state snp in
        match initial with
        | st_complete => (cancel_result oc_complete (Some initial) (Some initial), s)
        | st_missing => (cancel_result oc_missing (Some initial) (Some initial), s)
        | _ =>
            match snap_queue snp with
            | None => (cancel_result oc_unavailable (Some initial) None, s)
            | Some _ =>
                if bool_decide (initial = st_in_progress)
                then abort_running E r initial s
                else cancel_unstarted E r initial s
            end
        end
    end.

(** ** The system: every interleaving

    [env_key] covers what arq and expiry do to the worker's keys (payloads,
    results, in-progress markers, aborts): any write to any key that is not a
    queue's score key. [env_rem] covers arq's removals from its queues. *)
Inductive qstep : WeightedPriorityPolicy * T → WeightedPriorityPolicy * T → Prop :=
| step_enqueue p s now pri r e ttl payload :
    pri ∈ PRIORITIES →
    qstep (p, s) (p, (atomic_enqueue now (intake pri) r e ttl payload s).2)
| step_admission now ready_ms ps : qstep ps (admit_one now ready_ms ps).2
| step_removal p s now r : qstep (p, s) (p, (remove_unstarted now r s).2)
| step_release p s : qstep (p, s) (p, release_abandoned s)
| env_key p s k e :
    (∀ pri, pri ∈ PRIORITIES → k ≠ fifo_key (intake pri)) →
    qstep (p, s) (p, r_write s k e)
| env_rem p s q m : qstep (p, s) (p, z_rem s q m).

(** A run is a member of at most one configured queue. *)
Definition single s : Prop :=
  ∀ r q q', q ∈ known_queues → q' ∈ known_queues →
    is_Some (z_score s q r) → is_Some (z_score s q' r) → q = q'.

(** Each intake queue's score key is absent, or holds a number no member's
    score exceeds. *)
Definition fifo_ok s : Prop :=
  ∀ pri, pri ∈ PRIORITIES →
    match r_entry s (fifo_key (intake pri)) with
    | None => ∀ m, z_score s (intake pri) m = None
    | Some (Num l, None) => ∀ m x, z_score s (intake pri) m = Some x → x ≤ l
    | _ => False
    end.

Definition queue_inv (ps : WeightedPriorityPolicy * T) : Prop :=
  policy_wf ps.1 ∧ single ps.2 ∧ fifo_ok ps.2.

End queue.

#[global] Arguments known_queues : simpl never.
#[global] Arguments intake : simpl never.
#[global] Arguments orphan_limit : simpl never.

(** ** Lemmas on names and scripts *)

Section queue_facts.
Context {T : Type} `{Redis T} `{QueueNames}.
Implicit Types (s : T) (q r m : string) (p : WeightedPriorityPolicy).

Lemma append_inj_r a b c : String.append a b = String.append a c → b = c.
Proof. induction a as [|x a IH]; simpl; [done|]. intros Heq. injection Heq. exact IH. Qed.

Lemma append_self a b : b ≠ EmptyString → String.append a b ≠ a.
Proof. intros Hb. induction a as [|x a IH]; simpl; [done|]. intros Heq. injection Heq. exact IH. Qed.

Lemma intake_inj pri pri' : intake pri = intake pri' → pri = pri'.
Proof. apply priority_queue_name_inj. Qed.

Lemma intake_not_base pri : intake pri ≠ base_queue_name.
Proof. apply append_self. done. Qed.

Lemma intake_known pri : pri ∈ PRIORITIES → intake pri ∈ known_queues.
Proof. intros. unfold known_queues. apply elem_of_cons. right. apply list_elem_of_fmap. eauto. Qed.

Lemma base_known : base_queue_name ∈ known_queues.
Proof. unfold known_queues. apply elem_of_cons. by left. Qed.

Lemma known_cases q :
  q ∈ known_queues → q = base_queue_name ∨ ∃ pri, pri ∈ PRIORITIES ∧ q = intake pri.
Proof.
  unfold known_queues. rewrite elem_of_cons. intros [->|Hq]; [by left|right].
  apply list_elem_of_fmap in Hq as (pri & -> & ?). eauto.
Qed.

Lemma append_length a b :
  String.length (String.append a b) = (String.length a + String.length b)%nat.
Proof. induction a as [|x a IH]; simpl; [done|]. by rewrite <- IH. Qed.

Lemma append_cancel_r a b c :
  String.length a = String.length b → String.append a c = String.append b c → a = b.
Proof.
  revert b. induction a as [|x a IH]; intros [|y b]; simpl; try done.
  intros Hl Heq. injection Hl as Hl. injection Heq as -> Heq. f_equal; auto.
Qed.

Lemma fifo_key_inj q q' : fifo_key q = fifo_key q' → q = q'.
Proof.
  intros Heq. eapply append_cancel_r; [|exact Heq].
  apply (f_equal String.length) in Heq. unfold fifo_key in Heq.
  rewrite !append_length in Heq. lia.
Qed.

Lemma fifo_not_job pri r : pri ∈ PRIORITIES → fifo_key (intake pri) ≠ job_key r.
Proof. intros. by apply fifo_disjoint. Qed.

Lemma job_key_inj r r' : job_key r = job_key r' → r = r'.
Proof. apply append_inj_r. Qed.

#[local] Hint Resolve intake_known base_known intake_not_base : core.

(** Removing a run from every configured queue. *)
Lemma rem_all_score s r qs q m :
  z_score (foldl (λ s q, z_rem s q r) s qs) q m
  = if decide (q ∈ qs ∧ m = r) then None else z_score s q m.
Proof.
  revert s. induction qs as [|q' qs IH]; intros s; cbn [foldl].
  - rewrite decide_False; [done|]. by intros [?%elem_of_nil ?].
  - rewrite IH, score_rem. repeat case_decide; set_solver.
Qed.

Lemma rem_all_entry s r qs k :
  r_entry (foldl (λ s q, z_rem s q r) s qs) k = r_entry s k.
Proof. revert s. induction qs; intros s; simpl; [done|]. by rewrite IHqs, entry_rem. Qed.

(** What a drained queue has become. *)
Lemma drain_spec left now ready q s d s' :
  drain left now ready q s = (d, s') →
  (∀ k, r_entry s' k = r_entry s k)
  ∧ (∀ q' m', q' ≠ q → q' ≠ base_queue_name → z_score s' q' m' = z_score s q' m')
  ∧ (∀ m' x, q ≠ base_queue_name → z_score s' q m' = Some x → z_score s q m' = Some x)
  ∧ match d with
    | Moved m q0 =>
        q0 = q ∧ r_exists s now (job_key m) = true
        ∧ ∃ x, z_score s q m = Some x ∧ x ≤ 1000 * ready
          ∧ (q ≠ base_queue_name → z_score s' q m = None)
          ∧ z_score s' base_queue_name m = Some x
          ∧ (q ≠ base_queue_name → ∀ m', m' ≠ m →
             z_score s' base_queue_name m' = z_score s base_queue_name m')
    | _ => q ≠ base_queue_name →
           ∀ m', z_score s' base_queue_name m' = z_score s base_queue_name m'
    end.
Proof.
  revert s d s'. induction left as [left IH] using lt_wf_ind.
  intros s d s' Hd. destruct left as [|left]; simpl in Hd.
  all: destruct (z_first s q (1000 * ready)) as [[m x]|] eqn:Hf; simplify_eq; [|done].
  all: destruct (first_some _ _ _ _ _ Hf) as (Hs & Hx & _).
  all: rewrite exists_rem in Hd; destruct (r_exists s now (job_key m)) eqn:He; simplify_eq.
  1, 3: repeat split; intros; rewrite ?entry_add, ?entry_rem; try done;
    [ rewrite zadd_other, zrem_other; naive_solver
    | rewrite zadd_other in * by naive_solver; by eapply zrem_some
    | exists x; repeat split; intros; [done..| | |] ];
    rewrite ?zadd_same, ?zadd_other, ?zrem_same, ?zrem_other by naive_solver; done.
  - repeat split; intros; rewrite ?entry_rem, ?zrem_other by naive_solver; try done.
    by eapply zrem_some.
  - destruct left as [|left]; simplify_eq.
    + repeat split; intros; rewrite ?entry_rem, ?zrem_other by naive_solver; try done.
      by eapply zrem_some.
    + apply IH in Hd as (A1 & A2 & A3 & A4); [|lia]. repeat split.
      * intros k. by rewrite A1, entry_rem.
      * intros. rewrite A2, zrem_other by naive_solver. done.
      * intros m' x' ? Hm'. apply A3 in Hm'; [|done]. by eapply zrem_some.
      * destruct d as [m0 q0| |].
        -- destruct A4 as (-> & E & x0 & B1 & B2 & B3 & B4 & B5).
           split; [done|]. rewrite exists_rem in E. split; [done|].
           exists x0. repeat split; try done; [by eapply zrem_some|].
           intros. rewrite B5, zrem_other by naive_solver. done.
        -- intros. rewrite A4, zrem_other by naive_solver. done.
        -- intros. rewrite A4, zrem_other by naive_solver. done.
Qed.

(** What the whole admission script does to the store. *)
Definition taken_in now ready (queues : list string) s s' (mq : option (string * string)) :=
  (∀ k, r_entry s' k = r_entry s k)
  ∧ (∀ q m x, q ≠ base_queue_name → z_score s' q m = Some x → z_score s q m = Some x)
  ∧ match mq with
    | None => ∀ m, z_score s' base_queue_name m = z_score s base_queue_name m
    | Some (m, q) =>
        q ∈ queues ∧ r_exists s now (job_key m) = true
        ∧ ∃ x, z_score s q m = Some x ∧ x ≤ 1000 * ready ∧ z_score s' q m = None
          ∧ z_score s' base_queue_name m = Some x
          ∧ ∀ m', m' ≠ m →
              z_score s' base_queue_name m' = z_score s base_queue_name m'
    end.

Lemma admit_script_spec left now ready queues s mq s' :
  base_queue_name ∉ queues →
  admit_script left now ready queues s = (mq, s') →
  taken_in now ready queues s s' mq.
Proof.
  revert left s. induction queues as [|q queues IH]; intros left s Hb Ha; simpl in Ha.
  { simplify_eq. by repeat split. }
  apply not_elem_of_cons in Hb as [Hbq Hb].
  destruct (drain left now ready q s) as [d s1] eqn:Hd.
  apply drain_spec in Hd as (A1 & A2 & A3 & A4).
  assert (Hback : ∀ q' m x, q' ≠ base_queue_name →
            z_score s1 q' m = Some x → z_score s q' m = Some x).
  { intros q' m x Hq' Hm. destruct (decide (q' = q)) as [->|]; [by apply A3|].
    by rewrite A2 in Hm. }
  destruct d as [m0 q0|left'|]; simplify_eq.
  - destruct A4 as (-> & E & x & B1 & B2 & B3 & B4 & B5).
    repeat split; [done|done|set_solver|done|]. exists x. eauto 10.
  - apply IH in Ha as (C1 & C2 & C3); [|done]. repeat split.
    + intros k. by rewrite C1, A1.
    + eauto.
    + destruct mq as [[m q']|]; [|intros; by rewrite C3, A4 by done].
      destruct C3 as (Hin & E & x & D1 & D2 & D3 & D4 & D5).
      split; [set_solver|]. unfold r_exists, r_get in *. rewrite A1 in E.
      split; [done|]. exists x. repeat split; try done.
      * apply Hback; [|done]. by intros ->.
      * intros. by rewrite D5, A4 by done.
  - repeat split; [done|done|]. by apply A4.
Qed.

Lemma order_intake p order :
  selection_order p = Some order → ∀ pri, pri ∈ order → pri ∈ PRIORITIES.
Proof.
  unfold selection_order. destruct (preferred p) as [pref|] eqn:Hp; [|done].
  intros Ho pri Hin; simplify_eq. apply elem_of_cons in Hin as [->|Hin].
  - unfold preferred in Hp. apply list_elem_of_lookup_2 in Hp.
    unfold FAIR_ADMISSION_CYCLE, PRIORITIES in *. set_solver.
  - by apply list_elem_of_filter in Hin as [_ ?].
Qed.

Lemma base_not_in_intakes order : base_queue_name ∉ map intake order.
Proof.
  intros Hin. apply list_elem_of_fmap in Hin as (pri & Heq & _).
  by apply (intake_not_base pri).
Qed.

Lemma admit_one_spec now ready p s mq p' s' :
  admit_one now ready (p, s) = (mq, (p', s')) →
  taken_in now ready (map intake PRIORITIES) s s' mq
  ∧ p' = match mq with Some _ => policy_admitted p | None => p end.
Proof.
  unfold admit_one. destruct (selection_order p) as [order|] eqn:Ho.
  2:{ intros; simplify_eq. by repeat split. }
  destruct (admit_script _ _ _ _ _) as [mq0 s0] eqn:Ha. intros Hr.
  apply admit_script_spec in Ha as (A1 & A2 & A3); [|apply base_not_in_intakes].
  assert (Hsub : ∀ q, q ∈ map intake order → q ∈ map intake PRIORITIES).
  { intros q Hq. apply list_elem_of_fmap in Hq as (pri & -> & Hin).
    apply list_elem_of_fmap. exists pri. split; [done|]. by eapply order_intake. }
  destruct mq0 as [[m q]|]; simplify_eq; (split; [|done]); repeat split; try done.
  - apply Hsub. apply A3.
  - apply A3.
  - apply A3.
Qed.

(** ** The invariant is kept by every step *)

Lemma fifo_ok_shrink s s' :
  (∀ pri, pri ∈ PRIORITIES →
     r_entry s' (fifo_key (intake pri)) = r_entry s (fifo_key (intake pri))) →
  (∀ pri m x, pri ∈ PRIORITIES →
     z_score s' (intake pri) m = Some x → z_score s (intake pri) m = Some x) →
  fifo_ok s → fifo_ok s'.
Proof.
  intros He Hm Hf pri Hp. specialize (Hf pri Hp). rewrite He by done.
  destruct (r_entry s _) as [[[l|b] [d|]]|]; try done.
  - intros m x Hx. eauto.
  - intros m. destruct (z_score s' _ m) eqn:E; [|done].
    apply Hm in E; [|done]. by rewrite Hf in E.
Qed.

Lemma single_shrink s s' :
  (∀ q m, q ∈ known_queues → is_Some (z_score s' q m) → is_Some (z_score s q m)) →
  single s → single s'.
Proof. intros Hm Hs r q q' Hq Hq' ??. apply (Hs r); eauto. Qed.

Lemma admission_keeps now ready p s :
  policy_wf p → single s → fifo_ok s →
  queue_inv (admit_one now ready (p, s)).2.
Proof.
  intros Hp Hs Hf. destruct (admit_one now ready (p, s)) as [mq [p' s']] eqn:Ha.
  apply admit_one_spec in Ha as ((A1 & A2 & A3) & ->). simpl. split; [|split].
  - destruct mq; simpl; [apply policy_admitted_wf|done].
  - destruct mq as [[m q]|].
    2:{ revert Hs. apply single_shrink. intros q m Hq [x Hx].
        destruct (known_cases q Hq) as [->|(pri & ? & ->)]; [rewrite A3 in Hx|]; eauto. }
    destruct A3 as (Hin & _ & x & B1 & B2 & B3 & B4 & B5).
    apply list_elem_of_fmap in Hin as (pri & -> & Hpri).
    assert (Honly : ∀ q', q' ∈ known_queues → is_Some (z_score s' q' m) →
              q' = base_queue_name).
    { intros q' Hq' [y Hy]. destruct (known_cases q' Hq') as [->|(pri' & ? & ->)]; [done|].
      pose proof (A2 _ _ _ (intake_not_base pri') Hy) as Hy'.
      assert (intake pri' = intake pri) as Heq by (apply (Hs m); eauto).
      rewrite Heq in Hy. congruence. }
    assert (Hold : ∀ r q', r ≠ m → q' ∈ known_queues → is_Some (z_score s' q' r) →
              is_Some (z_score s q' r)).
    { intros r q' Hr Hq' [y Hy]. destruct (known_cases q' Hq') as [->|(pri' & ? & ->)].
      - rewrite B5 in Hy by done. eauto.
      - eauto. }
    intros r q1 q2 Hq1 Hq2 H1 H2. destruct (decide (r = m)) as [->|Hr].
    + rewrite (Honly q1), (Honly q2); done.
    + apply (Hs r); auto.
  - revert Hf. apply fifo_ok_shrink; [intros; by rewrite A1|].
    intros pri m x Hpri. apply A2. apply intake_not_base.
Qed.

Lemma removal_spec now r s n s' :
  remove_unstarted now r s = (n, s') →
  (∀ q m x, z_score s' q m = Some x → z_score s q m = Some x)
  ∧ (∀ k, k ≠ job_key r → r_entry s' k = r_entry s k)
  ∧ ((0 < n)%nat →
     r_exists s now (in_progress_key r) = false
     ∧ (∀ q, q ∈ known_queues → z_score s' q r = None)
     ∧ ∀ now', r_exists s' now' (job_key r) = false)
  ∧ (n = 0%nat → r_exists s now (in_progress_key r) = true
                 ∨ ∀ q, q ∈ known_queues → z_score s q r = None).
Proof.
  unfold remove_unstarted. destruct (r_exists s now _) eqn:He.
  { intros; simplify_eq. repeat split; eauto; lia. }
  assert (Hfold : ∀ qs a s0,
    foldl (λ acc q, (((acc.1 : nat) + if bool_decide (is_Some (z_score acc.2 q r)) then 1 else 0)%nat,
                     z_rem acc.2 q r)) (a, s0) qs
    = ((foldl (λ acc q, (((acc.1 : nat) + if bool_decide (is_Some (z_score acc.2 q r)) then 1 else 0)%nat,
                     z_rem acc.2 q r)) (a, s0) qs).1,
       foldl (λ s q, z_rem s q r) s0 qs)
    ∧ (a ≤ (foldl (λ acc q, (((acc.1 : nat) + if bool_decide (is_Some (z_score acc.2 q r)) then 1 else 0)%nat,
                     z_rem acc.2 q r)) (a, s0) qs).1)%nat
    ∧ ((foldl (λ acc q, (((acc.1 : nat) + if bool_decide (is_Some (z_score acc.2 q r)) then 1 else 0)%nat,
                     z_rem acc.2 q r)) (a, s0) qs).1 = a →
       ∀ q, q ∈ qs → z_score s0 q r = None)).
  { induction qs as [|q qs IH]; intros a s0; simpl; [set_solver by lia|].
    destruct (IH (a + if bool_decide (is_Some (z_score s0 q r)) then 1 else 0)%nat
                (z_rem s0 q r)) as (E1 & E2 & E3).
    split; [done|]. split; [lia|]. intros Heq q0 Hq0.
    case_bool_decide as Hsome; [lia|].
    apply elem_of_cons in Hq0 as [->|Hq0]; [by apply eq_None_not_Some|].
    specialize (E3 ltac:(lia) _ Hq0). rewrite score_rem in E3.
    case_decide as Hd; [|done]. destruct Hd as [-> _]. by apply eq_None_not_Some. }
  destruct (Hfold known_queues 0%nat s) as (E1 & _ & E3). rewrite E1.
  revert E3. generalize (foldl (λ acc q, ((acc.1 + if bool_decide (is_Some (z_score acc.2 q r)) then 1 else 0)%nat,
                     z_rem acc.2 q r)) (0%nat, s) known_queues).1 as cnt.
  intros cnt E3 Heq; simplify_eq.
  destruct (Nat.ltb_spec 0 n) as [Hlt|Hge].
  - split_and!; [| | |lia].
    + intros q m x. unfold r_del. rewrite score_write, rem_all_score. by case_decide.
    + intros k Hk. unfold r_del. rewrite entry_write, decide_False by done.
      apply rem_all_entry.
    + intros _. split_and!; [done| |intros; apply exists_del].
      intros q Hq. unfold r_del. by rewrite score_write, rem_all_score, decide_True.
  - split_and!; [| |lia|].
    + intros q m x. rewrite rem_all_score. by case_decide.
    + intros k Hk. apply rem_all_entry.
    + intros Hz. right. by apply E3.
Qed.

End queue_facts.

(** ** Properties of the queue *)

Section queue_properties.
Context {T : Type} `{Redis T} `{QueueNames}.
Implicit Types (s : T) (q r m : string) (p : WeightedPriorityPolicy).

#[local] Hint Resolve intake_known base_known intake_not_base : core.

(** A delivery due in [q]: a member up to the caller's clock, with a payload. *)
Definition live_due (now ready : Z) s q m (x : Z) : Prop :=
  z_score s q m = Some x ∧ x ≤ 1000 * ready ∧ r_exists s now (job_key m) = true.

(** Draining a queue removes only members without a payload, oldest first. *)
Lemma drain_live left now ready q s d s' :
  q ≠ base_queue_name →
  drain left now ready q s = (d, s') →
  (∀ m x, z_score s q m = Some x → r_exists s now (job_key m) = true →
     z_score s' q m = Some x ∨ d = Moved m q)
  ∧ match d with
    | Moved m _ => ∀ m' x x', z_score s q m = Some x → live_due now ready s q m' x' →
                     zbefore (m, x) (m', x') = true
    | QueueDone _ => ∀ m' x', ¬ live_due now ready s q m' x'
    | LimitReached => True
    end.
Proof.
  intros Hq. revert s d s'. induction left as [left IH] using lt_wf_ind.
  intros s d s' Hd. destruct left as [|left]; simpl in Hd.
  all: destruct (z_first s q (1000 * ready)) as [[m x]|] eqn:Hf; simplify_eq;
    [|rewrite first_none in Hf; split; [by left|];
      intros m' x' (Hs & Hx & _); specialize (Hf _ _ Hs); lia].
  all: destruct (first_some _ _ _ _ _ Hf) as (Hs & Hx & Hle).
  all: rewrite exists_rem in Hd; destruct (r_exists s now (job_key m)) eqn:He; simplify_eq.
  1, 3: split; [intros m' x' Hm' _; destruct (decide (m' = m)) as [->|]; [by right|left];
                by rewrite zadd_other, zrem_other by naive_solver
               |intros m' y y' Hy (Hm' & _); simplify_eq; by apply Hle].
  - split; [|done]. intros m' x' Hm' He'. left. rewrite zrem_other; [done|].
    right. by intros ->; congruence.
  - destruct left as [|left]; simplify_eq.
    + split; [|done]. intros m' x' Hm' He'. left. rewrite zrem_other; [done|].
      right. by intros ->; congruence.
    + pose proof Hd as Hd0. apply IH in Hd as [A B]; [|lia].
      assert (Hback : ∀ m' x', live_due now ready s q m' x' →
                live_due now ready (z_rem s q m) q m' x').
      { intros m' x' (C1 & C2 & C3). unfold live_due. rewrite exists_rem, zrem_other; [done|].
        right. intros ->. congruence. }
      split.
      * intros m' x' Hm' He'. apply (A m' x'); [|by rewrite exists_rem].
        rewrite zrem_other; [done|]. right. intros ->. congruence.
      * destruct d as [m0 q0| |]; [|intros m' x' Hl; by eapply B, Hback|done].
        intros m' y y' Hy Hl. apply B; [|by apply Hback].
        rewrite zrem_other; [done|]. right. intros ->. simplify_eq.
        destruct (drain_spec _ _ _ _ _ _ _ Hd0) as (_ & _ & _ & _ & _ & z & Hz & _).
        by rewrite zrem_same in Hz.
Qed.

Lemma admit_script_live left now ready order s mq s' :
  NoDup order →
  admit_script left now ready (map intake order) s = (mq, s') →
  (∀ pri m x, z_score s (intake pri) m = Some x → r_exists s now (job_key m) = true →
     z_score s' (intake pri) m = Some x ∨ mq = Some (m, intake pri))
  ∧ ∀ m q, mq = Some (m, q) →
      ∃ before pri after, order = before ++ pri :: after ∧ q = intake pri
      ∧ (∀ x m' x', z_score s q m = Some x → live_due now ready s q m' x' →
           zbefore (m, x) (m', x') = true)
      ∧ ∀ pri' m' x', pri' ∈ before → ¬ live_due now ready s (intake pri') m' x'.
Proof.
  revert left s. induction order as [|pri order IH]; intros left s Hnd Ha; simpl in Ha.
  { simplify_eq. split; [by left|done]. }
  apply NoDup_cons in Hnd as [Hni Hnd].
  destruct (drain left now ready (intake pri) s) as [d s1] eqn:Hd.
  destruct (drain_spec _ _ _ _ _ _ _ Hd) as (D1 & D2 & D3 & D4).
  apply drain_live in Hd as [A B]; [|done].
  assert (Hstay : ∀ pri' m x, d ≠ Moved m (intake pri) →
    z_score s (intake pri') m = Some x → r_exists s now (job_key m) = true →
    z_score s1 (intake pri') m = Some x).
  { intros pri' m x Hd Hx He. destruct (decide (pri' = pri)) as [->|Hne].
    - by destruct (A m x Hx He).
    - rewrite D2; [done|by intros ?%intake_inj|done]. }
  destruct d as [m0 q0|left'|]; simplify_eq.
  - destruct D4 as (-> & _). split.
    + intros pri' m x Hx He. destruct (decide (pri' = pri ∧ m = m0)) as [[-> ->]|Hne].
      { by right. }
      left. destruct (decide (pri' = pri)) as [->|].
      * destruct (A m x Hx He); [done|]. simplify_eq. naive_solver.
      * rewrite D2; [done|by intros ?%intake_inj|done].
    + intros m q ?; simplify_eq. exists [], pri, order. split_and!; [done|done| |set_solver].
      intros x m' x' Hx Hl. by eapply B.
  - assert (He1 : ∀ k, r_exists s1 now k = r_exists s now k).
    { intros k. unfold r_exists, r_get. by rewrite D1. }
    apply IH in Ha as [C1 C2]; [|done]. split.
    + intros pri' m x Hx He. apply C1; [by apply Hstay|by rewrite He1].
    + intros m q Hmq. destruct (C2 m q Hmq) as (b & pri1 & a & -> & -> & E1 & E2).
      assert (Hsame : ∀ pri' m' x', pri' ∈ b ++ pri1 :: a →
        live_due now ready s (intake pri') m' x' ↔ live_due now ready s1 (intake pri') m' x').
      { intros pri' m' x' Hin. unfold live_due. rewrite He1, D2; [done| |done].
        intros ?%intake_inj. subst. done. }
      exists (pri :: b), pri1, a. split_and!; [done|done| |].
      * intros x m' x' Hx Hl. apply E1.
        -- rewrite D2; [done|intros ?%intake_inj; subst; apply Hni; set_solver|done].
        -- apply Hsame; [set_solver|done].
      * intros pri' m' x' [->|Hin]%elem_of_cons; [apply B|].
        rewrite Hsame by set_solver. by apply E2.
  - split; [|done]. intros pri' m x Hx He. left. by apply Hstay.
Qed.

Lemma order_nodup p order : selection_order p = Some order → NoDup order.
Proof.
  unfold selection_order. destruct (preferred p); [|done]. intros; simplify_eq.
  apply NoDup_cons. split; [|apply NoDup_filter; apply (bool_decide_unpack _); by vm_compute].
  by intros [? _]%list_elem_of_filter.
Qed.

(** Admission order. A delivery that one admission takes has a payload,
    is due, and is the oldest such delivery of its intake queue; and every
    queue the policy ranks before that one holds no due delivery with a
    payload. *)
Theorem admission_takes_oldest_of_first_queue now ready p s m q ps' :
  admit_one now ready (p, s) = (Some (m, q), ps') →
  ∃ order before pri after x,
    selection_order p = Some order ∧ order = before ++ pri :: after ∧ q = intake pri
    ∧ live_due now ready s q m x
    ∧ (∀ m' x', live_due now ready s q m' x' → zbefore (m, x) (m', x') = true)
    ∧ (∀ pri' m' x', pri' ∈ before → ¬ live_due now ready s (intake pri') m' x').
Proof.
  intros Ha. destruct ps' as [p' s'].
  destruct (admit_one_spec _ _ _ _ _ _ _ Ha) as [(_ & _ & _ & He & x & Hx & Hle & _) _].
  unfold admit_one in Ha. destruct (selection_order p) as [order|] eqn:Ho; [|done].
  destruct (admit_script _ _ _ _ _) as [[mq|] s1] eqn:Hs; simplify_eq.
  apply admit_script_live in Hs as [_ Hs]; [|by eapply order_nodup].
  destruct (Hs _ _ eq_refl) as (b & pri & a & -> & -> & E1 & E2).
  exists (b ++ pri :: a), b, pri, a, x. split_and!; try done. intros. by apply E1.
Qed.

(** No delivery is lost. Whatever one admission does, a delivery with a
    payload that waits in an intake queue either still waits there with the
    same score, or is the one taken and is in the base queue with that score. *)
Theorem admission_loses_nothing now ready p s mq p' s' pri r x :
  admit_one now ready (p, s) = (mq, (p', s')) →
  z_score s (intake pri) r = Some x → r_exists s now (job_key r) = true →
  z_score s' (intake pri) r = Some x
  ∨ (mq = Some (r, intake pri) ∧ z_score s' base_queue_name r = Some x).
Proof.
  intros Ha Hx He.
  destruct (admit_one_spec _ _ _ _ _ _ _ Ha) as [(_ & _ & HA) _].
  unfold admit_one in Ha. destruct (selection_order p) as [order|] eqn:Ho.
  2:{ simplify_eq. by left. }
  destruct (admit_script _ _ _ _ _) as [mq1 s1] eqn:Hs.
  assert (mq = mq1 ∧ s' = s1) as [-> ->] by (destruct mq1; by simplify_eq).
  apply admit_script_live in Hs as [Hs _]; [|by eapply order_nodup].
  destruct (Hs pri r x Hx He) as [? | ->]; [by left|right]. split; [done|].
  destruct HA as (_ & _ & y & Hy & _ & _ & Hb & _). congruence.
Qed.

Lemma drain_head left now ready q s m x :
  z_first s q (1000 * ready) = Some (m, x) → r_exists s now (job_key m) = true →
  drain left now ready q s = (Moved m q, z_add (z_rem s q m) base_queue_name m x).
Proof. intros Hf He. destruct left; simpl; by rewrite Hf, exists_rem, He. Qed.

(** A successful admission advances the policy. *)
Lemma admission_advances now ready p s mq p' s' :
  admit_one now ready (p, s) = (Some mq, (p', s')) → p' = policy_admitted p.
Proof. unfold admit_one. destruct (selection_order p); [|done]. by destruct (admit_script _ _ _ _ _) as [[mq'|] s1]; intros [= -> <- <-]. Qed.

(** [C9] Bounded waiting. Take seven consecutive admissions by one worker that each succeed,
    every one with the policy that the one before left, and with anything at all happening
    to the store between them. If a priority's queue offers a due delivery with a payload
    as its oldest due member at each of them, at least one of the seven takes from that
    queue. *)
Theorem served_within_seven (p : nat → WeightedPriorityPolicy) (σ σ' : nat → T) (now ready : nat → Z)
    (mq : nat → string * string) pri :
  policy_wf (p 0%nat) → pri ∈ PRIORITIES →
  (∀ i, (i < 7)%nat → admit_one (now i) (ready i) (p i, σ i) = (Some (mq i), (p (S i), σ' i))) →
  (∀ i, (i < 7)%nat → ∃ m x, z_first (σ i) (intake pri) (1000 * ready i) = Some (m, x)
     ∧ r_exists (σ i) (now i) (job_key m) = true) →
  ∃ i, (i < 7)%nat ∧ (mq i).2 = intake pri.
Proof.
  intros Hp Hpri Hadm Hoffer.
  assert (∀ i, (i < 7)%nat → p i = after i (p 0%nat)) as Hafter.
  { induction i as [|i IH]; intros Hi; [done|]. rewrite (admission_advances _ _ _ _ _ _ _ (Hadm i ltac:(lia))), IH by lia.
    unfold after. by rewrite Nat.iter_succ. }
  destruct (turn_within_seven (p 0%nat) pri Hp Hpri) as (i & Hi & Hpref).
  exists i. split; [done|]. specialize (Hadm i Hi). rewrite (Hafter i Hi) in Hadm.
  destruct (Hoffer i Hi) as (m & x & Hf & He).
  unfold admit_one, selection_order in Hadm. rewrite Hpref in Hadm.
  cbn [map admit_script] in Hadm. rewrite (drain_head _ _ _ _ _ _ _ Hf He) in Hadm.
  injection Hadm as Hmq _ _. by rewrite <- Hmq.
Qed.

(** An enqueue that stores: what it read and what it wrote. *)
Lemma enqueue_stored now target r e ttl payload s s' :
  atomic_enqueue now target r e ttl payload s = (Ok true, s') →
  ∃ s1 score life,
    r_exists s now (result_key r) = false ∧ r_exists s now (in_progress_key r) = false
    ∧ (∀ k, r_entry s1 k = r_entry s k)
    ∧ (∀ q m, m ≠ r → z_score s1 q m = z_score s q m)
    ∧ (∀ q, q ∈ known_queues → z_score s1 q r = None)
    ∧ (∀ q x, z_score s1 q r = Some x → z_score s q r = Some x)
    ∧ 1000 * e ≤ score ∧ ttl ≤ life
    ∧ match r_get s now (fifo_key target) with Some (Num l) => l < score | Some (Blob _) => False | None => True end
    ∧ s' = r_set (z_add (r_setex s1 now (job_key r) life (Blob payload)) target r score)
              (fifo_key target) (Num score).
Proof.
  unfold atomic_enqueue.
  destruct (r_exists s now (result_key r)) eqn:E1; [done|].
  destruct (r_exists s now (in_progress_key r)) eqn:E2; [done|]. cbn [orb].
  set (s1 := if r_exists s now (job_key r) then s else _).
  destruct (r_exists s now (job_key r) && existsb _ _) eqn:E3; [done|].
  assert (Hg : ∀ k, r_entry s1 k = r_entry s k).
  { intros k. subst s1. destruct (r_exists s now (job_key r)); [done|]. apply rem_all_entry. }
  assert (r_get s1 now (fifo_key target) = r_get s now (fifo_key target)) as ->.
  { unfold r_get. by rewrite Hg. }
  intros Heq. set (score := match r_get s now (fifo_key target) with
                            | Some (Num l) => if 1000 * e <=? l then l + 1 else 1000 * e
                            | _ => 1000 * e end).
  exists s1, score, (ttl + ceil_div (Z.max 0 (score - 1000 * e)) 1000).
  pose proof (ceil_div_nonneg (Z.max 0 (score - 1000 * e)) 1000 ltac:(lia) ltac:(lia)).
  split_and!; try done; try lia.
  - intros q m Hm. subst s1. destruct (r_exists s now (job_key r)); [done|].
    rewrite rem_all_score. rewrite decide_False by naive_solver. done.
  - intros q Hq. subst s1. destruct (r_exists s now (job_key r)); cbn [andb] in E3.
    + rewrite existsb_elem_false in E3. specialize (E3 q Hq). boolprop.
      by apply eq_None_not_Some.
    + rewrite rem_all_score. by rewrite decide_True.
  - intros q x. subst s1. destruct (r_exists s now (job_key r)); [done|].
    rewrite rem_all_score. by case_decide.
  - subst score. destruct (r_get s now _) as [[l|]|]; [|lia..].
    destruct (Z.leb_spec (1000 * e) l); lia.
  - subst score. destruct (r_get s now _) as [[l|]|]; [|done..].
    destruct (Z.leb_spec (1000 * e) l); lia.
  - destruct (r_get s now (fifo_key target)) as [[l|]|] eqn:Hl; by simplify_eq/=.
Qed.

Lemma enqueue_refused now target r e ttl payload s s' :
  atomic_enqueue now target r e ttl payload s = (Ok false, s') → s' = s.
Proof. unfold atomic_enqueue. intros. dmatches; done. Qed.

(** The first enqueue of a run wins. Once a delivery is stored, every
    later enqueue of the same run id before its payload expires - with
    whatever priority, clocks, lifetime and payload - stores nothing and
    changes nothing. *)
Theorem first_enqueue_wins now pri r e ttl payload s s' :
  pri ∈ PRIORITIES →
  atomic_enqueue now (intake pri) r e ttl payload s = (Ok true, s') →
  ∀ now' pri' e' ttl' payload',
    now' < now + ttl →
    atomic_enqueue now' (intake pri') r e' ttl' payload' s' = (Ok false, s').
Proof.
  intros Hpri He now' pri' e' ttl' payload' Hlive.
  apply enqueue_stored in He as (s1 & score & life & _ & _ & Hent & _ & _ & _ & _ & Hlife & _ & ->).
  unfold atomic_enqueue.
  destruct (_ || _); [done|].
  assert (r_exists (r_set (z_add (r_setex s1 now (job_key r) life (Blob payload)) (intake pri) r score)
            (fifo_key (intake pri)) (Num score)) now' (job_key r) = true) as ->.
  { unfold r_set. rewrite exists_write_other by by apply fifo_not_job.
    rewrite exists_add, exists_setex. apply Z.ltb_lt. lia. }
  assert (existsb (λ q, bool_decide (is_Some (z_score (r_set (z_add (r_setex s1 now (job_key r) life
            (Blob payload)) (intake pri) r score) (fifo_key (intake pri)) (Num score)) q r)))
            known_queues = true) as ->; [|done].
  apply existsb_elem. exists (intake pri). split; [auto|].
  apply bool_decide_eq_true. unfold r_set. rewrite score_write, zadd_same. eauto.
Qed.

Lemma enqueue_raised now pri r e ttl payload s err s' :
  pri ∈ PRIORITIES → fifo_ok s →
  atomic_enqueue now (intake pri) r e ttl payload s = (Raise err, s') → False.
Proof.
  intros Hpri Hf. specialize (Hf pri Hpri). unfold atomic_enqueue.
  destruct (_ || _); [done|]. destruct (_ && _); [done|].
  set (s1 := if r_exists s now (job_key r) then s else _).
  assert (Hg : r_entry s1 (fifo_key (intake pri)) = r_entry s (fifo_key (intake pri))).
  { subst s1. destruct (r_exists s now (job_key r)); [done|]. apply rem_all_entry. }
  unfold r_get. rewrite Hg. destruct (r_entry s _) as [[[l|b] [d|]]|]; done.
Qed.

Lemma enqueue_keeps now pri r e ttl payload p s :
  pri ∈ PRIORITIES → queue_inv (p, s) →
  queue_inv (p, (atomic_enqueue now (intake pri) r e ttl payload s).2).
Proof.
  intros Hpri (Hp & Hs & Hf); simpl in *.
  destruct (atomic_enqueue _ _ _ _ _ _ s) as [[[]|err] s'] eqn:He; simpl.
  2:{ apply enqueue_refused in He as ->. done. }
  2:{ by edestruct enqueue_raised. }
  apply enqueue_stored in He as (s1 & score & life & _ & _ & Hent & Hsame & Hnone & Hback & _ & _ & Hlast & ->).
  split_and!; [done| |]; simpl.
  - intros m q q' Hq Hq'. unfold r_set, r_setex. rewrite !score_write, !score_add, !score_write.
    destruct (decide (m = r)) as [->|Hm].
    + rewrite !Hnone by done. repeat case_decide; intros [] []; naive_solver.
    + rewrite !decide_False by naive_solver. rewrite !Hsame by done. by apply Hs.
  - intros pri' Hpri'. unfold r_set, r_setex. rewrite entry_write.
    destruct (decide (fifo_key (intake pri) = fifo_key (intake pri'))) as [Heq|Hne].
    + apply fifo_key_inj in Heq. rewrite <- Heq. intros m x.
      rewrite score_write, score_add. case_decide as Hd; [naive_solver lia|].
      rewrite score_write. destruct (decide (m = r)) as [->|Hm]; [naive_solver|].
      rewrite Hsame by done. intros Hx. specialize (Hf pri Hpri).
      unfold r_get in Hlast. destruct (r_entry s (fifo_key (intake pri))) as [[[l|b] [d|]]|]; try done.
      * specialize (Hf _ _ Hx). lia.
      * by rewrite Hf in Hx.
    + rewrite entry_add, entry_write, decide_False by by apply not_eq_sym, fifo_not_job.
      rewrite Hent. specialize (Hf pri' Hpri').
      assert (Hz : ∀ m, m ≠ r → z_score (z_add (r_write s1 (job_key r)
                (Some (Blob payload, Some (now + life)))) (intake pri) r score) (intake pri') m
                = z_score s (intake pri') m).
      { intros m Hm. rewrite zadd_other by naive_solver. by rewrite score_write, Hsame. }
      assert (Hzr : z_score (z_add (r_write s1 (job_key r)
                (Some (Blob payload, Some (now + life)))) (intake pri) r score) (intake pri') r
                = None).
      { rewrite zadd_other; [by rewrite score_write, Hnone by auto|]. left. intros Heq. apply Hne. by rewrite Heq. }
      destruct (r_entry s _) as [[[l|b] [d|]]|]; try done.
      * intros m x. rewrite score_write. destruct (decide (m = r)) as [->|]; [by rewrite Hzr|].
        rewrite Hz by done. apply Hf.
      * intros m. rewrite score_write. destruct (decide (m = r)) as [->|]; [done|].
        rewrite Hz by done. apply Hf.
Qed.

Lemma release_entry s : ∀ k, (∀ m, k ≠ in_progress_key m) →
  r_entry (release_abandoned s) k = r_entry s k.
Proof.
  intros k Hk. unfold release_abandoned. generalize ((z_members s base_queue_name).*1) as l.
  intros l. revert s. induction l as [|m l IH]; intros s; simpl; [done|].
  rewrite IH. unfold r_del. rewrite entry_write. by rewrite decide_False by by apply not_eq_sym.
Qed.

Lemma release_score s q m : z_score (release_abandoned s) q m = z_score s q m.
Proof.
  unfold release_abandoned. generalize ((z_members s base_queue_name).*1) as l.
  intros l. revert s. induction l as [|m' l IH]; intros s; simpl; [done|].
  rewrite IH. apply score_write.
Qed.

Lemma qstep_inv ps ps' : queue_inv ps → qstep ps ps' → queue_inv ps'.
Proof.
  intros Hi Hstep. destruct Hstep as [p s now pri r e ttl pl Hpri|now rd [p s]|p s now r
    |p s|p s k e Hk|p s q m].
  - by apply enqueue_keeps.
  - destruct Hi as (?&?&?). by apply admission_keeps.
  - destruct Hi as (Hp&Hs&Hf). destruct (remove_unstarted now r s) as [n s'] eqn:Hr.
    apply removal_spec in Hr as (A1 & A2 & _). split_and!; [done| |]; simpl.
    + revert Hs. apply single_shrink. intros q m _ [x Hx]. eauto.
    + revert Hf. apply fifo_ok_shrink; [|eauto].
      intros. apply A2. by apply fifo_not_job.
  - destruct Hi as (Hp&Hs&Hf). split_and!; [done| |]; simpl.
    + revert Hs. apply single_shrink. intros q m _. by rewrite release_score.
    + revert Hf. apply fifo_ok_shrink; intros; [|by rewrite <- release_score].
      apply release_entry. intros m. by apply fifo_progress_disjoint.
  - destruct Hi as (Hp&Hs&Hf). split_and!; [done| |]; simpl.
    + revert Hs. apply single_shrink. intros q m _. by rewrite score_write.
    + revert Hf. apply fifo_ok_shrink; intros.
      * rewrite entry_write, decide_False by by apply Hk. done.
      * by erewrite <- score_write.
  - destruct Hi as (Hp&Hs&Hf). split_and!; [done| |]; simpl.
    + revert Hs. apply single_shrink. intros q' m' _ [x Hx]. apply zrem_some in Hx. eauto.
    + revert Hf. apply fifo_ok_shrink; intros; [by rewrite entry_rem|].
      by eapply zrem_some.
Qed.

Lemma queue_inv_reachable ps ps' : queue_inv ps → rtc qstep ps ps' → queue_inv ps'.
Proof. intros Hi Hr. by apply (rtc_invariant qstep queue_inv qstep_inv ps). Qed.

(** [C10] One place per run. From a state in which it holds, whatever sequence
    of enqueues, admissions, cancellations, startup releases and worker or
    expiry activity follows, no run id is ever in two configured queues, so
    inspecting a delivery never fails with the multiple-queues error. *)
Theorem run_in_one_queue ps ps' r now clock_ms :
  queue_inv ps → rtc qstep ps ps' →
  (∀ q q', q ∈ known_queues → q' ∈ known_queues →
     is_Some (z_score ps'.2 q r) → is_Some (z_score ps'.2 q' r) → q = q')
  ∧ delivery_snapshot now clock_ms r ps'.2 ≠ Raise MultipleQueues.
Proof.
  intros Hi Hr. destruct (queue_inv_reachable _ _ Hi Hr) as (_ & Hs & _).
  split; [intros; by apply (Hs r)|]. unfold delivery_snapshot.
  destruct (r_exists _ _ (result_key r)); [done|].
  assert (Hlen : (length (omap (λ q, (λ x, (q, x)) <$> z_score ps'.2 q r) known_queues) ≤ 1)%nat).
  { assert (Hnd : NoDup known_queues).
    { unfold known_queues. apply NoDup_cons. split; [apply base_not_in_intakes|].
      apply NoDup_fmap_2; [intros ??; apply intake_inj|].
      apply (bool_decide_unpack _). by vm_compute. }
    specialize (Hs r). revert Hs Hnd. generalize known_queues as qs.
    induction qs as [|q qs IH]; intros Hs Hnd; csimpl; [lia|].
    apply NoDup_cons in Hnd as [Hni Hnd].
    specialize (IH ltac:(intros; apply Hs; set_solver) Hnd).
    destruct (z_score ps'.2 q r) as [x|] eqn:Hx; csimpl; [|done].
    assert (omap (λ q, (λ x, (q, x)) <$> z_score ps'.2 q r) qs = []) as ->; [|simpl; lia].
    clear IH. assert (Hno : ∀ q', q' ∈ qs → z_score ps'.2 q' r = None).
    { intros q' Hq'. destruct (z_score ps'.2 q' r) eqn:Hy; [|done].
      assert (q = q') by (apply Hs; [set_solver..|rewrite Hx; eauto|rewrite Hy; eauto]). by subst. }
    clear - Hno. induction qs as [|q' qs IH]; csimpl; [done|].
    rewrite Hno by set_solver. csimpl. apply IH. set_solver. }
  destruct (Nat.ltb_spec 1 (length (omap (λ q, (λ x, (q, x)) <$> z_score ps'.2 q r) known_queues)));
    [lia|]. repeat dmatch; done.
Qed.

(** First in, first out. In every reachable state, an enqueue that stores
    gives its delivery a score strictly above every delivery already waiting
    in that intake queue, whatever the callers' clocks did, and leaves their
    scores alone; so (with the admission order) they are taken first. *)
Theorem intake_is_fifo ps p s now pri r e ttl payload s' :
  queue_inv ps → rtc qstep ps (p, s) → pri ∈ PRIORITIES →
  atomic_enqueue now (intake pri) r e ttl payload s = (Ok true, s') →
  ∃ score, z_score s' (intake pri) r = Some score
    ∧ ∀ m x, m ≠ r → z_score s (intake pri) m = Some x →
        z_score s' (intake pri) m = Some x ∧ zbefore (m, x) (r, score) = true
        ∧ zbefore (r, score) (m, x) = false.
Proof.
  intros Hi Hr Hpri He. destruct (queue_inv_reachable _ _ Hi Hr) as (_ & _ & Hf).
  apply enqueue_stored in He as (s1 & score & life & _ & _ & _ & Hsame & _ & _ & _ & _ & Hlast & ->).
  exists score. unfold r_set, r_setex. rewrite score_write, zadd_same. split; [done|].
  intros m x Hm Hx. rewrite score_write, zadd_other, score_write, Hsame by naive_solver.
  split; [done|]. specialize (Hf pri Hpri); simpl in Hf. unfold r_get in Hlast.
  assert (x < score).
  { destruct (r_entry s _) as [[[l|b] [d|]]|]; try done; [|by rewrite Hf in Hx].
    specialize (Hf _ _ Hx). lia. }
  unfold zbefore; simpl. split.
  - apply orb_true_iff. left. by apply Z.ltb_lt.
  - apply orb_false_iff. split; [apply Z.ltb_ge; lia|].
    apply andb_false_iff. left. apply Z.eqb_neq. lia.
Qed.

(** ** The worker's limit *)

Lemma count_shrinks_by_one s s' q mx m :
  (∀ m', m' ≠ m → z_score s' q m' = z_score s q m') →
  (z_count s' q mx ≤ S (z_count s q mx))%nat.
Proof.
  intros Hsame. unfold z_count.
  assert (Hnd : ∀ t : T, NoDup (z_upto t q mx)).
  { intros t. unfold z_upto. apply NoDup_filter. eapply NoDup_fmap_1, members_nodup. }
  transitivity (length (filter (λ e, e.1 ≠ m) (z_upto s' q mx)) + 1)%nat.
  - pose proof (Hnd s') as Hn. assert (Hnk : NoDup (z_upto s' q mx).*1).
    { unfold z_upto. pose proof (members_nodup s' q) as Hk. revert Hk.
      generalize (z_members s' q) as l. induction l as [|[a b] l IH]; csimpl; [done|].
      intros [Hni Hk]%NoDup_cons. rewrite filter_cons. case_decide; [|auto].
      csimpl. apply NoDup_cons. split; [|auto]. intros Hin. apply Hni.
      apply list_elem_of_fmap in Hin as (y & -> & [_ Hy]%list_elem_of_filter).
      apply list_elem_of_fmap. eauto. }
    clear Hn Hnd Hsame. revert Hnk. generalize (z_upto s' q mx) as l.
    induction l as [|[a b] l IH]; csimpl; [lia|]. intros [Hni Hk]%NoDup_cons.
    rewrite filter_cons. case_decide as Ha; simpl in Ha; [specialize (IH Hk); simpl; lia|].
    destruct (decide (a = m)) as [->|]; [|done].
    assert (filter (λ e : string * Z, e.1 ≠ m) l = l) as ->; [|simpl; lia].
    clear -Hni. induction l as [|[c d] l IH]; csimpl; [done|].
    rewrite filter_cons, decide_True by (simpl; set_solver).
    f_equal. apply IH. set_solver.
  - assert (length (filter (λ e, e.1 ≠ m) (z_upto s' q mx)) ≤ length (z_upto s q mx))%nat; [|lia].
    apply submseteq_length, NoDup_submseteq; [by apply NoDup_filter|].
    intros [a b] [Ha Hin]%list_elem_of_filter; simpl in Ha.
    apply upto_elem in Hin as [Hs Hle]. apply upto_elem. by rewrite <- Hsame.
Qed.

Lemma admit_loop_count n now ready p s mx :
  (z_count (admit_loop n now ready (p, s)).2 base_queue_name mx
   ≤ n + z_count s base_queue_name mx)%nat.
Proof.
  revert p s. induction n as [|n IH]; intros p s; cbn [admit_loop]; [simpl; lia|].
  destruct (admit_one now ready (p, s)) as [[[m q]|] [p' s']] eqn:Ha.
  all: apply admit_one_spec in Ha as [(_ & _ & HA) _].
  - specialize (IH p' s'). destruct HA as (_ & _ & x & _ & _ & _ & _ & Hb).
    pose proof (count_shrinks_by_one s s' base_queue_name mx m Hb) as Hcount. lia.
  - assert (z_count s' base_queue_name mx ≤ z_count s base_queue_name mx)%nat; [|simpl; lia].
    unfold z_count. apply submseteq_length, NoDup_submseteq.
    + unfold z_upto. apply NoDup_filter. eapply NoDup_fmap_1, members_nodup.
    + intros [a b] Hin%upto_elem. apply upto_elem. by rewrite <- HA.
Qed.

(** The worker's limit. One poll never lets the due members of the base
    queue (the running deliveries included) exceed [max_jobs], unless they
    already did; and it takes nothing in when the worker is stopping, full or
    out of memory. *)
Theorem poll_respects_worker_limit allow counter max_jobs memory now ready p s :
  (z_count (poll_admissions allow counter max_jobs memory now ready (p, s)).2
     base_queue_name (1000 * ready)
   ≤ Nat.max max_jobs (z_count s base_queue_name (1000 * ready)))%nat
  ∧ (allow = false ∨ (max_jobs ≤ counter)%nat ∨ memory = false →
     poll_admissions allow counter max_jobs memory now ready (p, s) = (p, s)).
Proof.
  unfold poll_admissions. split.
  - destruct (_ && _); simpl; [|lia].
    pose proof (admit_loop_count (max_jobs - z_count s base_queue_name (1000 * ready))
                  now ready p s (1000 * ready)). lia.
  - intros [->|[Hc| ->]]; [done| |].
    + apply Nat.ltb_ge in Hc. rewrite Hc, andb_false_r. done.
    + by rewrite andb_false_r.
Qed.

(** ** Cancellation *)

(** An unstarted delivery is cancelled for good. When [cancel_run] sees
    the delivery queued (or deferred), and at its removal call Redis answers
    and the delivery is still in a configured queue and has not started, it
    answers [queued_cancelled] ([deferred_cancelled]) with the final state
    [missing], and then the run is in no configured queue and has no payload,
    so no admission can take it. *)
Theorem cancel_removes_unstarted E r s snp q :
  fails E 0%nat = false → fails E 1%nat = false →
  delivery_snapshot (now_at E 0%nat) (clock_at E 0%nat) r s = Ok snp →
  snap_state snp = st_queued ∨ snap_state snp = st_deferred →
  q ∈ known_queues → is_Some (z_score (env E 1%nat s) q r) →
  r_exists (env E 1%nat s) (now_at E 1%nat) (in_progress_key r) = false →
  ∃ s',
    cancel_run true E r s
    = (cancel_result (if bool_decide (snap_state snp = st_queued) then queued_cancelled
           else deferred_cancelled) (Some (snap_state snp)) (Some st_missing), s')
    ∧ (∀ q', q' ∈ known_queues → z_score s' q' r = None)
    ∧ (∀ now', r_exists s' now' (job_key r) = false)
    ∧ ∀ now' ready p mq ps', admit_one now' ready (p, s') = (mq, ps') →
        fst <$> mq ≠ Some r.
Proof.
  intros F0 F1 Hsn Hst Hq [x Hx] Hp.
  destruct (remove_unstarted (now_at E 1%nat) r (env E 1%nat s)) as [n s'] eqn:Hr.
  pose proof (removal_spec _ _ _ _ _ Hr) as (_ & _ & Hpos & Hzero).
  assert (0 < n)%nat as Hn.
  { destruct n; [|lia]. destruct (Hzero eq_refl) as [Ht|Hno]; [congruence|].
    by rewrite Hno in Hx. }
  destruct (Hpos Hn) as (_ & Hgone & Hpay). exists s'.
  assert (Hloc : is_Some (snap_queue snp)).
  { unfold delivery_snapshot in Hsn. repeat (dmatch; simplify_eq/=); naive_solver. }
  split_and!; [|done|done|].
  - unfold cancel_run, snapshot_call. simpl. rewrite F0, Hsn. destruct Hloc as [lq Hlq].
    apply Nat.ltb_lt in Hn.
    destruct Hst as [Hst|Hst]; rewrite Hst, Hlq; simpl; unfold cancel_unstarted;
      rewrite F1, Hr, Hn; done.
  - intros now' ready p mq [p' s2] Ha Hm. apply admit_one_spec in Ha as [(_ & _ & HA) _].
    destruct mq as [[m q']|]; simplify_eq/=. destruct HA as (_ & He & _).
    by rewrite Hpay in He.
Qed.

(** What a quiescent answer rests on. *)
Definition quiescence_evidence (E : cancel_env) r s (res : RunCancellationResult) : Prop :=
  (∃ n t snp, snapshot_call E n r t = Ok snp
     ∧ (snap_state snp = st_complete ∨ snap_state snp = st_missing)
     ∧ rc_final res = Some (snap_state snp))
  ∨ (∃ k t, remove_unstarted (now_at E 1%nat) r (env E 1%nat s) = (k, t) ∧ (0 < k)%nat)
  ∨ (∃ t t', abort E t = (AbortReturned true, t')).

Lemma abort_running_evidence E r initial s s0 o s' :
  (initial = st_queued ∨ initial = st_deferred ∨ initial = st_in_progress) →
  abort_running E r initial s = (o, s') →
  ∃ res, o = Ok res ∧ (quiescent res = true → quiescence_evidence E r s0 res).
Proof.
  intros Hin. unfold abort_running. destruct (abort E _) as [[[]| |] s2] eqn:Hab.
  - destruct (snapshot_call E 4 r _) as [fin|err] eqn:Hs.
    + destruct (cancelled_outcome initial) eqn:Hc; [|naive_solver].
      intros ?; simplify_eq. eexists. split; [done|]. intros _. right; right. eauto.
    + intros ?; simplify_eq. eexists. split; [done|]. done.
  - destruct (snapshot_call E 4 r _) as [fin|err] eqn:Hs.
    + destruct (snap_state fin) eqn:Hf; intros ?; simplify_eq; eexists; (split; [done|]);
        simpl; try done; intros _; left; exists 4%nat; do 2 eexists; rewrite Hs; (split; [done|]);
        rewrite Hf; naive_solver.
    + intros ?; simplify_eq. eexists. split; [done|]. done.
  - intros ?; simplify_eq. eexists. split; [done|]. done.
  - intros ?; simplify_eq. eexists. split; [done|]. done.
Qed.

(** A quiescent answer is never made up. [cancel_run] always answers (it
    raises nothing, whatever Redis, arq and the rest of the system do), and
    when the answer counts as quiescent, one of its calls really observed the
    delivery complete or missing (and that is the reported final state), or
    its removal script took the delivery out of a queue, or arq's abort
    returned true. *)
Theorem cancel_quiescence_has_evidence connected E r s :
  ∃ res s', cancel_run connected E r s = (Ok res, s')
    ∧ (quiescent res = true → quiescence_evidence E r s res).
Proof.
  unfold cancel_run. destruct connected; simpl; [|by do 2 eexists].
  destruct (snapshot_call E 0 r s) as [snp|err] eqn:Hs; [|by do 2 eexists].
  assert (Hab : ∀ i t, i = st_queued ∨ i = st_deferred ∨ i = st_in_progress →
    ∃ res s', abort_running E r i t = (Ok res, s')
      ∧ (quiescent res = true → quiescence_evidence E r s res)).
  { intros i t Hi. destruct (abort_running E r i t) as [o s'] eqn:Ha.
    eapply (abort_running_evidence _ _ _ _ s) in Ha as (res & -> & ?); [|done]. eauto. }
  assert (Hun : ∀ i, i = st_queued ∨ i = st_deferred →
    ∃ res s', cancel_unstarted E r i s = (Ok res, s')
      ∧ (quiescent res = true → quiescence_evidence E r s res)).
  { intros i Hi. unfold cancel_unstarted. destruct (fails E 1); [by do 2 eexists|].
    destruct (remove_unstarted _ r _) as [k s2] eqn:Hr.
    destruct (Nat.ltb_spec 0 k).
    { do 2 eexists. split; [done|]. intros _. right; left. eauto. }
    destruct (snapshot_call E 2 r _) as [sn2|err] eqn:Hs2; [|by do 2 eexists].
    destruct (snap_state sn2) eqn:Hst; try (apply Hab; naive_solver).
    all: do 2 eexists; (split; [done|]); intros _; left; exists 2%nat; do 2 eexists;
      rewrite Hs2, Hst; naive_solver. }
  destruct (snap_state snp) eqn:Hst.
  4, 5: do 2 eexists; (split; [done|]); intros _; left; exists 0%nat; do 2 eexists;
    rewrite Hs, Hst; naive_solver.
  all: destruct (snap_queue snp); [|by do 2 eexists]; simpl.
  all: first [apply Hun | apply Hab]; naive_solver.
Qed.
End queue_properties.

(** ** Concrete instances: the service's default queue name and arq's prefixes *)

#[export] Program Instance default_names : QueueNames := {
  base_queue_name := "scrapeyard";
  job_key_prefix := "arq:job:";
  result_key_prefix := "arq:result:";
  in_progress_key_prefix := "arq:in-progress:";
}.
Next Obligation. done. Qed.
Next Obligation. done. Qed.
Next Obligation. done. Qed.
Next Obligation. done. Qed.

Module QueueWitness.
Definition store (pri r : string) (t : Z) (s : GRedis) : GRedis :=
  (atomic_enqueue t (intake pri) r t 1000 "payload" s).2.

(** Two low deliveries and a normal one, accepted in that order. *)
Definition s0 : GRedis := store "normal" "n1" 7 (store "low" "l2" 3 (store "low" "l1" 5 g_empty)).

Lemma empty_inv : queue_inv (policy_init, g_empty).
Proof.
  split_and!; [apply policy_init_wf| |]; simpl.
  - intros r q q' _ _ [x Hx]. simpl in Hx. by rewrite lookup_empty in Hx.
  - intros pri _. simpl. rewrite lookup_empty. intros. apply lookup_empty.
Qed.

Lemma s0_reachable : rtc qstep (policy_init, g_empty) (policy_init, s0).
Proof.
  unfold s0, store.
  eapply rtc_r; [eapply rtc_r; [eapply rtc_r; [apply rtc_refl|]|]|];
    apply step_enqueue; apply (bool_decide_unpack _); by vm_compute.
Qed.

Lemma admission_takes_oldest_of_first_queue_witness :
  (admit_one 8 8 (policy_init, s0)).1 = Some ("n1", intake "normal") ∧
  ∃ order before pri after x,
    selection_order policy_init = Some order ∧ order = before ++ pri :: after
    ∧ intake "normal" = intake pri ∧ live_due 8 8 s0 (intake "normal") "n1" x.
Proof.
  assert (Ha : admit_one 8 8 (policy_init, s0)
               = (Some ("n1", intake "normal"), (admit_one 8 8 (policy_init, s0)).2))
    by (vm_compute; reflexivity).
  split; [vm_compute; reflexivity|].
  destruct (admission_takes_oldest_of_first_queue _ _ _ _ _ _ _ Ha)
    as (o & b & pri & a & x & H1 & H2 & H3 & H4 & _).
  exists o, b, pri, a, x. repeat split; try assumption; apply H4.
Defined.

Lemma admission_loses_nothing_witness :
  z_score (admit_one 8 8 (policy_init, s0)).2.2 (intake "low") "l1" = Some 5000
  ∨ ((admit_one 8 8 (policy_init, s0)).1 = Some ("l1", intake "low")
     ∧ z_score (admit_one 8 8 (policy_init, s0)).2.2 base_queue_name "l1" = Some 5000).
Proof.
  apply (admission_loses_nothing 8 8 policy_init s0 _ (admit_one 8 8 (policy_init, s0)).2.1);
    vm_compute; reflexivity.
Defined.

(** Seven turns on a store where high work never runs out still serve low. *)
Definition backlog (i : nat) : GRedis := store "high" "h" 1 s0.

(** The admissions of a worker on it. *)
Fixpoint worker_policy (i : nat) : WeightedPriorityPolicy :=
  match i with O => policy_init | S i => (admit_one 8 8 (worker_policy i, backlog i)).2.1 end.
Definition worker_turn (i : nat) := admit_one 8 8 (worker_policy i, backlog i).
Lemma served_within_seven_witness :
  ∃ i, (i < 7)%nat ∧ (default ("", "") (worker_turn i).1).2 = intake "low".
Proof.
  apply (served_within_seven worker_policy backlog (λ i, (worker_turn i).2.2) (λ _, 8) (λ _, 8)
           (λ i, default ("", "") (worker_turn i).1) "low").
  - apply policy_init_wf.
  - apply (bool_decide_unpack _). vm_compute. exact I.
  - intros i Hi. do 7 (destruct i as [|i]; [vm_compute; reflexivity|]). lia.
  - intros i _. exists "l1", 5000. split; vm_compute; reflexivity.
Defined.

Lemma first_enqueue_wins_witness :
  atomic_enqueue 9 (intake "high") "l1" 9 1000 "other" (store "low" "l1" 5 g_empty)
  = (Ok false, store "low" "l1" 5 g_empty).
Proof.
  apply (first_enqueue_wins 5 "low" "l1" 5 1000 "payload" g_empty).
  - apply (bool_decide_unpack _). vm_compute. exact I.
  - vm_compute. reflexivity.
  - lia.
Defined.

Lemma run_in_one_queue_witness :
  delivery_snapshot 8 8 "n1" s0 ≠ Raise MultipleQueues.
Proof.
  apply (run_in_one_queue (policy_init, g_empty) (policy_init, s0) "n1" 8 8).
  - apply empty_inv.
  - apply s0_reachable.
Defined.

(** The clock of the second caller is behind (3 after 5): still behind in the queue. *)
Lemma intake_is_fifo_witness :
  ∃ score, z_score (store "low" "l3" 1 s0) (intake "low") "l3" = Some score
    ∧ zbefore ("l1", 5000) ("l3", score) = true.
Proof.
  assert (He : atomic_enqueue 1 (intake "low") "l3" 1 1000 "payload" s0
               = (Ok true, store "low" "l3" 1 s0)) by (vm_compute; reflexivity).
  assert (Hlow : "low" ∈ PRIORITIES) by (apply (bool_decide_unpack _); vm_compute; exact I).
  destruct (intake_is_fifo _ _ _ _ _ _ _ _ _ _ empty_inv s0_reachable Hlow He)
    as (score & Hs & Hall).
  exists score. split; [exact Hs|].
  apply (Hall "l1" 5000); [discriminate | vm_compute; reflexivity].
Defined.

Definition calm : cancel_env (T := GRedis) := {|
  env := λ _ s, s; fails := λ _, false; now_at := λ _, 8; clock_at := λ _, 8;
  abort := λ s, (AbortTimeout, s);
|}.

Lemma cancel_removes_unstarted_witness :
  ∃ s', cancel_run true calm "l1" s0
    = (cancel_result queued_cancelled (Some st_queued) (Some st_missing), s')
    ∧ z_score s' (intake "low") "l1" = None.
Proof.
  assert (Hlow : intake "low" ∈ known_queues)
    by (apply (bool_decide_unpack _); vm_compute; exact I).
  destruct (cancel_removes_unstarted calm "l1" s0
              {| snap_state := st_queued; snap_queue := Some (intake "low") |} (intake "low"))
    as (s' & H1 & H2 & _).
  - reflexivity.
  - reflexivity.
  - vm_compute. reflexivity.
  - left. reflexivity.
  - exact Hlow.
  - exists 5000. vm_compute. reflexivity.
  - vm_compute. reflexivity.
  - exists s'. split; [exact H1 | apply H2; exact Hlow].
Defined.
End QueueWitness.
