(* ===== verification/Budget.v ===== *)
(** * Run budgets ([common/budgets.py])

    [RunBudget] keeps the counters of one run, its deadline and the first or
    latest limit it ran into. Times are integers in a fixed small unit (the code's
    floats count seconds). [clock n] is the [n]-th reading of the monotonic
    clock; the state counts the readings, so that an operation that looks at the
    clock twice sees two readings. The asyncio and threading locks make the
    sections under them atomic: each such section is a definition of its own
    (with the suffix [_locked]), and the step relation [bstep] interleaves them
    freely. *)

From S2P Require Import Prelude.
Open Scope Z_scope.

Module Budget.

(** ** Limits and errors *)

Inductive BudgetLimitName :=
| run_duration_seconds | requests | fetched_bytes | extracted_records
| serialized_result_bytes | browser_debug_bytes.

#[export] Instance BudgetLimitName_eq_dec : EqDecision BudgetLimitName.
Proof. solve_decision. Defined.

Record BudgetExceeded := {
  limit_name : BudgetLimitName;
  configured_limit : Z;
  observed_amount : Z;
}.

#[export] Instance BudgetExceeded_eq_dec : EqDecision BudgetExceeded.
Proof. solve_decision. Defined.

Inductive budget_error :=
| Exceeded (e : BudgetExceeded)
| ValueError (message : string).

(** ** Settings *)

(** What [getattr] gives for a setting: a missing attribute gives the default
    of the call. [SFloat t] counts the development's small time unit, of which
    [unit] make one. *)
Inductive setting :=
| SMissing | SInt (n : Z) | SFloat (t : Z) | SBool (b : bool) | SOther.

Definition _numeric_setting (value default : setting) : setting :=
  match value with
  | SInt n => SInt n
  | SFloat t => SFloat t
  | _ => default
  end.

(** [int(...)] truncates a float towards zero. *)
Definition to_int (unit : Z) (v : setting) : Z :=
  match v with SInt n => n | SFloat t => Z.quot t unit | _ => 0 end.
Definition to_float (unit : Z) (v : setting) : Z :=
  match v with SInt n => n * unit | SFloat t => t | _ => 0 end.

Definition _DEFAULT_MAX_DURATION_SECONDS : setting := SInt 900.
Definition _DEFAULT_MAX_REQUESTS : setting := SInt 10000.
Definition _DEFAULT_MAX_FETCHED_BYTES : setting := SInt 104857600.
Definition _DEFAULT_MAX_EXTRACTED_RECORDS : setting := SInt 100000.
Definition _DEFAULT_MAX_SERIALIZED_RESULT_BYTES : setting := SInt 52428800.
Definition _DEFAULT_MAX_BROWSER_DEBUG_BYTES : setting := SInt 26214400.

Record budget_settings := {
  s_run_max_requests : setting;
  s_run_max_duration_seconds : setting;
  s_run_max_fetched_bytes : setting;
  s_run_max_extracted_records : setting;
  s_run_max_serialized_result_bytes : setting;
  s_run_max_browser_debug_bytes : setting;
}.

(** The job's own limits ([execution]); [SMissing] for an absent attribute. *)
Record budget_execution := {
  x_max_requests : setting;
  x_max_fetched_bytes : setting;
  x_max_extracted_records : setting;
  x_max_serialized_result_bytes : setting;
}.

Record limits := {
  max_duration_seconds : Z;
  max_requests : Z;
  max_fetched_bytes : Z;
  max_extracted_records : Z;
  max_serialized_result_bytes : Z;
  max_browser_debug_bytes : Z;
}.

(** The state of [RunBudget] (its [traffic] and [public_hosts] are components of
    their own). *)
Record RunBudget := {
  lim : limits;
  started_monotonic : Z;
  deadline_monotonic : Z;
  _fetched_bytes : Z;
  _requests : Z;
  _extracted_records : Z;
  _browser_debug_bytes : Z;
  _estimated_result_bytes : Z;
  _exhausted : option BudgetExceeded;
  readings : nat;
}.

Definition with_readings (n : nat) (b : RunBudget) : RunBudget :=
  {| lim := lim b; started_monotonic := started_monotonic b;
     deadline_monotonic := deadline_monotonic b; _fetched_bytes := _fetched_bytes b;
     _requests := _requests b; _extracted_records := _extracted_records b;
     _browser_debug_bytes := _browser_debug_bytes b;
     _estimated_result_bytes := _estimated_result_bytes b;
     _exhausted := _exhausted b; readings := n |}.

Definition with_exhausted (e : BudgetExceeded) (b : RunBudget) : RunBudget :=
  {| lim := lim b; started_monotonic := started_monotonic b;
     deadline_monotonic := deadline_monotonic b; _fetched_bytes := _fetched_bytes b;
     _requests := _requests b; _extracted_records := _extracted_records b;
     _browser_debug_bytes := _browser_debug_bytes b;
     _estimated_result_bytes := _estimated_result_bytes b;
     _exhausted := Some e; readings := readings b |}.

(** The counters, in the order: fetched, requests, records, debug, estimated. *)
Definition with_counters (f r x d e : Z) (b : RunBudget) : RunBudget :=
  {| lim := lim b; started_monotonic := started_monotonic b;
     deadline_monotonic := deadline_monotonic b; _fetched_bytes := f;
     _requests := r; _extracted_records := x; _browser_debug_bytes := d;
     _estimated_result_bytes := e; _exhausted := _exhausted b; readings := readings b |}.

Definition set_fetched (v : Z) (b : RunBudget) :=
  with_counters v (_requests b) (_extracted_records b) (_browser_debug_bytes b)
    (_estimated_result_bytes b) b.
Definition set_requests (v : Z) (b : RunBudget) :=
  with_counters (_fetched_bytes b) v (_extracted_records b) (_browser_debug_bytes b)
    (_estimated_result_bytes b) b.
Definition set_records (v : Z) (b : RunBudget) :=
  with_counters (_fetched_bytes b) (_requests b) v (_browser_debug_bytes b)
    (_estimated_result_bytes b) b.
Definition set_debug (v : Z) (b : RunBudget) :=
  with_counters (_fetched_bytes b) (_requests b) (_extracted_records b) v
    (_estimated_result_bytes b) b.
Definition set_estimated (v : Z) (b : RunBudget) :=
  with_counters (_fetched_bytes b) (_requests b) (_extracted_records b)
    (_browser_debug_bytes b) v b.

Abbreviation budget_prog := (prog RunBudget budget_error).

Section run_budget.
Context (clock : nat → Z).

(** [RunBudget.__init__]: the clock is read once (reading number [n0]). *)
Definition new_budget (l : limits) (n0 : nat) : RunBudget :=
  {| lim := l; started_monotonic := clock n0;
     deadline_monotonic := clock n0 + max_duration_seconds l;
     _fetched_bytes := 0; _requests := 0; _extracted_records := 0;
     _browser_debug_bytes := 0; _estimated_result_bytes := 0;
     _exhausted := None; readings := Datatypes.S n0 |}.

(** The loop of [from_settings] over the job's limits: an integer (not a bool)
    lowers the service limit. *)
Definition lowered (service : Z) (value : setting) : Z :=
  match value with SInt n => Z.min service n | _ => service end.

Definition from_settings (unit : Z) (s : budget_settings) (x : option budget_execution)
    (n0 : nat) : RunBudget :=
  let x := default {| x_max_requests := SMissing; x_max_fetched_bytes := SMissing;
                      x_max_extracted_records := SMissing;
                      x_max_serialized_result_bytes := SMissing |} x in
  new_budget
    {| max_requests := lowered
         (to_int unit (_numeric_setting (s_run_max_requests s) _DEFAULT_MAX_REQUESTS))
         (x_max_requests x);
       max_duration_seconds :=
         to_float unit (_numeric_setting (s_run_max_duration_seconds s)
                          _DEFAULT_MAX_DURATION_SECONDS);
       max_fetched_bytes := lowered
         (to_int unit (_numeric_setting (s_run_max_fetched_bytes s)
                         _DEFAULT_MAX_FETCHED_BYTES))
         (x_max_fetched_bytes x);
       max_extracted_records := lowered
         (to_int unit (_numeric_setting (s_run_max_extracted_records s)
                         _DEFAULT_MAX_EXTRACTED_RECORDS))
         (x_max_extracted_records x);
       max_serialized_result_bytes := lowered
         (to_int unit (_numeric_setting (s_run_max_serialized_result_bytes s)
                         _DEFAULT_MAX_SERIALIZED_RESULT_BYTES))
         (x_max_serialized_result_bytes x);
       max_browser_debug_bytes :=
         to_int unit (_numeric_setting (s_run_max_browser_debug_bytes s)
                        _DEFAULT_MAX_BROWSER_DEBUG_BYTES) |} n0.

(** ** The clock *)

Definition _clock : budget_prog Z := λ b,
  (Ok (clock (readings b)), with_readings (Datatypes.S (readings b)) b).

Definition elapsed_seconds : budget_prog Z :=
  let! b := pget in let! now := _clock in
  pret (Z.max 0 (now - started_monotonic b)).

Definition remaining_seconds : budget_prog Z :=
  let! b := pget in let! now := _clock in
  pret (Z.max 0 (deadline_monotonic b - now)).

Definition remaining_fetched_bytes (b : RunBudget) : Z :=
  Z.max 0 (max_fetched_bytes (lim b) - _fetched_bytes b).

(** [self._exhausted = e; raise e] *)
Definition exhaust {A} (e : BudgetExceeded) : budget_prog A :=
  do! pmodify (with_exhausted e) in praise (Exceeded e).

Definition _duration_error : budget_prog BudgetExceeded :=
  let! b := pget in let! elapsed := elapsed_seconds in
  pret {| limit_name := run_duration_seconds;
          configured_limit := max_duration_seconds (lim b);
          observed_amount := elapsed |}.

(** [self._exhausted = self._duration_error(); raise self._exhausted] *)
Definition expire {A} : budget_prog A := let! e := _duration_error in exhaust e.

Definition check_deadline : budget_prog unit :=
  let! b := pget in
  match _exhausted b with
  | Some e => praise (Exceeded e)
  | None =>
      let! now := _clock in
      if deadline_monotonic b <=? now then expire else pret tt
  end.

Definition exhaust_duration : budget_prog unit :=
  let! b := pget in
  match _exhausted b with
  | Some e => praise (Exceeded e)
  | None => expire
  end.

(** ** Reservations *)

(** The comparison every counter makes: above the limit the budget is exhausted,
    else the counter takes the new amount. *)
Definition charge (n : BudgetLimitName) (limit observed : Z)
    (set : Z → RunBudget → RunBudget) : budget_prog unit :=
  if limit <? observed
  then exhaust {| limit_name := n; configured_limit := limit; observed_amount := observed |}
  else pmodify (set observed).

Definition reserve_requests_locked (amount : Z) : budget_prog unit :=
  do! check_deadline in
  let! b := pget in
  charge requests (max_requests (lim b)) (_requests b + amount) set_requests.

Definition reserve_requests (amount : Z) : budget_prog unit :=
  if amount <? 1 then praise (ValueError "Request reservation must be positive")
  else reserve_requests_locked amount.

Definition settle_requests_locked (reserved issued : Z) : budget_prog unit :=
  pmodify (λ b, set_requests (_requests b - (reserved - issued)) b).

Definition settle_requests (reserved issued : Z) : budget_prog unit :=
  if (0 <=? issued) && (issued <=? reserved)
  then settle_requests_locked reserved issued
  else praise (ValueError "Invalid settled request reservation").

Definition check_fetched_locked (amount : Z) : budget_prog unit :=
  let! b := pget in
  charge fetched_bytes (max_fetched_bytes (lim b)) (_fetched_bytes b + amount)
    (λ _ b, b).

Definition check_fetched_capacity (amount : Z) : budget_prog unit :=
  if amount <? 0 then praise (ValueError "Fetched byte amount cannot be negative")
  else do! check_deadline in check_fetched_locked amount.

Definition consume_fetched_locked (amount : Z) : budget_prog unit :=
  do! check_deadline in
  let! b := pget in
  charge fetched_bytes (max_fetched_bytes (lim b)) (_fetched_bytes b + amount) set_fetched.

Definition consume_fetched_bytes (amount : Z) : budget_prog unit :=
  if amount <? 0 then praise (ValueError "Fetched byte amount cannot be negative")
  else do! check_deadline in consume_fetched_locked amount.

Definition reserve_records_locked (amount : Z) : budget_prog unit :=
  do! check_deadline in
  let! b := pget in
  charge extracted_records (max_extracted_records (lim b)) (_extracted_records b + amount)
    set_records.

Definition reserve_extracted_records (amount : Z) : budget_prog unit :=
  if amount <? 0 then praise (ValueError "Extracted record amount cannot be negative")
  else do! check_deadline in reserve_records_locked amount.

Definition enforce_serialized_result_bytes (amount : Z) : budget_prog unit :=
  do! check_deadline in
  let! b := pget in
  charge serialized_result_bytes (max_serialized_result_bytes (lim b)) amount (λ _ b, b).

Definition reserve_estimated_locked (amount : Z) : budget_prog unit :=
  do! check_deadline in
  let! b := pget in
  charge serialized_result_bytes (max_serialized_result_bytes (lim b))
    (_estimated_result_bytes b + amount) set_estimated.

Definition reserve_estimated_result_bytes (amount : Z) : budget_prog unit :=
  if amount <? 0 then praise (ValueError "Estimated result byte amount cannot be negative")
  else do! check_deadline in reserve_estimated_locked amount.

Definition reserve_debug_locked (requested : Z) (allow_partial : bool) : budget_prog Z :=
  do! check_deadline in
  let! b := pget in
  let remaining := max_browser_debug_bytes (lim b) - _browser_debug_bytes b in
  let granted := if allow_partial then Z.min requested remaining
                 else if requested <=? remaining then requested else 0 in
  do! pmodify (set_debug (_browser_debug_bytes b + granted)) in
  pret granted.

Definition reserve_browser_debug_bytes (requested : Z) (allow_partial : bool) : budget_prog Z :=
  if requested <? 0 then praise (ValueError "Browser debug byte amount cannot be negative")
  else do! check_deadline in reserve_debug_locked requested allow_partial.

Definition release_debug_locked (amount : Z) : budget_prog unit :=
  pmodify (λ b, set_debug (Z.max 0 (_browser_debug_bytes b - amount)) b).

Definition release_browser_debug_bytes (amount : Z) : budget_prog unit :=
  if amount <? 0 then praise (ValueError "Browser debug byte amount cannot be negative")
  else release_debug_locked amount.

(** ** Waiting under the deadline

    [wait_for] and [wait_for_owned] differ in how they dispose of the awaited
    task. What the event loop does with that task is the argument [finished]: for
    the time the run has left, [Some result] when the task was done in time, which
    also may be its exception ([None] inside). Between the start of the wait and
    its end other tasks run: [during] is what they do to the budget. *)
Definition wait_for {A} (during : RunBudget → RunBudget)
    (finished : Z → option (outcome budget_error A)) : budget_prog A :=
  do! check_deadline in
  let! left := remaining_seconds in
  do! pmodify during in
  match finished left with
  | Some (Ok a) => pret a
  | Some (Raise e) => praise e
  | None => expire
  end.

Definition sleep (delay_seconds : Z) (during : RunBudget → RunBudget)
    (finished : Z → option (outcome budget_error unit)) : budget_prog unit :=
  if delay_seconds <=? 0 then check_deadline else wait_for during finished.

(** ** Steps: the atomic sections of the tasks of one run

    The ledger [held] is the sum of the request reservations not yet settled,
    [issued] the requests the settled ones used. Reservations are settled once, one
    or several together, with what they really issued (at most what they reserved):
    that is what [browser_session.py] does with its redirect allowance. *)
Definition zsum (l : list Z) : Z := foldr Z.add 0 l.

Record ledger := { held : list Z; issued : Z }.

Inductive bstep : RunBudget * ledger → RunBudget * ledger → Prop :=
| b_check b l : bstep (b, l) ((check_deadline b).2, l)
| b_exhaust b l : bstep (b, l) ((exhaust_duration b).2, l)
| b_expire b l : bstep (b, l) ((expire (A := unit) b).2, l)
| b_reserve b b' l n : 1 ≤ n →
    reserve_requests n b = (Ok tt, b') →
    bstep (b, l) (b', {| held := n :: held l; issued := issued l |})
| b_reserve_fails b b' l n e :
    reserve_requests n b = (Raise e, b') → bstep (b, l) (b', l)
| b_settle b l rs rest used :
    held l ≡ₚ rs ++ rest → 0 ≤ used ≤ zsum rs →
    bstep (b, l) ((settle_requests (zsum rs) used b).2,
                  {| held := rest; issued := issued l + used |})
| b_check_fetched b l n : bstep (b, l) ((check_fetched_capacity n b).2, l)
| b_check_fetched_locked b l n : 0 ≤ n → bstep (b, l) ((check_fetched_locked n b).2, l)
| b_fetched b l n : bstep (b, l) ((consume_fetched_bytes n b).2, l)
| b_fetched_locked b l n : 0 ≤ n → bstep (b, l) ((consume_fetched_locked n b).2, l)
| b_records b l n : bstep (b, l) ((reserve_extracted_records n b).2, l)
| b_records_locked b l n : 0 ≤ n → bstep (b, l) ((reserve_records_locked n b).2, l)
| b_enforce b l n : bstep (b, l) ((enforce_serialized_result_bytes n b).2, l)
| b_estimated b l n : bstep (b, l) ((reserve_estimated_result_bytes n b).2, l)
| b_estimated_locked b l n : 0 ≤ n → bstep (b, l) ((reserve_estimated_locked n b).2, l)
| b_debug b l n p : bstep (b, l) ((reserve_browser_debug_bytes n p b).2, l)
| b_debug_locked b l n p : 0 ≤ n → bstep (b, l) ((reserve_debug_locked n p b).2, l)
| b_release b l n : bstep (b, l) ((release_browser_debug_bytes n b).2, l).

(** ** Invariant *)

(** Limits the settings schema can produce: none is negative. *)
Definition limits_ok (l : limits) : Prop :=
  0 ≤ max_duration_seconds l ∧ 0 ≤ max_requests l ∧ 0 ≤ max_fetched_bytes l ∧
  0 ≤ max_extracted_records l ∧ 0 ≤ max_serialized_result_bytes l ∧
  0 ≤ max_browser_debug_bytes l.

(** Every counter but the requests is between zero and its limit. *)
Definition within (b : RunBudget) : Prop :=
  0 ≤ _fetched_bytes b ≤ max_fetched_bytes (lim b) ∧
  0 ≤ _extracted_records b ≤ max_extracted_records (lim b) ∧
  0 ≤ _estimated_result_bytes b ≤ max_serialized_result_bytes (lim b) ∧
  0 ≤ _browser_debug_bytes b ≤ max_browser_debug_bytes (lim b).

Definition requests_within (b : RunBudget) : Prop := _requests b ≤ max_requests (lim b).

Definition budget_inv (lims : limits) (s : RunBudget * ledger) : Prop :=
  lim s.1 = lims ∧ within s.1 ∧ requests_within s.1 ∧ Forall (λ n, 1 ≤ n) (held s.2) ∧
  0 ≤ issued s.2 ∧ _requests s.1 = zsum (held s.2) + issued s.2.


(** ** Lemmas on the operations *)

Lemma zsum_app l k : zsum (l ++ k) = zsum l + zsum k.
Proof. unfold zsum. induction l; simpl in *; lia. Qed.

Lemma zsum_perm l k : l ≡ₚ k → zsum l = zsum k.
Proof. unfold zsum. induction 1; simpl; lia. Qed.

Lemma zsum_nonneg l : Forall (λ n, 1 ≤ n) l → 0 ≤ zsum l.
Proof. unfold zsum. induction 1; simpl; lia. Qed.

(** [same b b']: only the readings and the exhaustion may differ. *)
Definition same (b b' : RunBudget) : Prop :=
  lim b' = lim b ∧ started_monotonic b' = started_monotonic b ∧
  deadline_monotonic b' = deadline_monotonic b ∧ _fetched_bytes b' = _fetched_bytes b ∧
  _requests b' = _requests b ∧ _extracted_records b' = _extracted_records b ∧
  _browser_debug_bytes b' = _browser_debug_bytes b ∧
  _estimated_result_bytes b' = _estimated_result_bytes b.

Lemma check_deadline_spec b :
  let '(r, b') := check_deadline b in
  same b b' ∧
  match r with
  | Ok _ => _exhausted b = None ∧ _exhausted b' = None ∧ clock (readings b) < deadline_monotonic b
  | Raise e => ∃ x, e = Exceeded x ∧ _exhausted b' = Some x ∧
                 (_exhausted b = None ∨ _exhausted b = Some x)
  end.
Proof.
  unfold check_deadline, pbind, pget. destruct (_exhausted b) as [e|] eqn:He.
  - simpl. rewrite He. unfold same. naive_solver.
  - unfold _clock, expire, exhaust, _duration_error, elapsed_seconds, _clock, pbind, pget, pret.
    destruct (deadline_monotonic b <=? clock (readings b)) eqn:Hd; simpl;
      unfold same; simpl; boolprop; naive_solver.
Qed.

Lemma expire_spec {A} b :
  same b (expire (A := A) b).2 ∧ is_Some (_exhausted (expire (A := A) b).2).
Proof. unfold same; simpl; eauto 12. Qed.

Lemma exhaust_duration_spec b :
  same b (exhaust_duration b).2 ∧ is_Some (_exhausted (exhaust_duration b).2).
Proof.
  unfold exhaust_duration, pbind, pget. destruct (_exhausted b) eqn:He; simpl; [|apply (@expire_spec unit)].
  unfold same. rewrite He. eauto 12.
Qed.

Lemma charge_spec n limit observed set b :
  let '(r, b') := charge n limit observed set b in
  match r with
  | Ok _ => observed ≤ limit ∧ b' = set observed b
  | Raise e => limit < observed ∧ same b b' ∧
      e = Exceeded {| limit_name := n; configured_limit := limit; observed_amount := observed |} ∧
      is_Some (_exhausted b')
  end.
Proof.
  unfold charge. destruct (limit <? observed) eqn:E; boolprop; simpl; unfold same; simpl;
    naive_solver.
Qed.

(** An assertion that does not look at the readings or the exhaustion. *)
Definition counting (I : RunBudget → Prop) : Prop := ∀ b b', same b b' → I b → I b'.

Lemma keeps_check I : counting I → keeps I check_deadline.
Proof.
  intros HI b Hb. pose proof (check_deadline_spec b). destruct (check_deadline b).
  simpl. eapply HI; [|done]. tauto.
Qed.

Lemma keeps_charge I n (limit observed : RunBudget → Z) set :
  counting I → (∀ b, I b → observed b ≤ limit b → I (set (observed b) b)) →
  keeps I (let! b := pget in charge n (limit b) (observed b) set).
Proof.
  intros HI Hset b Hb. unfold pbind, pget.
  pose proof (charge_spec n (limit b) (observed b) set b) as H.
  destruct (charge n (limit b) (observed b) set b) as [[] b']; simpl.
  - destruct H as [Hle ->]. auto.
  - eapply HI; [|done]. tauto.
Qed.

Lemma keeps_modify {E} (I : RunBudget → Prop) f :
  (∀ b, I b → I (f b)) → keeps I (@pmodify RunBudget E f).
Proof. intros H b Hb. apply H, Hb. Qed.

(** What the counters of the tasks that do not dispatch requests keep: the
    requests, the limits, and each other counter within its limit. *)
Definition framed (r : Z) (l : limits) (b : RunBudget) : Prop :=
  _requests b = r ∧ lim b = l ∧ within b.

Lemma framed_counting r l : counting (framed r l).
Proof.
  intros b b' Hs. unfold framed, within. destruct Hs as (-> & _ & _ & -> & -> & -> & -> & ->).
  done.
Qed.

(** Walks through an operation: validation, checks, the charge of a counter. *)
Ltac budget_walk :=
  repeat first
    [ apply keeps_ret | apply keeps_raise
    | apply keeps_check; [apply framed_counting]
    | apply keeps_charge; [apply framed_counting|]
    | match goal with |- keeps _ (if ?c then _ else _) => destruct c eqn:? end; boolprop
    | match goal with |- keeps _ (pbind check_deadline _) => apply keeps_bind; intros end ].

Ltac framed_charge :=
  unfold framed, within, set_fetched, set_records, set_debug, set_estimated, with_counters;
  cbn; intros; intuition lia.

Lemma debug_locked_framed r l n p : 0 ≤ n → keeps (framed r l) (reserve_debug_locked n p).
Proof.
  intros Hn. unfold reserve_debug_locked. budget_walk.
  intros b Hb. revert Hb. unfold pbind, pget, pmodify. simpl.
  destruct p; [|destruct (n <=? _) eqn:E; boolprop]; framed_charge.
Qed.

Lemma release_locked_framed r l n : 0 ≤ n → keeps (framed r l) (release_debug_locked n).
Proof. intros Hn. apply keeps_modify. framed_charge. Qed.

Lemma fetched_locked_framed r l n : 0 ≤ n → keeps (framed r l) (consume_fetched_locked n).
Proof. intros Hn. unfold consume_fetched_locked. budget_walk. framed_charge. Qed.

Lemma check_fetched_locked_framed r l n : 0 ≤ n → keeps (framed r l) (check_fetched_locked n).
Proof. intros Hn. unfold check_fetched_locked. budget_walk. framed_charge. Qed.

Lemma records_locked_framed r l n : 0 ≤ n → keeps (framed r l) (reserve_records_locked n).
Proof. intros Hn. unfold reserve_records_locked. budget_walk. framed_charge. Qed.

Lemma estimated_locked_framed r l n : 0 ≤ n → keeps (framed r l) (reserve_estimated_locked n).
Proof. intros Hn. unfold reserve_estimated_locked. budget_walk. framed_charge. Qed.

Lemma enforce_framed r l n : keeps (framed r l) (enforce_serialized_result_bytes n).
Proof. unfold enforce_serialized_result_bytes. budget_walk. framed_charge. Qed.

Lemma reserve_requests_spec n b :
  let '(r, b') := reserve_requests n b in
  match r with
  | Ok _ => 1 ≤ n ∧ _requests b' = _requests b + n ∧ _requests b' ≤ max_requests (lim b) ∧
            _exhausted b = None ∧ ∃ c, same b c ∧ b' = set_requests (_requests b + n) c
  | Raise e => same b b'
  end.
Proof.
  unfold reserve_requests, reserve_requests_locked. destruct (n <? 1) eqn:En; boolprop.
  { unfold same. naive_solver. }
  unfold pbind at 1. pose proof (check_deadline_spec b) as H.
  destruct (check_deadline b) as [[[]|e] c]; [|tauto]. unfold pbind, pget.
  destruct H as [Hs (Hn & Hn' & _)].
  pose proof (charge_spec requests (max_requests (lim c)) (_requests c + n) set_requests c) as H.
  destruct Hs as (Hl & Hd & He & H1 & H2 & H3 & H4 & H5). rewrite H2, Hl in *.
  destruct (charge _ _ _ _ _) as [[] b'].
  - destruct H as [Hle ->]. split_and!; simpl; try done; [lia..|].
    exists c. unfold same. split_and!; congruence.
  - destruct H as (_ & Hs & _). unfold same in *. destruct_and!. split_and!; congruence.
Qed.

Lemma bstep_inv lims s s' : bstep s s' → budget_inv lims s → budget_inv lims s'.
Proof.
  assert (Hframe : ∀ (m : RunBudget → RunBudget) b l,
    (∀ r k, framed r k b → framed r k (m b)) → budget_inv lims (b, l) → budget_inv lims (m b, l)).
  { intros m b l Hm (Hlim & Hw & Hr & Hh & Hi & He); simpl in *.
    destruct (Hm (_requests b) (lim b)) as (E1 & E2 & Hw'); [done|].
    unfold budget_inv, requests_within in *; simpl. rewrite E1, E2. done. }
  assert (Hkeep : ∀ A (m : budget_prog A) b l,
    (∀ r k, keeps (framed r k) m) → budget_inv lims (b, l) → budget_inv lims ((m b).2, l)).
  { intros A m b l Hm. apply (Hframe (λ b, (m b).2)). intros r k. apply Hm. }
  assert (Hsame : ∀ b b' l, same b b' → budget_inv lims (b, l) → budget_inv lims (b', l)).
  { intros b b' l Hs. apply (Hframe (λ _, b')). intros r k. by apply framed_counting. }
  destruct 1 as [b l|b l|b l|b b' l n Hn Hr|b b' l n e Hr|b l rs rest used Hh Hu
                |b l n|b l n Hn|b l n|b l n Hn|b l n|b l n Hn|b l n|b l n|b l n Hn
                |b l n p|b l n p Hn|b l n];
    try (intros Hinv; eapply Hsame; [|exact Hinv]; first
           [ apply exhaust_duration_spec | apply (@expire_spec unit)
           | by pose proof (reserve_requests_spec n b) as Hs; rewrite Hr in Hs ]).
  - apply Hkeep. intros. apply keeps_check, framed_counting.
  - intros (Hlim & Hw & Hrw & Hf & Hi & He); simpl in *.
    pose proof (reserve_requests_spec n b) as Hs. rewrite Hr in Hs.
    destruct Hs as (_ & Hreq & Hle & _ & c & Hc & ->).
    destruct (framed_counting (_requests b) (lim b) b c Hc) as (_ & El & Hwc); [done|].
    unfold budget_inv, requests_within, within in *; simpl in *.
    rewrite El in *. unfold zsum in *. simpl. split_and!; try tauto; [by constructor|lia].
  - intros (Hlim & Hw & Hrw & Hf & Hi & He); simpl in *.
    unfold settle_requests. rewrite (proj2 (Z.leb_le _ _)), (proj2 (Z.leb_le _ _)) by lia.
    simpl. rewrite Hh in Hf. apply Forall_app in Hf as [_ Hrest].
    pose proof (zsum_perm _ _ Hh) as Hz. rewrite zsum_app in Hz.
    unfold budget_inv, requests_within, within in *; simpl in *.
    split_and!; try tauto; lia.
  - apply Hkeep. intros. unfold check_fetched_capacity. budget_walk.
    framed_charge.
  - apply Hkeep. intros. by apply check_fetched_locked_framed.
  - apply Hkeep. intros. unfold consume_fetched_bytes. budget_walk. by apply fetched_locked_framed.
  - apply Hkeep. intros. by apply fetched_locked_framed.
  - apply Hkeep. intros. unfold reserve_extracted_records. budget_walk.
    by apply records_locked_framed.
  - apply Hkeep. intros. by apply records_locked_framed.
  - apply Hkeep. intros. apply enforce_framed.
  - apply Hkeep. intros. unfold reserve_estimated_result_bytes. budget_walk.
    by apply estimated_locked_framed.
  - apply Hkeep. intros. by apply estimated_locked_framed.
  - apply Hkeep. intros. unfold reserve_browser_debug_bytes. budget_walk.
    by apply debug_locked_framed.
  - apply Hkeep. intros. by apply debug_locked_framed.
  - apply Hkeep. intros. unfold release_browser_debug_bytes. budget_walk.
    by apply release_locked_framed.
Qed.

(** An exhausted budget: what it may still do. *)
Definition frozen (f x e r d : Z) (b : RunBudget) : Prop :=
  is_Some (_exhausted b) ∧ _fetched_bytes b = f ∧ _extracted_records b = x ∧
  _estimated_result_bytes b = e ∧ _requests b ≤ r ∧ 0 ≤ _browser_debug_bytes b ≤ d.

Definition stored (b : RunBudget) : budget_error :=
  match _exhausted b with Some e => Exceeded e | None => ValueError "" end.

Lemma frozen_check {A} f x e r d (k : unit → budget_prog A) b :
  frozen f x e r d b → pbind check_deadline k b = (Raise (stored b), b).
Proof.
  intros [[y Hy] _]. unfold pbind, check_deadline, pbind, pget, stored, praise. by rewrite Hy.
Qed.

Lemma frozen_keeps_check {A} f x e r d (k : unit → budget_prog A) :
  keeps (frozen f x e r d) (pbind check_deadline k).
Proof. intros b Hb. by rewrite (frozen_check _ _ _ _ _ k b Hb). Qed.

Lemma frozen_same f x e r d b b' :
  same b b' → is_Some (_exhausted b') → frozen f x e r d b → frozen f x e r d b'.
Proof.
  intros (_ & _ & _ & H1 & H2 & H3 & H4 & H5) Hs (_ & Hrest). unfold frozen.
  rewrite H1, H2, H3, H4, H5. done.
Qed.

Lemma bstep_frozen f x e r d s s' :
  bstep s s' → frozen f x e r d s.1 → frozen f x e r d s'.1.
Proof.
  destruct 1 as [b l|b l|b l|b b' l n Hn Hr|b b' l n err Hr|b l rs rest used Hh Hu
                |b l n|b l n Hn|b l n|b l n Hn|b l n|b l n Hn|b l n|b l n|b l n Hn
                |b l n p|b l n p Hn|b l n]; cbn [fst]; intros Hb.
  - unfold check_deadline, pbind, pget. destruct Hb as [[y Hy] Hb]. rewrite Hy.
    simpl. split; eauto.
  - destruct (exhaust_duration_spec b). eauto using frozen_same.
  - destruct (@expire_spec unit b). eauto using frozen_same.
  - pose proof (reserve_requests_spec n b) as Hs. rewrite Hr in Hs.
    destruct Hb as [[y Hy] _]. destruct Hs as (_ & _ & _ & Hnone & _). congruence.
  - unfold reserve_requests in Hr. destruct (n <? 1);
      [unfold praise in Hr; by simplify_eq|].
    unfold reserve_requests_locked in Hr.
    by rewrite (frozen_check _ _ _ _ _ _ b Hb) in Hr; simplify_eq.
  - unfold settle_requests. rewrite (proj2 (Z.leb_le _ _)), (proj2 (Z.leb_le _ _)) by lia.
    unfold frozen in *; simpl. intuition lia.
  - unfold check_fetched_capacity. destruct (n <? 0); [done|]. by apply frozen_keeps_check.
  - unfold check_fetched_locked, pbind, pget.
    pose proof (charge_spec fetched_bytes (max_fetched_bytes (lim b))
      (_fetched_bytes b + n) (λ _ b, b) b) as Hc.
    destruct (charge _ _ _ _ b) as [[] b']; simpl.
    + by destruct Hc as [_ ->].
    + destruct Hc as (_ & ? & _ & ?). eauto using frozen_same.
  - unfold consume_fetched_bytes. destruct (n <? 0); [done|]. by apply frozen_keeps_check.
  - by apply frozen_keeps_check.
  - unfold reserve_extracted_records. destruct (n <? 0); [done|]. by apply frozen_keeps_check.
  - by apply frozen_keeps_check.
  - by apply frozen_keeps_check.
  - unfold reserve_estimated_result_bytes. destruct (n <? 0); [done|].
    by apply frozen_keeps_check.
  - by apply frozen_keeps_check.
  - unfold reserve_browser_debug_bytes. destruct (n <? 0); [done|]. by apply frozen_keeps_check.
  - by apply frozen_keeps_check.
  - unfold release_browser_debug_bytes. destruct (n <? 0) eqn:En; [done|]. boolprop.
    unfold frozen in *; simpl. intuition lia.
Qed.

(** ** Properties *)

(** [C11] Whatever the tasks of a run do, in whatever order their atomic sections
    run, each counter stays between zero and its limit; the request counter is
    exactly what the tasks hold in reserve plus what they have issued, so the run
    never issues more requests than [max_requests]. *)
Theorem counters_within_limits lims n0 b l :
  limits_ok lims →
  rtc bstep (new_budget lims n0, {| held := []; issued := 0 |}) (b, l) →
  lim b = lims ∧ within b ∧ _requests b = zsum (held l) + issued l ∧
  issued l ≤ _requests b ≤ max_requests lims.
Proof.
  intros Hl Hr. assert (Hinv : budget_inv lims (b, l)).
  { eapply (rtc_invariant bstep (budget_inv lims)); [|exact Hr|].
    - intros s s' Hi Hs. by eapply bstep_inv.
    - unfold limits_ok, budget_inv, within, requests_within in *; simpl in *.
      split_and!; try constructor; lia. }
  destruct Hinv as (Hlim & Hw & Hrw & Hf & Hi & He); simpl in *.
  pose proof (zsum_nonneg _ Hf). unfold requests_within in *. rewrite Hlim in *.
  split_and!; try done; lia.
Qed.

(** Once a run has hit a limit or its deadline it stays exhausted: whatever its
    tasks do afterwards, no request, byte or record is granted any more (counters
    only go down, by settled or released reservations), and every further
    reservation raises the stored error without changing the budget. *)
Theorem exhaustion_is_final lims b l b' l' :
  is_Some (_exhausted b) → budget_inv lims (b, l) → rtc bstep (b, l) (b', l') →
  _fetched_bytes b' = _fetched_bytes b ∧ _extracted_records b' = _extracted_records b ∧
  _estimated_result_bytes b' = _estimated_result_bytes b ∧
  _requests b' ≤ _requests b ∧ _browser_debug_bytes b' ≤ _browser_debug_bytes b ∧
  ∃ e, _exhausted b' = Some e ∧ ∀ n, 1 ≤ n →
    reserve_requests n b' = (Raise (Exceeded e), b') ∧
    consume_fetched_bytes n b' = (Raise (Exceeded e), b') ∧
    reserve_extracted_records n b' = (Raise (Exceeded e), b') ∧
    reserve_estimated_result_bytes n b' = (Raise (Exceeded e), b') ∧
    reserve_browser_debug_bytes n true b' = (Raise (Exceeded e), b').
Proof.
  intros He Hinv Hr.
  assert (Hf : frozen (_fetched_bytes b) (_extracted_records b) (_estimated_result_bytes b)
                 (_requests b) (_browser_debug_bytes b) b').
  { refine (rtc_invariant bstep (λ s, frozen (_fetched_bytes b) (_extracted_records b)
      (_estimated_result_bytes b) (_requests b) (_browser_debug_bytes b) s.1) _ _ _ Hr _).
    - intros s s' Hs Hstep. exact (bstep_frozen _ _ _ _ _ _ _ Hstep Hs).
    - destruct Hinv as (_ & Hw & _). unfold within in Hw. unfold frozen; simpl in *.
      destruct_and!. split_and!; try done; lia. }
  pose proof Hf as ([e Hee] & ? & ? & ? & ? & ?). split_and!; try done; [lia|].
  exists e. split; [done|]. intros n Hn.
  unfold reserve_requests, consume_fetched_bytes, reserve_extracted_records,
    reserve_estimated_result_bytes, reserve_browser_debug_bytes, reserve_requests_locked.
  rewrite (proj2 (Z.ltb_ge n 1)), (proj2 (Z.ltb_ge n 0)) by lia.
  assert (Hst : stored b' = Exceeded e) by (unfold stored; by rewrite Hee).
  rewrite !(λ A k, @frozen_check A _ _ _ _ _ k b' Hf), Hst. done.
Qed.

End run_budget.

(** ** A concrete run: three tasks, a clock that ticks once per reading *)

Definition sample_limits : limits :=
  {| max_duration_seconds := 100; max_requests := 30; max_fetched_bytes := 1000;
     max_extracted_records := 5; max_serialized_result_bytes := 400;
     max_browser_debug_bytes := 50 |}.

Definition sample_clock (n : nat) : Z := Z.of_nat n.

Definition sample_reserved : RunBudget :=
  (reserve_requests sample_clock 21 (new_budget sample_clock sample_limits 0)).2.
Definition sample_settled : RunBudget := (settle_requests 21 2 sample_reserved).2.
Definition sample_exhausted : RunBudget :=
  (consume_fetched_bytes sample_clock 1001 sample_settled).2.

Lemma sample_run :
  rtc (bstep sample_clock)
    (new_budget sample_clock sample_limits 0, {| held := []; issued := 0 |})
    (sample_exhausted, {| held := []; issued := 2 |}).
Proof.
  eapply rtc_l; [eapply (b_reserve _ _ sample_reserved _ 21); [lia|vm_compute; reflexivity]|].
  eapply rtc_l; [apply (b_settle _ sample_reserved _ [21] [] 2); [done|vm_compute; split; discriminate]|].
  eapply rtc_l; [apply (b_fetched _ sample_settled _ 1001)|].
  apply rtc_refl.
Defined.

Lemma counters_within_limits_witness :
  issued {| held := []; issued := 2 |} ≤ _requests sample_exhausted ≤ 30.
Proof.
  apply (counters_within_limits sample_clock sample_limits 0 sample_exhausted
           {| held := []; issued := 2 |});
    [vm_compute; intuition discriminate | apply sample_run].
Defined.

Lemma exhaustion_is_final_witness :
  ∃ e, _exhausted sample_exhausted = Some e ∧
    reserve_requests sample_clock 1 sample_exhausted = (Raise (Exceeded e), sample_exhausted).
Proof.
  destruct (exhaustion_is_final sample_clock sample_limits sample_exhausted
    {| held := []; issued := 2 |} sample_exhausted {| held := []; issued := 2 |})
    as (_ & _ & _ & _ & _ & e & He & Hall).
  - vm_compute. eauto.
  - split_and!; try (vm_compute; intuition discriminate); constructor.
  - apply rtc_refl.
  - exists e. split; [done|]. apply (Hall 1). lia.
Defined.
End Budget.
