(* ===== verification/Resilience.v ===== *)
(** * Retry, result validation and the circuit breaker ([engine/resilience.py])

    [Retry] wraps a fallible call with attempts and backoff, [Validation] checks
    scraped records, [Circuit] is the per-domain circuit breaker with its single
    half-open probe. Times are integers; a reading of the clock is an argument. *)

From S2P Require Import Prelude.
From S2P Require Budget.
Open Scope Z_scope.

Module Retry.

Inductive BackoffStrategy := exponential | linear | fixed.

Record RetryConfig := {
  max_attempts : nat;
  backoff : BackoffStrategy;
  backoff_max : Z;
}.

(** The exceptions [execute] tells apart: a retryable HTTP status, a resolution
    failure, a transient transport error, and everything else (a lost run, an
    exhausted budget, a programming error), which it does not catch. *)
Inductive fetch_error :=
| RetryableError (status : Z)
| URLResolutionError
| TransientTransportError
| RuntimeError
| OtherError (n : nat).

Definition caught (e : fetch_error) : bool :=
  match e with
  | RetryableError _ | URLResolutionError | TransientTransportError => true
  | RuntimeError | OtherError _ => false
  end.

(** [isinstance(exc, RetryableError) and exc.status in {401, 403, 407}] *)
Definition denied (e : fetch_error) : bool :=
  match e with
  | RetryableError status => (status =? 401) || (status =? 403) || (status =? 407)
  | _ => false
  end.

Definition _delay (c : RetryConfig) (attempt : nat) : Z :=
  let delay := match backoff c with
               | fixed => 1
               | linear => Z.of_nat attempt + 1
               | exponential => 2 ^ Z.of_nat attempt
               end in
  Z.min delay (backoff_max c).

Section execute.
Context {W T : Type}.
Context (c : RetryConfig).
Context (fn : prog W fetch_error T).
Context (cancellation_checkpoint : string → prog W fetch_error unit).
Context (sleep : Z → prog W fetch_error unit).

(** The [try] block: the call, then the checkpoint after it. *)
Definition attempt_body : prog W fetch_error T :=
  let! result := fn in
  do! cancellation_checkpoint "after_retry_attempt" in
  pret result.

(** The loop from attempt [attempt] on, with [left] attempts left. *)
Fixpoint execute_from (left attempt : nat) (last_exc : option fetch_error) :
    prog W fetch_error T :=
  match left with
  | O => match last_exc with
         | None => praise RuntimeError
         | Some e => praise e
         end
  | Datatypes.S left' =>
      do! cancellation_checkpoint "before_retry_attempt" in
      λ w, match attempt_body w with
           | (Ok r, w') => (Ok r, w')
           | (Raise e, w') =>
               if caught e && negb (denied e) then
                 (do! (if (Z.of_nat attempt <? Z.of_nat (max_attempts c) - 1) then
                         do! cancellation_checkpoint "before_retry_backoff" in
                         do! sleep (_delay c attempt) in
                         cancellation_checkpoint "after_retry_backoff"
                       else pret tt) in
                  execute_from left' (Datatypes.S attempt) (Some e)) w'
               else (Raise e, w')
           end
  end.

Definition execute : prog W fetch_error T := execute_from (max_attempts c) 0 None.
End execute.

(** ** What the loop does, for any sequence of attempt outcomes

    The world counts the attempts and lists the delays slept; attempt [i] ends as
    [outcomes i]. *)
Record attempt_log := { attempts : nat; slept : list Z }.

Definition logged_fn {T} (outcomes : nat → outcome fetch_error T) :
    prog attempt_log fetch_error T :=
  λ w, (outcomes (attempts w), {| attempts := Datatypes.S (attempts w); slept := slept w |}).
Definition logged_sleep (d : Z) : prog attempt_log fetch_error unit :=
  λ w, (Ok tt, {| attempts := attempts w; slept := slept w ++ [d] |}).
Definition no_cancel (name : string) : prog attempt_log fetch_error unit := pret tt.

(** An outcome that ends the loop at once. *)
Definition final {T} (o : outcome fetch_error T) : bool :=
  match o with Ok _ => true | Raise e => negb (caught e && negb (denied e)) end.

Lemma execute_from_spec {T} c (outcomes : nat → outcome fetch_error T) left a last w :
  (a + left = max_attempts c)%nat → attempts w = a → (0 < left)%nat →
  ∃ k, (k < left)%nat ∧
    (∀ i, (a ≤ i < a + k)%nat → final (outcomes i) = false) ∧
    (final (outcomes (a + k)%nat) = true ∨ Datatypes.S k = left) ∧
    execute_from c (logged_fn outcomes) no_cancel logged_sleep left a last w =
    (outcomes (a + k)%nat,
     {| attempts := a + Datatypes.S k; slept := slept w ++ map (_delay c) (seq a k) |}).
Proof.
  revert a last w. induction left as [|left IH]; intros a last w Hmax Ha Hpos; [lia|].
  cbn [execute_from]. unfold no_cancel at 1, pbind at 1, pret at 1.
  unfold attempt_body, logged_fn at 1, no_cancel at 1, pbind, pret. rewrite Ha.
  destruct (outcomes a) as [r|e] eqn:Ho.
  { exists 0%nat. rewrite !Nat.add_0_r, Ho. simpl. rewrite Nat.add_1_r, app_nil_r.
    split_and!; [lia|intros; lia|by left|done]. }
  destruct (caught e && negb (denied e)) eqn:Hc.
  2:{ exists 0%nat. rewrite !Nat.add_0_r, Ho. simpl. rewrite Nat.add_1_r, app_nil_r, Hc.
      split_and!; [lia|intros; lia|by left|done]. }
  assert (Hnf : final (outcomes a) = false) by (rewrite Ho; simpl; by rewrite Hc).
  destruct left as [|left].
  { exists 0%nat. rewrite !Nat.add_0_r, Ho. simpl. rewrite Nat.add_1_r, app_nil_r.
    rewrite (proj2 (Z.ltb_ge _ _)) by lia.
    split_and!; [lia|intros; lia|by right|done]. }
  rewrite (proj2 (Z.ltb_lt _ _)) by lia.
  unfold no_cancel at 1, logged_sleep at 1, no_cancel at 1, pret.
  destruct (IH (Datatypes.S a) (Some e)
    {| attempts := Datatypes.S a; slept := slept w ++ [_delay c a] |})
    as (k & Hk & Hbefore & Hend & Heq); [lia|done|lia|].
  cbn [attempts slept] in Heq |- *. rewrite Heq. exists (Datatypes.S k).
  rewrite <- !Nat.add_succ_comm. split_and!; [lia| |destruct Hend; [by left|right; lia]|].
  - intros i Hi. destruct (decide (i = a)) as [->|]; [done|]. apply Hbefore. lia.
  - simpl. by rewrite <- app_assoc.
Qed.

(** [RetryHandler.execute] stops at the first attempt whose outcome is not
    retryable (a result, a 401/403/407 denial, an error it does not catch), or at the
    last allowed attempt, and returns or raises exactly that attempt's outcome; it
    made no other attempt, slept exactly once between two attempts, and each sleep
    follows the configured backoff and never exceeds [backoff_max]. *)
Theorem execute_first_final {T} c (outcomes : nat → outcome fetch_error T)
    (Hpos : (1 ≤ max_attempts c)%nat) :
  ∃ k, (k < max_attempts c)%nat ∧
    (∀ i, (i < k)%nat → final (outcomes i) = false) ∧
    (final (outcomes k) = true ∨ Datatypes.S k = max_attempts c) ∧
    execute c (logged_fn outcomes) no_cancel logged_sleep {| attempts := 0; slept := [] |} =
    (outcomes k, {| attempts := Datatypes.S k; slept := map (_delay c) (seq 0 k) |}) ∧
    Forall (λ d, d ≤ backoff_max c) (map (_delay c) (seq 0 k)).
Proof.
  destruct (execute_from_spec c outcomes (max_attempts c) 0 None {| attempts := 0; slept := [] |})
    as (k & Hk & Hb & Hend & Heq); [done|done|lia|].
  exists k. split_and!; [done| |done|done|].
  - intros i Hi. apply Hb. lia.
  - apply Forall_map, Forall_forall. intros i _. unfold _delay. simpl. lia.
Qed.

Definition sample_config : RetryConfig :=
  {| max_attempts := 4; backoff := exponential; backoff_max := 3 |}.
Definition sample_outcomes (i : nat) : outcome fetch_error nat :=
  match i with 0%nat => Raise (RetryableError 503) | 1%nat => Raise TransientTransportError
  | 2%nat => Raise (RetryableError 503) | _ => Raise (RetryableError 403) end.

Lemma execute_first_final_witness :
  ∃ k, (k < 4)%nat ∧ (execute sample_config (logged_fn sample_outcomes) no_cancel logged_sleep
          {| attempts := 0; slept := [] |}).1 = sample_outcomes k.
Proof.
  destruct (execute_first_final sample_config sample_outcomes) as (k & Hk & _ & _ & Heq & _);
    [simpl; lia|]. exists k. split; [exact Hk|]. by rewrite Heq.
Defined.

Example sample_delays :
  execute sample_config (logged_fn sample_outcomes) no_cancel logged_sleep
    {| attempts := 0; slept := [] |}
  = (Raise (RetryableError 403), {| attempts := 4; slept := [1; 2; 3] |}).
Proof. reflexivity. Qed.

End Retry.

Module Validation.

Inductive OnEmptyAction := retry | warn | fail | skip.

(** A Python [str] as its code points. *)
Definition pystr := list Z.
Definition pystr_of (s : string) : pystr :=
  map (λ a, Z.of_nat (Ascii.nat_of_ascii a)) (String.list_ascii_of_string s).

(** [str.isspace] of one character: what [str.strip] removes. *)
Definition py_isspace (c : Z) : bool :=
  ((9 <=? c) && (c <=? 13)) || ((28 <=? c) && (c <=? 32)) || (c =? 133) || (c =? 160) ||
  (c =? 5760) || ((8192 <=? c) && (c <=? 8202)) || (c =? 8232) || (c =? 8233) ||
  (c =? 8239) || (c =? 8287) || (c =? 12288).

(** Truth of [s.strip()]: some character is left. *)
Definition strip_nonempty (s : pystr) : bool := existsb (λ c, negb (py_isspace c)) s.

(** The values of a scraped record. *)
Inductive value :=
| VNone
| VStr (s : pystr)
| VList (items : list value)
| VTuple (items : list value)
| VDict
| VOther.

Abbreviation record := (gmap string value).

Inductive validation_error := TypeError.

(** Membership of a value in a Python set hashes it first: lists and dicts are
    unhashable, a tuple is as hashable as its items. *)
Fixpoint hashable (v : value) : bool :=
  match v with
  | VList _ | VDict => false
  | VTuple items => forallb hashable items
  | _ => true
  end.

Definition _HIDDEN_PRICE_VISIBILITIES : list pystr :=
  [pystr_of "map"; pystr_of "cart_only"; pystr_of "call_for_price"].

Definition hidden_price (v : value) : outcome validation_error bool :=
  if hashable v then
    Ok (match v with
        | VStr s => existsb (λ h, bool_decide (h = s)) _HIDDEN_PRICE_VISIBILITIES
        | _ => false
        end)
  else Raise TypeError.

Definition item_present (v : value) : bool :=
  match v with VNone => false | VStr s => strip_nonempty s | _ => true end.

(** The value part of [_has_required_field]. *)
Definition value_present (v : value) : bool :=
  match v with
  | VStr s => strip_nonempty s
  | VList items | VTuple items => existsb item_present items
  | VNone => false
  | _ => true
  end.

Definition _has_required_field (field : string) (rec : record) :
    outcome validation_error bool :=
  if value_present (default VNone (rec !! field)) then Ok true
  else if negb (bool_decide (field = "price")) then Ok false
  else hidden_price (default VNone (rec !! "pricing_visibility")).

Record ValidationConfig := {
  required_fields : list string;
  min_results : Z;
  on_empty : OnEmptyAction;
}.

(** The message of a result: which rule failed (the code words it). *)
Inductive message :=
| NoMessage
| TooFew (expected got : Z)
| FieldEmpty (field : string) (index : nat).

Record ValidationResult := {
  passed : bool;
  action : OnEmptyAction;
  msg : message;
}.

Section validate.
Context {W E : Type} (type_error : validation_error → E).
(** [budget.check_deadline()], or nothing without a budget. *)
Context (check_deadline : prog W E unit).
Context (c : ValidationConfig).

Fixpoint validate_records (field : string) (i : nat) (data : list record) :
    prog W E (option nat) :=
  match data with
  | [] => pret None
  | rec :: data' =>
      do! (if (Nat.modulo i 64 =? 0)%nat then check_deadline else pret tt) in
      match _has_required_field field rec with
      | Raise e => praise (type_error e)
      | Ok true => validate_records field (Datatypes.S i) data'
      | Ok false => pret (Some i)
      end
  end.

Fixpoint validate_fields (fields : list string) (data : list record) :
    prog W E ValidationResult :=
  match fields with
  | [] => pret {| passed := true; action := on_empty c; msg := NoMessage |}
  | field :: fields' =>
      do! check_deadline in
      let! bad := validate_records field 0 data in
      match bad with
      | Some i => pret {| passed := false; action := on_empty c; msg := FieldEmpty field i |}
      | None => validate_fields fields' data
      end
  end.

Definition validate (data : list record) : prog W E ValidationResult :=
  do! check_deadline in
  if Z.of_nat (length data) <? min_results c
  then pret {| passed := false; action := on_empty c;
               msg := TooFew (min_results c) (Z.of_nat (length data)) |}
  else validate_fields (required_fields c) data.

Definition has (field : string) (rec : record) : Prop :=
  _has_required_field field rec = Ok true.

Lemma validate_records_spec field i data w r w' :
  validate_records field i data w = (Ok r, w') →
  match r with
  | None => Forall (has field) data
  | Some k => ∃ before rec after, data = before ++ rec :: after ∧
      k = (i + length before)%nat ∧ Forall (has field) before ∧
      _has_required_field field rec = Ok false
  end.
Proof.
  revert i w. induction data as [|rec data IH]; intros i w.
  { intros [= <- <-]. constructor. }
  cbn [validate_records]. unfold pbind at 1.
  destruct ((if (i `mod` 64 =? 0)%nat then check_deadline else pret tt) w) as [[[]|e] w1]; [|done].
  destruct (_has_required_field field rec) as [[]|] eqn:Hh; [| |done].
  - intros H%IH. destruct r as [k|].
    + destruct H as (before & rec' & after & -> & -> & Hb & Hf).
      exists (rec :: before), rec', after. split_and!; [done|simpl; lia|by constructor|done].
    + by constructor.
  - intros [= <- <-]. exists [], rec, data. split_and!; [done|simpl; lia|constructor|done].
Qed.

Lemma validate_fields_spec fields data w r w' :
  validate_fields fields data w = (Ok r, w') →
  (passed r = true ↔ ∀ field rec, field ∈ fields → rec ∈ data → has field rec) ∧
  (passed r = false → ∃ field k rec, msg r = FieldEmpty field k ∧ field ∈ fields ∧
     data !! k = Some rec ∧ _has_required_field field rec = Ok false).
Proof.
  revert w. induction fields as [|f fields IH]; intros w.
  { intros [= <- <-]. simpl. split; [|done]. split; [|done]. intros _ ? ? []%elem_of_nil. }
  cbn [validate_fields]. unfold pbind at 1. destruct (check_deadline w) as [[[]|] w1]; [|done].
  unfold pbind at 1. destruct (validate_records f 0 data w1) as [[bad|] w2] eqn:Hr; [|done].
  apply validate_records_spec in Hr. destruct bad as [k|].
  - destruct Hr as (before & rec & after & -> & -> & _ & Hf). intros [= <- <-]. simpl.
    split.
    + split; [done|]. intros Hall. specialize (Hall f rec). unfold has in Hall.
      rewrite Hf in Hall. discriminate Hall; set_solver.
    + intros _. exists f, (length before), rec. split_and!; [done|set_solver| |done].
      by rewrite list_lookup_middle.
  - intros H. apply IH in H as [Hp Hm]. rewrite Forall_forall in Hr. split.
    + rewrite Hp. setoid_rewrite elem_of_cons. naive_solver.
    + intros Hf. destruct (Hm Hf) as (f' & k & rec & ? & ? & ? & ?).
      exists f', k, rec. split_and!; [done|set_solver|done|done].
Qed.

(** [ResultValidator.validate], whatever the deadline checks do: when it
    returns, the result passes exactly if there are at least [min_results] records
    and every record has every required field ([price] counts as present when the
    price is known to be hidden); a failure carries the configured action and names
    a rule that the data really breaks. *)
Theorem validate_correct data w r w' :
  validate data w = (Ok r, w') →
  (passed r = true ↔ min_results c ≤ Z.of_nat (length data) ∧
     ∀ field rec, field ∈ required_fields c → rec ∈ data → has field rec) ∧
  (passed r = false →
     (msg r = TooFew (min_results c) (Z.of_nat (length data)) ∧
      Z.of_nat (length data) < min_results c) ∨
     ∃ field k rec, msg r = FieldEmpty field k ∧ field ∈ required_fields c ∧
       data !! k = Some rec ∧ _has_required_field field rec = Ok false).
Proof.
  unfold validate, pbind at 1. destruct (check_deadline w) as [[[]|] w1]; [|done].
  destruct (Z.of_nat (length data) <? min_results c) eqn:Hlt; boolprop.
  - intros [= <- <-]. simpl. split; [|by left]. split; [done|lia].
  - intros H. apply validate_fields_spec in H as [Hp Hm]. split.
    + rewrite Hp. naive_solver.
    + intros Hf. right. auto.
Qed.
End validate.

Definition sample_records : list record :=
  [ {[ "name" := VStr (pystr_of "lamp"); "price" := VNone;
       "pricing_visibility" := VStr (pystr_of "map") ]};
    {[ "name" := VStr [32; 160]; "price" := VOther ]} ].
Definition sample_validation : ValidationConfig :=
  {| required_fields := ["price"; "name"]; min_results := 1; on_empty := warn |}.

Lemma validate_correct_witness :
  ¬ (∀ field rec, field ∈ ["price"; "name"] → rec ∈ sample_records → has field rec).
Proof.
  intros Hall.
  destruct (validate_correct (W := unit) (λ e, e) (pret tt) sample_validation sample_records tt
    {| passed := false; action := warn; msg := FieldEmpty "name" 1 |} tt) as [[_ Hp] _];
    [vm_compute; reflexivity|].
  discriminate Hp. split; [simpl; lia|exact Hall].
Defined.

End Validation.

Module Circuit.

Inductive CircuitState := closed | open | half_open.
#[export] Instance CircuitState_eq_dec : EqDecision CircuitState.
Proof. solve_decision. Defined.

Record CircuitProbe := { p_domain : string; p_generation : Z }.
#[export] Instance CircuitProbe_eq_dec : EqDecision CircuitProbe.
Proof. solve_decision. Defined.

Record _DomainCircuit := {
  cstate : CircuitState;
  failures : Z;
  opened_at : Z;
  generation : Z;
  last_accessed_at : Z;
}.

(** [CircuitOpenError(domain, remaining)] *)
Inductive circuit_error := CircuitOpenError (domain : string) (remaining : Z).

Abbreviation circuits := (gmap string _DomainCircuit).

Definition touch (now : Z) (c : _DomainCircuit) : _DomainCircuit :=
  {| cstate := cstate c; failures := failures c; opened_at := opened_at c;
     generation := generation c; last_accessed_at := now |}.
Definition set_state (st : CircuitState) (c : _DomainCircuit) : _DomainCircuit :=
  {| cstate := st; failures := failures c; opened_at := opened_at c;
     generation := generation c; last_accessed_at := last_accessed_at c |}.
Definition set_opened (t : Z) (c : _DomainCircuit) : _DomainCircuit :=
  {| cstate := cstate c; failures := failures c; opened_at := t;
     generation := generation c; last_accessed_at := last_accessed_at c |}.
Definition set_failures (n : Z) (c : _DomainCircuit) : _DomainCircuit :=
  {| cstate := cstate c; failures := n; opened_at := opened_at c;
     generation := generation c; last_accessed_at := last_accessed_at c |}.
Definition next_generation (c : _DomainCircuit) : _DomainCircuit :=
  {| cstate := cstate c; failures := failures c; opened_at := opened_at c;
     generation := generation c + 1; last_accessed_at := last_accessed_at c |}.

Definition new_circuit (now : Z) : _DomainCircuit :=
  {| cstate := closed; failures := 0; opened_at := 0; generation := 0;
     last_accessed_at := now |}.

Record config := {
  _max_failures : Z;
  _cooldown : Z;
  _max_domains : nat;
  _inactive_ttl : Z;
}.

(** What [CircuitBreaker.__init__] accepts. *)
Definition config_ok (k : config) : Prop :=
  1 ≤ _max_failures k ∧ 0 ≤ _cooldown k ∧ (1 ≤ _max_domains k)%nat ∧ 0 < _inactive_ttl k.

Section breaker.
Context (k : config).

Definition is_closed (c : _DomainCircuit) : bool := bool_decide (cstate c = closed).

Definition _prune_inactive_closed (now : Z) (m : circuits) : circuits :=
  filter (λ x, (is_closed x.2 && (_inactive_ttl k <=? now - last_accessed_at x.2)) = false) m.

(** Python's order on the pairs [(last_accessed_at, domain)]. *)
Definition lru_leb (a b : string * _DomainCircuit) : bool :=
  (last_accessed_at a.2 <? last_accessed_at b.2) ||
  ((last_accessed_at a.2 =? last_accessed_at b.2) && String.leb a.1 b.1).

Definition _make_room_for_closed_state (m : circuits) : circuits :=
  if (size m <? _max_domains k)%nat then m
  else match list_least lru_leb (filter (λ x, is_closed x.2 = true) (map_to_list m)) with
       | Some (d, _) => delete d m
       | None => m
       end.

Definition _probe_matches (c : _DomainCircuit) (domain : string)
    (probe : option CircuitProbe) : bool :=
  bool_decide (cstate c = half_open) &&
  match probe with
  | Some p => bool_decide (p_domain p = domain) && (p_generation p =? generation c)
  | None => false
  end.

Definition check (domain : string) (now : Z) :
    prog circuits circuit_error (option CircuitProbe) := λ m,
  let m := _prune_inactive_closed now m in
  match m !! domain with
  | None => (Ok None, m)
  | Some c =>
      if is_closed c then (Ok None, <[domain := touch now c]> m)
      else
        let c := touch now c in
        let elapsed := now - opened_at c in
        if bool_decide (cstate c = open) && (_cooldown k <=? elapsed) then
          let c := next_generation (set_state half_open c) in
          (Ok (Some {| p_domain := domain; p_generation := generation c |}),
           <[domain := c]> m)
        else (Raise (CircuitOpenError domain (Z.max 0 (_cooldown k - elapsed))),
              <[domain := c]> m)
  end.

Definition record_success (domain : string) (probe : option CircuitProbe) (now : Z)
    (m : circuits) : circuits :=
  let m := _prune_inactive_closed now m in
  match m !! domain with
  | None => m
  | Some c =>
      if is_closed c then delete domain m
      else if _probe_matches c domain probe then delete domain m
      else <[domain := touch now c]> m
  end.

(** The part of [record_failure] after the circuit was found or created (and its
    access time set). *)
Definition count_failure (domain : string) (probe : option CircuitProbe) (now : Z)
    (c : _DomainCircuit) : _DomainCircuit :=
  match cstate c with
  | half_open =>
      if _probe_matches c domain probe
      then set_opened now (set_failures (_max_failures k) (set_state open c))
      else c
  | open => c
  | closed =>
      let c := set_failures (failures c + 1) c in
      if _max_failures k <=? failures c then set_opened now (set_state open c) else c
  end.

Definition record_failure (domain : string) (probe : option CircuitProbe) (now : Z)
    (m : circuits) : circuits :=
  let m := _prune_inactive_closed now m in
  match m !! domain with
  | Some c => <[domain := count_failure domain probe now (touch now c)]> m
  | None =>
      let m := _make_room_for_closed_state m in
      if (_max_domains k <=? size m)%nat then m
      else <[domain := count_failure domain probe now (new_circuit now)]> m
  end.

Definition abort_probe (domain : string) (probe : option CircuitProbe) (now : Z)
    (m : circuits) : circuits :=
  let m := _prune_inactive_closed now m in
  match m !! domain with
  | None => m
  | Some c =>
      if _probe_matches c domain probe
      then <[domain := set_opened (now - _cooldown k) (touch now (set_state open c))]> m
      else m
  end.

(** [CircuitBreaker.state], with the pruning it does on the way. *)
Definition state_of (domain : string) (now : Z) (m : circuits) : CircuitState * circuits :=
  let m := _prune_inactive_closed now m in
  (match m !! domain with Some c => cstate c | None => closed end, m).

(** ** Steps

    The ledger lists the probes that were granted and not yet given back. A caller
    gives a probe back with one of the three reporting calls; a report without a
    probe, or with one that is not in the ledger any more, is an ordinary call. *)
Inductive cstep : circuits * list CircuitProbe → circuits * list CircuitProbe → Prop :=
| c_admit m l d now m' : check d now m = (Ok None, m') → cstep (m, l) (m', l)
| c_grant m l d now m' p : check d now m = (Ok (Some p), m') → cstep (m, l) (m', p :: l)
| c_reject m l d now m' e : check d now m = (Raise e, m') → cstep (m, l) (m', l)
| c_success m l d now : cstep (m, l) (record_success d None now m, l)
| c_failure m l d now : cstep (m, l) (record_failure d None now m, l)
| c_abort_none m l d now : cstep (m, l) (abort_probe d None now m, l)
| c_probe_success m l1 l2 p now :
    cstep (m, l1 ++ p :: l2) (record_success (p_domain p) (Some p) now m, l1 ++ l2)
| c_probe_failure m l1 l2 p now :
    cstep (m, l1 ++ p :: l2) (record_failure (p_domain p) (Some p) now m, l1 ++ l2)
| c_probe_abort m l1 l2 p now :
    cstep (m, l1 ++ p :: l2) (abort_probe (p_domain p) (Some p) now m, l1 ++ l2)
| c_state m l d now : cstep (m, l) ((state_of d now m).2, l).

(** Bounds every circuit respects: the cache is bounded, a closed circuit has seen
    fewer failures than the threshold. *)
Definition sized (m : circuits) : Prop :=
  (size m ≤ _max_domains k)%nat ∧
  ∀ d c, m !! d = Some c → 0 ≤ failures c ∧ (cstate c = closed → failures c < _max_failures k).

(** The generation of the half-open circuit of a domain. *)
Definition half_open_gen (m : circuits) (d : string) : option Z :=
  match m !! d with
  | Some c => if bool_decide (cstate c = half_open) then Some (generation c) else None
  | None => None
  end.

(** The probes in the ledger are exactly those of the half-open circuits. *)
Definition probes_live (m : circuits) (l : list CircuitProbe) : Prop :=
  NoDup (map p_domain l) ∧
  ∀ d g, {| p_domain := d; p_generation := g |} ∈ l ↔ half_open_gen m d = Some g.

(** ** Lemmas *)

Lemma prune_lookup now m d :
  _prune_inactive_closed now m !! d =
  match m !! d with
  | Some c => if is_closed c && (_inactive_ttl k <=? now - last_accessed_at c)
              then None else Some c
  | None => None
  end.
Proof.
  unfold _prune_inactive_closed. destruct (m !! d) as [c|] eqn:Hm.
  - destruct (is_closed c && _) eqn:E.
    + apply map_lookup_filter_None. right. intros c' Hc'. simplify_eq. simpl. by rewrite E.
    + apply map_lookup_filter_Some. done.
  - apply map_lookup_filter_None. by left.
Qed.

Lemma prune_some now m d c : _prune_inactive_closed now m !! d = Some c → m !! d = Some c.
Proof. rewrite prune_lookup. intros H. destruct (m !! d); [|done]. by dmatches. Qed.

Lemma prune_open now m d c :
  m !! d = Some c → cstate c ≠ closed → _prune_inactive_closed now m !! d = Some c.
Proof.
  intros Hm Hc. rewrite prune_lookup, Hm. unfold is_closed.
  by rewrite bool_decide_false.
Qed.

Lemma prune_size now m : (size (_prune_inactive_closed now m) ≤ size m)%nat.
Proof. apply map_size_filter. Qed.

(** Making room takes at most one circuit, a closed one, and takes it only when
    the cache is full. *)
Lemma room_cases m :
  (_make_room_for_closed_state m = m ∧
     ((size m < _max_domains k)%nat ∨ ∀ d c, m !! d = Some c → cstate c ≠ closed)) ∨
  (∃ d c, m !! d = Some c ∧ cstate c = closed ∧ _make_room_for_closed_state m = delete d m).
Proof.
  unfold _make_room_for_closed_state. destruct (size m <? _max_domains k)%nat eqn:Hs.
  { left. apply Nat.ltb_lt in Hs. eauto. }
  destruct (list_least _ _) as [[d c]|] eqn:Hl.
  - right. apply list_least_elem, list_elem_of_filter in Hl as [Hc Hm].
    apply elem_of_map_to_list in Hm. exists d, c. split_and!; [done| |done].
    by apply bool_decide_eq_true in Hc.
  - left. split; [done|right]. intros d c Hm Hc. apply list_least_None in Hl.
    assert (Hin : (d, c) ∈ filter (λ x : string * _DomainCircuit, is_closed x.2 = true)
                            (map_to_list m)).
    { apply list_elem_of_filter. split; [|by apply elem_of_map_to_list].
      simpl. unfold is_closed. by apply bool_decide_eq_true. }
    rewrite Hl in Hin. by apply elem_of_nil in Hin.
Qed.

Lemma room_some m d c : _make_room_for_closed_state m !! d = Some c → m !! d = Some c.
Proof.
  destruct (room_cases m) as [[-> _]|(d' & c' & _ & _ & ->)]; [done|].
  intros H%lookup_delete_Some. tauto.
Qed.

Lemma room_open m d c :
  m !! d = Some c → cstate c ≠ closed → _make_room_for_closed_state m !! d = Some c.
Proof.
  intros Hm Hc. destruct (room_cases m) as [[-> _]|(d' & c' & Hd' & Hc' & ->)]; [done|].
  rewrite lookup_delete_ne; [done|]. intros ->. by simplify_eq.
Qed.

Lemma room_size m : (size (_make_room_for_closed_state m) ≤ size m)%nat.
Proof.
  destruct (room_cases m) as [[-> _]|(d' & c' & Hd' & Hc' & ->)]; [done|].
  rewrite map_size_delete. destruct (m !! d'); simpl; lia.
Qed.

Lemma half_open_insert m d c d' :
  half_open_gen (<[d := c]> m) d' =
  if decide (d' = d) then
    if bool_decide (cstate c = half_open) then Some (generation c) else None
  else half_open_gen m d'.
Proof.
  unfold half_open_gen. destruct (decide (d' = d)) as [->|Hne].
  - by rewrite lookup_insert_eq.
  - by rewrite lookup_insert_ne.
Qed.

Lemma half_open_some m d g :
  half_open_gen m d = Some g ↔
  ∃ c, m !! d = Some c ∧ cstate c = half_open ∧ generation c = g.
Proof.
  unfold half_open_gen. destruct (m !! d) as [c|]; [|naive_solver].
  destruct (bool_decide (cstate c = half_open)) eqn:E; boolprop; naive_solver.
Qed.

(** Removing closed circuits does not change which circuits are half-open. *)
Lemma half_open_ext m m' :
  (∀ d c, m' !! d = Some c → m !! d = Some c) →
  (∀ d c, m !! d = Some c → cstate c ≠ closed → m' !! d = Some c) →
  ∀ d, half_open_gen m' d = half_open_gen m d.
Proof.
  intros H1 H2 d. apply option_eq. intros g. rewrite !half_open_some.
  split; intros (c & Hc & Hs & Hg); exists c; split_and!; eauto.
  apply H2; [done|]. by rewrite Hs.
Qed.

Lemma half_open_prune now m d :
  half_open_gen (_prune_inactive_closed now m) d = half_open_gen m d.
Proof.
  apply half_open_ext; intros d' c'; [apply prune_some | apply prune_open].
Qed.

Lemma half_open_room m d :
  half_open_gen (_make_room_for_closed_state m) d = half_open_gen m d.
Proof.
  apply half_open_ext; intros d' c'; [apply room_some | apply room_open].
Qed.

(** What each operation does to the half-open circuits. *)
Lemma check_half_open d now m d' :
  let '(r, m') := check d now m in
  half_open_gen m' d' =
  match r with
  | Ok (Some p) => if decide (d' = d) then Some (p_generation p) else half_open_gen m d'
  | _ => half_open_gen m d'
  end ∧
  match r with
  | Ok (Some p) => p_domain p = d ∧ half_open_gen m d = None
  | _ => True
  end.
Proof.
  unfold check. set (m1 := _prune_inactive_closed now m).
  pose proof (half_open_prune now m) as Hp. fold m1 in Hp.
  destruct (m1 !! d) as [c|] eqn:Hc; [|by rewrite Hp].
  assert (Hkeep : ∀ c', cstate c' = cstate c → generation c' = generation c →
            half_open_gen (<[d := c']> m1) d' = half_open_gen m d').
  { intros c' H1 H2. rewrite half_open_insert, H1, H2, <- Hp.
    destruct (decide (d' = d)) as [->|]; [|done]. unfold half_open_gen. by rewrite Hc. }
  destruct (is_closed c) eqn:Hcl; [by rewrite Hkeep|].
  destruct (_ && _) eqn:He; [|by rewrite Hkeep]. boolprop. simpl in *.
  split_and!; [|done|].
  - rewrite half_open_insert. simpl. rewrite Hp. done.
  - rewrite <- Hp. unfold half_open_gen. rewrite Hc, H. done.
Qed.

(** The report presents the probe its domain is waiting for. *)
Definition presents (d : string) (probe : option CircuitProbe) (m : circuits) : bool :=
  match probe with
  | Some p => bool_decide (p_domain p = d) &&
              bool_decide (half_open_gen m d = Some (p_generation p))
  | None => false
  end.

(** A report changes the half-open circuits only by ending the presented probe. *)
Definition reported (d : string) (probe : option CircuitProbe) (m m' : circuits) : Prop :=
  ∀ d', half_open_gen m' d' =
    if decide (d' = d) then if presents d probe m then None else half_open_gen m d
    else half_open_gen m d'.

Lemma probe_matches_gen now c d probe m :
  _prune_inactive_closed now m !! d = Some c →
  _probe_matches c d probe = presents d probe m.
Proof.
  intros Hm. unfold _probe_matches, presents.
  rewrite <- (half_open_prune now m d). unfold half_open_gen. rewrite Hm.
  destruct (decide (cstate c = half_open)) as [Hc|Hc].
  - rewrite !(bool_decide_true (cstate c = half_open)) by done. destruct probe; [|done].
    simpl. f_equal. apply eq_true_iff_eq.
    rewrite Z.eqb_eq, bool_decide_eq_true. split; [intros ->; done|intros H; by injection H].
  - rewrite !(bool_decide_false (cstate c = half_open)) by done. destruct probe; [|done].
    by rewrite (bool_decide_false (None = Some _)), andb_false_r by done.
Qed.

Lemma presents_half_open now c d probe m :
  _prune_inactive_closed now m !! d = Some c → cstate c ≠ half_open →
  presents d probe m = false.
Proof.
  intros Hm Hc. rewrite <- (probe_matches_gen _ _ _ _ _ Hm). unfold _probe_matches.
  by rewrite bool_decide_false.
Qed.

Lemma presents_absent now d probe m :
  _prune_inactive_closed now m !! d = None → presents d probe m = false.
Proof.
  intros Hm. unfold presents. destruct probe; [|done].
  rewrite <- (half_open_prune now m d). unfold half_open_gen. rewrite Hm.
  by rewrite (bool_decide_false (None = Some _)), andb_false_r by done.
Qed.

(** The update of one circuit of the pruned map, as a report. *)
Lemma reported_insert now d probe m c c' :
  _prune_inactive_closed now m !! d = Some c →
  (if presents d probe m then cstate c' ≠ half_open
   else cstate c' = cstate c ∧ generation c' = generation c ∨
        (cstate c ≠ half_open ∧ cstate c' ≠ half_open)) →
  reported d probe m (<[d := c']> (_prune_inactive_closed now m)).
Proof.
  intros Hm Hc d'. rewrite half_open_insert, half_open_prune.
  destruct (decide (d' = d)) as [->|]; [|done].
  rewrite <- (half_open_prune now m d). unfold half_open_gen. rewrite Hm.
  destruct (presents d probe m); [by rewrite bool_decide_false|].
  destruct Hc as [[-> ->]|[H1 H2]]; [done|]. by rewrite !bool_decide_false.
Qed.

Lemma reported_delete now d probe m c :
  _prune_inactive_closed now m !! d = Some c →
  (presents d probe m = false → cstate c ≠ half_open) →
  reported d probe m (delete d (_prune_inactive_closed now m)).
Proof.
  intros Hm Hc d'. destruct (decide (d' = d)) as [->|Hne].
  - unfold half_open_gen at 1. rewrite lookup_delete_eq.
    destruct (presents d probe m) eqn:E; [done|].
    rewrite <- (half_open_prune now m d). unfold half_open_gen. rewrite Hm.
    by rewrite bool_decide_false by auto.
  - unfold half_open_gen at 1. rewrite lookup_delete_ne by done.
    by rewrite <- (half_open_prune now m d').
Qed.

Lemma reported_none d probe m m' :
  presents d probe m = false → (∀ d', half_open_gen m' d' = half_open_gen m d') →
  reported d probe m m'.
Proof.
  intros Hp Heq d'. rewrite Hp, Heq. by destruct (decide (d' = d)) as [->|].
Qed.

Lemma record_success_reported d probe now m :
  reported d probe m (record_success d probe now m).
Proof.
  unfold record_success. destruct (_ !! d) as [c|] eqn:Hc.
  - rewrite (probe_matches_gen _ _ _ _ _ Hc). destruct (is_closed c) eqn:Hcl.
    { apply (reported_delete now _ _ _ c); [done|]. unfold is_closed in Hcl. boolprop. congruence. }
    destruct (presents d probe m) eqn:Hp.
    + apply (reported_delete now _ _ _ c); [done|]. congruence.
    + apply (reported_insert now _ _ _ c); [done|]. rewrite Hp. by left.
  - apply reported_none; [by eapply presents_absent|apply half_open_prune].
Qed.

Lemma count_failure_open d probe now c :
  cstate c ≠ half_open → cstate (count_failure d probe now c) ≠ half_open.
Proof. unfold count_failure. intros Hc. destruct (cstate c) eqn:E; simpl; dmatches; congruence. Qed.

Lemma record_failure_reported d probe now m :
  reported d probe m (record_failure d probe now m).
Proof.
  unfold record_failure. destruct (_ !! d) as [c|] eqn:Hc.
  - apply (reported_insert now _ _ _ c); [done|].
    destruct (decide (cstate c = half_open)) as [Hs|Hs].
    + unfold count_failure. simpl. rewrite Hs.
      replace (_probe_matches (touch now c) d probe) with (_probe_matches c d probe) by done.
      rewrite (probe_matches_gen _ _ _ _ _ Hc). destruct (presents d probe m); simpl; [done|by left].
    + rewrite (presents_half_open _ _ _ _ _ Hc Hs). right. split; [done|].
      by apply count_failure_open.
  - apply reported_none; [by eapply presents_absent|].
    intros d'. destruct (_ <=? _)%nat; [by rewrite half_open_room, half_open_prune|].
    rewrite half_open_insert, half_open_room, half_open_prune.
    destruct (decide (d' = d)) as [->|]; [|done].
    rewrite bool_decide_false by by apply count_failure_open.
    rewrite <- (half_open_prune now m d). unfold half_open_gen. by rewrite Hc.
Qed.

Lemma abort_probe_reported d probe now m :
  reported d probe m (abort_probe d probe now m).
Proof.
  unfold abort_probe. destruct (_ !! d) as [c|] eqn:Hc.
  - rewrite (probe_matches_gen _ _ _ _ _ Hc). destruct (presents d probe m) eqn:Hp.
    + apply (reported_insert now _ _ _ c); [done|]. by rewrite Hp.
    + apply reported_none; [done|apply half_open_prune].
  - apply reported_none; [by eapply presents_absent|apply half_open_prune].
Qed.

Lemma live_step_report d probe m m' l :
  probes_live m l → reported d probe m m' →
  (∀ p, probe = Some p → p ∉ l) → probes_live m' l.
Proof.
  intros [Hnd Hl] Hr Hp. split; [done|]. intros d' g. rewrite Hl, Hr.
  destruct (decide (d' = d)) as [->|]; [|done].
  assert (presents d probe m = false) as ->; [|done].
  destruct (presents d probe m) eqn:E; [|done]. unfold presents in E.
  destruct probe as [p|]; [|done]. boolprop. destruct (Hp p eq_refl).
  destruct p as [pd pg]; simpl in *; subst. by apply Hl.
Qed.

Lemma live_step_probe m m' l1 l2 p :
  probes_live m (l1 ++ p :: l2) → reported (p_domain p) (Some p) m m' →
  probes_live m' (l1 ++ l2).
Proof.
  intros [Hnd Hl] Hr. destruct p as [pd pg]. simpl in *.
  rewrite map_app in Hnd. cbn [map] in Hnd.
  rewrite <- Permutation_middle, <- map_app in Hnd. simpl in Hnd.
  apply NoDup_cons in Hnd as [Hnot Hnd]. split; [done|]. intros d g.
  assert (Hp : half_open_gen m pd = Some pg) by (apply Hl; set_solver).
  rewrite Hr. unfold presents. simpl. rewrite bool_decide_true by done.
  rewrite Hp, bool_decide_true by done. simpl.
  destruct (decide (d = pd)) as [->|Hne].
  - split; [|done]. intros Hin. destruct Hnot. apply list_elem_of_fmap. by exists {| p_domain := pd; p_generation := g |}.
  - rewrite <- Hl. rewrite !elem_of_app, elem_of_cons. naive_solver.
Qed.

Lemma cstep_live s s' : cstep s s' → probes_live s.1 s.2 → probes_live s'.1 s'.2.
Proof.
  destruct 1 as [m l d now m' Hc|m l d now m' p Hc|m l d now m' e Hc|m l d now|m l d now
                |m l d now|m l1 l2 p now|m l1 l2 p now|m l1 l2 p now|m l d now];
    simpl; intros Hl;
    try (eapply live_step_report;
         [exact Hl
         |first [apply record_success_reported|apply record_failure_reported
                |apply abort_probe_reported]
         |discriminate]);
    try (eapply live_step_probe; [exact Hl|];
         first [apply record_success_reported|apply record_failure_reported
               |apply abort_probe_reported]).
  - destruct Hl as [Hnd Hl]. split; [done|]. intros d' g. rewrite Hl.
    pose proof (check_half_open d now m d') as H. rewrite Hc in H. by destruct H as [-> _].
  - destruct Hl as [Hnd Hl]. destruct p as [pd pg].
    pose proof (check_half_open d now m) as H. rewrite Hc in H. simpl in H.
    destruct (H d) as [_ [-> Hnone]]. split.
    + simpl. apply NoDup_cons. split; [|done]. intros (p & Hp & Hin)%list_elem_of_fmap.
      destruct p as [pd' pg']; simpl in Hp; subst. apply Hl in Hin. congruence.
    + intros d' g. rewrite elem_of_cons, Hl. destruct (H d') as [-> _].
      destruct (decide (d' = d)) as [->|]; naive_solver.
  - destruct Hl as [Hnd Hl]. split; [done|]. intros d' g. rewrite Hl.
    pose proof (check_half_open d now m d') as H. rewrite Hc in H. by destruct H as [-> _].
  - destruct Hl as [Hnd Hl]. split; [done|]. intros d' g. unfold state_of. cbn [snd].
    by rewrite Hl, half_open_prune.
Qed.

(** The circuit breaker never has two probes out for one domain: in any history
    of calls, a domain is half-open exactly while one granted probe of it has not been
    given back, and during that time every other caller is turned away. *)
Theorem single_half_open_probe m l d p :
  rtc cstep (∅, []) (m, l) → p ∈ l → p_domain p = d →
  (∀ p', p' ∈ l → p_domain p' = d → p' = p) ∧
  half_open_gen m d = Some (p_generation p) ∧
  ∀ now, ∃ remaining m', check d now m = (Raise (CircuitOpenError d remaining), m').
Proof.
  intros Hr Hp <-. assert (Hl : probes_live m l).
  { refine (rtc_invariant cstep (λ s, probes_live s.1 s.2) _ _ _ Hr _).
    - intros s s' Hs Hst. exact (cstep_live s s' Hst Hs).
    - split; [constructor|]. intros d g. simpl. rewrite elem_of_nil. done. }
  destruct Hl as [Hnd Hl]. destruct p as [d g]. simpl.
  assert (Hg : half_open_gen m d = Some g) by by apply Hl. split_and!; [|done|].
  - intros [d' g'] Hp' Hd. simpl in Hd. subst d'. apply Hl in Hp'. congruence.
  - intros now. apply half_open_some in Hg as (c & Hc & Hs & _).
    unfold check. rewrite (prune_open _ _ _ _ Hc) by congruence.
    unfold is_closed. rewrite bool_decide_false by congruence.
    rewrite (bool_decide_false (cstate (touch now c) = open)) by (simpl; congruence).
    simpl. eauto.
Qed.

(** ** Consecutive failures *)

(** Failures of one domain reported at the given times, without a probe. *)
Definition fail_at (d : string) (times : list Z) (m : circuits) : circuits :=
  foldl (λ m t, record_failure d None t m) m times.

(** The times increase by less than the inactivity limit. *)
Fixpoint close_together (last : Z) (times : list Z) : Prop :=
  match times with
  | [] => True
  | t :: times => t - last < _inactive_ttl k ∧ close_together t times
  end.

(** A circuit that has seen [n] failures, the latest at [last]. *)
Definition failed_circuit (n : Z) (c : _DomainCircuit) (last : Z) : Prop :=
  cstate c = closed ∧ failures c = n ∧ last_accessed_at c = last.

Lemma failure_counts d m c n last t :
  m !! d = Some c → failed_circuit n c last → t - last < _inactive_ttl k →
  ∃ c', record_failure d None t m !! d = Some c' ∧ generation c' = generation c ∧
    if _max_failures k <=? n + 1
    then cstate c' = open ∧ opened_at c' = t ∧ failures c' = n + 1
    else failed_circuit (n + 1) c' t.
Proof.
  intros Hm (Hc & Hn & Hl) Ht. unfold record_failure.
  assert (Hp : _prune_inactive_closed t m !! d = Some c).
  { rewrite prune_lookup, Hm, Hl. rewrite (proj2 (Z.leb_gt _ _)) by lia. by rewrite andb_false_r. }
  rewrite Hp, lookup_insert_eq. eexists. split; [done|].
  unfold count_failure. simpl. rewrite Hc, Hn. unfold failed_circuit.
  destruct (_max_failures k <=? n + 1); simpl; auto.
Qed.

Lemma open_ignores_failures d m c t :
  m !! d = Some c → cstate c = open →
  ∃ c', record_failure d None t m !! d = Some c' ∧ cstate c' = open ∧
        opened_at c' = opened_at c ∧ failures c' = failures c.
Proof.
  intros Hm Hc. unfold record_failure. rewrite (prune_open _ _ _ _ Hm) by congruence.
  rewrite lookup_insert_eq. eexists. split; [done|]. unfold count_failure. simpl.
  by rewrite Hc.
Qed.

Lemma open_stays d m c times :
  m !! d = Some c → cstate c = open →
  ∃ c', fail_at d times m !! d = Some c' ∧ cstate c' = open ∧
        opened_at c' = opened_at c ∧ failures c' = failures c.
Proof.
  revert m c. induction times as [|t times IH]; intros m c Hm Hc; [by exists c|].
  destruct (open_ignores_failures d m c t Hm Hc) as (c1 & H1 & H2 & H3 & H4).
  destruct (IH _ _ H1 H2) as (c' & ? & ? & ? & ?). exists c'. split_and!; try done; congruence.
Qed.

Lemma failures_count d m c n last times :
  m !! d = Some c → failed_circuit n c last → n < _max_failures k →
  close_together last times →
  ∃ c', fail_at d times m !! d = Some c' ∧
    if n + Z.of_nat (length times) <? _max_failures k
    then cstate c' = closed ∧ failures c' = n + Z.of_nat (length times)
    else cstate c' = open ∧ failures c' = _max_failures k ∧
         times !! Z.to_nat (_max_failures k - n - 1) = Some (opened_at c').
Proof.
  revert m c n last. induction times as [|t times IH]; intros m c n last Hm Hf Hn Ht.
  { exists c. destruct Hf as (? & ? & _). simpl. rewrite Z.add_0_r.
    rewrite (proj2 (Z.ltb_lt _ _)) by done. done. }
  destruct Ht as [Ht Hts].
  destruct (failure_counts d m c n last t Hm Hf Ht) as (c1 & Hc1 & _ & Hif).
  destruct (_max_failures k <=? n + 1) eqn:E; boolprop.
  - destruct Hif as (Ho & Hat & Hfl).
    destruct (open_stays d _ c1 times Hc1 Ho) as (c' & ? & ? & Hat' & ?).
    exists c'. split; [done|]. rewrite (proj2 (Z.ltb_ge _ _)) by (simpl; lia).
    replace (Z.to_nat (_max_failures k - n - 1)) with 0%nat by lia. simpl.
    split_and!; [done|lia|congruence].
  - destruct (IH _ c1 (n + 1) t Hc1 Hif ltac:(lia) Hts) as (c' & Hc' & Hcase).
    exists c'. split; [done|].
    replace (n + Z.of_nat (length (t :: times))) with (n + 1 + Z.of_nat (length times))
      by (simpl; lia).
    destruct (_ <? _); [done|]. destruct Hcase as (? & ? & Hlk). split_and!; [done|done|].
    rewrite <- Hlk. by replace (Z.to_nat (_max_failures k - n - 1))
      with (Datatypes.S (Z.to_nat (_max_failures k - (n + 1) - 1))) by lia.
Qed.

(** A domain without history trips at exactly the configured number of consecutive
    failures, whatever other domains do to the cache before: with fewer failures the
    circuit is closed and work is admitted; from the [max_failures]-th on it is open
    since the time of that very failure, every check before the cooldown has passed is
    refused with the time that is left, and the first check after it gets a probe. *)
Theorem trips_at_threshold d m t times c now :
  config_ok k → m !! d = None → (size m < _max_domains k)%nat →
  close_together t times → fail_at d (t :: times) m !! d = Some c →
  let n := Z.of_nat (length (t :: times)) in
  (n < _max_failures k → cstate c = closed ∧ (check d now (fail_at d (t :: times) m)).1 = Ok None) ∧
  (_max_failures k ≤ n →
     cstate c = open ∧
     (t :: times) !! Z.to_nat (_max_failures k - 1) = Some (opened_at c) ∧
     (check d now (fail_at d (t :: times) m)).1 =
       if _cooldown k <=? now - opened_at c
       then Ok (Some {| p_domain := d; p_generation := generation c + 1 |})
       else Raise (CircuitOpenError d (_cooldown k - (now - opened_at c)))).
Proof.
  intros (Hk & Hcd & Hmd & _) Hm Hsz Ht Hc n.
  assert (Hfirst : ∃ c1, record_failure d None t m !! d = Some c1 ∧
     if _max_failures k <=? 1 then cstate c1 = open ∧ opened_at c1 = t ∧ failures c1 = 1
     else failed_circuit 1 c1 t).
  { unfold record_failure. rewrite prune_lookup, Hm.
    rewrite (proj2 (Nat.leb_gt _ _)).
    2:{ pose proof (room_size (_prune_inactive_closed t m)). pose proof (prune_size t m). lia. }
    rewrite lookup_insert_eq. eexists. split; [done|]. unfold count_failure, failed_circuit. simpl.
    change (0 + 1) with 1. destruct (_max_failures k <=? 1); simpl; auto. }
  destruct Hfirst as (c1 & Hc1 & Hif). cbn [fail_at foldl] in Hc |- *.
  assert (Hcase : if n <? _max_failures k then cstate c = closed
     else cstate c = open ∧ (t :: times) !! Z.to_nat (_max_failures k - 1) = Some (opened_at c)).
  { subst n. destruct (_max_failures k <=? 1) eqn:E; boolprop.
    - destruct Hif as (Ho & Hat & _).
      destruct (open_stays d _ c1 times Hc1 Ho) as (c' & Hc' & ? & ? & ?).
      unfold fail_at in Hc'. simplify_eq. rewrite (proj2 (Z.ltb_ge _ _)) by (simpl; lia).
      split; [done|]. replace (Z.to_nat (_max_failures k - 1)) with 0%nat by lia.
      simpl. congruence.
    - destruct (failures_count d _ c1 1 t times Hc1 Hif ltac:(lia) Ht) as (c' & Hc' & Hcase).
      unfold fail_at in Hc'. simplify_eq.
      replace (Z.of_nat (length (t :: times))) with (1 + Z.of_nat (length times)) by (simpl; lia).
      destruct (_ <? _); [tauto|]. destruct Hcase as (? & _ & Hlk). split; [done|].
      rewrite <- Hlk. by replace (Z.to_nat (_max_failures k - 1))
        with (Datatypes.S (Z.to_nat (_max_failures k - 1 - 1))) by lia. }
  split; intros Hn.
  - rewrite (proj2 (Z.ltb_lt _ _)) in Hcase by done. split; [done|].
    unfold check. rewrite prune_lookup, Hc. destruct (_ && _) eqn:E; [done|].
    unfold is_closed. by rewrite bool_decide_true.
  - rewrite (proj2 (Z.ltb_ge _ _)) in Hcase by done. destruct Hcase as [Ho Hat].
    split_and!; [done|done|]. unfold check. rewrite (prune_open _ _ _ _ Hc) by congruence.
    unfold is_closed. rewrite bool_decide_false by congruence. simpl.
    rewrite bool_decide_true by done. simpl.
    destruct (_cooldown k <=? now - opened_at c) eqn:E; [done|]. boolprop. simpl.
    by rewrite Z.max_r by lia.
Qed.

(** ** Capacity and retention *)

Definition bounded (m : circuits) : Prop := (size m ≤ _max_domains k)%nat.

Lemma bounded_insert now m d c c' :
  bounded m → _prune_inactive_closed now m !! d = Some c →
  bounded (<[d := c']> (_prune_inactive_closed now m)).
Proof.
  unfold bounded. intros Hb Hd. rewrite map_size_insert, Hd. simpl.
  pose proof (prune_size now m). lia.
Qed.

Lemma bounded_prune now m : bounded m → bounded (_prune_inactive_closed now m).
Proof. unfold bounded. pose proof (prune_size now m). lia. Qed.

Lemma bounded_delete now m d : bounded m → bounded (delete d (_prune_inactive_closed now m)).
Proof.
  unfold bounded. rewrite map_size_delete. pose proof (prune_size now m).
  destruct (_ !! d); simpl; lia.
Qed.

Lemma check_bounded d now m : bounded m → bounded (check d now m).2.
Proof.
  intros Hb. unfold check. destruct (_ !! d) as [c|] eqn:Hd; [|by apply bounded_prune].
  destruct (is_closed c); [by eapply bounded_insert|].
  destruct (_ && _); by eapply bounded_insert.
Qed.

Lemma success_bounded d p now m : bounded m → bounded (record_success d p now m).
Proof.
  intros Hb. unfold record_success. destruct (_ !! d) as [c|] eqn:Hd; [|by apply bounded_prune].
  destruct (is_closed c); [by apply bounded_delete|].
  destruct (_probe_matches _ _ _); [by apply bounded_delete|by eapply bounded_insert].
Qed.

Lemma failure_bounded d p now m : bounded m → bounded (record_failure d p now m).
Proof.
  intros Hb. unfold record_failure. destruct (_ !! d) as [c|] eqn:Hd; [by eapply bounded_insert|].
  unfold bounded in *. pose proof (room_size (_prune_inactive_closed now m)).
  pose proof (prune_size now m). destruct (_ <=? _)%nat eqn:E; [lia|].
  apply Nat.leb_gt in E. rewrite map_size_insert. destruct (_make_room_for_closed_state _ !! d); unfold id; lia.
Qed.

Lemma abort_bounded d p now m : bounded m → bounded (abort_probe d p now m).
Proof.
  intros Hb. unfold abort_probe. destruct (_ !! d) as [c|] eqn:Hd; [|by apply bounded_prune].
  destruct (_probe_matches _ _ _); [by eapply bounded_insert|by apply bounded_prune].
Qed.

Lemma cstep_bounded s s' : cstep s s' → bounded s.1 → bounded s'.1.
Proof.
  destruct 1; simpl; intros Hb;
    try first [ by apply success_bounded | by apply failure_bounded | by apply abort_bounded
              | by apply bounded_prune ];
    (pose proof (check_bounded d now m Hb) as Hc; by rewrite H in Hc).
Qed.

Definition tripped (m : circuits) (d : string) : Prop :=
  ∃ c, m !! d = Some c ∧ cstate c ≠ closed.

Lemma tripped_insert m d d' c : tripped m d → cstate c ≠ closed → tripped (<[d' := c]> m) d.
Proof.
  intros (c0 & Hc0 & Hs) Hc. destruct (decide (d = d')) as [->|].
  - exists c. by rewrite lookup_insert_eq.
  - exists c0. by rewrite lookup_insert_ne.
Qed.

Lemma tripped_insert_ne m d d' c : tripped m d → d ≠ d' → tripped (<[d' := c]> m) d.
Proof. intros (c0 & Hc0 & Hs) Hne. exists c0. by rewrite lookup_insert_ne. Qed.

Lemma tripped_delete_ne m d d' : tripped m d → d ≠ d' → tripped (delete d' m) d.
Proof. intros (c0 & Hc0 & Hs) Hne. exists c0. by rewrite lookup_delete_ne. Qed.

Lemma tripped_prune now m d : tripped m d → tripped (_prune_inactive_closed now m) d.
Proof. intros (c & Hc & Hs). exists c. by split; [apply prune_open|]. Qed.

Lemma tripped_room m d : tripped m d → tripped (_make_room_for_closed_state m) d.
Proof. intros (c & Hc & Hs). exists c. by split; [apply room_open|]. Qed.

Lemma tripped_ne m d d' c :
  tripped m d → m !! d' = Some c → cstate c = closed → d ≠ d'.
Proof. intros (c0 & Hc0 & Hs) Hc Hcl ->. by simplify_eq. Qed.

Lemma check_tripped d d' now m : tripped m d → tripped (check d' now m).2 d.
Proof.
  intros Ht%(tripped_prune now). unfold check. destruct (_ !! d') as [c|] eqn:Hc; [|done].
  unfold is_closed. destruct (bool_decide (cstate c = closed)) eqn:E; boolprop.
  - simpl. apply tripped_insert_ne; [done|]. by eapply tripped_ne.
  - destruct (_ && _); simpl; by apply tripped_insert.
Qed.

Lemma failure_tripped d d' p now m : tripped m d → tripped (record_failure d' p now m) d.
Proof.
  intros Ht%(tripped_prune now). unfold record_failure.
  destruct (_ !! d') as [c|] eqn:Hc.
  - destruct (decide (cstate c = closed)) as [Hs|Hs].
    + apply tripped_insert_ne; [done|]. by eapply tripped_ne.
    + apply tripped_insert; [done|]. unfold count_failure. simpl.
      destruct (cstate c) eqn:E; [done|by simpl; rewrite E|].
      destruct (_probe_matches _ _ _); simpl; [done|by rewrite E].
  - destruct (_ <=? _)%nat; [by apply tripped_room|].
    apply tripped_insert_ne; [by apply tripped_room|]. intros ->.
    destruct Ht as (c & Hc' & _). congruence.
Qed.

Lemma abort_tripped d d' p now m : tripped m d → tripped (abort_probe d' p now m) d.
Proof.
  intros Ht%(tripped_prune now). unfold abort_probe. destruct (_ !! d') as [c|] eqn:Hc; [|done].
  destruct (_probe_matches _ _ _); [by apply tripped_insert|done].
Qed.

Lemma success_tripped d d' p now m :
  tripped m d → tripped (record_success d' p now m) d ∨ (d = d' ∧ presents d p m = true).
Proof.
  intros Ht%(tripped_prune now). unfold record_success.
  destruct (_ !! d') as [c|] eqn:Hc; [|by left].
  rewrite (probe_matches_gen _ _ _ _ _ Hc).
  unfold is_closed. destruct (bool_decide (cstate c = closed)) eqn:E; boolprop.
  - left. apply tripped_delete_ne; [done|]. by eapply tripped_ne.
  - destruct (presents d' p m) eqn:Hp; [|left; by apply tripped_insert].
    destruct (decide (d = d')) as [->|]; [by right|]. left. by apply tripped_delete_ne.
Qed.

(** However many domains fail, the breaker tracks at most [max_domains] circuits,
    and it never forgets a tripped one to make room: an open or half-open circuit stays
    open or half-open through every step but one, the success of the probe that the
    circuit itself granted and is waiting for. *)
Theorem tripped_circuits_are_kept m l s d :
  rtc cstep (∅, []) (m, l) → tripped m d → cstep (m, l) s →
  (size s.1 ≤ _max_domains k)%nat ∧
  (tripped s.1 d ∨
   ∃ p l1 l2 now, l = l1 ++ p :: l2 ∧ p_domain p = d ∧ presents d (Some p) m = true ∧
     s = (record_success d (Some p) now m, l1 ++ l2)).
Proof.
  intros Hr Ht Hs. split.
  - apply (cstep_bounded _ _ Hs). refine (rtc_invariant cstep (λ s, bounded s.1) _ _ _ Hr _).
    + intros a b Ha Hb. exact (cstep_bounded _ _ Hb Ha).
    + unfold bounded. simpl. rewrite map_size_empty. lia.
  - remember (m, l) as ml eqn:Hml. destruct Hs; simplify_eq; simpl;
      try first [ left; by apply failure_tripped | left; by apply abort_tripped
                | left; by apply tripped_prune
                | left; pose proof (check_tripped d d0 now m Ht) as Hc; by rewrite H in Hc ].
    + destruct (success_tripped d d0 None now m Ht) as [|[_ ?]]; [by left|done].
    + destruct (success_tripped d (p_domain p) (Some p) now m Ht) as [|[-> ?]]; [by left|].
      right. exists p, l1, l2, now. done.
Qed.

End breaker.

(** ** A concrete history: two failures trip the circuit, one probe is granted *)

Definition sample_config : config :=
  {| _max_failures := 2; _cooldown := 10; _max_domains := 3; _inactive_ttl := 100 |}.
Definition sample_tripped : circuits := fail_at sample_config "a.test" [5; 7] ∅.
Definition sample_probed : circuits := (check sample_config "a.test" 20 sample_tripped).2.
Definition sample_probe : CircuitProbe := {| p_domain := "a.test"; p_generation := 1 |}.

Lemma sample_history : rtc (cstep sample_config) (∅, []) (sample_probed, [sample_probe]).
Proof.
  eapply rtc_l; [apply (c_failure _ _ _ "a.test" 5)|].
  eapply rtc_l; [apply (c_failure _ _ _ "a.test" 7)|].
  eapply rtc_l; [|apply rtc_refl].
  apply (c_grant _ sample_tripped [] "a.test" 20 sample_probed sample_probe).
  vm_compute. reflexivity.
Defined.

Lemma single_half_open_probe_witness :
  half_open_gen sample_probed "a.test" = Some 1.
Proof.
  apply (single_half_open_probe sample_config sample_probed [sample_probe] "a.test" sample_probe);
    [apply sample_history|set_solver|reflexivity].
Defined.

Lemma trips_at_threshold_witness :
  ∃ c, sample_tripped !! "a.test" = Some c ∧ cstate c = open.
Proof.
  eexists. split; [vm_compute; reflexivity|].
  apply (trips_at_threshold sample_config "a.test" ∅ 5 [7] _ 8);
    [vm_compute; intuition (discriminate || lia)|reflexivity|vm_compute; lia
    |vm_compute; done|vm_compute; reflexivity|vm_compute; discriminate].
Defined.

Lemma tripped_circuits_are_kept_witness :
  (size (record_failure sample_config "b.test" None 30 sample_probed) ≤ 3)%nat.
Proof.
  apply (tripped_circuits_are_kept sample_config sample_probed [sample_probe]
    (record_failure sample_config "b.test" None 30 sample_probed, [sample_probe]) "a.test");
    [apply sample_history| |constructor].
  eexists. split; [vm_compute; reflexivity|]. discriminate.
Defined.
End Circuit.
