(* ===== verification/DomainGuard.v ===== *)
(** * Per-domain page budgets and denial cooldowns ([engine/domain_guard.py])

    [DomainGuard] is the protocol of the source as a type class: its operations,
    what they observe (the pages of the day, the cooldown that is left), and the laws
    a run relies on. [Local] and [Shared] are the two implementations, in process and
    on Redis; both discharge the laws. [RunDomainPolicy] is verified against the class
    alone. Times are milliseconds; [day now] is the UTC day of a time, the callable
    [utc_day] the guards are built with. *)

From S2P Require Import Prelude.
From S2P Require Import Redis.
Open Scope Z_scope.

(** [ScrapeStop] of the guard: no request was made. *)
Inductive guard_error :=
| DomainDailyLimitReached (host : string) (limit : Z)
| DomainCooldownActive (host : string) (remaining : Z)
| RedisResponseError.

Definition day_ms : Z := 86400000.

(** The day of a time. The guards take it from the clock with
    [strftime("%Y%m%d")]: times with the same name are in the same UTC day, and a
    name is made of digits. *)
Class Calendar := {
  day : Z → string;
  day_same a b : day a = day b → a / day_ms = b / day_ms;
  day_plain a : str_free (Ascii.ascii_of_nat 58) (day a) = true;
}.

Lemma same_day_close `{Calendar} a b : day a = day b → b - a < day_ms.
Proof.
  intros Hd%day_same. unfold day_ms in *.
  pose proof (Z.div_mod a 86400000 ltac:(lia)). pose proof (Z.div_mod b 86400000 ltac:(lia)).
  pose proof (Z.mod_pos_bound a 86400000 ltac:(lia)).
  pose proof (Z.mod_pos_bound b 86400000 ltac:(lia)). lia.
Qed.

(** ** The protocol *)

Definition limit_used (limit used : Z) : bool := (0 <? limit) && (limit <=? used).

Class DomainGuard `{Calendar} (G : Type) := {
  consume_page : string → Z → Z → prog G guard_error Z;
  cooldown_remaining : string → Z → prog G guard_error Z;
  start_cooldown : string → Z → Z → G → G;
  clear : string → Z → G → G;

  (** States the operations can leave at a time, and what can be observed then. *)
  valid : G → Z → Prop;
  used : G → string → Z → Z;
  remaining : G → string → Z → Z;

  valid_later g now now' : now ≤ now' → valid g now → valid g now';
  used_nonneg g h now : valid g now → 0 ≤ used g h now;
  used_later g h now now' : valid g now → now ≤ now' → day now = day now' →
    used g h now' = used g h now;
  remaining_later g h now now' : valid g now → now ≤ now' →
    remaining g h now' = Z.max 0 (remaining g h now - (now' - now));
  remaining_nonneg g h now : valid g now → 0 ≤ remaining g h now;

  consume_law g h limit now : valid g now →
    let '(r, g') := consume_page h limit now g in
    valid g' now ∧ (∀ h', remaining g' h' now = remaining g h' now) ∧
    if limit_used limit (used g h now)
    then r = Raise (DomainDailyLimitReached h limit) ∧ ∀ h', used g' h' now = used g h' now
    else r = Ok (used g h now + 1) ∧
         ∀ h', used g' h' now = if decide (h = h') then used g h now + 1 else used g h' now;
  cooldown_law g h now : valid g now →
    let '(r, g') := cooldown_remaining h now g in
    r = Ok (remaining g h now) ∧ valid g' now ∧
    ∀ h', used g' h' now = used g h' now ∧ remaining g' h' now = remaining g h' now;
  start_law g h seconds now : valid g now →
    let g' := start_cooldown h seconds now g in
    valid g' now ∧ ∀ h', used g' h' now = used g h' now ∧
      remaining g' h' now =
        if decide (h = h' ∧ 0 < seconds) then seconds * 1000 else remaining g h' now;
  clear_law g h now : valid g now →
    let g' := clear h now g in
    valid g' now ∧ ∀ h',
      used g' h' now = (if decide (h = h') then 0 else used g h' now) ∧
      remaining g' h' now = (if decide (h = h') then 0 else remaining g h' now);
}.

(** ** The in-process guard *)

Module Local.

Record LocalDomainGuard := {
  _pages : gmap (string * string) Z;
  _cooldowns : gmap string Z;
}.

Section local.
Context `{Calendar}.

Definition local_consume_page (host : string) (limit now : Z) :
    prog LocalDomainGuard guard_error Z := λ g,
  let key := (host, day now) in
  let count := default 0 (_pages g !! key) in
  if limit_used limit count then (Raise (DomainDailyLimitReached host limit), g)
  else (Ok (count + 1), {| _pages := <[key := count + 1]> (_pages g); _cooldowns := _cooldowns g |}).

Definition local_cooldown_remaining (host : string) (now : Z) :
    prog LocalDomainGuard guard_error Z := λ g,
  match _cooldowns g !! host with
  | None => (Ok 0, g)
  | Some until =>
      let remaining := until - now in
      if remaining <=? 0
      then (Ok 0, {| _pages := _pages g; _cooldowns := delete host (_cooldowns g) |})
      else (Ok remaining, g)
  end.

Definition local_start_cooldown (host : string) (seconds now : Z) (g : LocalDomainGuard) :
    LocalDomainGuard :=
  if 0 <? seconds
  then {| _pages := _pages g; _cooldowns := <[host := now + seconds * 1000]> (_cooldowns g) |}
  else g.

Definition local_clear (host : string) (now : Z) (g : LocalDomainGuard) : LocalDomainGuard :=
  {| _pages := filter (λ x, x.1.1 ≠ host) (_pages g); _cooldowns := delete host (_cooldowns g) |}.

Definition local_used (g : LocalDomainGuard) (host : string) (now : Z) : Z :=
  default 0 (_pages g !! (host, day now)).
Definition local_remaining (g : LocalDomainGuard) (host : string) (now : Z) : Z :=
  match _cooldowns g !! host with Some until => Z.max 0 (until - now) | None => 0 end.

Definition local_valid (g : LocalDomainGuard) (now : Z) : Prop :=
  ∀ k n, _pages g !! k = Some n → 0 ≤ n.

#[export] Program Instance local_guard : DomainGuard LocalDomainGuard := {
  consume_page := local_consume_page;
  cooldown_remaining := local_cooldown_remaining;
  start_cooldown := local_start_cooldown;
  clear := local_clear;
  valid := local_valid;
  used := local_used;
  remaining := local_remaining;
}.
Next Obligation. done. Qed.
Next Obligation.
  intros g h now Hv. unfold local_used.
  destruct (_pages g !! (h, day now)) eqn:E; simpl; [by apply (Hv _ _ E)|lia].
Qed.
Next Obligation. intros g h now now' _ _ Hd. unfold local_used. by rewrite Hd. Qed.
Next Obligation.
  intros g h now now' _ Hle. unfold local_remaining. destruct (_ !! h); lia.
Qed.
Next Obligation. intros g h now _. unfold local_remaining. destruct (_ !! h); lia. Qed.
Next Obligation.
  intros g h limit now Hv. unfold local_consume_page.
  change (default 0 (_pages g !! (h, day now))) with (local_used g h now).
  destruct (limit_used limit (local_used g h now)); [done|].
  split_and!; [|done|done|].
  - intros key n. simpl. rewrite lookup_insert. case_decide; [|by apply Hv].
    intros [= <-]. unfold local_used.
    destruct (_pages g !! (h, day now)) eqn:E; simpl; [pose proof (Hv _ _ E)|]; lia.
  - intros h'. unfold local_used at 1. simpl. rewrite lookup_insert.
    destruct (decide (h = h')) as [->|Hne].
    + by rewrite decide_True.
    + rewrite decide_False by congruence. done.
Qed.
Next Obligation.
  intros g h now Hv. unfold local_cooldown_remaining.
  destruct (_cooldowns g !! h) as [until|] eqn:E.
  - destruct (until - now <=? 0) eqn:Hu; boolprop; unfold local_remaining, local_used, local_valid;
      simpl; rewrite E; (split_and!; [f_equal; lia|done|]); [|done].
    intros h'. split; [done|]. rewrite lookup_delete. case_decide; subst; [|done].
    rewrite E. lia.
  - unfold local_remaining. rewrite E. done.
Qed.
Next Obligation.
  intros g h seconds now Hv. unfold local_start_cooldown. destruct (0 <? seconds) eqn:E; boolprop.
  - simpl. split; [done|]. intros h'. split; [done|]. unfold local_remaining. simpl.
    rewrite lookup_insert. destruct (decide (h = h')) as [->|].
    + rewrite decide_True by done. lia.
    + rewrite decide_False by tauto. done.
  - split; [done|]. intros h'. rewrite decide_False by lia. done.
Qed.
Next Obligation.
  intros g h now Hv. split.
  - intros key n. simpl. rewrite map_lookup_filter_Some. intros [? _]. by eapply Hv.
  - intros h'. unfold local_used, local_remaining. simpl. rewrite lookup_delete.
    destruct (decide (h = h')) as [->|Hne].
    + assert (filter (λ x : string * string * Z, x.1.1 ≠ h') (_pages g) !! (h', day now) = None) as ->.
      { apply map_lookup_filter_None. right. intros x _. simpl. tauto. }
      done.
    + assert (filter (λ x : string * string * Z, x.1.1 ≠ h) (_pages g) !! (h', day now)
              = _pages g !! (h', day now)) as ->; [|done].
      apply option_eq. intros x. rewrite map_lookup_filter_Some. simpl. naive_solver.
Qed.
End local.
End Local.

(** ** The guard shared through Redis *)

Module Shared.

Definition _DAY_KEY_TTL_SECONDS : Z := 2 * 86400.

Definition _pages_key (host day : string) : string :=
  "scrapeyard:domain:pages:" +:+ host +:+ ":" +:+ day.
Definition _cooldown_key (host : string) : string := "scrapeyard:domain:cooldown:" +:+ host.

Section shared.
Context `{Calendar} {T : Type} `{Redis T}.

(** [_LUA_CONSUME]: [{1, count}] when admitted, [{0, count}] when the limit is used. *)
Definition LUA_CONSUME (key : string) (limit ttl now : Z) (s : T) :
    option (bool * Z) * T :=
  match r_get s now key with
  | Some (Blob _) => (None, s)
  | cell =>
      let current := match cell with Some (Num n) => n | _ => 0 end in
      if limit_used limit current then (Some (false, current), s)
      else
        match r_incr s now key with
        | None => (None, s)
        | Some (count, s) =>
            (Some (true, count), if count =? 1 then r_expire s now key (ttl * 1000) else s)
        end
  end.

Definition RedisDomainGuard : Type := scripted T.

Definition redis_consume_page (host : string) (limit now : Z) :
    prog RedisDomainGuard guard_error Z := λ g,
  let key := _pages_key host (day now) in
  match evalsha 2 (LUA_CONSUME key (Z.max limit 0) _DAY_KEY_TTL_SECONDS now) g with
  | Some (Some (true, count), g') => (Ok count, g')
  | Some (Some (false, _), g') => (Raise (DomainDailyLimitReached host limit), g')
  | Some (None, g') => (Raise RedisResponseError, g')
  | None => (Raise RedisResponseError, g)
  end.

Definition redis_cooldown_remaining (host : string) (now : Z) :
    prog RedisDomainGuard guard_error Z := λ g,
  let remaining_ms := r_pttl (store g) now (_cooldown_key host) in
  (Ok (if 0 <? remaining_ms then remaining_ms else 0), g).

Definition with_store (f : T → T) (g : RedisDomainGuard) : RedisDomainGuard :=
  Build_scripted (f (store g)) (server_has g) (sha_cached g).

Definition redis_start_cooldown (host : string) (seconds now : Z) (g : RedisDomainGuard) :
    RedisDomainGuard :=
  if 0 <? seconds
  then with_store (λ s, r_setex s now (_cooldown_key host) (seconds * 1000) (Blob "1")) g
  else g.

Definition redis_clear (host : string) (now : Z) (g : RedisDomainGuard) : RedisDomainGuard :=
  with_store (λ s, r_del (r_del s (_cooldown_key host)) (_pages_key host (day now))) g.

Definition redis_used (g : RedisDomainGuard) (host : string) (now : Z) : Z :=
  match r_get (store g) now (_pages_key host (day now)) with Some (Num n) => n | _ => 0 end.
Definition redis_remaining (g : RedisDomainGuard) (host : string) (now : Z) : Z :=
  Z.max 0 (r_pttl (store g) now (_cooldown_key host)).

(** A page counter holds a positive count and outlives its day. *)
Definition counters_ok (s : T) (now : Z) : Prop :=
  ∀ h t v e, r_entry s (_pages_key h (day t)) = Some (v, e) →
    ∃ n exp, v = Num n ∧ 1 ≤ n ∧ e = Some exp ∧
      ∀ t', now ≤ t' → day t' = day t → t' < exp.

Lemma pages_key_inj h t h' t' :
  _pages_key h (day t) = _pages_key h' (day t') → h = h' ∧ day t = day t'.
Proof.
  unfold _pages_key. intros E%(inj (String.append _)).
  apply str_split_last in E as [-> ->]; auto using day_plain.
Qed.

Lemma pages_cooldown_ne h d h' : _pages_key h d ≠ _cooldown_key h'.
Proof. unfold _pages_key, _cooldown_key. simpl. discriminate. Qed.

Lemma cooldown_key_inj h h' : _cooldown_key h = _cooldown_key h' → h = h'.
Proof. unfold _cooldown_key. by intros E%(inj (String.append _)). Qed.

(** The counter of a day while it is that day. *)
Lemma counter_get s now h t :
  counters_ok s now → day now = day t →
  r_get s now (_pages_key h (day t)) = match r_entry s (_pages_key h (day t)) with
                                       | Some (v, _) => Some v | None => None end.
Proof.
  intros Hok Hd. unfold r_get. destruct (r_entry s _) as [[v e]|] eqn:E; [|done].
  destruct (Hok _ _ _ _ E) as (n & exp & -> & _ & -> & Hexp).
  by rewrite (proj2 (Z.ltb_lt _ _)) by (apply Hexp; [lia|done]).
Qed.

Definition count_of (e : option entry) : Z :=
  match e with Some (Num n, _) => n | _ => 0 end.

Lemma redis_used_entry g h now :
  counters_ok (store g) now →
  redis_used g h now = count_of (r_entry (store g) (_pages_key h (day now))).
Proof.
  intros Hok. unfold redis_used. rewrite counter_get by done.
  destruct (r_entry _ _) as [[v e]|] eqn:E; [|done]. by destruct v.
Qed.

(** What the script does in a valid state. *)
Lemma consume_script_spec s now h limit :
  counters_ok s now →
  let n := count_of (r_entry s (_pages_key h (day now))) in
  LUA_CONSUME (_pages_key h (day now)) (Z.max limit 0) _DAY_KEY_TTL_SECONDS now s =
    if limit_used limit n then (Some (false, n), s)
    else (Some (true, n + 1),
      match r_entry s (_pages_key h (day now)) with
      | Some (_, e) => r_write s (_pages_key h (day now)) (Some (Num (n + 1), e))
      | None => r_write (r_write s (_pages_key h (day now)) (Some (Num 1, None)))
                  (_pages_key h (day now)) (Some (Num 1, Some (now + 2 * day_ms)))
      end).
Proof.
  intros Hok. cbv zeta. unfold LUA_CONSUME. rewrite counter_get by done.
  assert (Hlim : ∀ n, limit_used (Z.max limit 0) n = limit_used limit n).
  { intros n. unfold limit_used. destruct (0 <? limit) eqn:E; boolprop.
    - rewrite Z.max_l by lia. by rewrite (proj2 (Z.ltb_lt _ _) E).
    - rewrite Z.max_r by lia. done. }
  destruct (r_entry s _) as [[v e]|] eqn:E; simpl; rewrite ?Hlim.
  - destruct (Hok _ _ _ _ E) as (n & exp & -> & Hn & -> & Hexp).
    rewrite Hlim. destruct (limit_used limit n); [done|]. unfold r_incr. rewrite E.
    rewrite (proj2 (Z.ltb_lt _ _)) by (apply Hexp; [lia|done]).
    by rewrite (proj2 (Z.eqb_neq _ _)) by lia.
  - destruct (limit_used limit 0); [done|]. unfold r_incr. rewrite E. simpl.
    unfold r_expire. rewrite get_write, decide_True by done. done.
Qed.

Lemma counters_write_other s now k e :
  counters_ok s now → (∀ h t, k ≠ _pages_key h (day t)) → counters_ok (r_write s k e) now.
Proof.
  intros Hok Hk h t v e'. rewrite entry_write, decide_False by apply Hk. apply Hok.
Qed.

Lemma counters_write s now h n e exp :
  counters_ok s now → 1 ≤ n → e = Some exp →
  (∀ t', now ≤ t' → day t' = day now → t' < exp) →
  counters_ok (r_write s (_pages_key h (day now)) (Some (Num n, e))) now.
Proof.
  intros Hok Hn -> Hexp h' t v e'. rewrite entry_write.
  destruct (decide _) as [Hk|Hk]; [|apply Hok].
  apply pages_key_inj in Hk as [_ Hd]. intros [= <- <-].
  exists n, exp. split_and!; [done|done|done|]. intros t' Hle Hd'. apply Hexp; [done|]. congruence.
Qed.

Lemma consume_keeps_counters s now h limit :
  counters_ok s now →
  counters_ok (LUA_CONSUME (_pages_key h (day now)) (Z.max limit 0)
                 _DAY_KEY_TTL_SECONDS now s).2 now.
Proof.
  intros Hok. rewrite consume_script_spec by done. destruct (limit_used _ _); [done|]. simpl.
  destruct (r_entry s _) as [[v e]|] eqn:E.
  - destruct (Hok _ _ _ _ E) as (n & exp & -> & Hn & -> & Hexp). simpl.
    eapply counters_write; [done|lia|done|done].
  - intros h' t v e. rewrite entry_write. destruct (decide _) as [Hk|Hk].
    + apply pages_key_inj in Hk as [_ Hd]. intros [= <- <-]. exists 1, (now + 2 * day_ms).
      split_and!; [done|lia|done|]. intros t' Hle Hd'.
      assert (Hdd : day now = day t') by congruence.
      apply same_day_close in Hdd. unfold day_ms in *. lia.
    + rewrite entry_write, decide_False by done. apply Hok.
Qed.

Lemma consume_other_entry s now h limit k :
  counters_ok s now → k ≠ _pages_key h (day now) →
  r_entry (LUA_CONSUME (_pages_key h (day now)) (Z.max limit 0)
             _DAY_KEY_TTL_SECONDS now s).2 k = r_entry s k.
Proof.
  intros Hok Hk. rewrite consume_script_spec by done. destruct (limit_used _ _); [done|]. simpl.
  destruct (r_entry s _) as [[v e]|]; by rewrite !entry_write, ?decide_False by done.
Qed.

Lemma pttl_entry s s' now k : r_entry s' k = r_entry s k → r_pttl s' now k = r_pttl s now k.
Proof. unfold r_pttl. by intros ->. Qed.

#[export] Program Instance redis_guard : DomainGuard RedisDomainGuard := {
  consume_page := redis_consume_page;
  cooldown_remaining := redis_cooldown_remaining;
  start_cooldown := redis_start_cooldown;
  clear := redis_clear;
  valid g now := counters_ok (store g) now;
  used := redis_used;
  remaining := redis_remaining;
}.
Next Obligation.
  intros g now now' Hle Hok h t v e E. destruct (Hok _ _ _ _ E) as (n & exp & ? & ? & ? & Hx).
  exists n, exp. split_and!; try done. intros t' Ht'. apply Hx. lia.
Qed.
Next Obligation.
  intros g h now Hok. rewrite redis_used_entry by done. unfold count_of.
  destruct (r_entry _ _) as [[v e]|] eqn:E; [|done].
  destruct (Hok _ _ _ _ E) as (n & exp & -> & ? & _). lia.
Qed.
Next Obligation.
  intros g h now now' Hok Hle Hd. rewrite (redis_used_entry g h now) by done.
  unfold redis_used, r_get. rewrite <- Hd.
  destruct (r_entry _ _) as [[v e]|] eqn:E; [|done].
  destruct (Hok _ _ _ _ E) as (n & exp & -> & ? & -> & Hx).
  by rewrite (proj2 (Z.ltb_lt _ _)) by (apply Hx; [lia|done]).
Qed.
Next Obligation.
  intros g h now now' _ Hle. unfold redis_remaining, r_pttl.
  destruct (r_entry _ _) as [[v [d|]]|]; [|lia..].
  destruct (now <? d) eqn:E1, (now' <? d) eqn:E2; boolprop; lia.
Qed.
Next Obligation. intros g h now _. unfold redis_remaining. lia. Qed.
Next Obligation.
  intros g h limit now Hok. unfold redis_consume_page.
  destruct (evalsha_total (LUA_CONSUME (_pages_key h (day now)) (Z.max limit 0)
              _DAY_KEY_TTL_SECONDS now) g) as (g' & -> & Hs).
  pose proof (consume_keeps_counters _ now h limit Hok) as Hok'. rewrite <- Hs in Hok'.
  assert (Hother : ∀ k, k ≠ _pages_key h (day now) → r_entry (store g') k = r_entry (store g) k).
  { intros k Hk. rewrite Hs. by apply consume_other_entry. }
  rewrite consume_script_spec in Hs |- * by done. rewrite redis_used_entry by done.
  assert (Hr : ∀ h', redis_remaining g' h' now = redis_remaining g h' now).
  { intros h'. unfold redis_remaining. f_equal. apply pttl_entry, Hother.
    intros E. by apply (pages_cooldown_ne h (day now) h'). }
  destruct (limit_used limit _) eqn:El; simpl in *.
  - split_and!; [done|done|done|]. intros h'. rewrite !redis_used_entry by done. by rewrite Hs.
  - split_and!; [done|done|done|]. intros h'. rewrite !redis_used_entry by done.
    destruct (decide (h = h')) as [<-|Hne].
    + rewrite Hs. destruct (r_entry (store g) _) as [[v e]|];
        rewrite entry_write, decide_True by done; done.
    + rewrite Hother; [done|]. intros [-> _]%pages_key_inj. done.
Qed.
Next Obligation.
  intros g h now Hok. unfold redis_cooldown_remaining, redis_remaining.
  split_and!; [|done|done]. destruct (0 <? _) eqn:E; boolprop; f_equal; lia.
Qed.
Next Obligation.
  intros g h seconds now Hok. unfold redis_start_cooldown.
  destruct (0 <? seconds) eqn:E; boolprop; simpl.
  - assert (Hok' : counters_ok (r_setex (store g) now (_cooldown_key h) (seconds * 1000) (Blob "1")) now).
    { apply counters_write_other; [done|]. intros h' t E'. by apply (pages_cooldown_ne h' (day t) h). }
    split; [done|]. intros h'. split.
    + rewrite !redis_used_entry by done. simpl. unfold r_setex.
      rewrite entry_write, decide_False; [done|].
      intros E'. by apply (pages_cooldown_ne h' (day now) h).
    + unfold redis_remaining, r_pttl, r_setex. simpl. rewrite entry_write.
      destruct (decide (h = h')) as [<-|Hne].
      * rewrite decide_True by done. rewrite decide_True by done.
        rewrite (proj2 (Z.ltb_lt _ _)) by lia. lia.
      * rewrite decide_False by (by intros ?%cooldown_key_inj).
        by rewrite decide_False by tauto.
  - split; [done|]. intros h'. by rewrite decide_False by lia.
Qed.
Next Obligation.
  intros g h now Hok. unfold redis_clear. simpl.
  assert (Hok' : counters_ok (r_del (r_del (store g) (_cooldown_key h)) (_pages_key h (day now))) now).
  { intros h' t v e. unfold r_del. rewrite entry_write. destruct (decide _); [done|].
    rewrite entry_write, decide_False; [apply Hok|].
    intros E'. by apply (pages_cooldown_ne h' (day t) h). }
  split; [done|]. intros h'. split.
  - rewrite !redis_used_entry by done. simpl. unfold r_del. rewrite !entry_write.
    destruct (decide (h = h')) as [<-|Hne].
    + by rewrite decide_True.
    + rewrite decide_False by (intros [? _]%pages_key_inj; done).
      rewrite decide_False; [done|]. intros E'. by apply (pages_cooldown_ne h' (day now) h).
  - unfold redis_remaining, r_pttl, r_del. simpl. rewrite !entry_write.
    rewrite (decide_False (P := _ = _cooldown_key h')) by apply pages_cooldown_ne.
    destruct (decide (h = h')) as [<-|Hne].
    + by rewrite decide_True.
    + by rewrite decide_False by (by intros ?%cooldown_key_inj).
Qed.
End shared.
End Shared.

(** ** One run's policy *)

Record DomainGuardUsage := {
  pages_admitted : gmap string Z;
  daily_limit_stops : gmap string Z;
  cooldown_stops : gmap string Z;
  cooldowns_started : list string;
}.

Record RunDomainPolicy := {
  daily_page_limit : Z;
  cooldown_seconds : Z;
  usage : DomainGuardUsage;
}.

Definition bump (m : gmap string Z) (host : string) : gmap string Z :=
  <[host := default 0 (m !! host) + 1]> m.

Definition effective_daily_page_limit (service_limit : Z) (job_limit : option Z) : Z :=
  match job_limit with
  | None => service_limit
  | Some job => if service_limit <=? 0 then job else Z.min service_limit job
  end.

Definition with_usage (f : DomainGuardUsage → DomainGuardUsage) (p : RunDomainPolicy) :
    RunDomainPolicy :=
  {| daily_page_limit := daily_page_limit p; cooldown_seconds := cooldown_seconds p;
     usage := f (usage p) |}.
Definition count_admitted (host : string) (u : DomainGuardUsage) : DomainGuardUsage :=
  {| pages_admitted := bump (pages_admitted u) host; daily_limit_stops := daily_limit_stops u;
     cooldown_stops := cooldown_stops u; cooldowns_started := cooldowns_started u |}.
Definition count_limit_stop (host : string) (u : DomainGuardUsage) : DomainGuardUsage :=
  {| pages_admitted := pages_admitted u; daily_limit_stops := bump (daily_limit_stops u) host;
     cooldown_stops := cooldown_stops u; cooldowns_started := cooldowns_started u |}.
Definition count_cooldown_stop (host : string) (u : DomainGuardUsage) : DomainGuardUsage :=
  {| pages_admitted := pages_admitted u; daily_limit_stops := daily_limit_stops u;
     cooldown_stops := bump (cooldown_stops u) host; cooldowns_started := cooldowns_started u |}.
Definition note_cooldown (host : string) (u : DomainGuardUsage) : DomainGuardUsage :=
  {| pages_admitted := pages_admitted u; daily_limit_stops := daily_limit_stops u;
     cooldown_stops := cooldown_stops u;
     cooldowns_started := if bool_decide (host ∈ cooldowns_started u)
                          then cooldowns_started u else cooldowns_started u ++ [host] |}.

Section policy.
Context `{Calendar} {G : Type} `{!DomainGuard G}.

(** [RunDomainPolicy.admit] for the host of a URL; the state is the shared guard with
    the policy of the run. *)
Definition admit_pages (host : string) (now : Z) : prog (G * RunDomainPolicy) guard_error unit :=
  λ '(g, p),
  match consume_page host (daily_page_limit p) now g with
  | (Ok _, g) => (Ok tt, (g, with_usage (count_admitted host) p))
  | (Raise (DomainDailyLimitReached h l), g) =>
      (Raise (DomainDailyLimitReached h l), (g, with_usage (count_limit_stop host) p))
  | (Raise e, g) => (Raise e, (g, p))
  end.

Definition admit_host (host : string) (now : Z) : prog (G * RunDomainPolicy) guard_error unit :=
  λ '(g, p),
  if 0 <? cooldown_seconds p then
    match cooldown_remaining host now g with
    | (Raise e, g) => (Raise e, (g, p))
    | (Ok wait, g) =>
        if 0 <? wait
        then (Raise (DomainCooldownActive host wait), (g, with_usage (count_cooldown_stop host) p))
        else admit_pages host now (g, p)
    end
  else admit_pages host now (g, p).

Definition record_denial (host : string) (now : Z) (s : G * RunDomainPolicy) :
    G * RunDomainPolicy :=
  let '(g, p) := s in
  if cooldown_seconds p <=? 0 then (g, p)
  else (start_cooldown host (cooldown_seconds p) now g, with_usage (note_cooldown host) p).

(** ** Many runs sharing one guard

    An event is a page admission or a denial of some run: the policy's settings, the
    host and the time. [play] runs the events on the shared guard and lists the pages
    that were admitted, with the limit they were admitted under. *)
Inductive guard_event :=
| EAdmit (p : RunDomainPolicy) (host : string) (now : Z)
| EDenial (p : RunDomainPolicy) (host : string) (now : Z).

Definition event_time (e : guard_event) : Z :=
  match e with EAdmit _ _ now | EDenial _ _ now => now end.

Definition play_event (e : guard_event) (g : G) : G * list (string * Z) :=
  match e with
  | EAdmit p host now =>
      match admit_host host now (g, p) with
      | (Ok _, (g, _)) => (g, [(host, daily_page_limit p)])
      | (Raise _, (g, _)) => (g, [])
      end
  | EDenial p host now => ((record_denial host now (g, p)).1, [])
  end.

Fixpoint play (es : list guard_event) (g : G) : G * list (string * Z) :=
  match es with
  | [] => (g, [])
  | e :: es => let '(g, a) := play_event e g in let '(g, b) := play es g in (g, a ++ b)
  end.

(** The admissions of a host under a positive limit of at most [limit]. *)
Definition admitted_within (host : string) (limit : Z) (l : list (string * Z)) : Z :=
  Z.of_nat (length (filter (λ x, x.1 = host ∧ 0 < x.2 ≤ limit) l)).
Fixpoint ordered (t : Z) (es : list guard_event) : Prop :=
  match es with [] => True | e :: es => t ≤ event_time e ∧ ordered (event_time e) es end.

Fixpoint last_time (t : Z) (es : list guard_event) : Z :=
  match es with [] => t | e :: es => last_time (event_time e) es end.

Lemma last_time_le t es : ordered t es → t ≤ last_time t es.
Proof. revert t. induction es as [|e es IH]; intros t; simpl; [lia|]. intros [? ?%IH]. lia. Qed.

(** What an admission does, from the laws of the guard alone. *)
Lemma admit_host_spec g p host now :
  valid g now →
  let '(r, (g', p')) := admit_host host now (g, p) in
  valid g' now ∧ (∀ h, remaining g' h now = remaining g h now) ∧
  if (0 <? cooldown_seconds p) && (0 <? remaining g host now)
  then r = Raise (DomainCooldownActive host (remaining g host now)) ∧
       (∀ h, used g' h now = used g h now)
  else if limit_used (daily_page_limit p) (used g host now)
  then r = Raise (DomainDailyLimitReached host (daily_page_limit p)) ∧
       (∀ h, used g' h now = used g h now)
  else r = Ok tt ∧
       (∀ h, used g' h now = if decide (host = h) then used g host now + 1 else used g h now).
Proof.
  intros Hv. unfold admit_host.
  assert (Hpages : ∀ g0, valid g0 now → (∀ h, used g0 h now = used g h now ∧
            remaining g0 h now = remaining g h now) →
    let '(r, (g', p')) := admit_pages host now (g0, p) in
    valid g' now ∧ (∀ h, remaining g' h now = remaining g h now) ∧
    if limit_used (daily_page_limit p) (used g host now)
    then r = Raise (DomainDailyLimitReached host (daily_page_limit p)) ∧
         (∀ h, used g' h now = used g h now)
    else r = Ok tt ∧
         (∀ h, used g' h now = if decide (host = h) then used g host now + 1 else used g h now)).
  { intros g0 Hv0 Hsame. unfold admit_pages.
    pose proof (consume_law g0 host (daily_page_limit p) now Hv0) as Hc.
    destruct (consume_page host (daily_page_limit p) now g0) as [r g1].
    destruct Hc as (Hv1 & Hr & Hif). destruct (Hsame host) as [Hu _]. rewrite Hu in Hif.
    destruct (limit_used _ _); destruct Hif as [-> Hused]; (split_and!; [done| |done|]);
      intros h; destruct (Hsame h) as [E1 E2]; rewrite ?Hr, ?Hused, ?E1, ?E2; done. }
  destruct (0 <? cooldown_seconds p) eqn:Ec; [|by apply Hpages].
  pose proof (cooldown_law g host now Hv) as Hl.
  destruct (cooldown_remaining host now g) as [r g1]. destruct Hl as (-> & Hv1 & Hsame).
  simpl. destruct (0 <? remaining g host now) eqn:Er; [|by apply Hpages].
  split_and!; [done| |done|]; intros h; by destruct (Hsame h).
Qed.

(** Every event keeps the guard valid and only adds to the pages of a day. *)
Lemma play_event_spec e g t :
  valid g t → t ≤ event_time e →
  let '(g', l) := play_event e g in
  valid g' (event_time e) ∧
  (∀ h, used g' h (event_time e) = used g h (event_time e) +
          Z.of_nat (length (filter (λ x, x.1 = h) l))) ∧
  (∀ h lim, (h, lim) ∈ l → 0 < lim → used g h (event_time e) < lim) ∧ (length l ≤ 1)%nat.
Proof.
  intros Hv Hle. apply (valid_later _ _ _ Hle) in Hv. destruct e as [p host now|p host now]; cbn [play_event event_time] in *.
  - pose proof (admit_host_spec g p host now Hv) as Ha.
    destruct (admit_host host now (g, p)) as [r [g' p']]. destruct Ha as (Hv' & _ & Hif).
    destruct (_ && _); [destruct Hif as [-> Hu]; simpl; split_and!; [done| | |lia];
                        [intros h; rewrite Hu; simpl; lia|by intros ?? []%elem_of_nil]|].
    destruct (limit_used _ _) eqn:El; [destruct Hif as [-> Hu]; simpl; split_and!; [done| | |lia];
                        [intros h; rewrite Hu; simpl; lia|by intros ?? []%elem_of_nil]|].
    destruct Hif as [-> Hu]. simpl. split_and!; [done| | |lia].
    + intros h. rewrite Hu. rewrite filter_cons. simpl.
      destruct (decide (host = h)) as [->|]; simpl; lia.
    + intros h lim [= -> ->]%list_elem_of_singleton Hpos. unfold limit_used in El.
      rewrite (proj2 (Z.ltb_lt _ _) Hpos) in El. simpl in El. boolprop. lia.
  - unfold record_denial. destruct (cooldown_seconds p <=? 0); simpl.
    + split_and!; [done|intros; simpl; lia|by intros ?? []%elem_of_nil|lia].
    + destruct (start_law g host (cooldown_seconds p) now Hv) as [Hv' Hs].
      split_and!; [done| |by intros ?? []%elem_of_nil|lia]. intros h. destruct (Hs h) as [-> _]. simpl. lia.
Qed.

(** [C12] However many runs share a guard, and whatever denials happen meanwhile: within
    one UTC day the pages of a host that are admitted under a limit of at most [limit]
    never exceed what [limit] leaves of the day's pages, and every admitted page is
    counted. This holds of every implementation of the protocol; the in-process guard
    and the one on Redis are two. *)
Theorem daily_limit_across_runs es g t host limit :
  valid g t → ordered t es → (∀ e, e ∈ es → day (event_time e) = day t) → 0 < limit →
  let '(g', l) := play es g in
  used g' host (last_time t es) = used g host t + Z.of_nat (length (filter (λ x, x.1 = host) l)) ∧
  admitted_within host limit l ≤ Z.max 0 (limit - used g host t).
Proof.
  intros Hv Ho Hd Hlim. revert g t Hv Ho Hd. induction es as [|e es IH]; intros g t Hv Ho Hd.
  { simpl. unfold admitted_within. simpl. lia. }
  destruct Ho as [Hle Ho]. assert (Hde : day (event_time e) = day t) by (apply Hd; set_solver).
  cbn [play last_time]. pose proof (play_event_spec e g t Hv Hle) as Hp.
  destruct (play_event e g) as [g1 l1]. destruct Hp as (Hv1 & Hu & Hadm & Hlen).
  specialize (IH g1 (event_time e) Hv1 Ho).
  destruct (play es g1) as [g2 l2]. destruct IH as [IH1 IH2].
  { intros e' He'. rewrite Hde. apply Hd. set_solver. }
  rewrite (Hu host), (used_later g host t) in IH1, IH2 by done.
  rewrite filter_app, length_app. split; [lia|].
  unfold admitted_within in *. rewrite filter_app, length_app.
  pose proof (used_nonneg g host t Hv).
  destruct l1 as [|[h1 lim1] [|]]; [simpl in *; lia| |simpl in Hlen; lia].
  specialize (Hadm h1 lim1 ltac:(set_solver)).
  rewrite !filter_cons in *. simpl in *.
  destruct (decide (h1 = host)) as [->|Hne].
  - rewrite (used_later g host t) in Hadm by done.
    destruct (decide (host = host ∧ 0 < lim1 ≤ limit)) as [[_ Hl]|]; simpl in *; lia.
  - rewrite decide_False by tauto. simpl in *. lia.
Qed.

(** When a run reports a denial, the host is left alone: until the cooldown has
    passed, whatever other runs do in between (including further denials with the
    service's cooldown), every admission for the host is refused with at least the time
    that is left, and no page is counted for it. *)
Theorem denial_stops_every_run g t p host es q now :
  valid g t → 0 < cooldown_seconds p → 0 < cooldown_seconds q →
  (∀ p' h' t', EDenial p' h' t' ∈ es → cooldown_seconds p' = cooldown_seconds p) →
  ordered t es → last_time t es ≤ now < t + cooldown_seconds p * 1000 →
  let g' := (play es (record_denial host t (g, p)).1).1 in
  let '(r, (g'', _)) := admit_host host now (g', q) in
  (∃ left_ms, t + cooldown_seconds p * 1000 - now ≤ left_ms ∧
     r = Raise (DomainCooldownActive host left_ms)) ∧
  ∀ h, used g'' h now = used g' h now.
Proof.
  intros Hv Hp Hq Hsame Ho Hnow. unfold record_denial.
  rewrite (proj2 (Z.leb_gt _ _)) by lia. cbn [fst].
  set (until := t + cooldown_seconds p * 1000) in *.
  destruct (start_law g host (cooldown_seconds p) t Hv) as [Hv1 Hs].
  assert (Hrem : until - t ≤ remaining (start_cooldown host (cooldown_seconds p) t g) host t).
  { destruct (Hs host) as [_ ->]. rewrite decide_True by done. lia. }
  clear Hs. revert Hv1 Hrem. generalize (start_cooldown host (cooldown_seconds p) t g) as g1.
  clear Hv g. assert (Hun : until ≤ t + cooldown_seconds p * 1000) by done.
  revert Ho Hnow Hsame Hun. clearbody until. revert t.
  induction es as [|e es IH]; intros t Ho Hnow Hsame Hun g1 Hv1 Hrem; cbn [play last_time fst] in *.
  - apply (valid_later _ _ now) in Hv1 as Hv2; [|lia].
    pose proof (admit_host_spec g1 q host now Hv2) as Ha.
    destruct (admit_host host now (g1, q)) as [r [g2 q']]. destruct Ha as (_ & _ & Hif).
    rewrite (remaining_later g1 host t now) in Hif by (done || lia).
    rewrite (proj2 (Z.ltb_lt 0 (cooldown_seconds q))), (proj2 (Z.ltb_lt _ _)) in Hif by lia.
    destruct Hif as [-> Hu]. split; [|done]. eexists. split; [|done]. lia.
  - destruct Ho as [Hle Ho]. pose proof (last_time_le _ _ Ho).
    assert (Hstep : valid (play_event e g1).1 (event_time e) ∧
      until - event_time e ≤ remaining (play_event e g1).1 host (event_time e)).
    { apply (valid_later _ _ _ Hle) in Hv1 as Hv2.
      assert (until - event_time e ≤ remaining g1 host (event_time e)).
      { rewrite (remaining_later g1 host t) by done. lia. }
      destruct e as [p' h' t'|p' h' t']; cbn [play_event event_time] in *.
      - pose proof (admit_host_spec g1 p' h' t' Hv2) as Ha.
        destruct (admit_host h' t' (g1, p')) as [r [g2 q']]. destruct Ha as (Hv3 & Hr & _).
        destruct r; simpl; rewrite Hr; done.
      - unfold record_denial. destruct (cooldown_seconds p' <=? 0); [done|]. simpl.
        destruct (start_law g1 h' (cooldown_seconds p') t' Hv2) as [Hv3 Hs3].
        split; [done|]. destruct (Hs3 host) as [_ ->]. destruct (decide _); [|done].
        rewrite (Hsame p' h' t') by set_solver. lia. }
    destruct (play_event e g1) as [g2 l2]. simpl in Hstep. destruct Hstep as [Hv2 Hr2].
    specialize (IH (event_time e) Ho ltac:(lia)).
    assert (Hs' : ∀ p' h' t', EDenial p' h' t' ∈ es → cooldown_seconds p' = cooldown_seconds p).
    { intros p' h' t' Hin. apply (Hsame p' h' t'). by apply list_elem_of_further. }
    specialize (IH Hs' ltac:(lia) g2 Hv2 Hr2).
    destruct (play es g2) as [g3 l3]. exact IH.
Qed.
End policy.

(** ** A concrete guard: three pages under a limit of two, on Redis *)

Module GuardWitness.
Import Shared.

(** Days named by their number in binary. *)
Fixpoint positive_name (p : positive) : string :=
  match p with
  | xH => "1"
  | xO p => String (Ascii.ascii_of_nat 48) (positive_name p)
  | xI p => String (Ascii.ascii_of_nat 49) (positive_name p)
  end.
Definition number_name (z : Z) : string :=
  match z with
  | Z0 => "z"
  | Zpos p => positive_name p
  | Zneg p => String (Ascii.ascii_of_nat 45) (positive_name p)
  end.

Lemma positive_name_inj p q : positive_name p = positive_name q → p = q.
Proof.
  revert q. induction p as [p IH|p IH|]; intros [q|q|] E; simpl in E; try discriminate E;
    try (injection E as E; f_equal; by apply IH);
    try (injection E as E; destruct p; discriminate E);
    try (injection E as E; destruct q; discriminate E); done.
Qed.

Lemma number_name_inj a b : number_name a = number_name b → a = b.
Proof.
  destruct a as [|p|p], b as [|q|q]; simpl; intros E; try discriminate E; try done;
    try (destruct p; discriminate E); try (destruct q; discriminate E).
  - by apply positive_name_inj in E as ->.
  - injection E as E. by apply positive_name_inj in E as ->.
Qed.

Lemma positive_name_plain p : str_free (Ascii.ascii_of_nat 58) (positive_name p) = true.
Proof. induction p; simpl; done. Qed.

#[export] Program Instance plain_calendar : Calendar := {
  day t := number_name (t / day_ms);
}.
Next Obligation. intros a b. apply number_name_inj. Qed.
Next Obligation.
  intros a. simpl. destruct (a / day_ms); simpl; [done|apply positive_name_plain..].
Qed.

Definition empty_guard : Shared.RedisDomainGuard (T := GRedis) := Build_scripted g_empty false false.
Definition two_pages : RunDomainPolicy :=
  {| daily_page_limit := 2; cooldown_seconds := 60;
     usage := {| pages_admitted := ∅; daily_limit_stops := ∅; cooldown_stops := ∅;
                 cooldowns_started := [] |} |}.
Definition three_admits : list guard_event :=
  [EAdmit two_pages "a.test" 1000; EAdmit two_pages "a.test" 2000; EAdmit two_pages "a.test" 3000].

Lemma empty_valid : valid empty_guard 1000.
Proof. intros h t v e. done. Defined.

Lemma daily_limit_across_runs_witness :
  admitted_within "a.test" 2 (play three_admits empty_guard).2 ≤ 2.
Proof.
  pose proof (daily_limit_across_runs three_admits empty_guard 1000 "a.test" 2 empty_valid) as H.
  destruct (play three_admits empty_guard) as [g l].
  apply H; [simpl; lia| |lia].
  intros e He. unfold three_admits in He.
  repeat (apply elem_of_cons in He as [->|He]; [vm_compute; reflexivity|]).
  by apply elem_of_nil in He.
Defined.

Lemma denial_stops_every_run_witness :
  ∃ left_ms, 30000 ≤ left_ms ∧
  (admit_host "a.test" 31000 ((record_denial "a.test" 1000 (empty_guard, two_pages)).1, two_pages)).1
  = Raise (DomainCooldownActive "a.test" left_ms).
Proof.
  pose proof (denial_stops_every_run empty_guard 1000 two_pages "a.test" [] two_pages 31000
                empty_valid) as H.
  cbn [play fst] in H.
  destruct (admit_host "a.test" 31000 _) as [r [g q]]. simpl in *.
  apply H; [lia|lia| |done|lia]. intros p h t Hin. by apply elem_of_nil in Hin.
Defined.
End GuardWitness.
