(* ===== verification/RateLimiter.v ===== *)
(** * The rate limiter shared through Redis ([engine/rate_limiter.py])

    [LUA_ACQUIRE] is the Lua script of [RedisDomainRateLimiter], [acquire_round] one
    round of its [acquire], [acquire] the loop. Times are microseconds, the resolution
    of Redis's [TIME]. Lua's [tostring] writes a number with 14 significant digits, so
    a time of ten digits before the point keeps four behind it: the stored timestamp is
    rounded to 100 microseconds ([lua_tostring]).

    The in-process limiter of the same file, which serialises callers with asyncio
    locks, is not modelled. *)

From S2P Require Import Prelude.
From S2P Require Import Redis.
Open Scope Z_scope.

Module RateLimiter.

Definition lua_tostring (t : Z) : Z := (t + 50) / 100 * 100.

Lemma lua_tostring_close t : t - 50 < lua_tostring t ≤ t + 50.
Proof.
  unfold lua_tostring. pose proof (Z.div_mod (t + 50) 100 ltac:(lia)).
  pose proof (Z.mod_pos_bound (t + 50) 100 ltac:(lia)). lia.
Qed.

Definition rate_key (domain : string) : string := "scrapeyard:rate:" +:+ domain.

(** [max(int(min_interval) + 1, 2)] seconds *)
Definition ttl_of (min_interval : Z) : Z := Z.max (min_interval / 1000000 + 1) 2 * 1000000.

Lemma ttl_covers m : 0 < m → m < ttl_of m.
Proof.
  unfold ttl_of. intros Hm. pose proof (Z.div_mod m 1000000 ltac:(lia)).
  pose proof (Z.mod_pos_bound m 1000000 ltac:(lia)). lia.
Qed.

Section limiter.
Context {T : Type} `{Redis T}.

(** [Some (true, 0)]: acquired; [Some (false, remaining_ms)]: not yet; [None]: the
    script fails on a key that is not a number. *)
Definition LUA_ACQUIRE (key : string) (min_interval ttl now : Z) (s : T) :
    option (bool * Z) * T :=
  match r_get s now key with
  | None => (Some (true, 0), r_setex s now key ttl (Num (lua_tostring now)))
  | Some (Blob _) => (None, s)
  | Some (Num last) =>
      let elapsed := now - last in
      if elapsed <? 0
      then (Some (false, ceil_div min_interval 1000),
            r_setex s now key ttl (Num (lua_tostring now)))
      else if min_interval <=? elapsed
      then (Some (true, 0), r_setex s now key ttl (Num (lua_tostring now)))
      else (Some (false, ceil_div (min_interval - elapsed) 1000), s)
  end.

(** The seconds [acquire] sleeps after a refusal. *)
Definition wait_of (min_interval remaining_ms : Z) : Z :=
  Z.min min_interval (Z.max 0 (remaining_ms * 1000)).

Inductive round_result := Acquired | Wait (us : Z) | Failed.

Definition acquire_round (domain : string) (min_interval now : Z) (c : scripted T) :
    round_result * scripted T :=
  match evalsha 2 (LUA_ACQUIRE (rate_key domain) min_interval (ttl_of min_interval) now) c with
  | Some (Some (true, _), c) => (Acquired, c)
  | Some (Some (false, remaining_ms), c) => (Wait (wait_of min_interval remaining_ms), c)
  | Some (None, c) => (Failed, c)
  | None => (Failed, c)
  end.

(** [acquire] of one caller: [wake now wait] is when the event loop resumes a task
    that slept, [others] what other callers do to the store meanwhile. It gives the time
    it was let through. *)
Fixpoint acquire (fuel : nat) (wake : Z → Z → Z) (others : Z → scripted T → scripted T)
    (domain : string) (min_interval now : Z) (c : scripted T) : option Z * scripted T :=
  if min_interval <=? 0 then (Some now, c)
  else
    match fuel with
    | O => (None, c)
    | Datatypes.S fuel =>
        match acquire_round domain min_interval now c with
        | (Acquired, c) => (Some now, c)
        | (Failed, c) => (None, c)
        | (Wait us, c) =>
            acquire fuel wake others domain min_interval (wake now us) (others now c)
        end
    end.

(** Calls of any callers, in the order Redis runs them. *)
Record call := { c_domain : string; c_interval : Z; c_now : Z }.

(** The times at which callers of [domain] are let through. *)
Fixpoint play_calls (domain : string) (calls : list call) (s : scripted T) : list Z :=
  match calls with
  | [] => []
  | k :: calls =>
      let '(r, s) := acquire_round (c_domain k) (c_interval k) (c_now k) s in
      match r with
      | Acquired => if decide (c_domain k = domain) then c_now k :: play_calls domain calls s
                    else play_calls domain calls s
      | _ => play_calls domain calls s
      end
  end.

Fixpoint in_order (t : Z) (calls : list call) : Prop :=
  match calls with [] => True | k :: calls => t ≤ c_now k ∧ in_order (c_now k) calls end.

Fixpoint spaced (gap t : Z) (times : list Z) : Prop :=
  match times with [] => True | u :: times => t + gap ≤ u ∧ spaced gap u times end.

(** The last grant of a domain was at [t], its key is still protected for [m]. *)
Definition recent (domain : string) (m t : Z) (s : T) : Prop :=
  ∃ v x, r_entry s (rate_key domain) = Some (Num v, Some x) ∧ t - 50 ≤ v ∧ t + m ≤ x.

Lemma rate_key_inj a b : rate_key a = rate_key b → a = b.
Proof. unfold rate_key. by intros E%(inj (String.append _)). Qed.

(** One round on the domain itself. *)
Lemma round_same domain m i now t c :
  m ≤ i → 0 < m → t ≤ now → recent domain m t (store c) →
  let '(r, c') := acquire_round domain i now c in
  match r with
  | Acquired => t + m - 50 ≤ now ∧ recent domain m now (store c')
  | Wait _ => recent domain m t (store c')
  | Failed => recent domain m t (store c')
  end.
Proof.
  intros Hi Hm Ht (v & x & He & Hv & Hx). unfold acquire_round.
  destruct (evalsha_total (LUA_ACQUIRE (rate_key domain) i (ttl_of i) now) c) as (c' & -> & Hs).
  pose proof (lua_tostring_close now) as Hc. pose proof (ttl_covers i ltac:(lia)) as Ht2.
  assert (Hnew : ∀ u, t ≤ u → u ≤ now →
     recent domain m u (r_setex (store c) now (rate_key domain) (ttl_of i) (Num (lua_tostring now)))).
  { intros u Hu1 Hu2. exists (lua_tostring now), (now + ttl_of i). unfold r_setex.
    rewrite entry_write, decide_True by done. split_and!; [done|lia|lia]. }
  unfold LUA_ACQUIRE in *. unfold r_get in *. rewrite He in *.
  destruct (now <? x) eqn:Ex; boolprop; simpl in *.
  - destruct (now - v <? 0) eqn:E0; boolprop; simpl in *.
    + rewrite Hs. apply Hnew; lia.
    + destruct (i <=? now - v) eqn:E1; boolprop; simpl in *; rewrite Hs.
      * split; [lia|apply Hnew; lia].
      * exists v, x. done.
  - rewrite Hs. split; [lia|apply Hnew; lia].
Qed.

Lemma round_other domain other m i now t c :
  other ≠ domain → recent domain m t (store c) →
  recent domain m t (store (acquire_round other i now c).2).
Proof.
  intros Hne Hr. unfold acquire_round.
  destruct (evalsha_total (LUA_ACQUIRE (rate_key other) i (ttl_of i) now) c) as (c' & -> & Hs).
  assert (Hrec : recent domain m t (store c')).
  { rewrite Hs. unfold LUA_ACQUIRE. destruct Hr as (v & x & He & Hv & Hx).
    assert (Hset : ∀ tt vv, recent domain m t (r_setex (store c) now (rate_key other) tt vv)).
    { intros tt vv. exists v, x. unfold r_setex. rewrite entry_write, decide_False; [done|].
      by intros ?%rate_key_inj. }
    destruct (r_get _ _ _) as [[]|]; simpl; [|by exists v, x|apply Hset].
    destruct (_ <? 0); [apply Hset|]. destruct (i <=? _); simpl; [apply Hset|by exists v, x]. }
  destruct ((LUA_ACQUIRE (rate_key other) i (ttl_of i) now (store c)).1) as [[b z]|]; [by destruct b|done].
Qed.

Lemma calls_spaced domain m t calls c :
  0 < m → recent domain m t (store c) → in_order t calls →
  (∀ k, k ∈ calls → c_domain k = domain → m ≤ c_interval k) →
  ∀ t0, t0 ≤ t → recent domain m t0 (store c) →
  spaced (m - 50) t0 (play_calls domain calls c).
Proof.
  intros Hm Hr0 Ho Hall t0 Ht0 Hr. clear Hr0.
  revert t t0 c Ho Ht0 Hr. induction calls as [|k calls IH]; intros t t0 c Ho Ht0 Hr; [done|].
  destruct Ho as [Ht Ho].
  assert (Hall' : ∀ k0, k0 ∈ calls → c_domain k0 = domain → m ≤ c_interval k0).
  { intros k0 Hk0. apply Hall. by apply list_elem_of_further. }
  cbn [play_calls]. destruct (decide (c_domain k = domain)) as [Hd|Hd].
  - pose proof (round_same domain m (c_interval k) (c_now k) t0 c) as Hround.
    rewrite Hd. destruct (acquire_round domain _ _ c) as [r c'].
    assert (Hi : m ≤ c_interval k) by (apply Hall; [by apply list_elem_of_here|done]).
    specialize (Hround Hi Hm ltac:(lia) Hr). destruct r; simpl.
    + destruct Hround as [Hgap Hr']. split; [lia|].
      apply (IH Hall' (c_now k)); [done|lia|done].
    + apply (IH Hall' (c_now k)); [done|lia|done].
    + apply (IH Hall' (c_now k)); [done|lia|done].
  - pose proof (round_other domain (c_domain k) m (c_interval k) (c_now k) t0 c Hd Hr) as Hr'.
    destruct (acquire_round (c_domain k) _ _ c) as [r c']. simpl in Hr'.
    destruct r; simpl;
      apply (IH Hall' (c_now k)); (done || lia).
Qed.

(** Whatever callers share the limiter: if every caller of a domain asks for an
    interval of at least [m], two requests to the domain that are let through one after
    the other are at least [m] apart, up to the 50 microseconds that the stored
    timestamp may lose. Calls for other domains do not matter, nor do expired keys,
    since a key outlives the interval it was written for. *)
Theorem grants_are_spaced domain m calls c t :
  0 < m → r_entry (store c) (rate_key domain) = None → in_order t calls →
  (∀ k, k ∈ calls → c_domain k = domain → m ≤ c_interval k) →
  match play_calls domain calls c with
  | [] => True
  | u :: times => spaced (m - 50) u times
  end.
Proof.
  intros Hm. revert t c. induction calls as [|k calls IH]; intros t c Hnone Ho Hall; [done|].
  destruct Ho as [Ht Ho].
  assert (Hall' : ∀ k0, k0 ∈ calls → c_domain k0 = domain → m ≤ c_interval k0).
  { intros k0 Hk0. apply Hall. by apply list_elem_of_further. }
  cbn [play_calls]. destruct (decide (c_domain k = domain)) as [Hd|Hd].
  - assert (Hi : m ≤ c_interval k) by (apply Hall; [by apply list_elem_of_here|done]).
    unfold acquire_round. rewrite Hd.
    destruct (evalsha_total (LUA_ACQUIRE (rate_key domain) (c_interval k)
      (ttl_of (c_interval k)) (c_now k)) c) as (c' & -> & Hs).
    unfold LUA_ACQUIRE, r_get in *. rewrite Hnone in *. simpl in *.
    assert (Hr : recent domain m (c_now k) (store c')).
    { rewrite Hs. pose proof (lua_tostring_close (c_now k)).
      pose proof (ttl_covers (c_interval k) ltac:(lia)).
      exists (lua_tostring (c_now k)), (c_now k + ttl_of (c_interval k)). unfold r_setex.
      rewrite entry_write, decide_True by done. split_and!; [done|lia|lia]. }
    by apply (calls_spaced domain m (c_now k)).
  - assert (Hn' : r_entry (store (acquire_round (c_domain k) (c_interval k) (c_now k) c).2)
                    (rate_key domain) = None).
    { unfold acquire_round.
      destruct (evalsha_total (LUA_ACQUIRE (rate_key (c_domain k)) (c_interval k)
        (ttl_of (c_interval k)) (c_now k)) c) as (c' & -> & Hs).
      assert (Hc' : r_entry (store c') (rate_key domain) = None).
      { rewrite Hs. unfold LUA_ACQUIRE.
        assert (Hset : ∀ tt vv, r_entry (r_setex (store c) (c_now k) (rate_key (c_domain k)) tt vv)
                  (rate_key domain) = None).
        { intros tt vv. unfold r_setex. rewrite entry_write, decide_False; [done|].
          by intros ?%rate_key_inj. }
        destruct (r_get _ _ _) as [[]|]; simpl; [|done|apply Hset].
        destruct (_ <? 0); [apply Hset|]. destruct (_ <=? _); simpl; [apply Hset|done]. }
      destruct ((LUA_ACQUIRE _ _ _ _ (store c)).1) as [[b z]|]; [by destruct b|done]. }
    destruct (acquire_round (c_domain k) _ _ c) as [r c']. simpl in Hn'.
    destruct r; simpl; by apply (IH (c_now k)).
Qed.

(** A refused caller that nobody overtakes gets through after one sleep: when the
    clock did not go back, the wait it is told is long enough that its next round,
    any time after waking, is granted. *)
Theorem acquire_after_one_wait domain m now v x wake c :
  0 < m → r_entry (store c) (rate_key domain) = Some (Num v, Some x) →
  v ≤ now < v + m → now < x →
  (∀ t us, t + us ≤ wake t us) →
  ∃ us, (acquire_round domain m now c).1 = Wait us ∧ v + m ≤ now + us ∧
    (acquire 2 wake (λ _ s, s) domain m now c).1 = Some (wake now us).
Proof.
  intros Hm He Hv Hx Hwake.
  pose proof (ceil_div_spec (m - (now - v)) 1000 ltac:(lia)) as Hceil.
  set (us := wait_of m (ceil_div (m - (now - v)) 1000)).
  assert (Hus : v + m ≤ now + us) by (unfold us, wait_of; lia). exists us.
  assert (Hround : ∃ c', acquire_round domain m now c = (Wait us, c') ∧ store c' = store c).
  { unfold acquire_round.
    destruct (evalsha_total (LUA_ACQUIRE (rate_key domain) m (ttl_of m) now) c) as (c' & -> & Hs).
    unfold LUA_ACQUIRE, r_get in *. rewrite He in *.
    rewrite (proj2 (Z.ltb_lt now x)) in * by done. simpl in *.
    rewrite (proj2 (Z.ltb_ge (now - v) 0)), (proj2 (Z.leb_gt m (now - v))) in * by lia.
    simpl in *. eauto. }
  destruct Hround as (c' & Hr & Hs). rewrite Hr. split_and!; [done|done|].
  cbn [acquire]. rewrite (proj2 (Z.leb_gt m 0)) by done. rewrite Hr.
  unfold acquire_round.
  destruct (evalsha_total (LUA_ACQUIRE (rate_key domain) m (ttl_of m) (wake now us)) c')
    as (c2 & -> & _).
  pose proof (Hwake now us). unfold LUA_ACQUIRE, r_get. rewrite Hs, He.
  destruct (wake now us <? x) eqn:E; [|done].
  rewrite (proj2 (Z.ltb_ge _ 0)), (proj2 (Z.leb_le m _)) by lia. done.
Qed.
End limiter.

(** ** Concrete calls *)

Definition fresh : scripted GRedis := Build_scripted g_empty false false.
Definition sample_calls : list call :=
  [ {| c_domain := "a.test"; c_interval := 2000000; c_now := 1700000000000000 |};
    {| c_domain := "a.test"; c_interval := 2000000; c_now := 1700000001000000 |};
    {| c_domain := "a.test"; c_interval := 2000000; c_now := 1700000002000000 |} ].

Lemma grants_are_spaced_witness :
  spaced (2000000 - 50) 1700000000000000 [1700000002000000].
Proof.
  pose proof (grants_are_spaced "a.test" 2000000 sample_calls fresh 0) as H.
  assert (E : play_calls "a.test" sample_calls fresh = [1700000000000000; 1700000002000000])
    by (vm_compute; reflexivity).
  rewrite E in H. apply H; [lia|reflexivity|vm_compute; repeat split; discriminate|].
  intros k Hk _. unfold sample_calls in Hk.
  repeat (apply elem_of_cons in Hk as [->|Hk]; [simpl; lia|]). by apply elem_of_nil in Hk.
Defined.

Definition after_one : scripted GRedis :=
  (acquire_round "a.test" 2000000 1700000000000000 fresh).2.

Lemma acquire_after_one_wait_witness :
  ∃ us, (acquire 2 (λ t us, t + us) (λ _ s, s) "a.test" 2000000 1700000000500000 after_one).1
        = Some (1700000000500000 + us).
Proof.
  destruct (acquire_after_one_wait "a.test" 2000000 1700000000500000 1700000000000000
    1700000003000000 (λ t us, t + us) after_one) as (us & _ & _ & H);
    [lia|vm_compute; reflexivity|lia|lia|intros; lia|]. by exists us.
Defined.

(** A caller with a longer interval is not protected from one with a shorter interval:
    the short one's key expires first. Here a request with an interval of one second is
    followed, two seconds later, by one that asked for sixty. *)
Lemma long_interval_cut_short :
  play_calls "a.test"
    [ {| c_domain := "a.test"; c_interval := 1000000; c_now := 1700000000000000 |};
      {| c_domain := "a.test"; c_interval := 60000000; c_now := 1700000002000000 |} ] fresh
  = [1700000000000000; 1700000002000000].
Proof. vm_compute. reflexivity. Qed.
End RateLimiter.
