(* ===== verification/Sha256.v ===== *)
(** * SHA-256 of a string, as [hashlib.sha256(text.encode("utf-8")).hexdigest()]

    Python's standard library provides it; the store keeps the digest of every
    configuration next to its encrypted text. A string is its UTF-8 bytes here. The
    definition is FIPS 180-4 on 32-bit words kept in [Z]. *)

From S2P Require Import Prelude.
Open Scope Z_scope.

Module Sha256.

Definition w32 (x : Z) : Z := Z.land x 0xffffffff.
Definition rotr (n x : Z) : Z := Z.lor (Z.shiftr x n) (w32 (Z.shiftl x (32 - n))).

(** The constants are the first 32 fractional bits of roots of the first primes: cube roots
    for the rounds, square roots for the initial state. *)
Fixpoint primes (fuel : nat) (from : Z) (found : list Z) : list Z :=
  match fuel with
  | O => rev found
  | Datatypes.S fuel =>
      primes fuel (from + 1)
        (if forallb (λ p, negb (from mod p =? 0)) found then from :: found else found)
  end.

(** The largest number with the bits below [bit] whose [n]-th power is at most [x]. *)
Fixpoint root_bits (n : Z) (bits : nat) (x acc : Z) : Z :=
  match bits with
  | O => acc
  | Datatypes.S bits =>
      let acc' := acc + Z.shiftl 1 (Z.of_nat bits) in
      root_bits n bits x (if acc' ^ n <=? x then acc' else acc)
  end.
Definition frac_root (n p : Z) : Z := w32 (root_bits n 40 (Z.shiftl p (32 * n)) 0).

Definition K : list Z := Eval vm_compute in map (frac_root 3) (primes 310 2 []).
Definition H0 : list Z := Eval vm_compute in map (frac_root 2) (primes 18 2 []).

Definition byte_of (a : Ascii.ascii) : Z := Z.of_nat (Ascii.nat_of_ascii a).
Definition bytes_of (s : string) : list Z := map byte_of (String.list_ascii_of_string s).

(** The [n] bytes of a number, most significant first. *)
Fixpoint be_bytes (n : nat) (x : Z) : list Z :=
  match n with
  | O => []
  | Datatypes.S n => be_bytes n (Z.shiftr x 8) ++ [Z.land x 255]
  end.

(** A one bit, zeros up to 56 modulo 64, then the bit length in eight bytes. *)
Definition pad (m : list Z) : list Z :=
  let l := Z.of_nat (length m) in
  m ++ [0x80] ++ repeat 0 (Z.to_nat ((55 - l) mod 64)) ++ be_bytes 8 (8 * l).

Fixpoint words (l : list Z) : list Z :=
  match l with
  | a :: b :: c :: d :: l =>
      Z.lor (Z.lor (Z.shiftl a 24) (Z.shiftl b 16)) (Z.lor (Z.shiftl c 8) d) :: words l
  | _ => []
  end.

(** The message schedule, newest word first: [n] more words. *)
Fixpoint schedule (n : nat) (w : list Z) : list Z :=
  match n with
  | O => w
  | Datatypes.S n =>
      let g := λ i, nth i w 0 in
      let s0 := Z.lxor (Z.lxor (rotr 7 (g 14%nat)) (rotr 18 (g 14%nat))) (Z.shiftr (g 14%nat) 3) in
      let s1 := Z.lxor (Z.lxor (rotr 17 (g 1%nat)) (rotr 19 (g 1%nat))) (Z.shiftr (g 1%nat) 10) in
      schedule n (w32 (g 15%nat + s0 + g 6%nat + s1) :: w)
  end.

Definition round (st : list Z) (kw : Z * Z) : list Z :=
  match st with
  | [a; b; c; d; e; f; g; h] =>
      let S1 := Z.lxor (Z.lxor (rotr 6 e) (rotr 11 e)) (rotr 25 e) in
      let ch := Z.lxor (Z.land e f) (Z.land (Z.lxor e 0xffffffff) g) in
      let t1 := w32 (h + S1 + ch + kw.1 + kw.2) in
      let S0 := Z.lxor (Z.lxor (rotr 2 a) (rotr 13 a)) (rotr 22 a) in
      let maj := Z.lxor (Z.lxor (Z.land a b) (Z.land a c)) (Z.land b c) in
      [w32 (t1 + (S0 + maj)); a; b; c; w32 (d + t1); e; f; g]
  | _ => st
  end.

Definition compress (st block : list Z) : list Z :=
  let w := rev (schedule 48 (rev block)) in
  zip_with (λ x y, w32 (x + y)) st (foldl round st (zip K w)).

Fixpoint blocks (fuel : nat) (ws st : list Z) : list Z :=
  match fuel, ws with
  | Datatypes.S fuel, _ :: _ => blocks fuel (drop 16 ws) (compress st (take 16 ws))
  | _, _ => st
  end.

Definition hex_digit (x : Z) : Ascii.ascii :=
  Ascii.ascii_of_nat (Z.to_nat (if x <? 10 then 48 + x else 87 + x)).
Definition hex_byte (x : Z) : list Ascii.ascii :=
  [hex_digit (Z.shiftr x 4); hex_digit (Z.land x 15)].

Definition sha256_hex (s : string) : string :=
  let ws := words (pad (bytes_of s)) in
  let st := blocks (length ws) ws H0 in
  String.string_of_list_ascii (flat_map hex_byte (flat_map (be_bytes 4) st)).

Example sha256_empty :
  sha256_hex "" = "e3b0c44298fc1c149afbf4c8996fb92427ae41e4649b934ca495991b7852b855".
Proof. vm_compute. reflexivity. Qed.

Example sha256_abc :
  sha256_hex "abc" = "ba7816bf8f01cfea414140de5dae2223b00361a396177a9cb410ff61f20015ad".
Proof. vm_compute. reflexivity. Qed.

Example sha256_two_blocks :
  sha256_hex "abcdbcdecdefdefgefghfghighijhijkijkljklmklmnlmnomnopnopq"
  = "248d6a61d20638b8e5c026930c3e6039a33ce45964ff2167f6ecedd419db06c1".
Proof. vm_compute. reflexivity. Qed.
End Sha256.
