(* ===== verification/Envelope.v ===== *)
(** * Encryption of stored secrets ([storage/secret_envelope.py])

    A stored secret is [syenc:v1:<key id>:<base64 of nonce and ciphertext>]. AES-GCM
    itself ([cryptography]'s [AESGCM]) is a parameter with its documented laws; the
    format, base64, the keyring and its rotation are the definitions of this file.

    [Vault] is the interface the stores are verified against: text that was protected
    for a purpose reveals to itself under the same purpose. [keyring_vault] discharges it. *)

From S2P Require Import Prelude.
From S2P Require Import Sha256.
Open Scope Z_scope.

(** The randomness of one operation: twelve bytes for each purpose it protects. *)
Record entropy := {
  urandom : string → string;
  urandom_length p : String.length (urandom p) = 12%nat;
}.

Class Vault := {
  protect_text : entropy → string → string → string;   (** randomness, purpose, plaintext *)
  reveal_text : string → string → option string;        (** purpose, stored value *)
  reveal_protect u purpose p : reveal_text purpose (protect_text u purpose p) = Some p;
}.

Module Envelope.
Import Sha256.

(** ** Bytes and base64 ([base64.urlsafe_b64encode], [b64decode(validate=True)]) *)

Definition str_of_bytes (l : list Z) : string :=
  String.string_of_list_ascii (map (λ x, Ascii.ascii_of_nat (Z.to_nat x)) l).
Definition is_byte (x : Z) : Prop := 0 ≤ x < 256.

Lemma byte_of_range a : is_byte (byte_of a).
Proof. unfold is_byte, byte_of. pose proof (Ascii.nat_ascii_bounded a). lia. Qed.

Lemma str_bytes s : str_of_bytes (bytes_of s) = s.
Proof.
  unfold str_of_bytes, bytes_of. rewrite map_map.
  rewrite (map_ext _ (λ a, a)), map_id; [apply String.string_of_list_ascii_of_string|].
  intros a. unfold byte_of. rewrite Nat2Z.id. apply Ascii.ascii_nat_embedding.
Qed.

Lemma bytes_str l : Forall is_byte l → bytes_of (str_of_bytes l) = l.
Proof.
  unfold str_of_bytes, bytes_of. rewrite String.list_ascii_of_string_of_list_ascii, map_map.
  induction 1 as [|x l Hx Hl IH]; simpl; [done|]. f_equal; [|done].
  unfold byte_of, is_byte in *. rewrite Ascii.nat_ascii_embedding by lia. lia.
Qed.

Lemma bytes_range s : Forall is_byte (bytes_of s).
Proof. apply Forall_map, Forall_forall. intros a _. apply byte_of_range. Qed.

Lemma bytes_length s : length (bytes_of s) = String.length s.
Proof.
  unfold bytes_of. rewrite length_map. induction s as [|a s IH]; [done|].
  cbn. by rewrite IH.
Qed.

(** The character of a value below 64 and back; decoding maps [-] and [_] onto [+] and
    [/] first, so it takes both alphabets. *)
Definition sextet_char (x : Z) : Z :=
  if x <? 26 then 65 + x else if x <? 52 then 71 + x else if x <? 62 then x - 4
  else if x =? 62 then 45 else 95.
Definition char_sextet (c : Z) : option Z :=
  if (65 <=? c) && (c <=? 90) then Some (c - 65)
  else if (97 <=? c) && (c <=? 122) then Some (c - 71)
  else if (48 <=? c) && (c <=? 57) then Some (c + 4)
  else if (c =? 45) || (c =? 43) then Some 62
  else if (c =? 95) || (c =? 47) then Some 63
  else None.
Definition pad_char : Z := 61.

Fixpoint b64encode (l : list Z) : list Z :=
  match l with
  | a :: b :: c :: l =>
      sextet_char (a / 4) :: sextet_char (a mod 4 * 16 + b / 16) ::
      sextet_char (b mod 16 * 4 + c / 64) :: sextet_char (c mod 64) :: b64encode l
  | [a; b] =>
      [sextet_char (a / 4); sextet_char (a mod 4 * 16 + b / 16); sextet_char (b mod 16 * 4);
       pad_char]
  | [a] => [sextet_char (a / 4); sextet_char (a mod 4 * 16); pad_char; pad_char]
  | [] => []
  end.

Fixpoint b64decode (l : list Z) : option (list Z) :=
  match l with
  | [] => Some []
  | p :: q :: r :: s :: l =>
      match char_sextet p, char_sextet q with
      | Some x, Some y =>
          if s =? pad_char then
            match l with
            | [] =>
                if r =? pad_char then Some [x * 4 + y / 16]
                else match char_sextet r with
                     | Some z => Some [x * 4 + y / 16; y mod 16 * 16 + z / 4]
                     | None => None
                     end
            | _ => None
            end
          else
            match char_sextet r, char_sextet s, b64decode l with
            | Some z, Some w, Some rest =>
                Some (x * 4 + y / 16 :: y mod 16 * 16 + z / 4 :: z mod 4 * 64 + w :: rest)
            | _, _, _ => None
            end
      | _, _ => None
      end
  | _ => None
  end.

Lemma sextet_roundtrip x : 0 ≤ x < 64 → char_sextet (sextet_char x) = Some x ∧ sextet_char x ≠ pad_char.
Proof.
  intros Hx. unfold char_sextet, sextet_char, pad_char.
  destruct (x <? 26) eqn:E1; [|destruct (x <? 52) eqn:E2; [|destruct (x <? 62) eqn:E3;
    [|destruct (x =? 62) eqn:E4]]]; boolprop.
  - rewrite (proj2 (Z.leb_le 65 _)), (proj2 (Z.leb_le _ 90)) by lia. simpl. split; [f_equal; lia|lia].
  - rewrite (proj2 (Z.leb_le 65 _)), (proj2 (Z.leb_gt _ 90)) by lia. simpl.
    rewrite (proj2 (Z.leb_le 97 _)), (proj2 (Z.leb_le _ 122)) by lia. simpl. split; [f_equal; lia|lia].
  - rewrite (proj2 (Z.leb_gt 65 _)) by lia. simpl. rewrite (proj2 (Z.leb_gt 97 _)) by lia. simpl.
    rewrite (proj2 (Z.leb_le 48 _)), (proj2 (Z.leb_le _ 57)) by lia. simpl. split; [f_equal; lia|lia].
  - subst. done.
  - assert (x = 63) as -> by lia. done.
Qed.

Lemma b64_roundtrip_aux n l : (length l < n)%nat → Forall is_byte l → b64decode (b64encode l) = Some l.
Proof.
  revert l. induction n as [|n IH]; intros l Hn Hl; [lia|].
  unfold is_byte in Hl.
  destruct l as [|a [|b [|c l]]].
  - done.
  - apply Forall_cons in Hl as [Ha _]. cbn [b64encode b64decode].
    destruct (sextet_roundtrip (a / 4)) as [-> _]; [Z.div_mod_to_equations; lia|].
    destruct (sextet_roundtrip (a mod 4 * 16)) as [-> _]; [Z.div_mod_to_equations; lia|].
    simpl. do 2 f_equal. Z.div_mod_to_equations; lia.
  - apply Forall_cons in Hl as [Ha [Hb _]%Forall_cons]. cbn [b64encode b64decode].
    destruct (sextet_roundtrip (a / 4)) as [-> _]; [Z.div_mod_to_equations; lia|].
    destruct (sextet_roundtrip (a mod 4 * 16 + b / 16)) as [-> _]; [Z.div_mod_to_equations; lia|].
    destruct (sextet_roundtrip (b mod 16 * 4)) as [-> Hne]; [Z.div_mod_to_equations; lia|].
    rewrite Z.eqb_refl, (proj2 (Z.eqb_neq _ _) Hne).
    do 2 f_equal; [|f_equal]; Z.div_mod_to_equations; lia.
  - apply Forall_cons in Hl as [Ha [Hb [Hc Hl]%Forall_cons]%Forall_cons].
    cbn [b64encode b64decode].
    destruct (sextet_roundtrip (a / 4)) as [-> _]; [Z.div_mod_to_equations; lia|].
    destruct (sextet_roundtrip (a mod 4 * 16 + b / 16)) as [-> _]; [Z.div_mod_to_equations; lia|].
    destruct (sextet_roundtrip (b mod 16 * 4 + c / 64)) as [-> _]; [Z.div_mod_to_equations; lia|].
    destruct (sextet_roundtrip (c mod 64)) as [-> Hne]; [Z.div_mod_to_equations; lia|].
    rewrite (proj2 (Z.eqb_neq _ _) Hne), (IH l); [|simpl in Hn; lia|done].
    do 2 f_equal; [|f_equal; [|f_equal]]; Z.div_mod_to_equations; lia.
Qed.

Lemma b64_roundtrip l : Forall is_byte l → b64decode (b64encode l) = Some l.
Proof. apply (b64_roundtrip_aux (Datatypes.S (length l))). lia. Qed.

Example b64_sample : str_of_bytes (b64encode (bytes_of "foo?~b")) = "Zm9vP35i".
Proof. vm_compute. reflexivity. Qed.

(** ** The envelope *)

Definition _PREFIX : string := "syenc:v1:".
Definition colon : Ascii.ascii := Ascii.ascii_of_nat 58.

Fixpoint strip_prefix (p s : string) : option string :=
  match p, s with
  | EmptyString, s => Some s
  | String a p, String b s => if Ascii.eqb a b then strip_prefix p s else None
  | _, _ => None
  end.

(** The text before and after the first colon. *)
Fixpoint split_colon (s : string) : option (string * string) :=
  match s with
  | EmptyString => None
  | String a s =>
      if Ascii.eqb a colon then Some (EmptyString, s)
      else match split_colon s with
           | Some (x, y) => Some (String a x, y)
           | None => None
           end
  end.

Lemma strip_prefix_app p s : strip_prefix p (p +:+ s) = Some s.
Proof.
  induction p as [|a p IH]; [done|].
  change (strip_prefix (String a p) (String a p +:+ s)) with
    (if Ascii.eqb a a then strip_prefix p (p +:+ s) else None).
  by rewrite Ascii.eqb_refl.
Qed.

Lemma split_colon_app a b : str_free colon a = true → split_colon (a +:+ String colon b) = Some (a, b).
Proof.
  induction a as [|x a IH]; [done|]. cbn [str_free]. intros H. boolprop.
  change (split_colon (String x a +:+ String colon b)) with
    (if Ascii.eqb x colon then Some (EmptyString, a +:+ String colon b)
     else match split_colon (a +:+ String colon b) with
          | Some (y, z) => Some (String x y, z) | None => None end).
  by rewrite H, IH.
Qed.

(** [envelope_key_id]: legacy plaintext, an envelope's key and token, or a malformed
    envelope, which raises. *)
Inductive envelope_form := Plaintext | KeyId (id token : string) | Malformed.

Definition envelope_key_id (value : string) : envelope_form :=
  match strip_prefix _PREFIX value with
  | None => Plaintext
  | Some rest =>
      match split_colon rest with
      | Some (id, token) =>
          if bool_decide (id = "") || bool_decide (token = "") then Malformed else KeyId id token
      | None => Malformed
      end
  end.

Record EncryptionKeyring := {
  keys : gmap string string;
  active_key_id : string;
}.

(** ** Reading the keyring from the settings *)

(** [^[A-Za-z0-9][A-Za-z0-9._-]{0,63}$] *)
Definition alnum (c : Z) : bool :=
  ((65 <=? c) && (c <=? 90)) || ((97 <=? c) && (c <=? 122)) || ((48 <=? c) && (c <=? 57)).
Definition _KEY_ID_RE (id : string) : bool :=
  match bytes_of id with
  | [] => false
  | c :: l => alnum c && forallb (λ c, alnum c || (c =? 46) || (c =? 95) || (c =? 45)) l &&
              (length l <=? 63)%nat
  end.

(** A parsed JSON value of the settings' object, as far as the code looks at it. *)
Inductive json_key := KeyText (encoded : string) | KeyOther.

Inductive keyring_error :=
| ConfiguredTogether | NotAnObject | UnsafeKeyId | NotText | NotBase64 (id : string)
| WrongLength (id : string) | ActiveAbsent.

Fixpoint read_keys (parsed : list (string * json_key)) (keys : gmap string string) :
    outcome keyring_error (gmap string string) :=
  match parsed with
  | [] => Ok keys
  | (id, v) :: parsed =>
      if negb (_KEY_ID_RE id) then Raise UnsafeKeyId
      else match v with
           | KeyOther => Raise NotText
           | KeyText encoded =>
               match b64decode (bytes_of encoded) with
               | None => Raise (NotBase64 id)
               | Some key =>
                   if (length key =? 32)%nat
                   then read_keys parsed (<[id := str_of_bytes key]> keys)
                   else Raise (WrongLength id)
               end
           end
  end.

(** [from_settings], after [json.loads]: [parsed] is [None] when the text was not a
    JSON object with members. [Ok None] is an unconfigured, optional keyring. *)
Definition from_settings (raw_empty : bool) (active : string)
    (parsed : option (list (string * json_key))) (required : bool) :
    outcome keyring_error (option EncryptionKeyring) :=
  let no_active := bool_decide (active = "") in
  if raw_empty && no_active && negb required then Ok None
  else if raw_empty || no_active then Raise ConfiguredTogether
  else match parsed with
       | None | Some [] => Raise NotAnObject
       | Some parsed =>
           match read_keys parsed ∅ with
           | Raise e => Raise e
           | Ok ks =>
               if bool_decide (is_Some (ks !! active))
               then Ok (Some {| keys := ks; active_key_id := active |})
               else Raise ActiveAbsent
           end
       end.

Definition keyring_ok (k : EncryptionKeyring) : Prop :=
  is_Some (keys k !! active_key_id k) ∧
  ∀ id key, keys k !! id = Some key → _KEY_ID_RE id = true ∧ String.length key = 32%nat.

Section keyring.
(** AES-GCM: key, nonce, text, associated data. *)
Context (aes_encrypt : string → string → string → string → string).
Context (aes_decrypt : string → string → string → string → option string).

Definition protect (k : EncryptionKeyring) (nonce plaintext purpose : string) : string :=
  let key := default "" (keys k !! active_key_id k) in
  let token := b64encode (bytes_of (nonce +:+ aes_encrypt key nonce plaintext purpose)) in
  _PREFIX +:+ active_key_id k +:+ String colon (str_of_bytes token).

(** [None] is [SecretDecryptionError]. *)
Definition reveal (k : EncryptionKeyring) (value purpose : string) : option string :=
  match envelope_key_id value with
  | Plaintext => Some value
  | Malformed => None
  | KeyId id token =>
      match keys k !! id with
      | None => None
      | Some key =>
          match b64decode (bytes_of token) with
          | None => None
          | Some combined =>
              if (length combined <? 12 + 16)%nat then None
              else aes_decrypt key (str_of_bytes (take 12 combined))
                     (str_of_bytes (drop 12 combined)) purpose
          end
      end
  end.

(** What [cryptography] documents: decryption inverts encryption under the same key,
    nonce and associated data, and a ciphertext carries a tag of 16 bytes. *)
Hypothesis aes_inverse : ∀ key nonce p aad,
  aes_decrypt key nonce (aes_encrypt key nonce p aad) aad = Some p.
Hypothesis aes_length : ∀ key nonce p aad,
  String.length (aes_encrypt key nonce p aad) = (String.length p + 16)%nat.

Lemma key_id_plain id : _KEY_ID_RE id = true → str_free colon id = true ∧ id ≠ "".
Proof.
  intros Hid. split; [|by intros ->].
  assert (Hall : Forall (λ c, c ≠ 58) (bytes_of id)).
  { unfold _KEY_ID_RE in Hid. destruct (bytes_of id) as [|c l]; [done|].
    apply andb_true_iff in Hid as [[Hc Hl]%andb_true_iff _].
    assert (Hal : ∀ x, alnum x = true → x ≠ 58).
    { intros x Hx ->. done. }
    apply Forall_cons. split; [by apply Hal|]. apply Forall_forall. intros x Hx.
    rewrite forallb_elem in Hl. specialize (Hl x Hx). apply orb_true_iff in Hl as [Hl|Hl];
      [apply orb_true_iff in Hl as [Hl|Hl]; [apply orb_true_iff in Hl as [Hl|Hl]|]|];
      [by apply Hal|boolprop; lia..]. }
  clear Hid. induction id as [|a id IH]; [done|].
  unfold bytes_of in Hall. apply Forall_cons in Hall as [Ha Hall].
  cbn [str_free]. rewrite (IH Hall), andb_true_r. apply negb_true_iff.
  destruct (Ascii.eqb a colon) eqn:E; [|done]. apply Ascii.eqb_eq in E as ->. done.
Qed.

Lemma b64encode_nil l : b64encode l = [] → l = [].
Proof. by destruct l as [|a [|b [|c l]]]. Qed.

Lemma b64encode_bytes n l : (length l < n)%nat → Forall is_byte l → Forall is_byte (b64encode l).
Proof.
  assert (Hs : ∀ x, is_byte (sextet_char x) ∨ x < 0 ∨ 64 ≤ x).
  { intros x. unfold is_byte, sextet_char. destruct (Z.lt_ge_cases x 0); [lia|].
    destruct (Z.lt_ge_cases x 64); [|lia]. left. repeat case_match; boolprop; lia. }
  assert (Hs' : ∀ x, 0 ≤ x < 64 → is_byte (sextet_char x)).
  { intros x Hx. destruct (Hs x) as [|[|]]; [done|lia|lia]. }
  clear Hs. revert l. induction n as [|n IH]; intros l Hn Hl; [lia|].
  assert (Hp : is_byte pad_char) by by vm_compute.
  destruct l as [|a [|b [|c l]]]; unfold is_byte in Hl at 1; cbn [b64encode].
  - done.
  - apply Forall_cons in Hl as [Ha _].
    repeat (apply Forall_cons; split); try done; apply Hs'; Z.div_mod_to_equations; lia.
  - apply Forall_cons in Hl as [Ha [Hb _]%Forall_cons].
    repeat (apply Forall_cons; split); try done; apply Hs'; Z.div_mod_to_equations; lia.
  - apply Forall_cons in Hl as [Ha [Hb [Hc Hl]%Forall_cons]%Forall_cons].
    repeat (apply Forall_cons; split); try (apply Hs'; Z.div_mod_to_equations; lia).
    apply IH; [simpl in Hn; lia|done].
Qed.

Lemma bytes_app a b : bytes_of (a +:+ b) = bytes_of a ++ bytes_of b.
Proof.
  unfold bytes_of. induction a as [|x a IH]; [done|].
  change (String.list_ascii_of_string (String x a +:+ b)) with
    (x :: String.list_ascii_of_string (a +:+ b)).
  cbn. by rewrite IH.
Qed.

Lemma reveal_protect_later k later nonce plaintext purpose :
  keyring_ok k → String.length nonce = 12%nat →
  keys later !! active_key_id k = keys k !! active_key_id k →
  reveal later (protect k nonce plaintext purpose) purpose = Some plaintext.
Proof.
  intros [[key Hkey] Hsafe] Hn Hlater. rewrite Hkey in Hlater.
  destruct (key_id_plain (active_key_id k)) as [Hplain Hne]; [by eapply Hsafe|].
  unfold reveal, protect, envelope_key_id.
  rewrite strip_prefix_app, split_colon_app by done.
  rewrite Hkey. simpl. set (c := nonce +:+ aes_encrypt key nonce plaintext purpose).
  assert (Hc : bytes_of c = bytes_of nonce ++ bytes_of (aes_encrypt key nonce plaintext purpose))
    by apply bytes_app.
  assert (Hlen : length (bytes_of nonce) = 12%nat) by by rewrite bytes_length.
  assert (Htok : bytes_of (str_of_bytes (b64encode (bytes_of c))) = b64encode (bytes_of c)).
  { apply bytes_str. apply (b64encode_bytes (Datatypes.S (length (bytes_of c)))); [lia|apply bytes_range]. }
  rewrite (bool_decide_false (active_key_id k = "")) by done.
  rewrite (bool_decide_false (str_of_bytes (b64encode (bytes_of c)) = "")).
  2:{ intros E. rewrite E in Htok. change (bytes_of "") with (@nil Z) in Htok.
      symmetry in Htok. apply b64encode_nil in Htok. rewrite Hc in Htok.
      by destruct (bytes_of nonce). }
  simpl. rewrite Hlater, Htok, b64_roundtrip by apply bytes_range.
  rewrite (proj2 (Nat.ltb_ge _ _)).
  2:{ rewrite Hc, length_app, !bytes_length, aes_length. lia. }
  rewrite Hc, take_app_length', drop_app_length' by done.
  rewrite !str_bytes. apply aes_inverse.
Qed.

(** A secret protected with the active key is read back by every later keyring
    that still holds that key, whichever key is active then; keys can be rotated without
    losing stored secrets. *)
Theorem reveal_protect_rotated k later nonce plaintext purpose :
  keyring_ok k → String.length nonce = 12%nat →
  keys later !! active_key_id k = keys k !! active_key_id k →
  reveal later (protect k nonce plaintext purpose) purpose = Some plaintext.
Proof. apply reveal_protect_later. Qed.

(** Values written before encryption are read as they are. *)
Lemma reveal_legacy k value purpose :
  strip_prefix _PREFIX value = None → reveal k value purpose = Some value.
Proof. unfold reveal, envelope_key_id. by intros ->. Qed.

(** Whatever the settings yield is a usable keyring. *)
Lemma read_keys_safe parsed ks ks' :
  read_keys parsed ks = Ok ks' →
  (∀ id key, ks !! id = Some key → _KEY_ID_RE id = true ∧ String.length key = 32%nat) →
  ∀ id key, ks' !! id = Some key → _KEY_ID_RE id = true ∧ String.length key = 32%nat.
Proof.
  revert ks. induction parsed as [|[id v] parsed IH]; intros ks; simpl; [by intros [= <-]|].
  destruct (_KEY_ID_RE id) eqn:Hid; [|done]. simpl. destruct v as [encoded|]; [|done].
  destruct (b64decode (bytes_of encoded)) as [key|]; [|done].
  destruct (length key =? 32)%nat eqn:Hl; [|done]. apply Nat.eqb_eq in Hl.
  intros H Hks. apply (IH _ H). intros id' key' Hk. apply lookup_insert_Some in Hk as [[<- <-]|[_ Hk]].
  - split; [done|]. unfold str_of_bytes. rewrite <- Hl, <- (length_map (λ x, Ascii.ascii_of_nat (Z.to_nat x))).
    clear. induction (map _ key) as [|a l IH]; [done|]. cbn. by rewrite IH.
  - by apply Hks.
Qed.

Lemma settings_keyring_ok raw_empty active parsed required k :
  from_settings raw_empty active parsed required = Ok (Some k) → keyring_ok k.
Proof.
  unfold from_settings. destruct (_ && _ && _); [done|]. destruct (_ || _); [done|].
  destruct parsed as [[|p parsed]|]; [done| |done].
  destruct (read_keys (p :: parsed) ∅) as [ks|] eqn:Hr; [|done].
  destruct (bool_decide (is_Some (ks !! active))) eqn:Ha; [|done]. boolprop.
  intros [= <-]. split; [done|]. simpl. by apply (read_keys_safe _ _ _ Hr).
Qed.

(** The vault of a keyring. *)
Definition keyring_vault (k : EncryptionKeyring) (Hk : keyring_ok k) : Vault := {|
  protect_text u purpose p := protect k (urandom u purpose) p purpose;
  reveal_text purpose value := reveal k value purpose;
  reveal_protect u purpose p :=
    reveal_protect_later k k _ p purpose Hk (urandom_length u purpose) eq_refl;
|}.

End keyring.

(** ** A concrete keyring, with a cipher that only adds a tag *)

Definition tag : string := "0123456789abcdef".
Definition toy_encrypt (key nonce p aad : string) : string := tag +:+ p.
Definition toy_decrypt (key nonce c aad : string) : option string := strip_prefix tag c.

Lemma toy_inverse key nonce p aad : toy_decrypt key nonce (toy_encrypt key nonce p aad) aad = Some p.
Proof. apply strip_prefix_app. Qed.

Lemma toy_length key nonce p aad :
  String.length (toy_encrypt key nonce p aad) = (String.length p + 16)%nat.
Proof. unfold toy_encrypt. rewrite str_length_app. cbn. lia. Qed.

Definition sample_key : string := "0123456789abcdef0123456789abcdef".
Definition sample_keyring : EncryptionKeyring :=
  {| keys := {[ "k1" := sample_key ]}; active_key_id := "k1" |}.
Definition rotated_keyring : EncryptionKeyring :=
  {| keys := {[ "k1" := sample_key; "k2" := sample_key ]}; active_key_id := "k2" |}.

Lemma sample_keyring_ok : keyring_ok sample_keyring.
Proof.
  split; [vm_compute; eauto|]. intros id key. simpl.
  intros [<- <-]%lookup_singleton_Some. vm_compute. done.
Qed.

Lemma reveal_protect_rotated_witness :
  reveal toy_decrypt rotated_keyring
    (protect toy_encrypt sample_keyring "123456789012" "project: demo" "jobs.config_yaml:j1")
    "jobs.config_yaml:j1" = Some "project: demo".
Proof.
  apply (reveal_protect_rotated toy_encrypt toy_decrypt toy_inverse toy_length sample_keyring);
    [apply sample_keyring_ok|reflexivity|reflexivity].
Defined.

(** The vault the other files' witnesses run on. *)
Definition toy_vault : Vault :=
  keyring_vault toy_encrypt toy_decrypt toy_inverse toy_length sample_keyring sample_keyring_ok.
Program Definition toy_entropy : entropy := {| urandom p := "123456789012" |}.
Next Obligation. done. Qed.
End Envelope.
