(* ===== verification/Rows.v ===== *)
(** * The data of the job database ([models/job.py], [storage/types.py], [sql/*.sql])

    One record per table, keyed as the table is: [jobs], [job_runs],
    [queued_run_snapshots], [scrape_idempotency], [webhook_deliveries]. A nullable column
    is an option. A timestamp is the number of microseconds since the epoch (UTC); the
    columns hold its ISO text, whose order is the order of the numbers. [set_x] replaces
    one column of a row, as an UPDATE does. *)

From S2P Require Import Prelude.
Open Scope Z_scope.

Inductive JobStatus := queued | running | complete | partial | failed | cancelled | deleting.
#[export] Instance JobStatus_eq_dec : EqDecision JobStatus.
Proof. solve_decision. Defined.

Module Delivery.
Inductive WebhookDeliveryStatus := pending | delivered | failed.
#[export] Instance WebhookDeliveryStatus_eq_dec : EqDecision WebhookDeliveryStatus.
Proof. solve_decision. Defined.
End Delivery.
Export (hints) Delivery.

Inductive WebhookFailureReason :=
| attempt_exhausted | age_exhausted | permanent_http_response | unsafe_url
| non_retryable_failure | decode_failure.
#[export] Instance WebhookFailureReason_eq_dec : EqDecision WebhookFailureReason.
Proof. solve_decision. Defined.

(** The values the enumerations are stored as. *)
Definition status_value (s : JobStatus) : string :=
  match s with
  | queued => "queued" | running => "running" | complete => "complete"
  | partial => "partial" | failed => "failed" | cancelled => "cancelled"
  | deleting => "deleting"
  end.

Lemma status_value_inj a b : status_value a = status_value b → a = b.
Proof. by destruct a, b. Qed.

(** [TERMINAL_RUN_STATUSES] *)
Definition TERMINAL_RUN_STATUSES : list JobStatus := [complete; partial; failed].
Definition is_terminal (s : JobStatus) : bool := bool_decide (s ∈ TERMINAL_RUN_STATUSES).

Lemma is_terminal_true s : is_terminal s = true ↔ s = complete ∨ s = partial ∨ s = failed.
Proof. unfold is_terminal. rewrite bool_decide_eq_true. by destruct s; set_solver. Qed.

(** One row of [jobs], without its primary key [job_id]. *)
Record JobRow := {
  j_project : string;
  j_name : string;
  j_status : JobStatus;
  j_config_yaml : string;
  j_config_hash : string;
  j_created_at : Z;
  j_updated_at : option Z;
  j_schedule_cron : option string;
  j_schedule_timezone : string;
  j_schedule_enabled : bool;
  j_current_run_id : option string;
  j_current_trigger : option string;
  j_deletion_requested_at : option Z;
  j_delete_results_on_delete : option bool;
  j_schedule_failure_at : option Z;
  j_schedule_failure_code : option string;
  j_schedule_consecutive_failures : Z;
  j_lifetime_run_count : Z;
  j_last_run_at : option Z;
}.

Definition set_j_project (v : string) (r : JobRow) : JobRow :=
  {| j_project := v; j_name := j_name r; j_status := j_status r;
     j_config_yaml := j_config_yaml r; j_config_hash := j_config_hash r;
     j_created_at := j_created_at r; j_updated_at := j_updated_at r;
     j_schedule_cron := j_schedule_cron r; j_schedule_timezone := j_schedule_timezone r;
     j_schedule_enabled := j_schedule_enabled r; j_current_run_id := j_current_run_id r;
     j_current_trigger := j_current_trigger r;
     j_deletion_requested_at := j_deletion_requested_at r;
     j_delete_results_on_delete := j_delete_results_on_delete r;
     j_schedule_failure_at := j_schedule_failure_at r;
     j_schedule_failure_code := j_schedule_failure_code r;
     j_schedule_consecutive_failures := j_schedule_consecutive_failures r;
     j_lifetime_run_count := j_lifetime_run_count r; j_last_run_at := j_last_run_at r |}.
Definition set_j_name (v : string) (r : JobRow) : JobRow :=
  {| j_project := j_project r; j_name := v; j_status := j_status r;
     j_config_yaml := j_config_yaml r; j_config_hash := j_config_hash r;
     j_created_at := j_created_at r; j_updated_at := j_updated_at r;
     j_schedule_cron := j_schedule_cron r; j_schedule_timezone := j_schedule_timezone r;
     j_schedule_enabled := j_schedule_enabled r; j_current_run_id := j_current_run_id r;
     j_current_trigger := j_current_trigger r;
     j_deletion_requested_at := j_deletion_requested_at r;
     j_delete_results_on_delete := j_delete_results_on_delete r;
     j_schedule_failure_at := j_schedule_failure_at r;
     j_schedule_failure_code := j_schedule_failure_code r;
     j_schedule_consecutive_failures := j_schedule_consecutive_failures r;
     j_lifetime_run_count := j_lifetime_run_count r; j_last_run_at := j_last_run_at r |}.
Definition set_j_status (v : JobStatus) (r : JobRow) : JobRow :=
  {| j_project := j_project r; j_name := j_name r; j_status := v;
     j_config_yaml := j_config_yaml r; j_config_hash := j_config_hash r;
     j_created_at := j_created_at r; j_updated_at := j_updated_at r;
     j_schedule_cron := j_schedule_cron r; j_schedule_timezone := j_schedule_timezone r;
     j_schedule_enabled := j_schedule_enabled r; j_current_run_id := j_current_run_id r;
     j_current_trigger := j_current_trigger r;
     j_deletion_requested_at := j_deletion_requested_at r;
     j_delete_results_on_delete := j_delete_results_on_delete r;
     j_schedule_failure_at := j_schedule_failure_at r;
     j_schedule_failure_code := j_schedule_failure_code r;
     j_schedule_consecutive_failures := j_schedule_consecutive_failures r;
     j_lifetime_run_count := j_lifetime_run_count r; j_last_run_at := j_last_run_at r |}.
Definition set_j_config_yaml (v : string) (r : JobRow) : JobRow :=
  {| j_project := j_project r; j_name := j_name r; j_status := j_status r; j_config_yaml := v;
     j_config_hash := j_config_hash r; j_created_at := j_created_at r;
     j_updated_at := j_updated_at r; j_schedule_cron := j_schedule_cron r;
     j_schedule_timezone := j_schedule_timezone r; j_schedule_enabled := j_schedule_enabled r;
     j_current_run_id := j_current_run_id r; j_current_trigger := j_current_trigger r;
     j_deletion_requested_at := j_deletion_requested_at r;
     j_delete_results_on_delete := j_delete_results_on_delete r;
     j_schedule_failure_at := j_schedule_failure_at r;
     j_schedule_failure_code := j_schedule_failure_code r;
     j_schedule_consecutive_failures := j_schedule_consecutive_failures r;
     j_lifetime_run_count := j_lifetime_run_count r; j_last_run_at := j_last_run_at r |}.
Definition set_j_config_hash (v : string) (r : JobRow) : JobRow :=
  {| j_project := j_project r; j_name := j_name r; j_status := j_status r;
     j_config_yaml := j_config_yaml r; j_config_hash := v; j_created_at := j_created_at r;
     j_updated_at := j_updated_at r; j_schedule_cron := j_schedule_cron r;
     j_schedule_timezone := j_schedule_timezone r; j_schedule_enabled := j_schedule_enabled r;
     j_current_run_id := j_current_run_id r; j_current_trigger := j_current_trigger r;
     j_deletion_requested_at := j_deletion_requested_at r;
     j_delete_results_on_delete := j_delete_results_on_delete r;
     j_schedule_failure_at := j_schedule_failure_at r;
     j_schedule_failure_code := j_schedule_failure_code r;
     j_schedule_consecutive_failures := j_schedule_consecutive_failures r;
     j_lifetime_run_count := j_lifetime_run_count r; j_last_run_at := j_last_run_at r |}.
Definition set_j_updated_at (v : option Z) (r : JobRow) : JobRow :=
  {| j_project := j_project r; j_name := j_name r; j_status := j_status r;
     j_config_yaml := j_config_yaml r; j_config_hash := j_config_hash r;
     j_created_at := j_created_at r; j_updated_at := v; j_schedule_cron := j_schedule_cron r;
     j_schedule_timezone := j_schedule_timezone r; j_schedule_enabled := j_schedule_enabled r;
     j_current_run_id := j_current_run_id r; j_current_trigger := j_current_trigger r;
     j_deletion_requested_at := j_deletion_requested_at r;
     j_delete_results_on_delete := j_delete_results_on_delete r;
     j_schedule_failure_at := j_schedule_failure_at r;
     j_schedule_failure_code := j_schedule_failure_code r;
     j_schedule_consecutive_failures := j_schedule_consecutive_failures r;
     j_lifetime_run_count := j_lifetime_run_count r; j_last_run_at := j_last_run_at r |}.
Definition set_j_schedule_cron (v : option string) (r : JobRow) : JobRow :=
  {| j_project := j_project r; j_name := j_name r; j_status := j_status r;
     j_config_yaml := j_config_yaml r; j_config_hash := j_config_hash r;
     j_created_at := j_created_at r; j_updated_at := j_updated_at r; j_schedule_cron := v;
     j_schedule_timezone := j_schedule_timezone r; j_schedule_enabled := j_schedule_enabled r;
     j_current_run_id := j_current_run_id r; j_current_trigger := j_current_trigger r;
     j_deletion_requested_at := j_deletion_requested_at r;
     j_delete_results_on_delete := j_delete_results_on_delete r;
     j_schedule_failure_at := j_schedule_failure_at r;
     j_schedule_failure_code := j_schedule_failure_code r;
     j_schedule_consecutive_failures := j_schedule_consecutive_failures r;
     j_lifetime_run_count := j_lifetime_run_count r; j_last_run_at := j_last_run_at r |}.
Definition set_j_schedule_timezone (v : string) (r : JobRow) : JobRow :=
  {| j_project := j_project r; j_name := j_name r; j_status := j_status r;
     j_config_yaml := j_config_yaml r; j_config_hash := j_config_hash r;
     j_created_at := j_created_at r; j_updated_at := j_updated_at r;
     j_schedule_cron := j_schedule_cron r; j_schedule_timezone := v;
     j_schedule_enabled := j_schedule_enabled r; j_current_run_id := j_current_run_id r;
     j_current_trigger := j_current_trigger r;
     j_deletion_requested_at := j_deletion_requested_at r;
     j_delete_results_on_delete := j_delete_results_on_delete r;
     j_schedule_failure_at := j_schedule_failure_at r;
     j_schedule_failure_code := j_schedule_failure_code r;
     j_schedule_consecutive_failures := j_schedule_consecutive_failures r;
     j_lifetime_run_count := j_lifetime_run_count r; j_last_run_at := j_last_run_at r |}.
Definition set_j_schedule_enabled (v : bool) (r : JobRow) : JobRow :=
  {| j_project := j_project r; j_name := j_name r; j_status := j_status r;
     j_config_yaml := j_config_yaml r; j_config_hash := j_config_hash r;
     j_created_at := j_created_at r; j_updated_at := j_updated_at r;
     j_schedule_cron := j_schedule_cron r; j_schedule_timezone := j_schedule_timezone r;
     j_schedule_enabled := v; j_current_run_id := j_current_run_id r;
     j_current_trigger := j_current_trigger r;
     j_deletion_requested_at := j_deletion_requested_at r;
     j_delete_results_on_delete := j_delete_results_on_delete r;
     j_schedule_failure_at := j_schedule_failure_at r;
     j_schedule_failure_code := j_schedule_failure_code r;
     j_schedule_consecutive_failures := j_schedule_consecutive_failures r;
     j_lifetime_run_count := j_lifetime_run_count r; j_last_run_at := j_last_run_at r |}.
Definition set_j_current_run_id (v : option string) (r : JobRow) : JobRow :=
  {| j_project := j_project r; j_name := j_name r; j_status := j_status r;
     j_config_yaml := j_config_yaml r; j_config_hash := j_config_hash r;
     j_created_at := j_created_at r; j_updated_at := j_updated_at r;
     j_schedule_cron := j_schedule_cron r; j_schedule_timezone := j_schedule_timezone r;
     j_schedule_enabled := j_schedule_enabled r; j_current_run_id := v;
     j_current_trigger := j_current_trigger r;
     j_deletion_requested_at := j_deletion_requested_at r;
     j_delete_results_on_delete := j_delete_results_on_delete r;
     j_schedule_failure_at := j_schedule_failure_at r;
     j_schedule_failure_code := j_schedule_failure_code r;
     j_schedule_consecutive_failures := j_schedule_consecutive_failures r;
     j_lifetime_run_count := j_lifetime_run_count r; j_last_run_at := j_last_run_at r |}.
Definition set_j_current_trigger (v : option string) (r : JobRow) : JobRow :=
  {| j_project := j_project r; j_name := j_name r; j_status := j_status r;
     j_config_yaml := j_config_yaml r; j_config_hash := j_config_hash r;
     j_created_at := j_created_at r; j_updated_at := j_updated_at r;
     j_schedule_cron := j_schedule_cron r; j_schedule_timezone := j_schedule_timezone r;
     j_schedule_enabled := j_schedule_enabled r; j_current_run_id := j_current_run_id r;
     j_current_trigger := v; j_deletion_requested_at := j_deletion_requested_at r;
     j_delete_results_on_delete := j_delete_results_on_delete r;
     j_schedule_failure_at := j_schedule_failure_at r;
     j_schedule_failure_code := j_schedule_failure_code r;
     j_schedule_consecutive_failures := j_schedule_consecutive_failures r;
     j_lifetime_run_count := j_lifetime_run_count r; j_last_run_at := j_last_run_at r |}.
Definition set_j_deletion_requested_at (v : option Z) (r : JobRow) : JobRow :=
  {| j_project := j_project r; j_name := j_name r; j_status := j_status r;
     j_config_yaml := j_config_yaml r; j_config_hash := j_config_hash r;
     j_created_at := j_created_at r; j_updated_at := j_updated_at r;
     j_schedule_cron := j_schedule_cron r; j_schedule_timezone := j_schedule_timezone r;
     j_schedule_enabled := j_schedule_enabled r; j_current_run_id := j_current_run_id r;
     j_current_trigger := j_current_trigger r; j_deletion_requested_at := v;
     j_delete_results_on_delete := j_delete_results_on_delete r;
     j_schedule_failure_at := j_schedule_failure_at r;
     j_schedule_failure_code := j_schedule_failure_code r;
     j_schedule_consecutive_failures := j_schedule_consecutive_failures r;
     j_lifetime_run_count := j_lifetime_run_count r; j_last_run_at := j_last_run_at r |}.
Definition set_j_delete_results_on_delete (v : option bool) (r : JobRow) : JobRow :=
  {| j_project := j_project r; j_name := j_name r; j_status := j_status r;
     j_config_yaml := j_config_yaml r; j_config_hash := j_config_hash r;
     j_created_at := j_created_at r; j_updated_at := j_updated_at r;
     j_schedule_cron := j_schedule_cron r; j_schedule_timezone := j_schedule_timezone r;
     j_schedule_enabled := j_schedule_enabled r; j_current_run_id := j_current_run_id r;
     j_current_trigger := j_current_trigger r;
     j_deletion_requested_at := j_deletion_requested_at r; j_delete_results_on_delete := v;
     j_schedule_failure_at := j_schedule_failure_at r;
     j_schedule_failure_code := j_schedule_failure_code r;
     j_schedule_consecutive_failures := j_schedule_consecutive_failures r;
     j_lifetime_run_count := j_lifetime_run_count r; j_last_run_at := j_last_run_at r |}.
Definition set_j_schedule_failure_at (v : option Z) (r : JobRow) : JobRow :=
  {| j_project := j_project r; j_name := j_name r; j_status := j_status r;
     j_config_yaml := j_config_yaml r; j_config_hash := j_config_hash r;
     j_created_at := j_created_at r; j_updated_at := j_updated_at r;
     j_schedule_cron := j_schedule_cron r; j_schedule_timezone := j_schedule_timezone r;
     j_schedule_enabled := j_schedule_enabled r; j_current_run_id := j_current_run_id r;
     j_current_trigger := j_current_trigger r;
     j_deletion_requested_at := j_deletion_requested_at r;
     j_delete_results_on_delete := j_delete_results_on_delete r; j_schedule_failure_at := v;
     j_schedule_failure_code := j_schedule_failure_code r;
     j_schedule_consecutive_failures := j_schedule_consecutive_failures r;
     j_lifetime_run_count := j_lifetime_run_count r; j_last_run_at := j_last_run_at r |}.
Definition set_j_schedule_failure_code (v : option string) (r : JobRow) : JobRow :=
  {| j_project := j_project r; j_name := j_name r; j_status := j_status r;
     j_config_yaml := j_config_yaml r; j_config_hash := j_config_hash r;
     j_created_at := j_created_at r; j_updated_at := j_updated_at r;
     j_schedule_cron := j_schedule_cron r; j_schedule_timezone := j_schedule_timezone r;
     j_schedule_enabled := j_schedule_enabled r; j_current_run_id := j_current_run_id r;
     j_current_trigger := j_current_trigger r;
     j_deletion_requested_at := j_deletion_requested_at r;
     j_delete_results_on_delete := j_delete_results_on_delete r;
     j_schedule_failure_at := j_schedule_failure_at r; j_schedule_failure_code := v;
     j_schedule_consecutive_failures := j_schedule_consecutive_failures r;
     j_lifetime_run_count := j_lifetime_run_count r; j_last_run_at := j_last_run_at r |}.
Definition set_j_schedule_consecutive_failures (v : Z) (r : JobRow) : JobRow :=
  {| j_project := j_project r; j_name := j_name r; j_status := j_status r;
     j_config_yaml := j_config_yaml r; j_config_hash := j_config_hash r;
     j_created_at := j_created_at r; j_updated_at := j_updated_at r;
     j_schedule_cron := j_schedule_cron r; j_schedule_timezone := j_schedule_timezone r;
     j_schedule_enabled := j_schedule_enabled r; j_current_run_id := j_current_run_id r;
     j_current_trigger := j_current_trigger r;
     j_deletion_requested_at := j_deletion_requested_at r;
     j_delete_results_on_delete := j_delete_results_on_delete r;
     j_schedule_failure_at := j_schedule_failure_at r;
     j_schedule_failure_code := j_schedule_failure_code r;
     j_schedule_consecutive_failures := v; j_lifetime_run_count := j_lifetime_run_count r;
     j_last_run_at := j_last_run_at r |}.
Definition set_j_lifetime_run_count (v : Z) (r : JobRow) : JobRow :=
  {| j_project := j_project r; j_name := j_name r; j_status := j_status r;
     j_config_yaml := j_config_yaml r; j_config_hash := j_config_hash r;
     j_created_at := j_created_at r; j_updated_at := j_updated_at r;
     j_schedule_cron := j_schedule_cron r; j_schedule_timezone := j_schedule_timezone r;
     j_schedule_enabled := j_schedule_enabled r; j_current_run_id := j_current_run_id r;
     j_current_trigger := j_current_trigger r;
     j_deletion_requested_at := j_deletion_requested_at r;
     j_delete_results_on_delete := j_delete_results_on_delete r;
     j_schedule_failure_at := j_schedule_failure_at r;
     j_schedule_failure_code := j_schedule_failure_code r;
     j_schedule_consecutive_failures := j_schedule_consecutive_failures r;
     j_lifetime_run_count := v; j_last_run_at := j_last_run_at r |}.
Definition set_j_last_run_at (v : option Z) (r : JobRow) : JobRow :=
  {| j_project := j_project r; j_name := j_name r; j_status := j_status r;
     j_config_yaml := j_config_yaml r; j_config_hash := j_config_hash r;
     j_created_at := j_created_at r; j_updated_at := j_updated_at r;
     j_schedule_cron := j_schedule_cron r; j_schedule_timezone := j_schedule_timezone r;
     j_schedule_enabled := j_schedule_enabled r; j_current_run_id := j_current_run_id r;
     j_current_trigger := j_current_trigger r;
     j_deletion_requested_at := j_deletion_requested_at r;
     j_delete_results_on_delete := j_delete_results_on_delete r;
     j_schedule_failure_at := j_schedule_failure_at r;
     j_schedule_failure_code := j_schedule_failure_code r;
     j_schedule_consecutive_failures := j_schedule_consecutive_failures r;
     j_lifetime_run_count := j_lifetime_run_count r; j_last_run_at := v |}.

(** One row of [job_runs], without its primary key [run_id]. *)
Record RunRow := {
  r_job_id : string;
  r_status : JobStatus;
  r_trigger : string;
  r_config_hash : string;
  r_config_yaml : option string;
  r_started_at : Z;
  r_heartbeat_at : option Z;
  r_completed_at : option Z;
  r_record_count : option Z;
  r_error_count : Z;
  r_webhook_reconciled_at : option Z;
  r_failure_code : option string;
  r_webhook_reconciliation_failed_at : option Z;
}.

Definition set_r_status (v : JobStatus) (r : RunRow) : RunRow :=
  {| r_job_id := r_job_id r; r_status := v; r_trigger := r_trigger r;
     r_config_hash := r_config_hash r; r_config_yaml := r_config_yaml r;
     r_started_at := r_started_at r; r_heartbeat_at := r_heartbeat_at r;
     r_completed_at := r_completed_at r; r_record_count := r_record_count r;
     r_error_count := r_error_count r; r_webhook_reconciled_at := r_webhook_reconciled_at r;
     r_failure_code := r_failure_code r;
     r_webhook_reconciliation_failed_at := r_webhook_reconciliation_failed_at r |}.
Definition set_r_heartbeat_at (v : option Z) (r : RunRow) : RunRow :=
  {| r_job_id := r_job_id r; r_status := r_status r; r_trigger := r_trigger r;
     r_config_hash := r_config_hash r; r_config_yaml := r_config_yaml r;
     r_started_at := r_started_at r; r_heartbeat_at := v; r_completed_at := r_completed_at r;
     r_record_count := r_record_count r; r_error_count := r_error_count r;
     r_webhook_reconciled_at := r_webhook_reconciled_at r; r_failure_code := r_failure_code r;
     r_webhook_reconciliation_failed_at := r_webhook_reconciliation_failed_at r |}.
Definition set_r_completed_at (v : option Z) (r : RunRow) : RunRow :=
  {| r_job_id := r_job_id r; r_status := r_status r; r_trigger := r_trigger r;
     r_config_hash := r_config_hash r; r_config_yaml := r_config_yaml r;
     r_started_at := r_started_at r; r_heartbeat_at := r_heartbeat_at r; r_completed_at := v;
     r_record_count := r_record_count r; r_error_count := r_error_count r;
     r_webhook_reconciled_at := r_webhook_reconciled_at r; r_failure_code := r_failure_code r;
     r_webhook_reconciliation_failed_at := r_webhook_reconciliation_failed_at r |}.
Definition set_r_record_count (v : option Z) (r : RunRow) : RunRow :=
  {| r_job_id := r_job_id r; r_status := r_status r; r_trigger := r_trigger r;
     r_config_hash := r_config_hash r; r_config_yaml := r_config_yaml r;
     r_started_at := r_started_at r; r_heartbeat_at := r_heartbeat_at r;
     r_completed_at := r_completed_at r; r_record_count := v; r_error_count := r_error_count r;
     r_webhook_reconciled_at := r_webhook_reconciled_at r; r_failure_code := r_failure_code r;
     r_webhook_reconciliation_failed_at := r_webhook_reconciliation_failed_at r |}.
Definition set_r_error_count (v : Z) (r : RunRow) : RunRow :=
  {| r_job_id := r_job_id r; r_status := r_status r; r_trigger := r_trigger r;
     r_config_hash := r_config_hash r; r_config_yaml := r_config_yaml r;
     r_started_at := r_started_at r; r_heartbeat_at := r_heartbeat_at r;
     r_completed_at := r_completed_at r; r_record_count := r_record_count r;
     r_error_count := v; r_webhook_reconciled_at := r_webhook_reconciled_at r;
     r_failure_code := r_failure_code r;
     r_webhook_reconciliation_failed_at := r_webhook_reconciliation_failed_at r |}.
Definition set_r_webhook_reconciled_at (v : option Z) (r : RunRow) : RunRow :=
  {| r_job_id := r_job_id r; r_status := r_status r; r_trigger := r_trigger r;
     r_config_hash := r_config_hash r; r_config_yaml := r_config_yaml r;
     r_started_at := r_started_at r; r_heartbeat_at := r_heartbeat_at r;
     r_completed_at := r_completed_at r; r_record_count := r_record_count r;
     r_error_count := r_error_count r; r_webhook_reconciled_at := v;
     r_failure_code := r_failure_code r;
     r_webhook_reconciliation_failed_at := r_webhook_reconciliation_failed_at r |}.
Definition set_r_webhook_reconciliation_failed_at (v : option Z) (r : RunRow) : RunRow :=
  {| r_job_id := r_job_id r; r_status := r_status r; r_trigger := r_trigger r;
     r_config_hash := r_config_hash r; r_config_yaml := r_config_yaml r;
     r_started_at := r_started_at r; r_heartbeat_at := r_heartbeat_at r;
     r_completed_at := r_completed_at r; r_record_count := r_record_count r;
     r_error_count := r_error_count r; r_webhook_reconciled_at := r_webhook_reconciled_at r;
     r_failure_code := r_failure_code r; r_webhook_reconciliation_failed_at := v |}.

(** One row of [queued_run_snapshots], without its primary key [run_id]. *)
Record SnapshotRow := {
  s_job_id : string;
  s_trigger : string;
  s_config_hash : string;
  s_config_yaml : string;
  s_queued_at : Z;
}.


(** One row of [scrape_idempotency]; its key is (caller_scope, key_digest). *)
Record IdempotencyRow := {
  i_request_hash : string;
  i_job_id : string;
  i_run_id : string;
  i_response_mode : string;
  i_created_at : Z;
  i_expires_at : Z;
}.


(** One row of [webhook_deliveries], without its primary key [delivery_id]. *)
Record WebhookRow := {
  w_job_id : string;
  w_run_id : option string;
  w_event : string;
  w_url : string;
  w_headers_json : string;
  w_timeout_seconds : Z;
  w_payload_json : string;
  w_status : Delivery.WebhookDeliveryStatus;
  w_attempts : Z;
  w_next_attempt_at : Z;
  w_last_attempt_at : option Z;
  w_delivered_at : option Z;
  w_failed_at : option Z;
  w_failure_reason : option WebhookFailureReason;
  w_last_error : option string;
  w_scrubbed_at : option Z;
  w_created_at : Z;
  w_updated_at : Z;
}.

Definition set_w_url (v : string) (r : WebhookRow) : WebhookRow :=
  {| w_job_id := w_job_id r; w_run_id := w_run_id r; w_event := w_event r; w_url := v;
     w_headers_json := w_headers_json r; w_timeout_seconds := w_timeout_seconds r;
     w_payload_json := w_payload_json r; w_status := w_status r; w_attempts := w_attempts r;
     w_next_attempt_at := w_next_attempt_at r; w_last_attempt_at := w_last_attempt_at r;
     w_delivered_at := w_delivered_at r; w_failed_at := w_failed_at r;
     w_failure_reason := w_failure_reason r; w_last_error := w_last_error r;
     w_scrubbed_at := w_scrubbed_at r; w_created_at := w_created_at r;
     w_updated_at := w_updated_at r |}.
Definition set_w_headers_json (v : string) (r : WebhookRow) : WebhookRow :=
  {| w_job_id := w_job_id r; w_run_id := w_run_id r; w_event := w_event r; w_url := w_url r;
     w_headers_json := v; w_timeout_seconds := w_timeout_seconds r;
     w_payload_json := w_payload_json r; w_status := w_status r; w_attempts := w_attempts r;
     w_next_attempt_at := w_next_attempt_at r; w_last_attempt_at := w_last_attempt_at r;
     w_delivered_at := w_delivered_at r; w_failed_at := w_failed_at r;
     w_failure_reason := w_failure_reason r; w_last_error := w_last_error r;
     w_scrubbed_at := w_scrubbed_at r; w_created_at := w_created_at r;
     w_updated_at := w_updated_at r |}.
Definition set_w_timeout_seconds (v : Z) (r : WebhookRow) : WebhookRow :=
  {| w_job_id := w_job_id r; w_run_id := w_run_id r; w_event := w_event r; w_url := w_url r;
     w_headers_json := w_headers_json r; w_timeout_seconds := v;
     w_payload_json := w_payload_json r; w_status := w_status r; w_attempts := w_attempts r;
     w_next_attempt_at := w_next_attempt_at r; w_last_attempt_at := w_last_attempt_at r;
     w_delivered_at := w_delivered_at r; w_failed_at := w_failed_at r;
     w_failure_reason := w_failure_reason r; w_last_error := w_last_error r;
     w_scrubbed_at := w_scrubbed_at r; w_created_at := w_created_at r;
     w_updated_at := w_updated_at r |}.
Definition set_w_payload_json (v : string) (r : WebhookRow) : WebhookRow :=
  {| w_job_id := w_job_id r; w_run_id := w_run_id r; w_event := w_event r; w_url := w_url r;
     w_headers_json := w_headers_json r; w_timeout_seconds := w_timeout_seconds r;
     w_payload_json := v; w_status := w_status r; w_attempts := w_attempts r;
     w_next_attempt_at := w_next_attempt_at r; w_last_attempt_at := w_last_attempt_at r;
     w_delivered_at := w_delivered_at r; w_failed_at := w_failed_at r;
     w_failure_reason := w_failure_reason r; w_last_error := w_last_error r;
     w_scrubbed_at := w_scrubbed_at r; w_created_at := w_created_at r;
     w_updated_at := w_updated_at r |}.
Definition set_w_status (v : Delivery.WebhookDeliveryStatus) (r : WebhookRow) : WebhookRow :=
  {| w_job_id := w_job_id r; w_run_id := w_run_id r; w_event := w_event r; w_url := w_url r;
     w_headers_json := w_headers_json r; w_timeout_seconds := w_timeout_seconds r;
     w_payload_json := w_payload_json r; w_status := v; w_attempts := w_attempts r;
     w_next_attempt_at := w_next_attempt_at r; w_last_attempt_at := w_last_attempt_at r;
     w_delivered_at := w_delivered_at r; w_failed_at := w_failed_at r;
     w_failure_reason := w_failure_reason r; w_last_error := w_last_error r;
     w_scrubbed_at := w_scrubbed_at r; w_created_at := w_created_at r;
     w_updated_at := w_updated_at r |}.
Definition set_w_attempts (v : Z) (r : WebhookRow) : WebhookRow :=
  {| w_job_id := w_job_id r; w_run_id := w_run_id r; w_event := w_event r; w_url := w_url r;
     w_headers_json := w_headers_json r; w_timeout_seconds := w_timeout_seconds r;
     w_payload_json := w_payload_json r; w_status := w_status r; w_attempts := v;
     w_next_attempt_at := w_next_attempt_at r; w_last_attempt_at := w_last_attempt_at r;
     w_delivered_at := w_delivered_at r; w_failed_at := w_failed_at r;
     w_failure_reason := w_failure_reason r; w_last_error := w_last_error r;
     w_scrubbed_at := w_scrubbed_at r; w_created_at := w_created_at r;
     w_updated_at := w_updated_at r |}.
Definition set_w_next_attempt_at (v : Z) (r : WebhookRow) : WebhookRow :=
  {| w_job_id := w_job_id r; w_run_id := w_run_id r; w_event := w_event r; w_url := w_url r;
     w_headers_json := w_headers_json r; w_timeout_seconds := w_timeout_seconds r;
     w_payload_json := w_payload_json r; w_status := w_status r; w_attempts := w_attempts r;
     w_next_attempt_at := v; w_last_attempt_at := w_last_attempt_at r;
     w_delivered_at := w_delivered_at r; w_failed_at := w_failed_at r;
     w_failure_reason := w_failure_reason r; w_last_error := w_last_error r;
     w_scrubbed_at := w_scrubbed_at r; w_created_at := w_created_at r;
     w_updated_at := w_updated_at r |}.
Definition set_w_last_attempt_at (v : option Z) (r : WebhookRow) : WebhookRow :=
  {| w_job_id := w_job_id r; w_run_id := w_run_id r; w_event := w_event r; w_url := w_url r;
     w_headers_json := w_headers_json r; w_timeout_seconds := w_timeout_seconds r;
     w_payload_json := w_payload_json r; w_status := w_status r; w_attempts := w_attempts r;
     w_next_attempt_at := w_next_attempt_at r; w_last_attempt_at := v;
     w_delivered_at := w_delivered_at r; w_failed_at := w_failed_at r;
     w_failure_reason := w_failure_reason r; w_last_error := w_last_error r;
     w_scrubbed_at := w_scrubbed_at r; w_created_at := w_created_at r;
     w_updated_at := w_updated_at r |}.
Definition set_w_delivered_at (v : option Z) (r : WebhookRow) : WebhookRow :=
  {| w_job_id := w_job_id r; w_run_id := w_run_id r; w_event := w_event r; w_url := w_url r;
     w_headers_json := w_headers_json r; w_timeout_seconds := w_timeout_seconds r;
     w_payload_json := w_payload_json r; w_status := w_status r; w_attempts := w_attempts r;
     w_next_attempt_at := w_next_attempt_at r; w_last_attempt_at := w_last_attempt_at r;
     w_delivered_at := v; w_failed_at := w_failed_at r; w_failure_reason := w_failure_reason r;
     w_last_error := w_last_error r; w_scrubbed_at := w_scrubbed_at r;
     w_created_at := w_created_at r; w_updated_at := w_updated_at r |}.
Definition set_w_failed_at (v : option Z) (r : WebhookRow) : WebhookRow :=
  {| w_job_id := w_job_id r; w_run_id := w_run_id r; w_event := w_event r; w_url := w_url r;
     w_headers_json := w_headers_json r; w_timeout_seconds := w_timeout_seconds r;
     w_payload_json := w_payload_json r; w_status := w_status r; w_attempts := w_attempts r;
     w_next_attempt_at := w_next_attempt_at r; w_last_attempt_at := w_last_attempt_at r;
     w_delivered_at := w_delivered_at r; w_failed_at := v;
     w_failure_reason := w_failure_reason r; w_last_error := w_last_error r;
     w_scrubbed_at := w_scrubbed_at r; w_created_at := w_created_at r;
     w_updated_at := w_updated_at r |}.
Definition set_w_failure_reason (v : option WebhookFailureReason) (r : WebhookRow) : WebhookRow :=
  {| w_job_id := w_job_id r; w_run_id := w_run_id r; w_event := w_event r; w_url := w_url r;
     w_headers_json := w_headers_json r; w_timeout_seconds := w_timeout_seconds r;
     w_payload_json := w_payload_json r; w_status := w_status r; w_attempts := w_attempts r;
     w_next_attempt_at := w_next_attempt_at r; w_last_attempt_at := w_last_attempt_at r;
     w_delivered_at := w_delivered_at r; w_failed_at := w_failed_at r; w_failure_reason := v;
     w_last_error := w_last_error r; w_scrubbed_at := w_scrubbed_at r;
     w_created_at := w_created_at r; w_updated_at := w_updated_at r |}.
Definition set_w_last_error (v : option string) (r : WebhookRow) : WebhookRow :=
  {| w_job_id := w_job_id r; w_run_id := w_run_id r; w_event := w_event r; w_url := w_url r;
     w_headers_json := w_headers_json r; w_timeout_seconds := w_timeout_seconds r;
     w_payload_json := w_payload_json r; w_status := w_status r; w_attempts := w_attempts r;
     w_next_attempt_at := w_next_attempt_at r; w_last_attempt_at := w_last_attempt_at r;
     w_delivered_at := w_delivered_at r; w_failed_at := w_failed_at r;
     w_failure_reason := w_failure_reason r; w_last_error := v;
     w_scrubbed_at := w_scrubbed_at r; w_created_at := w_created_at r;
     w_updated_at := w_updated_at r |}.
Definition set_w_scrubbed_at (v : option Z) (r : WebhookRow) : WebhookRow :=
  {| w_job_id := w_job_id r; w_run_id := w_run_id r; w_event := w_event r; w_url := w_url r;
     w_headers_json := w_headers_json r; w_timeout_seconds := w_timeout_seconds r;
     w_payload_json := w_payload_json r; w_status := w_status r; w_attempts := w_attempts r;
     w_next_attempt_at := w_next_attempt_at r; w_last_attempt_at := w_last_attempt_at r;
     w_delivered_at := w_delivered_at r; w_failed_at := w_failed_at r;
     w_failure_reason := w_failure_reason r; w_last_error := w_last_error r;
     w_scrubbed_at := v; w_created_at := w_created_at r; w_updated_at := w_updated_at r |}.
Definition set_w_created_at (v : Z) (r : WebhookRow) : WebhookRow :=
  {| w_job_id := w_job_id r; w_run_id := w_run_id r; w_event := w_event r; w_url := w_url r;
     w_headers_json := w_headers_json r; w_timeout_seconds := w_timeout_seconds r;
     w_payload_json := w_payload_json r; w_status := w_status r; w_attempts := w_attempts r;
     w_next_attempt_at := w_next_attempt_at r; w_last_attempt_at := w_last_attempt_at r;
     w_delivered_at := w_delivered_at r; w_failed_at := w_failed_at r;
     w_failure_reason := w_failure_reason r; w_last_error := w_last_error r;
     w_scrubbed_at := w_scrubbed_at r; w_created_at := v; w_updated_at := w_updated_at r |}.
Definition set_w_updated_at (v : Z) (r : WebhookRow) : WebhookRow :=
  {| w_job_id := w_job_id r; w_run_id := w_run_id r; w_event := w_event r; w_url := w_url r;
     w_headers_json := w_headers_json r; w_timeout_seconds := w_timeout_seconds r;
     w_payload_json := w_payload_json r; w_status := w_status r; w_attempts := w_attempts r;
     w_next_attempt_at := w_next_attempt_at r; w_last_attempt_at := w_last_attempt_at r;
     w_delivered_at := w_delivered_at r; w_failed_at := w_failed_at r;
     w_failure_reason := w_failure_reason r; w_last_error := w_last_error r;
     w_scrubbed_at := w_scrubbed_at r; w_created_at := w_created_at r; w_updated_at := v |}.

(** The database. *)
Record DB := {
  jobs : gmap string JobRow;
  job_runs : gmap string RunRow;
  queued_run_snapshots : gmap string SnapshotRow;
  scrape_idempotency : gmap (string * string) IdempotencyRow;
  webhook_deliveries : gmap string WebhookRow;
}.

Definition set_jobs (v : gmap string JobRow) (r : DB) : DB :=
  {| jobs := v; job_runs := job_runs r; queued_run_snapshots := queued_run_snapshots r;
     scrape_idempotency := scrape_idempotency r; webhook_deliveries := webhook_deliveries r |}.
Definition set_job_runs (v : gmap string RunRow) (r : DB) : DB :=
  {| jobs := jobs r; job_runs := v; queued_run_snapshots := queued_run_snapshots r;
     scrape_idempotency := scrape_idempotency r; webhook_deliveries := webhook_deliveries r |}.
Definition set_queued_run_snapshots (v : gmap string SnapshotRow) (r : DB) : DB :=
  {| jobs := jobs r; job_runs := job_runs r; queued_run_snapshots := v;
     scrape_idempotency := scrape_idempotency r; webhook_deliveries := webhook_deliveries r |}.
Definition set_scrape_idempotency (v : gmap (string * string) IdempotencyRow) (r : DB) : DB :=
  {| jobs := jobs r; job_runs := job_runs r; queued_run_snapshots := queued_run_snapshots r;
     scrape_idempotency := v; webhook_deliveries := webhook_deliveries r |}.
Definition set_webhook_deliveries (v : gmap string WebhookRow) (r : DB) : DB :=
  {| jobs := jobs r; job_runs := job_runs r; queued_run_snapshots := queued_run_snapshots r;
     scrape_idempotency := scrape_idempotency r; webhook_deliveries := v |}.


Definition empty_db : DB :=
  {| jobs := ∅; job_runs := ∅; queued_run_snapshots := ∅; scrape_idempotency := ∅;
     webhook_deliveries := ∅ |}.
