(* ===== verification/JobDb.v ===== *)
(** * Statements and transactions on the job database ([storage/database.py])

    A connection holds the committed database and the working copy of its transaction.
    A statement acts on the working copy, or raises the constraint it violates.
    [db_transaction] is the context manager of the source: commit when the body returns
    with the transaction still open, roll back when it raises; a body may also roll back
    or commit itself. [transaction] runs it on the database: SQLite lets one writer in
    at a time, so a transaction is one step of the database. *)

From S2P Require Import Prelude.
From S2P Require Import Rows.
Open Scope Z_scope.

Inductive constraint := PrimaryKey (table : string) | UniqueProjectName | ForeignKey (table : string).

Inductive store_error :=
| RunOwnershipError (operation job_id run_id : string)
| DuplicateJobError (project name : string)
| AdmissionCapacityError (reason : string)
| IntegrityError (c : constraint)
| SecretDecryptionError
| ValueError (message : string)
| RuntimeError (message : string)
| KeyError (message : string).

Record Conn := { committed : DB; working : DB; in_transaction : bool }.

Abbreviation sql := (prog Conn store_error).
Abbreviation store := (prog DB store_error).

Definition begin_tx (c : Conn) : Conn :=
  {| committed := committed c; working := committed c; in_transaction := true |}.
Definition commit_tx (c : Conn) : Conn :=
  {| committed := working c; working := working c; in_transaction := false |}.
Definition rollback_tx (c : Conn) : Conn :=
  {| committed := committed c; working := committed c; in_transaction := false |}.

Definition commit : sql unit := pmodify commit_tx.
Definition rollback : sql unit := pmodify rollback_tx.

Definition db_transaction {A} (body : sql A) : sql A := λ c,
  match body (begin_tx c) with
  | (Ok a, c) => (Ok a, if in_transaction c then commit_tx c else c)
  | (Raise e, c) => (Raise e, rollback_tx c)
  end.

Definition connect (d : DB) : Conn :=
  {| committed := d; working := d; in_transaction := false |}.

Definition transaction {A} (body : sql A) : store A := λ d,
  let '(r, c) := db_transaction body (connect d) in (r, committed c).

(** A query, and a statement that writes; outside a transaction it commits at once. *)
Definition query {A} (f : DB → A) : sql A := λ c, (Ok (f (working c)), c).
Definition execute {A} (f : DB → outcome store_error (A * DB)) : sql A := λ c,
  match f (working c) with
  | Ok (a, d) =>
      (Ok a, {| committed := if in_transaction c then committed c else d; working := d;
                in_transaction := in_transaction c |})
  | Raise e => (Raise e, c)
  end.

(** A read-only connection. *)
Definition read {A} (f : DB → outcome store_error A) : store A := λ d, (f d, d).

(** ** Statements *)

(** [UPDATE jobs SET .. WHERE job_id = ? AND ..]: the row count, and the new table. *)
Definition update_job (job_id : string) (cond : JobRow → bool) (set : JobRow → JobRow) : sql Z :=
  execute (λ d,
    match jobs d !! job_id with
    | Some j => if cond j then Ok (1, set_jobs (<[job_id := set j]> (jobs d)) d) else Ok (0, d)
    | None => Ok (0, d)
    end).

Definition name_taken (d : DB) (job_id project name : string) : bool :=
  bool_decide (map_Exists (λ k j, k ≠ job_id ∧ j_project j = project ∧ j_name j = name) (jobs d)).

(** The same, for a statement that assigns [project] or [name]. *)
Definition update_job_named (job_id : string) (cond : JobRow → bool) (set : JobRow → JobRow) : sql Z :=
  execute (λ d,
    match jobs d !! job_id with
    | Some j =>
        if cond j then
          if name_taken d job_id (j_project (set j)) (j_name (set j))
          then Raise (IntegrityError UniqueProjectName)
          else Ok (1, set_jobs (<[job_id := set j]> (jobs d)) d)
        else Ok (0, d)
    | None => Ok (0, d)
    end).

Definition insert_job (job_id : string) (row : JobRow) : sql unit :=
  execute (λ d,
    match jobs d !! job_id with
    | Some _ => Raise (IntegrityError (PrimaryKey "jobs"))
    | None =>
        if name_taken d job_id (j_project row) (j_name row)
        then Raise (IntegrityError UniqueProjectName)
        else Ok (tt, set_jobs (<[job_id := row]> (jobs d)) d)
    end).

(** [ON DELETE CASCADE] of the two tables that reference [jobs]. *)
Definition cascade (job_id : string) (d : DB) : DB :=
  set_scrape_idempotency (filter (λ x, i_job_id x.2 ≠ job_id) (scrape_idempotency d))
    (set_queued_run_snapshots (filter (λ x, s_job_id x.2 ≠ job_id) (queued_run_snapshots d)) d).

Definition delete_job (job_id : string) (cond : DB → JobRow → bool) : sql Z :=
  execute (λ d,
    match jobs d !! job_id with
    | Some j =>
        if cond d j then Ok (1, cascade job_id (set_jobs (delete job_id (jobs d)) d)) else Ok (0, d)
    | None => Ok (0, d)
    end).

(** The trigger [job_runs_lifetime_summary_after_insert]. *)
Definition count_run (started_at : Z) (j : JobRow) : JobRow :=
  set_j_lifetime_run_count (j_lifetime_run_count j + 1)
    (set_j_last_run_at
      (match j_last_run_at j with
       | Some t => if t <? started_at then Some started_at else Some t
       | None => Some started_at
       end) j).

Definition add_run (run_id : string) (row : RunRow) (d : DB) : DB :=
  set_job_runs (<[run_id := row]> (job_runs d))
    (set_jobs (alter (count_run (r_started_at row)) (r_job_id row) (jobs d)) d).

Definition insert_run (run_id : string) (row : RunRow) : sql unit :=
  execute (λ d,
    match job_runs d !! run_id with
    | Some _ => Raise (IntegrityError (PrimaryKey "job_runs"))
    | None => Ok (tt, add_run run_id row d)
    end).

Definition insert_run_or_ignore (run_id : string) (row : RunRow) : sql Z :=
  execute (λ d,
    match job_runs d !! run_id with
    | Some _ => Ok (0, d)
    | None => Ok (1, add_run run_id row d)
    end).

(** [UPDATE job_runs SET .. WHERE job_id = ? AND run_id = ? AND ..] *)
Definition update_run (job_id run_id : string) (cond : DB → RunRow → bool) (set : RunRow → RunRow) :
    sql Z :=
  execute (λ d,
    match job_runs d !! run_id with
    | Some r =>
        if bool_decide (r_job_id r = job_id) && cond d r
        then Ok (1, set_job_runs (<[run_id := set r]> (job_runs d)) d) else Ok (0, d)
    | None => Ok (0, d)
    end).

Definition delete_run (job_id run_id : string) (cond : RunRow → bool) : sql Z :=
  execute (λ d,
    match job_runs d !! run_id with
    | Some r =>
        if bool_decide (r_job_id r = job_id) && cond r
        then Ok (1, set_job_runs (delete run_id (job_runs d)) d) else Ok (0, d)
    | None => Ok (0, d)
    end).

Definition insert_snapshot (run_id : string) (row : SnapshotRow) : sql unit :=
  execute (λ d,
    match queued_run_snapshots d !! run_id with
    | Some _ => Raise (IntegrityError (PrimaryKey "queued_run_snapshots"))
    | None =>
        if bool_decide (is_Some (jobs d !! s_job_id row))
        then Ok (tt, set_queued_run_snapshots (<[run_id := row]> (queued_run_snapshots d)) d)
        else Raise (IntegrityError (ForeignKey "queued_run_snapshots"))
    end).

Definition delete_snapshot (job_id run_id : string) : sql Z :=
  execute (λ d,
    match queued_run_snapshots d !! run_id with
    | Some s =>
        if bool_decide (s_job_id s = job_id)
        then Ok (1, set_queued_run_snapshots (delete run_id (queued_run_snapshots d)) d)
        else Ok (0, d)
    | None => Ok (0, d)
    end).

Definition insert_idempotency (scope digest : string) (row : IdempotencyRow) : sql unit :=
  execute (λ d,
    match scrape_idempotency d !! (scope, digest) with
    | Some _ => Raise (IntegrityError (PrimaryKey "scrape_idempotency"))
    | None =>
        if bool_decide (is_Some (jobs d !! i_job_id row))
        then Ok (tt, set_scrape_idempotency (<[(scope, digest) := row]> (scrape_idempotency d)) d)
        else Raise (IntegrityError (ForeignKey "scrape_idempotency"))
    end).

(** Deletions that only name the rows to keep. *)
Definition keep_idempotency (keep : (string * string) * IdempotencyRow → bool) : sql unit :=
  execute (λ d, Ok (tt, set_scrape_idempotency
    (filter (λ x, keep x = true) (scrape_idempotency d)) d)).
Definition keep_snapshots (keep : string * SnapshotRow → bool) : sql unit :=
  execute (λ d, Ok (tt, set_queued_run_snapshots
    (filter (λ x, keep x = true) (queued_run_snapshots d)) d)).
Definition keep_runs (keep : string * RunRow → bool) : sql unit :=
  execute (λ d, Ok (tt, set_job_runs (filter (λ x, keep x = true) (job_runs d)) d)).
(** Deletes the rows that are not kept; the row count. *)
Definition keep_webhooks (keep : string * WebhookRow → bool) : sql Z :=
  execute (λ d,
    let kept := filter (λ x, keep x = true) (webhook_deliveries d) in
    Ok (Z.of_nat (size (webhook_deliveries d) - size kept)%nat, set_webhook_deliveries kept d)).

(** [UPDATE webhook_deliveries SET .. WHERE delivery_id = ? AND ..] *)
Definition update_webhook (delivery_id : string) (cond : WebhookRow → bool)
    (set : WebhookRow → WebhookRow) : sql Z :=
  execute (λ d,
    match webhook_deliveries d !! delivery_id with
    | Some w => if cond w
                then Ok (1, set_webhook_deliveries (<[delivery_id := set w]> (webhook_deliveries d)) d)
                else Ok (0, d)
    | None => Ok (0, d)
    end).

(** [INSERT OR IGNORE INTO webhook_deliveries] *)
Definition insert_webhook_or_ignore (delivery_id : string) (row : WebhookRow) : sql Z :=
  execute (λ d,
    match webhook_deliveries d !! delivery_id with
    | Some _ => Ok (0, d)
    | None => Ok (1, set_webhook_deliveries (<[delivery_id := row]> (webhook_deliveries d)) d)
    end).

(** [if cursor.rowcount != 1: await db.rollback(); return v] *)
Definition rollback_with {A} (v : A) : sql A := do! rollback in pret v.

(** [await db.rollback(); raise e] *)
Definition rollback_raise {A} (e : store_error) : sql A := do! rollback in praise e.
