(* ===== verification/JobModel.v ===== *)
(** * Job models and what the store's files share ([models/job.py], [storage/types.py],
    [storage/job_rows.py], helpers of [storage/job_store.py])

    A [Job] carries its configuration in the clear; a row of [jobs] carries it encrypted
    for the purpose of its column, with its SHA-256 beside it. *)

From S2P Require Import Prelude.
From S2P Require Import Sha256.
From S2P Require Import Envelope.
From S2P Require Import Rows.
From S2P Require Import JobDb.
Open Scope Z_scope.

(** ** Models and outcomes *)

Record Job := {
  job_id : string;
  project : string;
  name : string;
  status : JobStatus;
  config_yaml : string;
  created_at : Z;
  updated_at : option Z;
  schedule_cron : option string;
  schedule_timezone : string;
  schedule_enabled : bool;
  current_run_id : option string;
  current_trigger : option string;
  deletion_requested_at : option Z;
  delete_results_on_delete : option bool;
  schedule_failure_at : option Z;
  schedule_failure_code : option string;
  schedule_consecutive_failures : Z;
}.

Inductive IdempotentJobAction := created | matched | conflict.

Record IdempotentJobOutcome := {
  i_action : IdempotentJobAction;
  i_job : Job;
  i_run : string;
  i_mode : string;
}.

Inductive ScheduledJobMutationAction :=
| updated | unchanged | missing | not_scheduled | project_conflict | active_conflict
| lifecycle_conflict.

Record ScheduledJobMutationOutcome := {
  m_action : ScheduledJobMutationAction;
  m_previous : option Job;
  m_current : option Job;
}.

Record admission := { workers_max_accepted_runs : Z; headroom_mb : Z }.

(** Python's [x or default] on an optional string: the empty string counts as absent. *)
Definition or_text (x : option string) (default : string) : string :=
  match x with
  | Some s => if bool_decide (s = "") then default else s
  | None => default
  end.

(** One result per element, up to the first error. *)
Fixpoint traverse {A B} (f : A → outcome store_error B) (l : list A) : outcome store_error (list B) :=
  match l with
  | [] => Ok []
  | a :: l =>
      match f a with
      | Raise e => Raise e
      | Ok b => match traverse f l with Ok bs => Ok (b :: bs) | Raise e => Raise e end
      end
  end.

Definition lift {A} (o : outcome store_error A) : sql A := λ c, (o, c).

(** Running [m], a violated (project, name) constraint becomes [DuplicateJobError]. *)
Definition rename_duplicate {A} (project name : string) (m : sql A) : sql A := λ c,
  match m c with
  | (Raise (IntegrityError UniqueProjectName), c) => (Raise (DuplicateJobError project name), c)
  | r => r
  end.

Definition jobs_purpose (job_id : string) : string := "jobs.config_yaml:" +:+ job_id.
Definition snapshot_purpose (run_id : string) : string :=
  "queued_run_snapshots.config_yaml:" +:+ run_id.
Definition runs_purpose (run_id : string) : string := "job_runs.config_yaml:" +:+ run_id.

(** The statuses of an accepted run: [status IN ('queued', 'running')]. *)
Definition is_active (s : JobStatus) : bool := bool_decide (s = queued) || bool_decide (s = running).

(** A job's parent row is [s] and [rid] its current run: the WHERE clause of the
    store's compare-and-sets. *)
Definition owned_as (s : JobStatus) (rid : string) (j : JobRow) : bool :=
  bool_decide (j_status j = s) && opt_eqb (j_current_run_id j) rid.

Lemma owned_as_true s rid j :
  owned_as s rid j = true ↔ j_status j = s ∧ j_current_run_id j = Some rid.
Proof.
  unfold owned_as. by rewrite andb_true_iff, bool_decide_eq_true, opt_eqb_true.
Qed.

Section model.
Context `{Vault}.

Definition reveal (purpose stored : string) : outcome store_error string :=
  match reveal_text purpose stored with
  | Some p => Ok p
  | None => Raise SecretDecryptionError
  end.

Definition sha256 : string → string := Sha256.sha256_hex.

(** [_reveal_verified]: the plaintext if its hash is the expected one, else [None]. *)
Definition _reveal_verified (value purpose expected_hash : string) :
    outcome store_error (option string) :=
  match reveal purpose value with
  | Ok p => Ok (if bool_decide (sha256 p = expected_hash) then Some p else None)
  | Raise e => Raise e
  end.

Definition row_to_job (jid : string) (j : JobRow) : outcome store_error Job :=
  match reveal (jobs_purpose jid) (j_config_yaml j) with
  | Raise e => Raise e
  | Ok config =>
      Ok {| job_id := jid; project := j_project j; name := j_name j; status := j_status j;
            config_yaml := config; created_at := j_created_at j; updated_at := j_updated_at j;
            schedule_cron := j_schedule_cron j;
            schedule_timezone := or_text (Some (j_schedule_timezone j)) "UTC";
            schedule_enabled := j_schedule_enabled j; current_run_id := j_current_run_id j;
            current_trigger := j_current_trigger j;
            deletion_requested_at := j_deletion_requested_at j;
            delete_results_on_delete := j_delete_results_on_delete j;
            schedule_failure_at := j_schedule_failure_at j;
            schedule_failure_code := j_schedule_failure_code j;
            schedule_consecutive_failures := j_schedule_consecutive_failures j |}
  end.
End model.
