(* ===== verification/Tx.v ===== *)
(** * Reasoning about transactions

    [tx_post d0 d body Q]: running [body] in a transaction opened on [d0], whose working
    copy is [d] by now, ends with a result and a committed database that satisfy [Q].
    One rule per statement; [tx] applies them and splits on the branches of the body, so
    the goals that remain are the paths of the operation. *)

From S2P Require Import Prelude.
From S2P Require Import Rows.
From S2P Require Import JobDb.
From S2P Require Import JobModel.
Open Scope Z_scope.

Definition open_conn (d0 d : DB) : Conn :=
  {| committed := d0; working := d; in_transaction := true |}.

Definition closed (c : Conn) : DB := if in_transaction c then working c else committed c.

Definition tx_post {A} (d0 d : DB) (body : sql A) (Q : outcome store_error A → DB → Prop) : Prop :=
  match body (open_conn d0 d) with
  | (Ok a, c) => Q (Ok a) (closed c)
  | (Raise e, c) => Q (Raise e) (committed c)
  end.

Lemma tx_transaction {A} (body : sql A) d Q :
  tx_post d d body Q → Q (transaction body d).1 (transaction body d).2.
Proof.
  unfold tx_post, transaction, db_transaction. change (begin_tx (connect d)) with (open_conn d d).
  destruct (body (open_conn d d)) as [[a|e] c]; [|done].
  unfold closed. by destruct (in_transaction c).
Qed.

Lemma tx_pair {A} (body : sql A) d (P : outcome store_error A * DB → Prop) :
  tx_post d d body (λ x d', P (x, d')) → P (transaction body d).
Proof.
  intros Hp. rewrite (surjective_pairing (transaction body d)).
  by apply (tx_transaction body d (λ x d', P (x, d'))).
Qed.

(** The body of a store operation, for a property of the database it leaves. *)
Lemma by_tx {A} (body : sql A) d (P : DB → Prop) :
  tx_post d d body (λ _ d', P d') → P (transaction body d).2.
Proof. apply (tx_transaction body d (λ _ d', P d')). Qed.

Lemma tx_commit d0 d (Q : outcome store_error unit → DB → Prop) :
  Q (Ok tt) d → tx_post d0 d commit Q.
Proof. done. Qed.

(** What [delete_snapshot] leaves. *)
Definition drop_snapshot (jid rid : string) (m : gmap string SnapshotRow) : gmap string SnapshotRow :=
  match m !! rid with
  | Some s => if bool_decide (s_job_id s = jid) then delete rid m else m
  | None => m
  end.

Section rules.
Context {A : Type} (d0 d : DB) (Q : outcome store_error A → DB → Prop).

Lemma tx_ret a : Q (Ok a) d → tx_post d0 d (pret a) Q.
Proof. done. Qed.
Lemma tx_raise e : Q (Raise e) d0 → tx_post d0 d (praise e) Q.
Proof. done. Qed.
Lemma tx_rollback_with v : Q (Ok v) d0 → tx_post d0 d (rollback_with v) Q.
Proof. done. Qed.
Lemma tx_rollback_raise e : Q (Raise e) d0 → tx_post d0 d (rollback_raise e) Q.
Proof. done. Qed.
Lemma tx_commit_ret (a : A) : Q (Ok a) d → tx_post d0 d (do! commit in pret a) Q.
Proof. done. Qed.
Lemma tx_query (f : DB → A) : Q (Ok (f d)) d → tx_post d0 d (query f) Q.
Proof. done. Qed.

Lemma tx_bind_ret {B} (b : B) k : tx_post d0 d (k b) Q → tx_post d0 d (pbind (pret b) k) Q.
Proof. done. Qed.
Lemma tx_bind_raise {B} e (k : B → sql A) : Q (Raise e) d0 → tx_post d0 d (pbind (praise e) k) Q.
Proof. done. Qed.
Lemma tx_bind_query {B} (f : DB → B) k : tx_post d0 d (k (f d)) Q → tx_post d0 d (pbind (query f) k) Q.
Proof. done. Qed.
Lemma tx_bind_lift {B} (o : outcome store_error B) k :
  (∀ b, o = Ok b → tx_post d0 d (k b) Q) → (∀ e, o = Raise e → Q (Raise e) d0) →
  tx_post d0 d (pbind (lift o) k) Q.
Proof. destruct o; intros Hk Hr; [by apply Hk | by apply Hr]. Qed.
Lemma tx_bind_assoc {B C} (m : sql B) (g : B → sql C) k :
  tx_post d0 d (pbind m (λ b, pbind (g b) k)) Q → tx_post d0 d (pbind (pbind m g) k) Q.
Proof. unfold tx_post, pbind. by destruct (m (open_conn d0 d)) as [[]]. Qed.

(** A violated uniqueness constraint, and any other error, roll back the same way. *)
Lemma tx_bind_execute {B} (f : DB → outcome store_error (B * DB)) k :
  (∀ b d', f d = Ok (b, d') → tx_post d0 d' (k b) Q) →
  (∀ e, f d = Raise e → Q (Raise e) d0) →
  tx_post d0 d (pbind (execute f) k) Q.
Proof.
  unfold tx_post, pbind, execute. simpl. destruct (f d) as [[b d']|e].
  - intros Hk _. by apply (Hk b d').
  - intros _ Hr. by apply Hr.
Qed.

Lemma tx_update_job jid cond set k :
  (∀ j, jobs d !! jid = Some j → cond j = true →
        tx_post d0 (set_jobs (<[jid := set j]> (jobs d)) d) (k 1) Q) →
  ((∀ j, jobs d !! jid = Some j → cond j = false) → tx_post d0 d (k 0) Q) →
  tx_post d0 d (pbind (update_job jid cond set) k) Q.
Proof.
  intros H1 H0. apply tx_bind_execute; [|intros e; by dmatches].
  intros b d' E. destruct (jobs d !! jid) as [j|] eqn:Hj; [destruct (cond j) eqn:Hc|];
    simplify_eq; [by eapply H1 | apply H0; naive_solver..].
Qed.

Lemma tx_update_job_named jid cond set k :
  (∀ j, jobs d !! jid = Some j → cond j = true →
        name_taken d jid (j_project (set j)) (j_name (set j)) = false →
        tx_post d0 (set_jobs (<[jid := set j]> (jobs d)) d) (k 1) Q) →
  ((∀ j, jobs d !! jid = Some j → cond j = false) → tx_post d0 d (k 0) Q) →
  (∀ j, jobs d !! jid = Some j → cond j = true →
        name_taken d jid (j_project (set j)) (j_name (set j)) = true →
        Q (Raise (IntegrityError UniqueProjectName)) d0) →
  tx_post d0 d (pbind (update_job_named jid cond set) k) Q.
Proof.
  intros H1 H0 Hr. apply tx_bind_execute.
  - intros b d' E. destruct (jobs d !! jid) as [j|] eqn:Hj; [destruct (cond j) eqn:Hc|];
      [destruct (name_taken _ _ _ _) eqn:Ht|..];
      simplify_eq; [by eapply H1 | apply H0; naive_solver..].
  - intros e E. destruct (jobs d !! jid) as [j|] eqn:Hj; [destruct (cond j) eqn:Hc|];
      [destruct (name_taken _ _ _ _) eqn:Ht|..]; simplify_eq; naive_solver.
Qed.

Lemma tx_insert_job jid row k :
  (jobs d !! jid = None → name_taken d jid (j_project row) (j_name row) = false →
   tx_post d0 (set_jobs (<[jid := row]> (jobs d)) d) (k tt) Q) →
  (is_Some (jobs d !! jid) → Q (Raise (IntegrityError (PrimaryKey "jobs"))) d0) →
  (name_taken d jid (j_project row) (j_name row) = true →
   Q (Raise (IntegrityError UniqueProjectName)) d0) →
  tx_post d0 d (pbind (insert_job jid row) k) Q.
Proof.
  intros H1 H0 Hr. apply tx_bind_execute.
  - intros [] d' E. destruct (jobs d !! jid) eqn:Hj; [done|].
    destruct (name_taken _ _ _ _) eqn:Ht; simplify_eq. by eapply H1.
  - intros e E. destruct (jobs d !! jid) eqn:Hj; [simplify_eq; by apply H0|].
    destruct (name_taken _ _ _ _) eqn:Ht; simplify_eq. by apply Hr.
Qed.

Lemma tx_delete_job jid cond k :
  (∀ j, jobs d !! jid = Some j → cond d j = true →
        tx_post d0 (cascade jid (set_jobs (delete jid (jobs d)) d)) (k 1) Q) →
  ((∀ j, jobs d !! jid = Some j → cond d j = false) → tx_post d0 d (k 0) Q) →
  tx_post d0 d (pbind (delete_job jid cond) k) Q.
Proof.
  intros H1 H0. apply tx_bind_execute; [|intros e; by dmatches].
  intros b d' E. destruct (jobs d !! jid) as [j|] eqn:Hj; [destruct (cond d j) eqn:Hc|];
    simplify_eq; [by eapply H1 | apply H0; naive_solver..].
Qed.

Lemma tx_insert_run rid row k :
  (job_runs d !! rid = None → tx_post d0 (add_run rid row d) (k tt) Q) →
  (is_Some (job_runs d !! rid) → Q (Raise (IntegrityError (PrimaryKey "job_runs"))) d0) →
  tx_post d0 d (pbind (insert_run rid row) k) Q.
Proof.
  intros H1 H0. apply tx_bind_execute.
  - intros [] d' E. destruct (job_runs d !! rid) eqn:Hj; simplify_eq. by eapply H1.
  - intros e E. destruct (job_runs d !! rid) eqn:Hj; simplify_eq. by apply H0.
Qed.

Lemma tx_insert_run_or_ignore rid row k :
  (job_runs d !! rid = None → tx_post d0 (add_run rid row d) (k 1) Q) →
  (is_Some (job_runs d !! rid) → tx_post d0 d (k 0) Q) →
  tx_post d0 d (pbind (insert_run_or_ignore rid row) k) Q.
Proof.
  intros H1 H0. apply tx_bind_execute; [|intros e; by dmatches].
  intros b d' E. destruct (job_runs d !! rid) eqn:Hj; simplify_eq; eauto.
Qed.

Lemma tx_update_run jid rid cond set k :
  (∀ r, job_runs d !! rid = Some r → r_job_id r = jid → cond d r = true →
        tx_post d0 (set_job_runs (<[rid := set r]> (job_runs d)) d) (k 1) Q) →
  ((∀ r, job_runs d !! rid = Some r → r_job_id r = jid → cond d r = false) →
   tx_post d0 d (k 0) Q) →
  tx_post d0 d (pbind (update_run jid rid cond set) k) Q.
Proof.
  intros H1 H0. apply tx_bind_execute; [|intros e; by dmatches].
  intros b d' E. destruct (job_runs d !! rid) as [r|] eqn:Hr.
  - destruct (bool_decide (r_job_id r = jid) && cond d r) eqn:Hc; simplify_eq.
    + apply andb_true_iff in Hc as [Hj%bool_decide_eq_true Hc]. by eapply H1.
    + apply H0. intros r' E Hj. simplify_eq. rewrite bool_decide_true in Hc; done.
  - simplify_eq. by apply H0.
Qed.

Lemma tx_delete_run jid rid cond k :
  (∀ r, job_runs d !! rid = Some r → r_job_id r = jid → cond r = true →
        tx_post d0 (set_job_runs (delete rid (job_runs d)) d) (k 1) Q) →
  ((∀ r, job_runs d !! rid = Some r → r_job_id r = jid → cond r = false) →
   tx_post d0 d (k 0) Q) →
  tx_post d0 d (pbind (delete_run jid rid cond) k) Q.
Proof.
  intros H1 H0. apply tx_bind_execute; [|intros e; by dmatches].
  intros b d' E. destruct (job_runs d !! rid) as [r|] eqn:Hr.
  - destruct (bool_decide (r_job_id r = jid) && cond r) eqn:Hc; simplify_eq.
    + apply andb_true_iff in Hc as [Hj%bool_decide_eq_true Hc]. by eapply H1.
    + apply H0. intros r' E Hj. simplify_eq. rewrite bool_decide_true in Hc; done.
  - simplify_eq. by apply H0.
Qed.

Lemma tx_insert_snapshot rid row k :
  (queued_run_snapshots d !! rid = None → is_Some (jobs d !! s_job_id row) →
   tx_post d0 (set_queued_run_snapshots (<[rid := row]> (queued_run_snapshots d)) d) (k tt) Q) →
  (is_Some (queued_run_snapshots d !! rid) ∨ jobs d !! s_job_id row = None →
   ∀ c, Q (Raise (IntegrityError c)) d0) →
  tx_post d0 d (pbind (insert_snapshot rid row) k) Q.
Proof.
  intros H1 H0. apply tx_bind_execute.
  - intros [] d' E. destruct (queued_run_snapshots d !! rid) eqn:Hs; [done|].
    case_bool_decide; simplify_eq. by eapply H1.
  - intros e E. destruct (queued_run_snapshots d !! rid) eqn:Hs; [simplify_eq; apply H0; eauto|].
    case_bool_decide as Hn; simplify_eq. apply H0. right. by apply eq_None_not_Some.
Qed.

Lemma tx_delete_snapshot jid rid k :
  (∀ n, tx_post d0 (set_queued_run_snapshots (drop_snapshot jid rid (queued_run_snapshots d)) d)
          (k n) Q) →
  tx_post d0 d (pbind (delete_snapshot jid rid) k) Q.
Proof.
  intros Hk. apply tx_bind_execute; [|intros e; by dmatches].
  intros b d' E. specialize (Hk b). unfold drop_snapshot in Hk.
  assert (set_queued_run_snapshots (queued_run_snapshots d) d = d) as Hd by by destruct d.
  dmatches; congruence.
Qed.

Lemma tx_insert_idempotency scope digest row k :
  (scrape_idempotency d !! (scope, digest) = None → is_Some (jobs d !! i_job_id row) →
   tx_post d0 (set_scrape_idempotency (<[(scope, digest) := row]> (scrape_idempotency d)) d) (k tt) Q) →
  (is_Some (scrape_idempotency d !! (scope, digest)) ∨ jobs d !! i_job_id row = None →
   ∀ c, Q (Raise (IntegrityError c)) d0) →
  tx_post d0 d (pbind (insert_idempotency scope digest row) k) Q.
Proof.
  intros H1 H0. apply tx_bind_execute.
  - intros [] d' E. destruct (scrape_idempotency d !! _) eqn:Hs; [done|].
    case_bool_decide; simplify_eq. by eapply H1.
  - intros e E. destruct (scrape_idempotency d !! _) eqn:Hs; [simplify_eq; apply H0; eauto|].
    case_bool_decide as Hn; simplify_eq. apply H0. right. by apply eq_None_not_Some.
Qed.

Lemma tx_keep_idempotency keep k :
  tx_post d0 (set_scrape_idempotency (filter (λ x, keep x = true) (scrape_idempotency d)) d) (k tt) Q →
  tx_post d0 d (pbind (keep_idempotency keep) k) Q.
Proof. done. Qed.
Lemma tx_keep_snapshots keep k :
  tx_post d0 (set_queued_run_snapshots (filter (λ x, keep x = true) (queued_run_snapshots d)) d) (k tt) Q →
  tx_post d0 d (pbind (keep_snapshots keep) k) Q.
Proof. done. Qed.
Lemma tx_keep_runs keep k :
  tx_post d0 (set_job_runs (filter (λ x, keep x = true) (job_runs d)) d) (k tt) Q →
  tx_post d0 d (pbind (keep_runs keep) k) Q.
Proof. done. Qed.
Lemma tx_keep_webhooks keep k :
  (∀ n, tx_post d0 (set_webhook_deliveries (filter (λ x, keep x = true) (webhook_deliveries d)) d) (k n) Q) →
  tx_post d0 d (pbind (keep_webhooks keep) k) Q.
Proof. intros Hk. apply Hk. Qed.

Lemma tx_update_webhook id cond set k :
  (∀ w, webhook_deliveries d !! id = Some w → cond w = true →
        tx_post d0 (set_webhook_deliveries (<[id := set w]> (webhook_deliveries d)) d) (k 1) Q) →
  ((∀ w, webhook_deliveries d !! id = Some w → cond w = false) → tx_post d0 d (k 0) Q) →
  tx_post d0 d (pbind (update_webhook id cond set) k) Q.
Proof.
  intros H1 H0. apply tx_bind_execute; [|intros e; by dmatches].
  intros b d' E. destruct (webhook_deliveries d !! id) as [w|] eqn:Hw; [destruct (cond w) eqn:Hc|];
    simplify_eq; [by eapply H1 | apply H0; naive_solver..].
Qed.

Lemma tx_insert_webhook_or_ignore id row k :
  (webhook_deliveries d !! id = None →
   tx_post d0 (set_webhook_deliveries (<[id := row]> (webhook_deliveries d)) d) (k 1) Q) →
  (is_Some (webhook_deliveries d !! id) → tx_post d0 d (k 0) Q) →
  tx_post d0 d (pbind (insert_webhook_or_ignore id row) k) Q.
Proof.
  intros H1 H0. apply tx_bind_execute; [|intros e; by dmatches].
  intros b d' E. destruct (webhook_deliveries d !! id) eqn:Hw; simplify_eq; eauto.
Qed.
End rules.

(** Consequence, and the rule for a body that ends in a statement. *)
Lemma tx_mono {A} d0 d (body : sql A) (Q Q' : outcome store_error A → DB → Prop) :
  tx_post d0 d body Q → (∀ r d', Q r d' → Q' r d') → tx_post d0 d body Q'.
Proof. unfold tx_post. destruct (body _) as [[]]; eauto. Qed.

Lemma tx_tail {A} d0 d (m : sql A) Q :
  tx_post d0 d (pbind m pret) Q → tx_post d0 d m Q.
Proof. unfold tx_post, pbind. by destruct (m (open_conn d0 d)) as [[]]. Qed.

(** A body made of statements leaves the committed database alone. *)
Definition pure_tx {A} (m : sql A) : Prop :=
  ∀ c, in_transaction c = true →
       committed (m c).2 = committed c ∧ in_transaction (m c).2 = true.

Lemma pure_ret {A} (a : A) : pure_tx (pret a).
Proof. by intros c. Qed.
Lemma pure_raise {A} e : pure_tx (praise (A := A) e).
Proof. by intros c. Qed.
Lemma pure_execute {A} (f : DB → outcome store_error (A * DB)) : pure_tx (execute f).
Proof. intros c Hc. unfold execute. destruct (f _) as [[]|]; simpl; by rewrite ?Hc. Qed.
Lemma pure_query {A} (f : DB → A) : pure_tx (query f).
Proof. by intros c. Qed.
Lemma pure_bind {A B} (m : sql A) (k : A → sql B) :
  pure_tx m → (∀ a, pure_tx (k a)) → pure_tx (pbind m k).
Proof.
  intros Hm Hk c Hc. unfold pbind. destruct (Hm c Hc) as [E1 E2].
  destruct (m c) as [[a|e] c']; simpl in *; [|done].
  destruct (Hk a c' E2). by rewrite <- E1.
Qed.

(** The rule of [rename_duplicate]: the renamed error rolls back as well. *)
Lemma tx_rename {A B} d0 d p n (m : sql B) (k : B → sql A) Q :
  pure_tx m → tx_post d0 d (pbind m k) Q → Q (Raise (DuplicateJobError p n)) d0 →
  tx_post d0 d (pbind (rename_duplicate p n m) k) Q.
Proof.
  unfold tx_post, pbind, rename_duplicate. intros Hp Hm Hr.
  destruct (Hp (open_conn d0 d) eq_refl) as [Hc _].
  destruct (m (open_conn d0 d)) as [[a|e] c]; simpl in *; [done|].
  destruct e as [| | |[]| | | |]; try done. by rewrite Hc.
Qed.

#[export] Hint Resolve pure_ret pure_raise pure_execute pure_query pure_bind : scrape.

(** The literal row counts decide the guards that test them. *)
Ltac tx_guard := cbn beta iota; cbn [Z.eqb Pos.eqb negb andb orb bool_decide].

Ltac tx_last :=
  lazymatch goal with
  | |- tx_post _ _ (pret _) _ => apply tx_ret
  | |- tx_post _ _ (praise _) _ => apply tx_raise
  | |- tx_post _ _ (rollback_with _) _ => apply tx_rollback_with
  | |- tx_post _ _ (rollback_raise _) _ => apply tx_rollback_raise
  | |- tx_post _ _ (pbind commit (λ _, pret _)) _ => apply tx_commit_ret
  | |- tx_post _ _ commit _ => apply tx_commit
  | |- tx_post _ _ (query _) _ => apply tx_query
  | |- tx_post _ _ (match ?x with _ => _ end) _ => destruct x eqn:?; simplify_eq
  end.

Ltac tx_stmt :=
  lazymatch goal with
  | |- tx_post _ _ (pbind ?m _) _ =>
      lazymatch m with
      | pret _ => apply tx_bind_ret
      | praise _ => apply tx_bind_raise
      | query _ => apply tx_bind_query
      | lift _ => apply tx_bind_lift; intros ? ?
      | update_job _ _ _ => apply tx_update_job; [intros ? ? ? | intros ?]
      | update_job_named _ _ _ =>
          apply tx_update_job_named; [intros ? ? ? ? | intros ? | intros ? ? ? ?]
      | insert_job _ _ => apply tx_insert_job; [intros ? ? | intros ? | intros ?]
      | delete_job _ _ => apply tx_delete_job; [intros ? ? ? | intros ?]
      | insert_run _ _ => apply tx_insert_run; intros ?
      | insert_run_or_ignore _ _ => apply tx_insert_run_or_ignore; intros ?
      | update_run _ _ _ _ => apply tx_update_run; [intros ? ? ? ? | intros ?]
      | delete_run _ _ _ => apply tx_delete_run; [intros ? ? ? ? | intros ?]
      | insert_snapshot _ _ => apply tx_insert_snapshot; [intros ? ? | intros ? ?]
      | delete_snapshot _ _ => apply tx_delete_snapshot; intros ?
      | insert_idempotency _ _ _ => apply tx_insert_idempotency; [intros ? ? | intros ? ?]
      | keep_idempotency _ => apply tx_keep_idempotency
      | keep_snapshots _ => apply tx_keep_snapshots
      | keep_runs _ => apply tx_keep_runs
      | keep_webhooks _ => apply tx_keep_webhooks; intros ?
      | update_webhook _ _ _ => apply tx_update_webhook; [intros ? ? ? | intros ?]
      | insert_webhook_or_ignore _ _ => apply tx_insert_webhook_or_ignore; intros ?
      | rename_duplicate _ _ _ => apply tx_rename; [by eauto with scrape | |]
      | pbind _ _ => apply tx_bind_assoc
      | match ?x with _ => _ end => destruct x eqn:?; simplify_eq
      end
  end.

(** A goal [let r := operation in P r]: abstracts [P] as [Q], and enters the transaction. *)
Ltac tx_result Q :=
  let r := fresh "r" in
  intros r; pattern r; subst r; match goal with |- ?P _ => set (Q := P) end.
(** Enters the transaction a goal mentions. *)
Ltac tx_here :=
  match goal with |- context [transaction ?b ?d] => pattern (transaction b d) end;
  match goal with |- ?P (transaction ?b ?d) => refine (tx_pair b d P _) end; cbn beta.
Ltac tx_enter Q := refine (tx_pair _ _ Q _); subst Q; cbn beta.

Ltac tx := repeat (tx_guard; first [tx_last | tx_stmt]).
