(* ===== verification/Json.v ===== *)
(** * JSON documents

    The values of [json.loads] and the interface of the text format. *)

From S2P Require Import Prelude.

(** A JSON document; the members of an object are in the order of the text. *)
Inductive json :=
| JNull | JBool (b : bool) | JNumber (text : string) | JString (s : string)
| JArray (l : list json) | JObject (members : list (string * json)).

(** [json.dumps] with sorted keys and no spaces, and [json.loads]; an object whose
    members are sorted by distinct keys reads back as it was written. *)
Definition sorted_members (m : list (string * json)) : Prop :=
  StronglySorted (λ a b, String.leb a.1 b.1 = true ∧ a.1 ≠ b.1) m.

Class JsonText := {
  dumps : list (string * json) → string;
  loads : string → option json;
  canonical : list (string * json) → Prop;
  canonical_sorted m : canonical m → sorted_members m;
  loads_dumps m : canonical m → loads (dumps m) = Some (JObject m);
}.

(** Induction over documents. *)
Lemma json_induction (P : json → Prop) :
  P JNull → (∀ b, P (JBool b)) → (∀ n, P (JNumber n)) → (∀ s, P (JString s)) →
  (∀ l, Forall P l → P (JArray l)) → (∀ m, Forall (λ x, P x.2) m → P (JObject m)) → ∀ v, P v.
Proof.
  intros Hnull Hbool Hnum Hstr Harr Hobj. fix IH 1.
  intros [|b|n|s|l|m]; [exact Hnull|exact (Hbool b)|exact (Hnum n)|exact (Hstr s)| |].
  - apply Harr. induction l as [|x l IHl]; constructor; [apply IH|exact IHl].
  - apply Hobj. induction m as [|[k v] m IHm]; constructor; [apply IH|exact IHm].
Qed.

(** Every string of a document, the keys included. *)
Fixpoint json_texts (v : json) : list string :=
  match v with
  | JObject m => flat_map (λ x, x.1 :: json_texts x.2) m
  | JArray l => flat_map json_texts l
  | JString s => [s]
  | JNull | JBool _ | JNumber _ => []
  end.

(** The document without its strings. *)
Fixpoint json_shape (v : json) : json :=
  match v with
  | JObject m => JObject (map (λ x, ("", json_shape x.2)) m)
  | JArray l => JArray (map json_shape l)
  | JString _ => JString ""
  | JNull | JBool _ | JNumber _ => v
  end.

(** No object repeats a key. *)
Fixpoint distinct_keys (v : json) : Prop :=
  match v with
  | JObject m => NoDup (map fst m) ∧ foldr (λ x P, distinct_keys x.2 ∧ P) True m
  | JArray l => foldr (λ x P, distinct_keys x ∧ P) True l
  | JString _ | JNull | JBool _ | JNumber _ => True
  end.

Lemma distinct_object m : distinct_keys (JObject m) ↔ NoDup m.*1 ∧ Forall (λ x, distinct_keys x.2) m.
Proof.
  cbn [distinct_keys]. change (map fst m) with m.*1. f_equiv. induction m as [|x m IH]; cbn; [by split|].
  by rewrite Forall_cons, IH.
Qed.
Lemma distinct_array l : distinct_keys (JArray l) ↔ Forall distinct_keys l.
Proof. cbn [distinct_keys]. induction l as [|x l IH]; cbn; [by split|]. by rewrite Forall_cons, IH. Qed.
