(* ===== verification/JsonEncoding.v ===== *)
(** * Streamed JSON ([common/json_encoding.py])

    The compact encoding of a document, as the C encoder of the standard library writes it,
    and the module that writes it in chunks and computes its size without building it. The
    texts are ASCII, so characters are bytes. *)

From S2P Require Import Prelude.
From S2P Require Import Text.
From S2P Require Import Unicode.
From S2P Require Import Json.
Open Scope Z_scope.

(** ** The encoder *)

Definition hex_digit (n : Z) : Ascii.ascii := if n <? 10 then chr (48 + n) else chr (87 + n).
(** [\uXXXX] *)
Definition unicode_escape (n : Z) : text :=
  chr 92 :: chr 117 :: map (λ k, hex_digit (Z.land (Z.shiftr n k) 15)) [12; 8; 4; 0].

(** [encode_basestring_ascii] of one character, without the quotes. *)
Definition escape_char (c : Z) : text :=
  if (c =? 34) || (c =? 92) then [chr 92; chr c]
  else if c =? 10 then [chr 92; chr 110]
  else if c =? 13 then [chr 92; chr 114]
  else if c =? 9 then [chr 92; chr 116]
  else if c =? 12 then [chr 92; chr 102]
  else if c =? 8 then [chr 92; chr 98]
  else if (32 <=? c) && (c <=? 126) then [chr c]
  else if c <? 65536 then unicode_escape c
  else
    let n := c - 65536 in
    unicode_escape (Z.lor 55296 (Z.land (Z.shiftr n 10) 1023)) ++ unicode_escape (Z.lor 56320 (Z.land n 1023)).
Definition encode_basestring_ascii (s : string) : text :=
  chr 34 :: concat (map escape_char (decode (txt s))) ++ [chr 34].

Definition comma : text := [chr 44].
Definition colon : text := [chr 58].
Fixpoint separated (l : list text) : text :=
  match l with [] => [] | [x] => x | x :: l => x ++ comma ++ separated l end.

(** [JSONEncoder(separators=(",", ":"), default=str).encode] *)
Fixpoint encode (v : json) : text :=
  match v with
  | JNull => txt "null"
  | JBool true => txt "true"
  | JBool false => txt "false"
  | JNumber n => txt n
  | JString s => encode_basestring_ascii s
  | JArray l => chr 91 :: separated (map encode l) ++ [chr 93]
  | JObject m => chr 123 :: separated (map (λ x, encode_basestring_ascii x.1 ++ colon ++ encode x.2) m) ++ [chr 125]
  end.

(** [s[1:-1]] *)
Definition inner (s : text) : text := removelast (tl s).

Definition is_container (v : json) : bool := match v with JArray _ | JObject _ => true | _ => false end.

(** ** The pieces of a document *)

Definition _JSON_TEXT_CHUNK_CHARS : nat := 16384.
Definition _ENCODE_WALK_DEPTH : nat := 4.
Definition _ENCODE_MAX_BATCH : nat := 256.
Definition _SIZE_WALK_DEPTH : nat := 4.

(** Elements of a list in batches; [fuel] bounds the batches by the elements left. *)
Fixpoint element_pieces (fuel : nat) (separator : text) (l : list json) (batch : nat) : list text :=
  match fuel, l with
  | S fuel, x :: _ =>
      let t := if bool_decide (batch = 1%nat) then encode x else inner (encode (JArray (take batch l))) in
      separator :: t :: element_pieces fuel comma (drop batch l)
        (if bool_decide (length t < _JSON_TEXT_CHUNK_CHARS)%nat then (batch * 2) `min` _ENCODE_MAX_BATCH else 1)%nat
  | _, _ => []
  end.

(** The members of an object; [walk] writes a value that is a list or an object. *)
Fixpoint member_pieces (walk : json → list text) (separator : text) (m : list (string * json)) : list text :=
  match m with
  | [] => [[chr 125]]
  | (key, item) :: m =>
      (if is_container item
       then (separator ++ encode_basestring_ascii key ++ colon) :: walk item
       else [separator ++ inner (encode (JObject [(key, item)]))]) ++ member_pieces walk comma m
  end.

Fixpoint _iter_json_text (depth : nat) (value : json) : list text :=
  match depth, value with
  | S depth, JArray (x :: l) => element_pieces (S (length l)) [chr 91] (x :: l) 1 ++ [[chr 93]]
  | S depth, JObject (x :: m) => member_pieces (_iter_json_text depth) [chr 123] (x :: m)
  | _, _ => [encode value]
  end.

(** ** Chunks of a fixed size *)

(** A text that is at hand, cut into full chunks; what is left stays pending. [fuel] bounds
    the chunks. *)
Fixpoint full_chunks (fuel : nat) (t : text) : list text * text :=
  match fuel with
  | S fuel =>
      if bool_decide (_JSON_TEXT_CHUNK_CHARS <= length t)%nat then
        let r := full_chunks fuel (drop _JSON_TEXT_CHUNK_CHARS t) in (take _JSON_TEXT_CHUNK_CHARS t :: r.1, r.2)
      else ([], t)
  | O => ([], t)
  end.

Fixpoint chunks (pending : text) (pieces : list text) : list text :=
  match pieces with
  | [] => match pending with [] => [] | _ => [pending] end
  | t :: pieces =>
      if bool_decide (length pending + length t < _JSON_TEXT_CHUNK_CHARS)%nat then chunks (pending ++ t) pieces
      else
        let offset := (_JSON_TEXT_CHUNK_CHARS - length pending)%nat in
        let r := full_chunks (length t) (drop offset t) in
        (pending ++ take offset t) :: r.1 ++ chunks r.2 pieces
  end.

Definition iter_json_bytes (data : json) : list text := chunks [] (_iter_json_text _ENCODE_WALK_DEPTH data).
Definition compact_json_bytes (data : json) : text := concat (iter_json_bytes data).

(** ** The size *)

Fixpoint _compact_json_size (depth : nat) (value : json) : nat :=
  match depth, value with
  | S depth, JArray (x :: l) =>
      (length (x :: l) + 1 + foldr (λ x n, _compact_json_size depth x + n) 0 (x :: l))%nat
  | S depth, JObject (x :: m) =>
      if existsb (λ x, is_container x.2) (x :: m) then
        (length (x :: m) + 1 +
         foldr (λ x n, length (encode_basestring_ascii x.1) + 1 + _compact_json_size depth x.2 + n) 0 (x :: m))%nat
      else length (encode value)
  | _, _ => length (encode value)
  end.
Definition compact_json_size (data : json) : nat := _compact_json_size _SIZE_WALK_DEPTH data.

(** * The streamed document is the encoder's

    The chunks of [iter_json_bytes] put together are what one call of the encoder returns,
    and [compact_json_size] is its length. *)

Lemma inner_wrapped a (t : text) b : inner (a :: t ++ [b]) = t.
Proof. unfold inner. cbn [tl]. by rewrite removelast_last. Qed.

Lemma inner_array l : inner (encode (JArray l)) = separated (map encode l).
Proof. cbn [encode]. apply inner_wrapped. Qed.
Lemma inner_member k v : inner (encode (JObject [(k, v)])) = encode_basestring_ascii k ++ colon ++ encode v.
Proof. cbn [encode]. rewrite inner_wrapped. by cbn. Qed.

Lemma separated_cons x l : l ≠ [] → separated (x :: l) = x ++ comma ++ separated l.
Proof. by destruct l. Qed.
Lemma separated_app l l' : l ≠ [] → l' ≠ [] → separated (l ++ l') = separated l ++ comma ++ separated l'.
Proof.
  intros Hl Hl'. induction l as [|x l IH]; [done|]. destruct l as [|y l]; [by destruct l'|].
  rewrite <- app_comm_cons, !separated_cons by (by destruct l). rewrite IH by done. by rewrite <- !app_assoc.
Qed.

(** ** Pieces *)

Lemma batch_text l batch x l' :
  l = x :: l' → (1 ≤ batch)%nat →
  (if bool_decide (batch = 1%nat) then encode x else inner (encode (JArray (take batch l)))) = separated (map encode (take batch l)).
Proof.
  intros -> Hb. case_bool_decide as H1; [subst; by cbn|]. by rewrite inner_array.
Qed.

Lemma element_pieces_concat fuel separator l batch :
  (length l ≤ fuel)%nat → (1 ≤ batch)%nat → l ≠ [] →
  concat (element_pieces fuel separator l batch) = separator ++ separated (map encode l).
Proof.
  revert separator l batch. induction fuel as [|fuel IH]; intros separator l batch Hf Hb Hl.
  { destruct l; cbn in Hf; [done|lia]. }
  destruct l as [|x l0] eqn:El; [done|]. cbn [element_pieces]. rewrite <- El in *.
  rewrite (batch_text l batch x _ El Hb). set (t := separated (map encode (take batch l))).
  cbn [concat]. f_equal. set (next := if bool_decide _ then _ else _).
  assert (1 ≤ next)%nat as Hn by (unfold next; case_bool_decide; [unfold _ENCODE_MAX_BATCH; lia|lia]).
  destruct (decide (drop batch l = [])) as [Hd|Hd].
  - rewrite Hd. destruct fuel; cbn; rewrite app_nil_r; unfold t; f_equal; f_equal;
      rewrite <- (take_drop batch l) at 2; by rewrite Hd, app_nil_r.
  - rewrite IH; [|rewrite length_drop; destruct l; [done|]; cbn in *; lia|done|done].
    unfold t. rewrite <- separated_app; [by rewrite <- fmap_app, take_drop|..].
    + destruct batch; [lia|]. by destruct l.
    + by intros ?%fmap_nil_inv.
Qed.

Definition member_text (x : string * json) : text := encode_basestring_ascii x.1 ++ colon ++ encode x.2.

Lemma member_pieces_concat walk separator m :
  (∀ v, concat (walk v) = encode v) → m ≠ [] →
  concat (member_pieces walk separator m) = separator ++ separated (map member_text m) ++ [chr 125].
Proof.
  intros Hw. revert separator. induction m as [|[k item] m IH]; intros separator Hm; [done|].
  cbn [member_pieces]. rewrite concat_app. assert (concat
    (if is_container item then (separator ++ encode_basestring_ascii k ++ colon) :: walk item
     else [separator ++ inner (encode (JObject [(k, item)]))]) = separator ++ member_text (k, item)) as Hitem.
  { unfold member_text. destruct (is_container item); cbn [concat].
    - by rewrite Hw, <- !app_assoc.
    - by rewrite inner_member, app_nil_r. }
  rewrite Hitem. destruct m as [|y m].
  - cbn [member_pieces concat map separated]. by rewrite app_nil_r, <- app_assoc.
  - rewrite IH by done. cbn [map]. rewrite (separated_cons (member_text (k, item))) by done. by rewrite <- !app_assoc.
Qed.

Lemma pieces_concat depth v : concat (_iter_json_text depth v) = encode v.
Proof.
  revert v. induction depth as [|depth IH]; intros v; [exact (app_nil_r _)|].
  destruct v as [|b|n|s|[|x l]|[|x m]]; try exact (app_nil_r _); cbn [_iter_json_text].
  - rewrite concat_app, element_pieces_concat by (cbn; lia || done).
    cbn [concat encode]. by rewrite app_nil_r, <- app_assoc.
  - by rewrite member_pieces_concat.
Qed.

(** ** Chunks *)

Lemma chunk_positive : (0 < _JSON_TEXT_CHUNK_CHARS)%nat.
Proof. apply Nat.ltb_lt. by vm_compute. Qed.
#[local] Opaque _JSON_TEXT_CHUNK_CHARS.

Lemma full_chunks_spec fuel t :
  (length t ≤ fuel)%nat →
  concat (full_chunks fuel t).1 ++ (full_chunks fuel t).2 = t ∧
  Forall (λ c, length c = _JSON_TEXT_CHUNK_CHARS) (full_chunks fuel t).1 ∧
  (length (full_chunks fuel t).2 < _JSON_TEXT_CHUNK_CHARS)%nat.
Proof.
  pose proof chunk_positive as Hpos. revert t. induction fuel as [|fuel IH]; intros t Hf; cbn [full_chunks].
  - cbn. split_and!; [done..|lia].
  - case_bool_decide as Hc; cbn [fst snd concat]; [|split_and!; [done..|lia]].
    destruct (IH (drop _JSON_TEXT_CHUNK_CHARS t)) as (Ht & Hfull & Hr); [rewrite length_drop; lia|].
    split_and!; [|constructor; [rewrite length_take; lia|done]|done].
    by rewrite <- app_assoc, Ht, take_drop.
Qed.

Lemma chunks_spec pending pieces :
  (length pending < _JSON_TEXT_CHUNK_CHARS)%nat →
  concat (chunks pending pieces) = pending ++ concat pieces ∧
  Forall (λ c, (0 < length c ≤ _JSON_TEXT_CHUNK_CHARS)%nat) (chunks pending pieces).
Proof.
  pose proof chunk_positive as Hpos. revert pending. induction pieces as [|t pieces IH]; intros pending Hp; cbn [chunks].
  { destruct pending as [|a pending]; cbn in *; [by split|]. rewrite app_nil_r. split; [done|].
    apply Forall_singleton. cbn. lia. }
  case_bool_decide as Hc.
  - destruct (IH (pending ++ t)) as [Hi Hl]; [by rewrite length_app|]. by rewrite Hi, <- app_assoc.
  - set (offset := (_JSON_TEXT_CHUNK_CHARS - length pending)%nat).
    destruct (full_chunks_spec (length t) (drop offset t)) as (Ht & Hfull & Hr); [rewrite length_drop; lia|].
    destruct (IH (full_chunks (length t) (drop offset t)).2 Hr) as [Hi Hl]. cbn [concat]. split.
    + rewrite concat_app, Hi, (app_assoc (concat _)), Ht, <- app_assoc, (app_assoc (take _ _)), take_drop. done.
    + constructor; [rewrite length_app, length_take; unfold offset; lia|]. apply Forall_app. split; [|done].
      eapply Forall_impl; [exact Hfull|]. cbn. lia.
Qed.

(** ** Sizes *)

Lemma separated_length {A} (f : A → text) l :
  l ≠ [] → (length (separated (map f l)) + 1 = length l + sum_list_with (λ x, length (f x)) l)%nat.
Proof.
  induction l as [|x l IH]; [done|]. intros _. destruct l as [|y l]; [cbn; lia|].
  cbn [map] in *. rewrite separated_cons by done. rewrite !length_app. specialize (IH ltac:(done)).
  cbn [sum_list_with comma length] in *. lia.
Qed.

Lemma array_length x l :
  length (encode (JArray (x :: l))) = (length (x :: l) + 1 + sum_list_with (λ x, length (encode x)) (x :: l))%nat.
Proof.
  pose proof (separated_length encode (x :: l) ltac:(done)) as Hs. cbn [encode]. cbn [length] in *. rewrite length_app.
  cbn [length]. lia.
Qed.
Lemma object_length x m :
  length (encode (JObject (x :: m))) = (length (x :: m) + 1 + sum_list_with (λ x, length (member_text x)) (x :: m))%nat.
Proof.
  pose proof (separated_length member_text (x :: m) ltac:(done)) as Hs. cbn [encode]. cbn [length] in *. rewrite length_app.
  change (λ x, encode_basestring_ascii x.1 ++ colon ++ encode x.2) with member_text. cbn [length]. lia.
Qed.

Lemma size_correct depth v : _compact_json_size depth v = length (encode v).
Proof.
  revert v. induction depth as [|depth IH]; intros v; [done|].
  destruct v as [|b|n|s|[|x l]|[|x m]]; try done.
  - rewrite array_length. cbn [_compact_json_size]. do 2 f_equal. generalize (x :: l). clear x l.
    intros l. induction l as [|y l IHl]; [done|]. cbn [foldr sum_list_with]. by rewrite IH, IHl.
  - rewrite object_length. cbn [_compact_json_size]. destruct (existsb _ _); [|by rewrite object_length].
    do 2 f_equal. generalize (x :: m). clear x m. intros m.
    induction m as [|y m IHm]; [done|]. cbn [foldr sum_list_with]. rewrite IH, IHm. unfold member_text. rewrite !length_app. cbn [colon length]. lia.
Qed.

Lemma chunks_whole data : compact_json_bytes data = encode data.
Proof.
  unfold compact_json_bytes, iter_json_bytes. rewrite (proj1 (chunks_spec [] _ chunk_positive)). apply pieces_concat.
Qed.

(** [C28] Streaming is faithful: the chunks of a document put together are the encoder's
    output for it, no chunk is empty or longer than the chunk size, and the size that is
    computed without building the document is the length of that output. *)
Theorem streamed_json_is_encoded data :
  compact_json_bytes data = encode data ∧
  Forall (λ c, (0 < length c ≤ _JSON_TEXT_CHUNK_CHARS)%nat) (iter_json_bytes data) ∧
  compact_json_size data = length (encode data).
Proof.
  split_and!; [apply chunks_whole|apply (proj2 (chunks_spec [] _ chunk_positive))|apply size_correct].
Qed.
