(* ===== verification/Filesystem.v ===== *)
(** * Files below the results root ([storage/filesystem.py])

    A tree of folders, files and links, by the path below its root. Nothing is found behind
    a link: what it points to is not part of the tree. Every call may meet a fault of the
    disk, given as a list that the calls use up. *)

From S2P Require Import Prelude.
From S2P Require Import Text.
Open Scope Z_scope.

Abbreviation fpath := (list string).

Inductive node := Folder (mtime : Z) | Regular (bytes : text) (mtime inode : Z) | Link (mtime : Z).

(** An I/O error: a call is refused, or it fails after its effect; a removal may be [torn]:
    the entries named were removed before it failed. *)
Inductive fault := no_fault | refused | late | torn (removed : list fpath).

Record disk := { nodes : gmap fpath node; faults : list fault; next_inode : Z }.
Definition set_nodes (t : gmap fpath node) (d : disk) : disk :=
  {| nodes := t; faults := faults d; next_inode := next_inode d |}.

Abbreviation disk_op := (prog disk string).

(** [lstat]: the folders on the way are looked up. *)
Fixpoint walk (t : gmap fpath node) (at_ rest : fpath) : outcome string node :=
  match t !! at_ with
  | None => Raise "FileNotFoundError"
  | Some n =>
      match rest with
      | [] => Ok n
      | c :: rest =>
          match n with
          | Folder _ => walk t (at_ ++ [c]) rest
          | Regular _ _ _ => Raise "NotADirectoryError"
          | Link _ => Raise "FileNotFoundError"
          end
      end
  end.
Definition lstat (p : fpath) (d : disk) : outcome string node := walk (nodes d) [] p.

Definition is_directory (p : fpath) (d : disk) : bool := match lstat p d with Ok (Folder _) => true | _ => false end.
(** [Path.exists] *)
Definition exists_at (p : fpath) (d : disk) : bool :=
  match lstat p d with Ok (Folder _) | Ok (Regular _ _ _) => true | _ => false end.

Definition parent (p : fpath) : fpath := removelast p.
Definition occupied (p : fpath) (t : gmap fpath node) : Prop := ∃ c, is_Some (t !! (p ++ [c])).

(** One system call, with what is left of its effect when it is torn. *)
Definition faulty {A} (m : disk_op A) (rest : list fpath → disk → disk) : disk_op A := λ d,
  match faults d with
  | [] => m d
  | f :: fs =>
      let d := {| nodes := nodes d; faults := fs; next_inode := next_inode d |} in
      match f with
      | no_fault => m d
      | refused => (Raise "OSError", d)
      | late => (Raise "OSError", (m d).2)
      | torn l => (Raise "OSError", rest l d)
      end
  end.
Definition whole (_ : list fpath) (d : disk) : disk := d.

Section calls.
Context (now : Z).

(** An entry of the folder changed. *)
Definition touch (p : fpath) (t : gmap fpath node) : gmap fpath node :=
  alter (λ n, match n with Folder _ => Folder now | _ => n end) p t.
Definition put (p : fpath) (n : node) (d : disk) : disk := set_nodes (<[p := n]> (touch (parent p) (nodes d))) d.
(** With everything below them. *)
Definition drop_entries (l : list fpath) (t : gmap fpath node) : gmap fpath node :=
  filter (λ x, ¬ Exists (λ p, p `prefix_of` x.1) l) t.

(** [mkdir(parents=True, exist_ok=True)] *)
Fixpoint make_directories (at_ rest : fpath) : disk_op unit := λ d,
  match nodes d !! at_ with
  | Some (Folder _) => match rest with [] => (Ok tt, d) | c :: rest => make_directories (at_ ++ [c]) rest d end
  | Some (Regular _ _ _) => (Raise (match rest with [] => "FileExistsError" | _ => "NotADirectoryError" end), d)
  | Some (Link _) => (Raise "FileExistsError", d)
  | None =>
      let d := put at_ (Folder now) d in
      match rest with [] => (Ok tt, d) | c :: rest => make_directories (at_ ++ [c]) rest d end
  end.
Definition ensure_directory (p : fpath) : disk_op unit := faulty (make_directories [] p) whole.

(** A sibling is written, synced and renamed over the target, and unlinked if it is still
    there. These calls are one step here: the sibling's name (a random number and the
    process) is nobody else's, and on every path of the call the sibling is gone at its end,
    so that the rename is all that anybody else sees of it. A fault before the rename leaves
    the target as it was ([refused]), one after it (the directory's sync) the new content
    ([late]). What a crash of the process leaves of the sibling is not modelled here; the
    scan of artifacts collects such files ([Artifacts.v]). *)
Definition replace_file (p : fpath) (bytes : text) : disk_op unit := λ d,
  match lstat (parent p) d with
  | Ok (Folder _) =>
      match nodes d !! p with
      | Some (Folder _) => (Raise "IsADirectoryError", d)
      | _ => let d := put p (Regular bytes now (next_inode d)) d in
             (Ok tt, {| nodes := nodes d; faults := faults d; next_inode := next_inode d + 1 |})
      end
  | Ok (Regular _ _ _) => (Raise "NotADirectoryError", d)
  | Ok (Link _) => (Raise "FileNotFoundError", d)
  | Raise e => (Raise e, d)
  end.
Definition write_bytes_file (p : fpath) (bytes : text) : disk_op unit := faulty (replace_file p bytes) whole.

Definition unlink (p : fpath) : disk_op unit :=
  faulty (λ d, match lstat p d with
               | Ok (Folder _) => (Raise "IsADirectoryError", d)
               | Ok _ => (Ok tt, set_nodes (delete p (touch (parent p) (nodes d))) d)
               | Raise e => (Raise e, d)
               end) whole.
Definition rmdir (p : fpath) : disk_op unit :=
  faulty (λ d, match lstat p d with
               | Ok (Folder _) =>
                   if bool_decide (map_Exists (λ q _, parent q = p ∧ q ≠ []) (nodes d)) then (Raise "OSError", d)
                   else (Ok tt, set_nodes (delete p (touch (parent p) (nodes d))) d)
               | Ok _ => (Raise "NotADirectoryError", d)
               | Raise e => (Raise e, d)
               end) whole.

Definition _read_bytearray_file_no_follow (p : fpath) (max_bytes : option Z) : disk_op text :=
  if match max_bytes with Some n => n <? 0 | None => false end then praise "ValueError"
  else faulty (λ d, (match lstat p d with
                     | Ok (Regular bytes _ _) =>
                         if match max_bytes with Some n => n <? Z.of_nat (length bytes) | None => false end
                         then Raise "FileSizeLimitExceeded" else Ok bytes
                     | Ok (Folder _) => Raise "ValueError"
                     | Ok (Link _) => Raise "OSError"
                     | Raise e => Raise e
                     end, d)) whole.
Definition read_bytes_file_no_follow (p : fpath) : disk_op text := _read_bytearray_file_no_follow p None.

(** [shutil.rmtree] *)
Definition rmtree (p : fpath) : disk_op unit :=
  faulty (λ d, (Ok tt, set_nodes (drop_entries [p] (touch (parent p) (nodes d))) d))
         (λ l d, set_nodes (drop_entries (filter (λ q, p `prefix_of` q ∧ q ≠ p) l) (nodes d)) d).
Fixpoint remove_directories (paths : list fpath) : disk_op unit :=
  match paths with
  | [] => pret tt
  | p :: paths => λ d,
      if negb (is_directory p d) then remove_directories paths d
      else match rmtree p d with
           | (Ok _, d) => remove_directories paths d
           | (Raise e, d) => if bool_decide (e = "FileNotFoundError") then remove_directories paths d else (Raise e, d)
           end
  end.
End calls.

(** ** A document written chunk by chunk *)

Section stream.
Context {S E : Type} (checkpoint : prog S E unit) (too_big : Z → E).

(** The size, once every chunk passed: the checkpoint comes before each of them and at the
    end. *)
Fixpoint stream (chunks : list text) (max_bytes serialized_bytes : Z) : prog S E Z :=
  match chunks with
  | [] => do! checkpoint in pret serialized_bytes
  | chunk :: chunks =>
      do! checkpoint in
      let observed := serialized_bytes + Z.of_nat (length chunk) in
      if max_bytes <? observed then praise (too_big observed) else stream chunks max_bytes observed
  end.
End stream.

(** * The tree of files stays a tree

    What the calls of Filesystem.v do to the entries of the tree, in terms of its lookup. *)

(** Every entry but the root is in a folder. *)
Definition tree_ok (t : gmap fpath node) : Prop :=
  ∀ p c n, t !! (p ++ [c]) = Some n → ∃ m, t !! p = Some (Folder m).

Definition is_folder (n : node) : bool := match n with Folder _ => true | _ => false end.
(** The content of a regular file. *)
Definition content (n : option node) : option text := match n with Some (Regular b _ _) => Some b | _ => None end.

Lemma tree_prefix t p q n : tree_ok t → t !! (p ++ q) = Some n → q ≠ [] → ∃ m, t !! p = Some (Folder m).
Proof.
  intros Ht. revert n. induction q as [|c q IH] using rev_ind; intros n Hn Hq; [done|]. rewrite app_assoc in Hn.
  destruct (Ht _ _ _ Hn) as [m Hm]. destruct (decide (q = [])) as [->|Hne]; [rewrite app_nil_r in Hm; eauto|eauto].
Qed.

Lemma walk_found t at_ rest n : tree_ok t → t !! (at_ ++ rest) = Some n → walk t at_ rest = Ok n.
Proof.
  intros Ht. revert at_. induction rest as [|c rest IH]; intros at_ Hn; cbn [walk].
  - rewrite app_nil_r in Hn. by rewrite Hn.
  - destruct (tree_prefix t at_ (c :: rest) n Ht Hn) as [m ->]; [done|]. apply IH. by rewrite <- app_assoc.
Qed.
Lemma walk_ok t at_ rest n : walk t at_ rest = Ok n → t !! (at_ ++ rest) = Some n.
Proof.
  revert at_. induction rest as [|c rest IH]; intros at_; cbn [walk].
  - rewrite app_nil_r. destruct (t !! at_); congruence.
  - destruct (t !! at_) as [[]|]; try done. intros Hw%IH. by rewrite <- app_assoc in Hw.
Qed.
Lemma lstat_found d p n : tree_ok (nodes d) → nodes d !! p = Some n → lstat p d = Ok n.
Proof. apply (walk_found _ []). Qed.
Lemma lstat_ok d p n : lstat p d = Ok n → nodes d !! p = Some n.
Proof. apply (walk_ok _ []). Qed.
Lemma lstat_missing d p e : tree_ok (nodes d) → lstat p d = Raise e → nodes d !! p = None.
Proof. intros Ht He. destruct (nodes d !! p) eqn:E; [|done]. by rewrite (lstat_found d p _ Ht E) in He. Qed.

(** ** One change *)

Section changes.
Context (now : Z).

Lemma lookup_touch p q t :
  touch now p t !! q = (if bool_decide (p = q) then (λ n, match n with Folder _ => Folder now | _ => n end) <$> t !! q else t !! q).
Proof.
  unfold touch. case_bool_decide as Hq; [subst; by rewrite lookup_alter_eq|by rewrite lookup_alter_ne].
Qed.
Lemma touch_folder p q t m : t !! q = Some (Folder m) → ∃ m', touch now p t !! q = Some (Folder m').
Proof. intros Hq. rewrite lookup_touch, Hq. case_bool_decide; cbn; eauto. Qed.
Lemma touch_some p q t n : touch now p t !! q = Some n → ∃ n', t !! q = Some n' ∧ is_folder n' = is_folder n ∧ content (Some n') = content (Some n).
Proof.
  rewrite lookup_touch. case_bool_decide; [|eauto]. destruct (t !! q) as [[]|]; cbn; intros [= <-]; eauto.
Qed.
Lemma touch_content p q t : content (touch now p t !! q) = content (t !! q).
Proof. rewrite lookup_touch. case_bool_decide; [|done]. by destruct (t !! q) as [[]|]. Qed.
Lemma touch_none p q t : touch now p t !! q = None ↔ t !! q = None.
Proof. rewrite lookup_touch. case_bool_decide; [|done]. destruct (t !! q); cbn; split; congruence. Qed.

Lemma touch_ok p t : tree_ok t → tree_ok (touch now p t).
Proof.
  intros Ht q c n (n' & Hn & _)%touch_some. destruct (Ht _ _ _ Hn) as [m Hm]. by eapply touch_folder.
Qed.

Lemma put_ok p c n d :
  tree_ok (nodes d) → (∃ m, nodes d !! p = Some (Folder m)) →
  (∀ m, nodes d !! (p ++ [c]) = Some (Folder m) → is_folder n = true) →
  tree_ok (nodes (put now (p ++ [c]) n d)).
Proof.
  intros Ht [m Hm] Hk q c' n'. unfold put. cbn. unfold parent. rewrite removelast_last.
  destruct (decide (q = p ++ [c])) as [->|Hq].
  - rewrite lookup_insert_ne by (intros E; apply (f_equal length) in E; rewrite !length_app in E; cbn in E; lia).
    intros (n1 & Hn1 & _)%touch_some. destruct (Ht _ _ _ Hn1) as [m1 Hm1]. rewrite lookup_insert_eq.
    specialize (Hk _ Hm1). destruct n; try done. eauto.
  - rewrite (lookup_insert_ne _ _ q) by done. intros Hn'.
    destruct (decide (p ++ [c] = q ++ [c'])) as [E|E].
    + apply app_inj_tail in E as [<- <-]. by eapply touch_folder.
    + rewrite lookup_insert_ne in Hn' by done. apply touch_some in Hn' as (n1 & Hn1 & _).
      destruct (Ht _ _ _ Hn1) as [m1 Hm1]. by eapply touch_folder.
Qed.

Lemma put_lookup_ne p q n d : p ≠ q → content (nodes (put now p n d) !! q) = content (nodes d !! q).
Proof. intros Hq. unfold put. cbn. rewrite lookup_insert_ne by done. apply touch_content. Qed.

Lemma drop_lookup l t q : drop_entries l t !! q = if bool_decide (Exists (λ p, p `prefix_of` q) l) then None else t !! q.
Proof.
  unfold drop_entries. case_bool_decide as Hl.
  - destruct (filter _ t !! q) eqn:E; [|done]. apply map_lookup_filter_Some in E as [_ E]. by destruct E.
  - destruct (t !! q) eqn:E.
    + by apply map_lookup_filter_Some.
    + apply map_lookup_filter_None. by left.
Qed.
Lemma drop_ok l t : tree_ok t → tree_ok (drop_entries l t).
Proof.
  intros Ht p c n. rewrite !drop_lookup. case_bool_decide as H1; [done|]. intros Hn. destruct (Ht _ _ _ Hn) as [m Hm].
  rewrite bool_decide_false; [eauto|]. intros H2. apply H1. eapply Exists_impl; [exact H2|]. cbn. intros x Hx.
  by apply prefix_app_r.
Qed.
Lemma delete_ok p t : tree_ok t → (∀ c, t !! (p ++ [c]) = None) → tree_ok (delete p t).
Proof.
  intros Ht Hp q c n. destruct (decide (q = p)) as [->|Hq].
  - rewrite lookup_delete_ne by (intros E; apply (f_equal length) in E; rewrite length_app in E; cbn in E; lia).
    by rewrite Hp.
  - intros [_ Hn]%lookup_delete_Some. destruct (Ht _ _ _ Hn) as [m Hm]. rewrite lookup_delete_ne by done. eauto.
Qed.
End changes.

(** ** Calls *)

Definition with_faults (fs : list fault) (d : disk) : disk := {| nodes := nodes d; faults := fs; next_inode := next_inode d |}.

Section faults.
Context {A : Type} (m : disk_op A) (rest : list fpath → disk → disk).

Lemma faulty_keeps (P : gmap fpath node → Prop) d :
  (∀ d, P (nodes d) → P (nodes (m d).2)) → (∀ l d, P (nodes d) → P (nodes (rest l d))) →
  P (nodes d) → P (nodes (faulty m rest d).2).
Proof.
  intros Hm Hr Hd. unfold faulty. destruct (faults d) as [|[| | |l] fs]; cbn; auto.
Qed.
Lemma faulty_ok d a : (faulty m rest d).1 = Ok a → ∃ fs, m (with_faults fs d) = (Ok a, (faulty m rest d).2).
Proof.
  unfold faulty. destruct (faults d) as [|[| | |l] fs] eqn:E; cbn; try done.
  - intros Ha. exists []. unfold with_faults. rewrite <- E. destruct d as [t fs i]; cbn in *. subst.
    destruct (m _); cbn in *. by subst.
  - intros Ha. exists fs. unfold with_faults. destruct (m _); cbn in *. by subst.
Qed.
Lemma faulty_raise d e :
  (faulty m rest d).1 = Raise e →
  e = "OSError" ∨ ∃ fs, m (with_faults fs d) = (Raise e, (faulty m rest d).2).
Proof.
  unfold faulty. destruct (faults d) as [|[| | |l] fs] eqn:E; cbn; try (by intros [= <-]; left).
  - intros Ha. right. exists []. unfold with_faults. rewrite <- E. destruct d as [t fs i]; cbn in *. subst.
    destruct (m _); cbn in *. by subst.
  - intros Ha. right. exists fs. unfold with_faults. destruct (m _); cbn in *. by subst.
Qed.
Lemma faulty_none d : faults d = [] → faulty m rest d = m d.
Proof. intros E. unfold faulty. by rewrite E. Qed.
Lemma faulty_no_faults d : (∀ d, faults (m d).2 = faults d) → faults d = [] → faults (faulty m rest d).2 = [].
Proof. intros Hm E. by rewrite faulty_none, Hm. Qed.
End faults.

Section operations.
Context (now : Z).

(** The content of [p], in a well-formed tree. *)
Definition holds (p : fpath) (x : option text) (t : gmap fpath node) : Prop := tree_ok t ∧ content (t !! p) = x.

(** A folder can be made at [at_]. *)
Definition room (at_ : fpath) (t : gmap fpath node) : Prop := at_ = [] ∨ ∃ q c m, at_ = q ++ [c] ∧ t !! q = Some (Folder m).

Lemma put_folder_keeps at_ p x d :
  nodes d !! at_ = None → room at_ (nodes d) → holds p x (nodes d) → holds p x (nodes (put now at_ (Folder now) d)).
Proof.
  intros E Hat [Ht Hx]. split.
  - destruct Hat as [->|(q & c & m & -> & Hq)]; [|by apply put_ok; [|eauto|]].
    intros q c n. unfold put. cbn. rewrite lookup_insert_ne by (by destruct q). intros (n' & Hn & _)%touch_some.
    destruct (Ht _ _ _ Hn) as [m Hm]. destruct (decide (q = [])) as [->|Hne]; [by rewrite E in Hm|].
    rewrite lookup_insert_ne by done. by eapply touch_folder.
  - rewrite <- Hx. destruct (decide (at_ = p)) as [->|]; [|by apply put_lookup_ne].
    rewrite E. unfold put. cbn. by rewrite lookup_insert_eq.
Qed.

Lemma make_directories_keeps at_ rest p x d :
  room at_ (nodes d) → holds p x (nodes d) → holds p x (nodes (make_directories now at_ rest d).2).
Proof.
  revert at_ d. induction rest as [|c rest IH]; intros at_ d Hat Hx; cbn [make_directories];
    destruct (nodes d !! at_) as [[m| |]|] eqn:E; cbn; try done.
  - by apply put_folder_keeps.
  - apply IH; [|done]. right. eauto 6.
  - apply IH; [|by apply put_folder_keeps]. right. exists at_, c, now. split; [done|]. unfold put. cbn. by rewrite lookup_insert_eq.
Qed.

Lemma ensure_directory_keeps q p x d : holds p x (nodes d) → holds p x (nodes (ensure_directory now q d).2).
Proof. apply faulty_keeps; [|done]. intros d'. apply make_directories_keeps. by left. Qed.

Lemma replace_file_spec dir name bytes d :
  tree_ok (nodes d) →
  let r := replace_file now (dir ++ [name]) bytes d in
  match r.1 with
  | Ok _ => holds (dir ++ [name]) (Some bytes) (nodes r.2)
  | Raise _ => r.2 = d ∧ content (nodes d !! (dir ++ [name])) = None
  end.
Proof.
  intros Ht. cbv zeta. unfold replace_file, parent. rewrite removelast_last.
  assert (∀ n, nodes d !! (dir ++ [name]) = Some n → ∃ m, lstat dir d = Ok (Folder m)) as Hdir.
  { intros n [m Hm]%Ht. exists m. by apply lstat_found. }
  destruct (lstat dir d) as [[m| |]|] eqn:El; cbn.
  2-4: split; [done|]; destruct (nodes d !! (dir ++ [name])) eqn:E; [by destruct (Hdir _ eq_refl)|done].
  apply lstat_ok in El.
  assert (∀ n, is_folder n = false → (∀ m, nodes d !! (dir ++ [name]) ≠ Some (Folder m)) →
    holds (dir ++ [name]) (content (Some n)) (nodes (put now (dir ++ [name]) n d))) as Hput.
  { intros n Hn Hf. split; [|unfold put; cbn; by rewrite lookup_insert_eq]. apply put_ok; [done|eauto|].
    intros m' Hm'. by destruct (Hf m'). }
  destruct (nodes d !! (dir ++ [name])) as [[]|] eqn:E; cbn; try done; by apply (Hput (Regular bytes now (next_inode d))).
Qed.

Lemma write_bytes_file_spec dir name bytes x d :
  holds (dir ++ [name]) x (nodes d) →
  let r := write_bytes_file now (dir ++ [name]) bytes d in
  (r.1 = Ok tt → holds (dir ++ [name]) (Some bytes) (nodes r.2)) ∧
  (holds (dir ++ [name]) x (nodes r.2) ∨ holds (dir ++ [name]) (Some bytes) (nodes r.2)) ∧
  (faults d = [] → faults r.2 = [] ∧ (r.1 ≠ Ok tt → r.2 = d ∧ x = None)).
Proof.
  intros Hx. cbv zeta.
  assert (∀ d', nodes d' = nodes d → let r := replace_file now (dir ++ [name]) bytes d' in
    match r.1 with Ok _ => holds (dir ++ [name]) (Some bytes) (nodes r.2) | Raise _ => r.2 = d' ∧ x = None end) as Hr.
  { intros d' E. destruct Hx as [Ht Hx]. rewrite <- E in Ht, Hx. rewrite <- Hx. by apply replace_file_spec. }
  split_and!.
  - intros [fs Hf]%faulty_ok. specialize (Hr (with_faults fs d) eq_refl). cbv zeta in Hr. by rewrite Hf in Hr.
  - apply (faulty_keeps _ _ (λ t, holds (dir ++ [name]) x t ∨ holds (dir ++ [name]) (Some bytes) t)); [|tauto|by left].
    intros d' Hd. assert (tree_ok (nodes d')) as Ht by (by destruct Hd as [[]|[]]).
    pose proof (replace_file_spec dir name bytes d' Ht) as Hs. cbv zeta in Hs.
    destruct (replace_file _ _ _ _) as [[]?]; cbn in *; [by right|by destruct Hs as [-> _]].
  - intros Hf. unfold write_bytes_file. rewrite faulty_none by done. specialize (Hr d eq_refl). cbv zeta in Hr.
    destruct (replace_file _ _ _ _) as [[[]|e] d'] eqn:E; cbn in *; [|by destruct Hr as [-> ->]]. split; [|done].
    revert E. unfold replace_file. repeat case_match; intros [=]; subst; done.
Qed.

Lemma no_children t p n : tree_ok t → t !! p = Some n → is_folder n = false → ∀ c, t !! (p ++ [c]) = None.
Proof.
  intros Ht Hp Hn c. destruct (t !! (p ++ [c])) eqn:E; [|done]. destruct (Ht _ _ _ E) as [m Hm].
  rewrite Hp in Hm. injection Hm as ->. done.
Qed.

Lemma unlink_spec p x d :
  holds p x (nodes d) →
  let r := unlink now p d in
  (r.1 = Ok tt ∨ r.1 = Raise "FileNotFoundError" → holds p None (nodes r.2)) ∧
  (holds p x (nodes r.2) ∨ holds p None (nodes r.2)) ∧
  (faults d = [] → faults r.2 = [] ∧ (r.1 ≠ Ok tt → r.2 = d ∧ x = None)).
Proof.
  intros Hx. cbv zeta. unfold unlink. set (m := λ d, _).
  assert (∀ d', tree_ok (nodes d') → match (m d').1 with
    | Ok _ => holds p None (nodes (m d').2) | Raise e => (m d').2 = d' ∧ holds p None (nodes d') end) as Hm.
  { intros d' Ht. subst m. cbn beta. destruct (lstat p d') as [n|e] eqn:El.
    - apply lstat_ok in El. assert (is_folder n = false → holds p None (delete p (touch now (parent p) (nodes d')))) as Hd.
      { intros Hn. split; [|by rewrite lookup_delete_eq]. apply delete_ok; [by apply touch_ok|]. intros c.
        apply touch_none. by eapply no_children. }
      destruct n; cbn; auto. split; [done|]. split; [done|]. by rewrite El.
    - cbn. split; [done|]. split; [done|]. by rewrite (lstat_missing d' p _ Ht El). }
  split_and!.
  - intros Ho. destruct Ho as [[fs Hf]%faulty_ok|[|[fs Hf]]%faulty_raise]; [|done|];
      specialize (Hm (with_faults fs d) (proj1 Hx)); rewrite Hf in Hm; cbn in Hm; [done|].
    by destruct Hm as [-> Hm].
  - apply (faulty_keeps _ _ (λ t, holds p x t ∨ holds p None t)); [|tauto|by left].
    intros d' Hd. assert (tree_ok (nodes d')) as Ht by (by destruct Hd as [[]|[]]). specialize (Hm d' Ht).
    destruct (m d') as [[]?]; cbn in *; [by right|by destruct Hm as [-> _]].
  - intros Hf. rewrite faulty_none by done. specialize (Hm d (proj1 Hx)).
    destruct (m d) as [[[]|e] d'] eqn:E; cbn in *;
      [|destruct Hm as [-> [_ Hn]]; destruct Hx as [_ <-]; by rewrite Hn]. split; [|done].
    revert E. subst m. cbn beta. repeat case_match; intros [=]; subst; done.
Qed.

Lemma rmdir_keeps q p x d : holds p x (nodes d) → holds p x (nodes (rmdir now q d).2).
Proof.
  unfold rmdir. apply faulty_keeps; [|done]. intros d' [Ht Hx]. destruct (lstat q d') as [[m| |]|] eqn:El; cbn; try by split.
  apply lstat_ok in El. case_bool_decide as He; cbn; [by split|]. split.
  - apply delete_ok; [by apply touch_ok|]. intros c. apply touch_none. destruct (nodes d' !! (q ++ [c])) eqn:E; [|done].
    exfalso. apply He. exists (q ++ [c]), n. split; [done|]. unfold parent. rewrite removelast_last. split; [done|]. by destruct q.
  - destruct (decide (q = p)) as [->|Hq]; [rewrite lookup_delete_eq; rewrite El in Hx; by rewrite <- Hx|].
    by rewrite lookup_delete_ne, touch_content.
Qed.
Lemma rmdir_faults q d : faults d = [] → faults (rmdir now q d).2 = [].
Proof. intros Hf. unfold rmdir. rewrite faulty_none by done. by repeat case_match. Qed.
Lemma ensure_faults q d : faults d = [] → faults (ensure_directory now q d).2 = [].
Proof.
  intros Hf. unfold ensure_directory. rewrite faulty_none by done. generalize (@nil string) as at_. revert d Hf.
  induction q as [|c q IH]; intros d Hf at_; cbn [make_directories]; repeat case_match; cbn; try done; by apply IH.
Qed.
End operations.

(** A check that a tree is well-formed. *)
Definition tree_checked (t : gmap fpath node) : bool :=
  forallb (λ x, bool_decide (x.1 = []) || match t !! parent x.1 with Some n => is_folder n | None => false end) (map_to_list t).
Lemma tree_checked_ok t : tree_checked t = true → tree_ok t.
Proof.
  intros Hc p c n Hn. unfold tree_checked in Hc. rewrite forallb_elem in Hc. specialize (Hc (p ++ [c], n)).
  rewrite elem_of_map_to_list in Hc. specialize (Hc Hn). cbn in Hc. unfold parent in Hc. rewrite removelast_last in Hc.
  rewrite bool_decide_false in Hc by by destruct p. destruct (t !! p) as [[]|]; cbn in Hc; try done. eauto.
Qed.
