(* ===== verification/IpPolicy.v ===== *)
(** * The address policy ([engine/ip_policy.py])

    Which connected addresses the service refuses, and the ordered firewall entries that
    are rendered from the same tables. An address is a number of 32 or 128 bits; what the
    policy uses of [ipaddress] is modelled on these numbers. *)

From S2P Require Import Prelude.
Open Scope N_scope.

(** ** Addresses and networks (the library's [ipaddress]) *)

Inductive family := v4 | v6.
#[export] Instance family_eq_dec : EqDecision family.
Proof. solve_decision. Defined.

Record IPAddress := { ip_version : family; ip : N }.
Record IPNetwork := { net_version : family; network_address : N; prefixlen : N }.

#[export] Instance IPNetwork_eq_dec : EqDecision IPNetwork.
Proof. solve_decision. Defined.

Definition max_prefixlen (v : family) : N := match v with v4 => 32 | v6 => 128 end.
Definition all_ones (v : family) : N := N.ones (max_prefixlen v).
(** [_ip_int_from_prefix] *)
Definition netmask (n : IPNetwork) : N :=
  N.lxor (all_ones (net_version n)) (N.shiftr (all_ones (net_version n)) (prefixlen n)).
(** [address in network] *)
Definition in_network (a : IPAddress) (n : IPNetwork) : bool :=
  bool_decide (ip_version a = net_version n) && (N.land (ip a) (netmask n) =? network_address n).

(** An address fits its family; a network has no host bits. *)
Definition valid_address (a : IPAddress) : Prop := ip a < 2 ^ max_prefixlen (ip_version a).

(** Dotted and colon notation. *)
Definition octets (a b c d : N) : N := ((a * 256 + b) * 256 + c) * 256 + d.
Definition groups (l : list N) : N := foldl (λ n g, n * 65536 + g) 0 l.
Definition net4 (a b c d len : N) : IPNetwork :=
  {| net_version := v4; network_address := octets a b c d; prefixlen := len |}.
(** The first groups, the rest being zero. *)
Definition net6 (l : list N) (len : N) : IPNetwork :=
  {| net_version := v6; network_address := groups (l ++ replicate (8 - length l) 0); prefixlen := len |}.

(** ** The tables *)

Definition PUBLIC_ADDRESS_EXCEPTIONS : list IPNetwork :=
  [ net6 [0x2001; 1; 0; 0; 0; 0; 0; 1] 128; net6 [0x2001; 1; 0; 0; 0; 0; 0; 2] 128;
    net6 [0x2001; 1; 0; 0; 0; 0; 0; 3] 128; net6 [0x2001; 3] 32; net6 [0x2001; 4; 0x112] 48;
    net6 [0x2001; 0x20] 28; net6 [0x2001; 0x30] 28 ].

Definition DENIED_ADDRESS_NETWORKS : list IPNetwork :=
  [ net4 0 0 0 0 8; net4 10 0 0 0 8; net4 100 64 0 0 10; net4 127 0 0 0 8; net4 169 254 0 0 16;
    net4 172 16 0 0 12; net4 192 0 0 0 24; net4 192 0 2 0 24; net4 192 88 99 0 24; net4 192 168 0 0 16;
    net4 198 18 0 0 15; net4 198 51 100 0 24; net4 203 0 113 0 24; net4 224 0 0 0 4; net4 240 0 0 0 4;
    net6 [] 96; net6 [0; 0; 0; 0; 0xffff] 96; net6 [0x64; 0xff9b; 1] 48; net6 [0x100] 64;
    net6 [0x100; 0; 0; 1] 64; net6 [0x2001] 23; net6 [0x2001; 0xdb8] 32; net6 [0x2002] 16;
    net6 [0x3fff] 20; net6 [0x5f00] 16; net6 [0xfc00] 7; net6 [0xfe80] 10; net6 [0xfec0] 10; net6 [0xff00] 8 ].

Definition _IPV4_DENIED_NETWORKS : list IPNetwork :=
  filter (λ n, net_version n = v4) DENIED_ADDRESS_NETWORKS.
Definition _IPV4_EMBEDDING_PREFIXES : list IPNetwork := [net6 [0x64; 0xff9b] 96; net6 [0x64; 0xff9b; 1] 48].

(** ** The application's decision *)

Definition low32 (x : N) : N := N.land x 0xFFFFFFFF.
Definition ipv4 (x : N) : IPAddress := {| ip_version := v4; ip := x |}.

(** [IPv6Address.ipv4_mapped], [.sixtofour], [.teredo] *)
Definition ipv4_mapped (x : N) : option N := if N.shiftr x 32 =? 0xFFFF then Some (low32 x) else None.
Definition sixtofour (x : N) : option N := if N.shiftr x 112 =? 0x2002 then Some (low32 (N.shiftr x 80)) else None.
Definition teredo (x : N) : option (N * N) :=
  if N.shiftr x 96 =? 0x20010000 then Some (low32 (N.shiftr x 64), low32 (N.lxor x (all_ones v6))) else None.

Definition embedded_ipv4_addresses (address : N) : list N :=
  match ipv4_mapped address with Some x => [x] | None => [] end ++
  match sixtofour address with Some x => [x] | None => [] end ++
  match teredo address with Some (server, client) => [server; client] | None => [] end ++
  flat_map (λ prefix, if in_network {| ip_version := v6; ip := address |} prefix then [low32 address] else [])
    _IPV4_EMBEDDING_PREFIXES.

Definition listed (a : IPAddress) (l : list IPNetwork) : bool := existsb (in_network a) l.

(** The recursion is one deep: the addresses embedded are IPv4. *)
Definition ip_is_blocked (a : IPAddress) : bool :=
  if listed a PUBLIC_ADDRESS_EXCEPTIONS then false
  else if listed a DENIED_ADDRESS_NETWORKS then true
  else match ip_version a with
       | v6 => existsb (λ x, negb (listed (ipv4 x) PUBLIC_ADDRESS_EXCEPTIONS) &&
                             listed (ipv4 x) DENIED_ADDRESS_NETWORKS)
                 (embedded_ipv4_addresses (ip a))
       | v4 => false
       end.

(** ** The firewall's entries *)

Inductive action := allow | deny.

Definition _embedded_ipv4_firewall_networks (prefix : IPNetwork) (networks : list IPNetwork) : list IPNetwork :=
  map (λ n, {| net_version := v6; network_address := N.lor (network_address prefix) (network_address n);
               prefixlen := 96 + prefixlen n |}) networks.

Definition firewall_policy_entries : list (family * action * IPNetwork) :=
  map (λ n, (net_version n, allow, n)) PUBLIC_ADDRESS_EXCEPTIONS ++
  map (λ n, (net_version n, deny, n)) DENIED_ADDRESS_NETWORKS ++
  flat_map (λ prefix, map (λ n, (v6, deny, n)) (_embedded_ipv4_firewall_networks prefix _IPV4_DENIED_NETWORKS))
    [net6 [0; 0; 0; 0; 0; 0xffff] 96; net6 [0x64; 0xff9b] 96].

(** A firewall takes the first entry of the family whose network has the address, and
    lets the rest pass. *)
Fixpoint first_match (l : list (family * action * IPNetwork)) (a : IPAddress) : action :=
  match l with
  | [] => allow
  | (f, act, n) :: l => if bool_decide (f = ip_version a) && in_network a n then act else first_match l a
  end.

(** * One policy for the application and the firewall

    The rendered entries decide, first match first, exactly as [ip_is_blocked]. *)

(** ** Networks by their prefix *)

Definition host_bits (n : IPNetwork) : N := max_prefixlen (net_version n) - prefixlen n.
Record network_ok (n : IPNetwork) : Prop := {
  ok_prefix : prefixlen n ≤ max_prefixlen (net_version n);
  ok_address : network_address n < 2 ^ max_prefixlen (net_version n);
  ok_host : N.land (network_address n) (N.ones (host_bits n)) = 0;
}.

Definition network_okb (n : IPNetwork) : bool :=
  (prefixlen n <=? max_prefixlen (net_version n)) &&
  (network_address n <? 2 ^ max_prefixlen (net_version n)) &&
  (N.land (network_address n) (N.ones (host_bits n)) =? 0).
Lemma networks_ok l : forallb network_okb l = true → Forall network_ok l.
Proof.
  intros Hl. apply Forall_forall. intros n Hn. rewrite forallb_forall in Hl.
  specialize (Hl n (proj1 (list_elem_of_In _ _) Hn)). unfold network_okb in Hl.
  apply andb_true_iff in Hl as [[H1 H2]%andb_true_iff H3].
  constructor; [by apply N.leb_le|by apply N.ltb_lt|by apply N.eqb_eq].
Qed.

Lemma small_bits x w i : x < 2 ^ w → w ≤ i → N.testbit x i = false.
Proof.
  intros Hx Hi. destruct (N.eq_dec x 0) as [->|Hne]; [apply N.bits_0|].
  apply N.bits_above_log2. apply N.log2_lt_pow2 in Hx; lia.
Qed.

(** Masking keeps the prefix. *)
Lemma mask_keeps x w k : x < 2 ^ w → k ≤ w → N.land x (N.lxor (N.ones w) (N.ones k)) = N.shiftl (N.shiftr x k) k.
Proof.
  intros Hx Hk. apply N.bits_inj. intros i. rewrite N.land_spec, N.lxor_spec.
  destruct (N.lt_ge_cases i k) as [Hi|Hi].
  - rewrite N.shiftl_spec_low by done. rewrite !N.ones_spec_low by lia. by rewrite andb_false_r.
  - rewrite N.shiftl_spec_high' by done. rewrite N.shiftr_spec' by done.
    rewrite (N.ones_spec_high k) by lia. replace (i - k + k) with i by lia.
    destruct (N.lt_ge_cases i w) as [Hw|Hw].
    + rewrite N.ones_spec_low by lia. by rewrite andb_true_r.
    + rewrite (small_bits x w) by done. done.
Qed.

Lemma netmask_eq n : network_ok n → netmask n = N.lxor (all_ones (net_version n)) (N.ones (host_bits n)).
Proof.
  intros [Hp _ _]. unfold netmask, all_ones, host_bits. f_equal.
  apply N.bits_inj. intros i. rewrite N.shiftr_spec'.
  destruct (N.lt_ge_cases i (max_prefixlen (net_version n) - prefixlen n)) as [Hi|Hi].
  - rewrite !N.ones_spec_low by lia. done.
  - rewrite !N.ones_spec_high by lia. done.
Qed.

Lemma no_host_bits x k : N.land x (N.ones k) = 0 → N.shiftl (N.shiftr x k) k = x.
Proof.
  intros Hl. apply N.bits_inj. intros i. destruct (N.lt_ge_cases i k) as [Hi|Hi].
  - rewrite N.shiftl_spec_low by done. apply (f_equal (λ y, N.testbit y i)) in Hl.
    rewrite N.land_spec, N.ones_spec_low, andb_true_r, N.bits_0 in Hl by done. done.
  - rewrite N.shiftl_spec_high' by done. rewrite N.shiftr_spec'. f_equal. lia.
Qed.

Lemma in_network_prefix a n : network_ok n → valid_address a →
  in_network a n = bool_decide (ip_version a = net_version n) &&
                   (N.shiftr (ip a) (host_bits n) =? N.shiftr (network_address n) (host_bits n)).
Proof.
  intros Hn Ha. unfold in_network. case_bool_decide as Hv; [|done]. cbn [andb].
  rewrite (netmask_eq n Hn). unfold all_ones. rewrite <- Hv, mask_keeps; [|done|unfold host_bits; rewrite Hv; lia].
  rewrite <- (no_host_bits (network_address n) (host_bits n)) at 1 by apply Hn.
  apply eq_true_iff_eq. rewrite !N.eqb_eq. split; [|by intros ->].
  intros E. apply (f_equal (λ y, N.shiftr y (host_bits n))) in E.
  by rewrite !N.shiftr_shiftl_l, N.sub_diag, !N.shiftl_0_r in E by lia.
Qed.

(** ** IPv4 networks inside an IPv6 prefix *)

Definition of_96 (prefix : IPNetwork) : Prop :=
  network_ok prefix ∧ net_version prefix = v6 ∧ prefixlen prefix = 96.

Lemma low32_ones x : low32 x = N.land x (N.ones 32).
Proof. done. Qed.
Lemma low32_small x : low32 x < 2 ^ 32.
Proof. rewrite low32_ones, N.land_ones. by apply N.mod_lt. Qed.

Lemma lor_small x y w : x < 2 ^ w → y < 2 ^ w → N.lor x y < 2 ^ w.
Proof.
  intros Hx Hy. destruct (N.eq_dec (N.lor x y) 0) as [->|Hne]; [lia|].
  apply N.log2_lt_pow2; [lia|]. rewrite N.log2_lor.
  destruct (N.eq_dec w 0) as [->|Hw]; [assert (x = 0) as -> by lia; assert (y = 0) as -> by lia; done|].
  apply N.max_lub_lt.
  - destruct (N.eq_dec x 0) as [->|]; [cbn; lia|]. apply N.log2_lt_pow2; [lia|done].
  - destruct (N.eq_dec y 0) as [->|]; [cbn; lia|]. apply N.log2_lt_pow2; [lia|done].
Qed.

Lemma low_bits x k i : N.land x (N.ones k) = 0 → i < k → N.testbit x i = false.
Proof.
  intros Hl Hi. apply (f_equal (λ y, N.testbit y i)) in Hl.
  by rewrite N.land_spec, N.ones_spec_low, andb_true_r, N.bits_0 in Hl by done.
Qed.

Section embedded.
Context (prefix n : IPNetwork) (Hprefix : of_96 prefix) (Hn : network_ok n) (Hv : net_version n = v4).

Definition embedded : IPNetwork :=
  {| net_version := v6; network_address := N.lor (network_address prefix) (network_address n);
     prefixlen := 96 + prefixlen n |}.

Lemma embedded_ok : network_ok embedded.
Proof.
  destruct Hprefix as (P & Pv & Pl).
  pose proof (ok_prefix _ Hn) as H1. pose proof (ok_address _ Hn) as H2. pose proof (ok_host _ Hn) as H3.
  pose proof (ok_address _ P) as H4. pose proof (ok_host _ P) as H5. unfold host_bits in *.
  rewrite Hv in *. rewrite Pv, Pl in *. cbn [max_prefixlen] in *.
  constructor; unfold host_bits; cbn [embedded net_version prefixlen network_address max_prefixlen].
  - lia.
  - apply lor_small; [done|]. by apply N.lt_trans with (2 ^ 32).
  - rewrite N.land_lor_distr_l. replace (128 - (96 + prefixlen n)) with (32 - prefixlen n) by lia. rewrite H3, N.lor_0_r.
    apply N.bits_inj. intros i. rewrite N.land_spec, N.bits_0.
    destruct (N.lt_ge_cases i 32) as [Hi|Hi]; [by rewrite (low_bits _ 32)|].
    rewrite N.ones_spec_high by lia. by rewrite andb_false_r.
Qed.

(** The entry of an IPv4 network under a prefix has the addresses of the prefix that end
    in an address of the network. *)
Lemma in_embedded a : ip_version a = v6 → valid_address a →
  in_network a embedded = in_network a prefix && in_network (ipv4 (low32 (ip a))) n.
Proof.
  intros Hva Ha. pose proof Hprefix as (P & Pv & Pl).
  rewrite (in_network_prefix a embedded embedded_ok Ha), (in_network_prefix a prefix P Ha).
  rewrite (in_network_prefix (ipv4 (low32 (ip a))) n Hn); [|apply low32_small].
  rewrite Hva, Pv, Hv. cbn [embedded net_version ipv4 ip_version]. rewrite !bool_decide_true by done. cbn [andb].
  unfold host_bits. rewrite Pv, Pl, Hv. cbn [embedded net_version prefixlen network_address max_prefixlen ip].
  replace (128 - (96 + prefixlen n)) with (32 - prefixlen n) by lia. set (k := 32 - prefixlen n).
  pose proof (ok_address _ Hn) as HA. rewrite Hv in HA. cbn [max_prefixlen] in HA.
  pose proof (ok_host _ P) as HP. unfold host_bits in HP. rewrite Pv, Pl in HP. cbn [max_prefixlen] in HP.
  apply eq_true_iff_eq. rewrite andb_true_iff, !N.eqb_eq. change (128 - 96) with 32.
  assert (∀ i, N.testbit (N.lor (network_address prefix) (network_address n)) i =
               if i <? 32 then N.testbit (network_address n) i else N.testbit (network_address prefix) i) as Hbits.
  { intros i. rewrite N.lor_spec. destruct (N.ltb_spec i 32) as [Hi|Hi].
    - by rewrite (low_bits (network_address prefix) 32).
    - by rewrite (small_bits (network_address n) 32), orb_false_r. }
  split.
  - intros E. assert (∀ i, k ≤ i → N.testbit (ip a) i =
      if i <? 32 then N.testbit (network_address n) i else N.testbit (network_address prefix) i) as Hi.
    { intros i Hi. rewrite <- Hbits. apply (f_equal (λ y, N.testbit y (i - k))) in E.
      rewrite !N.shiftr_spec' in E. by replace (i - k + k) with i in E by lia. }
    split; apply N.bits_inj; intros i; rewrite !N.shiftr_spec'.
    + rewrite Hi by lia. by rewrite (proj2 (N.ltb_ge _ _)) by lia.
    + cbn [ipv4 ip]. rewrite low32_ones, N.land_spec. destruct (N.lt_ge_cases (i + k) 32) as [Hlt|Hge].
      * rewrite N.ones_spec_low, andb_true_r, Hi by lia. by rewrite (proj2 (N.ltb_lt _ _)).
      * rewrite N.ones_spec_high, andb_false_r by lia. by rewrite (small_bits _ 32).
  - intros [E1 E2]. apply N.bits_inj. intros i. rewrite !N.shiftr_spec', Hbits.
    destruct (N.ltb_spec (i + k) 32) as [Hlt|Hge].
    + apply (f_equal (λ y, N.testbit y i)) in E2. cbn [ipv4 ip] in E2. rewrite !N.shiftr_spec', low32_ones, N.land_spec in E2.
      by rewrite N.ones_spec_low, andb_true_r in E2.
    + apply (f_equal (λ y, N.testbit y (i + k - 32))) in E1. rewrite !N.shiftr_spec' in E1.
      by replace (i + k - 32 + 32) with (i + k) in E1 by lia.
Qed.
End embedded.

(** ** The decision of the entries *)

Lemma first_match_group (f : IPNetwork → family) act l rest a :
  Forall (λ n, f n = net_version n) l →
  first_match (map (λ n, (f n, act, n)) l ++ rest) a = if listed a l then act else first_match rest a.
Proof.
  induction 1 as [|n l Hn Hl IH]; [done|]. cbn [map app first_match]. unfold listed. cbn [existsb].
  assert (bool_decide (f n = ip_version a) && in_network a n = in_network a n) as ->.
  { rewrite Hn. unfold in_network. do 2 case_bool_decide; try done; congruence. }
  destruct (in_network a n); [done|exact IH].
Qed.

Lemma versions_agree (f : IPNetwork → family) l :
  forallb (λ n, bool_decide (f n = net_version n)) l = true → Forall (λ n, f n = net_version n) l.
Proof.
  intros Hl. apply Forall_forall. intros n Hn. rewrite forallb_forall in Hl.
  specialize (Hl n (proj1 (list_elem_of_In _ _) Hn)). by apply bool_decide_eq_true in Hl.
Qed.

Definition mapped_prefix : IPNetwork := net6 [0; 0; 0; 0; 0; 0xffff] 96.
Definition nat64_prefix : IPNetwork := net6 [0x64; 0xff9b] 96.
Definition embedded_entries (prefix : IPNetwork) : list IPNetwork :=
  _embedded_ipv4_firewall_networks prefix _IPV4_DENIED_NETWORKS.

Lemma entries_decision a :
  first_match firewall_policy_entries a =
  if listed a PUBLIC_ADDRESS_EXCEPTIONS then allow
  else if listed a DENIED_ADDRESS_NETWORKS then deny
  else if listed a (embedded_entries mapped_prefix) || listed a (embedded_entries nat64_prefix) then deny
  else allow.
Proof.
  unfold firewall_policy_entries. cbn [flat_map]. fold mapped_prefix nat64_prefix.
  fold (embedded_entries mapped_prefix). fold (embedded_entries nat64_prefix).
  rewrite first_match_group by by apply Forall_forall. destruct (listed a PUBLIC_ADDRESS_EXCEPTIONS); [done|].
  rewrite first_match_group by by apply Forall_forall. destruct (listed a DENIED_ADDRESS_NETWORKS); [done|].
  rewrite (first_match_group (λ _, v6)) by by apply versions_agree.
  destruct (listed a (embedded_entries mapped_prefix)); [done|].
  rewrite (first_match_group (λ _, v6)) by by apply versions_agree. done.
Qed.

(** ** The decision of the application *)

Lemma of_96_mapped : of_96 mapped_prefix.
Proof. split; [|done]. by apply (proj1 (Forall_forall _ _) (networks_ok [mapped_prefix] eq_refl)); left. Qed.
Lemma of_96_nat64 : of_96 nat64_prefix.
Proof. split; [|done]. by apply (proj1 (Forall_forall _ _) (networks_ok [nat64_prefix] eq_refl)); left. Qed.

Lemma denied4_ok : Forall (λ n, network_ok n ∧ net_version n = v4) _IPV4_DENIED_NETWORKS.
Proof.
  pose proof (networks_ok _IPV4_DENIED_NETWORKS eq_refl) as Hok. apply Forall_and. split; [done|].
  eapply Forall_impl; [exact (versions_agree (λ _, v4) _IPV4_DENIED_NETWORKS eq_refl)|]. by intros n.
Qed.

Lemma listed_embedded prefix a : of_96 prefix → ip_version a = v6 → valid_address a →
  listed a (embedded_entries prefix) = in_network a prefix && listed (ipv4 (low32 (ip a))) _IPV4_DENIED_NETWORKS.
Proof.
  intros HP Hv Ha. unfold listed, embedded_entries, _embedded_ipv4_firewall_networks.
  pose proof denied4_ok as Hd. induction Hd as [|n l [Hn Hn4] Hl IH]; cbn [map existsb].
  - by rewrite andb_false_r.
  - rewrite IH. fold (embedded prefix n). rewrite (in_embedded prefix n HP Hn Hn4 a Hv Ha).
    by destruct (in_network a prefix).
Qed.

Lemma listed4 x : listed (ipv4 x) DENIED_ADDRESS_NETWORKS = listed (ipv4 x) _IPV4_DENIED_NETWORKS.
Proof.
  unfold listed, _IPV4_DENIED_NETWORKS. induction DENIED_ADDRESS_NETWORKS as [|n l IH]; [done|].
  rewrite filter_cons. case_decide as Hn; cbn [existsb]; rewrite IH; [done|].
  unfold in_network. rewrite bool_decide_false; [done|]. intros E. by apply Hn.
Qed.
Lemma listed4_exceptions x : listed (ipv4 x) PUBLIC_ADDRESS_EXCEPTIONS = false.
Proof. done. Qed.

(** Membership in a network of the tables, by its prefix. *)
Lemma in_table a n : network_okb n = true → net_version n = v6 → ip_version a = v6 → valid_address a →
  N.shiftr (ip a) (host_bits n) = N.shiftr (network_address n) (host_bits n) → in_network a n = true.
Proof.
  intros Hok Hn Hv Ha E. assert (network_ok n) as N.
  { apply (proj1 (Forall_forall _ _) (networks_ok [n] ltac:(cbn; by rewrite Hok))). by left. }
  rewrite (in_network_prefix a n N Ha), Hv, Hn, E, bool_decide_true by done. apply N.eqb_refl.
Qed.

Lemma listed_member a n l : n ∈ l → in_network a n = true → listed a l = true.
Proof. intros Hn Ha. apply existsb_exists. exists n. by rewrite <- list_elem_of_In. Qed.

(** What is embedded in an address that the tables leave open. *)
Section open_address.
Context (a : IPAddress) (Hv : ip_version a = v6) (Ha : valid_address a).
Context (Hopen : listed a DENIED_ADDRESS_NETWORKS = false).

Lemma open_member n : n ∈ DENIED_ADDRESS_NETWORKS → in_network a n = false.
Proof.
  intros Hn. destruct (in_network a n) eqn:E; [|done]. by rewrite (listed_member a n _ Hn E) in Hopen.
Qed.

Lemma not_6to4 : sixtofour (ip a) = None.
Proof.
  unfold sixtofour. destruct (N.eqb_spec (N.shiftr (ip a) 112) 0x2002) as [E|]; [|done].
  assert (in_network a (net6 [0x2002] 16) = true) as Hin by by apply in_table.
  rewrite open_member in Hin; [done|]. by apply (bool_decide_unpack _); vm_compute.
Qed.

Lemma not_teredo : teredo (ip a) = None.
Proof.
  unfold teredo. destruct (N.eqb_spec (N.shiftr (ip a) 96) 0x20010000) as [E|]; [|done].
  assert (in_network a (net6 [0x2001] 23) = true) as Hin.
  { apply in_table; try done. apply (f_equal (λ y, N.shiftr y 9)) in E. by rewrite N.shiftr_shiftr in E. }
  rewrite open_member in Hin; [done|]. by apply (bool_decide_unpack _); vm_compute.
Qed.

Lemma mapped_is : ipv4_mapped (ip a) = if in_network a mapped_prefix then Some (low32 (ip a)) else None.
Proof.
  unfold ipv4_mapped. rewrite (in_network_prefix a mapped_prefix (proj1 of_96_mapped) Ha), Hv. done.
Qed.

Lemma embedded_are (f : N → bool) :
  existsb f (embedded_ipv4_addresses (ip a)) =
  (in_network a mapped_prefix || in_network a nat64_prefix) && f (low32 (ip a)).
Proof.
  unfold embedded_ipv4_addresses. rewrite not_6to4, not_teredo, mapped_is.
  assert ({| ip_version := v6; ip := ip a |} = a) as Ea by (rewrite <- Hv; by destruct a).
  cbn [flat_map _IPV4_EMBEDDING_PREFIXES app]. rewrite Ea. fold nat64_prefix.
  assert (in_network a (net6 [0x64; 0xff9b; 1] 48) = false) as ->.
  { apply open_member. by apply (bool_decide_unpack _); vm_compute. }
  destruct (in_network a mapped_prefix), (in_network a nat64_prefix); cbn; rewrite ?orb_false_r; try done.
  by destruct (f _).
Qed.
End open_address.

(** [C16] The firewall and the application enforce one policy: for every IPv4 and IPv6
    address, the first entry of [firewall_policy_entries] that has it (or the default, to
    let it pass) decides as [ip_is_blocked] does, the addresses that embed an IPv4 address
    in one of the transition formats included. *)
Theorem firewall_decides_as_application a :
  valid_address a → first_match firewall_policy_entries a = if ip_is_blocked a then deny else allow.
Proof.
  intros Ha. rewrite entries_decision. unfold ip_is_blocked.
  destruct (listed a PUBLIC_ADDRESS_EXCEPTIONS); [done|].
  destruct (listed a DENIED_ADDRESS_NETWORKS) eqn:Hd; [done|].
  destruct (ip_version a) eqn:Hv.
  - assert (∀ prefix, listed a (embedded_entries prefix) = false) as Hno.
    { intros prefix. unfold listed, embedded_entries, _embedded_ipv4_firewall_networks.
      induction _IPV4_DENIED_NETWORKS as [|n l IH]; [done|]. cbn [map existsb]. rewrite IH.
      unfold in_network. rewrite Hv. by rewrite bool_decide_false. }
    by rewrite !Hno.
  - rewrite !listed_embedded by (done || apply of_96_mapped || apply of_96_nat64).
    rewrite (embedded_are a Hv Ha Hd), listed4_exceptions, listed4. cbn [negb andb].
    by rewrite andb_orb_distrib_l.
Qed.

(** ::ffff:10.0.0.1 is refused and ::ffff:8.8.8.8 is not, by both. *)
Lemma firewall_decides_as_application_witness :
  first_match firewall_policy_entries {| ip_version := v6; ip := groups [0; 0; 0; 0; 0; 0xffff; 0x0a00; 1] |} = deny ∧
  first_match firewall_policy_entries {| ip_version := v6; ip := groups [0; 0; 0; 0; 0; 0xffff; 0x0808; 0x0808] |} = allow.
Proof.
  split.
  - apply (firewall_decides_as_application {| ip_version := v6; ip := groups [0; 0; 0; 0; 0; 0xffff; 0x0a00; 1] |}).
    by vm_compute.
  - apply (firewall_decides_as_application {| ip_version := v6; ip := groups [0; 0; 0; 0; 0; 0xffff; 0x0808; 0x0808] |}).
    by vm_compute.
Defined.
