(* ===== verification/Redaction.v ===== *)
(** * Redaction of deployment secrets ([engine/url_guard.py])

    Every form in which a resolved secret may be spelled is replaced before text or caller
    data leaves the service. *)

From S2P Require Import Prelude.
From S2P Require Import Text.
From S2P Require Import Json.

Definition _REDACTED_VALUE : text := txt "<redacted>".

(** ** Occurrences and replacement *)

Fixpoint cut_prefix (p t : text) : option text :=
  match p, t with
  | [], _ => Some t
  | a :: p, b :: t => if bool_decide (a = b) then cut_prefix p t else None
  | _ :: _, [] => None
  end.

(** [text.replace(v, _REDACTED_VALUE)] and [text.count(v)]: left to right, without overlap.
    Every step drops a character, so the length of the text is enough fuel. *)
Fixpoint replace_from (fuel : nat) (v t : text) : text * nat :=
  match fuel, t with
  | Datatypes.S fuel, a :: t' =>
      match cut_prefix v t with
      | Some rest => let '(r, n) := replace_from fuel v rest in (_REDACTED_VALUE ++ r, Datatypes.S n)
      | None => let '(r, n) := replace_from fuel v t' in (a :: r, n)
      end
  | _, _ => (t, O)
  end.
Definition replace (v t : text) : text * nat := replace_from (length t) v t.

(** ** The spellings of a secret *)

(** [quote(value, safe="")] leaves letters, digits and [_.-~]. *)
Definition unreserved (a : Ascii.ascii) : bool :=
  is_letter a || is_digit a || bool_decide (code a ∈ [95; 46; 45; 126]%Z).
Definition hex_upper (x : Z) : Ascii.ascii := chr (if x <? 10 then 48 + x else 55 + x)%Z.
Definition percent (a : Ascii.ascii) : text :=
  [chr 37; hex_upper (Z.shiftr (code a) 4); hex_upper (Z.land (code a) 15)].
Definition quote (t : text) : text := flat_map (λ a, if unreserved a then [a] else percent a) t.
Definition quote_plus (t : text) : text :=
  flat_map (λ a, if (code a =? 32)%Z then [chr 43] else if unreserved a then [a] else percent a) t.

(** [len]: the bytes that start a code point. *)
Definition py_len (t : text) : nat :=
  length (filter (λ a, negb ((128 <=? code a) && (code a <? 192))%Z = true) t).

Fixpoint text_leb (a b : text) : bool :=
  match a, b with
  | [], _ => true
  | _ :: _, [] => false
  | x :: a, y :: b => ((code x <? code y) || ((code x =? code y) && text_leb a b))%Z
  end.

(** [key=lambda variant: (-len(variant), variant)] *)
Definition longer (a b : text) : Prop :=
  (py_len b <? py_len a)%nat || ((py_len a =? py_len b)%nat && text_leb a b) = true.
#[export] Instance longer_dec a b : Decision (longer a b).
Proof. unfold longer. apply _. Defined.

Definition _variants_longest_first (values : list text) : list text :=
  filter (λ v, v ≠ []) (merge_sort longer (remove_dups (flat_map (λ v, [v; quote v; quote_plus v]) values))).

(** The strings among [secret_values] that are not empty. *)
Definition _secret_variants (secret_values : list text) : list text :=
  _variants_longest_first (filter (λ v, v ≠ []) secret_values).

Fixpoint _redact_variants (t : text) (variants : list text) : text * nat :=
  match variants with
  | [] => (t, O)
  | v :: variants =>
      let '(t', n) := replace v t in
      let '(r, m) := _redact_variants t' variants in (r, (n + m)%nat)
  end.

Definition redact_deployment_secrets_with_count (t : text) (secret_values : list text) : text * nat :=
  _redact_variants t (_secret_variants secret_values).

(** ** JSON-like values *)

Definition redact_string (variants : list text) (s : string) : string :=
  String.string_of_list_ascii (_redact_variants (txt s) variants).1.

(** [while redacted_key in redacted]: the first free suffix from 2 on. *)
Definition suffixed (base : text) (n : N) : string := String.string_of_list_ascii (base ++ chr 35 :: digits n).
Fixpoint free_suffix (fuel : nat) (base : text) (n : N) (used : list string) : string :=
  match fuel with
  | O => suffixed base n
  | Datatypes.S fuel =>
      if bool_decide (suffixed base n ∈ used) then free_suffix fuel base (n + 1) used else suffixed base n
  end.
Definition new_key (key : string) (used : list string) : string :=
  if bool_decide (key ∈ used) then free_suffix (length used) (txt key) 2 used else key.

(** The members already redacted are [seen], last first. *)
Definition redact_members (variants : list text) (f : json → json) :
    list (string * json) → list (string * json) → list (string * json) :=
  fix go l seen :=
    match l with
    | [] => rev seen
    | (k, item) :: l => go l ((new_key (redact_string variants k) seen.*1, f item) :: seen)
    end.

Fixpoint _redact_value_variants (variants : list text) (v : json) : json :=
  match v with
  | JObject members => JObject (redact_members variants (_redact_value_variants variants) members [])
  | JArray l => JArray (map (_redact_value_variants variants) l)
  | JString s => JString (redact_string variants s)
  | JNull | JBool _ | JNumber _ => v
  end.

Definition redact_deployment_secrets_in_value (v : json) (secret_values : list text) : json :=
  match _secret_variants secret_values with
  | [] => v
  | variants => _redact_value_variants variants v
  end.

(** * Redaction removes the secrets

    A spelling that shares no character or part with the marker cannot survive the pass
    that replaces it, nor come back in a later pass. *)

Definition occurs (v t : text) : Prop := ∃ a b, t = a ++ v ++ b.

Definition lt_sign : Ascii.ascii := chr 60.
Definition gt_sign : Ascii.ascii := chr 62.

(** No part of a marker, and not able to overlap one. *)
Record foreign (v : text) : Prop := {
  nonempty : v ≠ [];
  no_lt : lt_sign ∉ v;
  no_gt : gt_sign ∉ v;
  not_inside : ¬ occurs v (txt "redacted");
}.

Lemma marker_eq : _REDACTED_VALUE = lt_sign :: txt "redacted" ++ [gt_sign].
Proof. done. Qed.

Lemma cut_prefix_Some p t r : cut_prefix p t = Some r ↔ t = p ++ r.
Proof.
  revert t. induction p as [|a p IH]; intros t; cbn; [naive_solver|].
  destruct t as [|b t]; [naive_solver|]. case_bool_decide as E; [subst b; rewrite IH|]; naive_solver.
Qed.
Lemma cut_prefix_None p t : cut_prefix p t = None ↔ ∀ r, t ≠ p ++ r.
Proof.
  destruct (cut_prefix p t) as [r|] eqn:E; [|split; [intros _ r H|done]].
  - apply cut_prefix_Some in E. split; [done|]. intros H. by destruct (H r).
  - apply cut_prefix_Some in H. congruence.
Qed.

(** The first component, step by step. *)
Lemma replace_from_cut fuel v t a rest :
  cut_prefix v (a :: t) = Some rest →
  (replace_from (Datatypes.S fuel) v (a :: t)).1 = _REDACTED_VALUE ++ (replace_from fuel v rest).1.
Proof. intros E. cbn [replace_from]. rewrite E. by destruct (replace_from fuel v rest). Qed.
Lemma replace_from_keep fuel v t a :
  cut_prefix v (a :: t) = None →
  (replace_from (Datatypes.S fuel) v (a :: t)).1 = a :: (replace_from fuel v t).1.
Proof. intros E. cbn [replace_from]. rewrite E. by destruct (replace_from fuel v t). Qed.

(** A foreign text that starts the result starts the text. *)
Lemma replace_prefix fuel v t w r :
  lt_sign ∉ w → (replace_from fuel v t).1 = w ++ r → ∃ r', t = w ++ r'.
Proof.
  revert t w r. induction fuel as [|fuel IH]; intros t w r Hlt E; [by exists r|].
  destruct t as [|a t]; [by exists r|]. destruct w as [|b w]; [by eexists|].
  apply not_elem_of_cons in Hlt as [Hb Hw].
  destruct (cut_prefix v (a :: t)) as [rest|] eqn:Ec.
  - rewrite (replace_from_cut _ _ _ _ _ Ec), marker_eq in E. by injection E as <- _.
  - rewrite (replace_from_keep _ _ _ _ Ec) in E. injection E as <- E.
    destruct (IH t w r Hw E) as [r' ->]. by exists r'.
Qed.

(** Occurrences in a text that starts with a piece that the word cannot enter. *)
Lemma occurs_cons v a t : occurs v (a :: t) → (∃ r, a :: t = v ++ r) ∨ occurs v t.
Proof.
  intros ([|b x] & y & E); [left; by exists y|right]. injection E as _ ->. by exists x, y.
Qed.
Lemma occurs_later v a t : occurs v t → occurs v (a :: t).
Proof. intros (x & y & ->). by exists (a :: x), y. Qed.
Lemma occurs_drop v p t : occurs v t → occurs v (p ++ t).
Proof. intros (x & y & ->). exists (p ++ x), y. by rewrite <- app_assoc. Qed.

Lemma occurs_past v body c t :
  v ≠ [] → c ∉ v → ¬ occurs v body → occurs v (body ++ c :: t) → occurs v t.
Proof.
  intros Hne Hc. induction body as [|a body IH]; intros Hb Ho.
  - cbn in Ho. apply occurs_cons in Ho as [[r E]|?]; [|done].
    destruct v as [|b v]; [done|]. injection E as -> _. destruct Hc. left.
  - apply occurs_cons in Ho as [[r E]|?].
    + exfalso. assert (∃ z, a :: body = v ++ z) as [z Ez].
      { revert E. change ((a :: body) ++ c :: t = v ++ r → ∃ z, a :: body = v ++ z). intros E.
        apply app_eq_inv in E as [(k & -> & _)|(k & -> & E)]; [by exists k|].
        destruct k as [|d k]; [exists []; by rewrite !app_nil_r|].
        injection E as -> _. destruct Hc. apply elem_of_app. right. left. }
      apply Hb. exists [], z. by rewrite Ez.
    + apply IH; [|done]. intros Hin. by apply Hb, occurs_later.
Qed.

Lemma occurs_past_marker v t : foreign v → occurs v (_REDACTED_VALUE ++ t) → occurs v t.
Proof.
  intros [Hne Hlt Hgt Hin] Ho. rewrite marker_eq in Ho.
  cbn [app] in Ho. apply (occurs_past v [] lt_sign) in Ho; try done.
  - rewrite <- app_assoc in Ho. by apply (occurs_past v (txt "redacted") gt_sign) in Ho.
  - intros (a & b & E). destruct a, v; done.
Qed.

(** A pass creates no new occurrence of a foreign text, and leaves none of its own. *)
Lemma replace_from_creates_none fuel v t w :
  foreign w → occurs w (replace_from fuel v t).1 → occurs w t.
Proof.
  intros Hw. revert t. induction fuel as [|fuel IH]; intros t Ho; [done|].
  destruct t as [|a t]; [done|]. destruct (cut_prefix v (a :: t)) as [rest|] eqn:Ec.
  - rewrite (replace_from_cut _ _ _ _ _ Ec) in Ho. apply occurs_past_marker in Ho; [|done].
    apply cut_prefix_Some in Ec as ->. apply occurs_drop, IH, Ho.
  - rewrite (replace_from_keep _ _ _ _ Ec) in Ho. apply occurs_cons in Ho as [[r E]|Ho].
    + destruct w as [|b w]; [by destruct (nonempty _ Hw)|]. injection E as <- E.
      destruct (replace_prefix fuel v t w r) as [r' ->]; [|done|by exists [], r'].
      intros Hin. apply (no_lt _ Hw). by right.
    + apply occurs_later, IH, Ho.
Qed.

Lemma replace_from_removes fuel v t :
  foreign v → (length t ≤ fuel)%nat → ¬ occurs v (replace_from fuel v t).1.
Proof.
  intros Hv. revert t. induction fuel as [|fuel IH]; intros t Hl Ho.
  - destruct t; [|cbn in Hl; lia]. destruct Ho as ([] & b & E); [|done].
    by destruct v; [destruct (nonempty _ Hv)|].
  - destruct t as [|a t].
    { destruct Ho as ([] & b & E); [|done]. by destruct v; [destruct (nonempty _ Hv)|]. }
    cbn in Hl. destruct (cut_prefix v (a :: t)) as [rest|] eqn:Ec.
    + rewrite (replace_from_cut _ _ _ _ _ Ec) in Ho. apply occurs_past_marker in Ho; [|done].
      apply (IH rest); [|done]. apply cut_prefix_Some in Ec.
      assert (length (a :: t) = length v + length rest)%nat as Hlen by by rewrite Ec, length_app.
      cbn in Hlen. assert (length v ≠ 0)%nat by (destruct v; [by destruct (nonempty _ Hv)|done]). lia.
    + pose proof Ho as Ho'. rewrite (replace_from_keep _ _ _ _ Ec) in Ho. apply occurs_cons in Ho as [[r E]|Ho].
      * apply cut_prefix_None with (r := drop (length v) (a :: t)) in Ec. apply Ec.
        destruct v as [|b v]; [by destruct (nonempty _ Hv)|]. injection E as <- E.
        destruct (replace_prefix fuel (a :: v) t v r) as [r' ->]; [|done|].
        { intros Hin. apply (no_lt _ Hv). by right. }
        cbn. by rewrite drop_app_length.
      * by apply (IH t); [lia|].
Qed.

Lemma redact_variants_cons t w variants :
  (_redact_variants t (w :: variants)).1 = (_redact_variants (replace w t).1 variants).1.
Proof. cbn. destruct (replace w t) as [t' n]. cbn. by destruct (_redact_variants t' variants). Qed.

Lemma redact_variants_creates_none t variants v :
  foreign v → occurs v (_redact_variants t variants).1 → occurs v t.
Proof.
  intros Hv. revert t. induction variants as [|w variants IH]; intros t Ho; [done|].
  rewrite redact_variants_cons in Ho. by eapply replace_from_creates_none, IH.
Qed.

Lemma redact_variants_removes t variants v :
  foreign v → v ∈ variants → ¬ occurs v (_redact_variants t variants).1.
Proof.
  intros Hv. revert t. induction variants as [|w variants IH]; intros t Hin; [by apply elem_of_nil in Hin|].
  rewrite redact_variants_cons. apply elem_of_cons in Hin as [<-|Hin]; [|by apply IH].
  intros Ho. eapply (replace_from_removes (length t) v t Hv); [done|].
  by eapply redact_variants_creates_none.
Qed.

(** ** The spellings of a secret are foreign *)

(** A secret that the marker and the suffixes of renamed keys cannot spell. *)
Record secret_ok (s : text) : Prop := {
  so_lt : lt_sign ∉ s;
  so_gt : gt_sign ∉ s;
  so_hash : chr 35 ∉ s;
  so_marker : ¬ occurs s (txt "redacted");
  so_word : ∃ a, a ∈ s ∧ is_digit a = false;
}.

(** Nor can they spell these. *)
Record guarded (v : text) : Prop := {
  g_foreign : foreign v;
  g_hash : chr 35 ∉ v;
  g_word : ∃ a, a ∈ v ∧ is_digit a = false;
}.

Lemma secret_guarded s : secret_ok s → guarded s.
Proof.
  intros [? ? ? ? (a & Ha & Hd)]. constructor; [constructor| |]; try done; [|by exists a].
  intros ->. by apply elem_of_nil in Ha.
Qed.

(** Every character comes out as itself or, escaped, as a word without [<], [>] and [#]
    that is no part of the marker. *)
Definition escapes (f : Ascii.ascii → text) : Prop :=
  ∀ a, f a = [a] ∨ (∃ b w, f a = b :: w ∧ b ∉ txt "redacted" ∧ is_digit b = false ∧
                           lt_sign ∉ f a ∧ gt_sign ∉ f a ∧ chr 35 ∉ f a).

Lemma all_ascii (P : Ascii.ascii → Prop) `{∀ a, Decision (P a)} :
  forallb (λ n, bool_decide (P (Ascii.ascii_of_nat n))) (seq 0 256) = true → ∀ a, P a.
Proof.
  intros Hall a. rewrite <- (Ascii.ascii_nat_embedding a).
  rewrite forallb_forall in Hall. apply (bool_decide_unpack _), Is_true_true, Hall.
  apply in_seq. pose proof (Ascii.nat_ascii_bounded a). lia.
Qed.

Lemma percent_escapes a :
  ∃ b w, percent a = b :: w ∧ b ∉ txt "redacted" ∧ is_digit b = false ∧
         lt_sign ∉ percent a ∧ gt_sign ∉ percent a ∧ chr 35 ∉ percent a.
Proof.
  exists (chr 37), (tail (percent a)). split; [done|]. split; [by vm_compute; set_solver|].
  split; [done|]. revert a. apply (all_ascii _). vm_compute. reflexivity.
Qed.

Lemma quote_escapes : escapes (λ a, if unreserved a then [a] else percent a).
Proof. intros a. destruct (unreserved a); [by left|right]. apply percent_escapes. Qed.
Lemma quote_plus_escapes :
  escapes (λ a, if (code a =? 32)%Z then [chr 43] else if unreserved a then [a] else percent a).
Proof.
  intros a. destruct (code a =? 32)%Z; [right|by apply quote_escapes].
  exists (chr 43), []. split_and!; vm_compute; try done; set_solver.
Qed.

Lemma escaped_in (f : Ascii.ascii → text) (t : text) b : b ∈ flat_map f t ↔ ∃ a, a ∈ t ∧ b ∈ f a.
Proof. rewrite !list_elem_of_In, in_flat_map. by setoid_rewrite list_elem_of_In. Qed.

Lemma escaped_guarded f s : escapes f → secret_ok s → guarded (flat_map f s).
Proof.
  intros Hf Hs. destruct (secret_guarded s Hs) as [Hfor Hh (a & Ha & Hd)].
  assert (∀ c, c ∉ s → (∀ a, f a ≠ [a] → c ∉ f a) → c ∉ flat_map f s) as Hno.
  { intros c Hc Hesc (b & Hb & Hin)%escaped_in. destruct (decide (f b = [b])) as [E|E]; [|by apply (Hesc b)].
    rewrite E in Hin. apply list_elem_of_singleton in Hin as ->. done. }
  assert (∃ b, b ∈ flat_map f s ∧ is_digit b = false) as (b & Hb & Hbd).
  { destruct (Hf a) as [E|(b & w & E & _ & Hb & _)].
    - exists a. split; [|done]. apply escaped_in. exists a. rewrite E. split; [done|by left].
    - exists b. split; [|done]. apply escaped_in. exists a. rewrite E. split; [done|by left]. }
  constructor; [constructor| |by exists b].
  - intros E. rewrite E in Hb. by apply elem_of_nil in Hb.
  - apply Hno; [apply Hs|]. intros c Hc. destruct (Hf c) as [?|(? & ? & _ & _ & _ & ? & _)]; done.
  - apply Hno; [apply Hs|]. intros c Hc. destruct (Hf c) as [?|(? & ? & _ & _ & _ & _ & ? & _)]; done.
  - intros Ho. apply (so_marker s Hs). 
    assert (∀ x, x ∈ flat_map f s → x ∈ txt "redacted") as Hsub.
    { destruct Ho as (u & w & E). intros x Hx. rewrite E. set_solver. }
    enough (flat_map f s = s) as E by by rewrite <- E.
    clear -Hf Hsub. induction s as [|c s IH]; [done|]. cbn in *.
    destruct (Hf c) as [E|(d & w & E & Hd & _)]; [|destruct Hd; apply Hsub; rewrite E; by left].
    rewrite E in *. cbn in *. f_equal. apply IH. intros x Hx. apply Hsub. by right.
  - apply Hno; [apply Hs|]. intros c Hc. destruct (Hf c) as [?|(? & ? & _ & _ & _ & _ & _ & ?)]; done.
Qed.

Lemma spelling_guarded s v : secret_ok s → v ∈ [s; quote s; quote_plus s] → guarded v.
Proof.
  intros Hs [->|[->|[->|[]%elem_of_nil]%elem_of_cons]%elem_of_cons]%elem_of_cons.
  - by apply secret_guarded.
  - apply escaped_guarded; [apply quote_escapes|done].
  - apply escaped_guarded; [apply quote_plus_escapes|done].
Qed.

Lemma spelling_is_variant secrets s v :
  s ∈ secrets → v ≠ [] → s ≠ [] → v ∈ [s; quote s; quote_plus s] → v ∈ _secret_variants secrets.
Proof.
  intros Hs Hv Hne Hin. unfold _secret_variants, _variants_longest_first.
  apply list_elem_of_filter. split; [done|]. rewrite merge_sort_Permutation.
  apply elem_of_remove_dups, list_elem_of_In, in_flat_map. exists s.
  split; apply list_elem_of_In; [by apply list_elem_of_filter|done].
Qed.

(** [C14] No spelling of a secret survives redaction: whatever the text and the other
    secrets, the secret occurs in the redacted text neither as it is nor URL-quoted in either
    way, not even across replacements. The secret must be one that the marker
    "<redacted>" and the suffixes of renamed keys cannot spell ([secret_ok]): it has no
    less-than, greater-than or number sign, it is not empty, no part of the word "redacted",
    and not made of digits alone. *)
Theorem redaction_removes_secrets t secrets s v :
  s ∈ secrets → secret_ok s → v ∈ [s; quote s; quote_plus s] →
  ¬ occurs v (redact_deployment_secrets_with_count t secrets).1.
Proof.
  intros Hs Hok Hv. pose proof (spelling_guarded s v Hok Hv) as [Hf _ _].
  apply redact_variants_removes; [done|]. apply (spelling_is_variant _ s); try done; [apply Hf|].
  apply (secret_guarded s Hok).
Qed.

(** ** Renamed keys *)

Lemma txt_string t : txt (String.string_of_list_ascii t) = t.
Proof. apply String.list_ascii_of_string_of_list_ascii. Qed.
Lemma string_txt s : String.string_of_list_ascii (txt s) = s.
Proof. apply String.string_of_list_ascii_of_string. Qed.

Lemma suffixed_inj base n m : suffixed base n = suffixed base m → n = m.
Proof.
  unfold suffixed. intros E%(f_equal txt). rewrite !txt_string in E.
  apply app_inv_head in E. injection E as E%(f_equal decimal). rewrite !decimal_digits in E. lia.
Qed.

(** The suffixes [n .. n + k - 1]. *)
Definition suffixes (base : text) (n : N) (k : nat) : list string :=
  map (λ i, suffixed base (n + N.of_nat i)) (seq 0 k).

Lemma suffixes_NoDup base n k : NoDup (suffixes base n k).
Proof.
  apply NoDup_fmap_2_strong; [|apply NoDup_ListNoDup, seq_NoDup].
  intros i j _ _ E%suffixed_inj. lia.
Qed.

Lemma free_suffix_free fuel base n used k :
  (∀ i, (i < k)%nat → suffixed base (n - N.of_nat k + N.of_nat i) ∈ used) → (N.of_nat k ≤ n)%N →
  (length used ≤ k + fuel)%nat → free_suffix fuel base n used ∉ used.
Proof.
  revert n k. induction fuel as [|fuel IH]; intros n k Hall Hk Hl.
  - cbn. intros Hin.
    assert (Datatypes.S k ≤ length used)%nat; [|lia].
    rewrite <- (length_seq (Datatypes.S k) 0), <- (length_map (λ i, suffixed base (n - N.of_nat k + N.of_nat i))).
    change (map _ (seq 0 (Datatypes.S k))) with (suffixes base (n - N.of_nat k) (Datatypes.S k)).
    apply submseteq_length, NoDup_submseteq; [apply suffixes_NoDup|].
    intros x Hx. unfold suffixes in Hx. apply list_elem_of_fmap in Hx as (i & -> & Hi).
    apply list_elem_of_In, in_seq in Hi. destruct (decide (i = k)) as [->|]; [|apply Hall; lia].
    by replace (n - N.of_nat k + N.of_nat k)%N with n by lia.
  - cbn. case_bool_decide as Hin; [|done]. apply (IH (n + 1)%N (Datatypes.S k)); [|lia|lia].
    intros i Hi. replace (n + 1 - N.of_nat (Datatypes.S k))%N with (n - N.of_nat k)%N by lia.
    destruct (decide (i = k)) as [->|]; [|apply Hall; lia].
    by replace (n - N.of_nat k + N.of_nat k)%N with n by lia.
Qed.

Lemma new_key_new key used : new_key key used ∉ used.
Proof.
  unfold new_key. case_bool_decide; [|done].
  apply (free_suffix_free _ _ _ _ 0); [intros; lia|lia|lia].
Qed.

(** A new key is the key, or the key with a suffix. *)
Lemma new_key_form key used : new_key key used = key ∨ ∃ n, new_key key used = suffixed (txt key) n.
Proof.
  unfold new_key. case_bool_decide; [right|by left].
  generalize (length used) 2%N. intros fuel. induction fuel as [|fuel IH]; intros n; cbn; [by exists n|].
  case_bool_decide; [apply IH|by exists n].
Qed.

Lemma occurs_elem v t a : occurs v t → a ∈ v → a ∈ t.
Proof. intros (x & y & ->) Ha. set_solver. Qed.

Lemma new_key_clean v key used : guarded v → ¬ occurs v (txt key) → ¬ occurs v (txt (new_key key used)).
Proof.
  intros [Hf Hh (a & Ha & Hd)] Hno. destruct (new_key_form key used) as [->|[n ->]]; [done|].
  unfold suffixed. rewrite txt_string. intros Ho. apply occurs_past in Ho; try done; [|apply Hf].
  pose proof (occurs_elem _ _ _ Ho Ha) as Hin.
  pose proof (proj1 (Forall_forall _ _) (digits_digits n) a Hin). cbn in *. congruence.
Qed.

(** ** Values *)

Section values.
Context (variants : list text).

Abbreviation redacted := (_redact_value_variants variants).

(** The members come out in order, each under its own key. *)
Lemma redact_members_spec f l seen :
  ∃ keys, length keys = length l ∧
    redact_members variants f l seen = rev seen ++ zip keys (map (λ x, f x.2) l) ∧
    (NoDup seen.*1 → NoDup (redact_members variants f l seen).*1) ∧
    Forall (λ k, ∃ k0 used, k = new_key (redact_string variants k0) used) keys.
Proof.
  revert seen. induction l as [|[k item] l IH]; intros seen; cbn [redact_members].
  - exists []. rewrite app_nil_r. split_and!; try done.
    intros Hn. by rewrite <- (Permutation_rev seen).
  - set (k' := new_key (redact_string variants k) seen.*1).
    destruct (IH ((k', f item) :: seen)) as (keys & Hl & -> & Hn & Hk).
    exists (k' :: keys). split_and!; cbn; [by rewrite Hl|by rewrite <- app_assoc| |].
    + intros Hs. apply Hn. cbn. constructor; [apply new_key_new|done].
    + constructor; [by eexists _, _|done].
Qed.

Lemma redact_string_clean v s : guarded v → v ∈ variants → ¬ occurs v (txt (redact_string variants s)).
Proof.
  intros Hg Hv. unfold redact_string. rewrite txt_string.
  apply redact_variants_removes; [apply Hg|done].
Qed.

Lemma redacted_clean v value x :
  guarded v → v ∈ variants → x ∈ json_texts (redacted value) → ¬ occurs v (txt x).
Proof.
  intros Hg Hv. revert x. induction value as [| | |s|l IH|m IH] using json_induction; intros x Hx;
    cbn [_redact_value_variants json_texts] in Hx; try by apply elem_of_nil in Hx.
  - apply list_elem_of_singleton in Hx as ->. by apply redact_string_clean.
  - apply list_elem_of_In, in_flat_map in Hx as (y & Hy & Hx).
    apply in_map_iff in Hy as (z & <- & Hz). rewrite Forall_forall in IH.
    apply (IH z); by apply list_elem_of_In.
  - destruct (redact_members_spec redacted m []) as (keys & _ & E & _ & Hk). rewrite E in Hx. cbn in Hx.
    apply list_elem_of_In, in_flat_map in Hx as ([k y] & Hy & Hx). cbn in Hx.
    rewrite Forall_forall in IH. rewrite Forall_forall in Hk. destruct Hx as [<-|Hx].
    + apply in_combine_l in Hy. destruct (Hk k) as (k0 & used & ->); [by apply list_elem_of_In|].
      apply new_key_clean; [done|by apply redact_string_clean].
    + apply in_combine_r, in_map_iff in Hy as (z & <- & Hz).
      apply (IH z); by apply list_elem_of_In.
Qed.

Lemma redacted_shape value : json_shape (redacted value) = json_shape value.
Proof.
  induction value as [| | |s|l IH|m IH] using json_induction; cbn [_redact_value_variants json_shape]; try done.
  - f_equal. rewrite map_map. induction IH as [|x l Hx _ IH]; cbn; [done|]. by rewrite Hx, IH.
  - destruct (redact_members_spec redacted m []) as (keys & Hl & E & _). rewrite E. cbn. f_equal.
    clear E. revert keys Hl. induction IH as [|[k x] m Hx _ IH]; intros [|k' keys] Hl; try done.
    cbn in *. rewrite Hx. f_equal. apply IH. lia.
Qed.

Lemma redacted_distinct value : distinct_keys (redacted value).
Proof.
  induction value as [| | |s|l IH|m IH] using json_induction; cbn [_redact_value_variants]; try done.
  - apply distinct_array, Forall_map. done.
  - apply distinct_object. destruct (redact_members_spec redacted m []) as (keys & Hl & E & Hn & _).
    split; [apply Hn; constructor|]. rewrite E. cbn. clear E Hn. revert keys Hl.
    induction IH as [|[k x] m Hx _ IH]; intros [|k' keys] Hl; cbn; try by constructor.
    constructor; [done|]. apply IH. cbn in Hl. lia.
Qed.
End values.

(** Redacted caller data holds no secret and loses nothing: no string of the value
    that comes back, keys included, contains a spelling of a secret; arrays and objects
    keep their members in order, and keys that redaction makes equal are told apart. *)
Theorem redacted_value_is_clean value secrets s v :
  s ∈ secrets → secret_ok s → v ∈ [s; quote s; quote_plus s] → distinct_keys value →
  let value' := redact_deployment_secrets_in_value value secrets in
  (∀ x, x ∈ json_texts value' → ¬ occurs v (txt x)) ∧
  json_shape value' = json_shape value ∧ distinct_keys value'.
Proof.
  intros Hs Hok Hv Hd. pose proof (spelling_guarded s v Hok Hv) as Hg.
  assert (v ∈ _secret_variants secrets) as Hin.
  { apply (spelling_is_variant _ s); try done; [apply Hg|apply (secret_guarded s Hok)]. }
  unfold redact_deployment_secrets_in_value. cbv zeta.
  destruct (_secret_variants secrets) as [|w variants] eqn:E; [by apply elem_of_nil in Hin|].
  split_and!; [intros x; by apply redacted_clean|apply redacted_shape|apply redacted_distinct].
Qed.

(** ** A sample *)

Definition sample_secret : text := txt "pa ss".
Definition sample_value : json :=
  JObject [("pa ss", JString "x pa%20ss"); ("pa+ss", JArray [JString "pa pa ss ss"; JNull])].

Lemma sample_secret_ok : secret_ok sample_secret.
Proof.
  constructor; [vm_compute; set_solver..| |].
  - intros (a & b & E). assert (chr 32 ∈ txt "redacted") as Hin by (rewrite E; set_solver).
    revert Hin. vm_compute. set_solver.
  - exists (chr 32). split; [vm_compute; set_solver|reflexivity].
Qed.

Lemma redaction_removes_secrets_witness :
  (redact_deployment_secrets_with_count (txt "a pa%20ss b") [sample_secret]).1 = txt "a <redacted> b" ∧
  ¬ occurs (quote sample_secret) (redact_deployment_secrets_with_count (txt "a pa%20ss b") [sample_secret]).1.
Proof.
  split; [vm_compute; reflexivity|].
  apply (redaction_removes_secrets (txt "a pa%20ss b") [sample_secret] sample_secret (quote sample_secret)).
  - left.
  - exact sample_secret_ok.
  - right. left.
Defined.

Lemma redacted_value_is_clean_witness :
  redact_deployment_secrets_in_value sample_value [sample_secret] =
    JObject [("<redacted>", JString "x <redacted>");
             ("<redacted>#2", JArray [JString "pa <redacted> ss"; JNull])] ∧
  distinct_keys (redact_deployment_secrets_in_value sample_value [sample_secret]).
Proof.
  split; [vm_compute; reflexivity|].
  apply (redacted_value_is_clean sample_value [sample_secret] sample_secret sample_secret).
  - left.
  - exact sample_secret_ok.
  - left.
  - apply distinct_object. split; [|repeat constructor].
    apply (bool_decide_unpack _). vm_compute. exact I.
Defined.
