(* ===== verification/SensitiveData.v ===== *)
(** * Redaction of URLs and of secret-bearing keys ([engine/url_guard.py])

    Text that leaves the service loses the credentials of the URLs in it, JSON-like values
    also what is stored under the name of a secret. How one URL is redacted
    ([redact_userinfo_in_url], an argument) depends on the parser of [urllib]. *)

From S2P Require Import Prelude.
From S2P Require Import Text.
From S2P Require Import Json.
From S2P Require Import Redaction.

(** ** Code points *)

(** A text is a list of code points, each with its UTF-8 bytes. *)
Definition continues (a : Ascii.ascii) : bool := ((128 <=? code a) && (code a <? 192))%Z.
Fixpoint chars (t : text) : list text :=
  match t with
  | [] => []
  | a :: t =>
      match chars t with
      | (b :: c) :: l => if continues b then (a :: b :: c) :: l else [a] :: (b :: c) :: l
      | l => [a] :: l
      end
  end.

Definition char_in (l : list Z) (c : text) : bool := bool_decide (map code c = l).

(** [[a-z]] with [re.IGNORECASE]: the letters, and U+0130, U+0131, U+017F, U+212A. *)
Definition any_letter (c : text) : bool :=
  match c with
  | [a] => is_letter a
  | _ => char_in [196; 176] c || char_in [196; 177] c || char_in [197; 191] c || char_in [226; 132; 170] c
  end%Z.
(** [[0-9+.-]] *)
Definition digit_or_sign (c : text) : bool :=
  match c with [a] => is_digit a || bool_decide (code a ∈ [43; 46; 45]%Z) | _ => false end.
Definition scheme_char (c : text) : bool := any_letter c || digit_or_sign c.
(** [\s] *)
Definition white (c : text) : bool :=
  match c with [a] => is_space a | [a; b] => is_space2 a b | [a; b; d] => is_space3 a b d | _ => false end.
(** Neither white space nor a quotation mark. *)
Definition url_char (c : text) : bool := negb (white c || char_in [34%Z] c || char_in [39%Z] c).

Fixpoint take_chars (p : text → bool) (l : list text) : list text * list text :=
  match l with
  | c :: l' => if p c then let '(a, b) := take_chars p l' in (c :: a, b) else ([], l)
  | [] => ([], [])
  end.

Definition colon_slashes : list text := [[chr 58]; [chr 47]; [chr 47]].

(** [_URL_IN_TEXT_RE] at a position: its two groups and the rest. The classes that follow
    one another are disjoint, so the greedy choice is the only one. *)
Definition match_url (l : list text) : option (list text * list text * list text) :=
  let '(signs, l1) := take_chars digit_or_sign l in
  match l1 with
  | c :: _ =>
      if any_letter c then
        let '(scheme, l2) := take_chars scheme_char l1 in
        if bool_decide (take 3 l2 = colon_slashes) then
          match take_chars url_char (drop 3 l2) with
          | ([], _) => None
          | (body, rest) => Some (signs, scheme ++ colon_slashes ++ body, rest)
          end
        else None
      else None
  | [] => None
  end.

Section redaction.
Context (redact_userinfo_in_url : text → text).

(** [_URL_IN_TEXT_RE.sub]; [before]: a scheme character precedes. Every step consumes a
    code point. *)
Fixpoint sub_urls (fuel : nat) (before : bool) (l : list text) : text :=
  match fuel, l with
  | Datatypes.S fuel, c :: l' =>
      match (if before then None else match_url l) with
      | Some (signs, url, rest) => concat signs ++ redact_userinfo_in_url (concat url) ++ sub_urls fuel false rest
      | None => c ++ sub_urls fuel (scheme_char c) l'
      end
  | _, _ => []
  end.

(** [active]: the secrets of the run in this context. *)
Context (active : list text).

Definition redact_userinfo_in_text (t : text) : text :=
  let redacted := (redact_deployment_secrets_with_count t active).1 in
  let l := chars redacted in sub_urls (length l) false l.

(** ** Secret-bearing keys *)

(** [str.lower] as far as it yields ASCII: U+0130 becomes [i] and U+0307, U+212A [k]. *)
Definition lower_char (c : text) : text :=
  match c with
  | [a] => [if is_upper a then chr (code a + 32) else a]
  | _ => if char_in [196; 176]%Z c then [chr 105; chr 204; chr 135]
         else if char_in [226; 132; 170]%Z c then [chr 107] else c
  end.
Definition lower (t : text) : text := flat_map lower_char (chars t).

Definition _SENSITIVE_EXACT_KEYS : list string :=
  ["accesskey"; "authorization"; "apikey"; "awsaccesskeyid"; "cookie"; "key"; "proxyauthorization"; "sig";
   "signature"; "setcookie"; "xapikey"; "xamzsignature"; "xgoogsignature"].
Definition _SENSITIVE_KEY_PARTS : list string :=
  ["password"; "passwd"; "secret"; "token"; "credential"; "signature"; "session"].
Definition _SECRET_CONTAINER_KEYS : list string := ["headers"; "extraheaders"].

(** [part in text] *)
Fixpoint contains (p t : text) : bool :=
  match cut_prefix p t with
  | Some _ => true
  | None => match t with [] => false | _ :: t => contains p t end
  end.

Definition normalized_key (key : string) : text :=
  filter (λ a, code a ≠ 45%Z ∧ code a ≠ 95%Z) (lower (txt key)).
Definition _is_sensitive_key (key : string) : bool :=
  existsb (λ k, bool_decide (normalized_key key = txt k)) _SENSITIVE_EXACT_KEYS ||
  existsb (λ p, contains (txt p) (lower (txt key))) _SENSITIVE_KEY_PARTS.
Definition is_secret_container (key : string) : bool :=
  existsb (λ k, bool_decide (normalized_key key = txt k)) _SECRET_CONTAINER_KEYS.

Context (secret_values : list text).

Definition redacted_marker : json := JString (String.string_of_list_ascii _REDACTED_VALUE).
Definition redact_key (key : string) : string :=
  String.string_of_list_ascii (redact_deployment_secrets_with_count (txt key) secret_values).1.

(** [redacted[redacted_key] = ...], by key; the members already redacted are [seen], last
    first. *)
Definition sensitive_members (f : json → json) : list (string * json) → list (string * json) → list (string * json) :=
  fix go l seen :=
    match l with
    | [] => rev seen
    | (key, item) :: l =>
        go l ((new_key (redact_key key) seen.*1,
               if _is_sensitive_key key then redacted_marker
               else match is_secret_container key, item with
                    | true, JObject m => JObject (map (λ x, (x.1, redacted_marker)) m)
                    | _, _ => f item
                    end) :: seen)
    end.

Fixpoint redact_sensitive_mapping (value : json) : json :=
  match value with
  | JObject members => JObject (sensitive_members redact_sensitive_mapping members [])
  | JArray l => JArray (map redact_sensitive_mapping l)
  | JString s =>
      JString (String.string_of_list_ascii
        (redact_userinfo_in_text (redact_deployment_secrets_with_count (txt s) secret_values).1))
  | JNull | JBool _ | JNumber _ => value
  end.
End redaction.

(** ** What stays as it is *)

Lemma chars_concat t : concat (chars t) = t.
Proof.
  induction t as [|a t IH]; [done|]. cbn [chars].
  destruct (chars t) as [|[|b c] l]; [cbn in *; by rewrite IH..|].
  destruct (continues b); cbn in *; by rewrite IH.
Qed.

Lemma take_chars_app p l : (take_chars p l).1 ++ (take_chars p l).2 = l.
Proof.
  induction l as [|c l IH]; [done|]. cbn. destruct (p c); [|done].
  destruct (take_chars p l) as [a b]. cbn in *. by rewrite IH.
Qed.

(** A URL has [://] in it. *)
Lemma match_url_slashes l signs url rest :
  match_url l = Some (signs, url, rest) → ∃ a b, concat l = a ++ txt "://" ++ b.
Proof.
  unfold match_url. pose proof (take_chars_app digit_or_sign l) as E1.
  destruct (take_chars digit_or_sign l) as [s1 [|c l1]]; [done|]. cbn in E1. destruct (any_letter c); [|done].
  pose proof (take_chars_app scheme_char (c :: l1)) as E2.
  destruct (take_chars scheme_char (c :: l1)) as [s2 l2]. cbn [fst snd] in E2.
  case_bool_decide as H3; [|done]. intros _.
  exists (concat (s1 ++ s2)), (concat (drop 3 l2)).
  rewrite <- E1, <- E2. assert (concat l2 = txt "://" ++ concat (drop 3 l2)) as E3.
  { rewrite <- (take_drop 3 l2) at 1. by rewrite H3, concat_app. }
  by rewrite !concat_app, E3, app_assoc.
Qed.

Lemma sub_urls_none f fuel before l :
  (length l ≤ fuel)%nat → (¬ ∃ a b, concat l = a ++ txt "://" ++ b) → sub_urls f fuel before l = concat l.
Proof.
  revert before l. induction fuel as [|fuel IH]; intros before [|c l] Hl Hno; cbn in Hl; try lia; try done.
  cbn [sub_urls]. assert ((if before then None else match_url (c :: l)) = None) as ->.
  { destruct before; [done|]. destruct (match_url (c :: l)) as [[[s u] r]|] eqn:E; [|done].
    by destruct Hno; eapply match_url_slashes. }
  cbn. f_equal. apply IH; [lia|]. intros (a & b & E). apply Hno. exists (c ++ a), b. cbn. by rewrite E, <- app_assoc.
Qed.

Lemma contains_absent p t : contains p t = false → ¬ occurs p t.
Proof.
  induction t as [|a t IH]; intros Hc (x & y & E); cbn in Hc;
    (destruct (cut_prefix p _) eqn:Ec; [done|]); rewrite cut_prefix_None in Ec.
  - symmetry in E. apply app_eq_nil in E as [-> E]. by destruct (Ec y).
  - destruct x as [|b x]; [by destruct (Ec y)|]. injection E as <- E. apply IH; [done|]. by exists x, y.
Qed.

(** No spelling of a secret occurs in the text. *)
Definition clear (secrets : list text) (s : string) : Prop :=
  ∀ v, v ∈ _secret_variants secrets → ¬ occurs v (txt s).
Lemma clear_checked secrets l :
  forallb (λ s, forallb (λ v, negb (contains v (txt s))) (_secret_variants secrets)) l = true →
  Forall (clear secrets) l.
Proof.
  intros Hl. apply Forall_forall. intros s Hs v Hv. apply contains_absent, negb_true_iff.
  rewrite forallb_forall in Hl. specialize (Hl s (proj1 (list_elem_of_In _ _) Hs)). rewrite forallb_forall in Hl.
  by apply Hl, list_elem_of_In.
Qed.

Lemma replace_absent fuel v t : ¬ occurs v t → (replace_from fuel v t).1 = t.
Proof.
  revert t. induction fuel as [|fuel IH]; intros [|a t] Hno; try done.
  assert (cut_prefix v (a :: t) = None) as E.
  { apply cut_prefix_None. intros r Hr. apply Hno. exists [], r. done. }
  rewrite (replace_from_keep _ _ _ _ E), IH; [done|].
  intros (x & y & ->). apply Hno. by exists (a :: x), y.
Qed.

Lemma redact_absent t variants : (∀ v, v ∈ variants → ¬ occurs v t) → (_redact_variants t variants).1 = t.
Proof.
  revert t. induction variants as [|w variants IH]; intros t Hno; [done|]. rewrite redact_variants_cons.
  assert ((replace w t).1 = t) as -> by (apply replace_absent, Hno; left). apply IH.
  intros v Hv. apply Hno. by right.
Qed.

Lemma clear_redacted secrets s :
  clear secrets s → (redact_deployment_secrets_with_count (txt s) secrets).1 = txt s.
Proof. intros Hs. apply redact_absent, Hs. Qed.

Section members.
Context (redact_userinfo_in_url : text → text) (active secrets : list text).
Abbreviation mapping := (redact_sensitive_mapping redact_userinfo_in_url active secrets).

(** A text without secrets and URLs stays. *)
Lemma clear_text s : clear secrets s → clear active s → ¬ occurs (txt "://") (txt s) → mapping (JString s) = JString s.
Proof.
  intros Hs Ha Hu. cbn [redact_sensitive_mapping]. rewrite (clear_redacted secrets) by done.
  unfold redact_userinfo_in_text. rewrite (clear_redacted active) by done.
  rewrite sub_urls_none; [by rewrite chars_concat, string_txt|done|].
  rewrite chars_concat. intros (a & b & E). apply Hu. by exists a, b.
Qed.

Definition redact_member (key : string) (item : json) : json :=
  if _is_sensitive_key key then redacted_marker
  else match is_secret_container key, item with
       | true, JObject m => JObject (map (λ x, (x.1, redacted_marker)) m)
       | _, _ => mapping item
       end.

(** Clear keys stay, in their order. *)
Lemma clear_members l seen :
  Forall (clear secrets) l.*1 → NoDup (rev seen ++ l).*1 →
  sensitive_members secrets mapping l seen = rev seen ++ map (λ x, (x.1, redact_member x.1 x.2)) l.
Proof.
  revert seen. induction l as [|[k item] l IH]; intros seen Hc Hn; cbn [sensitive_members map].
  { by rewrite app_nil_r. }
  apply Forall_cons in Hc as [Hk Hc]. cbn in Hk.
  assert (redact_key secrets k = k) as -> by (unfold redact_key; by rewrite clear_redacted, string_txt).
  assert (new_key k seen.*1 = k) as ->.
  { unfold new_key. rewrite bool_decide_false; [done|]. intros Hin.
    rewrite fmap_app, NoDup_app in Hn. apply (proj1 (proj2 Hn) k); [|by left].
    apply list_elem_of_fmap in Hin as (x & -> & Hx). apply list_elem_of_fmap. exists x. split; [done|].
    by rewrite list_elem_of_In, <- in_rev, <- list_elem_of_In. }
  rewrite IH; [by cbn; rewrite <- app_assoc|done|].
  revert Hn. rewrite !fmap_app. cbn. by rewrite fmap_app, <- app_assoc.
Qed.
End members.
