(* ===== verification/UrlGuard.v ===== *)
(** * The URL guard ([engine/url_guard.py])

    Which URLs the service may request. The host of a URL is read as a browser reads it
    (IPv4 in any number of parts, octal and hexadecimal included), a name is resolved, and
    every address must be public; the connection is pinned to one that was judged.

    [urllib.parse.urlparse], [ipaddress.ip_address], the two IDNA encoders and the resolver
    are parameters ([NetLib]); the hostname and the port of a parsed URL are computed from
    its network location as the library does. *)

From S2P Require Import Prelude.
From S2P Require Import Text.
From S2P Require Import Redaction.
From S2P Require Import SensitiveData.
From S2P Require Import IpPolicy.
Open Scope Z_scope.

(** [ValueError] is a [ValueError] that is not an [UnsafeURLError]. *)
Inductive url_error := UnsafeURLError (reason : string) | URLResolutionError (reason : string) | ValueError (reason : string).

(** [Result a]: a value or an exception. *)
Abbreviation result := (outcome url_error).
Definition rbind {A B} (m : result A) (k : A → result B) : result B :=
  match m with Ok a => k a | Raise e => Raise e end.
Notation "'let?' x := m 'in' k" := (rbind m (λ x, k))
  (at level 10, x name, m at level 200, k at level 200) : scrape_scope.
Notation "'do?' m 'in' k" := (rbind m (λ _, k))
  (at level 10, m at level 200, k at level 200) : scrape_scope.
Definition require (b : bool) (reason : string) : result unit :=
  if b then Ok tt else Raise (UnsafeURLError reason).

(** ** Text *)

Definition dot : Ascii.ascii := chr 46.
(** [text.split(sep)] *)
Fixpoint split_on (sep : Ascii.ascii) (t : text) : list text :=
  match t with
  | [] => [[]]
  | a :: t =>
      if bool_decide (a = sep) then [] :: split_on sep t
      else match split_on sep t with p :: l => (a :: p) :: l | [] => [[a]] end
  end.
(** [text.partition(sep)]: before, whether it was found, after. *)
Fixpoint partition_on (sep : Ascii.ascii) (t : text) : text * bool * text :=
  match t with
  | [] => ([], false, [])
  | a :: t =>
      if bool_decide (a = sep) then ([], true, t)
      else let '(p, found, r) := partition_on sep t in (a :: p, found, r)
  end.
(** [text.rpartition(sep)] *)
Definition rpartition_on (sep : Ascii.ascii) (t : text) : text * bool * text :=
  let '(r, found, p) := partition_on sep (rev t) in
  if found then (rev p, true, rev r) else ([], false, t).
(** [text.rstrip(".")] and [text.strip(".")] *)
Fixpoint drop_dots (t : text) : text :=
  match t with a :: t' => if bool_decide (a = dot) then drop_dots t' else t | [] => [] end.
Definition rstrip_dots (t : text) : text := rev (drop_dots (rev t)).
Definition strip_dots (t : text) : text := drop_dots (rstrip_dots t).

Definition isascii (t : text) : bool := forallb (λ a, code a <? 128) t.
Definition lower_ascii (a : Ascii.ascii) : Ascii.ascii := if is_upper a then chr (code a + 32) else a.
Definition lowered (t : text) : text := map lower_ascii t.

(** [text.endswith(suffix)] *)
Definition ends_with (suffix t : text) : bool :=
  match cut_prefix (rev suffix) (rev t) with Some _ => true | None => false end.

(** ** IPv4 as a browser reads it *)

Definition digit_value (a : Ascii.ascii) : option Z :=
  if is_digit a then Some (code a - 48)
  else if (97 <=? code a) && (code a <=? 102) then Some (code a - 87)
  else if (65 <=? code a) && (code a <=? 70) then Some (code a - 55)
  else None.
Definition in_radix (radix : Z) (a : Ascii.ascii) : bool :=
  match digit_value a with Some d => d <? radix | None => false end.
Definition number_in (radix : Z) (t : text) : Z :=
  foldl (λ n a, n * radix + default 0 (digit_value a)) 0 t.

(** [int] refuses a decimal text of more than [sys.int_info.default_max_str_digits]. *)
Definition max_str_digits : nat := 4300.
Definition int (radix : Z) (t : text) : result Z :=
  if (radix =? 10) && (max_str_digits <? length t)%nat
  then Raise (ValueError "Exceeds the limit (4300 digits) for integer string conversion")
  else Ok (number_in radix t).

Definition radix_of (part : text) : Z * text :=
  match part with
  | a :: b :: rest =>
      if bool_decide (a = chr 48) then
        if bool_decide (b = chr 120) || bool_decide (b = chr 88) then (16, rest) else (8, b :: rest)
      else (10, part)
  | _ => (10, part)
  end.

Definition _ipv4_number (part : text) : result (option Z) :=
  match part with
  | [] => Ok None
  | _ =>
      let '(radix, digits) := radix_of part in
      match digits with
      | [] => Ok (Some 0)
      | _ => if forallb (in_radix radix) digits then let? n := int radix digits in Ok (Some n) else Ok None
      end
  end.

(** [parts.pop()] if the last of several is empty. *)
Definition _host_parts (host : text) : list text :=
  let parts := split_on dot host in
  if bool_decide (last parts = Some []) && (1 <? length parts)%nat then removelast parts else parts.

Definition _ends_in_a_number (host : text) : result bool :=
  let l := default [] (last (_host_parts host)) in
  match l with
  | [] => let? n := _ipv4_number l in Ok (bool_decide (is_Some n))
  | _ => if forallb is_digit l then Ok true
         else let? n := _ipv4_number l in Ok (bool_decide (is_Some n))
  end.

(** [[f(part) for part in parts]] *)
Fixpoint rmap {A B} (f : A → result B) (l : list A) : result (list B) :=
  match l with
  | [] => Ok []
  | a :: l => let? b := f a in let? bs := rmap f l in Ok (b :: bs)
  end.

(** [address += value * 256 ** (3 - index)] *)
Fixpoint place_values (index : Z) (l : list Z) : Z :=
  match l with [] => 0 | v :: l => v * 256 ^ (3 - index) + place_values (index + 1) l end.

Definition _legacy_ipv4_address (host : text) : result (option IPAddress) :=
  match host with
  | [] => Ok None
  | _ =>
      let? numeric := _ends_in_a_number host in
      if negb numeric then Ok None
      else
        let parts := _host_parts host in
        if (4 <? length parts)%nat then Ok None
        else
          let? numbers := rmap _ipv4_number parts in
          if existsb (λ n, bool_decide (n = None)) numbers then Ok None
          else
            let values := omap id numbers in
            let l := default 0 (last values) in
            if existsb (λ v, 255 <? v) (removelast values) || (256 ^ (5 - Z.of_nat (length values)) <=? l)
            then Ok None
            else Ok (Some (ipv4 (Z.to_N (l + place_values 0 (removelast values)))))
  end.

(** ** Parsed URLs *)

Record ParseResult := { scheme : text; netloc : text; path : text; params : text; query : text; fragment : text }.

Section urls.
Context (lower : text → text).

(** [ParseResult.hostname]: a zone keeps its case. *)
Definition hostinfo (p : ParseResult) : text * option text :=
  let '(_, _, info) := rpartition_on (chr 64) (netloc p) in
  let '(_, bracket, bracketed) := partition_on (chr 91) info in
  let '(host, port) :=
    if bracket then
      let '(host, _, rest) := partition_on (chr 93) bracketed in
      let '(_, _, port) := partition_on (chr 58) rest in (host, port)
    else let '(host, _, port) := partition_on (chr 58) info in (host, port) in
  (host, match port with [] => None | _ => Some port end).
Definition hostname (p : ParseResult) : option text :=
  match (hostinfo p).1 with
  | [] => None
  | h => let '(name, found, zone) := partition_on (chr 37) h in
         Some (lower name ++ (if found then [chr 37] else []) ++ zone)
  end.
(** [ParseResult.port]: raises ValueError if it is no number up to 65535. *)
Definition port (p : ParseResult) : outcome unit (option Z) :=
  match (hostinfo p).2 with
  | None => Ok None
  | Some t =>
      if all_digits t then if (decimal t <=? 65535) then Ok (Some (decimal t)) else Raise tt else Raise tt
  end.
End urls.

(** ** The library *)

(** How a lookup fails: [gaierror] or [UnicodeError]. *)
Inductive dns_error := gaierror | UnicodeError.

Class NetLib := {
  urlparse : text → option ParseResult;
  urlunparse : ParseResult → text;
  lower_text : text → text;
  (** [ipaddress.ip_address(str)] and [str(address)] *)
  ip_address : text → option IPAddress;
  show_ip : IPAddress → text;
  (** [host.encode("idna").decode("ascii")] and [idna.encode(host.lower()).decode("ascii")] *)
  encode_idna : text → option text;
  idna_encode : text → option text;
  getaddrinfo : text → option Z → outcome dns_error (list text);
  (** The text of an address determines it. An address is in range; without a zone its text
      is ASCII, in either case. *)
  show_ip_inj a b : show_ip a = show_ip b → a = b;
  ip_address_valid t a : ip_address t = Some a → valid_address a;
  ip_address_ascii t a : ip_address t = Some a → chr 37 ∉ t → isascii t = true;
  ip_address_lower t : isascii t = true → ip_address (lowered t) = ip_address t;
  (** The encoder of IDNA 2003 leaves ASCII labels alone, and a label has at most 63
      characters. *)
  encode_idna_ascii t c : isascii t = true → encode_idna t = Some c → c = t;
  encode_idna_labels t c p : encode_idna t = Some c → p ∈ split_on dot c → (length p ≤ 63)%nat;
}.

(** ** The guard *)

Section guard.
Context `{NetLib}.

Definition _DISALLOWED_HOSTS : list string :=
  ["broadcasthost"; "ip6-localhost"; "ip6-loopback"; "metadata.google.internal"; "metadata.goog"; "metadata";
   "instance-data"; "instance-data.ec2.internal"; "localhost"; "localhost.localdomain"; "localhost6";
   "localhost6.localdomain6"].

Definition _hostname_is_blocked (host : text) : bool :=
  let name := rstrip_dots (lowered host) in
  existsb (λ h, bool_decide (name = txt h)) _DISALLOWED_HOSTS || ends_with (txt ".localhost") name.

Definition _MAX_HOSTNAME_CHARS : nat := 253.
Definition _idna2003_hostname (host : text) : result text :=
  if (_MAX_HOSTNAME_CHARS <? py_len (rstrip_dots host))%nat
  then Raise (UnsafeURLError "URL hostname is longer than 253 characters")
  else match encode_idna host with
       | Some name => Ok (rstrip_dots (lowered name))
       | None => Raise (UnsafeURLError "URL hostname is invalid")
       end.

(** [_CLIENT_ESCAPED_HOST_CHARS] *)
Definition client_escaped (host : text) : bool :=
  existsb (λ a, bool_decide (a = chr 60) || bool_decide (a = chr 62) || bool_decide (a = chr 94)) host.
Definition _require_one_reading (host canonical : text) : result unit :=
  if isascii host then
    require (negb (client_escaped host)) "URL hostname contains a character HTTP clients escape"
  else
    require (bool_decide (option_map (λ n, rstrip_dots (lowered n)) (idna_encode host) = Some canonical))
      "URL hostname is read differently by IDNA 2003 and IDNA 2008; use its ASCII (xn--) form".

Definition canonical_hostname (host : text) : result text :=
  let? canonical := _idna2003_hostname host in
  do? _require_one_reading host canonical in
  Ok canonical.

(** [try: ipaddress.ip_address(host) except ValueError: _legacy_ipv4_address(host)] *)
Definition ip_literal (host : text) : result (option IPAddress) :=
  match ip_address host with Some a => Ok (Some a) | None => _legacy_ipv4_address host end.

Definition _folded_ip (host : text) : result (option IPAddress) :=
  match ip_address host with
  | None => _legacy_ipv4_address host
  | Some a =>
      match ip_version a, ipv4_mapped (ip a) with
      | v6, Some x => Ok (Some (ipv4 x))
      | _, _ => Ok (Some a)
      end
  end.

Definition refuse (a : IPAddress) : result unit :=
  require (negb (ip_is_blocked a)) "URL points at non-public IP".

Definition control_char (a : Ascii.ascii) : bool := (code a <? 32) || (code a =? 127).

(** The host that the lexical checks are about. *)
Definition checked_host (allowed_schemes : list text) (url : text) : result (text * ParseResult) :=
  do? require (negb (existsb (λ a, bool_decide (a = chr 92)) url)) "URL must not contain backslashes" in
  do? require (negb (existsb white (chars url))) "URL must not contain whitespace" in
  do? require (negb (existsb control_char url)) "URL must not contain control characters" in
  match urlparse url with
  | None => Raise (UnsafeURLError "URL is malformed")
  | Some parsed =>
      do? require (bool_decide (lower_text (scheme parsed) ∈ allowed_schemes)) "URL scheme is not allowed" in
      match hostname lower_text parsed with
      | None => Raise (UnsafeURLError "URL has no hostname")
      | Some host =>
          do? require (negb (bool_decide (strip_dots host = []))) "URL has no hostname" in
          do? require (negb (existsb (λ a, bool_decide (a = chr 37)) host))
                "URL hostname must not contain percent escapes" in
          do? require (is_ok (port parsed)) "URL port is invalid" in
          Ok (host, parsed)
      end
  end.

Definition public_dns_hostname (allowed_schemes : list text) (url : text) : result (option text) :=
  let? checked := checked_host allowed_schemes url in
  let host := checked.1 in
  let ip_host := rstrip_dots host in
  match ip_address ip_host with
  | Some literal => do? refuse literal in Ok None
  | None =>
      let? legacy_ipv4 := _legacy_ipv4_address ip_host in
      match legacy_ipv4 with
      | Some a => do? refuse a in Ok None
      | None =>
          let? canonical := _idna2003_hostname host in
          do? require (negb (_hostname_is_blocked canonical)) "Hostname is blocked" in
          let? literal := ip_literal canonical in
          do? match literal with Some a => refuse a | None => Ok tt end in
          let? numeric := match literal with
                          | None => _ends_in_a_number (rstrip_dots canonical)
                          | Some _ => Ok false
                          end in
          do? require (negb numeric) "URL hostname ends in a number but is not an IPv4 address" in
          do? _require_one_reading host canonical in
          Ok (match literal with None => Some canonical | Some _ => None end)
      end
  end.

Definition refuse_resolved (a : IPAddress) : result unit :=
  require (negb (ip_is_blocked a)) "Hostname resolves to non-public address".

(** The loop of [assert_public_url] over a lookup. *)
Fixpoint check_infos (infos seen : list text) : result unit :=
  match infos with
  | [] => Ok tt
  | t :: infos =>
      if bool_decide (t ∈ seen) then check_infos infos seen
      else match ip_address t with
           | None => check_infos infos (t :: seen)
           | Some a => do? refuse_resolved a in check_infos infos (t :: seen)
           end
  end.

(** The loop of [resolve_public_url]. *)
Fixpoint public_addresses (infos seen : list text) : result (list IPAddress) :=
  match infos with
  | [] => Ok []
  | t :: infos =>
      match ip_address t with
      | None => public_addresses infos seen
      | Some a =>
          if bool_decide (show_ip a ∈ seen) then public_addresses infos seen
          else
            do? refuse_resolved a in
            let? l := public_addresses infos (show_ip a :: seen) in
            Ok (a :: l)
      end
  end.

Definition http_schemes : list text := [txt "http"; txt "https"].

Definition assert_public_url (allowed_schemes : list text) (resolve_dns allow_unresolved : bool) (url : text) :
    result unit :=
  let? host := public_dns_hostname allowed_schemes url in
  match host with
  | None => Ok tt
  | Some host =>
      if negb resolve_dns then Ok tt
      else match getaddrinfo host None with
           | Raise UnicodeError => Raise (UnsafeURLError "URL hostname is invalid")
           | Raise gaierror => if allow_unresolved then Ok tt
                               else Raise (URLResolutionError "Hostname could not be resolved")
           | Ok infos => check_infos infos []
           end
  end.

Record ResolvedPublicURL := { connect_url : text; host_header : text; sni_hostname : text }.

(** [f"{authority}:{port}"] *)
Definition with_port (authority : text) (p : option Z) : text :=
  match p with Some n => authority ++ chr 58 :: str_int n | None => authority end.
Definition ip_authority (a : IPAddress) : text :=
  match ip_version a with v6 => chr 91 :: show_ip a ++ [chr 93] | v4 => show_ip a end.
Definition userinfo (netloc : text) : text :=
  let '(user, found, _) := rpartition_on (chr 64) netloc in if found then user ++ [chr 64] else [].
Definition set_netloc (v : text) (p : ParseResult) : ParseResult :=
  {| scheme := scheme p; netloc := v; path := path p; params := params p; query := query p; fragment := fragment p |}.

(** The URL that is connected to. *)
Definition pinned_url (parsed : ParseResult) (a : IPAddress) (p : option Z) : text :=
  urlunparse (set_netloc (userinfo (netloc parsed) ++ with_port (ip_authority a) p) parsed).

(** The literal of the host, or the first address of its name; all must be public. *)
Definition connect_address (canonical_host : text) (p : option Z) : result IPAddress :=
  let? literal := ip_literal canonical_host in
  match literal with
  | Some a => Ok a
  | None =>
      match getaddrinfo canonical_host p with
      | Raise gaierror => Raise (URLResolutionError "Hostname could not be resolved")
      | Raise UnicodeError => Raise (UnsafeURLError "URL hostname is invalid")
      | Ok infos =>
          let? addresses := public_addresses infos [] in
          match addresses with
          | [] => Raise (URLResolutionError "Hostname resolved to no usable address")
          | a :: _ => Ok a
          end
      end
  end.

Definition resolve_public_url (url : text) : result ResolvedPublicURL :=
  do? assert_public_url http_schemes false true url in
  match urlparse url with
  | None => Raise (ValueError "URL is malformed")
  | Some parsed =>
      match hostname lower_text parsed with
      | None => Raise (UnsafeURLError "URL has no hostname")
      | Some original_host =>
          let? canonical_host := canonical_hostname original_host in
          match port parsed with
          | Raise _ => Raise (ValueError "Port out of range 0-65535")
          | Ok p =>
              let? a := connect_address canonical_host p in
              let host := if existsb (λ a, bool_decide (a = chr 58)) canonical_host
                          then chr 91 :: canonical_host ++ [chr 93] else canonical_host in
              Ok {| connect_url := pinned_url parsed a p; host_header := with_port host p;
                    sni_hostname := canonical_host |}
          end
      end
  end.

(** ** Identities of URLs *)

Definition canonical_url_origin (url : text) : result (option (text * text * Z)) :=
  match urlparse url with
  | None => Ok None
  | Some parsed =>
      match port parsed with
      | Raise _ => Ok None
      | Ok p =>
          let scheme := lower_text (scheme parsed) in
          match scheme, hostname lower_text parsed with
          | [], _ | _, None => Ok None
          | _, Some raw_host =>
              let? literal := _folded_ip (rstrip_dots raw_host) in
              let default_port := if bool_decide (scheme = txt "https") then 443
                                  else if bool_decide (scheme = txt "http") then 80 else -1 in
              let origin (host : text) := Some (scheme, host, default default_port p) in
              match literal with
              | Some a => Ok (origin (show_ip a))
              | None =>
                  match canonical_hostname raw_host with
                  | Raise (UnsafeURLError _) => Ok None
                  | Raise e => Raise e
                  | Ok host =>
                      let? literal := _folded_ip host in
                      Ok (origin (match literal with Some a => show_ip a | None => host end))
                  end
              end
          end
      end
  end.

Definition url_host_label (url : text) : result text :=
  match urlparse url with
  | None => Raise (UnsafeURLError "URL is malformed")
  | Some parsed =>
      match hostname lower_text parsed with
      | None => Ok (txt "unknown-host")
      | Some raw_host =>
          let? host := canonical_hostname raw_host in
          let host := match ip_address host with Some a => show_ip a | None => host end in
          let host := if existsb (λ a, bool_decide (a = chr 58)) host then chr 91 :: host ++ [chr 93] else host in
          let p := match port parsed with Ok p => p | Raise _ => None end in
          let scheme := lower_text (scheme parsed) in
          Ok (match p with
              | None => host
              | Some n => if (bool_decide (scheme = txt "http") && (n =? 80)) ||
                             (bool_decide (scheme = txt "https") && (n =? 443))
                          then host else with_port host p
              end)
      end
  end.
End guard.
