(* ===== verification/UrlGuardSpec.v ===== *)
(** * What the URL guard guarantees

    A resolved URL connects to an address that the policy allows; every spelling of an
    IPv4 address that a browser accepts is read as that address; and the guard refuses
    with [UnsafeURLError], one case apart. *)

From S2P Require Import Prelude.
From S2P Require Import Text.
From S2P Require Import Redaction.
From S2P Require Import IpPolicy.
From S2P Require Import UrlGuard.
Open Scope Z_scope.

(** ** Results *)

Lemma require_ok b s : require b s = Ok tt → b = true.
Proof. by destruct b. Qed.
Lemma rbind_ok {A B} (m : result A) (k : A → result B) b : rbind m k = Ok b → ∃ a, m = Ok a ∧ k a = Ok b.
Proof. destruct m as [a|e]; cbn; [eauto|done]. Qed.
Lemma rbind_raise {A B} (m : result A) (k : A → result B) e :
  rbind m k = Raise e → m = Raise e ∨ ∃ a, m = Ok a ∧ k a = Raise e.
Proof. destruct m as [a|x]; cbn; [eauto|]. intros [= ->]. by left. Qed.

(** Takes a successful computation apart. *)
Ltac rok H :=
  repeat match type of H with
  | rbind (require _ _) (λ _, _) = Ok _ =>
      let a := fresh "u" in let Hr := fresh "Hr" in apply rbind_ok in H as (a & Hr & H); destruct a; apply require_ok in Hr
  end.

(** ** Letter case *)

Lemma lowered_app a b : lowered (a ++ b) = lowered a ++ lowered b.
Proof. apply map_app. Qed.
Lemma lower_dot a : lower_ascii a = dot ↔ a = dot.
Proof.
  assert (∀ a, bool_decide (lower_ascii a = dot) = bool_decide (a = dot)) as Ha by (apply (all_ascii _); by vm_compute).
  specialize (Ha a). by rewrite <- (bool_decide_eq_true (lower_ascii a = dot)), Ha, bool_decide_eq_true.
Qed.
Lemma lower_digit_value a : digit_value (lower_ascii a) = digit_value a.
Proof. revert a. apply (all_ascii _). by vm_compute. Qed.
Lemma lower_digit a : is_digit (lower_ascii a) = is_digit a.
Proof. revert a. apply (all_ascii _). by vm_compute. Qed.
Lemma lower_zero a : bool_decide (lower_ascii a = chr 48) = bool_decide (a = chr 48).
Proof. revert a. apply (all_ascii _). by vm_compute. Qed.
Lemma lower_x a : bool_decide (lower_ascii a = chr 120) || bool_decide (lower_ascii a = chr 88) =
                  bool_decide (a = chr 120) || bool_decide (a = chr 88).
Proof. revert a. apply (all_ascii _). by vm_compute. Qed.
Lemma lower_low a : (code (lower_ascii a) <? 128) = (code a <? 128).
Proof. revert a. apply (all_ascii _). by vm_compute. Qed.

Lemma lowered_nil t : lowered t = [] ↔ t = [].
Proof. by destruct t. Qed.
Lemma lowered_rev t : lowered (rev t) = rev (lowered t).
Proof. apply map_rev. Qed.
Lemma drop_dots_lowered t : drop_dots (lowered t) = lowered (drop_dots t).
Proof.
  induction t as [|a t IH]; [done|]. cbn. fold (lowered t). rewrite IH.
  destruct (decide (a = dot)) as [->|Hne]; [done|].
  rewrite !bool_decide_false; [done|done|]. by rewrite lower_dot.
Qed.
Lemma rstrip_dots_lowered t : rstrip_dots (lowered t) = lowered (rstrip_dots t).
Proof. unfold rstrip_dots. by rewrite <- lowered_rev, drop_dots_lowered, lowered_rev. Qed.

Lemma drop_dots_ascii t : isascii (drop_dots t) = isascii t.
Proof.
  induction t as [|a t IH]; [done|]. cbn [drop_dots]. case_bool_decide as Ha; [|done]. subst. rewrite IH. done.
Qed.
Lemma isascii_app a b : isascii (a ++ b) = isascii a && isascii b.
Proof. apply forallb_app. Qed.
Lemma isascii_rev t : isascii (rev t) = isascii t.
Proof.
  induction t as [|a t IH]; [done|]. cbn [rev]. rewrite isascii_app, IH. cbn. by rewrite andb_true_r, andb_comm.
Qed.
Lemma rstrip_dots_ascii t : isascii (rstrip_dots t) = isascii t.
Proof. unfold rstrip_dots. by rewrite isascii_rev, drop_dots_ascii, isascii_rev. Qed.
Lemma drop_dots_elem t a : a ∈ drop_dots t → a ∈ t.
Proof. induction t as [|b t IH]; [done|]. cbn. case_bool_decide; [|done]. intros. by right; apply IH. Qed.
Lemma rstrip_dots_elem t a : a ∈ rstrip_dots t → a ∈ t.
Proof.
  unfold rstrip_dots. rewrite !list_elem_of_In, <- in_rev, <- !list_elem_of_In. intros Ha%drop_dots_elem.
  by rewrite list_elem_of_In, in_rev, <- list_elem_of_In.
Qed.

(** ** The reading of numbers does not depend on case *)

Lemma split_lowered t : split_on dot (lowered t) = map lowered (split_on dot t).
Proof.
  induction t as [|a t IH]; [done|]. cbn [lowered map split_on]. fold (lowered t). rewrite IH.
  destruct (decide (a = dot)) as [->|Hne]; [done|].
  rewrite (bool_decide_false (a = dot)), bool_decide_false by by rewrite ?lower_dot.
  by destruct (split_on dot t).
Qed.

Lemma number_lowered t : _ipv4_number (lowered t) = _ipv4_number t.
Proof.
  assert (∀ r l, forallb (in_radix r) (lowered l) = forallb (in_radix r) l) as Hf.
  { intros r l. induction l as [|a l IH]; [done|]. cbn. unfold in_radix at 1 3. rewrite lower_digit_value. by f_equal. }
  assert (∀ r l, int r (lowered l) = int r l) as Hi.
  { intros r l. unfold int, lowered. rewrite length_map. destruct (_ && _); [done|]. f_equal. unfold number_in.
    enough (∀ z, foldl (λ n a, n * r + default 0 (digit_value a)) z (map lower_ascii l) =
                 foldl (λ n a, n * r + default 0 (digit_value a)) z l) as Hz by apply Hz.
    induction l as [|a l IH]; intros z; [done|]. cbn. rewrite lower_digit_value. apply IH. }
  unfold _ipv4_number. destruct t as [|a [|b t]]; [done| |].
  - cbn [lowered map radix_of]. change [lower_ascii a] with (lowered [a]). by rewrite Hf, Hi.
  - cbn [lowered map radix_of]. fold (lowered t). rewrite lower_zero, lower_x.
    destruct (bool_decide (a = chr 48)); [destruct (_ || _)|].
    + destruct t as [|c t]; [done|]. cbn [lowered map]. change (lower_ascii c :: map lower_ascii t) with (lowered (c :: t)).
      by rewrite Hf, Hi.
    + change (lower_ascii b :: lowered t) with (lowered (b :: t)). cbn [lowered map]. fold (lowered t).
      change (lower_ascii b :: lowered t) with (lowered (b :: t)). by rewrite Hf, Hi.
    + change (lower_ascii a :: lower_ascii b :: lowered t) with (lowered (a :: b :: t)). cbn [lowered map]. fold (lowered t).
      change (lower_ascii a :: lower_ascii b :: lowered t) with (lowered (a :: b :: t)). by rewrite Hf, Hi.
Qed.

Lemma parts_lowered t : _host_parts (lowered t) = map lowered (_host_parts t).
Proof.
  unfold _host_parts. rewrite split_lowered, length_map.
  assert (∀ l : list text, bool_decide (last (map lowered l) = Some []) = bool_decide (last l = Some [])) as Hl.
  { intros l. change (map lowered l) with (lowered <$> l). rewrite fmap_last. destruct (last l) as [[|a p]|]; done. }
  rewrite Hl. destruct (_ && _); [|done].
  induction (split_on dot t) as [|p [|q l] IH]; [done..|]. cbn [map removelast] in *. by rewrite IH.
Qed.

Lemma ends_lowered t : _ends_in_a_number (lowered t) = _ends_in_a_number t.
Proof.
  unfold _ends_in_a_number. rewrite parts_lowered. change (map lowered (_host_parts t)) with (lowered <$> _host_parts t).
  rewrite fmap_last. destruct (last (_host_parts t)) as [[|a p]|]; [done| |done].
  change (default [] (lowered <$> Some (a :: p))) with (lowered (a :: p)).
  change (default [] (Some (a :: p))) with (a :: p). cbn [lowered map]. fold (lowered p).
  change (lower_ascii a :: lowered p) with (lowered (a :: p)).
  assert (∀ l, forallb is_digit (lowered l) = forallb is_digit l) as ->.
  { induction l as [|c l IH]; [done|]. cbn. by rewrite lower_digit, <- IH. }
  by rewrite number_lowered.
Qed.

Lemma rmap_lowered l : rmap _ipv4_number (map lowered l) = rmap _ipv4_number l.
Proof. induction l as [|p l IH]; [done|]. cbn. by rewrite number_lowered, IH. Qed.

Lemma legacy_lowered t : _legacy_ipv4_address (lowered t) = _legacy_ipv4_address t.
Proof.
  unfold _legacy_ipv4_address. rewrite parts_lowered, length_map, rmap_lowered, ends_lowered.
  by destruct t.
Qed.

(** ** What is read as a number is ASCII *)

Lemma radix_ascii r a : in_radix r a = true → (code a <? 128) = true.
Proof.
  assert (∀ a, implb (bool_decide (is_Some (digit_value a))) (code a <? 128) = true) as Ha by (apply (all_ascii _); by vm_compute).
  specialize (Ha a). unfold in_radix. destruct (digit_value a); [|done]. rewrite bool_decide_true in Ha by eauto. done.
Qed.
Lemma radixes_ascii r t : forallb (in_radix r) t = true → isascii t = true.
Proof.
  unfold isascii. rewrite !forallb_forall. intros Ht a Ha. by eapply radix_ascii, Ht.
Qed.

Lemma number_ascii t n : _ipv4_number t = Ok (Some n) → isascii t = true.
Proof.
  unfold _ipv4_number. destruct t as [|a [|b t]]; [done| |].
  - cbn [radix_of]. destruct (forallb (in_radix 10) [a]) eqn:Hf; [|done]. intros _. by eapply radixes_ascii.
  - cbn [radix_of]. destruct (bool_decide (a = chr 48)) eqn:Ha; [apply bool_decide_eq_true in Ha as ->; destruct (_ || _) eqn:Hx|].
    + assert (isascii [chr 48; b] = true) as Hab by (apply orb_true_iff in Hx as [->%bool_decide_eq_true| ->%bool_decide_eq_true]; done).
      destruct t as [|c t]; [done|]. destruct (forallb (in_radix 16) (c :: t)) eqn:Hf; [|done]. intros _.
      change (chr 48 :: b :: c :: t) with ([chr 48; b] ++ c :: t). rewrite isascii_app, Hab. by eapply radixes_ascii.
    + destruct (forallb (in_radix 8) (b :: t)) eqn:Hf; [|done]. intros _.
      change (chr 48 :: b :: t) with ([chr 48] ++ b :: t). rewrite isascii_app. by eapply radixes_ascii.
    + destruct (forallb (in_radix 10) (a :: b :: t)) eqn:Hf; [|done]. intros _. by eapply radixes_ascii.
Qed.

Lemma split_length sep t : (0 < length (split_on sep t))%nat.
Proof.
  induction t as [|a t IH]; [cbn; lia|]. cbn [split_on]. case_bool_decide; [cbn; lia|].
  destruct (split_on sep t); cbn; lia.
Qed.

Lemma parts_length t : (0 < length (_host_parts t))%nat.
Proof.
  unfold _host_parts. pose proof (split_length dot t). destruct (bool_decide _ && _) eqn:Hd; [|done].
  apply andb_true_iff in Hd as [_ Hd%Nat.ltb_lt]. destruct (split_on dot t) as [|p [|q l]]; cbn in *; lia.
Qed.

Lemma split_ascii t : isascii t = forallb isascii (split_on dot t).
Proof.
  induction t as [|a t IH]; [done|]. cbn [split_on]. case_bool_decide as Ha.
  - subst. cbn. exact IH.
  - cbn [isascii forallb]. fold (isascii t). rewrite IH. destruct (split_on dot t) as [|p l]; cbn.
    + by rewrite !andb_true_r.
    + fold (isascii p). by rewrite andb_assoc.
Qed.

Lemma parts_ascii t : forallb isascii (_host_parts t) = true → isascii t = true.
Proof.
  rewrite split_ascii. unfold _host_parts. destruct (_ && _) eqn:Hd; [|done].
  apply andb_true_iff in Hd as [Hl%bool_decide_eq_true _]. apply last_Some in Hl as [l ->].
  rewrite removelast_last, forallb_app. by intros ->.
Qed.

Lemma rmap_each {A B} (f : A → result B) l l' : rmap f l = Ok l' → Forall2 (λ a b, f a = Ok b) l l'.
Proof.
  revert l'. induction l as [|a l IH]; intros l'; cbn; [by intros [= <-]|].
  intros (b & Hb & (bs & Hbs & [= <-])%rbind_ok)%rbind_ok. constructor; [done|by apply IH].
Qed.

(** What a legacy reading comes from. *)
Record legacy_reading (host : text) (a : IPAddress) (values : list Z) : Prop := {
  lr_numbers : Forall2 (λ p v, _ipv4_number p = Ok (Some v)) (_host_parts host) values;
  lr_count : (length values ≤ 4)%nat;
  lr_some : values ≠ [];
  lr_small : Forall (λ v, v ≤ 255) (removelast values);
  lr_last : default 0 (last values) < 256 ^ (5 - Z.of_nat (length values));
  lr_address : a = ipv4 (Z.to_N (default 0 (last values) + place_values 0 (removelast values)));
}.

Lemma legacy_reads host a : _legacy_ipv4_address host = Ok (Some a) → ∃ values, legacy_reading host a values.
Proof.
  unfold _legacy_ipv4_address. destruct host as [|c host]; [done|]. set (h := c :: host).
  intros (numeric & _ & Hl)%rbind_ok. destruct numeric; [|done]. cbn [negb] in Hl.
  destruct (Nat.ltb_spec 4 (length (_host_parts h))) as [|Hcount]; [done|].
  apply rbind_ok in Hl as (numbers & Hn & Hl). apply rmap_each in Hn.
  destruct (existsb _ numbers) eqn:Hnone; [done|].
  assert (Forall2 (λ p v, _ipv4_number p = Ok (Some v)) (_host_parts h) (omap id numbers)) as Hv.
  { clear Hl Hcount. induction Hn as [|p o ps os Hp Hps IH]; [constructor|]. cbn in Hnone.
    apply orb_false_iff in Hnone as [Ho Hnone]. destruct o as [v|]; [|done]. cbn. constructor; [done|by apply IH]. }
  destruct (_ || _) eqn:Hb; [done|]. injection Hl as <-. apply orb_false_iff in Hb as [Hs Hlast].
  exists (omap id numbers). pose proof (Forall2_length _ _ _ Hv) as Hlen. constructor; try done.
  - lia.
  - intros E. rewrite E in Hlen. pose proof (parts_length h). cbn in Hlen. lia.
  - apply Forall_forall. intros v Hv'. destruct (Z.le_gt_cases v 255); [done|].
    assert (existsb (λ v, 255 <? v) (removelast (omap id numbers)) = true) as Ht; [|congruence].
    apply existsb_exists. exists v. split; [by apply list_elem_of_In|by apply Z.ltb_lt].
  - by apply Z.leb_gt in Hlast.
Qed.

Lemma legacy_ascii host a : _legacy_ipv4_address host = Ok (Some a) → isascii host = true.
Proof.
  intros (values & [Hn _ _ _ _ _])%legacy_reads. apply parts_ascii.
  induction Hn as [|p v ps vs Hp Hps IH]; [done|]. cbn. rewrite IH, andb_true_r. by eapply number_ascii.
Qed.

(** A legacy address has 32 bits. *)
Lemma place_values_bound i l :
  Forall (λ v, 0 ≤ v ≤ 255) l → 0 ≤ i → i + Z.of_nat (length l) ≤ 4 →
  0 ≤ place_values i l ≤ 256 ^ (4 - i) - 256 ^ (4 - i - Z.of_nat (length l)).
Proof.
  intros Hl. revert i. induction Hl as [|v l Hv Hl IH]; intros i Hi Hn; cbn [place_values length] in *.
  { rewrite Z.sub_0_r. lia. }
  rewrite Nat2Z.inj_succ in *. specialize (IH (i + 1) ltac:(lia) ltac:(lia)).
  replace (4 - (i + 1) - Z.of_nat (length l)) with (4 - i - Z.succ (Z.of_nat (length l))) in IH by lia.
  replace (4 - (i + 1)) with (3 - i) in IH by lia.
  replace (4 - i) with (Z.succ (3 - i)) by lia. rewrite Z.pow_succ_r by lia.
  assert (0 < 256 ^ (3 - i)) by (apply Z.pow_pos_nonneg; lia).
  replace (Z.succ (3 - i)) with (4 - i) by lia. nia.
Qed.

Lemma number_in_nonneg r t n : 0 ≤ r → 0 ≤ n → 0 ≤ foldl (λ n a, n * r + default 0 (digit_value a)) n t.
Proof.
  intros Hr. revert n. induction t as [|a t IH]; intros n Hn; cbn; [done|]. apply IH.
  assert (0 ≤ default 0 (digit_value a)); [|nia].
  unfold digit_value, is_digit. repeat case_match; cbn; try lia.
  all: repeat match goal with H : _ && _ = true |- _ => apply andb_true_iff in H as [?%Z.leb_le ?%Z.leb_le] end; lia.
Qed.
Lemma number_nonneg t n : _ipv4_number t = Ok (Some n) → 0 ≤ n.
Proof.
  assert (∀ r, 0 ≤ fst (radix_of r)) as Hr by (intros r; unfold radix_of; repeat case_match; cbn; lia).
  unfold _ipv4_number. destruct t as [|a t]; [done|]. specialize (Hr (a :: t)).
  destruct (radix_of (a :: t)) as [radix l]. destruct l as [|b l]; [by intros [= <-]|].
  destruct (forallb _ _); [|done]. unfold int. destruct (_ && _); [done|]. intros [= <-].
  by apply number_in_nonneg.
Qed.

Lemma legacy_valid host a : _legacy_ipv4_address host = Ok (Some a) → valid_address a.
Proof.
  intros (values & [Hn Hc He Hs Hl ->])%legacy_reads. unfold valid_address. cbn [ip_version ipv4 ip max_prefixlen].
  destruct values as [|v values _] using rev_ind; [done|]. rewrite removelast_last in *. rewrite last_snoc in *.
  cbn [default] in *. rewrite length_app in *. cbn [length] in *.
  assert (Forall (λ v, 0 ≤ v) (values ++ [v])) as Hpos.
  { apply Forall_forall. intros w Hw. apply list_elem_of_lookup in Hw as [i Hw].
    destruct (Forall2_lookup_r _ _ _ _ _ Hn Hw) as (p & _ & Hp). by eapply number_nonneg. }
  apply Forall_app in Hpos as [Hpos [Hv _]%Forall_cons].
  assert (0 ≤ 0 ∧ 0 + Z.of_nat (length values) ≤ 4) as [H0 H4] by lia.
  pose proof (place_values_bound 0 values) as Hb.
  assert (Forall (λ v, 0 ≤ v ≤ 255) values) as Hs'.
  { apply Forall_forall. intros w Hw. split; [by apply (proj1 (Forall_forall _ _) Hpos)|by apply (proj1 (Forall_forall _ _) Hs)]. }
  specialize (Hb Hs' H0 H4). change (4 - 0) with 4 in Hb.
  replace (5 - Z.of_nat (length values + 1)) with (4 - Z.of_nat (length values)) in Hl by lia.
  lia.
Qed.

(** ** Spellings of an IPv4 address *)

Inductive radix_name := decimal_part | octal_part | hex_part.
Definition radix_value (b : radix_name) : N := match b with decimal_part => 10 | octal_part => 8 | hex_part => 16 end.
Definition radix_prefix (b : radix_name) : text :=
  match b with decimal_part => [] | octal_part => [chr 48] | hex_part => [chr 48; chr 120] end.
Definition digit_char (d : N) : Ascii.ascii := if (d <? 10)%N then chr (48 + Z.of_N d) else chr (87 + Z.of_N d).
Fixpoint numeral (fuel : nat) (r n : N) (acc : text) : text :=
  match fuel with
  | O => acc
  | S fuel => if (n <? r)%N then digit_char n :: acc else numeral fuel r (n / r) (digit_char (n mod r) :: acc)
  end.
(** A part of 32 bits has at most 32 digits. *)
Definition spell_part (b : radix_name) (n : N) : text := radix_prefix b ++ numeral 32 (radix_value b) n [].

(** The parts of an address in as many parts as there are bases: octets, then the rest. *)
Fixpoint spell_parts (bases : list radix_name) (left : N) (n : N) : list text :=
  match bases with
  | [] => []
  | [b] => [spell_part b n]
  | b :: bases => spell_part b (n / 256 ^ left) :: spell_parts bases (left - 1) (n mod 256 ^ left)
  end.
Definition join_dots (parts : list text) : text :=
  match parts with [] => [] | p :: l => p ++ flat_map (λ q, dot :: q) l end.
(** An IPv4 address as one to four numbers in the given bases. *)
Definition spelling (bases : list radix_name) (n : N) (trailing_dot : bool) : text :=
  join_dots (spell_parts bases 3 n) ++ (if trailing_dot then [dot] else []).

Example spelling_hex : spelling [hex_part; decimal_part] 2130706433 false = txt "0x7f.1".
Proof. by vm_compute. Qed.
Example spelling_octal : spelling [octal_part] 2130706433 true = txt "017700000001.".
Proof. by vm_compute. Qed.


(** A numeral is read back in its base. *)
Lemma digit_char_spec r d : (d < r)%N → (r ≤ 16)%N → digit_value (digit_char d) = Some (Z.of_N d).
Proof.
  intros Hd Hr. assert (d < 16)%N as Hd' by lia. clear Hd Hr. unfold digit_char.
  assert (Forall (λ d, digit_value (if (d <? 10)%N then chr (48 + Z.of_N d) else chr (87 + Z.of_N d)) = Some (Z.of_N d))
    [0; 1; 2; 3; 4; 5; 6; 7; 8; 9; 10; 11; 12; 13; 14; 15]%N) as Hf by by repeat constructor.
  apply (proj1 (Forall_forall _ _) Hf). rewrite !elem_of_cons. lia.
Qed.
Lemma number_in_snoc r p a : number_in r (p ++ [a]) = number_in r p * r + default 0 (digit_value a).
Proof. unfold number_in. by rewrite foldl_app. Qed.

Record numeral_of (r n : N) (p : text) : Prop := {
  no_digits : forallb (in_radix (Z.of_N r)) p = true;
  no_value : number_in (Z.of_N r) p = Z.of_N n;
  no_leading_zero : (∃ a, p = [a]) ∨ head p ≠ Some (chr 48);
  no_some : p ≠ [];
}.

Lemma digit_char_zero r d : (d < r)%N → (r ≤ 16)%N → digit_char d = chr 48 → d = 0%N.
Proof. intros ?? E. pose proof (digit_char_spec r d) as Hd. rewrite E in Hd. specialize (Hd ltac:(done) ltac:(done)).
  assert (digit_value (chr 48) = Some 0) as E' by done. rewrite E' in Hd. injection Hd as Hd. lia.
Qed.

Lemma numeral_spec fuel r n acc :
  (2 ≤ r ≤ 16)%N → (n < r ^ N.of_nat fuel)%N → (0 < fuel)%nat →
  ∃ p, numeral fuel r n acc = p ++ acc ∧ numeral_of r n p ∧ (length p ≤ fuel)%nat ∧ (n ≠ 0%N → head p ≠ Some (chr 48)).
Proof.
  intros Hr. revert n acc. induction fuel as [|fuel IH]; intros n acc Hn Hf; [lia|]. cbn [numeral].
  destruct (N.ltb_spec n r) as [Hlt|Hge].
  - pose proof (digit_char_spec r n Hlt ltac:(lia)) as Hd. exists [digit_char n]. split_and!; [done| |cbn; lia|].
    + constructor; [| |by left; eexists|done].
      * cbn. unfold in_radix. rewrite Hd, andb_true_r. apply Z.ltb_lt. lia.
      * cbn. rewrite Hd. cbn. lia.
    + intros Hz [= E]. by apply (digit_char_zero r) in E; [| |lia].
  - assert (r ^ N.of_nat (S fuel) = r * r ^ N.of_nat fuel)%N as Hp by (rewrite Nat2N.inj_succ, N.pow_succ_r'; lia).
    assert (0 < fuel)%nat. { destruct fuel; [|lia]. rewrite Hp in Hn. cbn in Hn. lia. }
    assert (n / r < r ^ N.of_nat fuel)%N as Hq by (apply N.Div0.div_lt_upper_bound; lia).
    pose proof (N.mod_lt n r ltac:(lia)) as Hm. pose proof (digit_char_spec r (n mod r) Hm ltac:(lia)) as Hd.
    destruct (IH (n / r)%N (digit_char (n mod r) :: acc) Hq ltac:(done)) as (p & -> & [Hpd Hpv Hpz Hpn] & Hl & Hz).
    assert (n / r ≠ 0)%N as Hnz by (rewrite N.div_small_iff; lia). specialize (Hz Hnz).
    exists (p ++ [digit_char (n mod r)]). rewrite <- app_assoc. split_and!; [done| |rewrite length_app; cbn; lia|].
    + constructor.
      * rewrite forallb_app, Hpd. cbn. unfold in_radix. rewrite Hd, andb_true_r. apply Z.ltb_lt. lia.
      * rewrite number_in_snoc, Hpv, Hd. change (default 0 (Some ?x)) with x.
        rewrite <- N2Z.inj_mul, <- N2Z.inj_add. f_equal.
        pose proof (N.div_mod n r ltac:(lia)). lia.
      * right. by destruct p.
      * by destruct p.
    + intros _. by destruct p.
Qed.

Lemma in_radix_part r a : in_radix r a = true → a ≠ dot ∧ a ≠ chr 120 ∧ a ≠ chr 88.
Proof.
  assert (∀ a, bool_decide (is_Some (digit_value a)) = true → a ≠ dot ∧ a ≠ chr 120 ∧ a ≠ chr 88) as Ha.
  { intros b. destruct (bool_decide (b = dot ∨ b = chr 120 ∨ b = chr 88)) eqn:E.
    - apply bool_decide_eq_true in E as [->|[->| ->]]; intros Hx; vm_compute in Hx; done.
    - apply bool_decide_eq_false in E. intros _. tauto. }
  unfold in_radix. intros Hr. apply Ha. destruct (digit_value a); [by apply bool_decide_eq_true; eauto|done].
Qed.

(** A spelled part: what it is read as, and that it has no dot. *)
Lemma spell_part_read b n :
  (n < 2 ^ 32)%N → _ipv4_number (spell_part b n) = Ok (Some (Z.of_N n)) ∧ dot ∉ spell_part b n ∧ spell_part b n ≠ [].
Proof.
  intros Hn. assert (2 ≤ radix_value b ≤ 16)%N as Hr by (destruct b; cbn; lia).
  assert (n < radix_value b ^ N.of_nat 32)%N as Hb.
  { eapply N.lt_le_trans; [exact Hn|]. apply N.pow_le_mono_l. lia. }
  destruct (numeral_spec 32 (radix_value b) n [] Hr Hb ltac:(lia)) as (p & Hp & [Hd Hv Hz Hne] & Hl & _).
  unfold spell_part. rewrite Hp, app_nil_r.
  assert (∀ a, a ∈ p → a ≠ dot ∧ a ≠ chr 120 ∧ a ≠ chr 88) as Hch.
  { intros a Ha. apply (in_radix_part (Z.of_N (radix_value b))). by apply (proj1 (forallb_forall _ _) Hd), list_elem_of_In. }
  assert (radix_of (radix_prefix b ++ p) = (Z.of_N (radix_value b), p)) as Hro.
  { destruct p as [|c p]; [done|]. destruct b; cbn [radix_prefix app radix_of].
    - destruct p as [|d p]; [done|]. destruct Hz as [[? [=]]|Hz]. by rewrite bool_decide_false by (intros ->; done).
    - rewrite bool_decide_true by done. destruct (Hch c) as (_ & Hx & HX); [by left|].
      by rewrite !bool_decide_false by done.
    - by rewrite !bool_decide_true by done. }
  split_and!.
  - unfold _ipv4_number. destruct (radix_prefix b ++ p) eqn:E; [by destruct b, p|]. rewrite <- E in *. rewrite Hro.
    destruct p as [|c p]; [done|]. rewrite Hd. unfold int.
    destruct ((_ =? 10) && _) eqn:Hlim; [|cbn [rbind]; by rewrite Hv].
    apply andb_true_iff in Hlim as [_ Hlim%Nat.ltb_lt]. unfold max_str_digits in Hlim.
    assert (32 < 4300)%nat by (apply Nat.ltb_lt; by vm_compute). lia.
  - intros [Hi|Hi]%elem_of_app; [|by destruct (Hch _ Hi)]. revert Hi. destruct b; apply (bool_decide_unpack _); by vm_compute.
  - by destruct b, p.
Qed.

(** Splitting a spelled host gives its parts. *)
Lemma split_dotless p : dot ∉ p → split_on dot p = [p].
Proof.
  induction p as [|a p IH]; [done|]. rewrite not_elem_of_cons. intros [Ha Hp]. cbn.
  by rewrite bool_decide_false, IH by done.
Qed.
Lemma split_join p q : dot ∉ p → split_on dot (p ++ dot :: q) = p :: split_on dot q.
Proof.
  induction p as [|a p IH]; [done|]. rewrite not_elem_of_cons. intros [Ha Hp]. cbn.
  by rewrite bool_decide_false, IH by done.
Qed.
Lemma split_joined p l r : Forall (λ p, dot ∉ p) (p :: l) → split_on dot (join_dots (p :: l) ++ r) =
  match r with [] => p :: l | _ => split_on dot (join_dots (p :: l) ++ r) end.
Proof.
  intros Hl. destruct r; [|done]. rewrite app_nil_r. revert p Hl. induction l as [|q l IH]; intros p [Hp Hl]%Forall_cons; cbn.
  - by rewrite app_nil_r, split_dotless.
  - rewrite split_join by done. f_equal. by apply IH.
Qed.
Lemma split_trailing p l : Forall (λ p, dot ∉ p) (p :: l) → split_on dot (join_dots (p :: l) ++ [dot]) = p :: l ++ [[]].
Proof.
  revert p. induction l as [|q l IH]; intros p [Hp Hl]%Forall_cons; cbn.
  - by rewrite app_nil_r, split_join.
  - rewrite <- app_assoc. cbn. rewrite split_join by done. f_equal. by apply IH.
Qed.

Lemma joined_parts l d : l ≠ [] → Forall (λ p, dot ∉ p ∧ p ≠ []) l → _host_parts (join_dots l ++ (if d : bool then [dot] else [])) = l.
Proof.
  intros Hne Hl. destruct l as [|p l]; [done|].
  assert (Forall (λ p, dot ∉ p) (p :: l)) as Hd by (eapply Forall_impl; [exact Hl|by intros ? []]).
  unfold _host_parts. destruct d.
  - rewrite split_trailing by done. change (p :: l ++ [[]]) with ((p :: l) ++ [[]]).
    rewrite last_snoc, removelast_last, bool_decide_true, length_app by done. cbn. by destruct (_ + 1)%nat eqn:?; [lia|].
  - rewrite split_joined by done. destruct (bool_decide _) eqn:E; [|done].
    apply bool_decide_eq_true, last_Some in E as [l' E]. rewrite E in Hl.
    apply Forall_app in Hl as [_ [[_ Hb] _]%Forall_cons]. done.
Qed.

Fixpoint spell_values (bases : list radix_name) (left : N) (n : N) : list Z :=
  match bases with
  | [] => []
  | [_] => [Z.of_N n]
  | _ :: bases => Z.of_N (n / 256 ^ left) :: spell_values bases (left - 1) (n mod 256 ^ left)
  end.

Lemma spelled_parts bases left n :
  (n < 2 ^ 32)%N → Forall2 (λ p v, _ipv4_number p = Ok (Some v) ∧ dot ∉ p ∧ p ≠ []) (spell_parts bases left n) (spell_values bases left n).
Proof.
  revert left n. induction bases as [|b [|b' bases] IH]; intros left n Hn; [constructor| |].
  - constructor; [by apply spell_part_read|constructor].
  - change (Forall2 (λ p v, _ipv4_number p = Ok (Some v) ∧ dot ∉ p ∧ p ≠ [])
      (spell_part b (n / 256 ^ left) :: spell_parts (b' :: bases) (left - 1) (n mod 256 ^ left))
      (Z.of_N (n / 256 ^ left) :: spell_values (b' :: bases) (left - 1) (n mod 256 ^ left))).
    constructor.
    + apply spell_part_read. pose proof (N.Div0.div_le_mono). eapply N.le_lt_trans; [|exact Hn]. apply N.Div0.div_le_upper_bound. nia.
    + apply IH. eapply N.le_lt_trans; [|exact Hn]. by apply N.Div0.mod_le.
Qed.

Lemma pow_256 k : 256 ^ Z.of_N k = Z.of_N (256 ^ k).
Proof. by rewrite N2Z.inj_pow. Qed.

Lemma spelled_values bases left n :
  (n < 256 ^ (left + 1))%N → bases ≠ [] → (N.of_nat (length bases) ≤ left + 1)%N → (left ≤ 3)%N →
  let l := spell_values bases left n in
  length l = length bases ∧ Forall (λ v, v ≤ 255) (removelast l) ∧
  default 0 (last l) < 256 ^ (Z.of_N left + 2 - Z.of_nat (length bases)) ∧
  default 0 (last l) + place_values (3 - Z.of_N left) (removelast l) = Z.of_N n.
Proof.
  revert left n. induction bases as [|b [|b' bases] IH]; intros left n Hn Hne Hl Hm; [done| |].
  - cbn zeta. split_and!; [done|constructor| |apply Z.add_0_r].
    change (default 0 (last (spell_values [b] left n))) with (Z.of_N n).
    replace (Z.of_N left + 2 - Z.of_nat (length [b])) with (Z.of_N (left + 1)) by (cbn [length]; lia).
    rewrite pow_256. by apply N2Z.inj_lt.
  - cbn zeta. change (spell_values (b :: b' :: bases) left n) with
      (Z.of_N (n / 256 ^ left) :: spell_values (b' :: bases) (left - 1) (n mod 256 ^ left)).
    cbn [length] in Hl. assert (0 < 256 ^ left)%N as Hpow by (apply N.neq_0_lt_0, N.pow_nonzero; lia).
    destruct (IH (left - 1)%N (n mod 256 ^ left)%N) as (Hlen & Hs & Hlast & Hsum); [|done|cbn [length]; lia|lia|].
    { replace (left - 1 + 1)%N with left by lia. apply N.mod_lt. lia. }
    cbn zeta in *. destruct (spell_values (b' :: bases) (left - 1) (n mod 256 ^ left)) as [|v l] eqn:E; [done|].
    assert (n / 256 ^ left < 256)%N as Hq.
    { apply N.Div0.div_lt_upper_bound. rewrite N.add_1_r, N.pow_succ_r' in Hn. lia. }
    change (removelast (Z.of_N (n / 256 ^ left) :: v :: l)) with (Z.of_N (n / 256 ^ left) :: removelast (v :: l)).
    change (last (Z.of_N (n / 256 ^ left) :: v :: l)) with (last (v :: l)). split_and!.
    + cbn [length] in *. lia.
    + constructor; [lia|done].
    + replace (Z.of_N left + 2 - Z.of_nat (length (b :: b' :: bases))) with
        (Z.of_N (left - 1) + 2 - Z.of_nat (length (b' :: bases))) by (cbn [length]; lia). done.
    + cbn [place_values]. replace (3 - Z.of_N left + 1) with (3 - Z.of_N (left - 1)) by lia.
      replace (3 - (3 - Z.of_N left)) with (Z.of_N left) by lia.
      pose proof (N.div_mod n (256 ^ left) ltac:(lia)) as Hdm.
      assert (Z.of_N n = Z.of_N (n / 256 ^ left) * 256 ^ Z.of_N left + Z.of_N (n mod 256 ^ left)); [|lia].
      rewrite pow_256, <- N2Z.inj_mul, <- N2Z.inj_add. f_equal. lia.
Qed.

Lemma spelling_read n bases d :
  (n < 2 ^ 32)%N → bases ≠ [] → (length bases ≤ 4)%nat → _legacy_ipv4_address (spelling bases n d) = Ok (Some (ipv4 n)).
Proof.
  intros Hn Hb Hl. pose proof (spelled_parts bases 3 n Hn) as Hp.
  destruct (spelled_values bases 3 n) as (Hlen & Hs & Hlast & Hsum); [done|done|lia|lia|]. cbn zeta in *.
  unfold _legacy_ipv4_address, spelling. set (host := join_dots (spell_parts bases 3 n) ++ _).
  assert (_host_parts host = spell_parts bases 3 n) as Hparts.
  { apply joined_parts; [|clear -Hp; induction Hp as [|p v ps vs (_ & ? & ?)]; by constructor].
    intros E. rewrite E in Hp. apply Forall2_length in Hp. rewrite Hlen in Hp. by destruct bases. }
  destruct host as [|c host'] eqn:Ehost.
  { rewrite <- Hparts in Hp. cbn in Hp. inversion Hp as [|? ? ? ? (_ & _ & ?)]. done. }
  rewrite <- Ehost in *. clear c host' Ehost.
  assert (rmap _ipv4_number (spell_parts bases 3 n) = Ok (map Some (spell_values bases 3 n))) as Hr.
  { clear -Hp. induction Hp as [|p v ps vs (Hv & _) Hps IH]; [done|]. cbn. by rewrite Hv, IH. }
  assert (_ends_in_a_number host = Ok true) as Hend.
  { unfold _ends_in_a_number. rewrite Hparts. destruct (last (spell_parts bases 3 n)) as [p|] eqn:El.
    - apply last_Some in El as [l El]. rewrite El in Hp. apply Forall2_app_inv_l in Hp as (? & ? & _ & Hp & _).
      inversion Hp as [|? ? ? ? (Hv & _ & Hne)]; subst. change (default [] (Some p)) with p.
      destruct p as [|a p]; [done|]. rewrite Hv. by destruct (forallb _ _).
    - apply last_None in El. rewrite El in Hp. apply Forall2_length in Hp. rewrite Hlen in Hp. by destruct bases. }
  rewrite Hend. cbn [rbind negb]. rewrite Hparts, Hr, (Forall2_length _ _ _ Hp), Hlen.
  destruct (Nat.ltb_spec 4 (length bases)); [lia|]. cbn [rbind].
  assert (∀ l : list Z, existsb (λ n, bool_decide (n = None)) (map Some l) = false ∧ omap id (map Some l) = l) as Hmap.
  { induction l as [|v l [IH1 IH2]]; [done|]. cbn. rewrite IH1. split; [done|by f_equal]. }
  destruct (Hmap (spell_values bases 3 n)) as [-> ->]. cbn zeta.
  assert (existsb (λ v, 255 <? v) (removelast (spell_values bases 3 n)) = false) as ->.
  { apply existsb_elem_false. intros v Hv. apply Z.ltb_ge. by apply (proj1 (Forall_forall _ _) Hs). }
  rewrite Hlen. replace (Z.of_N 3 + 2) with 5 in Hlast by done. destruct (Z.leb_spec (256 ^ (5 - Z.of_nat (length bases)))
    (default 0 (last (spell_values bases 3 n)))); [lia|]. cbn [orb].
  change (3 - Z.of_N 3) with 0 in Hsum. by rewrite Hsum, N2Z.id.
Qed.

(** ** What a reading fails with *)

(** A decimal number that [int] refuses. *)
Definition long_number (p : text) : Prop := (max_str_digits < length p)%nat ∧ forallb (in_radix 10) p = true.
Definition long_part (host : text) : Prop := ∃ p, p ∈ split_on dot host ∧ long_number p.
Definition plain_error (e : url_error) : Prop := ∃ reason, e = ValueError reason.

Lemma number_raises p e : _ipv4_number p = Raise e → plain_error e ∧ long_number p.
Proof.
  unfold _ipv4_number. destruct p as [|a p]; [done|]. destruct (radix_of (a :: p)) as [radix l] eqn:Hr.
  destruct l as [|b l]; [done|]. destruct (forallb _ (b :: l)) eqn:Hd; [|done]. unfold int.
  destruct ((radix =? 10) && _) eqn:Hi; [|done]. cbn [rbind]. intros [= <-].
  apply andb_true_iff in Hi as [->%Z.eqb_eq Hi%Nat.ltb_lt]. split; [by eexists|].
  assert (b :: l = a :: p) as E; [|rewrite E in *; by split].
  revert Hr. unfold radix_of. destruct p as [|c p]; [by intros [= <- <-]|]. case_bool_decide; [|by intros [= <- <-]].
  by destruct (_ || _).
Qed.
Lemma rmap_raises {A B} (f : A → result B) l e : rmap f l = Raise e → ∃ a, a ∈ l ∧ f a = Raise e.
Proof.
  induction l as [|a l IH]; cbn; [done|]. destruct (f a) as [b|e'] eqn:E; cbn [rbind].
  - destruct (rmap f l); [done|]. intros [= ->]. destruct IH as (a' & ? & ?); [done|]. exists a'. split; [by right|done].
  - intros [= ->]. exists a. split; [by left|done].
Qed.
Lemma parts_split host p : p ∈ _host_parts host → p ∈ split_on dot host.
Proof.
  unfold _host_parts. destruct (_ && _) eqn:Hd; [|done].
  apply andb_true_iff in Hd as [Hl%bool_decide_eq_true _]. apply last_Some in Hl as [l ->].
  rewrite removelast_last, elem_of_app. by left.
Qed.
Lemma ends_raises host e : _ends_in_a_number host = Raise e → plain_error e ∧ long_part host.
Proof.
  unfold _ends_in_a_number. destruct (last (_host_parts host)) as [p|] eqn:El; [|done].
  change (default [] (Some p)) with p. assert (p ∈ split_on dot host) as Hp.
  { apply parts_split. apply last_Some in El as [l ->]. rewrite elem_of_app. right. by left. }
  intros Hr. assert (_ipv4_number p = Raise e) as Hn; [|by apply number_raises in Hn as [??]; split; [|exists p]].
  destruct p; [done|]. destruct (forallb _ _); [done|]. destruct (_ipv4_number _); [done|cbn in Hr; congruence].
Qed.
Lemma legacy_raises host e : _legacy_ipv4_address host = Raise e → plain_error e ∧ long_part host.
Proof.
  unfold _legacy_ipv4_address. destruct host as [|c host]; [done|]. set (h := c :: host).
  intros [Hr|(b & Hb & Hr)]%rbind_raise; [by apply ends_raises|]. destruct b; [|done]. cbn [negb] in Hr.
  destruct (_ <? _)%nat; [done|]. apply rbind_raise in Hr as [Hr|(l & _ & Hr)].
  - apply rmap_raises in Hr as (p & Hp%parts_split & Hn%number_raises). destruct Hn. by split; [|exists p].
  - destruct (existsb _ l); [done|]. by destruct (_ || _).
Qed.

Lemma split_app a b : split_on dot (a ++ dot :: b) = split_on dot a ++ split_on dot b.
Proof.
  induction a as [|c a IH]; [done|]. cbn. case_bool_decide; [by rewrite IH|]. rewrite IH.
  pose proof (split_length dot a). by destruct (split_on dot a); [cbn in *; lia|].
Qed.
Lemma rstrip_dots_form t : ∃ k, t = rstrip_dots t ++ replicate k dot.
Proof.
  unfold rstrip_dots. assert (∀ l, ∃ k, l = replicate k dot ++ drop_dots l) as Hd.
  { induction l as [|a l [k IH]]; [by exists 0%nat|]. cbn. case_bool_decide as Ha; [|by exists 0%nat].
    exists (Datatypes.S k). cbn. by rewrite Ha, <- IH. }
  destruct (Hd (rev t)) as [k Hk]. exists k. apply (f_equal (@rev _)) in Hk. rewrite rev_involutive, rev_app_distr in Hk.
  rewrite Hk at 1. f_equal. clear. induction k as [|k IH]; [done|]. cbn [replicate rev]. rewrite IH.
  change [dot] with (replicate 1 dot). rewrite <- replicate_add, Nat.add_1_r. done.
Qed.
Lemma rstrip_parts t p : p ∈ split_on dot (rstrip_dots t) → p ∈ split_on dot t.
Proof.
  destruct (rstrip_dots_form t) as [k Hk]. intros Hp. rewrite Hk. destruct k; [by rewrite app_nil_r|].
  cbn [replicate]. rewrite split_app, elem_of_app. by left.
Qed.

(** ** A name's canonical form *)

Section guard.
Context `{NetLib}.

Lemma idna_ascii host c : isascii host = true → _idna2003_hostname host = Ok c → c = lowered (rstrip_dots host).
Proof.
  unfold _idna2003_hostname. intros Ha. destruct (_ <? _)%nat; [done|]. destruct (encode_idna host) as [name|] eqn:E; [|done].
  intros [= <-]. apply encode_idna_ascii in E as ->; [|done]. apply rstrip_dots_lowered.
Qed.

(** What the lexical checks say of the literal that is connected to. *)
Lemma checked_literal schemes url x host parsed c a :
  public_dns_hostname schemes url = Ok x → checked_host schemes url = Ok (host, parsed) →
  _idna2003_hostname host = Ok c → ip_literal c = Ok (Some a) → ip_is_blocked a = false.
Proof.
  intros Hp Hh Hc Hl. unfold public_dns_hostname in Hp. rewrite Hh in Hp. cbn [rbind fst] in Hp.
  assert (chr 37 ∉ rstrip_dots host) as Hpc.
  { intros Hin%rstrip_dots_elem. unfold checked_host in Hh.
    repeat (apply rbind_ok in Hh as ([] & _ & Hh)). destruct (urlparse url) as [p|]; [|done].
    apply rbind_ok in Hh as ([] & _ & Hh). destruct (hostname lower_text p) as [h|]; [|done].
    apply rbind_ok in Hh as ([] & _ & Hh). apply rbind_ok in Hh as ([] & Hr & Hh).
    apply rbind_ok in Hh as ([] & _ & [= <- <-]). apply require_ok, negb_true_iff in Hr.
    assert (existsb (λ a, bool_decide (a = chr 37)) h = true) as Ht; [|congruence].
    apply existsb_exists. exists (chr 37). rewrite <- list_elem_of_In. by rewrite bool_decide_true. }
  destruct (ip_address (rstrip_dots host)) as [lit|] eqn:Ei.
  - (* the host is an address *)
    pose proof (ip_address_ascii _ _ Ei Hpc) as Ha. pose proof Ha as Hah. rewrite rstrip_dots_ascii in Hah.
    rewrite (idna_ascii host c Hah Hc) in Hl. unfold ip_literal in Hl.
    rewrite ip_address_lower, Ei in Hl by done. injection Hl as <-.
    apply rbind_ok in Hp as ([] & Hr & _). by apply require_ok, negb_true_iff in Hr.
  - apply rbind_ok in Hp as (legacy & Hleg & Hp). destruct legacy as [lit|].
    + (* the host is a legacy spelling *)
      pose proof (legacy_ascii _ _ Hleg) as Ha. pose proof Ha as Hah. rewrite rstrip_dots_ascii in Hah.
      rewrite (idna_ascii host c Hah Hc) in Hl. unfold ip_literal in Hl.
      rewrite ip_address_lower, Ei, legacy_lowered, Hleg in Hl by done. injection Hl as <-.
      apply rbind_ok in Hp as ([] & Hr & _). by apply require_ok, negb_true_iff in Hr.
    + rewrite Hc in Hp. cbn [rbind] in Hp. apply rbind_ok in Hp as ([] & _ & Hp).
      rewrite Hl in Hp. cbn [rbind] in Hp. apply rbind_ok in Hp as ([] & Hr & _).
      by apply require_ok, negb_true_iff in Hr.
Qed.

Lemma addresses_public infos seen l : public_addresses infos seen = Ok l → Forall (λ a, ip_is_blocked a = false) l.
Proof.
  revert seen l. induction infos as [|t infos IH]; intros seen l; cbn; [by intros [= <-]|].
  destruct (ip_address t) as [a|]; [|apply IH]. case_bool_decide; [apply IH|].
  intros (? & Hr & (l' & Hl & [= <-])%rbind_ok)%rbind_ok. constructor; [|by eapply IH].
  unfold refuse_resolved in Hr. destruct (ip_is_blocked a); [done|done].
Qed.

(** Every readable address of the answer was judged. *)
Lemma addresses_all infos seen l t a :
  public_addresses infos seen = Ok l → t ∈ infos → ip_address t = Some a →
  show_ip a ∈ seen ∨ ∃ b, b ∈ l ∧ show_ip b = show_ip a.
Proof.
  revert seen l. induction infos as [|t' infos IH]; intros seen l; [by intros _ ?%elem_of_nil|].
  cbn. intros Hl Hin Ha. destruct (ip_address t') as [a'|] eqn:Ea'.
  - case_bool_decide as Hs.
    + apply elem_of_cons in Hin as [->|Hin]; [|by eapply IH]. rewrite Ha in Ea'. injection Ea' as ->. by left.
    + apply rbind_ok in Hl as (? & _ & (l' & Hl & [= <-])%rbind_ok).
      apply elem_of_cons in Hin as [->|Hin].
      * rewrite Ha in Ea'. injection Ea' as ->. right. exists a'. split; [by left|done].
      * destruct (IH _ _ Hl Hin Ha) as [[->|Hseen]%elem_of_cons|(b & Hb & Hs')]; [|by left|].
        -- right. exists a'. by split; [left|].
        -- right. exists b. by split; [right|].
  - apply elem_of_cons in Hin as [->|Hin]; [congruence|by eapply IH].
Qed.

(** What the guard raises. *)
Definition unsafe_error (e : url_error) : Prop := ∃ reason, e = UnsafeURLError reason.
Lemma require_raises b s e : require b s = Raise e → unsafe_error e.
Proof. destruct b; [done|]. intros [= <-]. by eexists. Qed.

Lemma checked_raises schemes url e : checked_host schemes url = Raise e → unsafe_error e.
Proof.
  unfold checked_host. intros Hr.
  repeat (apply rbind_raise in Hr as [Hr%require_raises|(? & _ & Hr)]; [done|]).
  destruct (urlparse url) as [p|]; [|injection Hr as <-; by eexists].
  apply rbind_raise in Hr as [Hr%require_raises|(? & _ & Hr)]; [done|].
  destruct (hostname lower_text p) as [h|]; [|injection Hr as <-; by eexists].
  by repeat (apply rbind_raise in Hr as [Hr%require_raises|(? & _ & Hr)]; [done|]).
Qed.
Lemma idna_raises host e : _idna2003_hostname host = Raise e → unsafe_error e.
Proof. unfold _idna2003_hostname. destruct (_ <? _)%nat; [|destruct (encode_idna host); [done|]]; intros [= <-]; by eexists. Qed.
Lemma one_reading_raises host c e : _require_one_reading host c = Raise e → unsafe_error e.
Proof. unfold _require_one_reading. destruct (isascii host); apply require_raises. Qed.

Lemma lowered_length t : length (lowered t) = length t.
Proof. apply length_map. Qed.
Lemma idna_short host c : _idna2003_hostname host = Ok c → ¬ long_part c.
Proof.
  unfold _idna2003_hostname. destruct (_ <? _)%nat; [done|]. destruct (encode_idna host) as [n|] eqn:E; [|done].
  intros [= <-] (p & Hp%rstrip_parts & Hl & _). rewrite split_lowered in Hp.
  apply list_elem_of_In, in_map_iff in Hp as (q & <- & Hq%list_elem_of_In).
  pose proof (encode_idna_labels _ _ _ E Hq) as Hs. rewrite lowered_length in Hl.
  assert (63 < max_str_digits)%nat by (apply Nat.ltb_lt; by vm_compute). lia.
Qed.

Lemma guard_raises schemes url e :
  public_dns_hostname schemes url = Raise e →
  unsafe_error e ∨ plain_error e ∧ ∃ host parsed, checked_host schemes url = Ok (host, parsed) ∧ long_part host.
Proof.
  unfold public_dns_hostname. intros [Hr%checked_raises|([host parsed] & Hh & Hr)]%rbind_raise; [by left|]. cbn [fst] in Hr.
  destruct (ip_address _); [apply rbind_raise in Hr as [Hr%require_raises|(? & _ & Hr)]; [by left|done]|].
  apply rbind_raise in Hr as [Hr|(l & _ & Hr)].
  { right. apply legacy_raises in Hr as [? (p & Hp%rstrip_parts & ?)]. split; [done|]. exists host, parsed. split; [done|by exists p]. }
  destruct l; [apply rbind_raise in Hr as [Hr%require_raises|(? & _ & Hr)]; [by left|done]|].
  apply rbind_raise in Hr as [Hr%idna_raises|(c & Hc & Hr)]; [by left|]. pose proof (idna_short _ _ Hc) as Hs.
  apply rbind_raise in Hr as [Hr%require_raises|(? & _ & Hr)]; [by left|].
  apply rbind_raise in Hr as [Hr|(l & _ & Hr)].
  { unfold ip_literal in Hr. destruct (ip_address c); [done|]. by apply legacy_raises in Hr as [_ ?]. }
  apply rbind_raise in Hr as [Hr|(? & _ & Hr)]; [destruct l; [left; by eapply require_raises|done]|].
  apply rbind_raise in Hr as [Hr|(? & _ & Hr)].
  { destruct l; [done|]. apply ends_raises in Hr as [_ (p & Hp%rstrip_parts & ?)]. destruct Hs. by exists p. }
  apply rbind_raise in Hr as [Hr%require_raises|(? & _ & Hr)]; [by left|].
  apply rbind_raise in Hr as [Hr%one_reading_raises|(? & _ & Hr)]; [by left|done].
Qed.

Lemma infos_raise infos seen e : check_infos infos seen = Raise e → unsafe_error e.
Proof.
  revert seen. induction infos as [|t infos IH]; intros seen; cbn; [done|]. case_bool_decide; [apply IH|].
  destruct (ip_address t); [|apply IH]. intros [Hr|(? & _ & Hr)]%rbind_raise; [by eapply require_raises|by eapply IH].
Qed.

Lemma checked_hostname schemes url host parsed :
  checked_host schemes url = Ok (host, parsed) → urlparse url = Some parsed ∧ hostname lower_text parsed = Some host.
Proof.
  unfold checked_host. intros Hh. repeat (apply rbind_ok in Hh as ([] & _ & Hh)).
  destruct (urlparse url) as [p|]; [|done]. apply rbind_ok in Hh as ([] & _ & Hh).
  destruct (hostname lower_text p) as [h|] eqn:Hn; [|done].
  repeat (apply rbind_ok in Hh as ([] & _ & Hh)). by injection Hh as <- <-.
Qed.

(** Where a connection may go. *)
Inductive destination (name : text) (p : option Z) (a : IPAddress) : Prop :=
| to_literal : ip_literal name = Ok (Some a) → destination name p a
| to_resolved infos t :
    ip_literal name = Ok None → getaddrinfo name p = Ok infos → t ∈ infos → ip_address t = Some a →
    (∀ t' b, t' ∈ infos → ip_address t' = Some b → ip_is_blocked b = false) → destination name p a.

Lemma first_address infos seen a l :
  public_addresses infos seen = Ok (a :: l) → ∃ t, t ∈ infos ∧ ip_address t = Some a.
Proof.
  revert seen. induction infos as [|t infos IH]; intros seen; cbn; [done|].
  destruct (ip_address t) as [b|] eqn:E.
  - case_bool_decide.
    + intros (t' & ? & ?)%IH. exists t'. split; [by right|done].
    + intros (? & _ & (l' & _ & [= <- _])%rbind_ok)%rbind_ok. exists t. split; [by left|done].
  - intros (t' & ? & ?)%IH. exists t'. split; [by right|done].
Qed.

Lemma connects_to name p a :
  connect_address name p = Ok a →
  destination name p a ∧ (ip_literal name = Ok None → ip_is_blocked a = false).
Proof.
  unfold connect_address. intros (literal & Hl & Hc)%rbind_ok. destruct literal as [b|].
  { injection Hc as ->. split; [by apply to_literal|]. by rewrite Hl. }
  destruct (getaddrinfo name p) as [infos|[]] eqn:Hi; [|done..].
  apply rbind_ok in Hc as (l & Hp & Hc). destruct l as [|b l]; [done|]. injection Hc as ->.
  pose proof (addresses_public _ _ _ Hp) as Hpub. split; [|intros _; by apply Forall_cons in Hpub as [? _]].
  destruct (first_address _ _ _ _ Hp) as (t & Ht & Ha). eapply to_resolved; try done.
  intros t' b Ht' Hb. destruct (addresses_all _ _ _ _ _ Hp Ht' Hb) as [?%elem_of_nil|(b' & Hb' & Hs)]; [done|].
  apply show_ip_inj in Hs as <-. by apply (proj1 (Forall_forall _ _) Hpub).
Qed.
End guard.

(** [C15] Direct requests cannot be led to a private address: if [resolve_public_url]
    accepts a URL, the URL it gives to connect to names one address, public by the policy,
    which is either the literal that the canonical host spells or one the resolver
    returned; in the second case every address in the resolver's answer is public. *)
Theorem resolved_url_is_public `{NetLib} url r :
  resolve_public_url url = Ok r →
  ∃ parsed p a, urlparse url = Some parsed ∧ port parsed = Ok p ∧ connect_url r = pinned_url parsed a p ∧
    destination (sni_hostname r) p a ∧ ip_is_blocked a = false.
Proof.
  unfold resolve_public_url. intros ([] & Ha & Hr)%rbind_ok.
  unfold assert_public_url in Ha. apply rbind_ok in Ha as (x & Hp & _).
  pose proof Hp as Hp'. unfold public_dns_hostname in Hp'. apply rbind_ok in Hp' as ([host parsed] & Hh & _).
  destruct (checked_hostname _ _ _ _ Hh) as [Hu Hn]. rewrite Hu, Hn in Hr.
  apply rbind_ok in Hr as (c & Hc & Hr). unfold canonical_hostname in Hc.
  apply rbind_ok in Hc as (c' & Hc & Hc'). apply rbind_ok in Hc' as ([] & _ & [= ->]).
  destruct (port parsed) as [p|] eqn:Hport; [|done]. apply rbind_ok in Hr as (a & Hca & [= <-]).
  destruct (connects_to _ _ _ Hca) as [Hd Hpub]. exists parsed, p, a. split_and!; try done.
  destruct Hd as [Hl|infos t Hl]; [|by apply Hpub]. by eapply checked_literal.
Qed.

(** Every spelling of an IPv4 address that a browser accepts is read as that address:
    one to four parts, each in decimal, octal (leading 0) or hexadecimal (leading 0x), in
    capital or small letters, with or without a trailing dot. *)
Theorem every_ipv4_spelling_is_read n bases trailing_dot host :
  (n < 2 ^ 32)%N → bases ≠ [] → (length bases ≤ 4)%nat → lowered host = spelling bases n trailing_dot →
  _legacy_ipv4_address host = Ok (Some {| ip_version := v4; ip := n |}).
Proof. intros Hn Hb Hl Hh. rewrite <- legacy_lowered, Hh. by apply spelling_read. Qed.

(** [C17] What the guard raises: a refusal ([UnsafeURLError]); a failed lookup, only if names
    are resolved and an unresolved one is not allowed; and a plain [ValueError] only for a
    host with a decimal number of more than 4300 digits, which [int] will not read. *)
Theorem guard_errors `{NetLib} schemes resolve allow url e :
  assert_public_url schemes resolve allow url = Raise e →
  match e with
  | UnsafeURLError _ => True
  | URLResolutionError _ =>
      resolve = true ∧ allow = false ∧
      ∃ name, public_dns_hostname schemes url = Ok (Some name) ∧ getaddrinfo name None = Raise gaierror
  | ValueError _ =>
      ∃ host parsed, urlparse url = Some parsed ∧ hostname lower_text parsed = Some host ∧ long_part host
  end.
Proof.
  unfold assert_public_url. intros [Hr|(name & Hn & Hr)]%rbind_raise.
  { apply guard_raises in Hr as [[r ->]|[[r ->] (host & parsed & Hh & Hl)]]; [done|].
    exists host, parsed. by apply checked_hostname in Hh as [? ?]. }
  destruct name as [name|]; [|done]. destruct resolve; [|done]. cbn [negb] in Hr.
  destruct (getaddrinfo name None) as [infos|[]] eqn:Hg.
  - by apply infos_raise in Hr as [r ->].
  - destruct allow; [done|]. injection Hr as <-. split_and!; [done..|by exists name].
  - by injection Hr as <-.
Qed.

(** ** A concrete library *)

Section sample.
Definition sample_show (a : IPAddress) : text := (match ip_version a with v4 => chr 52 | v6 => chr 54 end) :: digits (ip a).
Definition sample_ip_address (t : text) : option IPAddress :=
  match _legacy_ipv4_address t with Ok a => a | Raise _ => None end.
Definition sample_encode (t : text) : option text :=
  if isascii t && forallb (λ p, (length p <=? 63)%nat) (split_on dot t) then Some t else None.

(** Reads IPv4 only, and resolves every name to 8.8.8.8; a URL is [http://] and its location. *)
Program Definition sample_lib : NetLib := {|
  urlparse t :=
    match cut_prefix (txt "http://") t with
    | Some l => Some {| scheme := txt "http"; netloc := l; path := []; params := []; query := []; fragment := [] |}
    | None => None
    end;
  urlunparse p := scheme p ++ txt "://" ++ netloc p;
  lower_text := lowered;
  ip_address := sample_ip_address;
  show_ip := sample_show;
  encode_idna := sample_encode;
  idna_encode := sample_encode;
  getaddrinfo _ _ := Ok [txt "8.8.8.8"; txt "8.8.4.4"];
|}.
Next Obligation.
  intros [v a] [w b] E. unfold sample_show in E. cbn in E.
  assert (a = b) as ->.
  { assert (digits a = digits b) as Hd by exact (f_equal (@tail _) E). apply (f_equal decimal) in Hd. rewrite !decimal_digits in Hd. lia. }
  by destruct v, w.
Qed.
Next Obligation.
  intros t a. unfold sample_ip_address. destruct (_legacy_ipv4_address t) eqn:E; [|done]. intros ->. by eapply legacy_valid.
Qed.
Next Obligation.
  intros t a. unfold sample_ip_address. destruct (_legacy_ipv4_address t) eqn:E; [|done]. intros -> _. by eapply legacy_ascii.
Qed.
Next Obligation.
  intros t _. unfold sample_ip_address. by rewrite legacy_lowered.
Qed.
Next Obligation.
  intros t c _. unfold sample_encode. destruct (_ && _); congruence.
Qed.
Next Obligation.
  intros t c p. unfold sample_encode. destruct (_ && _) eqn:E; [|done]. intros [= <-] Hp.
  apply andb_true_iff in E as [_ E]. apply forallb_forall with (x := p) in E; [|by apply list_elem_of_In].
  by apply Nat.leb_le.
Qed.

Definition sample_url : text := txt "http://user@dns.test:8080".
Definition sample_resolved : ResolvedPublicURL :=
  {| connect_url := txt "http://user@4134744072:8080"; host_header := txt "dns.test:8080"; sni_hostname := txt "dns.test" |}.

Lemma resolved_url_is_public_witness :
  @resolve_public_url sample_lib sample_url = Ok sample_resolved ∧
  ∃ parsed p a, @urlparse sample_lib sample_url = Some parsed ∧ port parsed = Ok p ∧
    connect_url sample_resolved = @pinned_url sample_lib parsed a p ∧
    @destination sample_lib (sni_hostname sample_resolved) p a ∧ ip_is_blocked a = false.
Proof.
  assert (@resolve_public_url sample_lib sample_url = Ok sample_resolved) as E by (vm_compute; reflexivity).
  exact (conj E (@resolved_url_is_public sample_lib sample_url sample_resolved E)).
Defined.

(** 127.0.0.1 in capital hexadecimal and octal. *)
Lemma every_ipv4_spelling_is_read_witness :
  _legacy_ipv4_address (txt "0X7F.01.") = Ok (Some {| ip_version := v4; ip := 2130706433 |}).
Proof.
  apply (every_ipv4_spelling_is_read 2130706433 [hex_part; octal_part] true); [reflexivity|discriminate|cbn; lia|].
  vm_compute. reflexivity.
Defined.

(** A host that no reading refuses as unsafe: 4301 ones. *)
Definition long_host_url : text := txt "http://" ++ repeat (chr 49) 4301.
Lemma guard_errors_witness :
  ∃ host parsed, @urlparse sample_lib long_host_url = Some parsed ∧
    @hostname (@lower_text sample_lib) parsed = Some host ∧ long_part host.
Proof.
  assert (@assert_public_url sample_lib http_schemes true false long_host_url =
    Raise (ValueError "Exceeds the limit (4300 digits) for integer string conversion")) as E by (vm_compute; reflexivity).
  exact (@guard_errors sample_lib http_schemes true false long_host_url _ E).
Defined.
End sample.
