(* ===== verification/Transforms.v ===== *)
(** * Selector transforms ([config/transforms.py])

    The language of the pipelines that rewrite an extracted value: splitting, arguments,
    the transforms themselves, and the limits on values and on regular expressions. A
    string is a list of code points. The [regex] package, its parse trees and the case
    tables of Unicode are parameters ([RegexLib]); [csv] is modelled. *)

From S2P Require Import Prelude.
From S2P Require Import Text.
From S2P Require Import Unicode.
Open Scope Z_scope.

(** ** Errors *)

(** All but [IndexError] are [ValueError]s. *)
Inductive terror :=
| ValueError (reason : string)
| UnicodeEncodeError
| TransformTimeoutError
| TransformOutputLimitError (observed limit : Z)
| IndexError.
Definition value_error (e : terror) : Prop := e ≠ IndexError.

Abbreviation tresult := (outcome terror).
Definition tbind {A B} (m : tresult A) (k : A → tresult B) : tresult B :=
  match m with Ok a => k a | Raise e => Raise e end.
Notation "'let^' x := m 'in' k" := (tbind m (λ x, k))
  (at level 10, x name, m at level 200, k at level 200) : scrape_scope.
Notation "'do^' m 'in' k" := (tbind m (λ _, k))
  (at level 10, m at level 200, k at level 200) : scrape_scope.

(** The length of the UTF-8 encoding; surrogates have none. *)
Definition char_size (c : Z) : Z :=
  if c <? 128 then 1 else if c <? 2048 then 2 else if c <? 65536 then 3 else 4.
Definition surrogate (c : Z) : bool := (55296 <=? c) && (c <=? 57343).
Definition size (s : ustr) : Z := foldr (λ c n, char_size c + n) 0 s.
Definition encoded_size (s : ustr) : tresult Z :=
  if existsb surrogate s then Raise UnicodeEncodeError else Ok (size s).

(** ** The [regex] package *)

(** A parsed node: its weight is one more for every character of [_EXPAND_ON_FOLDING] it
    matches, if it is a positive range or set under full case folding. *)
Inductive regex_node := Node {
  range_or_set : bool;
  set_base : bool;
  is_positive : bool;
  full_ignorecase : bool;
  folding_matches : nat;
  min_count : option Z;
  children : list regex_node;
}.
Inductive regex_parse := Parsed (n : regex_node) | RegexError | RecursionError.
(** A match: what it covers, and its groups. *)
Record rmatch := { m_start : nat; m_end : nat; m_groups : list (option ustr); m_id : Z }.

Class RegexLib := {
  pattern : Type;
  _parse_regex : ustr → regex_parse;
  compile : ustr → option pattern;
  groups : pattern → Z;
  (** [search] and [finditer]: [None] and the end of the list are a timeout, if any. *)
  search : pattern → ustr → option (option rmatch);
  finditer : pattern → ustr → list rmatch * bool;
  expand : pattern → rmatch → ustr → ustr;
  (** [_compile_replacement_helper]: literals and group numbers, or an error. *)
  _compile_replacement : pattern → ustr → option (list (ustr + Z));
  (** The letters and digits of Unicode beyond ASCII, and the case mappings. *)
  alnum : Z → bool;
  str_lower : ustr → ustr;
  str_upper : ustr → ustr;
  (** Compiling stops at an error of the parser. *)
  compile_parses p c : compile p = Some c → ∃ t, _parse_regex p = Parsed t;
}.

Record Settings := {
  transform_max_pipeline_steps : Z;
  transform_max_value_bytes : Z;
  transform_regex_max_pattern_bytes : Z;
}.

Section transforms.
Context `{RegexLib} (settings : Settings).

(** ** Splitting a pipeline *)

(** [\w] *)
Definition word_char (c : Z) : bool :=
  ((48 <=? c) && (c <=? 57)) || ((65 <=? c) && (c <=? 90)) || (c =? 95) || ((97 <=? c) && (c <=? 122)) ||
  ((128 <=? c) && alnum c).

Fixpoint span (p : Z → bool) (s : ustr) : ustr * ustr :=
  match s with
  | c :: s' => if p c then let '(a, b) := span p s' in (c :: a, b) else ([], s)
  | [] => ([], [])
  end.

Inductive prefix_kind := extract_colon | regex_colon | call.
(** [_PIPELINE_PREFIX_RE] at the start of a step: its kind and its length. *)
Definition pipeline_prefix (s : ustr) : option (prefix_kind * nat) :=
  let '(spaces, s1) := span isspace s in
  match cut (u "extract:") s1 with
  | Some _ => Some (extract_colon, (length spaces + 8)%nat)
  | None =>
      match cut (u "regex:") s1 with
      | Some _ => Some (regex_colon, (length spaces + 6)%nat)
      | None =>
          let '(name, s2) := span word_char s1 in
          let '(gap, s3) := span isspace s2 in
          match name, s3 with
          | _ :: _, 40 :: _ => Some (call, (length spaces + length name + length gap + 1)%nat)
          | _, _ => None
          end
      end
  end.

(** [s.find], of a colon from an index on. *)
Fixpoint find_colon (s : ustr) (from : nat) : option nat :=
  match s, from with
  | _ :: s, S from => option_map S (find_colon s from)
  | c :: s, O => if c =? 58 then Some O else option_map S (find_colon s O)
  | [], _ => None
  end.

(** [prefix_end] and [pattern_end], from the start of the step; -1 for none. *)
Definition step_prefix (s : ustr) : Z * Z :=
  match pipeline_prefix s with
  | None => (-1, -1)
  | Some (k, n) =>
      (Z.of_nat n,
       match k with
       | extract_colon => Z.of_nat (length s)
       | regex_colon => match find_colon s n with Some i => Z.of_nat i | None => Z.of_nat (length s) end
       | call => -1
       end)
  end.

Record splitter := {
  steps : list ustr;
  (** [raw[start:index]] *)
  current : ustr;
  prefix_end : Z;
  pattern_end : Z;
  quote_open : bool;
  parentheses : Z;
  character_class : bool;
}.
Definition index (s : splitter) : Z := Z.of_nat (length (current s)).
(** [index += len(l)] over the characters [l]. *)
Definition advance (l : ustr) (s : splitter) : splitter :=
  {| steps := steps s; current := current s ++ l; prefix_end := prefix_end s; pattern_end := pattern_end s;
     quote_open := quote_open s; parentheses := parentheses s; character_class := character_class s |}.
Definition set_quote (b : bool) (s : splitter) : splitter :=
  {| steps := steps s; current := current s; prefix_end := prefix_end s; pattern_end := pattern_end s;
     quote_open := b; parentheses := parentheses s; character_class := character_class s |}.
Definition set_class (b : bool) (s : splitter) : splitter :=
  {| steps := steps s; current := current s; prefix_end := prefix_end s; pattern_end := pattern_end s;
     quote_open := quote_open s; parentheses := parentheses s; character_class := b |}.
Definition set_parentheses (n : Z) (s : splitter) : splitter :=
  {| steps := steps s; current := current s; prefix_end := prefix_end s; pattern_end := pattern_end s;
     quote_open := quote_open s; parentheses := n; character_class := character_class s |}.
Definition set_prefix (p : Z * Z) (s : splitter) : splitter :=
  {| steps := steps s; current := current s; prefix_end := p.1; pattern_end := p.2;
     quote_open := quote_open s; parentheses := parentheses s; character_class := character_class s |}.
Definition end_step (s : splitter) : splitter :=
  {| steps := steps s ++ [strip (current s)]; current := []; prefix_end := prefix_end s;
     pattern_end := pattern_end s; quote_open := quote_open s; parentheses := parentheses s;
     character_class := character_class s |}.

(** What an unquoted character does. *)
Definition plain_char (c : Z) (s : splitter) : splitter :=
  let colon_pattern := index s <=? pattern_end s in
  if (c =? 34) && negb (parentheses s =? 0) then advance [c] (set_quote true s)
  else if (c =? 91) && colon_pattern then advance [c] (set_class true s)
  else if (c =? 93) && character_class s then advance [c] (set_class false s)
  else if character_class s then advance [c] s
  else if c =? 40 then
    advance [c] (if negb (parentheses s =? 0) || colon_pattern || (index s + 1 =? prefix_end s)
                 then set_parentheses (parentheses s + 1) s else s)
  else if c =? 41 then advance [c] (if negb (parentheses s =? 0) then set_parentheses (parentheses s - 1) s else s)
  else if (c =? 124) && (parentheses s =? 0) then end_step s
  else advance [c] s.

(** [if index == start]: the step is classified, once. *)
Definition begin_step (raw : ustr) (s : splitter) : splitter :=
  match current s with [] => set_prefix (step_prefix raw) s | _ => s end.

(** The loop, over [raw[index:]]. *)
Fixpoint split_from (raw : ustr) (s : splitter) : splitter :=
  match raw with
  | [] => s
  | c :: rest =>
      let s := begin_step raw s in
      if quote_open s then
        if c =? 34 then
          match rest with
          | d :: rest' => if d =? 34 then split_from rest' (advance [c; d] s) else split_from rest (advance [c] (set_quote false s))
          | [] => split_from rest (advance [c] (set_quote false s))
          end
        else split_from rest (advance [c] s)
      else if c =? 92 then
        match rest with
        | d :: rest' => split_from rest' (advance [c; d] s)
        | [] => advance [c] s
        end
      else split_from rest (plain_char c s)
  end.

Definition split_start : splitter :=
  {| steps := []; current := []; prefix_end := -1; pattern_end := -1; quote_open := false; parentheses := 0;
     character_class := false |}.

Definition split_transform_pipeline (raw : ustr) : tresult (list ustr) :=
  let s := split_from raw split_start in
  if quote_open s then Raise (ValueError "Unbalanced quote in selector transform pipeline")
  else if negb (parentheses s =? 0) then Raise (ValueError "Unbalanced parentheses in selector transform pipeline")
  else if character_class s then Raise (ValueError "Unbalanced character class in selector transform pipeline")
  else Ok (steps s ++ [strip (current s)]).

(** ** The size of a value *)

Definition selector_value_limit : Z := transform_max_value_bytes settings.
Definition over_limit {A} (observed : Z) : tresult A := Raise (TransformOutputLimitError observed selector_value_limit).

Definition checked_selector_value_size (value : ustr) : tresult Z :=
  if selector_value_limit <? Z.of_nat (length value) then over_limit (Z.of_nat (length value))
  else
    let^ n := encoded_size value in
    if selector_value_limit <? n then over_limit n else Ok n.

Definition _bounded_concat (value addition : ustr) (prepend : bool) : tresult ustr :=
  let^ n := checked_selector_value_size value in
  let^ m := encoded_size addition in
  let predicted := n + m in
  if selector_value_limit <? predicted then over_limit predicted
  else Ok (if prepend then addition ++ value else value ++ addition).

Definition _bounded_literal_replace (value old new : ustr) : tresult ustr :=
  let^ current := checked_selector_value_size value in
  let occurrences := count old value in
  let^ n := encoded_size new in
  let^ o := encoded_size old in
  let predicted := current + occurrences * (n - o) in
  if selector_value_limit <? predicted then over_limit predicted
  else Ok (replace old new value).

(** [value[i:j]] *)
Definition slice (i j : nat) (value : ustr) : ustr := take (j - i) (drop i value).

Fixpoint replace_matches (p : pattern) (replacement value : ustr) (ms : list rmatch) (timed_out : bool)
    (output : ustr) (output_bytes : Z) (last_end : nat) : tresult ustr :=
  match ms with
  | m :: ms =>
      let unchanged := slice last_end (m_start m) value in
      let expanded := expand p m replacement in
      let^ n := encoded_size unchanged in
      let^ k := encoded_size expanded in
      let output_bytes := output_bytes + (n + k) in
      if selector_value_limit <? output_bytes then over_limit output_bytes
      else replace_matches p replacement value ms timed_out (output ++ unchanged ++ expanded) output_bytes (m_end m)
  | [] =>
      if timed_out then Raise TransformTimeoutError
      else
        let tail := drop last_end value in
        let^ n := encoded_size tail in
        let output_bytes := output_bytes + n in
        if selector_value_limit <? output_bytes then over_limit output_bytes else Ok (output ++ tail)
  end.
Definition _bounded_regex_replace (p : pattern) (replacement value : ustr) : tresult ustr :=
  do^ checked_selector_value_size value in
  let '(ms, timed_out) := finditer p value in
  replace_matches p replacement value ms timed_out [] 0 0.

(** ** Regular expressions *)

Definition _MAX_REGEX_EXPANSION : Z := 10000.
Definition _MAX_CONFIG_REGEX_EXPANSION : Z := 100000.

Definition _node_weight (n : regex_node) (in_set : bool) : Z :=
  if in_set || negb (range_or_set n) || negb (is_positive n) || negb (full_ignorecase n) then 1
  else 1 + Z.of_nat (folding_matches n).

Definition copies_of (n : regex_node) (copies : Z) : Z :=
  match min_count n with Some k => copies * Z.max 1 k | None => copies end.

(** The nodes of a parse tree, as fuel for the walk. *)
Fixpoint node_count (n : regex_node) : nat :=
  match n with Node _ _ _ _ _ _ l => S (list_sum (map node_count l)) end.

(** [pending], its last element first. *)
Fixpoint expansion_from (fuel : nat) (limit total : Z) (pending : list (regex_node * Z * bool)) : Z :=
  match fuel, pending with
  | S fuel, (n, copies, in_set) :: pending =>
      let total := total + copies * _node_weight n in_set in
      if limit <? total then total
      else
        let copies := copies_of n copies in
        let in_set := in_set || set_base n in
        expansion_from fuel limit total (rev (map (λ c, (c, copies, in_set)) (children n)) ++ pending)
  | _, _ => total
  end.
Definition _regex_expansion (tree : regex_node) (limit : Z) : Z :=
  expansion_from (node_count tree) limit 0 [(tree, 1, false)].

(** A parse runs under the budget of a configuration, if one is active. *)
Definition tprog (A : Type) : Type := prog (option Z) terror A.
Definition lift {A} (m : tresult A) : tprog A := λ budget, (m, budget).

Definition charge (expansion : Z) : tprog unit :=
  let! budget := pget in
  match budget with
  | None => pret tt
  | Some b =>
      do! pput (Some (b - expansion)) in
      if b - expansion <? 0 then praise (ValueError "Regex transform patterns repeat too much together") else pret tt
  end.

Definition _compile_regex (p : ustr) : tprog pattern :=
  let! n := lift (encoded_size p) in
  if transform_regex_max_pattern_bytes settings <? n then praise (ValueError "Regex transform pattern exceeds its size limit")
  else
    let! expansion := lift (match _parse_regex p with
                            | Parsed t => Ok (_regex_expansion t _MAX_REGEX_EXPANSION)
                            | RegexError => Ok 0
                            | RecursionError => Raise (ValueError "Invalid regular expression: nested too deeply")
                            end) in
    if _MAX_REGEX_EXPANSION <? expansion then praise (ValueError "Regex transform pattern repeats too much")
    else
      do! charge expansion in
      match compile p with
      | Some c => pret c
      | None => praise (ValueError "Invalid regular expression")
      end.

Definition _check_replacement (p : pattern) (replacement : ustr) : tresult unit :=
  match _compile_replacement p replacement with
  | None => Raise (ValueError "Invalid regex replacement")
  | Some parts =>
      if existsb (λ part, match part with inr k => groups p <? k | inl _ => false end) parts
      then Raise (ValueError "Invalid regex replacement: the pattern has no such group")
      else Ok tt
  end.

(** ** Arguments *)

(** The reader of [csv] with [skipinitialspace] and [strict]. *)
Inductive csv_state := START_RECORD | START_FIELD | IN_FIELD | IN_QUOTED_FIELD | QUOTE_IN_QUOTED_FIELD | EAT_CRNL.
Definition field_size_limit : Z := 131072.
Record csv_reader := { csv_at : csv_state; field : ustr; fields : list ustr }.
Definition csv_error {A} : tresult A := Raise (ValueError "Invalid transform arguments").

Definition move (st : csv_state) (r : csv_reader) : csv_reader := {| csv_at := st; field := field r; fields := fields r |}.
Definition add_char (c : Z) (st : csv_state) (r : csv_reader) : tresult csv_reader :=
  if field_size_limit <=? Z.of_nat (length (field r)) then csv_error
  else Ok {| csv_at := st; field := field r ++ [c]; fields := fields r |}.
Definition save_field (st : csv_state) (r : csv_reader) : csv_reader :=
  {| csv_at := st; field := []; fields := fields r ++ [field r] |}.
Definition newline (c : Z) : bool := (c =? 10) || (c =? 13).

Definition start_field (c : Z) (r : csv_reader) : tresult csv_reader :=
  if newline c then Ok (save_field EAT_CRNL r)
  else if c =? 34 then Ok (move IN_QUOTED_FIELD r)
  else if c =? 32 then Ok (move START_FIELD r)
  else if c =? 44 then Ok (save_field START_FIELD r)
  else add_char c IN_FIELD r.

Definition csv_char (c : Z) (r : csv_reader) : tresult csv_reader :=
  match csv_at r with
  | START_RECORD => if newline c then Ok (move EAT_CRNL r) else start_field c r
  | START_FIELD => start_field c r
  | IN_FIELD =>
      if newline c then Ok (save_field EAT_CRNL r)
      else if c =? 44 then Ok (save_field START_FIELD r)
      else add_char c IN_FIELD r
  | IN_QUOTED_FIELD => if c =? 34 then Ok (move QUOTE_IN_QUOTED_FIELD r) else add_char c IN_QUOTED_FIELD r
  | QUOTE_IN_QUOTED_FIELD =>
      if c =? 34 then add_char c IN_QUOTED_FIELD r
      else if c =? 44 then Ok (save_field START_FIELD r)
      else if newline c then Ok (save_field EAT_CRNL r)
      else csv_error
  | EAT_CRNL => if newline c then Ok r else csv_error
  end.
Definition csv_end (r : csv_reader) : tresult (list ustr) :=
  match csv_at r with
  | START_RECORD | EAT_CRNL => Ok (fields r)
  | START_FIELD | IN_FIELD | QUOTE_IN_QUOTED_FIELD => Ok (fields r ++ [field r])
  | IN_QUOTED_FIELD => csv_error
  end.
Fixpoint csv_from (s : ustr) (r : csv_reader) : tresult (list ustr) :=
  match s with
  | [] => csv_end r
  | c :: s => let^ r := csv_char c r in csv_from s r
  end.
Definition csv_row (s : ustr) : tresult (list ustr) := csv_from s {| csv_at := START_RECORD; field := []; fields := [] |}.

(** The fields as the search in the raw text has them: one at the start and one after each
    next comma, either spaces and a quoted text or everything up to a comma. After an
    opening quote, [closed] is what follows the last quote that can close the field. *)
Fixpoint closed (s : ustr) : option ustr :=
  match s with
  | [] => None
  | c :: s' =>
      if c =? 34 then
        match s' with
        | d :: s'' =>
            if d =? 34 then match closed s'' with Some r => Some r | None => Some s' end else Some s'
        | [] => Some s'
        end
      else closed s'
  end.
(** Whether the field here is quoted, and what follows it. *)
Definition raw_field (s : ustr) : bool * ustr :=
  let '(_, s1) := span (λ c, c =? 32) s in
  let plain := (match s1 with c :: _ => c =? 34 | [] => false end, (span (λ c, negb (c =? 44)) s).2) in
  match s1 with
  | c :: s2 => if c =? 34 then match closed s2 with Some r => (true, r) | None => plain end else plain
  | [] => plain
  end.
Fixpoint raw_fields (fuel : nat) (s : ustr) : list bool :=
  match fuel with
  | O => []
  | S fuel =>
      let '(q, r) := raw_field s in
      q :: match (span (λ c, negb (c =? 44)) r).2 with
           | _ :: r => raw_fields fuel r
           | [] => []
           end
  end.

Definition _parse_args (raw_args : ustr) : tresult (list ustr) :=
  match raw_args with
  | [] => Ok []
  | _ =>
      let^ parts := csv_row raw_args in
      let quoted := raw_fields (S (length raw_args)) raw_args in
      if (length parts =? length quoted)%nat
      then Ok (zip_with (λ part (q : bool), if q then part else strip part) parts quoted)
      else Raise (ValueError "zip() arguments differ in length")
  end.

(** ** Transforms *)

(** [_FUNC_RE]: the name and the text between the outer parentheses. *)
Definition func_match (raw : ustr) : option (ustr * ustr) :=
  let '(name, rest) := span word_char raw in
  match name, rest with
  | _ :: _, c :: body =>
      if c =? 40 then
        let body := if bool_decide (last body = Some 10) then removelast body else body in
        if bool_decide (last body = Some 41) && negb (existsb (λ c, c =? 10) (removelast body))
        then Some (name, removelast body) else None
      else None
  | _, _ => None
  end.

(** [raw.split] at colons. *)
Fixpoint split_colon (maxsplit : nat) (s : ustr) : list ustr :=
  match s with
  | [] => [[]]
  | c :: s' =>
      match maxsplit with
      | S n =>
          if c =? 58 then [] :: split_colon n s'
          else match split_colon maxsplit s' with p :: l => (c :: p) :: l | [] => [[c]] end
      | O => [s]
      end
  end.

Inductive transform :=
| trim | collapse_whitespace | lowercase | uppercase
| prepend (prefix : ustr) | append (suffix : ustr)
| replace_text (old new : ustr) | remove (needle : ustr)
| strip_prefix (p : ustr) | strip_suffix (sf : ustr)
| extract (c : pattern) | default_value (fallback : ustr)
| regex_replace (c : pattern) (replacement : ustr).

Definition _TRANSFORM_ARITY : list (string * nat) :=
  [("trim", 0); ("collapse_whitespace", 0); ("lowercase", 0); ("uppercase", 0); ("prepend", 1); ("append", 1);
   ("remove", 1); ("strip_prefix", 1); ("strip_suffix", 1); ("extract", 1); ("default", 1); ("replace", 2);
   ("regex", 2)]%nat.
Definition is_name (name : ustr) (s : string) : bool := bool_decide (name = u s).

Definition _validate_arity (name : ustr) (args : list ustr) : tresult unit :=
  match find (λ x, is_name name x.1) _TRANSFORM_ARITY with
  | Some (_, expected) =>
      if (length args =? expected)%nat then Ok tt
      else Raise (ValueError "wrong number of arguments")
  | None => Ok tt
  end.

(** [args[i]] *)
Definition arg (args : list ustr) (i : nat) : tresult ustr :=
  match args !! i with Some a => Ok a | None => Raise IndexError end.

Definition name_and_args (raw : ustr) : tresult (ustr * list ustr) :=
  match func_match raw with
  | Some (name, raw_args) => let^ args := _parse_args raw_args in Ok (name, args)
  | None =>
      match split_colon 2 raw with
      | name :: args => Ok (name, args)
      | [] => Raise IndexError
      end
  end.

Definition make_transform (name : ustr) (args : list ustr) : tprog transform :=
  do! lift (_validate_arity name args) in
  if is_name name "trim" then pret trim
  else if is_name name "collapse_whitespace" then pret collapse_whitespace
  else if is_name name "lowercase" then pret lowercase
  else if is_name name "uppercase" then pret uppercase
  else if is_name name "prepend" then let! a := lift (arg args 0) in pret (prepend a)
  else if is_name name "append" then let! a := lift (arg args 0) in pret (append a)
  else if is_name name "replace" then
    let! old := lift (arg args 0) in let! new := lift (arg args 1) in pret (replace_text old new)
  else if is_name name "remove" then let! a := lift (arg args 0) in pret (remove a)
  else if is_name name "strip_prefix" then let! a := lift (arg args 0) in pret (strip_prefix a)
  else if is_name name "strip_suffix" then let! a := lift (arg args 0) in pret (strip_suffix a)
  else if is_name name "extract" then
    let! a := lift (arg args 0) in let! c := _compile_regex a in pret (extract c)
  else if is_name name "default" then let! a := lift (arg args 0) in pret (default_value a)
  else if is_name name "regex" then
    let! p := lift (arg args 0) in
    let! replacement := lift (arg args 1) in
    let! c := _compile_regex p in
    do! lift (_check_replacement c replacement) in
    pret (regex_replace c replacement)
  else praise (ValueError "Unknown transform").

Definition parse_transform (raw : ustr) : tprog transform :=
  let! na := lift (name_and_args raw) in make_transform na.1 na.2.

Fixpoint parse_steps (l : list ustr) : tprog (list transform) :=
  match l with
  | [] => pret []
  | step :: l => let! t := parse_transform step in let! ts := parse_steps l in pret (t :: ts)
  end.

Definition parse_transform_pipeline (raw : ustr) : tprog (list transform) :=
  let! steps := lift (split_transform_pipeline raw) in
  if transform_max_pipeline_steps settings <? Z.of_nat (length steps)
  then praise (ValueError "Selector transform pipeline exceeds its limit")
  else if existsb (λ s, bool_decide (s = [])) steps
  then praise (ValueError "Selector transform steps must not be blank")
  else parse_steps steps.

(** A run of white space becomes one space. *)
Fixpoint collapse (in_space : bool) (s : ustr) : ustr :=
  match s with
  | [] => []
  | c :: s => if isspace c then (if in_space then collapse true s else 32 :: collapse true s) else c :: collapse false s
  end.

(** The callables. *)
Definition run_transform (t : transform) (value : ustr) : tresult ustr :=
  match t with
  | trim => Ok (strip value)
  | collapse_whitespace => Ok (strip (collapse false value))
  | lowercase => Ok (str_lower value)
  | uppercase => Ok (str_upper value)
  | prepend p => _bounded_concat value p true
  | append p => _bounded_concat value p false
  | replace_text old new => _bounded_literal_replace value old new
  | remove needle => _bounded_literal_replace value needle []
  | strip_prefix p => Ok (removeprefix p value)
  | strip_suffix p => Ok (removesuffix p value)
  | extract c =>
      match search c value with
      | None => Raise TransformTimeoutError
      | Some None => Ok []
      | Some (Some m) =>
          match m_groups m with
          | g :: _ => Ok (default [] g)
          | [] => Ok (slice (m_start m) (m_end m) value)
          end
      end
  | default_value fallback =>
      match strip value with [] => _bounded_concat [] fallback false | _ => Ok value end
  | regex_replace c replacement => _bounded_regex_replace c replacement value
  end.
Definition _bounded (t : transform) (value : ustr) : tresult ustr :=
  do^ checked_selector_value_size value in
  let^ transformed := run_transform t value in
  do^ checked_selector_value_size transformed in
  Ok transformed.

Fixpoint apply_from (ts : list transform) (value : ustr) : tresult ustr :=
  match ts with
  | [] => Ok value
  | t :: ts => let^ value := _bounded t value in do^ checked_selector_value_size value in apply_from ts value
  end.
Definition apply_transforms (value : ustr) (ts : list transform) : tresult ustr :=
  do^ checked_selector_value_size value in apply_from ts value.
End transforms.

(** [config_regex_budget()]: the parse of one configuration. *)
Definition config_regex_budget {A} (m : tprog A) : tresult A * option Z := m (Some _MAX_CONFIG_REGEX_EXPANSION).
