(* ===== verification/TransformsSpec.v ===== *)
(** * What selector transforms guarantee

    Parsing gives well-formed transforms or a [ValueError]; the patterns of a configuration
    stay within its budget of compiled nodes; and the limit on values is applied to exactly
    the size that a transform produces. *)

From S2P Require Import Prelude.
From S2P Require Import Text.
From S2P Require Import Unicode.
From S2P Require Import Transforms.
Open Scope Z_scope.

Lemma tbind_ok {A B} (m : tresult A) (k : A → tresult B) b : tbind m k = Ok b → ∃ a, m = Ok a ∧ k a = Ok b.
Proof. destruct m as [a|e]; cbn; [eauto|done]. Qed.
Lemma tbind_raise {A B} (m : tresult A) (k : A → tresult B) e :
  tbind m k = Raise e → m = Raise e ∨ ∃ a, m = Ok a ∧ k a = Raise e.
Proof. destruct m as [a|x]; cbn; [eauto|]. intros [= ->]. by left. Qed.

(** ** Compiled nodes *)

(** The compiler's nodes: a repeat copies its body once for each of its minimum count. *)
Fixpoint nodes_built (in_set : bool) (n : regex_node) : Z :=
  match n with
  | Node ros sb p f k mc l =>
      _node_weight (Node ros sb p f k mc l) in_set +
      match mc with Some c => Z.max 1 c | None => 1 end * foldr (λ c s, nodes_built (in_set || sb) c + s) 0 l
  end.
Definition built_children (in_set : bool) (l : list regex_node) : Z := foldr (λ c s, nodes_built in_set c + s) 0 l.

Lemma built_cons b c l : built_children b (c :: l) = nodes_built b c + built_children b l.
Proof. reflexivity. Qed.
Lemma built_node b ros sb p f k mc l :
  nodes_built b (Node ros sb p f k mc l) = _node_weight (Node ros sb p f k mc l) b +
    match mc with Some c => Z.max 1 c | None => 1 end * built_children (b || sb) l.
Proof. reflexivity. Qed.
#[local] Opaque built_children.

Lemma weight_pos n b : 1 ≤ _node_weight n b.
Proof. unfold _node_weight. destruct (_ || _); lia. Qed.

Section node_ind.
Context (P : regex_node → Prop).
Hypothesis step : ∀ ros sb p f k mc l, Forall P l → P (Node ros sb p f k mc l).
Fixpoint node_induction (n : regex_node) : P n :=
  match n with
  | Node ros sb p f k mc l =>
      step ros sb p f k mc l ((fix go (l : list regex_node) : Forall P l :=
        match l with [] => List.Forall_nil _ | c :: l => @List.Forall_cons _ P c l (node_induction c) (go l) end) l)
  end.
End node_ind.

Lemma built_pos n : ∀ b, 1 ≤ nodes_built b n.
Proof.
  induction n as [ros sb p f k mc l IH] using node_induction. intros b. rewrite built_node.
  pose proof (weight_pos (Node ros sb p f k mc l) b).
  assert (0 ≤ built_children (b || sb) l) as Hl; [|destruct mc as [c|]; nia].
  clear H; induction IH as [|c l Hc Hl IH']; [done|]. rewrite built_cons. specialize (Hc (b || sb)). lia.
Qed.
Lemma built_children_pos b l : 0 ≤ built_children b l.
Proof. induction l as [|c l IH]; [done|]. rewrite built_cons. pose proof (built_pos c b). lia. Qed.

(** What the pending nodes still build, and how many they are. *)
Definition pending_built (pending : list (regex_node * Z * bool)) : Z :=
  foldr (λ x s, x.1.2 * nodes_built x.2 x.1.1 + s) 0 pending.
Definition pending_nodes (pending : list (regex_node * Z * bool)) : nat := list_sum (map (λ x, node_count x.1.1) pending).

Lemma pending_built_cons n c b l : pending_built ((n, c, b) :: l) = c * nodes_built b n + pending_built l.
Proof. reflexivity. Qed.
Lemma pending_nodes_cons n c b l : pending_nodes ((n, c, b) :: l) = (node_count n + pending_nodes l)%nat.
Proof. reflexivity. Qed.
#[local] Opaque pending_built pending_nodes.
Lemma pending_built_app a b : pending_built (a ++ b) = pending_built a + pending_built b.
Proof. induction a as [|[[n c] d] a IH]; [done|]. cbn [app]. rewrite !pending_built_cons, IH. lia. Qed.
Lemma pending_nodes_app a b : pending_nodes (a ++ b) = (pending_nodes a + pending_nodes b)%nat.
Proof. induction a as [|[[n c] d] a IH]; [done|]. cbn [app]. rewrite !pending_nodes_cons, IH. lia. Qed.
Lemma pending_children l copies b :
  pending_built (rev (map (λ c, (c, copies, b)) l)) = copies * built_children b l ∧
  pending_nodes (rev (map (λ c, (c, copies, b)) l)) = list_sum (map node_count l).
Proof.
  induction l as [|c l [IH1 IH2]]; [by split; [symmetry; apply Z.mul_0_r|]|]. cbn [map rev].
  rewrite pending_built_app, pending_nodes_app, IH1, IH2, pending_built_cons, pending_nodes_cons, built_cons.
  change (pending_built []) with 0. change (pending_nodes []) with 0%nat. split; [ring|]. change (list_sum (node_count c :: map node_count l)) with (node_count c + list_sum (map node_count l))%nat. lia.
Qed.

Lemma node_step n copies b :
  copies * nodes_built b n = copies * _node_weight n b + copies_of n copies * built_children (b || set_base n) (children n) ∧
  node_count n = S (list_sum (map node_count (children n))).
Proof.
  destruct n as [ros sb p f k mc l]. rewrite built_node. unfold copies_of. cbn [min_count children set_base].
  split; [destruct mc; lia|done].
Qed.

Lemma pending_built_pos l : Forall (λ x, 1 ≤ x.1.2) l → 0 ≤ pending_built l.
Proof.
  induction 1 as [|[[n c] b] l Hc Hl IH]; [done|]. rewrite pending_built_cons. cbn in Hc. pose proof (built_pos n b). nia.
Qed.

Lemma expansion_exact fuel limit total pending :
  (pending_nodes pending ≤ fuel)%nat → Forall (λ x, 1 ≤ x.1.2) pending →
  if total + pending_built pending <=? limit
  then expansion_from fuel limit total pending = total + pending_built pending
  else total ≤ limit → limit < expansion_from fuel limit total pending.
Proof.
  revert total pending. induction fuel as [|fuel IH]; intros total pending Hf Hc.
  - destruct pending as [|[[n c] b] pending]; [|destruct (node_step n c b) as [_ Hn]; rewrite pending_nodes_cons in Hf; lia].
    change (pending_built []) with 0. cbn [expansion_from]. destruct (Z.leb_spec (total + 0) limit); lia.
  - destruct pending as [|[[n c] b] pending].
    { change (pending_built []) with 0. cbn [expansion_from]. destruct (Z.leb_spec (total + 0) limit); lia. }
    apply Forall_cons in Hc as [Hc Hcs]. cbn [fst snd] in Hc. cbn [expansion_from].
    destruct (node_step n c b) as [Hb Hn]. rewrite pending_nodes_cons in Hf.
    destruct (pending_children (children n) (copies_of n c) (b || set_base n)) as [Hpb Hpn].
    rewrite pending_built_cons, Hb. pose proof (pending_built_pos _ Hcs).
    assert (1 ≤ copies_of n c) as Hco by (unfold copies_of; destruct (min_count n); nia).
    pose proof (built_children_pos (b || set_base n) (children n)).
    destruct (Z.ltb_spec limit (total + c * _node_weight n b)) as [Hlt|Hge].
    + destruct (Z.leb_spec (total + (c * _node_weight n b + copies_of n c * built_children (b || set_base n) (children n) +
        pending_built pending)) limit); [nia|done].
    + set (next := rev _ ++ pending).
      assert (pending_built next = copies_of n c * built_children (b || set_base n) (children n) + pending_built pending) as Hsum.
      { unfold next. by rewrite pending_built_app, Hpb. }
      specialize (IH (total + c * _node_weight n b) next). rewrite Hsum in IH.
      replace (total + (c * _node_weight n b + copies_of n c * built_children (b || set_base n) (children n) + pending_built pending))
        with (total + c * _node_weight n b + (copies_of n c * built_children (b || set_base n) (children n) + pending_built pending)) by lia.
      assert (pending_nodes next ≤ fuel)%nat as Hfn by (unfold next; rewrite pending_nodes_app, Hpn; lia).
      assert (Forall (λ x, 1 ≤ x.1.2) next) as Hnx.
      { unfold next. apply Forall_app. split; [|done]. apply Forall_rev, Forall_map, Forall_true. done. }
      specialize (IH Hfn Hnx). destruct (_ <=? limit); [exact IH|]. intros _. by apply IH.
Qed.

Lemma expansion_spec tree limit : 0 ≤ limit →
  if nodes_built false tree <=? limit then _regex_expansion tree limit = nodes_built false tree
  else limit < _regex_expansion tree limit.
Proof.
  intros Hl. pose proof (expansion_exact (node_count tree) limit 0 [(tree, 1, false)]) as He.
  rewrite pending_nodes_cons, pending_built_cons in He. change (pending_built []) with 0 in He.
  change (pending_nodes []) with 0%nat in He. replace (0 + (1 * nodes_built false tree + 0)) with (nodes_built false tree) in He by lia.
  specialize (He ltac:(lia) ltac:(by constructor)). unfold _regex_expansion.
  destruct (_ <=? limit); [done|by apply He].
Qed.

(** ** Parsing: results and errors *)

Section parsing.
Context `{RegexLib} (settings : Settings).

(** Whatever the budget, a result satisfies [P] and an error is a [ValueError]. *)
Definition tpost {A} (m : tprog A) (P : A → Prop) : Prop :=
  ∀ budget, match (m budget).1 with Ok a => P a | Raise e => value_error e end.
Definition rpost {A} (m : tresult A) (P : A → Prop) : Prop :=
  match m with Ok a => P a | Raise e => value_error e end.

Lemma tpost_ret {A} (a : A) P : P a → tpost (pret a) P.
Proof. by intros Ha b. Qed.
Lemma tpost_raise {A} e (P : A → Prop) : value_error e → tpost (praise e) P.
Proof. by intros He b. Qed.
Lemma tpost_lift {A} (m : tresult A) P : rpost m P → tpost (lift m) P.
Proof. by intros Hm b. Qed.
Lemma tpost_bind {A B} (m : tprog A) (k : A → tprog B) P Q :
  tpost m P → (∀ a, P a → tpost (k a) Q) → tpost (pbind m k) Q.
Proof.
  intros Hm Hk b. unfold pbind. specialize (Hm b). destruct (m b) as [[a|e] b']; [|done]. by apply Hk.
Qed.
Lemma rpost_bind {A B} (m : tresult A) (k : A → tresult B) P Q :
  rpost m P → (∀ a, P a → rpost (k a) Q) → rpost (tbind m k) Q.
Proof. intros Hm Hk. destruct m as [a|e]; [|done]. by apply Hk. Qed.
Lemma tpost_weaken {A} (m : tprog A) (P Q : A → Prop) : tpost m P → (∀ a, P a → Q a) → tpost m Q.
Proof. intros Hm HPQ b. specialize (Hm b). destruct (m b).1; [by apply HPQ|done]. Qed.

Lemma encoded_post s : rpost (encoded_size s) (λ _, True).
Proof. unfold encoded_size, rpost. by destruct (existsb _ _). Qed.

Lemma compile_post p : tpost (_compile_regex settings p) (λ _, True).
Proof.
  unfold _compile_regex. eapply tpost_bind; [apply tpost_lift, encoded_post|]. intros n _.
  destruct (_ <? n); [by apply tpost_raise|].
  eapply (tpost_bind _ _ (λ _, True)); [apply tpost_lift; by destruct (_parse_regex p)|]. intros x _.
  destruct (_ <? x); [by apply tpost_raise|].
  eapply (tpost_bind _ _ (λ _, True)).
  - unfold charge. intros [b|]; cbn; [|done]. by destruct (_ <? 0).
  - intros _ _. destruct (compile p); [by apply tpost_ret|by apply tpost_raise].
Qed.

(** The groups that a replacement names exist. *)
Definition replacement_ok (c : pattern) (replacement : ustr) : Prop :=
  ∃ parts, _compile_replacement c replacement = Some parts ∧ ∀ k, inr k ∈ parts → k ≤ groups c.
Definition well_formed (t : transform) : Prop :=
  match t with regex_replace c replacement => replacement_ok c replacement | _ => True end.

Lemma check_replacement_post c r : rpost (_check_replacement c r) (λ _, replacement_ok c r).
Proof.
  unfold _check_replacement, replacement_ok. destruct (_compile_replacement c r) as [parts|]; [|done].
  destruct (existsb _ parts) eqn:E; [done|]. exists parts. split; [done|]. intros k Hk.
  by apply (proj1 (existsb_elem_false _ _) E), Z.ltb_ge in Hk.
Qed.

(** The table has each name once. *)
Lemma arity_find : Forall (λ x, find (λ y, is_name (u x.1) y.1) _TRANSFORM_ARITY = Some x) _TRANSFORM_ARITY.
Proof. unfold _TRANSFORM_ARITY. repeat (constructor; [by vm_compute|]). constructor. Qed.
Lemma arity_post name args : rpost (_validate_arity name args)
  (λ _, ∀ s k, (s, k) ∈ _TRANSFORM_ARITY → name = u s → length args = k).
Proof.
  unfold _validate_arity. destruct (find _ _) as [[s k]|] eqn:E.
  - destruct (Nat.eqb_spec (length args) k) as [Hk|]; [|done]. intros s' k' Hin ->.
    pose proof (proj1 (Forall_forall _ _) arity_find _ Hin) as Hf. cbn [fst] in Hf. congruence.
  - intros s' k' Hin ->. pose proof (proj1 (Forall_forall _ _) arity_find _ Hin) as Hf. cbn [fst] in Hf. congruence.
Qed.
Lemma arg_post args i : (i < length args)%nat → rpost (arg args i) (λ _, True).
Proof. intros Hi. unfold arg, rpost. destruct (lookup_lt_is_Some_2 _ _ Hi) as [a ->]. done. Qed.

(** Solves the case of one name. *)
Ltac transform_case Hk Hn :=
  match type of Hn with is_name ?name ?s = true =>
    let Hl := fresh "Hl" in
    first [pose proof (Hk s 0%nat ltac:(apply list_elem_of_In; cbn; tauto) (bool_decide_eq_true_1 _ Hn)) as Hl
          |pose proof (Hk s 1%nat ltac:(apply list_elem_of_In; cbn; tauto) (bool_decide_eq_true_1 _ Hn)) as Hl
          |pose proof (Hk s 2%nat ltac:(apply list_elem_of_In; cbn; tauto) (bool_decide_eq_true_1 _ Hn)) as Hl];
    repeat (eapply (tpost_bind _ _ (λ _, True)); [first [apply tpost_lift, arg_post; lia|apply compile_post]|]; intros ? _)
  end.

Lemma make_transform_post name args : tpost (make_transform settings name args) well_formed.
Proof.
  unfold make_transform. eapply tpost_bind; [apply tpost_lift, arity_post|]. intros ? Hk.
  repeat match goal with
  | |- tpost (if is_name ?n ?s then _ else _) _ =>
      let Hn := fresh "Hn" in destruct (is_name n s) eqn:Hn; [transform_case Hk Hn; try by apply tpost_ret|clear Hn]
  end.
  - eapply tpost_bind; [apply tpost_lift, check_replacement_post|]. intros ? Hr. by apply tpost_ret.
  - by apply tpost_raise.
Qed.

Lemma start_field_post c r : rpost (start_field c r) (λ _, True).
Proof. unfold start_field, add_char. by repeat case_match. Qed.
Lemma csv_char_post c r : rpost (csv_char c r) (λ _, True).
Proof. unfold csv_char, add_char. repeat case_match; try done; apply start_field_post. Qed.
Lemma csv_from_post s r : rpost (csv_from s r) (λ _, True).
Proof.
  revert r. induction s as [|c s IH]; intros r; cbn [csv_from]; [unfold csv_end; by case_match|].
  eapply rpost_bind; [apply csv_char_post|]. intros r' _. apply IH.
Qed.
Lemma split_colon_some n s : split_colon n s ≠ [].
Proof. destruct s, n; cbn; [done..|]. destruct (_ =? 58); [done|]. by destruct (split_colon _ _). Qed.
Lemma name_and_args_post raw : rpost (name_and_args raw) (λ _, True).
Proof.
  unfold name_and_args. destruct (func_match raw) as [[name args]|].
  - eapply (rpost_bind _ _ (λ _, True)); [|done]. unfold _parse_args. destruct args as [|a args]; [done|].
    eapply rpost_bind; [apply csv_from_post|]. intros parts _. by destruct (_ =? _)%nat.
  - pose proof (split_colon_some 2 raw). by destruct (split_colon 2 raw).
Qed.

Lemma parse_steps_post l : tpost (parse_steps settings l) (λ ts, length ts = length l ∧ Forall well_formed ts).
Proof.
  induction l as [|step l IH]; cbn [parse_steps]; [by apply tpost_ret|].
  eapply tpost_bind.
  { unfold parse_transform. eapply tpost_bind; [apply tpost_lift, name_and_args_post|]. intros na _. apply make_transform_post. }
  intros t Ht. eapply tpost_bind; [exact IH|]. intros ts [Hl Hts]. apply tpost_ret. split; [cbn; lia|by constructor].
Qed.
End parsing.

(** Parsing a pipeline, whatever its text, gives at least one and at most as many
    transforms as allowed, where every replacement names only groups that its pattern has,
    or raises a [ValueError]; in particular no argument of a transform is ever missing. *)
Theorem parsed_pipelines_are_well_formed `{RegexLib} settings raw budget :
  match (parse_transform_pipeline settings raw budget).1 with
  | Ok ts => ts ≠ [] ∧ Z.of_nat (length ts) ≤ transform_max_pipeline_steps settings ∧ Forall well_formed ts
  | Raise e => value_error e
  end.
Proof.
  assert (tpost (parse_transform_pipeline settings raw)
    (λ ts, ts ≠ [] ∧ Z.of_nat (length ts) ≤ transform_max_pipeline_steps settings ∧ Forall well_formed ts)) as Hp; [|apply Hp].
  unfold parse_transform_pipeline. eapply (tpost_bind _ _ (λ steps, steps ≠ [])).
  { apply tpost_lift. unfold split_transform_pipeline. repeat (case_match; [done|]). cbn. by destruct (steps _). }
  intros steps Hs. destruct (Z.ltb_spec (transform_max_pipeline_steps settings) (Z.of_nat (length steps))); [by apply tpost_raise|].
  destruct (existsb _ steps); [by apply tpost_raise|].
  eapply tpost_weaken; [apply parse_steps_post|]. intros ts [Hl Hw]. rewrite Hl. split_and!; [|done..].
  intros ->. by destruct steps.
Qed.

(** ** The budget of a configuration *)

Section budget.
Context `{RegexLib} (settings : Settings).

(** The nodes that a pattern's text compiles to. *)
Definition pattern_nodes (source : ustr) : Z :=
  match _parse_regex source with Parsed t => nodes_built false t | _ => 0 end.
Definition total_nodes (sources : list ustr) : Z := foldr (λ s n, pattern_nodes s + n) 0 sources.
Lemma total_nodes_app a b : total_nodes (a ++ b) = total_nodes a + total_nodes b.
Proof. unfold total_nodes. induction a as [|s a IH]; cbn; lia. Qed.

Definition patterns_of (t : transform) : list pattern :=
  match t with extract c | regex_replace c _ => [c] | _ => [] end.

(** A success with its result compiled patterns as [P] says, within the budget. *)
Definition paid {A} (m : tprog A) (P : A → list pattern → Prop) : Prop :=
  ∀ b a b', m (Some b) = (Ok a, b') → 0 ≤ b →
    ∃ sources pats, P a pats ∧ Forall2 (λ s c, compile s = Some c) sources pats ∧
      b' = Some (b - total_nodes sources) ∧ 0 ≤ b - total_nodes sources ∧
      Forall (λ s, pattern_nodes s ≤ _MAX_REGEX_EXPANSION) sources.

Lemma paid_bind {A B} (m : tprog A) (k : A → tprog B) P Q :
  paid m P → (∀ a ps, P a ps → paid (k a) (λ r ps', Q r (ps ++ ps'))) → paid (pbind m k) Q.
Proof.
  intros Hm Hk b0 r b2. unfold pbind. destruct (m (Some b0)) as [[a|e] b1] eqn:E; [|done]. intros Hr Hb.
  destruct (Hm _ _ _ E Hb) as (s1 & p1 & H1 & Hc1 & -> & Hb1 & Hs1).
  destruct (Hk a p1 H1 _ _ _ Hr Hb1) as (s2 & p2 & H2 & Hc2 & -> & Hb2 & Hs2).
  exists (s1 ++ s2), (p1 ++ p2). rewrite total_nodes_app.
  split_and!; [done|by apply Forall2_app|f_equal; lia|lia|by apply Forall_app].
Qed.
Lemma paid_lift {A} (m : tresult A) (P : A → list pattern → Prop) : (∀ a, P a []) → paid (lift m) P.
Proof. intros Ha b a b' [= _ <-] Hb. exists [], []. split_and!; [done|constructor|f_equal; cbn; lia|cbn; lia|constructor]. Qed.
Lemma paid_ret {A} (a : A) (P : A → list pattern → Prop) : P a [] → paid (pret a) P.
Proof. intros Ha b a' b' [= <- <-] Hb. exists [], []. split_and!; [done|constructor|f_equal; cbn; lia|cbn; lia|constructor]. Qed.
Lemma paid_raise {A} e (P : A → list pattern → Prop) : paid (praise e) P.
Proof. by intros b a b'. Qed.
Lemma paid_weaken {A} (m : tprog A) (P Q : A → list pattern → Prop) : paid m P → (∀ a ps, P a ps → Q a ps) → paid m Q.
Proof. intros Hm HPQ b a b' Hr Hb. destruct (Hm _ _ _ Hr Hb) as (s & ps & Hp & ?). exists s, ps. split; [by apply HPQ|done]. Qed.

Lemma compile_paid p : paid (_compile_regex settings p) (λ c ps, ps = [c]).
Proof.
  intros b c b' Hc Hb. unfold _compile_regex, pbind, lift in Hc. destruct (encoded_size p) as [n|]; [|done].
  destruct (_ <? n); [done|]. destruct (_parse_regex p) as [t| |] eqn:Ep; [| |done].
  - pose proof (expansion_spec t _MAX_REGEX_EXPANSION ltac:(done)) as He.
    destruct (Z.ltb_spec _MAX_REGEX_EXPANSION (_regex_expansion t _MAX_REGEX_EXPANSION)) as [|Hle]; [done|].
    destruct (Z.leb_spec (nodes_built false t) _MAX_REGEX_EXPANSION); [|lia]. rewrite He in Hc.
    unfold charge, pbind, pget, pput in Hc. destruct (Z.ltb_spec (b - nodes_built false t) 0); [done|].
    cbn in Hc. destruct (compile p) as [c'|] eqn:Ec; [|done]. injection Hc as <- <-.
    assert (pattern_nodes p = nodes_built false t) as Hn by (unfold pattern_nodes; by rewrite Ep).
    exists [p], [c']. cbn [total_nodes foldr]. split_and!; [done|by repeat constructor|f_equal; lia|lia|constructor; [lia|constructor]].
  - destruct (_ <? 0); [done|]. unfold charge, pbind, pget, pput in Hc. destruct (_ <? 0); [done|]. cbn in Hc.
    destruct (compile p) as [c'|] eqn:Ec; [|done]. destruct (compile_parses _ _ Ec) as [t Ht]. congruence.
Qed.

Lemma make_transform_paid name args : paid (make_transform settings name args) (λ t ps, ps = patterns_of t).
Proof.
  unfold make_transform. eapply (paid_bind _ _ (λ _ ps, ps = [])); [by apply paid_lift|]. intros ? ? ->. cbn [app].
  repeat match goal with
  | |- paid (if is_name ?n ?s then _ else _) _ => destruct (is_name n s)
  | |- paid (pbind (lift (arg _ _)) _) _ => eapply (paid_bind _ _ (λ _ ps, ps = [])); [by apply paid_lift|]; intros ? ? ->; cbn [app]
  | |- paid (pret _) _ => by apply paid_ret
  | |- paid (praise _) _ => apply paid_raise
  end.
  - eapply paid_bind; [apply compile_paid|]. intros c ? ->. by apply paid_ret.
  - eapply paid_bind; [apply compile_paid|]. intros c ? ->.
    eapply (paid_bind _ _ (λ _ ps, ps = [])); [by apply paid_lift|]. intros ? ? ->. by apply paid_ret.
Qed.

Lemma parse_pipeline_paid raw : paid (parse_transform_pipeline settings raw) (λ ts ps, ps = flat_map patterns_of ts).
Proof.
  unfold parse_transform_pipeline. eapply (paid_bind _ _ (λ _ ps, ps = [])); [by apply paid_lift|]. intros steps ? ->. cbn [app].
  destruct (_ <? _); [apply paid_raise|]. destruct (existsb _ _); [apply paid_raise|].
  induction steps as [|step steps IH]; cbn [parse_steps]; [by apply paid_ret|].
  eapply (paid_bind _ _ (λ t ps, ps = patterns_of t)).
  { unfold parse_transform. eapply (paid_bind _ _ (λ _ ps, ps = [])); [by apply paid_lift|]. intros na ? ->. apply make_transform_paid. }
  intros t ? ->. eapply paid_bind; [exact IH|]. intros ts ? ->. apply paid_ret. by rewrite app_nil_r.
Qed.

(** The pipelines of one configuration, parsed in turn. *)
Fixpoint parse_config (raws : list ustr) : tprog (list (list transform)) :=
  match raws with
  | [] => pret []
  | raw :: raws =>
      let! ts := parse_transform_pipeline settings raw in
      let! l := parse_config raws in pret (ts :: l)
  end.
Lemma parse_config_paid raws : paid (parse_config raws) (λ l ps, ps = flat_map (flat_map patterns_of) l).
Proof.
  induction raws as [|raw raws IH]; cbn [parse_config]; [by apply paid_ret|].
  eapply paid_bind; [apply parse_pipeline_paid|]. intros ts ? ->. eapply paid_bind; [exact IH|]. intros l ? ->.
  apply paid_ret. by rewrite app_nil_r.
Qed.
End budget.

(** [C18] However many pipelines a configuration has, the patterns compiled for it have
    together at most 100,000 nodes, each at most 10,000, a repeat counting its body once for
    each of its minimum count; no repeat is expanded to find this out. *)
Theorem config_patterns_bounded `{RegexLib} settings raws l budget :
  config_regex_budget (parse_config settings raws) = (Ok l, budget) →
  ∃ sources, Forall2 (λ s c, compile s = Some c) sources (flat_map (flat_map patterns_of) l) ∧
    total_nodes sources ≤ _MAX_CONFIG_REGEX_EXPANSION ∧ Forall (λ s, pattern_nodes s ≤ _MAX_REGEX_EXPANSION) sources.
Proof.
  intros Hp. destruct (parse_config_paid settings raws _ _ _ Hp ltac:(done)) as (sources & ? & -> & Hc & _ & Hb & Hs).
  exists sources. split_and!; [done|lia|done].
Qed.

(** ** Values *)

Lemma size_app a b : size (a ++ b) = size a + size b.
Proof. unfold size. induction a as [|c a IH]; cbn; lia. Qed.
Lemma char_size_pos c : 1 ≤ char_size c.
Proof. unfold char_size. repeat case_match; lia. Qed.
Lemma size_cons c s : size (c :: s) = char_size c + size s.
Proof. reflexivity. Qed.
Lemma size_length s : Z.of_nat (length s) ≤ size s.
Proof. induction s as [|c s IH]; cbn; [done|]. pose proof (char_size_pos c). unfold size in *. lia. Qed.

Lemma cut_Some p s r : cut p s = Some r → s = p ++ r.
Proof.
  revert s. induction p as [|a p IH]; intros s; cbn; [by intros [= ->]|]. destruct s as [|b s]; [done|].
  destruct (Z.eqb_spec a b) as [->|]; [|done]. intros Hc. cbn. f_equal. by apply IH.
Qed.

(** The length of a replaced text, from the number of occurrences. *)
Lemma replace_from_size fuel old new s :
  (replace_from fuel old new s).2 = (replace_from fuel old [] s).2 ∧
  size (replace_from fuel old new s).1 = size s + (replace_from fuel old new s).2 * (size new - size old).
Proof.
  revert s. induction fuel as [|fuel IH]; intros s; [split; [done|cbn [replace_from fst snd]; lia]|].
  destruct s as [|c s]; [split; [done|cbn [replace_from fst snd]; lia]|].
  cbn [replace_from]. destruct (cut old (c :: s)) as [rest|] eqn:E.
  - destruct (IH rest) as [H1 H2]. destruct (replace_from fuel old new rest) as [r n], (replace_from fuel old [] rest) as [r' n'].
    cbn [fst snd] in *. apply cut_Some in E. split; [lia|]. rewrite size_app, E, size_app, H2. lia.
  - destruct (IH s) as [H1 H2]. destruct (replace_from fuel old new s) as [r n], (replace_from fuel old [] s) as [r' n'].
    cbn [fst snd] in *. split; [done|]. rewrite !size_cons. lia.
Qed.
Lemma replace_size old new s : size (replace old new s) = size s + count old s * (size new - size old).
Proof.
  destruct old as [|a old].
  - unfold replace, count. rewrite size_app. change (size []) with 0.
    assert (size (flat_map (λ c, c :: new) s) = size s + Z.of_nat (length s) * size new) as ->; [|lia].
    induction s as [|c s IH]; [done|]. cbn [flat_map length]. rewrite size_app, IH, !size_cons. lia.
  - unfold replace, count. destruct (replace_from_size (length s) (a :: old) new s) as [H1 H2]. by rewrite H2, H1.
Qed.

Lemma plain_app a b : existsb surrogate (a ++ b) = existsb surrogate a || existsb surrogate b.
Proof. apply existsb_app. Qed.
Lemma replace_plain old new s :
  existsb surrogate new = false → existsb surrogate s = false → existsb surrogate (replace old new s) = false.
Proof.
  intros Hn Hs. destruct old as [|a old].
  - unfold replace. rewrite plain_app, Hn. cbn. induction s as [|c s IH]; [done|]. cbn in *.
    apply orb_false_iff in Hs as [-> Hs]. cbn. by rewrite plain_app, Hn, IH.
  - unfold replace. generalize (length s). intros fuel. revert s Hs. induction fuel as [|fuel IH]; intros s Hs; [done|].
    destruct s as [|c s]; [done|]. cbn [replace_from]. destruct (cut (a :: old) (c :: s)) as [rest|] eqn:E.
    + apply cut_Some in E. rewrite E, plain_app in Hs. apply orb_false_iff in Hs as [_ Hs]. specialize (IH _ Hs).
      destruct (replace_from fuel (a :: old) new rest). cbn in *. by rewrite plain_app, Hn.
    + cbn in Hs. apply orb_false_iff in Hs as [Hc Hs]. specialize (IH _ Hs).
      destruct (replace_from fuel (a :: old) new s). cbn in *. by rewrite Hc.
Qed.

Section values.
Context `{RegexLib} (settings : Settings).

(** A value that may be kept. *)
Definition fits (v : ustr) : Prop := existsb surrogate v = false ∧ size v ≤ selector_value_limit settings.
#[export] Instance fits_dec v : Decision (fits v).
Proof. unfold fits. apply _. Defined.

(** ** The transforms without limits *)

Fixpoint substitute (c : pattern) (replacement value : ustr) (ms : list rmatch) (last_end : nat) : ustr :=
  match ms with
  | [] => drop last_end value
  | m :: ms => slice last_end (m_start m) value ++ expand c m replacement ++ substitute c replacement value ms (m_end m)
  end.
(** What a transform makes of a value; none if a search times out. *)
Definition meaning (t : transform) (value : ustr) : option ustr :=
  match t with
  | trim => Some (strip value)
  | collapse_whitespace => Some (strip (collapse false value))
  | lowercase => Some (str_lower value)
  | uppercase => Some (str_upper value)
  | prepend p => Some (p ++ value)
  | append p => Some (value ++ p)
  | replace_text old new => Some (replace old new value)
  | remove needle => Some (replace needle [] value)
  | strip_prefix p => Some (removeprefix p value)
  | strip_suffix p => Some (removesuffix p value)
  | extract c =>
      m ← search c value;
      Some (match m with
            | None => []
            | Some m => match m_groups m with g :: _ => default [] g | [] => slice (m_start m) (m_end m) value end
            end)
  | default_value fallback => Some (if bool_decide (strip value = []) then fallback else value)
  | regex_replace c replacement =>
      let '(ms, timed_out) := finditer c value in
      if timed_out then None else Some (substitute c replacement value ms 0)
  end.
(** A pipeline without limits, all of whose values may be kept. *)
Fixpoint reference (ts : list transform) (value : ustr) : option ustr :=
  if bool_decide (fits value) then
    match ts with
    | [] => Some value
    | t :: ts => v ← meaning t value; reference ts v
    end
  else None.

(** The texts of a literal replacement have an encoding. *)
Definition plain_arguments (t : transform) : Prop :=
  match t with
  | replace_text old new => existsb surrogate old = false ∧ existsb surrogate new = false
  | remove needle => existsb surrogate needle = false
  | _ => True
  end.

Lemma encoded_spec s :
  match encoded_size s with Ok n => existsb surrogate s = false ∧ n = size s | Raise _ => existsb surrogate s = true end.
Proof. unfold encoded_size. by destruct (existsb surrogate s). Qed.
Lemma checked_spec v :
  match checked_selector_value_size settings v with Ok n => fits v ∧ n = size v | Raise _ => ¬ fits v end.
Proof.
  unfold checked_selector_value_size, fits, over_limit. pose proof (size_length v).
  destruct (Z.ltb_spec (selector_value_limit settings) (Z.of_nat (length v))); [lia|].
  pose proof (encoded_spec v) as He. destruct (encoded_size v) as [n|e]; cbn [tbind].
  - destruct He as [He ->]. destruct (Z.ltb_spec (selector_value_limit settings) (size v)); [lia|done].
  - intros [? _]. congruence.
Qed.

(** The value that is meant, if it may be kept; else an error. *)
Definition exact (m : tresult ustr) (v : ustr) : Prop :=
  match m with Ok w => w = v ∧ fits v | Raise _ => ¬ fits v end.

Lemma concat_exact v addition b : fits v →
  exact (_bounded_concat settings v addition b) (if b then addition ++ v else v ++ addition).
Proof.
  intros Hv. unfold _bounded_concat, exact. pose proof (checked_spec v) as Hc.
  destruct (checked_selector_value_size settings v) as [n|]; [|done]. destruct Hc as [[Hp _] ->]. cbn [tbind].
  pose proof (encoded_spec addition) as He. destruct (encoded_size addition) as [m|]; cbn [tbind].
  - destruct He as [He ->]. unfold over_limit, fits.
    assert (size (if b then addition ++ v else v ++ addition) = size v + size addition) as Hs by (destruct b; rewrite size_app; lia).
    assert (existsb surrogate (if b then addition ++ v else v ++ addition) = false) as Hn by (destruct b; by rewrite plain_app, Hp, He).
    destruct (Z.ltb_spec (selector_value_limit settings) (size v + size addition)); [lia|]. rewrite Hs, Hn. done.
  - intros [Hn _]. destruct b; rewrite plain_app, Hp, He in Hn; done.
Qed.

Lemma literal_exact v old new : fits v → existsb surrogate old = false → existsb surrogate new = false →
  exact (_bounded_literal_replace settings v old new) (replace old new v).
Proof.
  intros Hv Ho Hn. unfold _bounded_literal_replace, exact. pose proof (checked_spec v) as Hc.
  destruct (checked_selector_value_size settings v) as [n|]; [|done]. destruct Hc as [[Hp _] ->]. cbn [tbind].
  unfold encoded_size. rewrite Ho, Hn. cbn [tbind]. rewrite <- replace_size. unfold over_limit, fits.
  destruct (Z.ltb_spec (selector_value_limit settings) (size (replace old new v))); [lia|].
  split_and!; [done|by apply replace_plain|done].
Qed.

Lemma matches_exact c replacement v ms timed_out out last :
  existsb surrogate out = false →
  match replace_matches settings c replacement v ms timed_out out (size out) last with
  | Ok w => timed_out = false ∧ w = out ++ substitute c replacement v ms last ∧ fits w
  | Raise _ => timed_out = false → ¬ fits (out ++ substitute c replacement v ms last)
  end.
Proof.
  assert (∀ a b, size a ≤ size (a ++ b)) as Hle.
  { intros a b. rewrite size_app. pose proof (size_length b). lia. }
  revert out last. induction ms as [|m ms IH]; intros out last Ho; cbn [replace_matches substitute].
  - destruct timed_out; [done|]. pose proof (encoded_spec (drop last v)) as He. destruct (encoded_size (drop last v)) as [n|]; cbn [tbind].
    + destruct He as [He ->]. rewrite <- size_app. unfold fits, over_limit.
      destruct (Z.ltb_spec (selector_value_limit settings) (size (out ++ drop last v))); [lia|]. by rewrite plain_app, Ho, He.
    + intros _ [Hf _]. by rewrite plain_app, Ho, He in Hf.
  - set (a := slice last (m_start m) v). set (e := expand c m replacement).
    pose proof (encoded_spec a) as Ha. destruct (encoded_size a) as [n|]; cbn [tbind].
    2: { intros _ [Hf _]. by rewrite !plain_app, Ho, Ha in Hf. }
    pose proof (encoded_spec e) as He. destruct (encoded_size e) as [k|]; cbn [tbind].
    2: { intros _ [Hf _]. rewrite !plain_app, Ho, He in Hf. by destruct (existsb surrogate a). }
    destruct Ha as [Ha ->], He as [He ->].
    replace (size out + (size a + size e)) with (size (out ++ a ++ e)) by (rewrite !size_app; lia).
    replace (out ++ a ++ e ++ substitute c replacement v ms (m_end m)) with ((out ++ a ++ e) ++ substitute c replacement v ms (m_end m))
      by by rewrite <- !app_assoc.
    unfold over_limit. destruct (Z.ltb_spec (selector_value_limit settings) (size (out ++ a ++ e))) as [Hlt|].
    + intros _ [_ Hf]. specialize (Hle (out ++ a ++ e) (substitute c replacement v ms (m_end m))). lia.
    + apply IH. by rewrite !plain_app, Ho, Ha, He.
Qed.

(** One transform. *)
Lemma bounded_exact t v : fits v → plain_arguments t →
  match _bounded settings t v with
  | Ok w => meaning t v = Some w ∧ fits w
  | Raise _ => ∀ w, meaning t v = Some w → ¬ fits w
  end.
Proof.
  intros Hv Ht. unfold _bounded. pose proof (checked_spec v) as Hc.
  destruct (checked_selector_value_size settings v); [|done]. clear Hc. cbn [tbind].
  assert (match run_transform settings t v with
          | Ok w => meaning t v = Some w | Raise _ => ∀ w, meaning t v = Some w → ¬ fits w end) as Hr.
  { assert (∀ m w, exact m w → match m with Ok w' => Some w = Some w' | Raise _ => ∀ w', Some w = Some w' → ¬ fits w' end) as Hex.
    { intros [x|e] w; cbn; [by intros [-> _]|]. by intros ? ? [= <-]. }
    destruct t as [| | | |p|p|old new|needle|p|p|c|fallback|c replacement];
      cbn [run_transform meaning plain_arguments] in *; try done.
    - by apply Hex, (concat_exact v p true).
    - by apply Hex, (concat_exact v p false).
    - destruct Ht. by apply Hex, literal_exact.
    - by apply Hex, literal_exact.
    - destruct (search c v) as [[m|]|]; [|done|done]. cbn. by destruct (m_groups m).
    - case_bool_decide as Hs.
      + rewrite Hs. apply Hex. apply (concat_exact [] fallback false). split; [done|]. destruct Hv as [_ Hv].
        pose proof (size_length v). change (size []) with 0. lia.
      + by destruct (strip v).
    - unfold _bounded_regex_replace. pose proof (checked_spec v) as Hc.
      destruct (checked_selector_value_size settings v); [|done]. cbn [tbind]. destruct (finditer c v) as [ms timed_out].
      pose proof (matches_exact c replacement v ms timed_out [] 0 eq_refl) as Hm. change (size []) with 0 in Hm. cbn [app] in Hm.
      destruct (replace_matches _ _ _ _ _ _ _ _ _) as [w|].
      + by destruct Hm as (-> & -> & _).
      + destruct timed_out; [done|]. intros w [= <-]. by apply Hm. }
  destruct (run_transform settings t v) as [w|]; [|done]. cbn [tbind]. pose proof (checked_spec w) as Hw.
  destruct (checked_selector_value_size settings w); cbn [tbind].
  - by destruct Hw.
  - intros w' Hw'. rewrite Hr in Hw'. injection Hw' as <-. done.
Qed.

Lemma apply_exact ts v : fits v → Forall plain_arguments ts →
  match apply_from settings ts v with Ok w => reference ts v = Some w | Raise _ => reference ts v = None end.
Proof.
  intros Hv Hts. revert v Hv. induction Hts as [|t ts Ht Hts IH]; intros v Hv; cbn [apply_from reference]; rewrite bool_decide_true by done; [done|].
  pose proof (bounded_exact t v Hv Ht) as Hb. destruct (_bounded settings t v) as [w|]; cbn [tbind].
  - destruct Hb as [-> Hw]. pose proof (checked_spec w) as Hc. destruct (checked_selector_value_size settings w); [|done].
    cbn [tbind]. by apply IH.
  - destruct (meaning t v) as [w|]; [|done]. cbn. specialize (Hb w eq_refl).
    destruct ts; cbn; by rewrite bool_decide_false.
Qed.
End values.

(** The limits change nothing but refuse what is too large: a pipeline returns a value
    exactly if the same pipeline without any size prediction gives that value, no search
    times out, and the input, every intermediate value and the result have an encoding of
    at most the limit. The sizes predicted before a concatenation or a replacement are
    exact, for an empty text to replace as well. *)
Theorem limited_pipeline_is_exact `{RegexLib} settings ts value w :
  Forall plain_arguments ts → (apply_transforms settings value ts = Ok w ↔ reference settings ts value = Some w).
Proof.
  intros Hts. unfold apply_transforms. pose proof (checked_spec settings value) as Hc.
  destruct (checked_selector_value_size settings value); cbn [tbind].
  - destruct Hc as [Hv _]. pose proof (apply_exact settings ts value Hv Hts) as He.
    destruct (apply_from settings ts value); rewrite He; split; congruence.
  - assert (reference settings ts value = None) as ->; [|done]. destruct ts; cbn; by rewrite bool_decide_false.
Qed.

(** ** A concrete library: literal patterns *)

Section sample.
(** The occurrences of a text, left to right. *)
Fixpoint occurrences (fuel at_ : nat) (p s : ustr) : list rmatch :=
  match fuel, s with
  | S fuel, _ :: s' =>
      match cut p s with
      | Some rest =>
          {| m_start := at_; m_end := at_ + length p; m_groups := []; m_id := 0 |} :: occurrences fuel (at_ + length p) p rest
      | None => occurrences fuel (S at_) p s'
      end
  | _, _ => []
  end.
(** A pattern of n characters compiles to n + 1 nodes. *)
Definition sample_parse (p : ustr) : regex_parse :=
  Parsed (Node false false true false 0 (Some (Z.of_nat (length p))) [Node false false true false 0 None []]).
Definition ascii_lower (s : ustr) : ustr := map (λ c, if (65 <=? c) && (c <=? 90) then c + 32 else c) s.

Program Definition sample_regex : RegexLib := {|
  pattern := ustr;
  _parse_regex := sample_parse;
  compile := Some;
  groups _ := 0;
  search p s := Some (head (occurrences (length s) 0 p s));
  finditer p s := (occurrences (length s) 0 p s, false);
  expand _ _ replacement := replacement;
  _compile_replacement _ replacement := Some [inl replacement];
  alnum _ := false;
  str_lower := ascii_lower;
  str_upper s := s;
|}.
Next Obligation. intros p c _. by eexists. Qed.

Definition sample_settings : Settings :=
  {| transform_max_pipeline_steps := 3; transform_max_value_bytes := 12; transform_regex_max_pattern_bytes := 2048 |}.

Lemma config_patterns_bounded_witness :
  ∃ sources, Forall2 (λ s c, @compile sample_regex s = Some c) sources [u "ab"; u "c"] ∧
    @total_nodes sample_regex sources ≤ _MAX_CONFIG_REGEX_EXPANSION ∧
    Forall (λ s, @pattern_nodes sample_regex s ≤ _MAX_REGEX_EXPANSION) sources.
Proof.
  exact (@config_patterns_bounded sample_regex sample_settings
    [u "trim|regex:ab:x"; u "extract:c"]
    [[@trim sample_regex; @regex_replace sample_regex (u "ab") (u "x")]; [@extract sample_regex (u "c")]]
    (Some 99995) ltac:(vm_compute; reflexivity)).
Defined.

(** Twelve bytes are allowed: a replacement that needs thirteen is refused, after one that
    needs twelve. *)
Definition sample_pipeline : list (@transform sample_regex) :=
  [@replace_text sample_regex (u "-") (u "--"); @replace_text sample_regex [] (u ".")].
Lemma limited_pipeline_is_exact_witness :
  @apply_transforms sample_regex sample_settings (u "a-b") sample_pipeline = Ok (u ".a.-.-.b.") ∧
  @reference sample_regex sample_settings sample_pipeline (u "a-b") = Some (u ".a.-.-.b.").
Proof.
  assert (Forall (@plain_arguments sample_regex) sample_pipeline) as Hp by repeat (constructor; try (split; reflexivity)).
  assert (@apply_transforms sample_regex sample_settings (u "a-b") sample_pipeline = Ok (u ".a.-.-.b.")) as Ha by (vm_compute; reflexivity).
  exact (conj Ha (proj1 (@limited_pipeline_is_exact sample_regex sample_settings sample_pipeline (u "a-b") (u ".a.-.-.b.") Hp) Ha)).
Defined.
Example too_large : @apply_transforms sample_regex sample_settings (u "a-bc-d") sample_pipeline = Raise (TransformOutputLimitError 17 12).
Proof. by vm_compute. Qed.
End sample.

(** * The syntax of selector transforms: printing and reading back

    A pipeline of calls with quoted arguments, joined by bars, is read back as these calls,
    whatever the arguments contain: bars, commas, parentheses, quotes or backslashes. *)

(** ** Printing *)

Record call_text := { call_name : ustr; call_args : list ustr }.

(** An argument in quotes, its own quotes doubled. *)
Definition doubled (a : ustr) : ustr := flat_map (λ c, if c =? 34 then [34; 34] else [c]) a.
Definition quoted (a : ustr) : ustr := 34 :: doubled a ++ [34].
Definition args_text (l : list ustr) : ustr :=
  match l with a :: l => quoted a ++ flat_map (λ b, 44 :: quoted b) l | [] => [] end.
Definition print_call (c : call_text) : ustr := call_name c ++ 40 :: args_text (call_args c) ++ [41].
Definition print_rest (l : list call_text) : ustr := flat_map (λ c, [32; 124; 32] ++ print_call c) l.
Definition print_pipeline (l : list call_text) : ustr :=
  match l with c :: l => print_call c ++ print_rest l | [] => [] end.

(** An ASCII letter, digit or underscore. *)
Definition name_char (c : Z) : bool :=
  ((48 <=? c) && (c <=? 57)) || ((65 <=? c) && (c <=? 90)) || (c =? 95) || ((97 <=? c) && (c <=? 122)).
(** An argument has no line feed and is not longer than a field of [csv] may be. *)
Definition arg_ok (a : ustr) : Prop := 10 ∉ a ∧ Z.of_nat (length a) ≤ field_size_limit.
Record call_ok (c : call_text) : Prop := {
  name_some : call_name c ≠ [];
  name_chars : forallb name_char (call_name c) = true;
  args_ok : Forall arg_ok (call_args c);
}.

Example print_replace :
  print_pipeline [{| call_name := u "trim"; call_args := [] |};
                  {| call_name := u "replace"; call_args := [u "a|b"; u ")"] |}] = u "trim() | replace(" ++
    [34] ++ u "a|b" ++ [34; 44; 34] ++ u ")" ++ [34] ++ u ")".
Proof. by vm_compute. Qed.

Section syntax.
Context `{RegexLib} (settings : Settings).

(** ** Characters *)

Lemma name_char_word c : name_char c = true → word_char c = true.
Proof. unfold name_char, word_char. intros ->. done. Qed.
Lemma name_char_range c : name_char c = true →
  isspace c = false ∧ c ≠ 34 ∧ c ≠ 40 ∧ c ≠ 41 ∧ c ≠ 58 ∧ c ≠ 91 ∧ c ≠ 92 ∧ c ≠ 93 ∧ c ≠ 124 ∧ c ≠ 10.
Proof.
  intros Hc. assert (48 ≤ c ≤ 57 ∨ 65 ≤ c ≤ 90 ∨ c = 95 ∨ 97 ≤ c ≤ 122) as Hr.
  { unfold name_char in Hc. repeat (apply orb_true_iff in Hc as [Hc|Hc]); rewrite ?andb_true_iff, ?Z.leb_le, ?Z.eqb_eq in Hc; lia. }
  split_and!; try lia. unfold isspace. repeat (apply orb_false_iff; split);
    rewrite ?andb_false_iff, ?Z.leb_gt, ?Z.eqb_neq; lia.
Qed.

Lemma span_all p a b : forallb p a = true → match b with c :: _ => p c = false | [] => True end → span p (a ++ b) = (a, b).
Proof.
  induction a as [|c a IH]; cbn.
  - intros _ Hb. destruct b as [|c b]; [done|]. cbn. by rewrite Hb.
  - intros [-> Ha]%andb_true_iff Hb. by rewrite IH.
Qed.
Lemma word_span name rest : forallb name_char name = true → span word_char (name ++ 40 :: rest) = (name, 40 :: rest).
Proof.
  intros Hn. apply span_all; [|done]. apply forallb_forall. intros c Hc. by apply name_char_word, (proj1 (forallb_forall _ _) Hn).
Qed.

(** ** Arguments *)

Lemma doubled_cons c a : doubled (c :: a) = (if c =? 34 then [34; 34] else [c]) ++ doubled a.
Proof. reflexivity. Qed.

Lemma csv_doubled a rest f fs :
  Z.of_nat (length f + length a) ≤ field_size_limit →
  csv_from (doubled a ++ 34 :: rest) {| csv_at := IN_QUOTED_FIELD; field := f; fields := fs |} =
  csv_from rest {| csv_at := QUOTE_IN_QUOTED_FIELD; field := f ++ a; fields := fs |}.
Proof.
  revert f. induction a as [|c a IH]; intros f Hl; [by rewrite app_nil_r|]. cbn [length] in Hl.
  assert (∀ st r, add_char c st {| csv_at := r; field := f; fields := fs |} =
    Ok {| csv_at := st; field := f ++ [c]; fields := fs |}) as Hadd.
  { intros st r. unfold add_char. cbn [field]. destruct (Z.leb_spec field_size_limit (Z.of_nat (length f))); [lia|done]. }
  assert (f ++ c :: a = (f ++ [c]) ++ a) as -> by by rewrite <- app_assoc.
  rewrite doubled_cons. destruct (Z.eqb_spec c 34) as [->|Hc].
  - cbn [app csv_from csv_char csv_at]. rewrite Z.eqb_refl. cbn [tbind]. cbn [csv_char csv_at move]. rewrite Z.eqb_refl.
    unfold move. cbn [field fields]. rewrite Hadd. cbn [tbind]. apply IH. rewrite length_app. cbn [length]. lia.
  - cbn [app csv_from csv_char csv_at]. destruct (Z.eqb_spec c 34); [done|]. rewrite Hadd. cbn [tbind]. apply IH.
    rewrite length_app. cbn [length]. lia.
Qed.

Lemma csv_args a l st fs :
  st = START_RECORD ∨ st = START_FIELD → Forall arg_ok (a :: l) →
  csv_from (args_text (a :: l)) {| csv_at := st; field := []; fields := fs |} = Ok (fs ++ a :: l).
Proof.
  revert a st fs. induction l as [|b l IH]; intros a st fs Hst [[_ Ha] Hl]%Forall_cons.
  - cbn [args_text flat_map]. rewrite app_nil_r. unfold quoted. 
    assert (csv_from (34 :: doubled a ++ [34]) {| csv_at := st; field := []; fields := fs |} =
      csv_from (doubled a ++ [34]) {| csv_at := IN_QUOTED_FIELD; field := []; fields := fs |}) as -> by by destruct Hst as [-> | ->].
    by rewrite csv_doubled.
  - assert (args_text (a :: b :: l) = 34 :: doubled a ++ 34 :: 44 :: args_text (b :: l)) as ->.
    { cbn [args_text flat_map]. unfold quoted. cbn [app]. by rewrite <- app_assoc. }
    assert (∀ r, csv_from (34 :: r) {| csv_at := st; field := []; fields := fs |} =
      csv_from r {| csv_at := IN_QUOTED_FIELD; field := []; fields := fs |}) as -> by by destruct Hst as [-> | ->].
    rewrite csv_doubled by done.
    change (csv_from (44 :: args_text (b :: l)) {| csv_at := QUOTE_IN_QUOTED_FIELD; field := [] ++ a; fields := fs |})
      with (csv_from (args_text (b :: l)) {| csv_at := START_FIELD; field := []; fields := fs ++ [a] |}).
    rewrite IH by (done || by right). by rewrite <- app_assoc.
Qed.

Lemma closed_doubled a rest : match rest with c :: _ => c ≠ 34 | [] => True end → closed (doubled a ++ 34 :: rest) = Some rest.
Proof.
  intros Hr. induction a as [|c a IH].
  - cbn. destruct rest as [|c rest]; [done|]. by destruct (Z.eqb_spec c 34).
  - rewrite doubled_cons. destruct (Z.eqb_spec c 34) as [->|Hc].
    + cbn [app closed]. rewrite Z.eqb_refl. by rewrite IH.
    + cbn [app closed]. destruct (Z.eqb_spec c 34); [done|]. exact IH.
Qed.
Lemma raw_fields_args fuel a l : (length l < fuel)%nat → raw_fields fuel (args_text (a :: l)) = replicate (S (length l)) true.
Proof.
  revert fuel a. induction l as [|b l IH]; intros fuel a Hf; (destruct fuel as [|fuel]; [cbn in Hf; lia|]).
  - cbn [raw_fields args_text flat_map]. rewrite app_nil_r. unfold raw_field, quoted. cbn [span]. cbn.
    by rewrite (closed_doubled a []).
  - assert (args_text (a :: b :: l) = 34 :: doubled a ++ 34 :: 44 :: args_text (b :: l)) as ->.
    { cbn [args_text flat_map]. unfold quoted. cbn [app]. by rewrite <- app_assoc. }
    cbn [raw_fields]. unfold raw_field at 1. cbn [span]. change (34 =? 32) with false. cbn [fst snd].
    change (34 =? 34) with true. cbn iota. rewrite closed_doubled by done.
    change (span (λ c, negb (c =? 44)) (44 :: args_text (b :: l))) with (@nil Z, 44 :: args_text (b :: l)). cbn [snd].
    rewrite IH by (cbn in Hf; lia). done.
Qed.

Lemma parse_args_text l : Forall arg_ok l → _parse_args (args_text l) = Ok l.
Proof.
  intros Hl. destruct l as [|a l]; [done|]. unfold _parse_args.
  destruct (args_text (a :: l)) as [|c t] eqn:E; [done|]. rewrite <- E. unfold csv_row.
  rewrite csv_args by (done || by left). cbn [tbind app].
  assert (length l < S (length (args_text (a :: l))))%nat as Hfuel.
  { clear. cbn [args_text]. rewrite length_app. assert (length l ≤ length (flat_map (λ b, 44%Z :: quoted b) l))%nat; [|lia].
    induction l as [|b l IH]; [done|]. cbn. rewrite length_app. lia. }
  rewrite raw_fields_args by done. rewrite length_replicate, Nat.eqb_refl. f_equal.
  assert (∀ k : list ustr, zip_with (λ part (q : bool), if q then part else strip part) k (replicate (length k) true) = k) as Hz.
  { induction k as [|x k IH]; [done|]. cbn. by f_equal. }
  exact (Hz (a :: l)).
Qed.

(** ** One call *)

Lemma args_text_no_newline l : Forall arg_ok l → 10 ∉ args_text l.
Proof.
  assert (∀ a, arg_ok a → 10 ∉ quoted a) as Hq.
  { intros a [Ha _]. unfold quoted. rewrite not_elem_of_cons, not_elem_of_app. split_and!; [done| |by rewrite not_elem_of_cons, elem_of_nil; intuition].
    induction a as [|c a IH]; [by apply not_elem_of_nil|]. apply not_elem_of_cons in Ha as [Hc Ha]. rewrite doubled_cons, not_elem_of_app. split; [|by apply IH].
    destruct (c =? 34); rewrite !not_elem_of_cons; split_and!; try done; apply not_elem_of_nil. }
  intros Hl. destruct l as [|a l]; [by apply not_elem_of_nil|]. apply Forall_cons in Hl as [Ha Hl]. cbn [args_text].
  rewrite not_elem_of_app. split; [by apply Hq|]. induction Hl as [|b l Hb Hl IH]; [by apply not_elem_of_nil|]. cbn [flat_map].
  rewrite not_elem_of_app, not_elem_of_cons. split_and!; [done|by apply Hq|done].
Qed.

Lemma call_read c : call_ok c → name_and_args (print_call c) = Ok (call_name c, call_args c).
Proof.
  intros [Hn Hc Ha]. unfold name_and_args, func_match, print_call. rewrite word_span by done.
  destruct (call_name c) as [|x name] eqn:E; [done|]. rewrite <- E.
  change (40 =? 40) with true. cbn iota zeta. rewrite last_snoc.
  rewrite (bool_decide_false (Some 41 = Some 10)) by done. rewrite last_snoc, removelast_last, bool_decide_true by done.
  assert (existsb (λ c, c =? 10) (args_text (call_args c)) = false) as ->.
  { apply existsb_elem_false. intros y Hy. apply Z.eqb_neq. intros ->. by apply (args_text_no_newline _ Ha) in Hy. }
  cbn [negb andb]. by rewrite parse_args_text.
Qed.

(** ** Splitting *)

(** The state inside a step, outside quotes. *)
Definition at_step (l : list ustr) (cur : ustr) (prefix par : Z) : splitter :=
  {| steps := l; current := cur; prefix_end := prefix; pattern_end := -1; quote_open := false; parentheses := par;
     character_class := false |}.
Lemma advance_at w l cur prefix par : advance w (at_step l cur prefix par) = at_step l (cur ++ w) prefix par.
Proof. reflexivity. Qed.

(** Not a character that the splitter looks for. *)
Definition ordinary (c : Z) : bool :=
  negb ((c =? 34) || (c =? 40) || (c =? 41) || (c =? 91) || (c =? 92) || (c =? 93) || (c =? 124)).

Lemma ordinary_char c l cur prefix par :
  ordinary c = true → plain_char c (at_step l cur prefix par) = at_step l (cur ++ [c]) prefix par.
Proof.
  intros Hc. unfold ordinary in Hc. apply negb_true_iff in Hc. repeat (apply orb_false_iff in Hc as [Hc ?]).
  unfold plain_char. by repeat match goal with H : (c =? _) = false |- _ => rewrite H end.
Qed.
Lemma ordinary_backslash c : ordinary c = true → (c =? 92) = false.
Proof. unfold ordinary. intros Hc. apply negb_true_iff in Hc. repeat (apply orb_false_iff in Hc as [Hc ?]). done. Qed.

Lemma split_plain c rest s s' :
  begin_step (c :: rest) s = s' → quote_open s' = false → (c =? 92) = false →
  split_from (c :: rest) s = split_from rest (plain_char c s').
Proof. intros <- Hq Hc. cbn [split_from]. by rewrite Hq, Hc. Qed.

Lemma split_ordinary w rest l cur prefix par :
  forallb ordinary w = true → cur ≠ [] →
  split_from (w ++ rest) (at_step l cur prefix par) = split_from rest (at_step l (cur ++ w) prefix par).
Proof.
  revert cur. induction w as [|c w IH]; intros cur Hw Hcur; [by rewrite app_nil_r|].
  cbn [forallb] in Hw. apply andb_true_iff in Hw as [Hc Hw]. cbn [app].
  rewrite (split_plain _ _ _ (at_step l cur prefix par)); [|by destruct cur|done|by apply ordinary_backslash].
  rewrite ordinary_char, IH by (done || by destruct cur). by rewrite <- app_assoc.
Qed.

Lemma split_first c w rest l prefix par n :
  forallb ordinary (c :: w) = true → step_prefix (c :: w ++ rest) = (n, -1) →
  split_from (c :: w ++ rest) (at_step l [] prefix par) = split_from rest (at_step l (c :: w) n par).
Proof.
  intros Hw Hp. cbn [forallb] in Hw. apply andb_true_iff in Hw as [Hc Hw].
  rewrite (split_plain _ _ _ (at_step l [] n par)); [|unfold begin_step; cbn [current at_step]; by rewrite Hp|done|by apply ordinary_backslash].
  rewrite ordinary_char by done. by apply split_ordinary.
Qed.

Lemma split_in_quotes a rest l k prefix par :
  k ≠ [] → match rest with c :: _ => c ≠ 34 | [] => True end →
  split_from (doubled a ++ 34 :: rest) (set_quote true (at_step l k prefix par)) =
  split_from rest (at_step l (k ++ doubled a ++ [34]) prefix par).
Proof.
  intros Hk Hr. revert k Hk. induction a as [|c a IH]; intros k Hk.
  - destruct k as [|x k]; [done|]. cbn [app doubled flat_map split_from begin_step current set_quote at_step quote_open].
    change (34 =? 34) with true. cbn iota. destruct rest as [|y rest]; [done|].
    by destruct (Z.eqb_spec y 34).
  - rewrite doubled_cons. destruct k as [|x k]; [done|].
    destruct (Z.eqb_spec c 34) as [->|Hc]; cbn [app split_from begin_step current set_quote at_step quote_open].
    + change (34 =? 34) with true. cbn iota.
      change (advance [34; 34] (set_quote true (at_step l (x :: k) prefix par))) with
        (set_quote true (at_step l ((x :: k) ++ [34; 34]) prefix par)).
      etransitivity; [apply IH; by destruct k|]. by rewrite <- app_assoc.
    + destruct (Z.eqb_spec c 34); [done|].
      change (advance [c] (set_quote true (at_step l (x :: k) prefix par))) with
        (set_quote true (at_step l ((x :: k) ++ [c]) prefix par)).
      etransitivity; [apply IH; by destruct k|]. by rewrite <- app_assoc.
Qed.

Lemma split_quoted a rest l cur prefix par :
  cur ≠ [] → par ≠ 0 → match rest with c :: _ => c ≠ 34 | [] => True end →
  split_from (quoted a ++ rest) (at_step l cur prefix par) = split_from rest (at_step l (cur ++ quoted a) prefix par).
Proof.
  intros Hcur Hpar Hr. unfold quoted. cbn [app].
  rewrite (split_plain _ _ _ (at_step l cur prefix par)) by (done || by destruct cur).
  assert (plain_char 34 (at_step l cur prefix par) = set_quote true (at_step l (cur ++ [34]) prefix par)) as ->.
  { unfold plain_char. cbn [parentheses at_step]. by destruct (Z.eqb_spec par 0). }
  rewrite <- app_assoc. cbn [app]. rewrite split_in_quotes by (done || by destruct cur). by rewrite <- !app_assoc.
Qed.

Lemma split_args args rest l cur prefix :
  cur ≠ [] → split_from (args_text args ++ 41 :: rest) (at_step l cur prefix 1) =
  split_from (41 :: rest) (at_step l (cur ++ args_text args) prefix 1).
Proof.
  assert (∀ args cur, cur ≠ [] →
    split_from (flat_map (λ b, 44 :: quoted b) args ++ 41 :: rest) (at_step l cur prefix 1) =
    split_from (41 :: rest) (at_step l (cur ++ flat_map (λ b, 44 :: quoted b) args) prefix 1)) as Hgo.
  { clear. induction args as [|b args IH]; intros cur Hcur; [by rewrite app_nil_r|]. cbn [flat_map app].
    rewrite (split_plain 44 _ _ (at_step l cur prefix 1)) by (done || by destruct cur).
    rewrite ordinary_char, <- app_assoc by done.
    rewrite split_quoted by (lia || (destruct cur; discriminate) || (destruct args; cbn; lia)). rewrite IH by by destruct cur.
    by rewrite <- !app_assoc. }
  intros Hcur. destruct args as [|a args]; [by rewrite app_nil_r|]. cbn [args_text]. rewrite <- app_assoc.
  rewrite split_quoted by (done || lia || (destruct args; cbn; lia)). rewrite Hgo by by destruct cur. by rewrite <- app_assoc.
Qed.

Lemma name_ordinary name : forallb name_char name = true → forallb ordinary name = true.
Proof.
  rewrite !forallb_forall. intros Hn c Hc. destruct (name_char_range c (Hn c Hc)) as (_ & ? & ? & ? & ? & ? & ? & ? & ? & _).
  unfold ordinary. apply negb_true_iff. repeat (apply orb_false_iff; split); by apply Z.eqb_neq.
Qed.

Lemma cut_word (p name rest : ustr) :
  name ≠ [] → forallb name_char name = true → span word_char p = (removelast p, [58]) → p = removelast p ++ [58] →
  cut p (name ++ 40 :: rest) = None.
Proof.
  intros Hne Hn Hp Hp'. destruct (cut p (name ++ 40 :: rest)) as [r|] eqn:E; [|done]. apply cut_Some in E.
  assert (span word_char (p ++ r) = (removelast p, 58 :: r)) as Hs.
  { rewrite Hp' at 1. rewrite <- app_assoc. apply span_all; [|done].
    clear -Hp Hp'. revert Hp Hp'. generalize (removelast p). intros q Hs ->. revert Hs.
    induction q as [|x q IH]; [done|]. cbn. destruct (word_char x); [|done].
    destruct (span word_char (q ++ [58])) as [a b] eqn:Es. intros [= -> ->]. by apply IH. }
  rewrite <- E, word_span in Hs by done. congruence.
Qed.

Lemma call_prefix lead name rest :
  forallb isspace lead = true → name ≠ [] → forallb name_char name = true →
  step_prefix (lead ++ name ++ 40 :: rest) = (Z.of_nat (length lead + length name + 1), -1).
Proof.
  intros Hl Hne Hn. unfold step_prefix, pipeline_prefix. rewrite span_all; [|done|].
  2: { destruct name as [|x name]; [done|]. cbn in *. apply andb_true_iff in Hn as [Hx _]. by destruct (name_char_range x Hx). }
  rewrite (cut_word (u "extract:")), (cut_word (u "regex:")) by done. rewrite word_span by done.
  cbn [span]. change (isspace 40) with false. cbn iota. destruct name as [|x name'] eqn:E; [done|]. rewrite <- E.
  cbn [length]. f_equal. lia.
Qed.

Lemma split_call lead c rest l prefix :
  lead = [] ∨ lead = [32] → call_ok c →
  ∃ n, split_from (lead ++ print_call c ++ rest) (at_step l [] prefix 0) = split_from rest (at_step l (lead ++ print_call c) n 0).
Proof.
  intros Hlead [Hne Hn Ha]. exists (Z.of_nat (length lead + length (call_name c) + 1)).
  unfold print_call. cbn [app]. rewrite <- !app_assoc. cbn [app].
  assert (forallb isspace lead = true ∧ forallb ordinary lead = true) as [Hs Ho] by by destruct Hlead as [-> | ->].
  pose proof (call_prefix lead (call_name c) ((args_text (call_args c) ++ [41]) ++ rest) Hs Hne Hn) as Hp.
  rewrite <- app_assoc in Hp. cbn [app] in Hp.
  assert (forallb ordinary (lead ++ call_name c) = true) as How by (rewrite forallb_app, Ho; by apply name_ordinary).
  rewrite app_assoc. rewrite app_assoc in Hp.
  destruct (lead ++ call_name c) as [|x w] eqn:E; [by destruct lead, (call_name c)|].
  rewrite <- (app_assoc (args_text _)). cbn [app] in Hp |- *. rewrite (split_first _ _ _ _ _ _ _ How Hp).
  rewrite (split_plain _ _ _ (at_step l (x :: w) (Z.of_nat (length lead + length (call_name c) + 1)) 0)) by done.
  assert (plain_char 40 (at_step l (x :: w) (Z.of_nat (length lead + length (call_name c) + 1)) 0) =
    at_step l ((x :: w) ++ [40]) (Z.of_nat (length lead + length (call_name c) + 1)) 1) as ->.
  { unfold plain_char. cbn [parentheses character_class prefix_end at_step].
    assert (index (at_step l (x :: w) (Z.of_nat (length lead + length (call_name c) + 1)) 0) + 1 =
      Z.of_nat (length lead + length (call_name c) + 1)) as ->.
    { unfold index. cbn [current at_step]. apply (f_equal length) in E. rewrite length_app in E. lia. }
    rewrite !Z.eqb_refl, !orb_true_r. done. }
  rewrite split_args by done.
  rewrite (split_plain _ _ _ (at_step l (((x :: w) ++ [40]) ++ args_text (call_args c)) (Z.of_nat (length lead + length (call_name c) + 1)) 1)) by done.
  assert (lead ++ call_name c ++ 40 :: args_text (call_args c) ++ [41] = (((x :: w) ++ [40]) ++ args_text (call_args c)) ++ [41]) as ->.
  { rewrite <- E, <- !app_assoc. done. }
  done.
Qed.

Lemma strip_call lead trail c :
  forallb isspace lead = true → forallb isspace trail = true → call_ok c → strip (lead ++ print_call c ++ trail) = print_call c.
Proof.
  intros Hl Ht [Hne Hn _].
  assert (∀ a b, forallb isspace a = true → match b with c :: _ => isspace c = false | [] => True end →
    lstrip_by isspace (a ++ b) = b) as Hs.
  { clear. intros a b. induction a as [|c a IH]; cbn; [|intros [-> ?]%andb_true_iff; by apply IH].
    intros _. destruct b as [|c b]; [done|]. intros Hc. cbn. by rewrite Hc. }
  unfold strip. rewrite Hs; [|done|].
  2: { unfold print_call. destruct (call_name c) as [|x name]; [done|]. cbn in *. apply andb_true_iff in Hn as [Hx _].
       by destruct (name_char_range x Hx). }
  rewrite rev_app_distr, Hs; [by apply rev_involutive| |].
  - rewrite forallb_forall in *. intros x Hx%in_rev. by apply Ht.
  - unfold print_call. change (call_name c ++ 40 :: args_text (call_args c) ++ [41]) with
      (call_name c ++ (40 :: args_text (call_args c)) ++ [41]). by rewrite !app_assoc, rev_app_distr.
Qed.

Lemma last_default {A} (x : A) l d d' : List.last (x :: l) d = List.last (x :: l) d'.
Proof. revert x. induction l as [|y l IH]; intros x; [done|]. apply IH. Qed.

Lemma split_rest l cur n steps0 :
  Forall call_ok l → cur ≠ [] →
  ∃ n' cur', split_from (print_rest l) (at_step steps0 cur n 0) =
    at_step (steps0 ++ removelast (strip (cur ++ match l with [] => [] | _ => [32] end) :: map print_call l)) cur' n' 0 ∧
    strip cur' = List.last (map print_call l) (strip cur).
Proof.
  intros Hl. revert cur n steps0. induction Hl as [|c l Hc Hl IH]; intros cur n steps0 Hcur.
  - exists n, cur. cbn. by rewrite !app_nil_r.
  - change (print_rest (c :: l)) with (32 :: 124 :: 32 :: print_call c ++ print_rest l).
    rewrite (split_plain 32 _ _ (at_step steps0 cur n 0)) by (done || by destruct cur). rewrite ordinary_char by done.
    rewrite (split_plain 124 _ _ (at_step steps0 (cur ++ [32]) n 0)) by (done || by destruct cur).
    change (plain_char 124 (at_step steps0 (cur ++ [32]) n 0)) with (at_step (steps0 ++ [strip (cur ++ [32])]) [] n 0).
    destruct (split_call [32] c (print_rest l) (steps0 ++ [strip (cur ++ [32])]) n) as [m Hm]; [by right|done|].
    cbn [app] in Hm. rewrite Hm.
    destruct (IH (32 :: print_call c) m (steps0 ++ [strip (cur ++ [32])])) as (n' & cur' & Hs & Hcur'); [done|].
    exists n', cur'. rewrite Hs. pose proof (strip_call [32] [] c eq_refl eq_refl Hc) as H1. rewrite app_nil_r in H1.
    pose proof (strip_call [32] [32] c eq_refl eq_refl Hc) as H2. cbn [app] in H1, H2.
    split.
    + rewrite <- app_assoc. f_equal. destruct l as [|d l].
      * done.
      * change ((32 :: print_call c) ++ [32]) with (32 :: print_call c ++ [32]). rewrite H2. done.
    + rewrite Hcur', H1. cbn [map]. destruct l as [|d l]; [done|]. apply (last_default _ (map print_call l)).
Qed.

Lemma split_printed c l :
  Forall call_ok (c :: l) → split_transform_pipeline (print_pipeline (c :: l)) = Ok (map print_call (c :: l)).
Proof.
  intros [Hc Hl]%Forall_cons. unfold split_transform_pipeline, print_pipeline.
  change split_start with (at_step [] [] (-1) 0). destruct (split_call [] c (print_rest l) [] (-1)) as [n Hn]; [by left|done|].
  cbn [app] in Hn. rewrite Hn. pose proof (strip_call [] [] c eq_refl eq_refl Hc) as H1.
  pose proof (strip_call [] [32] c eq_refl eq_refl Hc) as H2. cbn [app] in H1, H2. rewrite app_nil_r in H1.
  destruct (split_rest l (print_call c) n [] Hl) as (m & cur & -> & Hcur); [unfold print_call; by destruct (call_name c)|].
  cbn [quote_open parentheses character_class at_step steps current app negb]. change (negb (0 =? 0)) with false. cbn iota.
  rewrite Hcur, H1. f_equal. destruct l as [|d l]; [done|]. rewrite H2. cbn [map].
  rewrite (app_removelast_last (print_call c) (l := print_call c :: print_call d :: map print_call l)) at 2 by done.
  f_equal.
Qed.

Fixpoint make_calls (l : list call_text) : tprog (list transform) :=
  match l with
  | [] => pret []
  | c :: l => let! t := make_transform settings (call_name c) (call_args c) in let! ts := make_calls l in pret (t :: ts)
  end.
Lemma parse_calls l budget : Forall call_ok l → parse_steps settings (map print_call l) budget = make_calls l budget.
Proof.
  intros Hl. revert budget. induction Hl as [|c l Hc Hl IH]; intros budget; [done|]. cbn [map parse_steps make_calls].
  unfold pbind at 1 3. unfold parse_transform, pbind at 1, lift at 1. rewrite call_read by done. cbn [fst snd].
  destruct (make_transform settings (call_name c) (call_args c) budget) as [[t|e] b]; [|done].
  unfold pbind. by rewrite IH.
Qed.
End syntax.

(** [C19] A printed pipeline is read back: calls of a name (of ASCII letters, digits and
    underscores) with quoted arguments, joined by bars, parse to exactly the transforms of
    these names and arguments (or the error that these give), quotes, bars, parentheses and
    commas in the arguments included; if there are not too many calls, and every argument
    is free of line feeds (which the pattern of a call does not match) and no longer than a
    field of [csv] may be. *)
Theorem printed_pipeline_parses `{RegexLib} settings calls budget :
  Forall call_ok calls → calls ≠ [] → Z.of_nat (length calls) ≤ transform_max_pipeline_steps settings →
  parse_transform_pipeline settings (print_pipeline calls) budget = make_calls settings calls budget.
Proof.
  intros Hc Hne Hl. destruct calls as [|c l]; [done|]. unfold parse_transform_pipeline, pbind, lift.
  rewrite split_printed by done. rewrite length_map.
  destruct (Z.ltb_spec (transform_max_pipeline_steps settings) (Z.of_nat (length (c :: l)))); [lia|].
  assert (existsb (λ s, bool_decide (s = [])) (map print_call (c :: l)) = false) as ->.
  { apply existsb_elem_false. intros s Hs. apply bool_decide_false. intros ->.
    apply list_elem_of_In, in_map_iff in Hs as (d & Hd & _). unfold print_call in Hd. by destruct (call_name d). }
  by apply parse_calls.
Qed.

Definition sample_calls : list call_text :=
  [{| call_name := u "replace"; call_args := [u "a|b, (" ++ [34; 92]; u ""] |}; {| call_name := u "regex"; call_args := [u "x"; u "y)"] |}].
Lemma printed_pipeline_parses_witness :
  @parse_transform_pipeline sample_regex sample_settings (print_pipeline sample_calls) (Some 10) =
    @make_calls sample_regex sample_settings sample_calls (Some 10) ∧
  @make_calls sample_regex sample_settings sample_calls (Some 10) =
    (Ok [@replace_text sample_regex (u "a|b, (" ++ [34; 92]) []; @regex_replace sample_regex (u "x") (u "y)")], Some 8).
Proof.
  split; [|vm_compute; reflexivity]. apply printed_pipeline_parses; [|discriminate|vm_compute; discriminate].
  repeat constructor; try discriminate; try (vm_compute; reflexivity); try (vm_compute; discriminate);
    apply (bool_decide_unpack _); vm_compute; exact I.
Defined.
