(* ===== verification/Outbox.v ===== *)
(** * The webhook outbox ([storage/webhook_outbox.py])

    A delivery is a row of [webhook_deliveries]: pending until it is delivered or dead,
    then scrubbed of its secrets and kept as a tombstone. JSON text is the interface
    [JsonText], with the round trip the rows rely on. *)

From S2P Require Import Prelude.
From S2P Require Import Envelope.
From S2P Require Import Rows.
From S2P Require Import JobDb.
From S2P Require Import JobModel.
From S2P Require Import Json.
Open Scope Z_scope.

Record WebhookDeliveryCreate := {
  delivery_id : string;
  d_job_id : string;
  d_run_id : option string;
  d_event : string;
  d_url : string;
  d_headers : list (string * json);
  d_timeout_seconds : Z;
  d_payload : list (string * json);
  d_next_attempt_at : Z;
}.

(** [WebhookDelivery]: a decoded row. *)
Record WebhookDelivery := {
  wd_id : string;
  wd_row : WebhookRow;
  wd_url : string;
  wd_headers : list (string * json);
  wd_payload : list (string * json);
  wd_last_error : option string;
}.

(** [payload.get(key)] *)
Definition payload_get (m : list (string * json)) (key : string) : option json :=
  match list_find (λ x, x.1 = key) m with Some (_, (_, v)) => Some v | None => None end.
Definition payload_is (m : list (string * json)) (key : string) (s : string) : bool :=
  match payload_get m key with Some (JString t) => bool_decide (t = s) | _ => false end.

Definition url_purpose (id : string) : string := "webhook.url:" +:+ id.
Definition headers_purpose (id : string) : string := "webhook.headers_json:" +:+ id.
Definition payload_purpose (id : string) : string := "webhook.payload_json:" +:+ id.
Definition error_purpose (id : string) : string := "webhook.last_error:" +:+ id.

Section outbox.
Context `{Vault} `{JsonText}.

Definition delivery_row (u : entropy) (w : WebhookDeliveryCreate) (created_at : Z) : WebhookRow :=
  {| w_job_id := d_job_id w; w_run_id := d_run_id w; w_event := d_event w;
     w_url := protect_text u (url_purpose (delivery_id w)) (d_url w);
     w_headers_json := protect_text u (headers_purpose (delivery_id w)) (dumps (d_headers w));
     w_timeout_seconds := d_timeout_seconds w;
     w_payload_json := protect_text u (payload_purpose (delivery_id w)) (dumps (d_payload w));
     w_status := Delivery.pending; w_attempts := 0; w_next_attempt_at := d_next_attempt_at w;
     w_last_attempt_at := None; w_delivered_at := None; w_failed_at := None;
     w_failure_reason := None; w_last_error := None; w_scrubbed_at := None;
     w_created_at := created_at; w_updated_at := created_at |}.

Definition insert_webhook_delivery (u : entropy) (w : WebhookDeliveryCreate) (created_at : Z) :
    sql bool :=
  if negb (payload_is (d_payload w) "delivery_id" (delivery_id w))
  then praise (ValueError "Webhook payload delivery_id must match the durable row ID")
  else
    let! n := insert_webhook_or_ignore (delivery_id w) (delivery_row u w created_at) in
    pret (n =? 1).

(** What decoding a row gives: the delivery, a malformed row, or an undecryptable one,
    whose error is not caught. *)
Inductive decoded := Decoded (w : WebhookDelivery) | DecodeFailed | Undecryptable.

Definition loads_dict (text : string) : option (list (string * json)) :=
  match loads text with Some (JObject m) => Some m | _ => None end.

Definition _decode_webhook_delivery (id : string) (w : WebhookRow) : decoded :=
  match reveal_text (url_purpose id) (w_url w) with
  | None => Undecryptable
  | Some url =>
      match reveal_text (headers_purpose id) (w_headers_json w) with
      | None => Undecryptable
      | Some headers_text =>
          match loads_dict headers_text with
          | None => DecodeFailed
          | Some headers =>
              match reveal_text (payload_purpose id) (w_payload_json w) with
              | None => Undecryptable
              | Some payload_text =>
                  match loads_dict payload_text with
                  | None => DecodeFailed
                  | Some payload =>
                      match w_last_error w with
                      | None => Decoded {| wd_id := id; wd_row := w; wd_url := url;
                                           wd_headers := headers; wd_payload := payload;
                                           wd_last_error := None |}
                      | Some e =>
                          match reveal_text (error_purpose id) e with
                          | None => Undecryptable
                          | Some t => Decoded {| wd_id := id; wd_row := w; wd_url := url;
                                                 wd_headers := headers; wd_payload := payload;
                                                 wd_last_error := Some t |}
                          end
                      end
                  end
              end
          end
      end
  end.

(** Every secret of a row is gone. *)
Definition scrub (at_ : Z) (w : WebhookRow) : WebhookRow :=
  set_w_updated_at at_ (set_w_scrubbed_at (Some at_) (set_w_last_error None
    (set_w_payload_json "{}" (set_w_timeout_seconds 0 (set_w_headers_json "{}"
      (set_w_url "" w)))))).

Definition quarantine (at_ : Z) (w : WebhookRow) : WebhookRow :=
  set_w_created_at at_ (set_w_failure_reason (Some decode_failure) (set_w_failed_at (Some at_)
    (set_w_delivered_at None (set_w_last_attempt_at None (set_w_next_attempt_at at_
      (set_w_attempts (Z.max 0 (w_attempts w)) (set_w_status Delivery.failed (scrub at_ w)))))))).

Definition is_pending (w : WebhookRow) : bool := bool_decide (w_status w = Delivery.pending).

Definition _quarantine_malformed_row (id : string) (failed_at : Z) : sql bool :=
  let! n := update_webhook id is_pending (quarantine failed_at) in pret (n =? 1).

Definition quarantine_malformed_delivery (id : string) (failed_at : Z) : store bool :=
  transaction (_quarantine_malformed_row id failed_at).

Definition enqueue_delivery (u : entropy) (w : WebhookDeliveryCreate) (now : Z) : store bool :=
  transaction (insert_webhook_delivery u w now).

Definition get_delivery (id : string) (now : Z) : store (option WebhookDelivery) := λ d,
  match webhook_deliveries d !! id with
  | None => (Ok None, d)
  | Some w =>
      match _decode_webhook_delivery id w with
      | Decoded wd => (Ok (Some wd), d)
      | Undecryptable => (Raise SecretDecryptionError, d)
      | DecodeFailed =>
          (do! quarantine_malformed_delivery id now in pret None) d
      end
  end.

(** [begin_attempt]: the compare-and-set is its own transaction; decoding comes after. *)
Definition reserve_attempt (id : string) (expected_attempts attempted_at : Z) :
    store (option WebhookRow) :=
  transaction (
    let! n := update_webhook id
      (λ w, is_pending w && (w_attempts w =? expected_attempts))
      (λ w, set_w_updated_at attempted_at (set_w_last_attempt_at (Some attempted_at)
              (set_w_attempts (w_attempts w + 1) w))) in
    if negb (n =? 1) then rollback_with None
    else query (λ d, webhook_deliveries d !! id)).

Definition begin_attempt (id : string) (expected_attempts attempted_at : Z) :
    store (option WebhookDelivery) :=
  let! row := reserve_attempt id expected_attempts attempted_at in
  match row with
  | None => pret None
  | Some w =>
      match _decode_webhook_delivery id w with
      | Decoded wd => pret (Some wd)
      | Undecryptable => praise SecretDecryptionError
      | DecodeFailed => do! quarantine_malformed_delivery id attempted_at in pret None
      end
  end.

(** [_pending_update] *)
Definition _pending_update (id : string) (expected_attempts : option Z)
    (set : WebhookRow → WebhookRow) : store bool :=
  transaction (
    let! n := update_webhook id
      (λ w, is_pending w && match expected_attempts with
                            | Some a => w_attempts w =? a | None => true end) set in
    pret (n =? 1)).

(** The columns counted when the attempt was not reserved before. *)
Definition count_attempts (count : bool) (attempts at_ : Z) (w : WebhookRow) : WebhookRow :=
  if count then set_w_last_attempt_at (Some at_) (set_w_attempts (w_attempts w + attempts) w) else w.

Definition mark_delivered (id : string) (delivered_at : Z) (expected_attempts : option Z)
    (attempts : Z) : store bool :=
  _pending_update id expected_attempts (λ w,
    count_attempts (bool_decide (expected_attempts = None)) attempts delivered_at
      (set_w_updated_at delivered_at (set_w_last_error None (set_w_failure_reason None
        (set_w_failed_at None (set_w_delivered_at (Some delivered_at)
          (set_w_status Delivery.delivered w))))))).

Definition mark_retryable_failure (u : entropy) (id : string) (attempted_at next_attempt_at : Z)
    (last_error : string) (expected_attempts : option Z) (attempts : Z) : store bool :=
  _pending_update id expected_attempts (λ w,
    count_attempts (bool_decide (expected_attempts = None)) attempts attempted_at
      (set_w_updated_at attempted_at
        (set_w_last_error (Some (protect_text u (error_purpose id) last_error))
          (set_w_next_attempt_at next_attempt_at w)))).

Definition mark_failed (u : entropy) (id : string) (failed_at : Z) (reason : WebhookFailureReason)
    (last_error : option string) (expected_attempts : option Z) (attempts : Z) : store bool :=
  _pending_update id expected_attempts (λ w,
    count_attempts (bool_decide (expected_attempts = None) && negb (attempts =? 0)) attempts failed_at
      (set_w_updated_at failed_at
        (set_w_last_error (option_map (protect_text u (error_purpose id)) last_error)
          (set_w_failure_reason (Some reason) (set_w_failed_at (Some failed_at)
            (set_w_status Delivery.failed w)))))).

(** ** Scrubbing, listing *)

(** [ORDER BY key ASC .., delivery_id ASC] on rows: by the integer keys, then the id. *)
Fixpoint keys_leb (ka kb : list Z) (ida idb : string) : bool :=
  match ka, kb with
  | a :: ka, b :: kb => (a <? b) || ((a =? b) && keys_leb ka kb ida idb)
  | _, _ => String.leb ida idb
  end.

Definition row_before (key : WebhookRow → list Z) (a b : string * WebhookRow) : Prop :=
  keys_leb (key a.2) (key b.2) a.1 b.1 = true.
#[export] Instance row_before_dec key a b : Decision (row_before key a b).
Proof. unfold row_before. apply _. Defined.

Definition order_by (key : WebhookRow → list Z) (l : list (string * WebhookRow)) :
    list (string * WebhookRow) :=
  merge_sort (row_before key) l.

Definition rows_where (p : WebhookRow → bool) (d : DB) : list (string * WebhookRow) :=
  filter (λ x, p x.2 = true) (map_to_list (webhook_deliveries d)).

(** The predicate of the scrub pass and of its backlog. *)
Definition scrub_eligible (delivered_before failed_before : Z) (w : WebhookRow) : bool :=
  bool_decide (w_scrubbed_at w = None) &&
  ((bool_decide (w_status w = Delivery.delivered) && opt_leb (w_delivered_at w) delivered_before) ||
   (bool_decide (w_status w = Delivery.failed) && opt_leb (w_failed_at w) failed_before)).

Definition scrub_key (w : WebhookRow) : list Z :=
  [default 0 (coalesce (w_delivered_at w) (w_failed_at w))].

Definition is_dead (w : WebhookRow) : bool :=
  bool_decide (w_status w = Delivery.delivered) || bool_decide (w_status w = Delivery.failed).

Definition scrub_row (id : string) (scrubbed_at : Z) : sql Z :=
  update_webhook id (λ w, is_dead w && bool_decide (w_scrubbed_at w = None)) (scrub scrubbed_at).

Fixpoint scrub_rows (ids : list string) (scrubbed_at : Z) : sql unit :=
  match ids with
  | [] => pret tt
  | id :: ids => do! scrub_row id scrubbed_at in scrub_rows ids scrubbed_at
  end.

(** The counts of delivered and of failed rows that were scrubbed. *)
Definition scrub_terminal_deliveries (delivered_before failed_before scrubbed_at : Z) (limit : nat) :
    store (nat * nat) :=
  if (limit <? 1)%nat then praise (ValueError "Webhook outbox query limit must be positive")
  else transaction (
    let! rows := query (λ d, take limit (order_by scrub_key
      (rows_where (scrub_eligible delivered_before failed_before) d))) in
    let delivered_ids := filter (λ x, w_status x.2 = Delivery.delivered) rows in
    let failed_ids := filter (λ x, w_status x.2 = Delivery.failed) rows in
    do! scrub_rows delivered_ids.*1 scrubbed_at in
    do! scrub_rows failed_ids.*1 scrubbed_at in
    pret (length delivered_ids, length failed_ids)).

Definition due_pending (now : Z) (d : DB) : list (string * WebhookRow) :=
  order_by (λ w, [w_next_attempt_at w; w_created_at w])
    (rows_where (λ w, is_pending w && (w_next_attempt_at w <=? now)) d).

Definition exhausted_pending (attempts_gte created_at_lte : Z) (d : DB) :
    list (string * WebhookRow) :=
  order_by (λ w, [w_created_at w])
    (rows_where (λ w, is_pending w && ((attempts_gte <=? w_attempts w) ||
                                       (w_created_at w <=? created_at_lte))) d).

(** One page of [_fetch_deliveries]: decode each row, quarantine the malformed ones. *)
Fixpoint decode_rows (rows : list (string * WebhookRow)) (now : Z) :
    sql (list WebhookDelivery * nat) :=
  match rows with
  | [] => pret ([], O)
  | (id, w) :: rows =>
      match _decode_webhook_delivery id w with
      | Undecryptable => praise SecretDecryptionError
      | Decoded wd =>
          let! '(l, malformed) := decode_rows rows now in pret (wd :: l, malformed)
      | DecodeFailed =>
          do! _quarantine_malformed_row id now in
          let! '(l, malformed) := decode_rows rows now in pret (l, Datatypes.S malformed)
      end
  end.

Fixpoint fetch_pages (fuel : nat) (select : DB → list (string * WebhookRow)) (now : Z)
    (limit inspected : nat) (deliveries : list WebhookDelivery) : sql (list WebhookDelivery) :=
  match fuel with
  | O => pret deliveries
  | Datatypes.S fuel =>
      if (limit <=? length deliveries)%nat then pret deliveries
      else if (2 * limit <=? inspected)%nat then pret deliveries
      else
        let fetch_limit := Nat.min (limit - length deliveries) (2 * limit - inspected) in
        let! rows := query (λ d, take fetch_limit (drop (length deliveries) (select d))) in
        match rows with
        | [] => pret deliveries
        | _ =>
            let! '(l, malformed) := decode_rows rows now in
            if (malformed =? 0)%nat then pret (deliveries ++ l)
            else fetch_pages fuel select now limit (inspected + length rows) (deliveries ++ l)
        end
  end.

(** Every page but the last inspects a row, and at most [2 * limit] are inspected. *)
Definition _fetch_deliveries (select : DB → list (string * WebhookRow)) (now : Z) (limit : nat) :
    store (list WebhookDelivery) :=
  transaction (fetch_pages (2 * limit + 1) select now limit 0 []).

Definition list_due_pending (now : Z) (limit : nat) : store (list WebhookDelivery) :=
  if (limit <? 1)%nat then praise (ValueError "Webhook outbox query limit must be positive")
  else _fetch_deliveries (due_pending now) now limit.

Definition list_exhausted_pending (attempts_gte created_at_lte now : Z) (limit : nat) :
    store (list WebhookDelivery) :=
  if (limit <? 1)%nat then praise (ValueError "Webhook outbox query limit must be positive")
  else _fetch_deliveries (exhausted_pending attempts_gte created_at_lte) now limit.

Definition next_pending_due_at (d : DB) : option Z :=
  list_least Z.leb (map (λ x, w_next_attempt_at x.2) (rows_where is_pending d)).
Definition oldest_pending_created_at (d : DB) : option Z :=
  list_least Z.leb (map (λ x, w_created_at x.2) (rows_where is_pending d)).
Definition pending_rows (d : DB) : list (string * WebhookRow) :=
  order_by (λ w, [w_next_attempt_at w; w_created_at w]) (rows_where is_pending d).
(** Without a limit every row is read. *)
Definition list_pending (now : Z) (limit : option nat) : store (list WebhookDelivery) :=
  match limit with
  | Some limit =>
      if (limit <? 1)%nat then praise (ValueError "Webhook outbox query limit must be positive")
      else _fetch_deliveries pending_rows now limit
  | None => transaction (
      let! rows := query pending_rows in
      let! '(l, _) := decode_rows rows now in
      pret l)
  end.

Record WebhookOutboxSummary := {
  pending_count : nat;
  delivered_count : nat;
  failed_count : nat;
  oldest_pending_age_seconds : option Z;
  pending_attempts_min : option Z;
  pending_attempts_max : option Z;
  pending_attempts_total : Z;
}.
Definition summarize (now : Z) (d : DB) : WebhookOutboxSummary :=
  let with_status st := rows_where (λ w, bool_decide (w_status w = st)) d in
  let attempts := map (λ x, w_attempts x.2) (with_status Delivery.pending) in
  {| pending_count := length (with_status Delivery.pending);
     delivered_count := length (with_status Delivery.delivered);
     failed_count := length (with_status Delivery.failed);
     oldest_pending_age_seconds := (λ t, Z.max 0 (now - t)) <$> oldest_pending_created_at d;
     pending_attempts_min := list_least Z.leb attempts;
     pending_attempts_max := list_least Z.geb attempts;
     pending_attempts_total := foldr Z.add 0 attempts |}.

(** [summarize_cleanup_backlog]: how many rows the scrub pass would take, and the oldest. *)
Definition scrub_backlog (delivered_before failed_before : Z) (d : DB) : nat * option Z :=
  let due := rows_where (scrub_eligible delivered_before failed_before) d in
  (length due, list_least Z.leb (omap (λ x, coalesce (w_delivered_at x.2) (w_failed_at x.2)) due)).
End outbox.
