(* ===== verification/JobTerminal.v ===== *)
(** * Terminal webhook intents and their reconciliation
    ([storage/job_terminal_reconciliation.py]) *)

From S2P Require Import Prelude.
From S2P Require Import Envelope.
From S2P Require Import Rows.
From S2P Require Import JobDb.
From S2P Require Import JobModel.
From S2P Require Import Json.
From S2P Require Import Outbox.
Open Scope Z_scope.

(** [f"job.{status}"] *)
Definition event_of (s : JobStatus) : string := "job." +:+ status_value s.

Definition validate_terminal_delivery (w : WebhookDeliveryCreate) (jid rid : string)
    (s : JobStatus) : outcome store_error unit :=
  if negb (bool_decide (d_job_id w = jid) && bool_decide (d_run_id w = Some rid) &&
           bool_decide (d_event w = event_of s) && payload_is (d_payload w) "job_id" jid &&
           payload_is (d_payload w) "run_id" rid && payload_is (d_payload w) "event" (event_of s) &&
           payload_is (d_payload w) "status" (status_value s))
  then Raise (ValueError "Terminal webhook delivery does not match the owned job/run/status")
  else Ok tt.

Inductive TerminalIntentAction := intent_created | intent_existing | not_required | race_noop.

Record TerminalIntentReconcileResult := {
  t_action : TerminalIntentAction;
  parent_converged : bool;
  t_delivery_id : option string;
}.

(** The columns of [TerminalWebhookCandidate] that reconciliation decides on. *)
Record TerminalWebhookCandidate := {
  c_job_id : string;
  c_run_id : string;
  c_status : JobStatus;
  c_project : string;
  c_name : string;
  c_config_yaml : string;
  c_has_config_snapshot : bool;
  c_config_hash : string;
  c_started_at : Z;
  c_heartbeat_at : Z;
  c_completed_at : option Z;
  c_record_count : option Z;
  c_error_count : Z;
  c_parent_status : JobStatus;
  c_current_run_id : option string;
  c_existing : option (string * WebhookRow);
}.

Section terminal.
Context `{Vault} `{JsonText}.

(** Insert the optional intent, then commit the caller's transaction. *)
Definition commit_terminal_intent (u : entropy) (w : option WebhookDeliveryCreate)
    (created_at : Z) : sql unit :=
  do! match w with
      | Some w => do! insert_webhook_delivery u w created_at in pret tt
      | None => pret tt
      end in
  commit.

Definition reconciled_at (c : TerminalWebhookCandidate) : Z :=
  default (c_heartbeat_at c) (c_completed_at c).

Definition _mark_terminal_webhook_reconciled (c : TerminalWebhookCandidate) : sql unit :=
  let! n := update_run (c_job_id c) (c_run_id c)
    (λ _ r, bool_decide (r_status r = c_status c) && bool_decide (r_config_hash r = c_config_hash c))
    (λ r, set_r_webhook_reconciled_at
            (coalesce (r_webhook_reconciled_at r) (Some (reconciled_at c))) r) in
  if negb (n =? 1) then praise (RuntimeError "Terminal webhook reconciliation lost run ownership")
  else pret tt.

(** The first delivery recorded for an event of a run: by creation, then id. *)
Definition deliveries_for (jid rid event : string) (d : DB) : list (string * WebhookRow) :=
  order_by (λ w, [w_created_at w])
    (rows_where (λ w, bool_decide (w_job_id w = jid) && bool_decide (w_run_id w = Some rid) &&
                      bool_decide (w_event w = event)) d).

Definition existing_delivery (jid rid event : string) (d : DB) : option (string * WebhookRow) :=
  head (deliveries_for jid rid event d).

(** The candidates' WHERE clause, on a run and its parent. *)
Definition candidate_run (r : RunRow) (rid : string) (j : JobRow) : bool :=
  is_terminal (r_status r) && negb (bool_decide (j_status j = deleting)) &&
  (bool_decide (r_webhook_reconciled_at r = None) ||
   (bool_decide (j_status j = running) && opt_eqb (j_current_run_id j) rid)).

(** [terminal_webhook_candidates]: one candidate, its configuration decrypted. *)
Definition terminal_webhook_candidate (d : DB) (rid : string) (r : RunRow) (j : JobRow) :
    outcome store_error TerminalWebhookCandidate :=
  match r_heartbeat_at r with
  | None => Raise (ValueError "Terminal run is missing required lifecycle timestamps")
  | Some heartbeat =>
      match (match r_config_yaml r with
             | Some stored => reveal (runs_purpose rid) stored
             | None => reveal (jobs_purpose (r_job_id r)) (j_config_yaml j)
             end) with
      | Raise e => Raise e
      | Ok config =>
          Ok {| c_job_id := r_job_id r; c_run_id := rid; c_status := r_status r;
                c_project := j_project j; c_name := j_name j; c_config_yaml := config;
                c_has_config_snapshot := bool_decide (is_Some (r_config_yaml r));
                c_config_hash := r_config_hash r; c_started_at := r_started_at r;
                c_heartbeat_at := heartbeat; c_completed_at := r_completed_at r;
                c_record_count := r_record_count r; c_error_count := r_error_count r;
                c_parent_status := j_status j; c_current_run_id := j_current_run_id j;
                c_existing := existing_delivery (r_job_id r) rid (event_of (r_status r)) d |}
      end
  end.

(** Runs that failed to reconcile come last, the others by their end, then by id. *)
Definition candidate_order (x : string * RunRow) : bool * Z :=
  (bool_decide (is_Some (r_webhook_reconciliation_failed_at x.2)),
   default (r_started_at x.2) (coalesce (r_webhook_reconciliation_failed_at x.2) (r_completed_at x.2))).
Definition candidate_before (a b : string * RunRow * JobRow) : Prop :=
  let '(fa, ta) := candidate_order a.1 in
  let '(fb, tb) := candidate_order b.1 in
  (negb fa && fb) ||
  (eqb fa fb && ((ta <? tb) ||
     ((ta =? tb) && (negb (String.leb (r_job_id b.1.2) (r_job_id a.1.2)) ||
        (String.eqb (r_job_id a.1.2) (r_job_id b.1.2) && String.leb a.1.1 b.1.1))))) = true.
#[export] Instance candidate_before_dec a b : Decision (candidate_before a b).
Proof. unfold candidate_before. destruct (candidate_order a.1), (candidate_order b.1). apply _. Defined.

(** [terminal_webhook_candidate_rows], with a parsed limit. *)
Definition terminal_webhook_candidate_rows (limit : option nat) (d : DB) : list (string * RunRow * JobRow) :=
  let rows := merge_sort candidate_before
    (omap (λ x, match jobs d !! r_job_id x.2 with
                | Some j => if candidate_run x.2 x.1 j then Some (x, j) else None
                | None => None
                end) (map_to_list (job_runs d))) in
  match limit with Some n => take n rows | None => rows end.

Definition list_terminal_webhook_candidates (limit : option nat) : store (list TerminalWebhookCandidate) :=
  match limit with
  | Some O => praise (ValueError "limit must be positive")
  | _ =>
      read (λ d, traverse (λ x, terminal_webhook_candidate d x.1.1 x.1.2 x.2)
                   (terminal_webhook_candidate_rows limit d))
  end.

Definition config_matches (c : TerminalWebhookCandidate) (r : RunRow) (j : JobRow) :
    outcome store_error bool :=
  if c_has_config_snapshot c then
    match r_config_yaml r with
    | None => Ok false
    | Some stored =>
        match reveal (runs_purpose (c_run_id c)) stored with
        | Raise e => Raise e
        | Ok p => Ok (bool_decide (p = c_config_yaml c))
        end
    end
  else
    match r_config_yaml r with
    | Some _ => Ok false
    | None =>
        match reveal (jobs_purpose (c_job_id c)) (j_config_yaml j) with
        | Raise e => Raise e
        | Ok p => Ok (bool_decide (p = c_config_yaml c))
        end
    end.

Definition race : TerminalIntentReconcileResult :=
  {| t_action := race_noop; parent_converged := false; t_delivery_id := None |}.

(** The end of [reconcile_terminal_webhook_candidate], once the parent converged. *)
Definition ensure_intent (u : entropy) (c : TerminalWebhookCandidate)
    (w : option WebhookDeliveryCreate) (converged : bool) : sql TerminalIntentReconcileResult :=
  let event := event_of (c_status c) in
  let! existing := query (existing_delivery (c_job_id c) (c_run_id c) event) in
  match existing, w with
  | Some (id, _), _ =>
      do! _mark_terminal_webhook_reconciled c in
      do! commit in
      pret {| t_action := intent_existing; parent_converged := converged; t_delivery_id := Some id |}
  | None, None =>
      do! _mark_terminal_webhook_reconciled c in
      do! commit in
      pret {| t_action := not_required; parent_converged := converged; t_delivery_id := None |}
  | None, Some w =>
      do! lift (validate_terminal_delivery w (c_job_id c) (c_run_id c) (c_status c)) in
      let! inserted := insert_webhook_delivery u w (reconciled_at c) in
      do! (if inserted then pret tt
           else
             let! collision := query (λ d, webhook_deliveries d !! delivery_id w) in
             match collision with
             | Some x =>
                 if bool_decide (w_job_id x = c_job_id c) &&
                    bool_decide (w_run_id x = Some (c_run_id c)) && bool_decide (w_event x = event)
                 then pret tt
                 else praise (RuntimeError "Deterministic webhook delivery ID collided with another event")
             | None => praise (RuntimeError "Deterministic webhook delivery ID collided with another event")
             end) in
      do! _mark_terminal_webhook_reconciled c in
      do! commit in
      pret {| t_action := if inserted then intent_created else intent_existing;
              parent_converged := converged; t_delivery_id := Some (delivery_id w) |}
  end.

(** The run and its parent, as they are now. *)
Definition candidate_rows (c : TerminalWebhookCandidate) (d : DB) : option (RunRow * JobRow) :=
  match job_runs d !! c_run_id c with
  | Some r =>
      if bool_decide (r_job_id r = c_job_id c)
      then match jobs d !! c_job_id c with Some j => Some (r, j) | None => None end
      else None
  | None => None
  end.

Lemma candidate_rows_Some c d r j :
  candidate_rows c d = Some (r, j) ↔
  job_runs d !! c_run_id c = Some r ∧ r_job_id r = c_job_id c ∧ jobs d !! c_job_id c = Some j.
Proof.
  unfold candidate_rows. destruct (job_runs d !! c_run_id c) as [r'|]; [|naive_solver].
  case_bool_decide; [|naive_solver]. destruct (jobs d !! c_job_id c); naive_solver.
Qed.

Definition reconcile_terminal_webhook_candidate (u : entropy) (c : TerminalWebhookCandidate)
    (w : option WebhookDeliveryCreate) : store TerminalIntentReconcileResult :=
  transaction (
    let! row := query (candidate_rows c) in
    match row with
    | None => rollback_with race
    | Some (r, j) =>
        if negb (bool_decide (r_status r = c_status c)) || negb (is_terminal (r_status r)) ||
           negb (bool_decide (r_config_hash r = c_config_hash c)) ||
           bool_decide (j_status j = deleting)
        then rollback_with race
        else
          let! same := lift (config_matches c r j) in
          if negb same then rollback_with race
          else if opt_eqb (j_current_run_id j) (c_run_id c) && bool_decide (j_status j = running)
          then
            let! n := update_job (c_job_id c)
              (λ j, bool_decide (j_status j = running) && opt_eqb (j_current_run_id j) (c_run_id c))
              (λ j, set_j_updated_at (Some (reconciled_at c)) (set_j_status (c_status c) j)) in
            if negb (n =? 1) then rollback_with race
            else ensure_intent u c w true
          else ensure_intent u c w false
    end).

Definition mark_terminal_webhook_reconciliation_failure (jid rid : string) (failed_at : Z) :
    store bool :=
  transaction (
    let! n := update_run jid rid
      (λ _ r, is_terminal (r_status r) && bool_decide (r_webhook_reconciled_at r = None))
      (set_r_webhook_reconciliation_failed_at (Some failed_at)) in
    pret (n =? 1)).
End terminal.
