(* ===== verification/Payload.v ===== *)
(** * Webhook payloads ([webhook/payload.py])

    The identity of a delivery and the document that is posted. The redaction that
    [build_terminal_webhook_delivery] applies before it is stored is not modelled here. *)

From S2P Require Import Prelude.
From S2P Require Import Text.
From S2P Require Import Sha256.
From S2P Require Import Rows.
From S2P Require Import JobDb.
From S2P Require Import JobModel.
From S2P Require Import Json.
From S2P Require Import Outbox.
From S2P Require Import JobTerminal.
Open Scope Z_scope.

Definition _DELIVERY_ID_PREFIX : string := "whv1_".
Definition _DELIVERY_ID_DOMAIN : text := txt "scrapeyard:webhook-delivery:v1".

(** [len(encoded).to_bytes(8, byteorder="big")] *)
Definition length_bytes (t : text) : text := map chr (Sha256.be_bytes 8 (Z.of_nat (length t))).
Definition field (t : text) : text := length_bytes t ++ t.

(** What is hashed for a job, run and event. *)
Definition delivery_preimage (job_id : string) (run_id : option string) (event : string) : text :=
  _DELIVERY_ID_DOMAIN ++ field (txt job_id) ++ field (txt (default "" run_id)) ++ field (txt event).

Definition deterministic_delivery_id (job_id : string) (run_id : option string) (event : string) : string :=
  _DELIVERY_ID_PREFIX +:+ Sha256.sha256_hex (String.string_of_list_ascii (delivery_preimage job_id run_id event)).

(** [should_fire]: the configured statuses, by value. *)
Definition should_fire (on : list string) (s : JobStatus) : bool := bool_decide (status_value s ∈ on).

Definition json_text (x : option string) : json := match x with Some s => JString s | None => JNull end.
Definition json_int (x : option Z) : json :=
  match x with Some n => JNumber (String.string_of_list_ascii (str_int n)) | None => JNull end.

(** [if run_id]: an empty run id has no results URL. *)
Definition results_url (job_id : string) (run_id : option string) : json :=
  match run_id with
  | Some r => if bool_decide (r = "") then JNull
              else JString ("/results/" +:+ job_id +:+ "?run_id=" +:+ r +:+ "&latest=false")
  | None => JNull
  end.

Definition build_webhook_payload (job_id project name : string) (status : JobStatus)
    (run_id result_path : option string) (result_count : option Z) (error_count : Z)
    (started_at completed_at : string) (config_hash : option string) : list (string * json) :=
  let event := event_of status in
  [("delivery_id", JString (deterministic_delivery_id job_id run_id event));
   ("event", JString event); ("job_id", JString job_id); ("project", JString project);
   ("name", JString name); ("status", JString (status_value status)); ("run_id", json_text run_id);
   ("result_path", json_text result_path); ("results_url", results_url job_id run_id);
   ("result_count", json_int result_count); ("error_count", json_int (Some error_count));
   ("started_at", JString started_at); ("completed_at", JString completed_at)] ++
  match config_hash with Some h => [("config_hash", JString h)] | None => [] end.

(** [str(payload.get(key) or default)] on the strings and nulls of these payloads. *)
Definition text_or (x : option json) (otherwise : string) : string :=
  match x with Some (JString s) => if bool_decide (s = "") then otherwise else s | _ => otherwise end.

(** [payload[key] = value] keeps the place of a key that is there. *)
Fixpoint set_member (key : string) (v : json) (m : list (string * json)) : list (string * json) :=
  match m with
  | [] => [(key, v)]
  | (k, x) :: m => if bool_decide (k = key) then (k, v) :: m else (k, x) :: set_member key v m
  end.

Record WebhookConfig := {
  hook_url : string;
  hook_headers : list (string * json);
  hook_timeout : Z;
  hook_on : list string;
}.

Definition webhook_delivery_from_payload (config : WebhookConfig) (payload : list (string * json))
    (next_attempt_at : Z) : WebhookDeliveryCreate :=
  let job_id := text_or (payload_get payload "job_id") "" in
  let run_id := match payload_get payload "run_id" with Some (JString s) => Some s | _ => None end in
  let event := text_or (payload_get payload "event") "webhook" in
  let id := text_or (payload_get payload "delivery_id") (deterministic_delivery_id job_id run_id event) in
  {| delivery_id := id; d_job_id := job_id; d_run_id := run_id; d_event := event; d_url := hook_url config;
     d_headers := hook_headers config; d_timeout_seconds := hook_timeout config;
     d_payload := set_member "delivery_id" (JString id) payload; d_next_attempt_at := next_attempt_at |}.

(** ** Delivery ids *)

Lemma be_bytes_length n x : length (Sha256.be_bytes n x) = n.
Proof. revert x. induction n as [|n IH]; intros x; cbn; [done|]. rewrite length_app, IH. cbn. lia. Qed.

Lemma be_bytes_inj n x y :
  0 ≤ x < 256 ^ Z.of_nat n → 0 ≤ y < 256 ^ Z.of_nat n → Sha256.be_bytes n x = Sha256.be_bytes n y → x = y.
Proof.
  revert x y. induction n as [|n IH]; intros x y Hx Hy E; [cbn in *; lia|].
  cbn [Sha256.be_bytes] in E. apply app_inj_tail in E as [E E0].
  rewrite Nat2Z.inj_succ, Z.pow_succ_r in Hx, Hy by lia.
  rewrite !Z.shiftr_div_pow2 in E by lia. change 255 with (Z.ones 8) in E0.
  rewrite !Z.land_ones in E0 by lia.
  apply IH in E; [|split; [apply Z.div_pos; lia|apply Z.div_lt_upper_bound; lia]..].
  change (2 ^ 8) with 256 in *. pose proof (Z.div_mod x 256). pose proof (Z.div_mod y 256). lia.
Qed.

Lemma be_bytes_range n x : Forall (λ b, 0 ≤ b < 256) (Sha256.be_bytes n x).
Proof.
  revert x. induction n as [|n IH]; intros x; cbn; [done|]. apply Forall_app. split; [apply IH|].
  constructor; [|done]. change 255 with (Z.ones 8). rewrite Z.land_ones by lia. apply Z.mod_pos_bound. lia.
Qed.

Lemma map_chr_inj l l' :
  Forall (λ b, 0 ≤ b < 256) l → Forall (λ b, 0 ≤ b < 256) l' → map chr l = map chr l' → l = l'.
Proof.
  intros Hl. revert l'. induction Hl as [|x l Hx _ IH]; intros [|y l'] Hl' E; try done.
  apply Forall_cons in Hl' as [Hy Hl']. injection E as E1 E2. f_equal; [|by apply IH].
  rewrite <- (code_chr x), <- (code_chr y) by done. by rewrite E1.
Qed.

(** A field is read without looking at what follows. *)
Lemma field_inj t t' r r' :
  Z.of_nat (length t) < 2 ^ 64 → Z.of_nat (length t') < 2 ^ 64 →
  field t ++ r = field t' ++ r' → t = t' ∧ r = r'.
Proof.
  intros Ht Ht' E. unfold field in E. rewrite <- !app_assoc in E.
  apply app_inj_1 in E as [El E]; [|unfold length_bytes; by rewrite !length_map, !be_bytes_length].
  apply map_chr_inj in El; [|apply be_bytes_range..].
  change (2 ^ 64) with (256 ^ Z.of_nat 8) in *.
  apply be_bytes_inj in El; [|lia..]. apply app_inj_1 in E; [done|lia].
Qed.

Lemma txt_inj s s' : txt s = txt s' → s = s'.
Proof.
  intros E%(f_equal String.string_of_list_ascii). unfold txt in E.
  by rewrite !String.string_of_list_ascii_of_string in E.
Qed.

Definition storable (s : string) : Prop := Z.of_nat (length (txt s)) < 2 ^ 64.

(** Delivery ids tell deliveries apart: jobs, runs (a missing one counts as empty) or
    events that differ never feed the same bytes to the hash, however the field boundaries
    fall; so equal ids mean the same delivery or a SHA-256 collision. *)
Theorem delivery_preimage_injective job run event job' run' event' :
  storable job → storable (default "" run) → storable event →
  storable job' → storable (default "" run') → storable event' →
  delivery_preimage job run event = delivery_preimage job' run' event' →
  job = job' ∧ default "" run = default "" run' ∧ event = event'.
Proof.
  intros H1 H2 H3 H1' H2' H3' E. unfold delivery_preimage in E. apply app_inv_head in E.
  apply field_inj in E as [E1 E]; [|done..]. apply field_inj in E as [E2 E]; [|done..].
  rewrite <- (app_nil_r (field (txt event))), <- (app_nil_r (field (txt event'))) in E.
  apply field_inj in E as [E3 _]; [|done..]. split_and!; by apply txt_inj.
Qed.

Lemma delivery_preimage_injective_witness :
  delivery_preimage "j" (Some "1") "job.complete" = delivery_preimage "j" (Some "1") "job.complete" ∧ "j" = "j".
Proof.
  split; [reflexivity|].
  apply (delivery_preimage_injective "j" (Some "1") "job.complete" "j" (Some "1") "job.complete");
    reflexivity.
Defined.

(** Members of a payload. *)
Lemma payload_get_cons k v m key :
  payload_get ((k, v) :: m) key = if bool_decide (k = key) then Some v else payload_get m key.
Proof.
  unfold payload_get. cbn. case_decide; case_bool_decide; try done.
  by destruct (list_find _ m) as [[i [k' v']]|].
Qed.

Ltac member := cbn [app]; rewrite !payload_get_cons; repeat (rewrite bool_decide_false by done);
  rewrite bool_decide_true by done; reflexivity.

Lemma payload_get_set k v m key :
  payload_get (set_member k v m) key = if bool_decide (k = key) then Some v else payload_get m key.
Proof.
  induction m as [|[k' v'] m IH]; cbn [set_member]; [by rewrite payload_get_cons|].
  destruct (decide (k' = k)) as [->|Hk].
  - rewrite (bool_decide_true (k = k)) by done. rewrite !payload_get_cons. by case_bool_decide.
  - rewrite (bool_decide_false (k' = k)) by done. rewrite !payload_get_cons, IH.
    repeat case_bool_decide; congruence.
Qed.

(** A delivery is accepted for the names its payload carries. *)
Lemma named_delivery_valid config payload t job run s :
  job ≠ "" →
  payload_get payload "job_id" = Some (JString job) → payload_get payload "run_id" = Some (JString run) →
  payload_get payload "event" = Some (JString (event_of s)) →
  payload_get payload "status" = Some (JString (status_value s)) →
  let w := webhook_delivery_from_payload config payload t in
  validate_terminal_delivery w job run s = Ok tt ∧ payload_is (d_payload w) "delivery_id" (delivery_id w) = true.
Proof.
  intros Hjob Hj Hr He Hs. cbv zeta.
  assert (event_of s ≠ "") as Hne by by destruct s.
  unfold webhook_delivery_from_payload, validate_terminal_delivery, payload_is.
  cbn [d_job_id d_run_id d_event d_payload delivery_id]. rewrite !payload_get_set, Hj, Hr, He, Hs.
  cbn [text_or]. rewrite !(bool_decide_false (_ = "")) by done.
  rewrite !(bool_decide_false ("delivery_id" = _)) by done. by rewrite !bool_decide_true by done.
Qed.

(** The worker's deliveries are the ones the store accepts: what is built for a job,
    its run and the terminal status passes [validate_terminal_delivery] and the check of
    the payload's id, under the deterministic delivery id, so finishing a run never fails
    for its webhook. *)
Theorem built_delivery_is_valid config job project name s run path count errors started completed hash t :
  job ≠ "" →
  let w := webhook_delivery_from_payload config
             (build_webhook_payload job project name s (Some run) path count errors started completed hash) t in
  validate_terminal_delivery w job run s = Ok tt ∧
  payload_is (d_payload w) "delivery_id" (delivery_id w) = true ∧
  delivery_id w = deterministic_delivery_id job (Some run) (event_of s) ∧
  d_payload w = build_webhook_payload job project name s (Some run) path count errors started completed hash.
Proof.
  intros Hjob. cbv zeta.
  set (payload := build_webhook_payload job project name s (Some run) path count errors started completed hash).
  assert (payload_get payload "job_id" = Some (JString job)) as Hj by (unfold payload, build_webhook_payload; member).
  assert (payload_get payload "run_id" = Some (JString run)) as Hr by (unfold payload, build_webhook_payload; member).
  assert (payload_get payload "event" = Some (JString (event_of s))) as He by (unfold payload, build_webhook_payload; member).
  assert (payload_get payload "status" = Some (JString (status_value s))) as Hs by (unfold payload, build_webhook_payload; member).
  by destruct (named_delivery_valid config payload t job run s).
Qed.

Definition hook_witness : WebhookConfig :=
  {| hook_url := "https://hooks.example/x"; hook_headers := []; hook_timeout := 10; hook_on := ["complete"] |}.

Lemma built_delivery_is_valid_witness :
  let w := webhook_delivery_from_payload hook_witness
             (build_webhook_payload "j" "p" "n" complete (Some "r") None (Some 3) 0 "t0" "t1" None) 5 in
  validate_terminal_delivery w "j" "r" complete = Ok tt.
Proof. apply (built_delivery_is_valid hook_witness "j" "p" "n" complete "r" None (Some 3) 0 "t0" "t1" None 5). done. Defined.
