(* ===== verification/JobRecovery.v ===== *)
(** * Queued delivery and stale run recovery ([storage/job_recovery.py]) *)

From S2P Require Import Prelude.
From S2P Require Import Envelope.
From S2P Require Import Rows.
From S2P Require Import JobDb.
From S2P Require Import JobModel.
Open Scope Z_scope.

Inductive recovery_action := failed_missing_run | reconciled_terminal_run | failed_stale_heartbeat.

Record RunRecovery := {
  rr_job_id : string;
  rr_run_id : option string;
  rr_action : recovery_action;
  rr_last_heartbeat_at : option Z;
}.

Record StaleQueuedJob := {
  q_job_id : string;
  q_run_id : string;
  q_config_yaml : string;
  q_queued_at : Z;
  q_trigger : string;
  q_schedule_cron : option string;
  q_schedule_enabled : bool;
}.

Section recovery.
Context `{Vault}.

(** The snapshot of a job's current run, as the LEFT JOINs find it. *)
Definition current_snapshot (d : DB) (jid : string) (j : JobRow) : option SnapshotRow :=
  match j_current_run_id j with
  | Some rid =>
      match queued_run_snapshots d !! rid with
      | Some s => if bool_decide (s_job_id s = jid) then Some s else None
      | None => None
      end
  | None => None
  end.

(** The configuration a failed queued run keeps: the snapshot's, else the parent's when
    it has the same hash; only if it hashes to the recorded hash. *)
Definition failed_run_config (jid rid : string) (j : JobRow) (s : option SnapshotRow) :
    string * option string :=
  let hash := or_text (option_map s_config_hash s) (j_config_hash j) in
  let queued := match s with
                | Some s => reveal_text (snapshot_purpose rid) (s_config_yaml s)
                | None => None
                end in
  let config := match queued with
                | Some c => Some c
                | None => if bool_decide (j_config_hash j = hash)
                          then reveal_text (jobs_purpose jid) (j_config_yaml j) else None
                end in
  (hash, match config with
         | Some c => if bool_decide (sha256 c = hash) then Some c else None
         | None => None
         end).

Definition failed_run_row (u : entropy) (jid rid : string) (failed_at error_count : Z)
    (failure_code : string) (j : JobRow) (s : option SnapshotRow) : RunRow :=
  let '(hash, config) := failed_run_config jid rid j s in
  let started := default failed_at (option_map s_queued_at s) in
  {| r_job_id := jid; r_status := failed;
     r_trigger := or_text (Some (or_text (option_map s_trigger s)
                                   (default "" (j_current_trigger j)))) "adhoc";
     r_config_hash := hash;
     r_config_yaml := option_map (protect_text u (runs_purpose rid)) config;
     r_started_at := started; r_heartbeat_at := Some started;
     r_completed_at := Some failed_at; r_record_count := Some 0;
     r_error_count := error_count; r_webhook_reconciled_at := None;
     r_failure_code := Some failure_code; r_webhook_reconciliation_failed_at := None |}.

Definition insert_failed_queued_run (u : entropy) (jid rid : string) (failed_at error_count : Z)
    (failure_code : string) : sql unit :=
  let! row := query (λ d,
    match jobs d !! jid with
    | Some j => if opt_eqb (j_current_run_id j) rid then Some (j, current_snapshot d jid j) else None
    | None => None
    end) in
  match row with
  | None => praise (RunOwnershipError "fail queued snapshot" jid rid)
  | Some (j, s) =>
      do! insert_run rid (failed_run_row u jid rid failed_at error_count failure_code j s) in
      do! delete_snapshot jid rid in
      pret tt
  end.

(** ** Queued deliveries *)

Definition stale_queued (stale_before : Z) (j : JobRow) : bool :=
  bool_decide (j_status j = queued) && bool_decide (is_Some (j_current_run_id j)) &&
  opt_leb (j_updated_at j) stale_before.

Definition queued_before (a b : string * JobRow) : Prop :=
  (default 0 (j_updated_at a.2) <? default 0 (j_updated_at b.2)) ||
  ((default 0 (j_updated_at a.2) =? default 0 (j_updated_at b.2)) && String.leb a.1 b.1) = true.
#[export] Instance queued_before_dec a b : Decision (queued_before a b).
Proof. unfold queued_before. apply _. Defined.

Definition stale_queued_rows (stale_before : Z) (limit : option nat) (offset : nat) (d : DB) :
    list (string * JobRow) :=
  let rows := merge_sort queued_before
                (filter (λ x, stale_queued stale_before x.2 = true) (map_to_list (jobs d))) in
  match limit with Some n => take n (drop offset rows) | None => rows end.

Definition stale_queued_job (d : DB) (x : string * JobRow) :
    outcome store_error (option StaleQueuedJob) :=
  let '(jid, j) := x in
  match j_updated_at j, j_current_run_id j with
  | Some queued_at, Some rid =>
      let config := match current_snapshot d jid j with
                    | Some s => reveal (snapshot_purpose rid) (s_config_yaml s)
                    | None => reveal (jobs_purpose jid) (j_config_yaml j)
                    end in
      match config with
      | Raise e => Raise e
      | Ok c =>
          Ok (Some {| q_job_id := jid; q_run_id := rid; q_config_yaml := c; q_queued_at := queued_at;
                      q_trigger := match j_current_trigger j with
                                   | Some t => t
                                   | None => match j_schedule_cron j with
                                             | Some _ => "scheduled" | None => "adhoc" end
                                   end;
                      q_schedule_cron := j_schedule_cron j;
                      q_schedule_enabled := j_schedule_enabled j |})
      end
  | _, _ => Ok None
  end.

(** The rows, and then each of them decrypted. *)
Definition list_stale_queued_jobs (stale_before : Z) (limit : option nat) (offset : nat) :
    store (list StaleQueuedJob) :=
  read (λ d,
    match traverse (stale_queued_job d) (stale_queued_rows stale_before limit offset d) with
    | Ok l => Ok (omap id l)
    | Raise e => Raise e
    end).

Definition reserve_queued_run_recovery (jid rid : string)
    (expected_queued_at stale_before reserved_at : Z) : store bool :=
  transaction (
    let! n := update_job jid
      (λ j, bool_decide (j_status j = queued) && opt_eqb (j_current_run_id j) rid &&
            opt_eqb (j_updated_at j) expected_queued_at && opt_leb (j_updated_at j) stale_before)
      (set_j_updated_at (Some reserved_at)) in
    if negb (n =? 1) then rollback_with false else pret true).

Definition fail_queued_run_recovery (u : entropy) (jid rid : string)
    (expected_queued_at failed_at : Z) : store bool :=
  transaction (
    let! n := update_job jid
      (λ j, bool_decide (j_status j = queued) && opt_eqb (j_current_run_id j) rid &&
            opt_eqb (j_updated_at j) expected_queued_at)
      (λ j, set_j_updated_at (Some failed_at) (set_j_status failed j)) in
    if negb (n =? 1) then rollback_with false
    else
      do! insert_failed_queued_run u jid rid failed_at 1 "queued_reconciliation_failure" in
      pret true).

(** ** Stale running jobs *)

Definition _heartbeat_is_stale (value : option Z) (cutoff : Z) : bool :=
  match value with None => true | Some h => h <=? cutoff end.

(** The run row of a job's current run. *)
Definition current_run (d : DB) (jid : string) (j : JobRow) : option RunRow :=
  match j_current_run_id j with
  | Some rid =>
      match job_runs d !! rid with
      | Some r => if bool_decide (r_job_id r = jid) then Some r else None
      | None => None
      end
  | None => None
  end.

Definition _recover_current_run (jid : string) (expected_run_id : option string)
    (heartbeat_cutoff recovered_at : Z) : sql (option RunRecovery) :=
  let! row := query (λ d,
    match jobs d !! jid with Some j => Some (j, current_run d jid j) | None => None end) in
  match row with
  | None => pret None
  | Some (j, r) =>
      if negb (bool_decide (j_status j = running)) ||
         negb (bool_decide (j_current_run_id j = expected_run_id))
      then pret None
      else
        let last := match r with Some r => r_heartbeat_at r | None => None end in
        match j_current_run_id j, r with
        | Some rid, Some r =>
            if is_terminal (r_status r) then
              let! n := update_job jid
                (λ j, bool_decide (j_status j = running) && opt_eqb (j_current_run_id j) rid)
                (λ j, set_j_updated_at (Some recovered_at) (set_j_status (r_status r) j)) in
              if negb (n =? 1) then pret None
              else pret (Some {| rr_job_id := jid; rr_run_id := Some rid;
                                 rr_action := reconciled_terminal_run; rr_last_heartbeat_at := last |})
            else if negb (bool_decide (r_status r = running)) ||
                    negb (_heartbeat_is_stale (r_heartbeat_at r) heartbeat_cutoff)
            then pret None
            else
              let! n := update_run jid rid (λ _ r, bool_decide (r_status r = running))
                (λ r, set_r_completed_at (Some recovered_at) (set_r_status failed r)) in
              if negb (n =? 1) then pret None
              else
                let! n := update_job jid
                  (λ j, bool_decide (j_status j = running) && opt_eqb (j_current_run_id j) rid)
                  (λ j, set_j_updated_at (Some recovered_at) (set_j_status failed j)) in
                if negb (n =? 1)
                then praise (RuntimeError "Stale recovery lost job ownership inside transaction")
                else pret (Some {| rr_job_id := jid; rr_run_id := Some rid;
                                   rr_action := failed_stale_heartbeat; rr_last_heartbeat_at := last |})
        | run_id, _ =>
            let! n := update_job jid
              (λ j, bool_decide (j_status j = running) && opt_is (j_current_run_id j) run_id)
              (λ j, set_j_updated_at (Some recovered_at) (set_j_status failed j)) in
            if negb (n =? 1) then pret None
            else pret (Some {| rr_job_id := jid; rr_run_id := run_id;
                               rr_action := failed_missing_run; rr_last_heartbeat_at := last |})
        end
  end.

Definition recover_stale_run (jid : string) (rid : option string)
    (heartbeat_cutoff recovered_at : Z) : store bool :=
  transaction (
    let! recovery := _recover_current_run jid rid heartbeat_cutoff recovered_at in
    pret (bool_decide (is_Some recovery))).

(** The selection of [recover_stale_running_jobs]: running jobs whose current run is
    missing, not running any more, or stale. *)
Definition needs_recovery (d : DB) (cutoff : Z) (jid : string) (j : JobRow) : bool :=
  bool_decide (j_status j = running) &&
  match j_current_run_id j with
  | None => true
  | Some _ =>
      match current_run d jid j with
      | None => true
      | Some r => negb (bool_decide (r_status r = running)) ||
                  _heartbeat_is_stale (r_heartbeat_at r) cutoff
      end
  end.

Definition recovery_order (d : DB) (x : string * JobRow) : option Z :=
  coalesce (match current_run d x.1 x.2 with Some r => r_heartbeat_at r | None => None end)
           (j_updated_at x.2).

(** [ORDER BY recovery_order ASC, job_id ASC]; NULL comes first. *)
Definition recovered_before (d : DB) (a b : string * JobRow) : Prop :=
  (match recovery_order d a, recovery_order d b with
   | None, Some _ => true
   | Some _, None => false
   | Some x, Some y => (x <? y) || ((x =? y) && String.leb a.1 b.1)
   | None, None => String.leb a.1 b.1
   end) = true.
#[export] Instance recovered_before_dec d a b : Decision (recovered_before d a b).
Proof. unfold recovered_before. apply _. Defined.

Definition recovery_rows (cutoff : Z) (limit : option nat) (d : DB) : list (string * JobRow) :=
  let rows := merge_sort (recovered_before d)
                (filter (λ x, needs_recovery d cutoff x.1 x.2 = true) (map_to_list (jobs d))) in
  match limit with Some n => take n rows | None => rows end.

Fixpoint recover_rows (rows : list (string * JobRow)) (cutoff recovered_at : Z) :
    sql (list RunRecovery) :=
  match rows with
  | [] => pret []
  | (jid, j) :: rows =>
      let! r := _recover_current_run jid (j_current_run_id j) cutoff recovered_at in
      let! l := recover_rows rows cutoff recovered_at in
      pret (match r with Some r => r :: l | None => l end)
  end.

Definition recover_stale_running_jobs (cutoff recovered_at : Z) (limit : option nat) :
    store (list RunRecovery) :=
  transaction (
    match limit with
    | Some O => praise (ValueError "limit must be positive")
    | _ =>
        let! rows := query (recovery_rows cutoff limit) in
        recover_rows rows cutoff recovered_at
    end).
End recovery.
