(* ===== verification/JobDeletion.v ===== *)
(** * Cancellation and deletion ([storage/job_deletion.py]) *)

From S2P Require Import Prelude.
From S2P Require Import Rows.
From S2P Require Import JobDb.
From S2P Require Import JobModel.
Open Scope Z_scope.

Inductive CancellationAction := c_cancelled | already_cancelled | c_missing | c_conflict | run_conflict.

Record CancellationOutcome := {
  co_action : CancellationAction;
  co_job_id : string;
  co_run_id : option string;
  co_prior_status : option JobStatus;
  co_resulting_status : option JobStatus;
}.

(** [CancellationOutcome.queue_quiescence_required] *)
Definition queue_quiescence_required (o : CancellationOutcome) : bool :=
  match co_action o, co_run_id o with
  | (c_cancelled | already_cancelled), Some _ => true
  | _, _ => false
  end.

Inductive DeletionReservationAction :=
| reservation_created | resumed | r_missing | r_active_conflict | policy_conflict
| pending_webhook_conflict.

#[export] Instance DeletionReservationAction_eq_dec : EqDecision DeletionReservationAction.
Proof. solve_decision. Defined.

Record DeletionReservationOutcome := {
  dr_action : DeletionReservationAction;
  dr_run_id : option string;
  dr_prior_status : option JobStatus;
  dr_delete_results : bool;
  dr_owned_run_ids : list string;
}.

Inductive DeletionFinalizationAction :=
| deleted | f_missing | not_reserved | f_policy_conflict | f_pending_webhook_conflict
| unexpired_idempotency_conflict.

Definition cancellation_outcome (jid : string) (rid : option string) (prior : JobStatus)
    (action : CancellationAction) (result : JobStatus) : CancellationOutcome :=
  {| co_action := action; co_job_id := jid; co_run_id := rid;
     co_prior_status := Some prior; co_resulting_status := Some result |}.

(** The current run of a running job is cancelled with it. *)
Definition cancel_current_run (jid : string) (rid : option string) (cancelled_at : Z) : sql unit :=
  match rid with
  | None => praise (RuntimeError "Running job cannot be cancelled without current_run_id")
  | Some r =>
      let! n := update_run jid r (λ _ r, bool_decide (r_status r = running))
        (λ r, set_r_completed_at (Some cancelled_at) (set_r_status cancelled r)) in
      if negb (n =? 1)
      then praise (RuntimeError "Running job cancellation could not update its exact run")
      else pret tt
  end.

Definition cancel_job (jid : string) (cancelled_at : Z) (expected_run_id : option string) :
    store CancellationOutcome :=
  transaction (
    let! row := query (λ d, jobs d !! jid) in
    match row with
    | None => rollback_with {| co_action := c_missing; co_job_id := jid; co_run_id := None;
                               co_prior_status := None; co_resulting_status := None |}
    | Some j =>
        let prior := j_status j in
        let rid := j_current_run_id j in
        let outcome := cancellation_outcome jid rid prior in
        if match expected_run_id with
           | Some e => negb (bool_decide (rid = Some e)) | None => false end
        then rollback_with (outcome run_conflict prior)
        else if bool_decide (prior = cancelled)
        then rollback_with (outcome already_cancelled cancelled)
        else if negb (is_active prior) then rollback_with (outcome c_conflict prior)
        else
          do! (if bool_decide (prior = running) then cancel_current_run jid rid cancelled_at
               else pret tt) in
          let! n := update_job jid
            (λ j, bool_decide (j_status j = prior) && opt_is (j_current_run_id j) rid)
            (λ j, set_j_updated_at (Some cancelled_at)
                    (set_j_schedule_enabled false (set_j_status cancelled j))) in
          if negb (n =? 1)
          then praise (RuntimeError "Job cancellation lost ownership inside its transaction")
          else pret (outcome c_cancelled cancelled)
    end).

Definition has_pending_webhook (d : DB) (jid : string) : bool :=
  bool_decide (map_Exists (λ _ w, w_job_id w = jid ∧ w_status w = Delivery.pending)
                 (webhook_deliveries d)).

(** The run ids of a job, its current one included, sorted ([sorted(set)]). *)
Definition owned_run_ids (d : DB) (jid : string) (current : option string) : list string :=
  let ids : gset string :=
    dom (filter (λ x : string * RunRow, r_job_id x.2 = jid) (job_runs d)) ∪
    match current with Some r => {[ r ]} | None => ∅ end in
  merge_sort String.le (elements ids).

Definition reservation_outcome (rid : option string) (prior : JobStatus) (delete_results : bool)
    (action : DeletionReservationAction) (ids : list string) : DeletionReservationOutcome :=
  {| dr_action := action; dr_run_id := rid; dr_prior_status := Some prior;
     dr_delete_results := delete_results; dr_owned_run_ids := ids |}.

(** The rest of the reservation once its source state is known to allow it: no pending
    webhook, the status change of a new reservation, and the runs to clean up. *)
Definition complete_reservation (jid : string) (delete_results : bool) (requested_at : Z)
    (prior : JobStatus) (rid : option string) (action : DeletionReservationAction) :
    sql DeletionReservationOutcome :=
  let outcome := reservation_outcome rid prior delete_results in
  let! pending := query (λ d, has_pending_webhook d jid) in
  if pending then rollback_with (outcome pending_webhook_conflict [])
  else
    do! (if bool_decide (action = reservation_created) then
           let! n := update_job jid
             (λ j, bool_decide (j_status j = prior) && opt_is (j_current_run_id j) rid)
             (λ j, set_j_delete_results_on_delete (Some delete_results)
                     (set_j_deletion_requested_at (Some requested_at)
                       (set_j_updated_at (Some requested_at)
                         (set_j_schedule_enabled false (set_j_status deleting j))))) in
           if negb (n =? 1)
           then praise (RuntimeError "Deletion reservation lost ownership inside transaction")
           else pret tt
         else pret tt) in
    let! ids := query (λ d, owned_run_ids d jid rid) in
    pret (outcome action ids).

Definition reserve_job_deletion (jid : string) (delete_results : bool) (requested_at : Z) :
    store DeletionReservationOutcome :=
  transaction (
    let! row := query (λ d, jobs d !! jid) in
    match row with
    | None => rollback_with {| dr_action := r_missing; dr_run_id := None; dr_prior_status := None;
                               dr_delete_results := delete_results; dr_owned_run_ids := [] |}
    | Some j =>
        let prior := j_status j in
        let rid := j_current_run_id j in
        match prior with
        | queued | running =>
            rollback_with (reservation_outcome rid prior delete_results r_active_conflict [])
        | deleting =>
            if opt_eqb (j_delete_results_on_delete j) delete_results
            then complete_reservation jid delete_results requested_at prior rid resumed
            else rollback_with (reservation_outcome rid prior delete_results policy_conflict [])
        | cancelled | complete | partial | failed =>
            complete_reservation jid delete_results requested_at prior rid reservation_created
        end
    end).

Definition finalize_job_deletion (jid : string) (delete_results : bool)
    (preserve_idempotency_after : option Z) : store DeletionFinalizationAction :=
  transaction (
    let! row := query (λ d, jobs d !! jid) in
    match row with
    | None => rollback_with f_missing
    | Some j =>
        if negb (bool_decide (j_status j = deleting)) then rollback_with not_reserved
        else if negb (opt_eqb (j_delete_results_on_delete j) delete_results)
        then rollback_with f_policy_conflict
        else
          let! pending := query (λ d, has_pending_webhook d jid) in
          if pending then rollback_with f_pending_webhook_conflict
          else
            let! preserved := query (λ d,
              match preserve_idempotency_after with
              | Some t => bool_decide (map_Exists (λ _ i, i_job_id i = jid ∧ t < i_expires_at i)
                                         (scrape_idempotency d))
              | None => false
              end) in
            if preserved then rollback_with unexpired_idempotency_conflict
            else
              do! keep_webhooks (λ x, negb (bool_decide (w_job_id x.2 = jid))) in
              do! keep_idempotency (λ x, negb (bool_decide (i_job_id x.2 = jid))) in
              do! keep_snapshots (λ x, negb (bool_decide (s_job_id x.2 = jid))) in
              do! keep_runs (λ x, negb (bool_decide (r_job_id x.2 = jid))) in
              let! n := delete_job jid
                (λ _ j, bool_decide (j_status j = deleting) &&
                        opt_eqb (j_delete_results_on_delete j) delete_results) in
              if negb (n =? 1)
              then praise (RuntimeError "Final job deletion lost its persisted reservation")
              else pret deleted
    end).
