(* ===== verification/JobRetention.v ===== *)
(** * Retention of job and run history ([storage/job_retention.py]) *)

From S2P Require Import Prelude.
From S2P Require Import Rows.
From S2P Require Import JobDb.
From S2P Require Import JobModel.
Open Scope Z_scope.

(** A delivery that still has to be kept: not dead, not scrubbed, or scrubbed after the
    tombstone limit. *)
Definition blocks_retention (tombstone_before : Z) (w : WebhookRow) : Prop :=
  w_status w = Delivery.pending ∨ w_scrubbed_at w = None ∨ opt_gtb (w_scrubbed_at w) tombstone_before = true.
#[export] Instance blocks_retention_dec t w : Decision (blocks_retention t w).
Proof. unfold blocks_retention. apply _. Defined.

(** [adhoc_retention_eligibility_sql] *)
Definition adhoc_eligible (expired_before tombstone_before observed_at : Z) (d : DB)
    (jid : string) (j : JobRow) : bool :=
  bool_decide (j_schedule_cron j = None) &&
  (((is_terminal (j_status j) || bool_decide (j_status j = cancelled)) &&
    (default (j_created_at j) (j_updated_at j) <=? expired_before)) ||
   (bool_decide (j_status j = deleting) && opt_eqb (j_delete_results_on_delete j) false)) &&
  negb (bool_decide (map_Exists (λ _ w, w_job_id w = jid ∧ blocks_retention tombstone_before w)
                       (webhook_deliveries d))) &&
  negb (bool_decide (map_Exists (λ _ i, i_job_id i = jid ∧ observed_at < i_expires_at i)
                       (scrape_idempotency d))).

Definition adhoc_key (j : JobRow) : Z :=
  default (j_created_at j) (coalesce (j_deletion_requested_at j) (j_updated_at j)).

Definition adhoc_before (a b : string * JobRow) : Prop :=
  (adhoc_key a.2 <? adhoc_key b.2) ||
  ((adhoc_key a.2 =? adhoc_key b.2) && String.leb a.1 b.1) = true.
#[export] Instance adhoc_before_dec a b : Decision (adhoc_before a b).
Proof. unfold adhoc_before. apply _. Defined.

Definition list_adhoc_jobs_for_retention (expired_before observed_at tombstone_before : Z)
    (limit : nat) (d : DB) : outcome store_error (list string) :=
  if (limit <? 1)%nat then Raise (ValueError "Ad-hoc job cleanup limit must be positive")
  else Ok (take limit (merge_sort adhoc_before
    (filter (λ x, adhoc_eligible expired_before tombstone_before observed_at d x.1 x.2 = true)
       (map_to_list (jobs d)))).*1).

(** The terminal runs of the same job that started later (ties by run id). *)
Definition newer_runs (d : DB) (rid : string) (r : RunRow) : nat :=
  size (filter (λ x : string * RunRow,
    r_job_id x.2 = r_job_id r ∧ is_terminal (r_status x.2) = true ∧
    ((r_started_at r <? r_started_at x.2) ||
     ((r_started_at x.2 =? r_started_at r) && String.ltb rid x.1)) = true) (job_runs d)).

(** [scheduled_history_eligibility_sql] *)
Definition scheduled_eligible (tombstone_before expired_before max_runs : Z) (d : DB)
    (rid : string) (r : RunRow) (j : JobRow) : bool :=
  bool_decide (is_Some (j_schedule_cron j)) && is_terminal (r_status r) &&
  negb (bool_decide (j_current_run_id j = Some rid)) &&
  bool_decide (is_Some (r_webhook_reconciled_at r)) &&
  negb (bool_decide (map_Exists (λ _ w, w_job_id w = r_job_id r ∧ w_run_id w = Some rid ∧
                                        blocks_retention tombstone_before w)
                       (webhook_deliveries d))) &&
  ((default (r_started_at r) (r_completed_at r) <=? expired_before) ||
   (max_runs <=? Z.of_nat (newer_runs d rid r))).

Definition scheduled_key (r : RunRow) : Z := default (r_started_at r) (r_completed_at r).
(** The join of [jobs] and [job_runs] under the eligibility condition, by job id, run id and key. *)
Definition scheduled_candidates (tombstone_before expired_before max_runs : Z) (d : DB) : list (string * string * Z) :=
  omap (λ x : string * RunRow,
    match jobs d !! r_job_id x.2 with
    | Some j => if scheduled_eligible tombstone_before expired_before max_runs d x.1 x.2 j
                then Some (r_job_id x.2, x.1, scheduled_key x.2) else None
    | None => None
    end) (map_to_list (job_runs d)).
Definition candidate_before (a b : string * string * Z) : Prop :=
  (a.2 <? b.2) || ((a.2 =? b.2) &&
    (String.ltb a.1.1 b.1.1 || (bool_decide (a.1.1 = b.1.1) && String.leb a.1.2 b.1.2))) = true.
#[export] Instance candidate_before_dec a b : Decision (candidate_before a b).
Proof. unfold candidate_before. apply _. Defined.

Definition list_scheduled_runs_for_retention (expired_before tombstone_before max_runs : Z)
    (limit : nat) (d : DB) : outcome store_error (list (string * string)) :=
  if (max_runs <? 1) || (limit <? 1)%nat then Raise (ValueError "Scheduled run retention bounds must be positive")
  else Ok (take limit (merge_sort candidate_before (scheduled_candidates tombstone_before expired_before max_runs d))).*1.

(** ** The backlog *)

(** [COUNT] and [MIN] of what is due. *)
Definition counted (keys : list Z) : nat * option Z :=
  (length keys, match keys with [] => None | k :: keys => Some (foldr Z.min k keys) end).
Definition cleanup_backlog_rows (observed_at adhoc_expired_before scheduled_expired_before tombstone_before max_runs : Z)
    (d : DB) : (nat * option Z) * (nat * option Z) * (nat * option Z) :=
  (counted (map (λ x, i_expires_at x.2) (filter (λ x, i_expires_at x.2 ≤ observed_at) (map_to_list (scrape_idempotency d)))),
   counted (map (λ x, adhoc_key x.2)
     (filter (λ x, adhoc_eligible adhoc_expired_before tombstone_before observed_at d x.1 x.2 = true) (map_to_list (jobs d)))),
   counted (map snd (scheduled_candidates tombstone_before scheduled_expired_before max_runs d))).

Definition prune_scheduled_run_for_retention (jid rid : string)
    (expired_before tombstone_before max_runs : Z) : store (bool * Z) :=
  if max_runs <? 1 then praise (ValueError "Scheduled run retention count must be positive")
  else transaction (
    let! ok := query (λ d,
      match job_runs d !! rid, jobs d !! jid with
      | Some r, Some j => bool_decide (r_job_id r = jid) &&
                          scheduled_eligible tombstone_before expired_before max_runs d rid r j
      | _, _ => false
      end) in
    if negb ok then rollback_with (false, 0)
    else
      let! tombstones := keep_webhooks (λ x,
        negb (bool_decide (w_job_id x.2 = jid) && bool_decide (w_run_id x.2 = Some rid) &&
              negb (bool_decide (w_status x.2 = Delivery.pending)) &&
              opt_leb (w_scrubbed_at x.2) tombstone_before)) in
      let! n := delete_run jid rid (λ r, is_terminal (r_status r)) in
      if negb (n =? 1)
      then praise (RuntimeError "Scheduled history pruning lost its selected run")
      else pret (true, tombstones)).
