(* ===== verification/JobStore.v ===== *)
(** * The job store's operations ([storage/job_store.py])

    One definition per method of [SQLiteJobStore] that changes state, with the queries
    they make, and the reads other components decide on. [u] is the randomness of the
    encryption, [adm] the admission settings with the memory headroom that was measured. *)

From S2P Require Import Prelude.
From S2P Require Import Sha256.
From S2P Require Import Envelope.
From S2P Require Import Rows.
From S2P Require Import JobDb.
From S2P Require Import JobModel.
From S2P Require Import Json.
From S2P Require Import Outbox.
From S2P Require Import JobTerminal.
From S2P Require Import JobRecovery.
Open Scope Z_scope.

Section store.
Context `{Vault} `{JsonText}.

(** [_get_job_in_db] *)
Definition _get_job_in_db (jid : string) : sql (option Job) :=
  let! row := query (λ d, jobs d !! jid) in
  match row with
  | None => pret None
  | Some j => let! job := lift (row_to_job jid j) in pret (Some job)
  end.

(** ** Admission and submission *)

(** The rows that hold a reservation. *)
Definition holds_reservation (x : string * JobRow) : Prop :=
  is_active (j_status x.2) = true ∧ is_Some (j_current_run_id x.2).
#[export] Instance holds_reservation_dec x : Decision (holds_reservation x).
Proof. unfold holds_reservation. apply _. Defined.

Definition accepted_runs (d : DB) : Z := Z.of_nat (size (filter holds_reservation (jobs d))).

Definition _check_admission (adm : admission) : sql unit :=
  let! n := query accepted_runs in
  if workers_max_accepted_runs adm <? n then praise (AdmissionCapacityError "backlog")
  else if headroom_mb adm <=? 0 then praise (AdmissionCapacityError "memory")
  else pret tt.

Definition new_trigger_of (job : Job) : option string :=
  match current_trigger job, current_run_id job with
  | None, Some _ => Some (match schedule_cron job with Some _ => "scheduled" | None => "adhoc" end)
  | t, _ => t
  end.

Definition job_row (u : entropy) (job : Job) : JobRow :=
  {| j_project := project job; j_name := name job; j_status := status job;
     j_config_yaml := protect_text u (jobs_purpose (job_id job)) (config_yaml job);
     j_config_hash := sha256 (config_yaml job); j_created_at := created_at job;
     j_updated_at := updated_at job; j_schedule_cron := schedule_cron job;
     j_schedule_timezone := schedule_timezone job; j_schedule_enabled := schedule_enabled job;
     j_current_run_id := current_run_id job; j_current_trigger := new_trigger_of job;
     j_deletion_requested_at := deletion_requested_at job;
     j_delete_results_on_delete := delete_results_on_delete job;
     j_schedule_failure_at := schedule_failure_at job;
     j_schedule_failure_code := schedule_failure_code job;
     j_schedule_consecutive_failures := schedule_consecutive_failures job;
     j_lifetime_run_count := 0; j_last_run_at := None |}.

Definition snapshot_row (u : entropy) (job : Job) (rid : string) : SnapshotRow :=
  {| s_job_id := job_id job; s_trigger := or_text (new_trigger_of job) "adhoc";
     s_config_hash := sha256 (config_yaml job);
     s_config_yaml := protect_text u (snapshot_purpose rid) (config_yaml job);
     s_queued_at := default (created_at job) (updated_at job) |}.

Definition _insert_job (u : entropy) (adm : admission) (job : Job) : sql unit :=
  do! insert_job (job_id job) (job_row u job) in
  match status job, current_run_id job with
  | queued, Some rid =>
      do! _check_admission adm in
      insert_snapshot rid (snapshot_row u job rid)
  | _, _ => pret tt
  end.

Definition save_job (u : entropy) (adm : admission) (job : Job) : store string :=
  transaction (
    do! rename_duplicate (project job) (name job) (_insert_job u adm job) in
    pret (job_id job)).

Definition create_idempotent_job (u : entropy) (adm : admission) (job : Job)
    (caller_scope key_digest request_hash response_mode : string) (expires_at : Z) :
    store IdempotentJobOutcome :=
  match current_run_id job with
  | None => praise (ValueError "Idempotent ad-hoc jobs require current_run_id")
  | Some rid =>
      transaction (
        do! keep_idempotency (λ x, negb (bool_decide (x.1 = (caller_scope, key_digest)) &&
                                         (i_expires_at x.2 <=? created_at job))) in
        let! row := query (λ d,
          match scrape_idempotency d !! (caller_scope, key_digest) with
          | Some i => match jobs d !! i_job_id i with Some j => Some (i, j) | None => None end
          | None => None
          end) in
        match row with
        | Some (i, j) =>
            let! existing := lift (row_to_job (i_job_id i) j) in
            pret {| i_action := if bool_decide (i_request_hash i = request_hash) &&
                                   bool_decide (i_response_mode i = response_mode)
                                then matched else conflict;
                    i_job := existing; i_run := i_run_id i; i_mode := i_response_mode i |}
        | None =>
            do! rename_duplicate (project job) (name job) (_insert_job u adm job) in
            do! insert_idempotency caller_scope key_digest
                  {| i_request_hash := request_hash; i_job_id := job_id job; i_run_id := rid;
                     i_response_mode := response_mode; i_created_at := created_at job;
                     i_expires_at := expires_at |} in
            pret {| i_action := created; i_job := job; i_run := rid; i_mode := response_mode |}
        end)
  end.

(** [get_submission_receipt], the columns that identify the acceptance. *)
Definition get_submission_receipt (caller_scope key_digest : string) (observed_at : Z) (d : DB) :
    option (string * string * string * string) :=
  match scrape_idempotency d !! (caller_scope, key_digest) with
  | Some i =>
      match jobs d !! i_job_id i with
      | Some j => if observed_at <? i_expires_at i
                  then Some (i_job_id i, i_run_id i, i_request_hash i, j_project j) else None
      | None => None
      end
  | None => None
  end.

(** No run and no delivery of a job. *)
Definition no_history (d : DB) (jid : string) : bool :=
  bool_decide (map_Forall (λ _ r, r_job_id r ≠ jid) (job_runs d)) &&
  bool_decide (map_Forall (λ _ w, w_job_id w ≠ jid) (webhook_deliveries d)).

Definition rollback_queued_submission (jid rid : string) : store bool :=
  transaction (
    let! ok := query (λ d,
      match jobs d !! jid with
      | Some j => owned_as queued rid j && no_history d jid
      | None => false
      end) in
    if negb ok then rollback_with false
    else
      do! keep_idempotency (λ x, negb (bool_decide (i_job_id x.2 = jid) &&
                                       bool_decide (i_run_id x.2 = rid))) in
      do! delete_snapshot jid rid in
      let! n := delete_job jid (λ _, owned_as queued rid) in
      if negb (n =? 1) then praise (RuntimeError "Queued submission rollback lost ownership")
      else pret true).

(** [delete_expired_idempotency_records]: the [limit] first expired records by expiry,
    scope and digest. *)
Definition expiry_before (a b : (string * string) * IdempotencyRow) : Prop :=
  (i_expires_at a.2 <? i_expires_at b.2) ||
  ((i_expires_at a.2 =? i_expires_at b.2) &&
   (String.ltb a.1.1 b.1.1 || (bool_decide (a.1.1 = b.1.1) && String.leb a.1.2 b.1.2))) = true.
#[export] Instance expiry_before_dec a b : Decision (expiry_before a b).
Proof. unfold expiry_before. apply _. Defined.

Definition expired_idempotency (expired_before : Z) (limit : nat) (d : DB) : list (string * string) :=
  (take limit (merge_sort expiry_before
    (filter (λ x, i_expires_at x.2 ≤ expired_before) (map_to_list (scrape_idempotency d))))).*1.

Definition delete_expired_idempotency_records (expired_before : Z) (limit : nat) : store Z :=
  if (limit <? 1)%nat then praise (ValueError "Idempotency cleanup limit must be positive")
  else transaction (
    let! keys := query (expired_idempotency expired_before limit) in
    do! keep_idempotency (λ x, negb (bool_decide (x.1 ∈ keys))) in
    pret (Z.of_nat (length keys))).

(** ** Scheduled jobs *)

Definition mutation (a : ScheduledJobMutationAction) (p c : option Job) :
    ScheduledJobMutationOutcome := {| m_action := a; m_previous := p; m_current := c |}.

Definition same_mutation (a : ScheduledJobMutationAction) (p : Job) : sql ScheduledJobMutationOutcome :=
  pret (mutation a (Some p) (Some p)).

Definition closed_lifecycle (s : JobStatus) : bool :=
  bool_decide (s = cancelled) || bool_decide (s = deleting).

(** The columns [update_scheduled_job] and [restore_scheduled_job] assign. *)
Definition set_schedule (u : entropy) (jid project name config : string) (cron : option string)
    (timezone : string) (enabled : bool) (updated_at : option Z) (j : JobRow) : JobRow :=
  set_j_updated_at updated_at (set_j_schedule_enabled enabled (set_j_schedule_timezone timezone
    (set_j_schedule_cron cron (set_j_config_hash (sha256 config)
      (set_j_config_yaml (protect_text u (jobs_purpose jid) config)
        (set_j_name name (set_j_project project j))))))).

Definition update_scheduled_job (u : entropy) (jid project_ name_ config cron timezone : string)
    (enabled : bool) (updated_at_ : Z) : store ScheduledJobMutationOutcome :=
  transaction (
    let! previous := _get_job_in_db jid in
    match previous with
    | None => pret (mutation missing None None)
    | Some p =>
        if bool_decide (schedule_cron p = None) then same_mutation not_scheduled p
        else if negb (bool_decide (project p = project_)) then same_mutation project_conflict p
        else if closed_lifecycle (status p) then same_mutation lifecycle_conflict p
        else if bool_decide (status p = running) ||
                (bool_decide (status p = queued) && bool_decide (is_Some (current_run_id p)))
        then same_mutation active_conflict p
        else
          do! rename_duplicate project_ name_ (
            update_job_named jid (λ _, true)
              (set_schedule u jid project_ name_ config (Some cron) timezone enabled
                 (Some updated_at_))) in
          let! current := _get_job_in_db jid in
          match current with
          | None => praise (RuntimeError "Scheduled job disappeared during update")
          | Some c => pret (mutation updated (Some p) (Some c))
          end
    end).

Definition with_schedule_enabled (enabled : bool) (updated_at_ : Z) (p : Job) : Job :=
  {| job_id := job_id p; project := project p; name := name p; status := status p;
     config_yaml := config_yaml p; created_at := created_at p; updated_at := Some updated_at_;
     schedule_cron := schedule_cron p; schedule_timezone := schedule_timezone p;
     schedule_enabled := enabled; current_run_id := current_run_id p;
     current_trigger := current_trigger p; deletion_requested_at := deletion_requested_at p;
     delete_results_on_delete := delete_results_on_delete p;
     schedule_failure_at := schedule_failure_at p; schedule_failure_code := schedule_failure_code p;
     schedule_consecutive_failures := schedule_consecutive_failures p |}.

Definition set_schedule_enabled (jid : string) (enabled : bool) (updated_at_ : Z) :
    store ScheduledJobMutationOutcome :=
  transaction (
    let! previous := _get_job_in_db jid in
    match previous with
    | None => pret (mutation missing None None)
    | Some p =>
        if bool_decide (schedule_cron p = None) then same_mutation not_scheduled p
        else if closed_lifecycle (status p) then same_mutation lifecycle_conflict p
        else if bool_decide (schedule_enabled p = enabled) then same_mutation unchanged p
        else
          do! update_job jid (λ _, true)
            (λ j, set_j_updated_at (Some updated_at_) (set_j_schedule_enabled enabled j)) in
          pret (mutation updated (Some p) (Some (with_schedule_enabled enabled updated_at_ p)))
    end).

Definition restore_scheduled_job (u : entropy) (expected previous : Job) : store bool :=
  transaction (
    let! n := update_job_named (job_id expected)
      (λ j, bool_decide (j_project j = project expected) && bool_decide (j_name j = name expected) &&
            bool_decide (j_config_hash j = sha256 (config_yaml expected)) &&
            opt_is (j_schedule_cron j) (schedule_cron expected) &&
            bool_decide (j_schedule_timezone j = schedule_timezone expected) &&
            bool_decide (j_schedule_enabled j = schedule_enabled expected) &&
            opt_is (j_updated_at j) (updated_at expected) &&
            bool_decide (j_status j = status expected) &&
            opt_is (j_current_run_id j) (current_run_id expected))
      (set_schedule u (job_id previous) (project previous) (name previous) (config_yaml previous)
         (schedule_cron previous) (schedule_timezone previous) (schedule_enabled previous)
         (updated_at previous)) in
    pret (n =? 1)).

Definition rollback_scheduled_job_creation (jid : string) : store bool :=
  transaction (
    let! n := delete_job jid (λ d j,
      bool_decide (is_Some (j_schedule_cron j)) && bool_decide (j_status j = queued) &&
      bool_decide (j_current_run_id j = None) && no_history d jid) in
    pret (n =? 1)).

Definition get_job (jid : string) : store Job :=
  read (λ d, match jobs d !! jid with
             | None => Raise (KeyError jid)
             | Some j => row_to_job jid j
             end).

(** [^[a-z][a-z0-9_]{0,63}$] *)
Definition failure_code_ok (code : string) : bool :=
  let lower := λ c, (97 <=? c) && (c <=? 122) in
  match Sha256.bytes_of code with
  | [] => false
  | c :: l => lower c && forallb (λ c, lower c || ((48 <=? c) && (c <=? 57)) || (c =? 95)) l &&
              (length l <=? 63)%nat
  end.

(** The enabled schedule a missed fire is recorded for. *)
Definition enabled_schedule (d : DB) (jid : string) : option JobRow :=
  match jobs d !! jid with
  | Some j => if bool_decide (is_Some (j_schedule_cron j)) && j_schedule_enabled j &&
                 negb (closed_lifecycle (j_status j)) then Some j else None
  | None => None
  end.

Definition missed_run_row (jid code : string) (failed_at : Z) (j : JobRow) : RunRow :=
  {| r_job_id := jid; r_status := failed; r_trigger := "scheduled";
     r_config_hash := j_config_hash j; r_config_yaml := None; r_started_at := failed_at;
     r_heartbeat_at := Some failed_at; r_completed_at := Some failed_at;
     r_record_count := Some 0; r_error_count := 1;
     r_webhook_reconciled_at := Some failed_at; r_failure_code := Some code;
     r_webhook_reconciliation_failed_at := None |}.

Definition parent_can_converge (rid : string) (j : JobRow) : bool :=
  (negb (is_active (j_status j)) && negb (closed_lifecycle (j_status j))) ||
  (bool_decide (j_status j = queued) &&
   (bool_decide (j_current_run_id j = None) || opt_eqb (j_current_run_id j) rid)).

(** The columns the UPDATE of a missed fire assigns. *)
Definition missed_parent (converge : bool) (rid code : string) (failed_at : Z) (j : JobRow) : JobRow :=
  let j := set_j_schedule_consecutive_failures (j_schedule_consecutive_failures j + 1)
             (set_j_schedule_failure_code (Some code)
                (set_j_schedule_failure_at (Some failed_at) j)) in
  if converge
  then set_j_updated_at (Some failed_at) (set_j_current_trigger (Some "scheduled")
         (set_j_current_run_id (Some rid) (set_j_status failed j)))
  else j.

Definition record_scheduled_trigger_failure (jid rid : string) (failed_at : Z) (code : string) :
    store bool :=
  if negb (failure_code_ok code)
  then praise (ValueError "Scheduled failure code must be a bounded safe identifier")
  else transaction (
    let! row := query (λ d, enabled_schedule d jid) in
    match row with
    | None => rollback_with false
    | Some j =>
        let! n := insert_run_or_ignore rid (missed_run_row jid code failed_at j) in
        let! usable := query (λ d,
          negb (n =? 0) ||
          match job_runs d !! rid with
          | Some r => bool_decide (r_job_id r = jid) && bool_decide (r_status r = failed)
          | None => false
          end) in
        if negb usable then rollback_with false
        else
          do! update_job jid (λ _, true)
            (missed_parent (parent_can_converge rid j) rid code failed_at) in
          pret true
    end).

(** [SCHEDULED_JOBS_QUERY]: a schedule that a trigger may still run. *)
Definition runnable_schedule (j : JobRow) : bool :=
  bool_decide (is_Some (j_schedule_cron j)) && negb (bool_decide (j_status j = cancelled)) &&
  negb (bool_decide (j_status j = deleting)).
Definition list_scheduled_jobs : store (list (string * string * string * bool)) :=
  read (λ d, Ok (omap (λ x,
    if runnable_schedule x.2
    then match j_schedule_cron x.2 with
         | Some cron => Some (x.1, cron, j_schedule_timezone x.2, j_schedule_enabled x.2)
         | None => None
         end
    else None) (map_to_list (jobs d)))).

Definition missed_before (a b : string * JobRow) : Prop :=
  (default 0 (j_schedule_failure_at a.2) <? default 0 (j_schedule_failure_at b.2)) ||
  ((default 0 (j_schedule_failure_at a.2) =? default 0 (j_schedule_failure_at b.2)) && String.leb a.1 b.1) = true.
#[export] Instance missed_before_dec a b : Decision (missed_before a b).
Proof. unfold missed_before. apply _. Defined.
Definition list_scheduled_trigger_failures : store (list (string * string)) :=
  read (λ d, Ok (omap (λ x, option_map (λ code, (x.1, code)) (j_schedule_failure_code x.2))
    (merge_sort missed_before
       (filter (λ x, runnable_schedule x.2 && j_schedule_enabled x.2 &&
                     bool_decide (is_Some (j_schedule_failure_at x.2)) = true) (map_to_list (jobs d)))))).

Definition clear_scheduled_trigger_failure (jid : string) : store bool :=
  transaction (
    let! n := update_job jid
      (λ j, bool_decide (is_Some (j_schedule_cron j)) && bool_decide (is_Some (j_schedule_failure_at j)))
      (λ j, set_j_schedule_consecutive_failures 0 (set_j_schedule_failure_code None
              (set_j_schedule_failure_at None j))) in
    pret (n =? 1)).
End store.
