(* ===== verification/TxStore.v ===== *)
(** * Transaction rules of the store's shared steps

    Tx.v's rules for the steps several operations share: failing a queued run, inserting a
    delivery, committing with a terminal intent. [txs] is [tx] with them. *)

From S2P Require Import Prelude.
From S2P Require Import Envelope.
From S2P Require Import Rows.
From S2P Require Import JobDb.
From S2P Require Import JobModel.
From S2P Require Import Tx.
From S2P Require Import Json.
From S2P Require Import Outbox.
From S2P Require Import JobTerminal.
From S2P Require Import JobRecovery.
From S2P Require Import JobStore.
Open Scope Z_scope.

Section rules.
Context `{Vault} `{JsonText}.

(** The outbox after [INSERT OR IGNORE] of a delivery, and of an optional one. *)
Definition add_delivery (u : entropy) (w : WebhookDeliveryCreate) (t : Z)
    (m : gmap string WebhookRow) : gmap string WebhookRow :=
  match m !! delivery_id w with Some _ => m | None => <[delivery_id w := delivery_row u w t]> m end.
Definition add_intent (u : entropy) (w : option WebhookDeliveryCreate) (t : Z)
    (m : gmap string WebhookRow) : gmap string WebhookRow :=
  match w with Some w => add_delivery u w t m | None => m end.

Definition payload_matches (w : WebhookDeliveryCreate) : bool :=
  payload_is (d_payload w) "delivery_id" (delivery_id w).

Lemma pure_update_job_named jid cond set : pure_tx (update_job_named jid cond set).
Proof. apply pure_execute. Qed.

Lemma pure_insert_job u adm job : pure_tx (_insert_job u adm job).
Proof.
  unfold _insert_job, _check_admission. apply pure_bind; [apply pure_execute|intros []].
  destruct (status job), (current_run_id job); eauto with scrape.
  apply pure_bind; [|intros []; apply pure_execute].
  apply pure_bind; [apply pure_query|]. intros n.
  destruct (_ <? n); [apply pure_raise|]. destruct (_ <=? 0); eauto with scrape.
Qed.

(** Inserting a job, and the snapshot of its run when it has one. *)
Definition with_job (u : entropy) (job : Job) (d : DB) : DB :=
  let d' := set_jobs (<[job_id job := job_row u job]> (jobs d)) d in
  match status job, current_run_id job with
  | queued, Some rid =>
      set_queued_run_snapshots (<[rid := snapshot_row u job rid]> (queued_run_snapshots d)) d'
  | _, _ => d'
  end.

Lemma tx_insert_new_job {A} d0 d (Q : outcome store_error A → DB → Prop) u adm job k :
  (jobs d !! job_id job = None → name_taken d (job_id job) (project job) (name job) = false →
   (status job = queued → is_Some (current_run_id job) →
    accepted_runs (with_job u job d) ≤ workers_max_accepted_runs adm) →
   (∀ rid, status job = queued → current_run_id job = Some rid →
           queued_run_snapshots d !! rid = None) →
   tx_post d0 (with_job u job d) (k tt) Q) →
  (∀ e, Q (Raise e) d0) →
  tx_post d0 d (pbind (rename_duplicate (project job) (name job) (_insert_job u adm job)) k) Q.
Proof.
  intros Hk Hr. apply tx_rename; [apply pure_insert_job| |done].
  unfold _insert_job, _check_admission, with_job in *.
  destruct (status job) eqn:Hs, (current_run_id job) as [rid|] eqn:Hc; tx; try by apply Hr.
  all: apply Hk; try done.
  - intros _ _. by apply Z.ltb_ge.
  - by intros rid' _ [= <-].
Qed.

Lemma tx_insert_webhook_delivery {A} d0 d (Q : outcome store_error A → DB → Prop) u w t k :
  (payload_matches w = true →
   tx_post d0 (set_webhook_deliveries (add_delivery u w t (webhook_deliveries d)) d)
     (k (bool_decide (webhook_deliveries d !! delivery_id w = None))) Q) →
  (payload_matches w = false → ∀ s, Q (Raise (ValueError s)) d0) →
  tx_post d0 d (pbind (insert_webhook_delivery u w t) k) Q.
Proof.
  unfold insert_webhook_delivery, payload_matches, add_delivery. intros Hk Hr.
  assert (set_webhook_deliveries (webhook_deliveries d) d = d) as Hd by by destruct d.
  destruct (payload_is _ _ _); simpl; [|by apply Hr].
  specialize (Hk eq_refl). tx; [|destruct H1 as [w' Hw]]; tx_guard;
    [rewrite H1 in Hk | rewrite Hw, Hd in Hk]; done.
Qed.

Definition intent_matches (w : option WebhookDeliveryCreate) : bool :=
  match w with Some w => payload_matches w | None => true end.

Lemma tx_commit_terminal_intent d0 d (Q : outcome store_error unit → DB → Prop) u w t :
  (intent_matches w = true →
   Q (Ok tt) (set_webhook_deliveries (add_intent u w t (webhook_deliveries d)) d)) →
  (intent_matches w = false → ∀ s, Q (Raise (ValueError s)) d0) →
  tx_post d0 d (commit_terminal_intent u w t) Q.
Proof.
  unfold commit_terminal_intent. intros Hk Hr. destruct w as [w|]; simpl in *.
  - apply tx_bind_assoc, tx_insert_webhook_delivery; [|done]. intros Hp. tx. by apply Hk.
  - destruct d. by apply Hk.
Qed.

Lemma tx_insert_failed_queued_run {A} d0 d (Q : outcome store_error A → DB → Prop)
    u jid rid t n code k :
  (∀ j, jobs d !! jid = Some j → j_current_run_id j = Some rid → job_runs d !! rid = None →
     tx_post d0 (set_queued_run_snapshots (drop_snapshot jid rid (queued_run_snapshots d))
                   (add_run rid (failed_run_row u jid rid t n code j (current_snapshot d jid j)) d))
       (k tt) Q) →
  (∀ e, Q (Raise e) d0) →
  tx_post d0 d (pbind (insert_failed_queued_run u jid rid t n code) k) Q.
Proof.
  intros Hk Hr. unfold insert_failed_queued_run. tx; try by apply Hr.
  destruct (jobs d !! jid) as [j'|] eqn:Hj; [|done].
  destruct (opt_eqb (j_current_run_id j') rid) eqn:Hc; [|done].
  simplify_eq. apply opt_eqb_true in Hc. by apply Hk.
Qed.

(** It succeeds on a job's current run that has no row yet. *)
Lemma tx_failed_queued_run_inserted {A} d0 d (Q : outcome store_error A → DB → Prop)
    u jid rid t n code k j :
  jobs d !! jid = Some j → j_current_run_id j = Some rid → job_runs d !! rid = None →
  tx_post d0 (set_queued_run_snapshots (drop_snapshot jid rid (queued_run_snapshots d))
                (add_run rid (failed_run_row u jid rid t n code j (current_snapshot d jid j)) d))
    (k tt) Q →
  tx_post d0 d (pbind (insert_failed_queued_run u jid rid t n code) k) Q.
Proof.
  intros Hj Hc Hr Hk. unfold insert_failed_queued_run.
  assert (opt_eqb (j_current_run_id j) rid = true) as Hb by by apply opt_eqb_true.
  tx; match goal with E : match jobs d !! jid with _ => _ end = _ |- _ => rewrite Hj, Hb in E end; simplify_eq.
  - exact Hk.
  - exfalso. by eapply is_Some_None; rewrite <- Hr.
Qed.
End rules.

#[export] Hint Resolve pure_update_job_named : scrape.

Ltac tx_shared :=
  lazymatch goal with
  | |- tx_post _ _ (commit_terminal_intent _ _ _) _ => apply tx_commit_terminal_intent; [intros ?|intros ? ?]
  | |- tx_post _ _ (pbind (rename_duplicate _ _ (_insert_job _ _ _)) _) _ =>
      apply tx_insert_new_job; [intros ? ? ? ? | intros ?]
  | |- tx_post _ _ (pbind (insert_webhook_delivery _ _ _) _) _ =>
      apply tx_insert_webhook_delivery; [intros ? | intros ? ?]
  | |- tx_post _ _ (pbind (insert_failed_queued_run _ _ _ _ _ _) _) _ =>
      apply tx_insert_failed_queued_run; [intros ? ? ? ? | intros ?]
  end.

Ltac txs := repeat (tx_guard; first [tx_last | tx_shared | tx_stmt]).
