(* ===== verification/JobRuns.v ===== *)
(** * The run lifecycle of the job store (second half of [storage/job_store.py])

    Queueing a run, claiming it, its heartbeat, and its end. Each operation is a
    compare-and-set on the parent's (status, current run) inside one transaction. *)

From S2P Require Import Prelude.
From S2P Require Import Sha256.
From S2P Require Import Envelope.
From S2P Require Import Rows.
From S2P Require Import JobDb.
From S2P Require Import JobModel.
From S2P Require Import Json.
From S2P Require Import Outbox.
From S2P Require Import JobTerminal.
From S2P Require Import JobRecovery.
From S2P Require Import JobStore.
Open Scope Z_scope.

(** [await db.rollback(); self._raise_ownership(..)] *)
Abbreviation lose operation jid rid := (rollback_raise (RunOwnershipError operation jid rid)).

Section runs.
Context `{Vault} `{JsonText}.

Definition run_is_active (jid rid : string) (d : DB) : bool :=
  match jobs d !! jid with
  | Some j =>
      owned_as running rid j &&
      match current_run d jid j with
      | Some r => bool_decide (r_status r = running)
      | None => false
      end
  | None => false
  end.

(** [get_job_run]; every row has a heartbeat, the column is NOT NULL. *)
Definition get_job_run (jid rid : string) : store (option RunRow) :=
  read (λ d, Ok (match job_runs d !! rid with
                 | Some r => if bool_decide (r_job_id r = jid) then Some r else None
                 | None => None
                 end)).

Definition result_run_is_active (project job_name rid : string) (d : DB) : bool :=
  bool_decide (map_Exists (λ _ j, j_project j = project ∧ j_name j = job_name ∧
                                  j_current_run_id j = Some rid ∧ is_active (j_status j) = true)
                 (jobs d)).

(** The snapshot of a run, if it is one of the job's. *)
Definition snapshot_of (d : DB) (jid rid : string) : option SnapshotRow :=
  match queued_run_snapshots d !! rid with
  | Some s => if bool_decide (s_job_id s = jid) then Some s else None
  | None => None
  end.

Definition get_queued_run_config (jid rid : string) : store string :=
  read (λ d,
    match jobs d !! jid with
    | Some j =>
        if negb (owned_as queued rid j)
        then Raise (RunOwnershipError "load queued config" jid rid)
        else
          let '(verified, message) :=
            match snapshot_of d jid rid with
            | Some s => (_reveal_verified (s_config_yaml s) (snapshot_purpose rid) (s_config_hash s),
                         "Queued run configuration hash mismatch")
            | None => (_reveal_verified (j_config_yaml j) (jobs_purpose jid) (j_config_hash j),
                       "Legacy queued configuration hash mismatch")
            end in
          match verified with
          | Raise e => Raise e
          | Ok None => Raise (ValueError message)
          | Ok (Some c) => Ok c
          end
    | None => Raise (RunOwnershipError "load queued config" jid rid)
    end).

(** What a claim reads: the trigger a snapshot recorded, the encrypted configuration, its
    hash and its purpose. *)
Definition claim_source (d : DB) (jid rid : string) : option (option string * string * string * string) :=
  match snapshot_of d jid rid with
  | Some s => Some (Some (s_trigger s), s_config_yaml s, s_config_hash s, snapshot_purpose rid)
  | None =>
      match jobs d !! jid with
      | Some j => Some (None, j_config_yaml j, j_config_hash j, jobs_purpose jid)
      | None => None
      end
  end.

Definition running_row (u : entropy) (rid jid trigger config hash : string) (started_at : Z) : RunRow :=
  {| r_job_id := jid; r_status := running; r_trigger := trigger; r_config_hash := hash;
     r_config_yaml := Some (protect_text u (runs_purpose rid) config);
     r_started_at := started_at; r_heartbeat_at := Some started_at; r_completed_at := None;
     r_record_count := None; r_error_count := 0; r_webhook_reconciled_at := None;
     r_failure_code := None; r_webhook_reconciliation_failed_at := None |}.

Definition claimed_job (trigger : string) (started_at : Z) (j : JobRow) : JobRow :=
  set_j_current_trigger (Some trigger) (set_j_updated_at (Some started_at) (set_j_status running j)).

Definition claim_run (u : entropy) (rid jid trigger config_hash : string) (started_at : Z) :
    store bool :=
  transaction (
    let! n := update_job jid
      (λ j, owned_as queued rid j &&
            (opt_eqb (j_current_trigger j) trigger || bool_decide (j_current_trigger j = None)))
      (claimed_job trigger started_at) in
    if negb (n =? 1) then rollback_with false
    else
      let! row := query (λ d, claim_source d jid rid) in
      match row with
      | None => rollback_with false
      | Some (queued_trigger, stored, hash, purpose) =>
          if match queued_trigger with Some t => negb (bool_decide (t = trigger)) | None => false end
          then rollback_with false
          else if negb (bool_decide (hash = config_hash)) then rollback_with false
          else
            let! config := lift (_reveal_verified stored purpose config_hash) in
            match config with
            | None => rollback_with false
            | Some c =>
                do! insert_run rid (running_row u rid jid trigger c config_hash started_at) in
                do! delete_snapshot jid rid in
                pret true
            end
      end).

(** The EXISTS clause of [heartbeat_run]. *)
Definition parent_runs (d : DB) (jid rid : string) : bool :=
  match jobs d !! jid with Some j => owned_as running rid j | None => false end.

Definition heartbeat_run (jid rid : string) (heartbeat_at : Z) : store unit :=
  let! n := transaction (update_run jid rid
    (λ d r, bool_decide (r_status r = running) && parent_runs d jid rid)
    (set_r_heartbeat_at (Some heartbeat_at))) in
  if negb (n =? 1) then praise (RunOwnershipError "heartbeat" jid rid) else pret tt.

Definition finish_run (s : JobStatus) (completed_at : Z) (record_count : Z) (error_count : Z)
    (r : RunRow) : RunRow :=
  set_r_webhook_reconciled_at (Some completed_at) (set_r_error_count error_count
    (set_r_record_count (Some record_count)
      (set_r_completed_at (Some completed_at) (set_r_status s r)))).

Definition finish_job (s : JobStatus) (completed_at : Z) (j : JobRow) : JobRow :=
  set_j_updated_at (Some completed_at) (set_j_status s j).

Definition check_delivery (w : option WebhookDeliveryCreate) (jid rid : string) (s : JobStatus) :
    outcome store_error unit :=
  match w with Some w => validate_terminal_delivery w jid rid s | None => Ok tt end.

Definition finalize_owned_run (u : entropy) (jid rid : string) (s : JobStatus)
    (record_count error_count completed_at heartbeat_cutoff : Z)
    (w : option WebhookDeliveryCreate) : store unit :=
  if negb (is_terminal s) then praise (ValueError "Invalid terminal run status")
  else
    match check_delivery w jid rid s with
    | Raise e => praise e
    | Ok _ =>
        transaction (
          let! n := update_run jid rid
            (λ _ r, bool_decide (r_status r = running) && opt_gtb (r_heartbeat_at r) heartbeat_cutoff)
            (finish_run s completed_at record_count error_count) in
          if negb (n =? 1) then lose "finalize" jid rid
          else
            let! n := update_job jid (owned_as running rid) (finish_job s completed_at) in
            if negb (n =? 1) then lose "finalize" jid rid
            else commit_terminal_intent u w completed_at)
    end.

Definition fail_owned_run (u : entropy) (jid rid : string) (failed_at : Z)
    (heartbeat_cutoff : option Z) (error_count : Z) (w : option WebhookDeliveryCreate) : store unit :=
  match check_delivery w jid rid failed with
  | Raise e => praise e
  | Ok _ =>
      transaction (
        let! row := query (λ d,
          match jobs d !! jid with
          | Some j => if opt_eqb (j_current_run_id j) rid then Some (j_status j) else None
          | None => None
          end) in
        match row with
        | None => lose "fail" jid rid
        | Some queued =>
            do! insert_failed_queued_run u jid rid failed_at error_count "preclaim_execution_failure" in
            let! n := update_job jid (owned_as queued rid) (finish_job failed failed_at) in
            if negb (n =? 1) then lose "fail" jid rid else commit_terminal_intent u w failed_at
        | Some running =>
            let! n := update_run jid rid
              (λ _ r, bool_decide (r_status r = running) &&
                      match heartbeat_cutoff with
                      | Some cutoff => opt_gtb (r_heartbeat_at r) cutoff | None => true
                      end)
              (λ r, finish_run failed failed_at (default 0 (r_record_count r)) error_count r) in
            if negb (n =? 1) then lose "fail" jid rid
            else
              let! n := update_job jid (owned_as running rid) (finish_job failed failed_at) in
              if negb (n =? 1) then lose "fail" jid rid else commit_terminal_intent u w failed_at
        | Some _ => lose "fail" jid rid
        end)
  end.

(** [stale_before], [expected_config_yaml] and [require_schedule_enabled] each add a
    condition when they are given. *)
Definition queue_run (u : entropy) (adm : admission) (jid : string) (expected_status : JobStatus)
    (expected_run_id : option string) (new_run_id new_trigger : string) (queued_at : Z)
    (stale_before : option Z) (expected_config_yaml : option string)
    (require_schedule_enabled : bool) : store bool :=
  if closed_lifecycle expected_status then pret false
  else transaction (
    let! n := update_job jid
      (λ j, bool_decide (j_status j = expected_status) &&
            opt_is (j_current_run_id j) expected_run_id &&
            match stale_before with
            | Some t => bool_decide (j_updated_at j = None) || opt_leb (j_updated_at j) t
            | None => true
            end &&
            match expected_config_yaml with
            | Some c => bool_decide (j_config_hash j = sha256 c) | None => true
            end &&
            (negb require_schedule_enabled || j_schedule_enabled j))
      (λ j, set_j_current_trigger (Some new_trigger) (set_j_current_run_id (Some new_run_id)
              (set_j_updated_at (Some queued_at) (set_j_status queued j)))) in
    if negb (n =? 1) then rollback_with false
    else
      do! _check_admission adm in
      let! row := query (λ d, jobs d !! jid) in
      match row with
      | None => praise (RuntimeError "Queued parent disappeared inside its transaction")
      | Some j =>
          let! config := lift (_reveal_verified (j_config_yaml j) (jobs_purpose jid) (j_config_hash j)) in
          match config with
          | None => praise (ValueError "Queued parent configuration hash mismatch")
          | Some c =>
              do! insert_snapshot new_run_id
                {| s_job_id := jid; s_trigger := new_trigger; s_config_hash := j_config_hash j;
                   s_config_yaml := protect_text u (snapshot_purpose new_run_id) c;
                   s_queued_at := queued_at |} in
              pret true
          end
      end).

Definition fail_queued_run (u : entropy) (jid rid : string) (failed_at : Z) : store bool :=
  transaction (
    let! n := update_job jid (owned_as queued rid) (finish_job failed failed_at) in
    if negb (n =? 1) then rollback_with false
    else
      do! insert_failed_queued_run u jid rid failed_at 1 "enqueue_failure" in
      pret true).
End runs.
