(* ===== verification/Lifecycle.v ===== *)
(** * The lifecycle of jobs and runs, abstractly

    What the job store promises the queue, the worker, the scheduler and the retention
    loop: a job is a status and a current run, a run is an owner, a status and the outcome
    it was finished with. [astep] lists the transitions that are allowed; LifecycleStore.v
    proves that the operations of the store perform no others. *)

From S2P Require Import Prelude.
From S2P Require Import Rows.
Open Scope Z_scope.

Record arun := {
  a_job : string;
  a_status : JobStatus;
  a_completed : option Z;
  a_records : option Z;
  a_errors : Z;
}.

(** [a_used] holds every run id that was ever handed out: a new one is not among them. *)
Record astate := {
  a_jobs : gmap string (JobStatus * option string);
  a_runs : gmap string arun;
  a_used : gset string;
}.

Definition finished (s : JobStatus) : bool := is_terminal s || bool_decide (s = cancelled).
Definition accepting (s : JobStatus) : bool := bool_decide (s = queued) || is_terminal s.
Definition active (s : JobStatus) : bool := bool_decide (s = queued) || bool_decide (s = running).

Definition mk (jobs : gmap string (JobStatus * option string)) (runs : gmap string arun)
    (used : gset string) : astate := {| a_jobs := jobs; a_runs := runs; a_used := used |}.

Definition run_ids (cur : option string) : gset string :=
  match cur with Some rid => {[ rid ]} | None => ∅ end.

(** No job but [jid] has [rid] as its current run. *)
Definition owned_by (J : gmap string (JobStatus * option string)) (jid rid : string) : Prop :=
  ∀ jid' s, J !! jid' = Some (s, Some rid) → jid' = jid.

(** The id a missed fire is recorded under: new, or the job's current run. *)
Definition drawn (J : gmap string (JobStatus * option string)) (U : gset string) (jid rid : string) : Prop :=
  rid ∉ U ∨ ∃ s, J !! jid = Some (s, Some rid).

Inductive astep : astate → astate → Prop :=
(** a run id is handed out, and the operation it was for refused *)
| a_mint J R U ids : astep (mk J R U) (mk J R (U ∪ ids))
(** a job is accepted, with or without its first run *)
| a_submit J R U jid cur :
    J !! jid = None → (∀ rid, cur = Some rid → rid ∉ U) →
    astep (mk J R U) (mk (<[jid := (queued, cur)]> J) R (U ∪ run_ids cur))
(** a submission that never reached the queue is withdrawn *)
| a_withdraw J R U jid cur :
    J !! jid = Some (queued, cur) → (∀ rid r, R !! rid = Some r → a_job r ≠ jid) →
    astep (mk J R U) (mk (delete jid J) R U)
(** a new run is queued *)
| a_queue J R U jid s cur rid :
    J !! jid = Some (s, cur) → accepting s = true → rid ∉ U →
    astep (mk J R U) (mk (<[jid := (queued, Some rid)]> J) R (U ∪ {[ rid ]}))
(** the worker takes the queued run *)
| a_claim J R U jid rid r :
    J !! jid = Some (queued, Some rid) → R !! rid = None →
    a_job r = jid → a_status r = running →
    astep (mk J R U) (mk (<[jid := (running, Some rid)]> J) (<[rid := r]> R) U)
(** the running run ends: finished, failed, recovered or cancelled *)
| a_finish J R U jid rid r r' s :
    J !! jid = Some (running, Some rid) → R !! rid = Some r → a_job r = jid →
    a_status r = running → finished s = true → a_job r' = jid → a_status r' = s →
    astep (mk J R U) (mk (<[jid := (s, Some rid)]> J) (<[rid := r']> R) U)
(** a queued run fails before it starts *)
| a_fail_queued J R U jid rid r :
    J !! jid = Some (queued, Some rid) → R !! rid = None →
    a_job r = jid → a_status r = failed →
    astep (mk J R U) (mk (<[jid := (failed, Some rid)]> J) (<[rid := r]> R) U)
(** a fire of a schedule is recorded as missed; the parent shows it when it is idle *)
| a_missed J R U jid rid r :
    is_Some (J !! jid) → owned_by J jid rid → drawn J U jid rid → R !! rid = None → a_job r = jid → a_status r = failed →
    astep (mk J R U) (mk J (<[rid := r]> R) (U ∪ {[ rid ]}))
| a_missed_idle J R U jid s cur rid r :
    J !! jid = Some (s, cur) → s ≠ running → owned_by J jid rid → drawn J U jid rid →
    R !! rid = None → a_job r = jid → a_status r = failed →
    astep (mk J R U) (mk (<[jid := (failed, Some rid)]> J) (<[rid := r]> R) (U ∪ {[ rid ]}))
| a_missed_again J R U jid s cur rid r :
    J !! jid = Some (s, cur) → s ≠ running → owned_by J jid rid → R !! rid = Some r → a_job r = jid → a_status r = failed →
    astep (mk J R U) (mk (<[jid := (failed, Some rid)]> J) R (U ∪ {[ rid ]}))
(** a running job without a running run gets the status of its run, or fails *)
| a_converge J R U jid cur s :
    J !! jid = Some (running, cur) → is_terminal s = true →
    (∀ rid r, cur = Some rid → R !! rid = Some r → a_job r = jid → a_status r ≠ running) →
    astep (mk J R U) (mk (<[jid := (s, cur)]> J) R U)
| a_cancel_queued J R U jid cur :
    J !! jid = Some (queued, cur) →
    astep (mk J R U) (mk (<[jid := (cancelled, cur)]> J) R U)
(** an idle job is reserved for deletion, then removed with its runs *)
| a_reserve J R U jid s cur :
    J !! jid = Some (s, cur) → finished s = true →
    astep (mk J R U) (mk (<[jid := (deleting, cur)]> J) R U)
| a_delete J R U jid cur :
    J !! jid = Some (deleting, cur) →
    astep (mk J R U) (mk (delete jid J) (filter (λ x, a_job x.2 ≠ jid) R) U)
(** an old run of a schedule is forgotten *)
| a_prune J R U jid rid r s cur :
    R !! rid = Some r → a_job r = jid → is_terminal (a_status r) = true →
    J !! jid = Some (s, cur) → cur ≠ Some rid →
    astep (mk J R U) (mk J (delete rid R) U).

(** What the store allows beyond the lifecycle: a caller that expects a running job replaces
    its run, whose row then stays as it is. *)
Inductive any_astep : astate → astate → Prop :=
| within_lifecycle a a' : astep a a' → any_astep a a'
| a_replace J R U jid cur rid :
    J !! jid = Some (running, cur) → rid ∉ U →
    any_astep (mk J R U) (mk (<[jid := (queued, Some rid)]> J) R (U ∪ {[ rid ]})).

(** ** Invariants *)

Record consistent (a : astate) : Prop := {
  running_is_current rid r :
    a_runs a !! rid = Some r → a_status r = running →
    a_jobs a !! a_job r = Some (running, Some rid);
  running_has_run jid cur :
    a_jobs a !! jid = Some (running, cur) →
    ∃ rid r, cur = Some rid ∧ a_runs a !! rid = Some r ∧ a_job r = jid ∧ a_status r = running;
  runs_used rid r : a_runs a !! rid = Some r → rid ∈ a_used a;
  current_used jid s rid : a_jobs a !! jid = Some (s, Some rid) → rid ∈ a_used a;
  current_unique jid s rid : a_jobs a !! jid = Some (s, Some rid) → owned_by (a_jobs a) jid rid;
  current_owner jid s rid r :
    a_jobs a !! jid = Some (s, Some rid) → a_runs a !! rid = Some r → a_job r = jid;
}.

(** Case analysis on the look-ups in updated maps. *)
Ltac lookups :=
  repeat match goal with
  | H : <[_ := _]> _ !! _ = Some _ |- _ =>
      apply lookup_insert_Some in H; destruct H as [[? ?]|[? ?]]
  | H : delete _ _ !! _ = Some _ |- _ => apply lookup_delete_Some in H; destruct H
  | H : filter _ _ !! _ = Some _ |- _ => apply map_lookup_filter_Some in H; destruct H; simpl in *
  | _ => progress simplify_eq/=
  end.

Lemma finished_not_running s : finished s = true → s ≠ running.
Proof. by destruct s. Qed.
Lemma accepting_not_running s : accepting s = true → s ≠ running.
Proof. by destruct s. Qed.
Lemma terminal_not_running s : is_terminal s = true → s ≠ running.
Proof. by destruct s. Qed.
Lemma terminal_finished s : is_terminal s = true → finished s = true.
Proof. unfold finished. by intros ->. Qed.
#[export] Hint Resolve terminal_finished finished_not_running accepting_not_running terminal_not_running : scrape.

Lemma step_runs_used a a' rid r :
  consistent a → astep a a' → a_runs a' !! rid = Some r → rid ∈ a_used a'.
Proof.
  intros [_ _ RU CU _ _] St. destruct St; simpl in *; intros; lookups; eauto;
    first [apply elem_of_union_l; by eauto | apply elem_of_union_r; set_solver].
Qed.

Lemma step_current_used a a' jid s rid :
  consistent a → astep a a' → a_jobs a' !! jid = Some (s, Some rid) → rid ∈ a_used a'.
Proof.
  intros [_ _ RU CU _ _] St. destruct St; simpl in *; intros; lookups; eauto;
    first [apply elem_of_union_l; by eauto | apply elem_of_union_r; set_solver].
Qed.

(** The look-up of a goal in an updated map, by cases on the key. *)
Ltac split_insert :=
  match goal with
  | |- context [<[?i := _]> _ !! ?i] => rewrite lookup_insert_eq
  | |- context [<[?i := _]> _ !! ?j] =>
      destruct (decide (i = j)) as [E|E];
      [rewrite E in *; rewrite lookup_insert_eq | rewrite lookup_insert_ne by done]
  | |- context [delete ?i _ !! ?j] =>
      destruct (decide (i = j)) as [E|E];
      [rewrite E in *; rewrite lookup_delete_eq | rewrite lookup_delete_ne by done]
  end.

Lemma step_running_is_current a a' rid r :
  consistent a → astep a a' → a_runs a' !! rid = Some r → a_status r = running →
  a_jobs a' !! a_job r = Some (running, Some rid).
Proof.
  intros [RC RR RU CU _ _] St. destruct St; simpl in *; intros; lookups;
    try (match goal with
         | Hr : ?R !! ?rid = Some ?r, Hs : a_status ?r = running |- _ =>
             pose proof (RC _ _ Hr Hs)
         end); try split_insert; simplify_eq; try congruence.
  exfalso. naive_solver.
Qed.

Lemma step_running_has_run a a' jid cur :
  consistent a → astep a a' → a_jobs a' !! jid = Some (running, cur) →
  ∃ rid r, cur = Some rid ∧ a_runs a' !! rid = Some r ∧ a_job r = jid ∧ a_status r = running.
Proof.
  intros [RC RR RU CU _ _] St. destruct St; simpl in *; intros; lookups;
    try (match goal with
         | Hj : ?J !! ?jid = Some (running, ?cur) |- _ =>
             destruct (RR _ _ Hj) as (? & ? & -> & ? & ? & ?)
         end);
    try done;
    try (eexists _, _; split; [done|]; rewrite ?lookup_insert_ne by congruence; by eauto).
  - eexists _, _. rewrite lookup_insert_eq. eauto.
  - by destruct (finished_not_running (a_status r')).
  - eexists _, _. split; [done|]. split; [|by eauto].
    apply map_lookup_filter_Some. split; [done|]. simpl. congruence.
  - eexists _, _. split; [done|]. rewrite lookup_delete_ne; [by eauto|].
    intros ->. naive_solver.
Qed.

Lemma step_current_unique a a' jid s rid :
  consistent a → astep a a' → a_jobs a' !! jid = Some (s, Some rid) → owned_by (a_jobs a') jid rid.
Proof.
  intros [_ _ _ CU UQ _] St Hj jid' s' Hj'. unfold owned_by in *.
  destruct St; simpl in *; intros; lookups; try done; try (by eapply UQ);
    try (exfalso; naive_solver).
  all: match goal with
       | Ho : owned_by _ _ _ |- _ => first [by eapply Ho | symmetry; by eapply Ho]
       end.
Qed.

Lemma step_current_owner a a' jid s rid r :
  consistent a → astep a a' → a_jobs a' !! jid = Some (s, Some rid) →
  a_runs a' !! rid = Some r → a_job r = jid.
Proof.
  intros [_ _ RU CU UQ CO] St Hj Hr. 
  destruct St; simpl in *; intros; lookups; try done; try (by eapply CO).
  all: unfold owned_by in *; try (exfalso; naive_solver).
  all: first [by eapply UQ | symmetry; by eauto | etrans; [eassumption|by eapply UQ]].
Qed.

Lemma consistent_step a a' : consistent a → astep a a' → consistent a'.
Proof.
  intros C St. constructor; intros.
  - by eapply step_running_is_current.
  - by eapply step_running_has_run.
  - by eapply step_runs_used.
  - by eapply step_current_used.
  - by eapply step_current_unique.
  - by eapply step_current_owner.
Qed.

Definition a_empty : astate := mk ∅ ∅ ∅.
Lemma consistent_empty : consistent a_empty.
Proof. by constructor; simpl; intros; simplify_map_eq. Qed.

Lemma consistent_rtc a a' : rtc astep a a' → consistent a → consistent a'.
Proof. apply rtc_invariant. intros; by eapply consistent_step. Qed.

(** A run that was claimed is never queued again, and one that ended is never active
    again: run ids are not handed out twice. *)
Record claimed (rid : string) (a : astate) : Prop := {
  claimed_used : rid ∈ a_used a;
  claimed_not_queued jid s : a_jobs a !! jid = Some (s, Some rid) → s ≠ queued;
}.

Record ended (rid : string) (a : astate) : Prop := {
  ended_used : rid ∈ a_used a;
  ended_not_active jid s : a_jobs a !! jid = Some (s, Some rid) → s ≠ queued ∧ s ≠ running;
  ended_not_running r : a_runs a !! rid = Some r → a_status r ≠ running;
}.

(** A job that is idle has no run in progress: its current run ended. *)
Lemma idle_ended a jid s rid :
  consistent a → a_jobs a !! jid = Some (s, Some rid) → s ≠ queued → s ≠ running → ended rid a.
Proof.
  intros C Hj Hq Hr. constructor.
  - by eapply current_used.
  - intros jid' s' Hj'. assert (jid' = jid) as -> by by eapply (current_unique a C jid). by simplify_eq.
  - intros r Hrun Hs. pose proof (running_is_current a C _ _ Hrun Hs) as Hc.
    assert (a_job r = jid) as <- by by eapply (current_unique a C jid). by simplify_eq.
Qed.

Lemma used_step a a' : astep a a' → a_used a ⊆ a_used a'.
Proof. destruct 1; simpl; set_solver. Qed.

Lemma claimed_step rid a a' : claimed rid a → astep a a' → claimed rid a'.
Proof.
  intros [CU CQ] St. constructor; [by apply (used_step a a')|].
  destruct St; simpl in *; intros; lookups; eauto; try (by intros ->); try naive_solver.
  by destruct (a_status r').
Qed.

Lemma ended_step rid a a' : ended rid a → astep a a' → ended rid a'.
Proof.
  intros [EU EA ER] St. constructor; [by apply (used_step a a')| |];
    destruct St; simpl in *; intros; lookups; eauto;
    try (split; by intros ->); try naive_solver.
  all: congruence.
Qed.

(** A finished run is recorded as [r], or removed for good. *)
Definition recorded (rid : string) (r : arun) (a : astate) : Prop :=
  a_runs a !! rid = Some r ∨
  (a_runs a !! rid = None ∧ rid ∈ a_used a ∧ ∀ jid s, a_jobs a !! jid ≠ Some (s, Some rid)).

Lemma finished_same rid r a a' :
  a_runs a !! rid = Some r → finished (a_status r) = true → astep a a' →
  a_runs a' !! rid = Some r ∨ a_runs a' !! rid = None.
Proof.
  intros Hr Hf St. destruct St; simpl in *; eauto; try (by split_insert; naive_solver).
  - destruct (decide (rid0 = rid)) as [->|]; [|left; by rewrite lookup_insert_ne].
    exfalso. assert (r0 = r) as -> by congruence. by destruct (finished_not_running (a_status r)).
  - destruct (decide (a_job r = jid)) as [Hj|Hne].
    + right. apply map_lookup_filter_None. right. intros x Hx Hn. by simplify_eq/=.
    + left. by apply map_lookup_filter_Some.
Qed.

Lemma finished_gone rid r a a' jid s :
  consistent a → a_runs a !! rid = Some r → astep a a' → a_runs a' !! rid = None →
  a_jobs a' !! jid ≠ Some (s, Some rid).
Proof.
  intros C Hr St Hn Hj. pose proof (λ s', current_owner a C jid s' rid r) as CO. clear C.
  destruct St; simpl in *; try congruence;
    try (apply lookup_insert_None in Hn as [Hn ?]; congruence); lookups.
  - apply map_lookup_filter_None in Hn as [?|Hn]; [congruence|].
    apply (Hn r Hr). simpl. by rewrite (CO s).
  - destruct (decide (rid0 = rid)) as [->|]; [|by rewrite lookup_delete_ne in Hn; congruence].
    naive_solver.
Qed.

Lemma finished_step rid r a a' :
  consistent a → a_runs a !! rid = Some r → finished (a_status r) = true → astep a a' →
  recorded rid r a'.
Proof.
  intros C Hr Hf St. destruct (finished_same rid r a a') as [?|Hn]; [done..|by left|].
  right. split_and!; [done| |].
  - apply (used_step a a'); [done|]. by eapply runs_used.
  - intros. by eapply finished_gone.
Qed.

Definition removed (rid : string) (a : astate) : Prop :=
  a_runs a !! rid = None ∧ rid ∈ a_used a ∧ ∀ jid s, a_jobs a !! jid ≠ Some (s, Some rid).

Lemma removed_runs rid a a' : removed rid a → astep a a' → a_runs a' !! rid = None.
Proof.
  intros (Hr & Hu & Hj) St.
  destruct St; simpl in *; unfold drawn in *; try done; try (split_insert; naive_solver).
  apply map_lookup_filter_None. by left.
Qed.

Lemma removed_jobs rid a a' jid s :
  removed rid a → astep a a' → a_jobs a' !! jid ≠ Some (s, Some rid).
Proof.
  intros (Hr & Hu & Hj) St E.
  destruct St; simpl in *; lookups; unfold drawn in *;
    try (eapply Hj; eassumption).
  all: naive_solver.
Qed.

Lemma recorded_step rid r a a' :
  consistent a → finished (a_status r) = true → recorded rid r a → astep a a' → recorded rid r a'.
Proof.
  intros C Hf [Hr|Hr] St; [by eapply finished_step|]. right. split_and!.
  - by eapply removed_runs.
  - destruct Hr as (_ & Hu & _). by apply (used_step a a').
  - intros. by eapply removed_jobs.
Qed.

Lemma recorded_rtc rid r a a' :
  consistent a → finished (a_status r) = true → recorded rid r a → rtc astep a a' →
  recorded rid r a'.
Proof.
  intros C Hf Hr St. induction St as [|a b c Hab Hbc IH]; [done|].
  apply IH; [by eapply consistent_step|by eapply recorded_step].
Qed.

Lemma removed_rtc rid a a' : removed rid a → rtc astep a a' → removed rid a'.
Proof.
  intros C St. eapply (rtc_invariant astep (removed rid)); [|done..]. clear.
  intros a b Hr St. split_and!; [by eapply removed_runs| |intros; by eapply removed_jobs].
  destruct Hr as (_ & Hu & _). by apply (used_step a b).
Qed.

Lemma claimed_rtc rid a a' : claimed rid a → rtc astep a a' → claimed rid a'.
Proof. intros C St. eapply (rtc_invariant astep); eauto using claimed_step. Qed.
Lemma ended_rtc rid a a' : ended rid a → rtc astep a a' → ended rid a'.
Proof. intros C St. eapply (rtc_invariant astep); eauto using ended_step. Qed.
