(* ===== verification/LifecycleStore.v ===== *)
(** * The job store implements the lifecycle

    [abs] reads the lifecycle state off the database. Every operation of the store takes
    it by lifecycle transitions to the state read off the database it leaves, so the
    invariants of Lifecycle.v hold of every database the service can reach. *)

From S2P Require Import Prelude.
From S2P Require Import Sha256.
From S2P Require Import Envelope.
From S2P Require Import Rows.
From S2P Require Import JobDb.
From S2P Require Import JobModel.
From S2P Require Import Tx.
From S2P Require Import Json.
From S2P Require Import Outbox.
From S2P Require Import JobTerminal.
From S2P Require Import JobRecovery.
From S2P Require Import JobDeletion.
From S2P Require Import JobRetention.
From S2P Require Import TxStore.
From S2P Require Import JobStore.
From S2P Require Import JobRuns.
From S2P Require Import Lifecycle.
Open Scope Z_scope.

Definition abs_job (j : JobRow) : JobStatus * option string := (j_status j, j_current_run_id j).
Definition abs_run (r : RunRow) : arun :=
  {| a_job := r_job_id r; a_status := r_status r; a_completed := r_completed_at r;
     a_records := r_record_count r; a_errors := r_error_count r |}.
Definition abs (d : DB) (used : gset string) : astate :=
  mk (abs_job <$> jobs d) (abs_run <$> job_runs d) used.

(** What the conditions of a statement say of the row. *)
Ltac conditions :=
  boolprop;
  repeat match goal with
  | H : owned_as _ _ _ = true |- _ => apply owned_as_true in H; destruct H
  | H : opt_eqb _ _ = true |- _ => apply opt_eqb_true in H
  | H : opt_is _ _ = true |- _ => apply opt_is_true in H
  end; boolprop.

Section refinement.
Context `{Vault} `{JsonText}.

Lemma abs_count (m : gmap string JobRow) t jid :
  abs_job <$> alter (count_run t) jid m = abs_job <$> m.
Proof.
  apply map_eq. intros i. rewrite !lookup_fmap.
  destruct (decide (jid = i)) as [->|]; [rewrite lookup_alter_eq|by rewrite lookup_alter_ne].
  by destruct (m !! i).
Qed.

Lemma abs_jobs_at d jid j :
  jobs d !! jid = Some j → (abs_job <$> jobs d) !! jid = Some (j_status j, j_current_run_id j).
Proof. intros Hj. by rewrite lookup_fmap, Hj. Qed.

Lemma abs_no_job d jid : jobs d !! jid = None → (abs_job <$> jobs d) !! jid = None.
Proof. intros E. by rewrite lookup_fmap, E. Qed.
Lemma abs_no_run d rid : job_runs d !! rid = None → (abs_run <$> job_runs d) !! rid = None.
Proof. intros E. by rewrite lookup_fmap, E. Qed.
Lemma abs_run_at d rid r :
  job_runs d !! rid = Some r → (abs_run <$> job_runs d) !! rid = Some (abs_run r).
Proof. intros E. by rewrite lookup_fmap, E. Qed.

Lemma abs_job_eq j : abs_job j = (j_status j, j_current_run_id j).
Proof. done. Qed.

(** Reads the abstract state off a database that statements built. *)
Ltac abs_norm :=
  unfold abs; cbn [jobs job_runs set_jobs set_job_runs set_queued_run_snapshots
    set_scrape_idempotency set_webhook_deliveries add_run cascade r_job_id r_started_at] in *;
  rewrite ?fmap_insert, ?fmap_delete, ?abs_count, ?fmap_insert, ?abs_job_eq; simpl;
  repeat match goal with
  | E : j_current_run_id _ = _ |- _ => rewrite E
  | E : j_status _ = _ |- _ => rewrite E
  end.

(** One lifecycle transition; the look-ups it needs are those of the row. *)
Ltac abs_lookup :=
  match goal with
  | Hj : jobs ?d !! ?jid = Some ?j |- (abs_job <$> jobs ?d) !! ?jid = Some _ =>
      rewrite (abs_jobs_at d jid j Hj);
      first [congruence | f_equal; f_equal; first [reflexivity | congruence]]
  | |- (abs_job <$> jobs _) !! _ = None => by apply abs_no_job
  | |- (abs_run <$> job_runs _) !! _ = None => by apply abs_no_run
  | Hr : job_runs ?d !! ?rid = Some ?r |- (abs_run <$> job_runs ?d) !! ?rid = Some _ =>
      exact (abs_run_at d rid r Hr)
  end.
Ltac stutter := f_equal; apply insert_id; abs_lookup.
Ltac one rule := apply rtc_once; eapply rule; try abs_lookup; try done; eauto with scrape;
  try (match goal with E : j_status ?j = _ |- context [j_status ?j] => by rewrite E end).

Lemma abs_claim_run u rid jid trigger h t d U :
  rtc astep (abs d U) (abs (claim_run u rid jid trigger h t d).2 U).
Proof.
  unfold claim_run. apply (by_tx _ _ (λ d', rtc astep (abs d U) (abs d' U))).
  txs; try reflexivity.
  all: conditions; abs_norm; one a_claim.
Qed.

Lemma abs_heartbeat_run jid rid t d U :
  abs (heartbeat_run jid rid t d).2 U = abs d U.
Proof.
  unfold heartbeat_run, pbind.
  set (Q := λ (r : outcome store_error Z) d', abs d' U = abs d U).
  assert (Q (transaction (update_run jid rid
    (λ d r, bool_decide (r_status r = running) && parent_runs d jid rid)
    (set_r_heartbeat_at (Some t))) d).1 (transaction (update_run jid rid
    (λ d r, bool_decide (r_status r = running) && parent_runs d jid rid)
    (set_r_heartbeat_at (Some t))) d).2) as HQ.
  { apply tx_transaction, tx_tail. unfold Q. tx; try done.
    abs_norm. stutter. }
  unfold Q in HQ. destruct (transaction _ _) as [[n|e] d']; simpl in *; [|done].
  by destruct (negb (n =? 1)).
Qed.

Lemma abs_finalize_owned_run u jid rid s n e t cutoff w d U :
  rtc astep (abs d U) (abs (finalize_owned_run u jid rid s n e t cutoff w d).2 U).
Proof.
  unfold finalize_owned_run. destruct (is_terminal s) eqn:Hs; [|reflexivity]. simpl.
  destruct (check_delivery w jid rid s); [|reflexivity].
  apply (by_tx _ _ (λ d', rtc astep (abs d U) (abs d' U))).
  txs; try reflexivity.
  all: conditions; abs_norm; one a_finish.
Qed.

Lemma failed_row_job u jid rid t n code j s : r_job_id (failed_run_row u jid rid t n code j s) = jid.
Proof. unfold failed_run_row. by destruct (failed_run_config _ _ _ _). Qed.
Lemma failed_row_status u jid rid t n code j s :
  r_status (failed_run_row u jid rid t n code j s) = failed.
Proof. unfold failed_run_row. by destruct (failed_run_config _ _ _ _). Qed.
#[local] Hint Resolve failed_row_job failed_row_status : scrape.

(** The trigger of [job_runs] touches no column of the lifecycle. *)
Lemma count_lookup d t jid i j :
  alter (count_run t) jid (jobs d) !! i = Some j →
  ∃ j', jobs d !! i = Some j' ∧ abs_job j = abs_job j'.
Proof.
  intros E. apply lookup_alter_Some in E as [(-> & j' & E & ->)|(? & E)]; [|by eauto].
  exists j'. by split.
Qed.

Lemma abs_fail_owned_run u jid rid t cutoff n w d U :
  rtc astep (abs d U) (abs (fail_owned_run u jid rid t cutoff n w d).2 U).
Proof.
  unfold fail_owned_run. destruct (check_delivery w jid rid failed); [|reflexivity].
  apply (by_tx _ _ (λ d', rtc astep (abs d U) (abs d' U))).
  txs; try reflexivity.
  - conditions. abs_norm. apply count_lookup in H4 as (j' & ? & [= ? ?]). one a_fail_queued.
  - conditions. abs_norm. one a_finish.
Qed.

Lemma abs_fail_queued_run u jid rid t d U :
  rtc astep (abs d U) (abs (fail_queued_run u jid rid t d).2 U).
Proof.
  unfold fail_queued_run. apply (by_tx _ _ (λ d', rtc astep (abs d U) (abs d' U))).
  txs; try reflexivity.
  conditions. abs_norm. one a_fail_queued.
Qed.

Lemma abs_fail_queued_run_recovery u jid rid q t d U :
  rtc astep (abs d U) (abs (fail_queued_run_recovery u jid rid q t d).2 U).
Proof.
  unfold fail_queued_run_recovery. apply (by_tx _ _ (λ d', rtc astep (abs d U) (abs d' U))).
  txs; try reflexivity.
  conditions. abs_norm. one a_fail_queued.
Qed.

Lemma abs_reserve_queued_run_recovery jid rid q s t d U :
  abs (reserve_queued_run_recovery jid rid q s t d).2 U = abs d U.
Proof.
  unfold reserve_queued_run_recovery. apply (by_tx _ _ (λ d', abs d' U = abs d U)).
  txs; try reflexivity.
  conditions. abs_norm. stutter.
Qed.

Lemma minted d ids U : rtc astep (abs d U) (abs d (U ∪ ids)).
Proof. apply rtc_once, a_mint. Qed.

Lemma open_accepting s : s ≠ running → closed_lifecycle s = false → accepting s = true.
Proof. by destruct s. Qed.
#[local] Hint Resolve open_accepting : scrape.

Lemma abs_queue_run u adm jid s cur rid trigger t stale config en d U :
  s ≠ running → rid ∉ U →
  rtc astep (abs d U) (abs (queue_run u adm jid s cur rid trigger t stale config en d).2 (U ∪ {[ rid ]})).
Proof.
  intros Hs Hr. unfold queue_run. destruct (closed_lifecycle s) eqn:Hc; [apply minted|].
  apply (by_tx _ _ (λ d', rtc astep (abs d U) (abs d' (U ∪ {[ rid ]})))).
  unfold _check_admission. txs; try apply minted.
  conditions. subst. abs_norm. one a_queue.
Qed.

(** Without the condition on the expected status. *)
Lemma any_minted d ids U : rtc any_astep (abs d U) (abs d (U ∪ ids)).
Proof. apply rtc_once, within_lifecycle, a_mint. Qed.
Lemma abs_replace_run u adm jid cur rid trigger t stale config en d U :
  rid ∉ U →
  rtc any_astep (abs d U) (abs (queue_run u adm jid running cur rid trigger t stale config en d).2 (U ∪ {[ rid ]})).
Proof.
  intros Hr. unfold queue_run. cbn [closed_lifecycle].
  apply (by_tx _ _ (λ d', rtc any_astep (abs d U) (abs d' (U ∪ {[ rid ]})))).
  unfold _check_admission. txs; try apply any_minted.
  conditions. subst. abs_norm. one a_replace.
Qed.

Lemma abs_current_run d jid j rid ar :
  j_current_run_id j = Some rid → (abs_run <$> job_runs d) !! rid = Some ar → a_job ar = jid →
  ∃ r, current_run d jid j = Some r ∧ ar = abs_run r.
Proof.
  rewrite lookup_fmap. intros Hc Hr Ha. unfold current_run. rewrite Hc.
  destruct (job_runs d !! rid) as [r|]; [|done]. injection Hr as <-.
  exists r. by rewrite bool_decide_true.
Qed.

Lemma abs_recover_current_run jid cur cutoff t d U {A} d0 (k : option RunRecovery → sql A) Q :
  (∀ r d', rtc astep (abs d U) (abs d' U) → tx_post d0 d' (k r) Q) →
  (∀ e, Q (Raise e) d0) →
  tx_post d0 d (pbind (_recover_current_run jid cur cutoff t) k) Q.
Proof.
  intros Hk Hr. unfold _recover_current_run. txs; try by apply Hr.
  all: apply Hk; try reflexivity.
  all: conditions; abs_norm.
  all: match goal with
       | Hj : jobs ?d !! ?i = Some ?j0, E : match jobs ?d !! ?i with _ => _ end = Some _ |- _ =>
           rewrite Hj in E; injection E as <- E
       end.
  - one a_converge. intros rid ar [= <-] Hl Ha.
    destruct (abs_current_run d jid j0 s ar) as (r' & E' & ->); try done. simplify_eq.
    by apply terminal_not_running.
  - one a_finish.
  - one a_converge. intros rid ar [= <-] Hl Ha.
    destruct (abs_current_run d jid j0 s ar) as (r' & E' & ->); try done. simplify_eq.
  - by one a_converge.
Qed.

Lemma abs_recover_stale_run jid cur cutoff t d U :
  rtc astep (abs d U) (abs (recover_stale_run jid cur cutoff t d).2 U).
Proof.
  apply (by_tx _ _ (λ d', rtc astep (abs d U) (abs d' U))).
  apply (abs_recover_current_run _ _ _ _ _ U); [|reflexivity]. intros r d' Hd. by txs.
Qed.

Lemma abs_recover_rows rows cutoff t d U {A} d0 (k : list RunRecovery → sql A) Q :
  (∀ l d', rtc astep (abs d U) (abs d' U) → tx_post d0 d' (k l) Q) →
  (∀ e, Q (Raise e) d0) →
  tx_post d0 d (pbind (recover_rows rows cutoff t) k) Q.
Proof.
  revert d k. induction rows as [|[jid j] rows IH]; intros d k Hk Hr; cbn [recover_rows].
  { txs. by apply Hk. }
  apply tx_bind_assoc, (abs_recover_current_run _ _ _ _ _ U); [|done]. intros r d' Hd.
  apply tx_bind_assoc, IH; [|done]. intros l d'' Hd'. txs. apply Hk. by etrans.
Qed.

Lemma abs_recover_stale_running_jobs cutoff t limit d U :
  rtc astep (abs d U) (abs (recover_stale_running_jobs cutoff t limit d).2 U).
Proof.
  apply (by_tx _ _ (λ d', rtc astep (abs d U) (abs d' U))).
  assert (tx_post d d (let! rows := query (recovery_rows cutoff limit) in recover_rows rows cutoff t)
    (λ _ d', rtc astep (abs d U) (abs d' U))) as Hrec.
  { apply tx_bind_query, tx_tail, (abs_recover_rows _ _ _ _ U); [|reflexivity]. intros l d' Hd. by txs. }
  destruct limit as [[|n]|]; [by txs|done..].
Qed.

Lemma active_not_running s : is_active s = true → s ≠ running → s = queued.
Proof. by destruct s. Qed.

Lemma abs_cancel_job jid t expected d U :
  rtc astep (abs d U) (abs (cancel_job jid t expected d).2 U).
Proof.
  apply (by_tx _ _ (λ d', rtc astep (abs d U) (abs d' U))). unfold cancel_current_run.
  txs; try reflexivity.
  all: conditions; abs_norm.
  - one a_finish.
  - assert (j_status j = queued) by by apply active_not_running. one a_cancel_queued.
Qed.

Lemma abs_reserve_job_deletion jid del t d U :
  rtc astep (abs d U) (abs (reserve_job_deletion jid del t d).2 U).
Proof.
  apply (by_tx _ _ (λ d', rtc astep (abs d U) (abs d' U))). unfold complete_reservation.
  txs; try reflexivity.
  all: conditions; abs_norm; one a_reserve.
Qed.

Lemma abs_kept_runs jid (m : gmap string RunRow) :
  abs_run <$> filter (λ x, negb (bool_decide (r_job_id x.2 = jid)) = true) m =
  filter (λ x, a_job x.2 ≠ jid) (abs_run <$> m).
Proof.
  rewrite map_filter_fmap. f_equal. apply map_filter_ext. intros i r _. simpl.
  by rewrite negb_true_iff, bool_decide_eq_false.
Qed.

Lemma abs_with_job u job d U :
  status job = queued →
  abs (with_job u job d) U =
  mk (<[job_id job := (queued, current_run_id job)]> (abs_job <$> jobs d)) (abs_run <$> job_runs d) U.
Proof.
  intros Hs. unfold with_job, abs. rewrite Hs.
  destruct (current_run_id job) as [rid|] eqn:Hc; cbn; rewrite fmap_insert; unfold abs_job at 1; cbn;
    by rewrite Hs, Hc.
Qed.

Lemma abs_finalize_job_deletion jid del after d U :
  rtc astep (abs d U) (abs (finalize_job_deletion jid del after d).2 U).
Proof.
  apply (by_tx _ _ (λ d', rtc astep (abs d U) (abs d' U))).
  txs; try reflexivity.
  conditions. abs_norm. rewrite abs_kept_runs. one a_delete.
Qed.

Lemma abs_prune jid rid e tb m d U :
  rtc astep (abs d U) (abs (prune_scheduled_run_for_retention jid rid e tb m d).2 U).
Proof.
  unfold prune_scheduled_run_for_retention. destruct (m <? 1); [reflexivity|].
  apply (by_tx _ _ (λ d', rtc astep (abs d U) (abs d' U))). txs; try reflexivity.
  boolprop. cbn [job_runs set_webhook_deliveries] in *. simplify_map_eq.
  destruct (jobs d !! r_job_id r) as [j|] eqn:Hj; [|done].
  unfold scheduled_eligible in *. boolprop.
  abs_norm. one a_prune. by apply abs_jobs_at.
Qed.

Lemma abs_save_job u adm job d U :
  status job = queued → (∀ rid, current_run_id job = Some rid → rid ∉ U) →
  rtc astep (abs d U) (abs (save_job u adm job d).2 (U ∪ run_ids (current_run_id job))).
Proof.
  intros Hs Hf.
  apply (by_tx _ _ (λ d', rtc astep (abs d U) (abs d' (U ∪ run_ids (current_run_id job))))).
  txs; try apply minted.
  rewrite abs_with_job by done. one a_submit.
Qed.

Lemma abs_create_idempotent_job u adm job scope dig h m e d U :
  status job = queued → (∀ rid, current_run_id job = Some rid → rid ∉ U) →
  rtc astep (abs d U)
    (abs (create_idempotent_job u adm job scope dig h m e d).2 (U ∪ run_ids (current_run_id job))).
Proof.
  intros Hs Hf. unfold create_idempotent_job.
  destruct (current_run_id job) as [rid|] eqn:Hc; [|apply minted].
  apply (by_tx _ _ (λ d', rtc astep (abs d U) (abs d' (U ∪ run_ids (Some rid))))).
  txs; try apply minted; [exact (minted d _ U)|].
  match goal with |- context [with_job u job ?d'] =>
    change (rtc astep (abs d U) (abs (with_job u job d') (U ∪ run_ids (Some rid)))) end.
  rewrite abs_with_job, Hc by done. one a_submit.
Qed.

Lemma abs_no_history d jid rid ar :
  no_history d jid = true → (abs_run <$> job_runs d) !! rid = Some ar → a_job ar ≠ jid.
Proof.
  unfold no_history. intros Hn. boolprop. rewrite lookup_fmap. intros Hr.
  destruct (job_runs d !! rid) as [r|] eqn:E; [|done]. injection Hr as <-.
  match goal with Hf : map_Forall _ (job_runs d) |- _ => by apply (Hf rid r) end.
Qed.

Lemma abs_rollback_queued_submission jid rid d U :
  rtc astep (abs d U) (abs (rollback_queued_submission jid rid d).2 U).
Proof.
  apply (by_tx _ _ (λ d', rtc astep (abs d U) (abs d' U))). txs; try reflexivity.
  conditions. abs_norm. rewrite H1 in Heqb. conditions.
  one a_withdraw. intros. by eapply abs_no_history.
Qed.

Lemma abs_rollback_scheduled_job_creation jid d U :
  rtc astep (abs d U) (abs (rollback_scheduled_job_creation jid d).2 U).
Proof.
  apply (by_tx _ _ (λ d', rtc astep (abs d U) (abs d' U))). txs; try reflexivity.
  conditions. abs_norm. one a_withdraw. intros. by eapply abs_no_history.
Qed.

Lemma abs_delete_expired e n d U :
  abs (delete_expired_idempotency_records e n d).2 U = abs d U.
Proof.
  unfold delete_expired_idempotency_records. destruct (n <? 1)%nat; [done|].
  apply (by_tx _ _ (λ d', abs d' U = abs d U)). by txs.
Qed.

Lemma abs_set_schedule u jid p n c cron tz en t j :
  abs_job (set_schedule u jid p n c cron tz en t j) = abs_job j.
Proof. done. Qed.

Lemma abs_update_scheduled_job u jid p n c cron tz en t d U :
  abs (update_scheduled_job u jid p n c cron tz en t d).2 U = abs d U.
Proof.
  apply (by_tx _ _ (λ d', abs d' U = abs d U)). unfold _get_job_in_db, same_mutation.
  txs; try reflexivity.
  all: abs_norm; stutter.
Qed.

Lemma abs_set_schedule_enabled jid en t d U :
  abs (set_schedule_enabled jid en t d).2 U = abs d U.
Proof.
  apply (by_tx _ _ (λ d', abs d' U = abs d U)). unfold _get_job_in_db, same_mutation.
  txs; try reflexivity.
  all: abs_norm; stutter.
Qed.

Lemma abs_restore_scheduled_job u e p d U :
  abs (restore_scheduled_job u e p d).2 U = abs d U.
Proof.
  apply (by_tx _ _ (λ d', abs d' U = abs d U)). txs; try reflexivity.
  conditions. abs_norm. stutter.
Qed.

Lemma abs_clear_scheduled_trigger_failure jid d U :
  abs (clear_scheduled_trigger_failure jid d).2 U = abs d U.
Proof.
  apply (by_tx _ _ (λ d', abs d' U = abs d U)). txs; try reflexivity. abs_norm. stutter.
Qed.

Lemma enabled_schedule_job d jid j : enabled_schedule d jid = Some j → jobs d !! jid = Some j.
Proof. unfold enabled_schedule. destruct (jobs d !! jid); [|done]. by case_match; intros [= ->]. Qed.

Lemma abs_missed_parent b rid code t j :
  abs_job (missed_parent b rid code t j) = if b then (failed, Some rid) else abs_job j.
Proof. by destruct b. Qed.

Lemma converges_idle rid j : parent_can_converge rid j = true → j_status j ≠ running.
Proof.
  unfold parent_can_converge. intros Hc E. rewrite E in Hc. by rewrite bool_decide_false in Hc.
Qed.

(** The run id of a missed fire: no other job has it, and it is new unless the job has it
    or its row is there already. *)
Definition fire_id (d : DB) (U : gset string) (jid rid : string) : Prop :=
  (∀ jid' j, jobs d !! jid' = Some j → j_current_run_id j = Some rid → jid' = jid) ∧
  (job_runs d !! rid = None → is_Some (jobs d !! jid) →
   rid ∉ U ∨ ∃ j, jobs d !! jid = Some j ∧ j_current_run_id j = Some rid).

Lemma fire_owned d U jid rid : fire_id d U jid rid → owned_by (abs_job <$> jobs d) jid rid.
Proof.
  intros [Ho _] jid' s. rewrite lookup_fmap.
  destruct (jobs d !! jid') as [j|] eqn:Hj; [|done]. intros [= _ Hc]. by eapply Ho.
Qed.

Lemma fire_drawn d U jid rid j :
  fire_id d U jid rid → jobs d !! jid = Some j → job_runs d !! rid = None →
  drawn (abs_job <$> jobs d) U jid rid.
Proof.
  intros [_ Hd] Hj Hr. destruct Hd as [?|(j' & Hj' & Hc)]; [done|by eexists|by left|].
  right. exists (j_status j'). rewrite lookup_fmap, Hj'. simpl. by rewrite abs_job_eq, Hc.
Qed.

Lemma missed_elsewhere d jid rid code t j U :
  fire_id d U jid rid → jobs d !! jid = Some j → job_runs d !! rid = None →
  rtc astep (abs d U)
    (mk (abs_job <$> jobs d) (<[rid := abs_run (missed_run_row jid code t j)]> (abs_run <$> job_runs d))
       (U ∪ {[ rid ]})).
Proof.
  intros Hf Hj Hr. apply rtc_once, (a_missed _ _ _ jid); try abs_lookup; try done.
  - rewrite lookup_fmap, Hj. by eexists.
  - by eapply fire_owned.
  - by eapply fire_drawn.
Qed.

Lemma abs_record_scheduled_trigger_failure jid rid t code d U :
  fire_id d U jid rid →
  rtc astep (abs d U) (abs (record_scheduled_trigger_failure jid rid t code d).2 (U ∪ {[ rid ]})).
Proof.
  intros Hf.
  unfold record_scheduled_trigger_failure. destruct (negb (failure_code_ok code)); [apply minted|].
  apply (by_tx _ _ (λ d', rtc astep (abs d U) (abs d' (U ∪ {[ rid ]})))).
  txs; try apply minted.
  all: apply enabled_schedule_job in Heqo as Hj.
  all: destruct (parent_can_converge rid j) eqn:Hc; [apply converges_idle in Hc|].
  all: unfold abs; cbn [jobs job_runs set_jobs set_job_runs add_run];
    rewrite ?fmap_insert, ?abs_count, ?abs_missed_parent.
  - one a_missed_idle; [by eapply fire_owned|by eapply fire_drawn].
  - apply count_lookup in H2 as (j' & Hj' & ->). simplify_eq.
    rewrite insert_id by abs_lookup. by apply missed_elsewhere.
  - by apply missed_elsewhere.
  - by apply missed_elsewhere.
  - destruct (job_runs d !! rid) as [r|] eqn:Hr; [|done]. boolprop. one a_missed_again.
    by eapply fire_owned.
  - simplify_eq. rewrite insert_id by abs_lookup. apply minted.
Qed.

Lemma abs_mark_reconciliation_failure jid rid t d U :
  abs (mark_terminal_webhook_reconciliation_failure jid rid t d).2 U = abs d U.
Proof.
  apply (by_tx _ _ (λ d', abs d' U = abs d U)). txs; try reflexivity. abs_norm. stutter.
Qed.

Lemma abs_webhooks m d U : abs (set_webhook_deliveries m d) U = abs d U.
Proof. done. Qed.

Lemma abs_reconcile u c w d U :
  rtc astep (abs d U) (abs (reconcile_terminal_webhook_candidate u c w d).2 U).
Proof.
  apply (by_tx _ _ (λ d', rtc astep (abs d U) (abs d' U))).
  unfold ensure_intent, _mark_terminal_webhook_reconciled.
  txs; try reflexivity.
  all: apply candidate_rows_Some in Heqo as (Hr & Hrj & Hj); conditions; abs_norm;
    rewrite (insert_id (abs_run <$> job_runs d)) by abs_lookup; try reflexivity.
  all: one a_converge; [congruence|]; intros rid ar [= <-]; rewrite lookup_fmap, Hr;
    intros [= <-] _; by apply terminal_not_running.
Qed.
End refinement.
