(* ===== verification/OutboxSpec.v ===== *)
(** * What the outbox guarantees

    A delivery moves from pending to delivered or failed and stays there; its attempt
    count only grows; once scrubbed it holds no secret. Proved operation by operation:
    each changes the table by allowed transitions of single rows ([wstep]). *)

From S2P Require Import Prelude.
From S2P Require Import Envelope.
From S2P Require Import Rows.
From S2P Require Import JobDb.
From S2P Require Import JobModel.
From S2P Require Import Tx.
From S2P Require Import Json.
From S2P Require Import Outbox.
From S2P Require Import TxStore.
Open Scope Z_scope.

(** ** Rows *)

Definition clean (w : WebhookRow) : Prop :=
  w_url w = "" ∧ w_headers_json w = "{}" ∧ w_payload_json w = "{}" ∧ w_last_error w = None ∧
  w_timeout_seconds w = 0.

(** A row is scrubbed only when it is dead, and then it is clean. *)
Definition row_ok (w : WebhookRow) : Prop :=
  is_Some (w_scrubbed_at w) → is_dead w = true ∧ clean w.

Definition secrets (w : WebhookRow) : string * string * string :=
  (w_url w, w_headers_json w, w_payload_json w).
Definition identity (w : WebhookRow) : string * option string * string :=
  (w_job_id w, w_run_id w, w_event w).

(** What one statement may do to a row. *)
Record evolves (w w' : WebhookRow) : Prop := {
  same_identity : identity w' = identity w;
  dead_is_final : is_dead w = true → w_status w' = w_status w ∧ w_failure_reason w' = w_failure_reason w;
  attempts_grow : w_attempts w ≤ w_attempts w';
  pending_keeps : w_status w' = Delivery.pending → secrets w' = secrets w ∧ w_scrubbed_at w' = w_scrubbed_at w;
  stays_ok : row_ok w → row_ok w';
  still_scrubbed : is_Some (w_scrubbed_at w) → is_Some (w_scrubbed_at w');
}.

Lemma dead_or_pending w : is_dead w = negb (is_pending w).
Proof. unfold is_dead, is_pending. by destruct (w_status w). Qed.

Lemma is_pending_true w : is_pending w = true ↔ w_status w = Delivery.pending.
Proof. unfold is_pending. by rewrite bool_decide_eq_true. Qed.

Lemma evolves_refl w : evolves w w.
Proof. by constructor. Qed.

Lemma evolves_trans a b c : evolves a b → evolves b c → evolves a c.
Proof.
  intros [I1 D1 A1 P1 O1 S1] [I2 D2 A2 P2 O2 S2]. constructor; eauto.
  - congruence.
  - intros Hd. destruct (D1 Hd) as [E1 F1].
    assert (is_dead b = true) as Hb by (unfold is_dead in *; by rewrite E1).
    destruct (D2 Hb). split; congruence.
  - lia.
  - intros Hp. destruct (P2 Hp) as [E2 F2]. destruct (is_dead b) eqn:Hb.
    + destruct (D2 eq_refl) as [Es _]. rewrite Es in Hp.
      unfold is_dead in Hb. by rewrite Hp in Hb.
    + rewrite dead_or_pending, negb_false_iff, is_pending_true in Hb.
      destruct (P1 Hb). split; congruence.
Qed.

(** ** Steps of the table *)

Inductive wstep : gmap string WebhookRow → gmap string WebhookRow → Prop :=
| w_insert m id w :
    m !! id = None → w_status w = Delivery.pending → w_attempts w = 0 → w_scrubbed_at w = None →
    wstep m (<[id := w]> m)
| w_update m id w w' : m !! id = Some w → evolves w w' → wstep m (<[id := w']> m).

(** What the steps amount to: rows are kept and evolve, and stay well formed. *)
Definition grows (m m' : gmap string WebhookRow) : Prop :=
  ∀ id w, m !! id = Some w → ∃ w', m' !! id = Some w' ∧ evolves w w'.

Lemma grows_trans a b c : grows a b → grows b c → grows a c.
Proof.
  intros H1 H2 id w Hw. destruct (H1 _ _ Hw) as (w' & Hw' & E1).
  destruct (H2 _ _ Hw') as (w'' & Hw'' & E2). exists w''. split; [done|]. by eapply evolves_trans.
Qed.

Lemma wstep_grows m m' : wstep m m' → grows m m'.
Proof.
  destruct 1 as [m id w Hn|m id w w' Hw He]; intros i x Hx.
  - exists x. split; [|apply evolves_refl]. rewrite lookup_insert_ne; [done|congruence].
  - destruct (decide (id = i)) as [->|Hne].
    + rewrite lookup_insert_eq. exists w'. split; [done|]. by assert (x = w) as -> by congruence.
    + rewrite lookup_insert_ne by done. exists x. split; [done|apply evolves_refl].
Qed.

Lemma wsteps_grow m m' : rtc wstep m m' → grows m m'.
Proof.
  induction 1 as [m|a b c Hab Hbc IH].
  - intros id w Hw. exists w. split; [done|apply evolves_refl].
  - eapply grows_trans; [by apply wstep_grows|done].
Qed.

Definition rows_ok (m : gmap string WebhookRow) : Prop := map_Forall (λ _, row_ok) m.

Lemma wsteps_ok m m' : rtc wstep m m' → rows_ok m → rows_ok m'.
Proof.
  apply rtc_invariant. clear. intros m m' Hm St.
  destruct St as [m id w Hn Hp Ha Hs|m id w w' Hw He]; apply map_Forall_insert_2; try done.
  - intros Hsome. rewrite Hs in Hsome. by destruct Hsome.
  - apply (stays_ok _ _ He). by apply (Hm id).
Qed.

Section ops.
Context `{Vault} `{JsonText}.

(** The updates of the outbox, on the rows their conditions select. *)
Lemma pending_not_scrubbed w : is_pending w = true → row_ok w → w_scrubbed_at w = None.
Proof.
  unfold row_ok. rewrite dead_or_pending. intros -> Hok.
  destruct (w_scrubbed_at w); [|done]. by destruct Hok.
Qed.

Lemma begin_evolves t w :
  evolves w (set_w_updated_at t (set_w_last_attempt_at (Some t) (set_w_attempts (w_attempts w + 1) w))).
Proof. constructor; try done. simpl. lia. Qed.

Lemma quarantine_evolves t w : is_pending w = true → evolves w (quarantine t w).
Proof.
  intros Hp. constructor; try done; [|simpl; lia..].
  by rewrite dead_or_pending, Hp.
Qed.

Lemma scrub_evolves t w : is_dead w = true → evolves w (scrub t w).
Proof.
  intros Hd. constructor; try done.
  simpl. rewrite dead_or_pending, negb_true_iff in Hd. intros Hp.
  apply is_pending_true in Hp. congruence.
Qed.

Lemma count_attempts_evolves b n t w w' :
  0 ≤ n → evolves w w' → evolves w (count_attempts b n t w').
Proof.
  intros Hn E. destruct b; [|done]. eapply evolves_trans; [done|].
  constructor; try done. simpl. lia.
Qed.

(** An update of a pending row that keeps its identity, attempts and scrubbing, and its
    secrets if it stays pending. *)
Lemma pending_evolves w w' :
  is_pending w = true → identity w' = identity w → w_attempts w' = w_attempts w →
  w_scrubbed_at w' = w_scrubbed_at w →
  (w_status w' = Delivery.pending → secrets w' = secrets w) → evolves w w'.
Proof.
  intros Hp Hi Ha Hs Hk. constructor; eauto.
  - by rewrite dead_or_pending, Hp.
  - lia.
  - intros Hok. unfold row_ok. rewrite Hs, (pending_not_scrubbed w) by done. by intros [].
  - by rewrite Hs.
Qed.

(** ** Operations *)

Abbreviation table := (gmap string WebhookRow).

(** The operation changes nothing but the outbox, and that by steps of its rows. *)
Definition outbox_only (d d' : DB) : Prop :=
  ∃ m, d' = set_webhook_deliveries m d ∧ rtc wstep (webhook_deliveries d) m.

Lemma outbox_only_refl d : outbox_only d d.
Proof. exists (webhook_deliveries d). by destruct d. Qed.
Lemma outbox_only_trans a b c : outbox_only a b → outbox_only b c → outbox_only a c.
Proof.
  intros (m & -> & H1) (m' & -> & H2). exists m'. split; [done|]. by etrans.
Qed.

Lemma outbox_update d id w w' :
  webhook_deliveries d !! id = Some w → evolves w w' →
  outbox_only d (set_webhook_deliveries (<[id := w']> (webhook_deliveries d)) d).
Proof.
  intros Hw He. eexists. split; [done|]. apply rtc_once. by eapply w_update.
Qed.

Lemma add_delivery_steps u w t m : rtc wstep m (add_delivery u w t m).
Proof.
  unfold add_delivery. destruct (m !! delivery_id w) eqn:E; [done|].
  by apply rtc_once, w_insert.
Qed.

Lemma enqueue_outbox u w t d : outbox_only d (enqueue_delivery u w t d).2.
Proof.
  apply (by_tx _ _ (outbox_only d)). apply tx_tail. txs; [|apply outbox_only_refl].
  eexists. split; [done|]. apply add_delivery_steps.
Qed.

Lemma quarantine_outbox id t d : outbox_only d (quarantine_malformed_delivery id t d).2.
Proof.
  apply (by_tx _ _ (outbox_only d)). unfold _quarantine_malformed_row. txs; [|apply outbox_only_refl].
  eapply outbox_update; [done|]. by apply quarantine_evolves.
Qed.

Lemma reserve_outbox id n t d : outbox_only d (reserve_attempt id n t d).2.
Proof.
  apply (by_tx _ _ (outbox_only d)). txs; [|apply outbox_only_refl].
  eapply outbox_update; [done|]. apply begin_evolves.
Qed.

Lemma pending_update_outbox id n set d :
  (∀ w, is_pending w = true → evolves w (set w)) → outbox_only d (_pending_update id n set d).2.
Proof.
  intros Hs. apply (by_tx _ _ (outbox_only d)). txs; [|apply outbox_only_refl].
  boolprop. eapply outbox_update; eauto.
Qed.

Lemma mark_delivered_outbox id t n k d : 0 ≤ k → outbox_only d (mark_delivered id t n k d).2.
Proof.
  intros Hk. apply pending_update_outbox. intros w Hw.
  by apply count_attempts_evolves, pending_evolves.
Qed.

Lemma mark_retryable_outbox u id t next e n k d :
  0 ≤ k → outbox_only d (mark_retryable_failure u id t next e n k d).2.
Proof.
  intros Hk. apply pending_update_outbox. intros w Hw.
  by apply count_attempts_evolves, pending_evolves.
Qed.

Lemma mark_failed_outbox u id t r e n k d :
  0 ≤ k → outbox_only d (mark_failed u id t r e n k d).2.
Proof.
  intros Hk. apply pending_update_outbox. intros w Hw.
  by apply count_attempts_evolves, pending_evolves.
Qed.

Lemma begin_attempt_outbox id n t d : outbox_only d (begin_attempt id n t d).2.
Proof.
  unfold begin_attempt, pbind. pose proof (reserve_outbox id n t d) as Hr.
  destruct (reserve_attempt id n t d) as [[[w|]|e] d']; simpl in *; try done.
  destruct (_decode_webhook_delivery id w); try done.
  pose proof (quarantine_outbox id t d') as Hq.
  destruct (quarantine_malformed_delivery id t d') as [[b|e] d'']; simpl in *;
    by eapply outbox_only_trans.
Qed.

Lemma get_delivery_outbox id t d : outbox_only d (get_delivery id t d).2.
Proof.
  unfold get_delivery, pbind. destruct (webhook_deliveries d !! id) as [w|]; [|apply outbox_only_refl].
  destruct (_decode_webhook_delivery id w); try apply outbox_only_refl.
  pose proof (quarantine_outbox id t d) as Hq.
  by destruct (quarantine_malformed_delivery id t d) as [[b|e] d''].
Qed.

(** Loops: the rest of the transaction continues from an outbox that moved by steps. *)
Lemma scrub_rows_outbox ids t d0 d {A} (k : unit → sql A) Q :
  (∀ d', outbox_only d d' → tx_post d0 d' (k tt) Q) →
  tx_post d0 d (pbind (scrub_rows ids t) k) Q.
Proof.
  revert d k. induction ids as [|id ids IH]; intros d k Hk; cbn [scrub_rows].
  { txs. apply Hk, outbox_only_refl. }
  unfold scrub_row. txs; apply IH; intros d' Hd; apply Hk; [|done].
  boolprop. eapply outbox_only_trans; [|done]. eapply outbox_update; [done|].
  by apply scrub_evolves.
Qed.

Lemma scrub_outbox a b t n d : outbox_only d (scrub_terminal_deliveries a b t n d).2.
Proof.
  unfold scrub_terminal_deliveries. destruct (n <? 1)%nat; [apply outbox_only_refl|].
  apply (by_tx _ _ (outbox_only d)). txs.
  apply scrub_rows_outbox. intros d' Hd. apply scrub_rows_outbox. intros d'' Hd'.
  txs. by eapply outbox_only_trans.
Qed.

Lemma decode_rows_outbox rows t d0 d {A} (k : list WebhookDelivery * nat → sql A) Q :
  (∀ r d', outbox_only d d' → tx_post d0 d' (k r) Q) → (∀ e, Q (Raise e) d0) →
  tx_post d0 d (pbind (decode_rows rows t) k) Q.
Proof.
  intros Hk Hr. revert d k Hk. induction rows as [|[id w] rows IH]; intros d k Hk; cbn [decode_rows].
  { txs. apply Hk, outbox_only_refl. }
  destruct (_decode_webhook_delivery id w); [| |by txs].
  - apply tx_bind_assoc, IH. intros [l n] d' Hd. txs. by apply Hk.
  - unfold _quarantine_malformed_row. txs; apply IH; intros [l m] d' Hd; txs; apply Hk; [|done].
    eapply outbox_only_trans; [|done]. eapply outbox_update; [done|]. by apply quarantine_evolves.
Qed.

Lemma fetch_pages_outbox fuel select t limit n l d0 d (Q : outcome store_error _ → DB → Prop) :
  (∀ r d', outbox_only d d' → Q (Ok r) d') → (∀ e, Q (Raise e) d0) →
  tx_post d0 d (fetch_pages fuel select t limit n l) Q.
Proof.
  intros Hk Hr. revert n l d Hk. induction fuel as [|fuel IH]; intros n l d Hk; cbn [fetch_pages].
  { txs. apply Hk, outbox_only_refl. }
  txs; try apply Hk, outbox_only_refl.
  apply decode_rows_outbox; [|done]. intros [l' m] d' Hd. txs; [by apply Hk|].
  apply IH. intros r d'' Hd'. apply Hk. by eapply outbox_only_trans.
Qed.

Lemma fetch_outbox select t limit d : outbox_only d (_fetch_deliveries select t limit d).2.
Proof.
  apply (by_tx _ _ (outbox_only d)). apply fetch_pages_outbox; [done|].
  intros _. apply outbox_only_refl.
Qed.

Lemma add_intent_steps u w t m : rtc wstep m (add_intent u w t m).
Proof. destruct w as [w|]; [apply add_delivery_steps|reflexivity]. Qed.
End ops.
