(* ===== verification/System.v ===== *)
(** * The service's use of the job database

    [sstep] is one call of a store operation by the API, the worker, the scheduler, the
    dispatcher or the cleanup loop, with any arguments those callers may pass but one:
    [_trigger_job] of scheduler/cron.py can call [queue_run] expecting a running job, which
    replaces its run ([any_call] has that call too). The database lets one transaction in at
    a time, so an execution of the service is a sequence of such steps. *)

From S2P Require Import Prelude.
From S2P Require Import Sha256.
From S2P Require Import Envelope.
From S2P Require Import Rows.
From S2P Require Import JobDb.
From S2P Require Import JobModel.
From S2P Require Import Tx.
From S2P Require Import Json.
From S2P Require Import Outbox.
From S2P Require Import JobTerminal.
From S2P Require Import JobRecovery.
From S2P Require Import JobDeletion.
From S2P Require Import JobRetention.
From S2P Require Import JobStore.
From S2P Require Import TxStore.
From S2P Require Import JobRuns.
From S2P Require Import Lifecycle.
From S2P Require Import LifecycleStore.
From S2P Require Import OutboxSpec.
Open Scope Z_scope.

(** The database, and the run ids handed out so far: [generate_run_id] draws fresh ones. *)
Record world := { db : DB; used : gset string }.

Definition initial : world := {| db := empty_db; used := ∅ |}.

Create HintDb system discriminated.

Section system.
Context `{Vault} `{JsonText}.

Definition after {A} (w : world) (m : store A) (ids : gset string) : world :=
  {| db := (m (db w)).2; used := used w ∪ ids |}.
Definition call {A} (w : world) (m : store A) : world :=
  {| db := (m (db w)).2; used := used w |}.

(** Submissions are queued jobs with a fresh run id; a run is queued over any job that is
    expected not to be running; a missed fire is recorded under a run id of its own job; attempts are
    counted upwards. *)
Inductive sstep (w : world) : world → Prop :=
| s_save_job u adm job :
    status job = queued → (∀ rid, current_run_id job = Some rid → rid ∉ used w) →
    sstep w (after w (save_job u adm job) (run_ids (current_run_id job)))
| s_create_idempotent_job u adm job scope dig h m e :
    status job = queued → (∀ rid, current_run_id job = Some rid → rid ∉ used w) →
    sstep w (after w (create_idempotent_job u adm job scope dig h m e) (run_ids (current_run_id job)))
| s_rollback_queued_submission jid rid : sstep w (call w (rollback_queued_submission jid rid))
| s_delete_expired e n : sstep w (call w (delete_expired_idempotency_records e n))
| s_update_scheduled_job u jid p n c cron tz en t :
    sstep w (call w (update_scheduled_job u jid p n c cron tz en t))
| s_set_schedule_enabled jid en t : sstep w (call w (set_schedule_enabled jid en t))
| s_restore_scheduled_job u e p :
    job_id p = job_id e → sstep w (call w (restore_scheduled_job u e p))
| s_rollback_scheduled_job_creation jid : sstep w (call w (rollback_scheduled_job_creation jid))
| s_record_trigger_failure jid rid t code :
    fire_id (db w) (used w) jid rid →
    sstep w (after w (record_scheduled_trigger_failure jid rid t code) {[ rid ]})
| s_clear_trigger_failure jid : sstep w (call w (clear_scheduled_trigger_failure jid))
| s_queue_run u adm jid s cur rid trigger t stale config en :
    s ≠ running → rid ∉ used w →
    sstep w (after w (queue_run u adm jid s cur rid trigger t stale config en) {[ rid ]})
| s_claim_run u rid jid trigger h t : sstep w (call w (claim_run u rid jid trigger h t))
| s_heartbeat_run jid rid t : sstep w (call w (heartbeat_run jid rid t))
| s_finalize_owned_run u jid rid s n e t cutoff d :
    sstep w (call w (finalize_owned_run u jid rid s n e t cutoff d))
| s_fail_owned_run u jid rid t cutoff n d :
    sstep w (call w (fail_owned_run u jid rid t cutoff n d))
| s_fail_queued_run u jid rid t : sstep w (call w (fail_queued_run u jid rid t))
| s_reserve_recovery jid rid q s t : sstep w (call w (reserve_queued_run_recovery jid rid q s t))
| s_fail_recovery u jid rid q t : sstep w (call w (fail_queued_run_recovery u jid rid q t))
| s_recover_stale_run jid cur cutoff t : sstep w (call w (recover_stale_run jid cur cutoff t))
| s_recover_stale_running_jobs cutoff t limit :
    sstep w (call w (recover_stale_running_jobs cutoff t limit))
| s_reconcile u c d : sstep w (call w (reconcile_terminal_webhook_candidate u c d))
| s_mark_reconciliation_failure jid rid t :
    sstep w (call w (mark_terminal_webhook_reconciliation_failure jid rid t))
| s_cancel_job jid t e : sstep w (call w (cancel_job jid t e))
| s_reserve_job_deletion jid del t : sstep w (call w (reserve_job_deletion jid del t))
| s_finalize_job_deletion jid del a : sstep w (call w (finalize_job_deletion jid del a))
| s_prune jid rid e tb m : sstep w (call w (prune_scheduled_run_for_retention jid rid e tb m))
| s_enqueue_delivery u d t : sstep w (call w (enqueue_delivery u d t))
| s_get_delivery id t : sstep w (call w (get_delivery id t))
| s_begin_attempt id n t : sstep w (call w (begin_attempt id n t))
| s_mark_delivered id t n k : 0 ≤ k → sstep w (call w (mark_delivered id t n k))
| s_mark_retryable_failure u id t next e n k :
    0 ≤ k → sstep w (call w (mark_retryable_failure u id t next e n k))
| s_mark_failed u id t r e n k : 0 ≤ k → sstep w (call w (mark_failed u id t r e n k))
| s_scrub a b t n : sstep w (call w (scrub_terminal_deliveries a b t n))
| s_list_due_pending t n : sstep w (call w (list_due_pending t n))
| s_list_exhausted_pending a b t n : sstep w (call w (list_exhausted_pending a b t n)).

(** The call that [sstep] leaves out. *)
Inductive any_call (w : world) : world → Prop :=
| regular_call w' : sstep w w' → any_call w w'
| c_replace_run u adm jid cur rid trigger t stale config en :
    rid ∉ used w →
    any_call w (after w (queue_run u adm jid running cur rid trigger t stale config en) {[ rid ]}).

Definition absw (w : world) : astate := abs (db w) (used w).

Lemma abs_outbox_only d d' U : outbox_only d d' → abs d' U = abs d U.
Proof. by intros (m & -> & _). Qed.

Lemma outbox_sim d d' U : outbox_only d d' → rtc astep (abs d U) (abs d' U).
Proof. intros Ho. by rewrite (abs_outbox_only d d' U Ho). Qed.

Lemma list_due_outbox t n d : outbox_only d (list_due_pending t n d).2.
Proof.
  unfold list_due_pending. destruct (n <? 1)%nat; [apply outbox_only_refl|]. apply fetch_outbox.
Qed.
Lemma list_exhausted_outbox a b t n d : outbox_only d (list_exhausted_pending a b t n d).2.
Proof.
  unfold list_exhausted_pending. destruct (n <? 1)%nat; [apply outbox_only_refl|]. apply fetch_outbox.
Qed.

#[local] Hint Resolve abs_save_job abs_create_idempotent_job abs_rollback_queued_submission
  abs_rollback_scheduled_job_creation abs_record_scheduled_trigger_failure abs_queue_run
  abs_claim_run abs_finalize_owned_run abs_fail_owned_run abs_fail_queued_run
  abs_fail_queued_run_recovery abs_recover_stale_run abs_recover_stale_running_jobs abs_reconcile
  abs_cancel_job abs_reserve_job_deletion abs_finalize_job_deletion abs_prune outbox_sim
  enqueue_outbox get_delivery_outbox begin_attempt_outbox mark_delivered_outbox
  mark_retryable_outbox mark_failed_outbox scrub_outbox list_due_outbox list_exhausted_outbox
  : system.

Lemma sstep_sim w w' : sstep w w' → rtc astep (absw w) (absw w').
Proof.
  destruct 1; unfold absw, call, after; cbn [db used]; eauto 3 with system;
    rewrite ?abs_delete_expired, ?abs_update_scheduled_job, ?abs_set_schedule_enabled,
      ?abs_restore_scheduled_job, ?abs_clear_scheduled_trigger_failure, ?abs_heartbeat_run,
      ?abs_reserve_queued_run_recovery, ?abs_mark_reconciliation_failure; reflexivity.
Qed.

Lemma sstep_rtc_sim w w' : rtc sstep w w' → rtc astep (absw w) (absw w').
Proof. induction 1; [done|]. etrans; [by apply sstep_sim|done]. Qed.

Lemma any_call_sim w w' : rtc any_call w w' → rtc any_astep (absw w) (absw w').
Proof.
  induction 1 as [|w1 w2 w3 Hs _ IH]; [done|]. etrans; [|exact IH]. destruct Hs as [w' Hs%sstep_sim|].
  - eapply rtc_subrel; [|exact Hs]. intros x y. apply within_lifecycle.
  - by apply abs_replace_run.
Qed.
End system.
