(* ===== verification/Samples.v ===== *)
(** * A sample execution

    A job is submitted, claimed, and finished, with a concrete vault and JSON text. The
    witnesses of the theorems evaluate the store on it. *)

From S2P Require Import Prelude.
From S2P Require Import Sha256.
From S2P Require Import Envelope.
From S2P Require Import Rows.
From S2P Require Import JobDb.
From S2P Require Import JobModel.
From S2P Require Import Json.
From S2P Require Import Outbox.
From S2P Require Import JobDeletion.
From S2P Require Import JobStore.
From S2P Require Import JobRuns.
From S2P Require Import System.
Open Scope Z_scope.

(** ** The two interfaces, instantiated *)

#[export] Instance sample_vault : Vault := Envelope.toy_vault.

Abbreviation u0 := Envelope.toy_entropy.

Definition sample_headers : list (string * json) := [("X-Token", JString "t0")].
Definition sample_payload : list (string * json) :=
  [("delivery_id", JString "d1"); ("event", JString "job.complete"); ("job_id", JString "j1");
   ("run_id", JString "r1"); ("status", JString "complete")].

(** Two documents and the empty one, each with its text. *)
Definition sample_dumps (m : list (string * json)) : string :=
  match m with [] => "{}" | [_] => "headers" | _ => "payload" end.
Definition sample_loads (s : string) : option json :=
  if bool_decide (s = "{}") then Some (JObject [])
  else if bool_decide (s = "headers") then Some (JObject sample_headers)
  else if bool_decide (s = "payload") then Some (JObject sample_payload) else None.
Definition sample_canonical (m : list (string * json)) : Prop :=
  m = [] ∨ m = sample_headers ∨ m = sample_payload.

Lemma sample_sorted m : sample_canonical m → sorted_members m.
Proof. intros [->|[->| ->]]; unfold sorted_members; repeat constructor; done. Qed.
Lemma sample_loads_dumps m : sample_canonical m → sample_loads (sample_dumps m) = Some (JObject m).
Proof. by intros [->|[->| ->]]. Qed.

#[export] Instance sample_json : JsonText := {|
  dumps := sample_dumps; loads := sample_loads; canonical := sample_canonical;
  canonical_sorted := sample_sorted; loads_dumps := sample_loads_dumps |}.

(** ** The execution *)

Definition sample_job : Job := {|
  job_id := "j1"; project := "p"; name := "n"; status := queued; config_yaml := "project: p";
  created_at := 10; updated_at := Some 10; schedule_cron := None; schedule_timezone := "UTC";
  schedule_enabled := true; current_run_id := Some "r1"; current_trigger := None;
  deletion_requested_at := None; delete_results_on_delete := None; schedule_failure_at := None;
  schedule_failure_code := None; schedule_consecutive_failures := 0 |}.

Definition sample_adm : admission := {| workers_max_accepted_runs := 5; headroom_mb := 100 |}.
Definition sample_hash : string := sha256 "project: p".

Definition sample_delivery : WebhookDeliveryCreate := {|
  delivery_id := "d1"; d_job_id := "j1"; d_run_id := Some "r1"; d_event := "job.complete";
  d_url := "https://hooks.example/x"; d_headers := sample_headers; d_timeout_seconds := 10;
  d_payload := sample_payload; d_next_attempt_at := 30 |}.

Definition submitted : world := after initial (save_job u0 sample_adm sample_job) {[ "r1" ]}.
Definition claimed_w : world := call submitted (claim_run u0 "r1" "j1" "adhoc" sample_hash 20).
Definition finished_w : world :=
  call claimed_w (finalize_owned_run u0 "j1" "r1" complete 7 0 30 15 (Some sample_delivery)).
Definition cancelled_w : world := call claimed_w (cancel_job "j1" 25 None).
(** The delivery of the finished run is attempted, delivered and scrubbed. *)
Definition attempted_w : world := call finished_w (begin_attempt "d1" 0 40).
Definition delivered_w : world := call attempted_w (mark_delivered "d1" 41 (Some 1) 1).
Definition scrubbed_w : world := call delivered_w (scrub_terminal_deliveries 50 50 60 1).

Lemma submitted_reachable : rtc sstep initial submitted.
Proof.
  apply rtc_once, (s_save_job initial u0 sample_adm sample_job); [done|]. cbn. set_solver.
Qed.
Lemma claimed_reachable : rtc sstep initial claimed_w.
Proof. eapply rtc_r; [apply submitted_reachable|]. apply s_claim_run. Qed.
Lemma finished_reachable : rtc sstep initial finished_w.
Proof. eapply rtc_r; [apply claimed_reachable|]. apply s_finalize_owned_run. Qed.
Lemma scrubbing_steps : rtc sstep finished_w scrubbed_w.
Proof.
  refine (rtc_l _ _ attempted_w _ (s_begin_attempt finished_w "d1" 0 40) _).
  refine (rtc_l _ _ delivered_w _ (s_mark_delivered attempted_w "d1" 41 (Some 1) 1 Z.le_0_1) _).
  exact (rtc_once _ _ (s_scrub delivered_w 50 50 60 1)).
Qed.
Lemma scrubbed_reachable : rtc sstep initial scrubbed_w.
Proof. etrans; [apply finished_reachable|apply scrubbing_steps]. Qed.

(** The store does what the scenario says. *)
Example sample_runs :
  (claim_run u0 "r1" "j1" "adhoc" sample_hash 20 (db submitted)).1 = Ok true ∧
  run_is_active "j1" "r1" (db claimed_w) = true ∧
  (finalize_owned_run u0 "j1" "r1" complete 7 0 30 15 (Some sample_delivery) (db claimed_w)).1 = Ok tt ∧
  option_map r_status (job_runs (db finished_w) !! "r1") = Some complete ∧
  option_map j_status (jobs (db finished_w) !! "j1") = Some complete ∧
  option_map w_status (webhook_deliveries (db finished_w) !! "d1") = Some Delivery.pending.
Proof. vm_compute. repeat split. Qed.

(** The store itself does not stop a caller that expects a running job from replacing its
    run: the old run keeps running with no job that shows it. [_trigger_job] of
    scheduler/cron.py can be such a caller, when the job it reads again after a stale
    recovery was meanwhile queued and claimed by another trigger; [sstep] excludes it, [any_call]
    has it. *)
Definition replaced : outcome store_error bool * DB :=
  queue_run u0 sample_adm "j1" running (Some "r1") "r2" "scheduled" 30 None (Some "project: p") true
    (db claimed_w).

Example queue_over_running_orphans :
  replaced.1 = Ok true ∧
  option_map r_status (job_runs replaced.2 !! "r1") = Some running ∧
  option_map j_status (jobs replaced.2 !! "j1") = Some queued ∧
  option_map j_current_run_id (jobs replaced.2 !! "j1") = Some (Some "r2").
Proof. vm_compute. repeat split. Qed.

Definition replaced_w : world :=
  after claimed_w (queue_run u0 sample_adm "j1" running (Some "r1") "r2" "scheduled" 30 None (Some "project: p") true) {[ "r2" ]}.
Lemma replaced_call : any_call claimed_w replaced_w.
Proof. apply c_replace_run. apply (bool_decide_unpack _). by vm_compute. Qed.
