(* ===== verification/RunSpec.v ===== *)
(** * What the run operations do

    For each operation that moves a run, when it succeeds and what it leaves; every other
    result leaves the database as it was. *)

From S2P Require Import Prelude.
From S2P Require Import Sha256.
From S2P Require Import Envelope.
From S2P Require Import Rows.
From S2P Require Import JobDb.
From S2P Require Import JobModel.
From S2P Require Import Tx.
From S2P Require Import Json.
From S2P Require Import Outbox.
From S2P Require Import JobTerminal.
From S2P Require Import JobRecovery.
From S2P Require Import JobDeletion.
From S2P Require Import JobRetention.
From S2P Require Import JobStore.
From S2P Require Import TxStore.
From S2P Require Import JobRuns.
From S2P Require Import LifecycleStore.
From S2P Require Import OutboxSpec.
From S2P Require Import System.
From S2P Require Import Samples.
Open Scope Z_scope.

Section spec.
Context `{Vault} `{JsonText}.

(** ** Claiming *)

(** The trigger a queued row accepts. *)
Definition trigger_accepts (j : JobRow) (trigger : string) : Prop :=
  j_current_trigger j = Some trigger ∨ j_current_trigger j = None.

(** The database a successful claim leaves. *)
Definition claimed_db (u : entropy) (rid jid trigger config hash : string) (t : Z) (j : JobRow)
    (d : DB) : DB :=
  set_queued_run_snapshots (drop_snapshot jid rid (queued_run_snapshots d))
    (add_run rid (running_row u rid jid trigger config hash t)
       (set_jobs (<[jid := claimed_job trigger t j]> (jobs d)) d)).

(** A claim is possible: the parent is queued for this very run, its trigger and the
    snapshot's agree with the delivery, and the stored configuration is the one named. *)
Record claimable (d : DB) (rid jid trigger hash config : string) (j : JobRow) : Prop := {
  cl_job : jobs d !! jid = Some j;
  cl_owned : owned_as queued rid j = true;
  cl_trigger : trigger_accepts j trigger;
  cl_new : job_runs d !! rid = None;
  cl_source : ∃ t stored purpose,
    claim_source d jid rid = Some (t, stored, hash, purpose) ∧ (t = None ∨ t = Some trigger) ∧
    reveal_text purpose stored = Some config ∧ sha256 config = hash;
}.

Lemma reveal_verified_Ok v p h c :
  _reveal_verified v p h = Ok (Some c) ↔ reveal_text p v = Some c ∧ sha256 c = h.
Proof.
  unfold _reveal_verified, reveal. destruct (reveal_text p v) as [c'|]; [|naive_solver].
  case_bool_decide; naive_solver.
Qed.

(** The row the claim updates first keeps what it reads afterwards. *)
Lemma claim_source_after d jid rid j j' :
  jobs d !! jid = Some j → j_config_yaml j' = j_config_yaml j → j_config_hash j' = j_config_hash j →
  claim_source (set_jobs (<[jid := j']> (jobs d)) d) jid rid = claim_source d jid rid.
Proof.
  intros Hj Hy Hh. unfold claim_source, snapshot_of. cbn.
  rewrite lookup_insert_eq, Hj. by rewrite Hy, Hh.
Qed.

Lemma claimable_runs u rid jid trigger h t d j c :
  claimable d rid jid trigger h c j →
  claim_run u rid jid trigger h t d = (Ok true, claimed_db u rid jid trigger c h t j d).
Proof.
  intros [Hj Ho Ht Hn (qt & stored & purpose & Hs & Hqt & Hrev & Hh)].
  rewrite (surjective_pairing (claim_run u rid jid trigger h t d)).
  apply (tx_transaction _ d (λ r d', (r, d') = (Ok true, claimed_db u rid jid trigger c h t j d))).
  pose proof (λ t', claim_source_after d jid rid j (claimed_job trigger t' j) Hj eq_refl eq_refl) as Hsrc.
  rewrite Hs in Hsrc; clear Hs.
  assert (owned_as queued rid j &&
    (opt_eqb (j_current_trigger j) trigger || bool_decide (j_current_trigger j = None)) = true) as Hc.
  { rewrite Ho. destruct Ht as [-> | ->]; [|done]. simpl. by rewrite bool_decide_true. }
  assert (_reveal_verified stored purpose h = Ok (Some c)) as Hrv by by apply reveal_verified_Ok.
  assert (match qt with Some t => negb (bool_decide (t = trigger)) | None => false end = false) as Hq.
  { destruct Hqt as [-> | ->]; [done|]. by rewrite bool_decide_true. }
  txs; repeat match goal with
  | Hu : ∀ j, jobs d !! jid = Some j → _ |- _ => rewrite (Hu j Hj) in Hc; discriminate
  | Hu : jobs d !! jid = Some ?j' |- _ => assert (j' = j) as -> by congruence; clear Hu
  | Hu : claim_source _ _ _ = _ |- _ => rewrite Hsrc in Hu; simplify_eq
  end; try congruence.
  - by boolprop.
  - by assert (s2 = c) as -> by congruence.
  - cbn in *. rewrite Hn in *. by match goal with Hu : is_Some None |- _ => destruct Hu end.
Qed.

(** Any other claim leaves the database as it was. *)
Lemma claim_run_true u rid jid trigger h t d :
  (claim_run u rid jid trigger h t d).1 = Ok true → ∃ j c, claimable d rid jid trigger h c j.
Proof.
  apply (tx_transaction _ d (λ r d', r = Ok true → ∃ j c, claimable d rid jid trigger h c j)).
  txs; try done. intros _. boolprop.
  exists j, s2. constructor; try done.
  - unfold trigger_accepts. rewrite orb_true_iff, opt_eqb_true, bool_decide_eq_true in *. done.
  - rewrite (claim_source_after _ _ _ j) in Heqo by done. exists o, s1, s. subst.
    rewrite reveal_verified_Ok in *. split_and!; try done; [|naive_solver..].
    destruct o; [right|by left]. by boolprop; subst.
Qed.

Lemma claim_run_keeps u rid jid trigger h t d :
  (claim_run u rid jid trigger h t d).1 = Ok true ∨
  ((claim_run u rid jid trigger h t d).1 ≠ Ok true ∧ (claim_run u rid jid trigger h t d).2 = d).
Proof.
  apply (tx_transaction _ d (λ r d', r = Ok true ∨ (r ≠ Ok true ∧ d' = d))). txs; auto; by right.
Qed.

(** Claiming is a compare-and-set: [claim_run] succeeds exactly when the run is the
    queued one of the job, has not run before, trigger and configuration hash are those of
    its snapshot (or of the job, for a run queued without one) and the stored configuration
    verifies; then job, run row and snapshot move together. Otherwise nothing changes. *)
Theorem claim_run_correct u rid jid trigger h t d :
  (∃ j c, claimable d rid jid trigger h c j ∧
     claim_run u rid jid trigger h t d = (Ok true, claimed_db u rid jid trigger c h t j d)) ∨
  ((∀ j c, ¬ claimable d rid jid trigger h c j) ∧
   (claim_run u rid jid trigger h t d).1 ≠ Ok true ∧ (claim_run u rid jid trigger h t d).2 = d).
Proof.
  destruct (claim_run_keeps u rid jid trigger h t d) as [Hok|[Hno Hd]].
  - left. destruct (claim_run_true _ _ _ _ _ _ _ Hok) as (j & c & Hc). exists j, c.
    split; [done|]. by apply claimable_runs.
  - right. split_and!; try done. intros j c Hc. by rewrite (claimable_runs _ _ _ _ _ _ _ _ _ Hc) in Hno.
Qed.

(** ** Finishing *)

(** A run can be finished: it is running under a parent that runs it, its heartbeat is
    newer than the cutoff, and the delivery is the one of this run and status. *)
Record finishable (d : DB) (jid rid : string) (s : JobStatus) (cutoff : Z)
    (w : option WebhookDeliveryCreate) (j : JobRow) (r : RunRow) : Prop := {
  fin_status : is_terminal s = true;
  fin_delivery : check_delivery w jid rid s = Ok tt;
  fin_payload : intent_matches w = true;
  fin_job : jobs d !! jid = Some j;
  fin_owned : owned_as running rid j = true;
  fin_run : job_runs d !! rid = Some r;
  fin_owner : r_job_id r = jid;
  fin_running : r_status r = running;
  fin_alive : opt_gtb (r_heartbeat_at r) cutoff = true;
}.

(** Run, parent and terminal intent change together. *)
Definition finished_db (u : entropy) (jid rid : string) (s : JobStatus) (n e t : Z)
    (w : option WebhookDeliveryCreate) (j : JobRow) (r : RunRow) (d : DB) : DB :=
  set_webhook_deliveries (add_intent u w t (webhook_deliveries d))
    (set_jobs (<[jid := finish_job s t j]> (jobs d))
      (set_job_runs (<[rid := finish_run s t n e r]> (job_runs d)) d)).

Lemma finalize_cases u jid rid s n e t cutoff w d :
  (∃ j r, finishable d jid rid s cutoff w j r ∧
     finalize_owned_run u jid rid s n e t cutoff w d = (Ok tt, finished_db u jid rid s n e t w j r d)) ∨
  (is_ok (finalize_owned_run u jid rid s n e t cutoff w d).1 = false ∧
   (finalize_owned_run u jid rid s n e t cutoff w d).2 = d).
Proof.
  unfold finalize_owned_run. destruct (is_terminal s) eqn:Hs; [|by right]. cbn [negb].
  destruct (check_delivery w jid rid s) as [[]|] eqn:Hw; [|by right].
  match goal with |- context [transaction ?b d] =>
    rewrite (surjective_pairing (transaction b d));
    apply (tx_transaction b d (λ x d',
      (∃ j r, finishable d jid rid s cutoff w j r ∧
         (x, d') = (Ok tt, finished_db u jid rid s n e t w j r d)) ∨ (is_ok x = false ∧ d' = d)))
  end.
  txs; try by right.
  left. exists j, r. split; [|done]. boolprop. by constructor.
Qed.

Lemma finishable_finishes u jid rid s n e t cutoff w d j r :
  finishable d jid rid s cutoff w j r →
  finalize_owned_run u jid rid s n e t cutoff w d = (Ok tt, finished_db u jid rid s n e t w j r d).
Proof.
  intros [Hs Hw Hp Hj Ho Hr Hrj Hrun Ha]. unfold finalize_owned_run. rewrite Hs, Hw. cbn [negb].
  match goal with |- transaction ?b d = _ =>
    rewrite (surjective_pairing (transaction b d));
    apply (tx_transaction b d (λ x d', (x, d') = (Ok tt, finished_db u jid rid s n e t w j r d)))
  end.
  txs; repeat match goal with
  | Hu : ∀ j, jobs _ !! _ = Some j → _ = false |- _ => rewrite (Hu j Hj) in Ho; discriminate
  | Hu : ∀ r, job_runs _ !! _ = Some r → _ |- _ =>
      specialize (Hu r Hr Hrj); rewrite bool_decide_true, Ha in Hu by done; discriminate
  | Hu : jobs _ !! _ = Some ?j' |- _ =>
      tryif unify j j' then fail else (assert (j' = j) as -> by (cbn in *; congruence))
  | Hu : job_runs _ !! _ = Some ?r' |- _ =>
      tryif unify r r' then fail else (assert (r' = r) as -> by (cbn in *; congruence))
  end; try done; congruence.
Qed.

(** The end of a run is atomic: [finalize_owned_run] succeeds exactly when the run is
    running under its job with a heartbeat newer than the cutoff and the delivery is one of
    this run and outcome; then the run, its job and the webhook intent are written together.
    Otherwise it raises and nothing changes. *)
Theorem finalize_run_atomic u jid rid s n e t cutoff w d :
  (∃ j r, finishable d jid rid s cutoff w j r ∧
     finalize_owned_run u jid rid s n e t cutoff w d = (Ok tt, finished_db u jid rid s n e t w j r d)) ∨
  ((∀ j r, ¬ finishable d jid rid s cutoff w j r) ∧
   is_ok (finalize_owned_run u jid rid s n e t cutoff w d).1 = false ∧
   (finalize_owned_run u jid rid s n e t cutoff w d).2 = d).
Proof.
  destruct (finalize_cases u jid rid s n e t cutoff w d) as [?|[Hn Hd]]; [by left|right].
  split_and!; try done. intros j r Hf. by rewrite (finishable_finishes u jid rid s n e t cutoff w d j r Hf) in Hn.
Qed.

(** ** Heartbeats *)

Lemma heartbeat_ok jid rid t d :
  (heartbeat_run jid rid t d).1 = Ok tt →
  ∃ r, job_runs d !! rid = Some r ∧ r_job_id r = jid ∧ r_status r = running ∧
       parent_runs d jid rid = true.
Proof.
  unfold heartbeat_run, pbind.
  match goal with |- context [transaction ?b d] =>
    pose proof (tx_transaction b d (λ x d', x = Ok 1 → ∃ r, job_runs d !! rid = Some r ∧
      r_job_id r = jid ∧ r_status r = running ∧ parent_runs d jid rid = true)) as Ht;
    destruct (transaction b d) as [[n|] d'] eqn:E; [|done]
  end.
  simpl in Ht. destruct (Z.eqb_spec n 1) as [->|]; [|done]. intros _. apply Ht; [|done].
  apply tx_tail. txs; [|done]. intros _. boolprop. eauto.
Qed.

(** ** Failing *)

Lemma fail_owned_ok u jid rid t cutoff n w d :
  (fail_owned_run u jid rid t cutoff n w d).1 = Ok tt →
  ∃ j j', jobs d !! jid = Some j ∧ j_current_run_id j = Some rid ∧ is_active (j_status j) = true ∧
    jobs (fail_owned_run u jid rid t cutoff n w d).2 !! jid = Some j' ∧
    j_current_run_id j' = Some rid ∧ j_status j' = failed.
Proof.
  unfold fail_owned_run. destruct (check_delivery w jid rid failed); [|done].
  match goal with |- context [transaction ?b d] =>
    apply (tx_transaction b d (λ x d', x = Ok tt → ∃ j j', jobs d !! jid = Some j ∧
      j_current_run_id j = Some rid ∧ is_active (j_status j) = true ∧
      jobs d' !! jid = Some j' ∧ j_current_run_id j' = Some rid ∧ j_status j' = failed))
  end.
  txs; try done; intros _.
  - exists j, (finish_job failed t j0). cbn. rewrite lookup_insert_eq.
    rewrite H1, opt_eqb_true_Some in Heqo by done. injection Heqo as ->.
    apply owned_as_true in H5 as [_ ?]. by split_and!.
  - cbn in H4. apply owned_as_true in H5 as Ho. destruct Ho as [Hs Hc].
    exists j, (finish_job failed t j). cbn. rewrite lookup_insert_eq, Hs. by split_and!.
Qed.

(** ** Cancelling *)

Lemma cancel_cancelled jid t e d o rid :
  (cancel_job jid t e d).1 = Ok o → co_action o = c_cancelled → co_run_id o = Some rid →
  ∃ j', jobs (cancel_job jid t e d).2 !! jid = Some j' ∧
        j_current_run_id j' = Some rid ∧ j_status j' = cancelled.
Proof.
  apply (tx_transaction _ d (λ x d', x = Ok o → co_action o = c_cancelled → co_run_id o = Some rid →
    ∃ j', jobs d' !! jid = Some j' ∧ j_current_run_id j' = Some rid ∧ j_status j' = cancelled)).
  unfold cancel_current_run.
  txs; intros [= <-]; cbn; intros; simplify_eq; rewrite lookup_insert_eq; eexists; split; try done;
    boolprop; cbn; rewrite opt_is_true in *; split; congruence.
Qed.

(** [cancel_job] that does not cancel leaves the database as it was. *)
Lemma cancel_keeps jid t e d :
  (cancel_job jid t e d).2 = d ∨
  ∃ o, (cancel_job jid t e d).1 = Ok o ∧ co_action o = c_cancelled.
Proof.
  apply (tx_transaction _ d (λ x d', d' = d ∨ ∃ o, x = Ok o ∧ co_action o = c_cancelled)).
  unfold cancel_current_run. txs; eauto.
Qed.
End spec.

(** * Stored configurations stay readable and authentic

    Every configuration column decrypts under the purpose of its own row to a text whose
    SHA-256 is the hash column beside it, whatever the store does. *)

Lemma map_Forall_kept {K A} `{Countable K} (Q : K → A → Prop) (P : K * A → Prop)
    `{∀ x, Decision (P x)} (m : gmap K A) :
  map_Forall Q m → map_Forall Q (filter P m).
Proof. intros HQ i x [Hx _]%map_lookup_filter_Some. by apply HQ. Qed.

Create HintDb intact discriminated.

Section intact.
Context `{Vault} `{JsonText}.

Definition stored_ok (purpose stored hash : string) : Prop :=
  ∃ c, reveal_text purpose stored = Some c ∧ sha256 c = hash.

Definition job_ok (jid : string) (j : JobRow) : Prop :=
  stored_ok (jobs_purpose jid) (j_config_yaml j) (j_config_hash j).
Definition snapshot_ok (rid : string) (s : SnapshotRow) : Prop :=
  stored_ok (snapshot_purpose rid) (s_config_yaml s) (s_config_hash s).
Definition run_ok (rid : string) (r : RunRow) : Prop :=
  ∀ y, r_config_yaml r = Some y → stored_ok (runs_purpose rid) y (r_config_hash r).

Record intact (d : DB) : Prop := {
  jobs_intact : map_Forall job_ok (jobs d);
  snapshots_intact : map_Forall snapshot_ok (queued_run_snapshots d);
  runs_intact : map_Forall run_ok (job_runs d);
}.

Lemma protected_ok u purpose c : stored_ok purpose (protect_text u purpose c) (sha256 c).
Proof. exists c. split; [apply reveal_protect|done]. Qed.

(** ** Statements *)

Lemma intact_insert_job d jid j :
  intact d → job_ok jid j → intact (set_jobs (<[jid := j]> (jobs d)) d).
Proof. intros [J S R] Hj. constructor; cbn; try done. by apply map_Forall_insert_2. Qed.

Lemma intact_update_job d jid j j' :
  intact d → jobs d !! jid = Some j → j_config_yaml j' = j_config_yaml j →
  j_config_hash j' = j_config_hash j → intact (set_jobs (<[jid := j']> (jobs d)) d).
Proof.
  intros I Hj Hy Hh. apply intact_insert_job; [done|]. unfold job_ok. rewrite Hy, Hh.
  by apply (jobs_intact d I).
Qed.

Lemma intact_delete_job d jid : intact d → intact (cascade jid (set_jobs (delete jid (jobs d)) d)).
Proof.
  intros [J S R]. constructor; cbn; [by apply map_Forall_delete| |done].
  by apply map_Forall_kept.
Qed.

Lemma intact_add_run d rid r : intact d → run_ok rid r → intact (add_run rid r d).
Proof.
  intros [J S R] Hr. constructor; cbn; [|done|by apply map_Forall_insert_2].
  intros jid j Hj. apply lookup_alter_Some in Hj as [(_ & j' & Hj & ->)|[_ Hj]]; [exact (J jid j' Hj)|exact (J jid j Hj)].
Qed.

Lemma intact_update_run d rid r r' :
  intact d → job_runs d !! rid = Some r → r_config_yaml r' = r_config_yaml r →
  r_config_hash r' = r_config_hash r → intact (set_job_runs (<[rid := r']> (job_runs d)) d).
Proof.
  intros [J S R] Hr Hy Hh. constructor; cbn; try done. apply map_Forall_insert_2; [|done].
  unfold run_ok. rewrite Hy, Hh. by apply (R rid).
Qed.

Lemma intact_delete_run d rid : intact d → intact (set_job_runs (delete rid (job_runs d)) d).
Proof. intros [J S R]. constructor; cbn; try done. by apply map_Forall_delete. Qed.

Lemma intact_keep_runs d (P : string * RunRow → Prop) `{∀ x, Decision (P x)} :
  intact d → intact (set_job_runs (filter P (job_runs d)) d).
Proof. intros [J S R]. constructor; cbn; try done. by apply map_Forall_kept. Qed.

Lemma intact_insert_snapshot d rid s :
  intact d → snapshot_ok rid s →
  intact (set_queued_run_snapshots (<[rid := s]> (queued_run_snapshots d)) d).
Proof. intros [J S R] Hs. constructor; cbn; try done. by apply map_Forall_insert_2. Qed.

Lemma intact_drop_snapshot d jid rid m :
  queued_run_snapshots d = m → intact d → intact (set_queued_run_snapshots (drop_snapshot jid rid m) d).
Proof.
  intros <- [J S R]. constructor; cbn; try done. unfold drop_snapshot. repeat case_match; try done.
  by apply map_Forall_delete.
Qed.

Lemma intact_keep_snapshots d (P : string * SnapshotRow → Prop) `{∀ x, Decision (P x)} :
  intact d → intact (set_queued_run_snapshots (filter P (queued_run_snapshots d)) d).
Proof. intros [J S R]. constructor; cbn; try done. by apply map_Forall_kept. Qed.

Lemma intact_idempotency d m : intact d → intact (set_scrape_idempotency m d).
Proof. intros [J S R]. by constructor. Qed.
Lemma intact_webhooks d m : intact d → intact (set_webhook_deliveries m d).
Proof. intros [J S R]. by constructor. Qed.

Lemma intact_with_job u job d : intact d → intact (with_job u job d).
Proof.
  intros I. assert (intact (set_jobs (<[job_id job := job_row u job]> (jobs d)) d)) as I'.
  { apply intact_insert_job; [done|]. apply protected_ok. }
  unfold with_job. destruct (status job), (current_run_id job) as [rid|]; try done.
  apply (intact_insert_snapshot _ rid (snapshot_row u job rid)) in I'; [done|]. apply protected_ok.
Qed.

Lemma failed_run_ok u jid rid t n code j s : run_ok rid (failed_run_row u jid rid t n code j s).
Proof.
  unfold failed_run_row, failed_run_config, run_ok. cbn. intros y.
  match goal with |- context [option_map _ (match ?x with _ => _ end)] => destruct x as [c|]; [|done] end.
  case_bool_decide as Hc; [|done]. rewrite <- Hc. intros [= <-]. apply protected_ok.
Qed.

(** Peels the statements off a database, one at a time. *)
Ltac intact_step :=
  first
  [ assumption
  | apply intact_delete_job
  | apply intact_webhooks | apply intact_idempotency | apply intact_drop_snapshot; [done|]
  | apply intact_keep_runs | apply intact_keep_snapshots
  | apply intact_delete_run
  | apply intact_with_job | apply intact_add_run; [|by eauto using failed_run_ok]
  | eapply intact_update_job; [|eassumption|done|done]
  | eapply intact_update_run; [|eassumption|done|done] ].
Ltac intact := repeat intact_step.

Definition keeps_intact {A} (m : store A) : Prop := ∀ d, intact d → intact (m d).2.

Lemma keeps_tx {A} (body : sql A) :
  (∀ d, intact d → tx_post d d body (λ _ d', intact d')) → keeps_intact (transaction body).
Proof. intros Hb d I. by apply by_tx, Hb. Qed.

Lemma claim_intact u rid jid trigger h t : keeps_intact (claim_run u rid jid trigger h t).
Proof.
  apply keeps_tx. intros d I. txs; try done.
  apply intact_drop_snapshot, intact_add_run; [done|..].
  - by intact.
  - intros y [= <-]. rewrite reveal_verified_Ok in *. destruct_and!. subst. apply protected_ok.
Qed.

Lemma heartbeat_intact jid rid t : keeps_intact (heartbeat_run jid rid t).
Proof.
  intros d I. unfold heartbeat_run, pbind.
  match goal with |- context [transaction ?b d] =>
    assert (intact (transaction b d).2) as It; [|by destruct (transaction b d) as [[n|] d']; simpl in *; [case_match|]]
  end.
  apply by_tx, tx_tail. txs; by intact.
Qed.

Lemma finalize_intact u jid rid s n e t cutoff w :
  keeps_intact (finalize_owned_run u jid rid s n e t cutoff w).
Proof.
  intros d I. unfold finalize_owned_run. destruct (negb (is_terminal s)); [done|].
  destruct (check_delivery w jid rid s); [|done]. apply by_tx. txs; intact.
Qed.

Lemma fail_owned_intact u jid rid t cutoff n w : keeps_intact (fail_owned_run u jid rid t cutoff n w).
Proof.
  intros d I. unfold fail_owned_run. destruct (check_delivery w jid rid failed); [|done].
  apply by_tx. txs; intact.
Qed.

Lemma queue_intact u adm jid s cur rid trigger t stale config en :
  keeps_intact (queue_run u adm jid s cur rid trigger t stale config en).
Proof.
  intros d I. unfold queue_run, _check_admission. destruct (closed_lifecycle s); [done|].
  apply by_tx. txs; try done. apply intact_insert_snapshot; [by intact|].
  rewrite reveal_verified_Ok in *. destruct_and!. unfold snapshot_ok. cbn.
  match goal with Hh : sha256 ?c = ?h |- _ => rewrite <- Hh end. apply protected_ok.
Qed.

Lemma fail_queued_intact u jid rid t : keeps_intact (fail_queued_run u jid rid t).
Proof. apply keeps_tx. intros d I. txs; intact. Qed.

Lemma reserve_recovery_intact jid rid q s t : keeps_intact (reserve_queued_run_recovery jid rid q s t).
Proof. apply keeps_tx. intros d I. txs; intact. Qed.

Lemma fail_recovery_intact u jid rid q t : keeps_intact (fail_queued_run_recovery u jid rid q t).
Proof. apply keeps_tx. intros d I. txs; intact. Qed.

Lemma recover_current_intact jid cur cutoff t d0 d {A} (k : option RunRecovery → sql A) Q :
  intact d → (∀ r d', intact d' → tx_post d0 d' (k r) Q) → (∀ e, Q (Raise e) d0) →
  tx_post d0 d (pbind (_recover_current_run jid cur cutoff t) k) Q.
Proof.
  intros I Hk Hr. unfold _recover_current_run. txs; try by apply Hr.
  all: apply Hk; intact.
Qed.

Lemma recover_stale_intact jid cur cutoff t : keeps_intact (recover_stale_run jid cur cutoff t).
Proof.
  apply keeps_tx. intros d I. apply recover_current_intact; [done| |done].
  intros r d' I'. by txs.
Qed.

Lemma recover_rows_intact rows cutoff t d0 d {A} (k : list RunRecovery → sql A) Q :
  intact d → (∀ l d', intact d' → tx_post d0 d' (k l) Q) → (∀ e, Q (Raise e) d0) →
  tx_post d0 d (pbind (recover_rows rows cutoff t) k) Q.
Proof.
  intros I Hk Hr. revert d I k Hk.
  induction rows as [|[jid j] rows IH]; intros d I k Hk; cbn [recover_rows]; [txs; by apply Hk|].
  apply tx_bind_assoc, recover_current_intact; [done| |done]. intros r d' I'.
  apply tx_bind_assoc, IH; [done|]. intros l d'' I''. txs. by apply Hk.
Qed.

Lemma recover_jobs_intact cutoff t limit : keeps_intact (recover_stale_running_jobs cutoff t limit).
Proof.
  apply keeps_tx. intros d I.
  assert (tx_post d d (let! rows := query (recovery_rows cutoff limit) in recover_rows rows cutoff t)
    (λ _ d', intact d')) as Hrec.
  { apply tx_bind_query, tx_tail, recover_rows_intact; [done| |done]. intros l d' I'. by txs. }
  destruct limit as [[|n]|]; [by txs|done..].
Qed.

Lemma reconcile_intact u c w : keeps_intact (reconcile_terminal_webhook_candidate u c w).
Proof.
  apply keeps_tx. intros d I. unfold ensure_intent, _mark_terminal_webhook_reconciled.
  txs; intact.
Qed.

Lemma mark_failure_intact jid rid t : keeps_intact (mark_terminal_webhook_reconciliation_failure jid rid t).
Proof. apply keeps_tx. intros d I. txs; intact. Qed.

Lemma cancel_intact jid t e : keeps_intact (cancel_job jid t e).
Proof. apply keeps_tx. intros d I. unfold cancel_current_run. txs; intact. Qed.

Lemma reserve_deletion_intact jid del t : keeps_intact (reserve_job_deletion jid del t).
Proof. apply keeps_tx. intros d I. unfold complete_reservation. txs; intact. Qed.

Lemma finalize_deletion_intact jid del a : keeps_intact (finalize_job_deletion jid del a).
Proof. apply keeps_tx. intros d I. txs; intact. Qed.

Lemma prune_intact jid rid e tb m : keeps_intact (prune_scheduled_run_for_retention jid rid e tb m).
Proof.
  intros d I. unfold prune_scheduled_run_for_retention. destruct (m <? 1); [done|].
  apply by_tx. txs; intact.
Qed.

Lemma save_intact u adm job : keeps_intact (save_job u adm job).
Proof. apply keeps_tx. intros d I. txs; intact. Qed.

Lemma create_intact u adm job scope dig h m e :
  keeps_intact (create_idempotent_job u adm job scope dig h m e).
Proof.
  intros d I. unfold create_idempotent_job. destruct (current_run_id job); [|done].
  apply by_tx. txs; intact.
Qed.

Lemma rollback_submission_intact jid rid : keeps_intact (rollback_queued_submission jid rid).
Proof. apply keeps_tx. intros d I. txs; intact. Qed.

Lemma delete_expired_intact e n : keeps_intact (delete_expired_idempotency_records e n).
Proof.
  intros d I. unfold delete_expired_idempotency_records. destruct (n <? 1)%nat; [done|].
  apply by_tx. txs; intact.
Qed.

Lemma update_schedule_intact u jid p n c cron tz en t :
  keeps_intact (update_scheduled_job u jid p n c cron tz en t).
Proof.
  apply keeps_tx. intros d I. unfold _get_job_in_db, same_mutation. txs; try done.
  all: apply intact_insert_job; [done|]; apply protected_ok.
Qed.

Lemma set_enabled_intact jid en t : keeps_intact (set_schedule_enabled jid en t).
Proof. apply keeps_tx. intros d I. unfold _get_job_in_db, same_mutation. txs; intact. Qed.

Lemma restore_intact u e p : job_id p = job_id e → keeps_intact (restore_scheduled_job u e p).
Proof.
  intros E. apply keeps_tx. intros d I. txs; try done.
  apply intact_insert_job; [done|]. rewrite <- E. apply protected_ok.
Qed.

Lemma rollback_creation_intact jid : keeps_intact (rollback_scheduled_job_creation jid).
Proof. apply keeps_tx. intros d I. txs; intact. Qed.

Lemma record_failure_intact jid rid t code : keeps_intact (record_scheduled_trigger_failure jid rid t code).
Proof.
  intros d I. unfold record_scheduled_trigger_failure. destruct (negb _); [done|].
  assert (∀ j, run_ok rid (missed_run_row jid code t j)) as Hm by by intros j y.
  apply by_tx. txs; intact.
  all: destruct (parent_can_converge rid j); intact.
Qed.

Lemma clear_failure_intact jid : keeps_intact (clear_scheduled_trigger_failure jid).
Proof. apply keeps_tx. intros d I. txs; intact. Qed.

Lemma outbox_intact d d' : outbox_only d d' → intact d → intact d'.
Proof. intros (m & -> & _). apply intact_webhooks. Qed.

(** ** Executions *)

#[local] Hint Resolve claim_intact heartbeat_intact finalize_intact fail_owned_intact queue_intact
  fail_queued_intact reserve_recovery_intact fail_recovery_intact recover_stale_intact
  recover_jobs_intact reconcile_intact mark_failure_intact cancel_intact reserve_deletion_intact
  finalize_deletion_intact prune_intact save_intact create_intact rollback_submission_intact
  delete_expired_intact update_schedule_intact set_enabled_intact restore_intact
  rollback_creation_intact record_failure_intact clear_failure_intact outbox_intact
  enqueue_outbox get_delivery_outbox begin_attempt_outbox mark_delivered_outbox
  mark_retryable_outbox mark_failed_outbox scrub_outbox list_due_outbox list_exhausted_outbox
  : intact.

Lemma intact_call {A} (m : store A) d : keeps_intact m → intact d → intact (m d).2.
Proof. intros Hm. apply Hm. Qed.

Lemma sstep_intact w w' : sstep w w' → intact (db w) → intact (db w').
Proof.
  intros [] I; unfold call, after; cbn [db];
    solve [apply intact_call; [eauto 2 with intact|done] | eauto 3 with intact].
Qed.

Lemma any_call_intact w w' : any_call w w' → intact (db w) → intact (db w').
Proof. intros [w1|] I; [by eapply sstep_intact|]. apply intact_call; [eauto 2 with intact|done]. Qed.

Lemma called_intact w : rtc any_call initial w → intact (db w).
Proof.
  intros Hr. assert (intact (db initial)) as I by by constructor; apply map_Forall_empty.
  revert I. induction Hr; [done|]. eauto using any_call_intact.
Qed.

Lemma reachable_intact w : rtc sstep initial w → intact (db w).
Proof.
  intros Hr. assert (intact (db initial)) as I by by constructor; apply map_Forall_empty.
  revert I. induction Hr; [done|]. eauto using sstep_intact.
Qed.

(** A verified column reads back. *)
Lemma stored_ok_verifies p v h : stored_ok p v h → ∃ c, _reveal_verified v p h = Ok (Some c) ∧ sha256 c = h.
Proof. intros (c & Hc & Hh). exists c. split; [|done]. by apply reveal_verified_Ok. Qed.

(** [C4] Configurations are intact: in every reachable database each configuration column
    (of a job, a queued snapshot or a run) decrypts under the purpose of its own row to a
    text with the recorded SHA-256; so the worker always gets a verified configuration for
    a queued run, and never a hash or decryption error. *)
Theorem stored_configs_verify w :
  rtc sstep initial w →
  intact (db w) ∧
  ∀ jid j rid, jobs (db w) !! jid = Some j → owned_as queued rid j = true →
    ∃ c, get_queued_run_config jid rid (db w) = (Ok c, db w) ∧
         sha256 c = match snapshot_of (db w) jid rid with
                    | Some s => s_config_hash s | None => j_config_hash j end.
Proof.
  intros Hr%reachable_intact. split; [done|]. destruct Hr as [J S R]. intros jid j rid Hj Ho.
  unfold get_queued_run_config, read, snapshot_of. rewrite Hj, Ho. cbn [negb].
  destruct (stored_ok_verifies _ _ _ (J _ _ Hj)) as (c & Hc & Hh).
  destruct (queued_run_snapshots (db w) !! rid) as [s|] eqn:Hs; [case_bool_decide|].
  - destruct (stored_ok_verifies _ _ _ (S _ _ Hs)) as (c' & Hc' & Hh'). rewrite Hc'. by exists c'.
  - rewrite Hc. by exists c.
  - rewrite Hc. by exists c.
Qed.
End intact.

Lemma stored_configs_verify_witness :
  get_queued_run_config "j1" "r1" (db submitted) = (Ok "project: p", db submitted) ∧
  ∃ c, get_queued_run_config "j1" "r1" (db submitted) = (Ok c, db submitted).
Proof.
  split; [vm_compute; reflexivity|].
  destruct (jobs (db submitted) !! "j1") as [j|] eqn:Hj; [|vm_compute in Hj; discriminate].
  assert (owned_as queued "r1" j = true) as Ho
    by (vm_compute in Hj; injection Hj as <-; reflexivity).
  destruct (proj2 (stored_configs_verify submitted submitted_reachable) "j1" j "r1" Hj Ho)
    as (c & Hc & _).
  exists c. exact Hc.
Defined.
