(* ===== verification/Deliveries.v ===== *)
(** * Webhook deliveries over every execution

    The outbox rows evolve as OutboxSpec.v allows under every operation of the store: the
    job operations only insert pending rows, and only deletion and retention remove any. *)

From S2P Require Import Prelude.
From S2P Require Import Envelope.
From S2P Require Import Rows.
From S2P Require Import JobDb.
From S2P Require Import JobModel.
From S2P Require Import Tx.
From S2P Require Import Json.
From S2P Require Import Outbox.
From S2P Require Import JobTerminal.
From S2P Require Import JobRecovery.
From S2P Require Import JobDeletion.
From S2P Require Import JobRetention.
From S2P Require Import JobStore.
From S2P Require Import TxStore.
From S2P Require Import JobRuns.
From S2P Require Import OutboxSpec.
From S2P Require Import System.
From S2P Require Import Samples.
Open Scope Z_scope.

Section deliveries.
Context `{Vault} `{JsonText}.

Abbreviation wd := webhook_deliveries.

(** An operation changes the outbox by steps of its rows. *)
Definition steps_outbox {A} (m : store A) : Prop := ∀ d, rtc wstep (wd d) (wd (m d).2).

Lemma steps_tx {A} (body : sql A) :
  (∀ d, tx_post d d body (λ _ d', rtc wstep (wd d) (wd d'))) → steps_outbox (transaction body).
Proof. intros Hb d. apply (by_tx _ _ (λ d', rtc wstep (wd d) (wd d'))), Hb. Qed.

Lemma with_job_webhooks u job d : wd (with_job u job d) = wd d.
Proof. unfold with_job. by destruct (status job), (current_run_id job). Qed.

Ltac outbox :=
  try reflexivity; cbn;
  first [ rewrite ?with_job_webhooks; reflexivity | apply add_intent_steps | apply add_delivery_steps ].

Lemma claim_wd u rid jid trigger h t : steps_outbox (claim_run u rid jid trigger h t).
Proof. apply steps_tx. intros d. txs; outbox. Qed.

Lemma heartbeat_wd jid rid t : steps_outbox (heartbeat_run jid rid t).
Proof.
  intros d. unfold heartbeat_run, pbind.
  match goal with |- context [transaction ?b d] =>
    assert (rtc wstep (wd d) (wd (transaction b d).2)) as It;
    [|by destruct (transaction b d) as [[n|] d']; simpl in *; [case_match|]]
  end.
  apply (by_tx _ _ (λ d', rtc wstep (wd d) (wd d'))), tx_tail. txs; outbox.
Qed.

Lemma finalize_wd u jid rid s n e t cutoff w : steps_outbox (finalize_owned_run u jid rid s n e t cutoff w).
Proof.
  intros d. unfold finalize_owned_run. destruct (negb (is_terminal s)); [done|].
  destruct (check_delivery w jid rid s); [|done].
  apply (by_tx _ _ (λ d', rtc wstep (wd d) (wd d'))). txs; outbox.
Qed.

Lemma fail_owned_wd u jid rid t cutoff n w : steps_outbox (fail_owned_run u jid rid t cutoff n w).
Proof.
  intros d. unfold fail_owned_run. destruct (check_delivery w jid rid failed); [|done].
  apply (by_tx _ _ (λ d', rtc wstep (wd d) (wd d'))). txs; outbox.
Qed.

Lemma queue_wd u adm jid s cur rid trigger t stale config en :
  steps_outbox (queue_run u adm jid s cur rid trigger t stale config en).
Proof.
  intros d. unfold queue_run, _check_admission. destruct (closed_lifecycle s); [done|].
  apply (by_tx _ _ (λ d', rtc wstep (wd d) (wd d'))). txs; outbox.
Qed.

Lemma fail_queued_wd u jid rid t : steps_outbox (fail_queued_run u jid rid t).
Proof. apply steps_tx. intros d. txs; outbox. Qed.
Lemma reserve_recovery_wd jid rid q s t : steps_outbox (reserve_queued_run_recovery jid rid q s t).
Proof. apply steps_tx. intros d. txs; outbox. Qed.
Lemma fail_recovery_wd u jid rid q t : steps_outbox (fail_queued_run_recovery u jid rid q t).
Proof. apply steps_tx. intros d. txs; outbox. Qed.

(** Recovery keeps the outbox, also over its loop. *)
Lemma recover_current_wd jid cur cutoff t d0 d {A} (k : option RunRecovery → sql A) Q :
  (∀ r d', wd d' = wd d → tx_post d0 d' (k r) Q) → (∀ e, Q (Raise e) d0) →
  tx_post d0 d (pbind (_recover_current_run jid cur cutoff t) k) Q.
Proof.
  intros Hk Hr. unfold _recover_current_run. txs; try by apply Hr.
  all: by apply Hk.
Qed.

Lemma recover_stale_wd jid cur cutoff t : steps_outbox (recover_stale_run jid cur cutoff t).
Proof.
  apply steps_tx. intros d. apply recover_current_wd; [|done]. intros r d' E. txs. by rewrite E.
Qed.

Lemma recover_rows_wd rows cutoff t d0 d {A} (k : list RunRecovery → sql A) Q :
  (∀ l d', wd d' = wd d → tx_post d0 d' (k l) Q) → (∀ e, Q (Raise e) d0) →
  tx_post d0 d (pbind (recover_rows rows cutoff t) k) Q.
Proof.
  intros Hk Hr. revert d k Hk.
  induction rows as [|[jid j] rows IH]; intros d k Hk; cbn [recover_rows]; [txs; by apply Hk|].
  apply tx_bind_assoc, recover_current_wd; [|done]. intros r d' E.
  apply tx_bind_assoc, IH. intros l d'' E'. txs. apply Hk. congruence.
Qed.

Lemma recover_jobs_wd cutoff t limit : steps_outbox (recover_stale_running_jobs cutoff t limit).
Proof.
  apply steps_tx. intros d.
  assert (tx_post d d (let! rows := query (recovery_rows cutoff limit) in recover_rows rows cutoff t)
    (λ _ d', rtc wstep (wd d) (wd d'))) as Hrec.
  { apply tx_bind_query, tx_tail, recover_rows_wd; [|done]. intros l d' E. txs. by rewrite E. }
  destruct limit as [[|n]|]; [by txs|done..].
Qed.

Lemma reconcile_wd u c w : steps_outbox (reconcile_terminal_webhook_candidate u c w).
Proof.
  apply steps_tx. intros d. unfold ensure_intent, _mark_terminal_webhook_reconciled. txs; outbox.
Qed.
Lemma mark_failure_wd jid rid t : steps_outbox (mark_terminal_webhook_reconciliation_failure jid rid t).
Proof. apply steps_tx. intros d. txs; outbox. Qed.
Lemma cancel_wd jid t e : steps_outbox (cancel_job jid t e).
Proof. apply steps_tx. intros d. unfold cancel_current_run. txs; outbox. Qed.
Lemma reserve_deletion_wd jid del t : steps_outbox (reserve_job_deletion jid del t).
Proof. apply steps_tx. intros d. unfold complete_reservation. txs; outbox. Qed.
Lemma save_wd u adm job : steps_outbox (save_job u adm job).
Proof. apply steps_tx. intros d. txs; outbox. Qed.
Lemma create_wd u adm job scope dig h m e : steps_outbox (create_idempotent_job u adm job scope dig h m e).
Proof.
  intros d. unfold create_idempotent_job. destruct (current_run_id job); [|done].
  apply (by_tx _ _ (λ d', rtc wstep (wd d) (wd d'))). txs; outbox.
Qed.
Lemma rollback_submission_wd jid rid : steps_outbox (rollback_queued_submission jid rid).
Proof. apply steps_tx. intros d. txs; outbox. Qed.
Lemma delete_expired_wd e n : steps_outbox (delete_expired_idempotency_records e n).
Proof.
  intros d. unfold delete_expired_idempotency_records. destruct (n <? 1)%nat; [done|].
  apply (by_tx _ _ (λ d', rtc wstep (wd d) (wd d'))). txs; outbox.
Qed.
Lemma update_schedule_wd u jid p n c cron tz en t : steps_outbox (update_scheduled_job u jid p n c cron tz en t).
Proof. apply steps_tx. intros d. unfold _get_job_in_db, same_mutation. txs; outbox. Qed.
Lemma set_enabled_wd jid en t : steps_outbox (set_schedule_enabled jid en t).
Proof. apply steps_tx. intros d. unfold _get_job_in_db, same_mutation. txs; outbox. Qed.
Lemma restore_wd u e p : steps_outbox (restore_scheduled_job u e p).
Proof. apply steps_tx. intros d. txs; outbox. Qed.
Lemma rollback_creation_wd jid : steps_outbox (rollback_scheduled_job_creation jid).
Proof. apply steps_tx. intros d. txs; outbox. Qed.
Lemma record_failure_wd jid rid t code : steps_outbox (record_scheduled_trigger_failure jid rid t code).
Proof.
  intros d. unfold record_scheduled_trigger_failure. destruct (negb _); [done|].
  apply (by_tx _ _ (λ d', rtc wstep (wd d) (wd d'))). txs; outbox.
Qed.
Lemma clear_failure_wd jid : steps_outbox (clear_scheduled_trigger_failure jid).
Proof. apply steps_tx. intros d. txs; outbox. Qed.

Lemma outbox_only_wd d d' : outbox_only d d' → rtc wstep (wd d) (wd d').
Proof. by intros (m & -> & Hm). Qed.

(** The two operations that remove deliveries filter the table. *)
Definition filters (m m' : gmap string WebhookRow) : Prop :=
  ∃ keep : string * WebhookRow → bool, m' = filter (λ x, keep x = true) m.

Lemma filters_refl m : filters m m.
Proof.
  exists (λ _, true). symmetry. apply map_filter_id. done.
Qed.

Lemma finalize_deletion_wd jid del a d : filters (wd d) (wd (finalize_job_deletion jid del a d).2).
Proof.
  apply (by_tx _ _ (λ d', filters (wd d) (wd d'))). txs; try apply filters_refl.
  all: by eexists.
Qed.

Lemma prune_wd jid rid e tb m d : filters (wd d) (wd (prune_scheduled_run_for_retention jid rid e tb m d).2).
Proof.
  unfold prune_scheduled_run_for_retention. destruct (m <? 1); [apply filters_refl|].
  apply (by_tx _ _ (λ d', filters (wd d) (wd d'))). txs; try apply filters_refl. by eexists.
Qed.

(** Every call of the store either moves rows by steps or removes some. *)
Lemma sstep_wd w w' : sstep w w' → rtc wstep (wd (db w)) (wd (db w')) ∨ filters (wd (db w)) (wd (db w')).
Proof.
  destruct 1; unfold call, after; cbn [db];
    try (right; first [apply finalize_deletion_wd | apply prune_wd]); left;
    first [ apply save_wd | apply create_wd | apply rollback_submission_wd | apply delete_expired_wd
          | apply update_schedule_wd | apply set_enabled_wd | apply restore_wd
          | apply rollback_creation_wd | apply record_failure_wd | apply clear_failure_wd
          | apply queue_wd | apply claim_wd | apply heartbeat_wd | apply finalize_wd
          | apply fail_owned_wd | apply fail_queued_wd | apply reserve_recovery_wd
          | apply fail_recovery_wd | apply recover_stale_wd | apply recover_jobs_wd
          | apply reconcile_wd | apply mark_failure_wd | apply cancel_wd | apply reserve_deletion_wd
          | apply outbox_only_wd ];
    eauto using enqueue_outbox, get_delivery_outbox, begin_attempt_outbox, mark_delivered_outbox,
      mark_retryable_outbox, mark_failed_outbox, scrub_outbox, list_due_outbox, list_exhausted_outbox.
Qed.

(** The row of a delivery after a call: the same row evolved, or no row. *)
Lemma sstep_row w w' id x :
  sstep w w' → wd (db w) !! id = Some x →
  (∃ y, wd (db w') !! id = Some y ∧ evolves x y) ∨ wd (db w') !! id = None.
Proof.
  intros St Hx. destruct (sstep_wd _ _ St) as [Hs|[keep E]]; [left; by apply (wsteps_grow _ _ Hs)|].
  rewrite E. destruct (decide (keep (id, x) = true)) as [Hk|Hk].
  - left. exists x. split; [|apply evolves_refl]. by apply map_lookup_filter_Some.
  - right. apply map_lookup_filter_None. right. intros y Hy. by simplify_eq.
Qed.

Lemma rows_evolve w w' id x :
  rtc sstep w w' → wd (db w) !! id = Some x →
  (∃ y, wd (db w') !! id = Some y ∧ evolves x y) ∨
  (∃ v, rtc sstep w v ∧ rtc sstep v w' ∧ wd (db v) !! id = None).
Proof.
  intros Hr. revert x. induction Hr as [w|a b c Hab Hbc IH]; intros x Hx.
  - left. exists x. split; [done|apply evolves_refl].
  - destruct (sstep_row _ _ _ _ Hab Hx) as [(y & Hy & E)|Hn].
    + destruct (IH y Hy) as [(z & Hz & E')|(v & Hv & Hv' & Hn)].
      * left. exists z. split; [done|]. by eapply evolves_trans.
      * right. exists v. split; [by eapply rtc_l|done].
    + right. exists b. split; [by apply rtc_once|done].
Qed.

Lemma reachable_rows_ok w : rtc sstep initial w → rows_ok (wd (db w)).
Proof.
  intros Hr. apply (rtc_invariant sstep (λ w, rows_ok (wd (db w)))) in Hr; [done| |done].
  intros v v' Hv St. destruct (sstep_wd _ _ St) as [Hs|[keep ->]]; [by eapply wsteps_ok|].
  intros id x [Hx _]%map_lookup_filter_Some. by apply (Hv id).
Qed.

(** The life of a webhook delivery, over any sequence of store operations: while its
    row is not removed, it keeps its job, run and event; delivered and failed are final,
    with the failure reason; its attempt count never decreases; as long as it is pending
    its encrypted url, headers and payload are untouched; and a scrubbed row stays
    scrubbed. *)
Theorem deliveries_evolve w w' id x :
  rtc sstep w w' → wd (db w) !! id = Some x →
  (∃ y, wd (db w') !! id = Some y ∧ identity y = identity x ∧
     (is_dead x = true → w_status y = w_status x ∧ w_failure_reason y = w_failure_reason x) ∧
     w_attempts x ≤ w_attempts y ∧
     (w_status y = Delivery.pending → secrets y = secrets x) ∧
     (is_Some (w_scrubbed_at x) → is_Some (w_scrubbed_at y))) ∨
  (∃ v, rtc sstep w v ∧ rtc sstep v w' ∧ wd (db v) !! id = None).
Proof.
  intros Hr Hx. destruct (rows_evolve _ _ _ _ Hr Hx) as [(y & Hy & [])|?]; [left|by right].
  exists y. split_and!; try done. naive_solver.
Qed.

(** [C8] Only dead deliveries are scrubbed, and a scrubbed delivery holds no secret: in
    every reachable database a row with [scrubbed_at] is delivered or failed and its url,
    headers, payload and last error are erased. *)
Theorem scrubbed_rows_hold_no_secret w id x :
  rtc sstep initial w → wd (db w) !! id = Some x → is_Some (w_scrubbed_at x) →
  is_dead x = true ∧ w_url x = "" ∧ w_headers_json x = "{}" ∧ w_payload_json x = "{}" ∧
  w_last_error x = None.
Proof.
  intros Hr Hx Hs. destruct (reachable_rows_ok _ Hr id x Hx Hs) as (Hd & ? & ? & ? & ? & ?).
  by split_and!.
Qed.

(** ** Attempts *)

Lemma reserve_some id n t d x :
  (reserve_attempt id n t d).1 = Ok (Some x) →
  ∃ w, wd d !! id = Some w ∧ w_attempts w = n ∧ w_status w = Delivery.pending ∧
       wd (reserve_attempt id n t d).2 !! id = Some x ∧ w_attempts x = n + 1.
Proof.
  apply (tx_transaction _ d (λ r d', r = Ok (Some x) → ∃ w, wd d !! id = Some w ∧ w_attempts w = n ∧
    w_status w = Delivery.pending ∧ wd d' !! id = Some x ∧ w_attempts x = n + 1)).
  txs; try done. cbn. rewrite lookup_insert_eq. intros [= <-]. exists w. boolprop.
  apply is_pending_true in H2. subst. by split_and!.
Qed.

Lemma begin_some id n t d x :
  (begin_attempt id n t d).1 = Ok (Some x) →
  (∃ w, wd d !! id = Some w ∧ w_attempts w = n) ∧
  ∃ w', wd (begin_attempt id n t d).2 !! id = Some w' ∧ w_attempts w' = n + 1.
Proof.
  unfold begin_attempt, pbind. pose proof (reserve_some id n t d) as Hr.
  destruct (reserve_attempt id n t d) as [[[w|]|e] d']; try done.
  destruct (Hr w eq_refl) as (v & Hv & Ha & _ & Hw & Ha').
  destruct (_decode_webhook_delivery id w); try done; [intros _; split; [by exists v|by exists w]|].
  by destruct (quarantine_malformed_delivery id t d') as [[]].
Qed.

(** Each attempt number of a delivery is handed out at most once: after
    [begin_attempt] reserved attempt [n], no later call that expects the same count gets
    the delivery, so two dispatchers never send the same attempt, as long as the row is
    not removed. *)
Theorem attempt_reserved_once w w' id n t t' x :
  (begin_attempt id n t (db w)).1 = Ok (Some x) →
  rtc sstep (call w (begin_attempt id n t)) w' →
  (∀ y, (begin_attempt id n t' (db w')).1 ≠ Ok (Some y)) ∨
  (∃ v, rtc sstep (call w (begin_attempt id n t)) v ∧ rtc sstep v w' ∧ wd (db v) !! id = None).
Proof.
  intros Hb Hr. destruct (begin_some _ _ _ _ _ Hb) as (_ & y & Hy & Ha).
  destruct (rows_evolve _ _ _ _ Hr Hy) as [(z & Hz & E)|?]; [left|by right].
  intros u Hu. destruct (begin_some _ _ _ _ _ Hu) as ((z' & Hz' & Ha') & _).
  pose proof (attempts_grow _ _ E). simplify_eq. lia.
Qed.

(** ** What is enqueued is what is sent *)

Lemma delivery_decodes u x t :
  canonical (d_headers x) → canonical (d_payload x) →
  _decode_webhook_delivery (delivery_id x) (delivery_row u x t) =
  Decoded {| wd_id := delivery_id x; wd_row := delivery_row u x t; wd_url := d_url x; wd_headers := d_headers x;
             wd_payload := d_payload x; wd_last_error := None |}.
Proof.
  intros Hh Hp. unfold _decode_webhook_delivery, delivery_row, loads_dict. cbn.
  rewrite !reveal_protect, (loads_dumps _ Hh), (loads_dumps _ Hp). done.
Qed.

(** Round trip through the outbox: a delivery enqueued under a new id is pending with
    no attempts, and reads back with the url, headers and payload it was enqueued with;
    enqueueing it again changes nothing. *)
Theorem enqueued_delivery_reads_back u u' x t t' d :
  canonical (d_headers x) → canonical (d_payload x) → payload_matches x = true →
  wd d !! delivery_id x = None →
  ∃ d' wdl, enqueue_delivery u x t d = (Ok true, d') ∧
    get_delivery (delivery_id x) t' d' = (Ok (Some wdl), d') ∧
    wd_url wdl = d_url x ∧ wd_headers wdl = d_headers x ∧ wd_payload wdl = d_payload x ∧
    w_status (wd_row wdl) = Delivery.pending ∧ w_attempts (wd_row wdl) = 0 ∧
    enqueue_delivery u' x t' d' = (Ok false, d').
Proof.
  intros Hh Hp Hm Hn.
  set (d' := set_webhook_deliveries (<[delivery_id x := delivery_row u x t]> (wd d)) d).
  assert (∀ v s d, enqueue_delivery v x s d =
    (Ok (bool_decide (wd d !! delivery_id x = None)),
     set_webhook_deliveries (add_delivery v x s (wd d)) d)) as Henq.
  { intros v s e. rewrite (surjective_pairing (enqueue_delivery v x s e)).
    apply (tx_transaction _ e (λ r e', (r, e') = _)). apply tx_tail. txs; [done|congruence]. }
  exists d', {| wd_id := delivery_id x; wd_row := delivery_row u x t; wd_url := d_url x; wd_headers := d_headers x;
                wd_payload := d_payload x; wd_last_error := None |}.
  split_and!; try done.
  - rewrite Henq, bool_decide_true by done. unfold add_delivery. by rewrite Hn.
  - unfold get_delivery, d'. cbn. by rewrite lookup_insert_eq, delivery_decodes.
  - rewrite Henq. unfold add_delivery, d'. cbn. by rewrite lookup_insert_eq.
Qed.
End deliveries.

(** ** The sample delivery *)

Lemma sample_row :
  ∃ x, webhook_deliveries (db finished_w) !! "d1" = Some x ∧ is_pending x = true.
Proof. vm_compute. eauto. Qed.

Lemma deliveries_evolve_witness :
  ∃ x, webhook_deliveries (db finished_w) !! "d1" = Some x ∧
  (option_map w_attempts (webhook_deliveries (db scrubbed_w) !! "d1") = Some 1) ∧
  ((∃ y, webhook_deliveries (db scrubbed_w) !! "d1" = Some y ∧ w_attempts x ≤ w_attempts y) ∨
   ∃ v, webhook_deliveries (db v) !! "d1" = None).
Proof.
  destruct sample_row as (x & Hx & _). exists x. split; [exact Hx|]. split; [vm_compute; reflexivity|].
  destruct (deliveries_evolve finished_w scrubbed_w "d1" x scrubbing_steps Hx)
    as [(y & Hy & _ & _ & Ha & _)|(v & _ & _ & Hv)]; [left; exists y; split; assumption|].
  right. exists v. exact Hv.
Defined.

Lemma scrubbed_rows_hold_no_secret_witness :
  ∃ x, webhook_deliveries (db scrubbed_w) !! "d1" = Some x ∧ w_scrubbed_at x = Some 60 ∧ w_url x = "".
Proof.
  destruct (webhook_deliveries (db scrubbed_w) !! "d1") as [x|] eqn:Hx; [|vm_compute in Hx; discriminate].
  assert (w_scrubbed_at x = Some 60) as Hs by (vm_compute in Hx; injection Hx as <-; reflexivity).
  exists x. split; [reflexivity|]. split; [exact Hs|].
  exact (proj1 (proj2 (scrubbed_rows_hold_no_secret scrubbed_w "d1" x scrubbed_reachable Hx
    ltac:(rewrite Hs; eexists; reflexivity)))).
Defined.

Lemma attempt_reserved_once_witness :
  ∃ x, (begin_attempt "d1" 0 40 (db finished_w)).1 = Ok (Some x) ∧
  ((∀ y, (begin_attempt "d1" 0 41 (db attempted_w)).1 ≠ Ok (Some y)) ∨
   ∃ v, webhook_deliveries (db v) !! "d1" = None).
Proof.
  destruct ((begin_attempt "d1" 0 40 (db finished_w)).1) as [[x|]|] eqn:Hx;
    [|vm_compute in Hx; discriminate..].
  exists x. split; [reflexivity|].
  destruct (attempt_reserved_once finished_w attempted_w "d1" 0 40 41 x Hx ltac:(reflexivity))
    as [Ha|(v & _ & _ & Hv)]; [left; exact Ha|right; exists v; exact Hv].
Defined.

Lemma enqueued_delivery_reads_back_witness :
  ∃ d' x, enqueue_delivery u0 sample_delivery 30 empty_db = (Ok true, d') ∧
    get_delivery "d1" 31 d' = (Ok (Some x), d') ∧ wd_url x = "https://hooks.example/x".
Proof.
  destruct (enqueued_delivery_reads_back u0 u0 sample_delivery 30 31 empty_db)
    as (d' & x & He & Hg & Hu & _);
    [right; left; reflexivity|right; right; reflexivity|vm_compute; reflexivity|reflexivity|].
  exists d', x. split; [exact He|]. split; [exact Hg|exact Hu].
Defined.
