(* ===== verification/ScrubSpec.v ===== *)
(** * Selecting and scrubbing outbox rows

    The selections of the outbox ([ORDER BY .. LIMIT n]) are the first rows of an order,
    without repetition; the scrub pass erases exactly the rows it selects. *)

From S2P Require Import Prelude.
From S2P Require Import Envelope.
From S2P Require Import Rows.
From S2P Require Import JobDb.
From S2P Require Import JobModel.
From S2P Require Import Tx.
From S2P Require Import Json.
From S2P Require Import Outbox.
From S2P Require Import TxStore.
From S2P Require Import OutboxSpec.
From S2P Require Import Samples.
Open Scope Z_scope.

(** ** The order *)

Lemma keys_leb_total ka kb a b :
  length ka = length kb → keys_leb ka kb a b = true ∨ keys_leb kb ka b a = true.
Proof.
  revert kb. induction ka as [|x ka IH]; intros [|y kb] Hl; simpl in *; try done.
  - apply str_leb_total.
  - rewrite !orb_true_iff, !andb_true_iff, !Z.ltb_lt, !Z.eqb_eq.
    destruct (IH kb) as [?|?]; [lia|..]; destruct (Z.lt_total x y) as [?|[?|?]]; naive_solver.
Qed.

Lemma keys_leb_trans ka kb kc a b c :
  length ka = length kb → length kb = length kc →
  keys_leb ka kb a b = true → keys_leb kb kc b c = true → keys_leb ka kc a c = true.
Proof.
  revert kb kc. induction ka as [|x ka IH]; intros [|y kb] [|z kc] H1 H2; simpl in *; try done.
  - apply str_leb_trans.
  - rewrite !orb_true_iff, !andb_true_iff, !Z.ltb_lt, !Z.eqb_eq.
    intros [?|[-> ?]] [?|[-> ?]]; [left; lia|by left|by left|].
    right. split; [done|]. by eapply IH; [| |eassumption..]; lia.
Qed.

Section order.
Context (key : WebhookRow → list Z) (n : nat) (Hkey : ∀ w, length (key w) = n).

Lemma row_before_total : Total (row_before key).
Proof. intros a b. apply keys_leb_total. by rewrite !Hkey. Qed.
Lemma row_before_trans : Transitive (row_before key).
Proof. intros a b c. apply keys_leb_trans; by rewrite !Hkey. Qed.

Lemma order_by_sorted l : StronglySorted (row_before key) (order_by key l).
Proof.
  pose proof row_before_total. pose proof row_before_trans. apply (StronglySorted_merge_sort _).
Qed.
End order.

Lemma order_by_perm key l : order_by key l ≡ₚ l.
Proof. apply merge_sort_Permutation. Qed.

(** ** The rows selected *)

Lemma rows_where_elem p d id w :
  (id, w) ∈ rows_where p d ↔ webhook_deliveries d !! id = Some w ∧ p w = true.
Proof.
  unfold rows_where. rewrite list_elem_of_filter, elem_of_map_to_list. naive_solver.
Qed.

Lemma rows_where_NoDup p d : NoDup (rows_where p d).*1.
Proof. apply NoDup_fst_filter, NoDup_fst_map_to_list. Qed.

Definition selected (key : WebhookRow → list Z) (p : WebhookRow → bool) (n : nat) (d : DB) :
    list (string * WebhookRow) :=
  take n (order_by key (rows_where p d)).

Lemma selected_NoDup key p n d : NoDup (selected key p n d).*1.
Proof.
  eapply sublist_NoDup; [|apply fmap_sublist, sublist_take].
  rewrite (order_by_perm key). apply rows_where_NoDup.
Qed.

Lemma selected_elem key p n d id w :
  (id, w) ∈ selected key p n d → webhook_deliveries d !! id = Some w ∧ p w = true.
Proof.
  intros Hin. apply rows_where_elem. rewrite <- (order_by_perm key).
  by eapply elem_of_sublist; [|apply sublist_take].
Qed.

(** Nothing that was left out comes before a selected row. *)
Lemma take_sorted {A} (R : relation A) n l x y :
  StronglySorted R l → x ∈ take n l → y ∈ drop n l → R x y.
Proof.
  intros Hs. rewrite <- (take_drop n l) in Hs. revert Hs. generalize (take n l) (drop n l).
  intros l1 l2 Hs. revert x. induction l1 as [|z l1 IH]; intros x Hx Hy; [by apply elem_of_nil in Hx|].
  simpl in Hs. apply StronglySorted_inv in Hs as [Hs Hz].
  apply elem_of_cons in Hx as [->|Hx]; [|by apply IH].
  rewrite Forall_forall in Hz. apply Hz. apply elem_of_app. by right.
Qed.

Lemma selected_or_later key k p n d id w :
  (∀ w, length (key w) = k) → webhook_deliveries d !! id = Some w → p w = true →
  (id, w) ∈ selected key p n d ∨
  (length (selected key p n d) = n ∧ ∀ x, x ∈ selected key p n d → row_before key x (id, w)).
Proof.
  intros Hk Hw Hp. unfold selected.
  assert ((id, w) ∈ order_by key (rows_where p d)) as Hin.
  { rewrite (order_by_perm key). by apply rows_where_elem. }
  rewrite <- (take_drop n (order_by key (rows_where p d))), elem_of_app in Hin.
  destruct Hin as [?|Hd]; [by left|right]. split.
  - rewrite length_take. apply Nat.min_l. apply list_elem_of_lookup in Hd as [i Hi].
    rewrite lookup_drop in Hi. apply lookup_lt_Some in Hi. lia.
  - intros x Hx. eapply take_sorted; [by eapply order_by_sorted|done..].
Qed.

(** ** Scrubbing *)

Section scrub.
Context `{Vault} `{JsonText}.

Definition scrub_all (ids : list string) (t : Z) (m : gmap string WebhookRow) :
    gmap string WebhookRow :=
  map_imap (λ id w, Some (if bool_decide (id ∈ ids) then scrub t w else w)) m.

Lemma scrub_all_nil t m : scrub_all [] t m = m.
Proof.
  apply map_eq. intros i. unfold scrub_all. rewrite map_lookup_imap.
  destruct (m !! i); [|done]. cbn. by rewrite bool_decide_false by (by intros ?%elem_of_nil).
Qed.

Lemma scrub_all_cons id ids t m w :
  id ∉ ids → m !! id = Some w →
  scrub_all ids t (<[id := scrub t w]> m) = scrub_all (id :: ids) t m.
Proof.
  intros Hn Hw. apply map_eq. intros i. unfold scrub_all. rewrite !map_lookup_imap.
  destruct (decide (id = i)) as [->|Hne].
  - rewrite lookup_insert_eq, Hw. cbn. rewrite bool_decide_false by done.
    by rewrite bool_decide_true by (apply elem_of_cons; by left).
  - rewrite lookup_insert_ne by done. destruct (m !! i); [|done]. cbn. repeat f_equal.
    rewrite (bool_decide_ext _ (i ∈ id :: ids)); [done|]. rewrite elem_of_cons. naive_solver.
Qed.

Definition scrubbable (w : WebhookRow) : Prop := is_dead w = true ∧ w_scrubbed_at w = None.

Lemma tx_scrub_rows ids t d0 d {A} (k : unit → sql A) Q :
  NoDup ids → (∀ id, id ∈ ids → ∃ w, webhook_deliveries d !! id = Some w ∧ scrubbable w) →
  tx_post d0 (set_webhook_deliveries (scrub_all ids t (webhook_deliveries d)) d) (k tt) Q →
  tx_post d0 d (pbind (scrub_rows ids t) k) Q.
Proof.
  intros Hn Hs Hk. revert d Hs Hk. induction Hn as [|id ids Hid Hn IH]; intros d Hs Hk; cbn [scrub_rows].
  { rewrite scrub_all_nil in Hk. txs. by destruct d. }
  destruct (Hs id) as (w & Hw & Hd & Hsc); [by apply elem_of_cons; left|].
  unfold scrub_row. txs; [|exfalso].
  - assert (w0 = w) as -> by congruence. apply IH.
    + intros i Hi. destruct (Hs i) as (w' & Hw' & ?); [by apply elem_of_cons; right|].
      exists w'. cbn. rewrite lookup_insert_ne; [done|]. by intros ->.
    + cbn. by rewrite (scrub_all_cons _ _ _ _ w).
  - match goal with Hf : ∀ w, _ → _ = false |- _ => specialize (Hf w Hw) end.
    by rewrite Hd, bool_decide_true in *.
Qed.

Lemma scrub_all_lookup ids t m i w :
  m !! i = Some w → scrub_all ids t m !! i = Some (if bool_decide (i ∈ ids) then scrub t w else w).
Proof. intros Hw. unfold scrub_all. by rewrite map_lookup_imap, Hw. Qed.
Lemma scrub_all_None ids t m i : m !! i = None → scrub_all ids t m !! i = None.
Proof. intros Hw. unfold scrub_all. by rewrite map_lookup_imap, Hw. Qed.

(** The rows of one status among the selected ones. *)
Definition of_status (s : Delivery.WebhookDeliveryStatus) (rows : list (string * WebhookRow)) :
    list (string * WebhookRow) := filter (λ x, w_status x.2 = s) rows.

Lemma of_status_elem s rows id : id ∈ (of_status s rows).*1 ↔ ∃ w, (id, w) ∈ rows ∧ w_status w = s.
Proof.
  unfold of_status. rewrite list_elem_of_fmap. split.
  - intros ([i w] & -> & Hin%list_elem_of_filter). exists w. by destruct Hin.
  - intros (w & Hin & Hs). exists (id, w). split; [done|]. by apply list_elem_of_filter.
Qed.

Lemma eligible_scrubbable a b w : scrub_eligible a b w = true → scrubbable w.
Proof.
  unfold scrub_eligible, scrubbable, is_dead. rewrite !andb_true_iff, !orb_true_iff, !andb_true_iff.
  rewrite !bool_decide_eq_true. intros [Hs [[Hd _]|[Hd _]]]; rewrite Hd; naive_solver.
Qed.

(** The two halves of the selection: no repetition, all scrubbable, disjoint, and together
    the whole. *)
Lemma selected_part_NoDup a b n d s :
  NoDup (of_status s (selected scrub_key (scrub_eligible a b) n d)).*1.
Proof. apply NoDup_fst_filter, selected_NoDup. Qed.

Lemma selected_part_scrubbable a b n d s id :
  id ∈ (of_status s (selected scrub_key (scrub_eligible a b) n d)).*1 →
  ∃ w, webhook_deliveries d !! id = Some w ∧ scrubbable w.
Proof.
  intros (w & Hin & _)%of_status_elem. apply selected_elem in Hin as [Hw He].
  exists w. split; [done|]. by eapply eligible_scrubbable.
Qed.

Lemma selected_parts_disjoint a b n d id :
  id ∈ (of_status Delivery.failed (selected scrub_key (scrub_eligible a b) n d)).*1 →
  id ∉ (of_status Delivery.delivered (selected scrub_key (scrub_eligible a b) n d)).*1.
Proof.
  intros (w & Hin & Hs)%of_status_elem (w' & Hin' & Hs')%of_status_elem.
  apply selected_elem in Hin as [Hw _]. apply selected_elem in Hin' as [Hw' _]. congruence.
Qed.

Lemma selected_parts_cover a b n d id w t :
  webhook_deliveries d !! id = Some w →
  let rows := selected scrub_key (scrub_eligible a b) n d in
  (if bool_decide (id ∈ (of_status Delivery.failed rows).*1)
   then scrub t (if bool_decide (id ∈ (of_status Delivery.delivered rows).*1) then scrub t w else w)
   else if bool_decide (id ∈ (of_status Delivery.delivered rows).*1) then scrub t w else w) =
  if bool_decide (id ∈ rows.*1) then scrub t w else w.
Proof.
  intros Hw rows. case_bool_decide as Hf.
  - rewrite (bool_decide_false (_ ∈ (of_status Delivery.delivered _).*1))
      by by apply selected_parts_disjoint.
    rewrite bool_decide_true; [done|]. apply of_status_elem in Hf as (w' & Hin & _).
    apply list_elem_of_fmap. exists (id, w'). by split.
  - rewrite (bool_decide_ext _ (id ∈ rows.*1)); [done|]. rewrite of_status_elem. split.
    + intros (w' & Hin & _). apply list_elem_of_fmap. exists (id, w'). by split.
    + intros Hin. apply list_elem_of_fmap in Hin as ([i w'] & -> & Hin).
      exists w'. split; [done|]. pose proof Hin as Hin'. apply selected_elem in Hin' as [Hw' He].
      apply eligible_scrubbable in He as [Hd _].
      destruct (w_status w') eqn:Hs; [by unfold is_dead in Hd; rewrite Hs in Hd|done|].
      destruct Hf. apply of_status_elem. by exists w'.
Qed.

(** The scrub pass selects the first [n] eligible rows by age (ties by id): delivered
    rows older than one limit, failed rows older than another, not scrubbed yet. It erases
    the secrets of exactly those rows, changes nothing else, and reports how many there
    were; a row it leaves out is eligible only if [n] rows were taken, none of them younger. *)
Theorem scrub_erases_selected a b t n d :
  (0 < n)%nat →
  let rows := selected scrub_key (scrub_eligible a b) n d in
  let d' := (scrub_terminal_deliveries a b t n d).2 in
  (scrub_terminal_deliveries a b t n d).1 =
    Ok (length (of_status Delivery.delivered rows), length (of_status Delivery.failed rows)) ∧
  (∀ id w, webhook_deliveries d !! id = Some w →
     webhook_deliveries d' !! id = Some (if bool_decide (id ∈ rows.*1) then scrub t w else w)) ∧
  (∀ id, webhook_deliveries d !! id = None → webhook_deliveries d' !! id = None) ∧
  (∀ id w, webhook_deliveries d !! id = Some w → scrub_eligible a b w = true → id ∉ rows.*1 →
     length rows = n ∧ ∀ x, x ∈ rows → row_before scrub_key x (id, w)).
Proof.
  intros Hn rows d'.
  assert (∀ id w, webhook_deliveries d !! id = Some w → scrub_eligible a b w = true → id ∉ rows.*1 →
     length rows = n ∧ ∀ x, x ∈ rows → row_before scrub_key x (id, w)) as Hlater.
  { intros id w Hw He Hin.
    destruct (selected_or_later scrub_key 1 (scrub_eligible a b) n d id w (λ _, eq_refl) Hw He)
      as [Hs|?]; [|done].
    destruct Hin. apply list_elem_of_fmap. exists (id, w). by split. }
  revert d'. unfold scrub_terminal_deliveries.
  assert ((n <? 1)%nat = false) as -> by (apply Nat.ltb_ge; lia).
  match goal with |- context [transaction ?body d] =>
    apply (tx_transaction body d (λ r d', r = _ ∧ (∀ id w, webhook_deliveries d !! id = Some w →
      webhook_deliveries d' !! id = _) ∧ (∀ id, webhook_deliveries d !! id = None →
      webhook_deliveries d' !! id = None) ∧ (∀ id w, _ → _ → _ → _))) end.
  txs. fold (selected scrub_key (scrub_eligible a b) n d). fold rows.
  change (filter _ rows) with (of_status Delivery.delivered rows) at 1.
  change (filter (λ x, w_status x.2 = Delivery.failed) rows) with (of_status Delivery.failed rows).
  apply tx_scrub_rows; [by apply selected_part_NoDup|by apply selected_part_scrubbable|].
  apply tx_scrub_rows; [by apply selected_part_NoDup| |].
  { intros id Hin. destruct (selected_part_scrubbable a b n d Delivery.failed id Hin) as (w & Hw & Hs).
    exists w. split; [|done]. cbn. rewrite (scrub_all_lookup _ _ _ _ w Hw), bool_decide_false; [done|].
    by apply selected_parts_disjoint. }
  txs. split_and!; [done| | |done]; cbn.
  - intros id w Hw. rewrite (scrub_all_lookup _ _ _ _ _ (scrub_all_lookup _ t _ _ _ Hw)). f_equal.
    by apply selected_parts_cover.
  - intros id Hw. by apply scrub_all_None, scrub_all_None.
Qed.
End scrub.

(** ** A sample table *)

Definition old_delivery (status : Delivery.WebhookDeliveryStatus) (done_at : Z) : WebhookRow :=
  {| w_job_id := "j"; w_run_id := Some "r"; w_event := "job.complete"; w_url := "u"; w_headers_json := "h";
     w_timeout_seconds := 10; w_payload_json := "p"; w_status := status; w_attempts := 1;
     w_next_attempt_at := 0; w_last_attempt_at := Some done_at;
     w_delivered_at := if bool_decide (status = Delivery.delivered) then Some done_at else None;
     w_failed_at := if bool_decide (status = Delivery.failed) then Some done_at else None;
     w_failure_reason := None; w_last_error := None; w_scrubbed_at := None;
     w_created_at := 0; w_updated_at := done_at |}.

(** Two old rows, a young one and a pending one; one slot. *)
Definition sample_outbox : DB := set_webhook_deliveries
  (<["a" := old_delivery Delivery.failed 3]> (<["b" := old_delivery Delivery.delivered 2]>
    (<["c" := old_delivery Delivery.delivered 50]> {["d" := old_delivery Delivery.pending 0]}))) empty_db.

Lemma scrub_erases_selected_witness :
  (selected scrub_key (scrub_eligible 10 10) 1 sample_outbox).*1 = ["b"] ∧
  (scrub_terminal_deliveries 10 10 60 1 sample_outbox).1 = Ok (1%nat, 0%nat).
Proof.
  split; [vm_compute; reflexivity|].
  exact (proj1 (scrub_erases_selected 10 10 60 1 sample_outbox Nat.lt_0_1)).
Defined.
