(* ===== verification/StoreSpec.v ===== *)
(** * Submission, deletion and retention

    Idempotent submission and admission ([storage/job_store.py]), the end of a deletion
    ([storage/job_deletion.py]) and the pruning of run history
    ([storage/job_retention.py]): what each does, and that it does nothing else. *)

From S2P Require Import Prelude.
From S2P Require Import Sha256.
From S2P Require Import Envelope.
From S2P Require Import Rows.
From S2P Require Import JobDb.
From S2P Require Import JobModel.
From S2P Require Import Tx.
From S2P Require Import Json.
From S2P Require Import Outbox.
From S2P Require Import JobTerminal.
From S2P Require Import JobRecovery.
From S2P Require Import JobDeletion.
From S2P Require Import JobRetention.
From S2P Require Import JobStore.
From S2P Require Import TxStore.
From S2P Require Import JobRuns.
From S2P Require Import OutboxSpec.
From S2P Require Import System.
From S2P Require Import Samples.
From S2P Require Import RunSpec.
Open Scope Z_scope.

(** The rows of a table that are not a job's. *)
Definition without {A} (owner : A → string) (jid : string) (m m' : gmap string A) : Prop :=
  ∀ k x, m' !! k = Some x ↔ m !! k = Some x ∧ owner x ≠ jid.

Lemma kept_without {A} (owner : A → string) jid (m : gmap string A) :
  without owner jid m (filter (λ x, negb (bool_decide (owner x.2 = jid)) = true) m).
Proof.
  intros k x. rewrite map_lookup_filter_Some. simpl.
  by rewrite negb_true_iff, bool_decide_eq_false.
Qed.

Lemma without_twice {A} (owner : A → string) jid (m m' : gmap string A) :
  without owner jid m m' → without owner jid m (filter (λ x, owner x.2 ≠ jid) m').
Proof. intros Hw k x. rewrite map_lookup_filter_Some, (Hw k x). simpl. naive_solver. Qed.

Section store.
Context `{Vault} `{JsonText}.

(** ** Deletion *)

Lemma no_pending d jid k w :
  has_pending_webhook d jid = false → webhook_deliveries d !! k = Some w → w_job_id w = jid →
  w_status w ≠ Delivery.pending.
Proof.
  unfold has_pending_webhook. rewrite bool_decide_eq_false. intros Hn Hw Hj Hs.
  apply Hn. by exists k, w.
Qed.

(** The end of a deletion is complete and confined: when it reports deleted, the job
    was reserved under the same policy and had no pending delivery, its row is gone with
    every run, snapshot and delivery of it and no unexpired replay record was lost, and
    every other row of the database is as it was; with any other result nothing changed. *)
Theorem job_deletion_is_complete jid del after d :
  let r := finalize_job_deletion jid del after d in
  (r.1 = Ok deleted ∧
   (∃ j, jobs d !! jid = Some j ∧ j_status j = deleting ∧ j_delete_results_on_delete j = Some del) ∧
   (∀ k w, webhook_deliveries d !! k = Some w → w_job_id w = jid → w_status w ≠ Delivery.pending) ∧
   (∀ t k i, after = Some t → scrape_idempotency d !! k = Some i → i_job_id i = jid → i_expires_at i ≤ t) ∧
   jobs r.2 = delete jid (jobs d) ∧
   without r_job_id jid (job_runs d) (job_runs r.2) ∧
   without s_job_id jid (queued_run_snapshots d) (queued_run_snapshots r.2) ∧
   without w_job_id jid (webhook_deliveries d) (webhook_deliveries r.2) ∧
   (∀ k i, scrape_idempotency r.2 !! k = Some i ↔ scrape_idempotency d !! k = Some i ∧ i_job_id i ≠ jid)) ∨
  (r.1 ≠ Ok deleted ∧ r.2 = d).
Proof.
  apply (tx_transaction _ d (λ x d', (x = Ok deleted ∧ _ ∧ _ ∧ _ ∧ jobs d' = _ ∧
    without _ _ _ (job_runs d') ∧ without _ _ _ (queued_run_snapshots d') ∧
    without _ _ _ (webhook_deliveries d') ∧ (∀ k i, scrape_idempotency d' !! k = Some i ↔ _)) ∨
    (x ≠ Ok deleted ∧ d' = d))).
  txs; try (right; done). left. boolprop. rewrite opt_eqb_true in *.
  split_and!; cbn; try apply kept_without; try done; [eauto|by intros; eapply no_pending| | |].
  - intros t k i -> Hi Hj. match goal with Hp : bool_decide _ = false |- _ => apply bool_decide_eq_false in Hp;
      apply Z.nlt_ge; intros Hlt; apply Hp end. by exists k, i.
  - apply without_twice, kept_without.
  - intros k i. rewrite !map_lookup_filter_Some. simpl.
    rewrite negb_true_iff, bool_decide_eq_false. naive_solver.
Qed.

(** ** Retention *)

Lemma tombstone_old t w :
  ¬ blocks_retention t w → w_status w ≠ Delivery.pending ∧ opt_leb (w_scrubbed_at w) t = true.
Proof.
  unfold blocks_retention. intros Hn. split; [by auto|].
  destruct (w_scrubbed_at w) as [s|]; [|destruct Hn; by auto]. cbn in *.
  destruct (Z.leb_spec s t) as [|Hlt]; [done|]. destruct Hn. right. right. by apply Z.ltb_lt.
Qed.

(** Pruning removes a run only when it may: the run is a finished one of a schedule,
    not the job's current run, its webhook is reconciled and none of its deliveries still
    has to be kept, and it is expired or has at least [max_runs] newer finished runs. Then
    exactly that run and its old tombstones go; otherwise nothing changes. *)
Theorem prune_removes_only_eligible jid rid expired_before tombstone_before max_runs d :
  let r := prune_scheduled_run_for_retention jid rid expired_before tombstone_before max_runs d in
  (∃ n x j, r.1 = Ok (true, n) ∧ job_runs d !! rid = Some x ∧ jobs d !! jid = Some j ∧
     r_job_id x = jid ∧ is_terminal (r_status x) = true ∧ is_Some (j_schedule_cron j) ∧
     j_current_run_id j ≠ Some rid ∧ is_Some (r_webhook_reconciled_at x) ∧
     (∀ k w, webhook_deliveries d !! k = Some w → w_job_id w = jid → w_run_id w = Some rid →
        ¬ blocks_retention tombstone_before w) ∧
     (default (r_started_at x) (r_completed_at x) ≤ expired_before ∨
      max_runs ≤ Z.of_nat (newer_runs d rid x)) ∧
     jobs r.2 = jobs d ∧ job_runs r.2 = delete rid (job_runs d) ∧
     (∀ k w, webhook_deliveries r.2 !! k = Some w ↔
        webhook_deliveries d !! k = Some w ∧ ¬ (w_job_id w = jid ∧ w_run_id w = Some rid))) ∨
  ((∀ n, r.1 ≠ Ok (true, n)) ∧ r.2 = d).
Proof.
  tx_result Q. unfold prune_scheduled_run_for_retention. destruct (max_runs <? 1); [by right|].
  tx_enter Q. txs; try (right; done). left. cbn [job_runs set_webhook_deliveries] in *.
  boolprop. destruct (jobs d !! jid) as [j|] eqn:Hj; [|by rewrite H1 in *].
  rewrite H1 in Heqb. boolprop. unfold scheduled_eligible in *. boolprop.
  assert (∀ k w, webhook_deliveries d !! k = Some w → w_job_id w = jid → w_run_id w = Some rid →
    ¬ blocks_retention tombstone_before w) as Hnb.
  { intros k w Hw Hwj Hwr Hb. match goal with Hn : ¬ map_Exists _ _ |- _ => apply Hn end.
    exists k, w. subst. by split_and!. }
  exists n, r, j. cbn. rewrite orb_true_iff, !Z.leb_le in *. split_and!; try done.
  intros k w. rewrite map_lookup_filter_Some. cbn.
  rewrite negb_true_iff, <- not_true_iff_false, !andb_true_iff, negb_true_iff,
    bool_decide_eq_false, !bool_decide_eq_true.
  split; intros [Hw Hn]; (split; [done|]); [intros [Hwj Hwr]; apply Hn|naive_solver].
  destruct (tombstone_old _ _ (Hnb k w Hw Hwj Hwr)). by split_and!.
Qed.

(** ** Submission *)

(** Admission: a submission or a queued run that is accepted leaves at most
    [workers_max_accepted_runs] jobs holding a reservation, and memory headroom was left;
    one that raises leaves the database as it was. *)
Theorem admission_is_bounded u adm :
  (∀ job d, let r := save_job u adm job d in
     status job = queued → is_Some (current_run_id job) →
     (∃ id, r.1 = Ok id ∧ accepted_runs r.2 ≤ workers_max_accepted_runs adm) ∨
     (is_ok r.1 = false ∧ r.2 = d)) ∧
  (∀ jid s cur rid trigger t stale config en d,
     let r := queue_run u adm jid s cur rid trigger t stale config en d in
     (r.1 = Ok true ∧ 0 < headroom_mb adm ∧ accepted_runs r.2 ≤ workers_max_accepted_runs adm) ∨
     (r.1 ≠ Ok true ∧ r.2 = d)).
Proof.
  split.
  - intros job d. tx_result Q. tx_enter Q. txs; try (intros; by right).
    intros Hs Hc. left. exists (job_id job). by auto.
  - intros jid s cur rid trigger t stale config en d. tx_result Q. unfold queue_run, _check_admission.
    destruct (closed_lifecycle s); [by right|]. tx_enter Q. txs; try (by right).
    left. boolprop. by split_and!.
Qed.

(** The replay records an unexpired record survives among. *)
Lemma live_record_kept (scope dig : string) (now : Z) (m : gmap (string * string) IdempotencyRow) i :
  m !! (scope, dig) = Some i → now < i_expires_at i →
  filter (λ x, negb (bool_decide (x.1 = (scope, dig)) && (i_expires_at x.2 <=? now)) = true) m = m.
Proof.
  intros Hi Ht. apply map_filter_id. intros k x Hk. cbn.
  rewrite negb_true_iff. case_bool_decide as E; [|done]. subst k. simplify_eq. cbn.
  by apply Z.leb_gt.
Qed.

Lemma with_job_row u job d : jobs (with_job u job d) !! job_id job = Some (job_row u job).
Proof.
  unfold with_job. destruct (status job), (current_run_id job); cbn; apply lookup_insert_eq.
Qed.

(** What a creation leaves behind. *)
Lemma create_creates u adm job scope dig hash mode expires d o d1 :
  create_idempotent_job u adm job scope dig hash mode expires d = (Ok o, d1) →
  i_action o = created →
  ∃ rid i j, scrape_idempotency d1 !! (scope, dig) = Some i ∧ i_job_id i = job_id job ∧
    i_request_hash i = hash ∧ i_response_mode i = mode ∧ i_expires_at i = expires ∧
    i_run_id i = rid ∧ i_run o = rid ∧
    jobs d1 !! job_id job = Some j ∧ j_config_yaml j = j_config_yaml (job_row u job).
Proof.
  unfold create_idempotent_job. destruct (current_run_id job) as [rid|]; [|done].
  tx_here. txs; try done.
  { intros [= <- <-]. cbn [i_action].
    by destruct (bool_decide (i_request_hash i = hash) && bool_decide (i_response_mode i = mode)). }
  intros [= <- <-] _. cbn. rewrite lookup_insert_eq. eexists rid, _, (job_row u job).
  split_and!; try done. apply with_job_row.
Qed.

(** ** What keeps a key *)

(** Most operations leave the replay records alone. *)
Definition keeps_records {A} (m : store A) : Prop := ∀ d, scrape_idempotency (m d).2 = scrape_idempotency d.
Lemma keeps_records_tx {A} (body : sql A) :
  (∀ d, tx_post d d body (λ _ d', scrape_idempotency d' = scrape_idempotency d)) → keeps_records (transaction body).
Proof. intros Hb d. by apply (by_tx _ _ (λ d', scrape_idempotency d' = scrape_idempotency d)). Qed.
Lemma with_job_records u job d : scrape_idempotency (with_job u job d) = scrape_idempotency d.
Proof. unfold with_job. by destruct (status job), (current_run_id job). Qed.

Ltac records := apply keeps_records_tx; intros d; txs; try done; by rewrite ?with_job_records.

Lemma save_records u adm job : keeps_records (save_job u adm job).
Proof. records. Qed.
Lemma update_schedule_records u jid p n c cron tz en t : keeps_records (update_scheduled_job u jid p n c cron tz en t).
Proof. unfold update_scheduled_job, _get_job_in_db, same_mutation. records. Qed.
Lemma set_enabled_records jid en t : keeps_records (set_schedule_enabled jid en t).
Proof. unfold set_schedule_enabled, _get_job_in_db, same_mutation. records. Qed.
Lemma restore_records u e p : keeps_records (restore_scheduled_job u e p).
Proof. records. Qed.
Lemma record_failure_records jid rid t code : keeps_records (record_scheduled_trigger_failure jid rid t code).
Proof. intros d. unfold record_scheduled_trigger_failure. destruct (negb _); [done|]. revert d. records. Qed.
Lemma clear_failure_records jid : keeps_records (clear_scheduled_trigger_failure jid).
Proof. records. Qed.
Lemma queue_records u adm jid s cur rid trigger t stale config en :
  keeps_records (queue_run u adm jid s cur rid trigger t stale config en).
Proof. intros d. unfold queue_run, _check_admission. destruct (closed_lifecycle s); [done|]. revert d. records. Qed.
Lemma claim_records u rid jid trigger h t : keeps_records (claim_run u rid jid trigger h t).
Proof. records. Qed.
Lemma heartbeat_records jid rid t : keeps_records (heartbeat_run jid rid t).
Proof.
  intros d. unfold heartbeat_run, pbind.
  match goal with |- context [transaction ?b d] =>
    assert (scrape_idempotency (transaction b d).2 = scrape_idempotency d) as It;
      [|by destruct (transaction b d) as [[n|] d']; simpl in *; [case_match|]]
  end.
  apply (by_tx _ _ (λ d', scrape_idempotency d' = scrape_idempotency d)), tx_tail. by txs.
Qed.
Lemma finalize_run_records u jid rid s n e t cutoff w : keeps_records (finalize_owned_run u jid rid s n e t cutoff w).
Proof.
  intros d. unfold finalize_owned_run. destruct (negb (is_terminal s)); [done|].
  destruct (check_delivery w jid rid s); [|done]. revert d. records.
Qed.
Lemma fail_owned_records u jid rid t cutoff n w : keeps_records (fail_owned_run u jid rid t cutoff n w).
Proof. intros d. unfold fail_owned_run. destruct (check_delivery w jid rid failed); [|done]. revert d. records. Qed.
Lemma fail_queued_records u jid rid t : keeps_records (fail_queued_run u jid rid t).
Proof. records. Qed.
Lemma reserve_recovery_records jid rid q s t : keeps_records (reserve_queued_run_recovery jid rid q s t).
Proof. records. Qed.
Lemma fail_recovery_records u jid rid q t : keeps_records (fail_queued_run_recovery u jid rid q t).
Proof. records. Qed.
Lemma recover_current_records jid cur cutoff t d0 d {A} (k : option RunRecovery → sql A) Q :
  (∀ r d', scrape_idempotency d' = scrape_idempotency d → tx_post d0 d' (k r) Q) → (∀ e, Q (Raise e) d0) →
  tx_post d0 d (pbind (_recover_current_run jid cur cutoff t) k) Q.
Proof. intros Hk Hr. unfold _recover_current_run. txs; try by apply Hr. all: by apply Hk. Qed.
Lemma recover_stale_records jid cur cutoff t : keeps_records (recover_stale_run jid cur cutoff t).
Proof. apply keeps_records_tx. intros d. apply recover_current_records; [|done]. intros r d' E. by txs. Qed.
Lemma recover_rows_records rows cutoff t d0 d {A} (k : list RunRecovery → sql A) Q :
  (∀ l d', scrape_idempotency d' = scrape_idempotency d → tx_post d0 d' (k l) Q) → (∀ e, Q (Raise e) d0) →
  tx_post d0 d (pbind (recover_rows rows cutoff t) k) Q.
Proof.
  intros Hk Hr. revert d k Hk.
  induction rows as [|[jid j] rows IH]; intros d k Hk; cbn [recover_rows]; [txs; by apply Hk|].
  apply tx_bind_assoc, recover_current_records; [|done]. intros r d' E.
  apply tx_bind_assoc, IH. intros l d'' E'. txs. apply Hk. congruence.
Qed.
Lemma recover_jobs_records cutoff t limit : keeps_records (recover_stale_running_jobs cutoff t limit).
Proof.
  apply keeps_records_tx. intros d.
  assert (tx_post d d (let! rows := query (recovery_rows cutoff limit) in recover_rows rows cutoff t)
    (λ _ d', scrape_idempotency d' = scrape_idempotency d)) as Hrec.
  { apply tx_bind_query, tx_tail, recover_rows_records; [|done]. intros l d' E. by txs. }
  destruct limit as [[|n]|]; [by txs|done..].
Qed.
Lemma reconcile_records u c w : keeps_records (reconcile_terminal_webhook_candidate u c w).
Proof. unfold reconcile_terminal_webhook_candidate, ensure_intent, _mark_terminal_webhook_reconciled. records. Qed.
Lemma mark_failure_records jid rid t : keeps_records (mark_terminal_webhook_reconciliation_failure jid rid t).
Proof. records. Qed.
Lemma cancel_records jid t e : keeps_records (cancel_job jid t e).
Proof. unfold cancel_job, cancel_current_run. records. Qed.
Lemma reserve_deletion_records jid del t : keeps_records (reserve_job_deletion jid del t).
Proof. unfold reserve_job_deletion, complete_reservation. records. Qed.
Lemma prune_records jid rid e tb m : keeps_records (prune_scheduled_run_for_retention jid rid e tb m).
Proof. intros d. unfold prune_scheduled_run_for_retention. destruct (m <? 1); [done|]. revert d. records. Qed.
Lemma outbox_records d d' : outbox_only d d' → scrape_idempotency d' = scrape_idempotency d.
Proof. by intros (m & -> & _). Qed.

(** The others keep the record of a key while its job is there and it has not expired. *)
Definition kept (k : string * string) (i : IdempotencyRow) (d : DB) : Prop :=
  is_Some (jobs d !! i_job_id i) → scrape_idempotency d !! k = Some i.

Lemma kept_by {A} (m : store A) k i d :
  keeps_records m → scrape_idempotency d !! k = Some i → kept k i (m d).2.
Proof. intros Hm Hi _. by rewrite Hm. Qed.
Lemma kept_filter (m : gmap (string * string) IdempotencyRow) k (i : IdempotencyRow) P `{!∀ x, Decision (P x)} :
  m !! k = Some i → P (k, i) → filter P m !! k = Some i.
Proof. intros Hi Hp. by apply map_lookup_filter_Some. Qed.
Lemma kept_outbox k i d d' : outbox_only d d' → scrape_idempotency d !! k = Some i → kept k i d'.
Proof. intros Ho Hi _. by rewrite (outbox_records _ _ Ho). Qed.
Lemma kept_cascade k i jid d :
  (jid ≠ i_job_id i → scrape_idempotency d !! k = Some i) → kept k i (cascade jid (set_jobs (delete jid (jobs d)) d)).
Proof.
  intros Hi [j Hj]. cbn in *. apply lookup_delete_Some in Hj as [Hne _].
  apply map_lookup_filter_Some. split; [by apply Hi|]. cbn. congruence.
Qed.

Lemma rollback_submission_keeps k i jid rid d :
  scrape_idempotency d !! k = Some i → kept k i (rollback_queued_submission jid rid d).2.
Proof.
  intros Hi. unfold rollback_queued_submission. apply (by_tx _ _ (kept k i)). txs; try (intros _; exact Hi).
  apply (kept_cascade k i jid). intros Hne. cbn. apply kept_filter; [done|]. cbn.
  rewrite negb_true_iff, andb_false_iff, !bool_decide_eq_false. by left.
Qed.
Lemma rollback_creation_keeps k i jid d :
  scrape_idempotency d !! k = Some i → kept k i (rollback_scheduled_job_creation jid d).2.
Proof. intros Hi. unfold rollback_scheduled_job_creation. apply (by_tx _ _ (kept k i)). txs; try (intros _; exact Hi). by apply (kept_cascade k i jid). Qed.
Lemma finalize_deletion_keeps k i jid del a d :
  scrape_idempotency d !! k = Some i → kept k i (finalize_job_deletion jid del a d).2.
Proof.
  intros Hi. destruct (job_deletion_is_complete jid del a d) as [(_ & _ & _ & _ & Hd & _ & _ & _ & Hk)|[_ E]];
    [|intros _; by rewrite E].
  intros [j Hj]. rewrite Hd in Hj. apply lookup_delete_Some in Hj as [Hne _]. apply Hk. split; [done|congruence].
Qed.
Lemma create_keeps k i u adm job scope dig h m e d :
  scrape_idempotency d !! k = Some i → created_at job < i_expires_at i →
  kept k i (create_idempotent_job u adm job scope dig h m e d).2.
Proof.
  intros Hi Ht. unfold create_idempotent_job. destruct (current_run_id job) as [rid|]; [|intros _; exact Hi].
  set (P := λ x : (string * string) * IdempotencyRow,
    negb (bool_decide (x.1 = (scope, dig)) && (i_expires_at x.2 <=? created_at job)) = true).
  assert (filter P (scrape_idempotency d) !! k = Some i) as Hf.
  { apply kept_filter; [done|]. unfold P. cbn. rewrite negb_true_iff, andb_false_iff. right. by apply Z.leb_gt. }
  apply (by_tx _ _ (kept k i)). txs; try (intros _; exact Hi). all: intros _; cbn; try exact Hf.
  lazymatch goal with N : _ !! (scope, dig) = None |- _ =>
    rewrite with_job_records in N; cbn in N; rewrite with_job_records, lookup_insert_ne; [exact Hf|];
    intros <-; discriminate (eq_trans (eq_sym Hf) N) end.
Qed.
Lemma delete_expired_keeps k i e n d :
  scrape_idempotency d !! k = Some i → e < i_expires_at i → kept k i (delete_expired_idempotency_records e n d).2.
Proof.
  intros Hi Ht. unfold delete_expired_idempotency_records. destruct (n <? 1)%nat; [intros _; exact Hi|].
  apply (by_tx _ _ (kept k i)). txs. intros _. cbn. apply kept_filter; [done|].
  cbn. rewrite negb_true_iff, bool_decide_eq_false. unfold expired_idempotency. intros (x & Hx & Hin)%list_elem_of_fmap.
  apply elem_of_take in Hin as (p & Hp & _). apply list_elem_of_lookup_2 in Hp.
  rewrite merge_sort_Permutation in Hp. apply list_elem_of_filter in Hp as [He Hp].
  destruct x as [k' i']. apply elem_of_map_to_list in Hp. cbn in *. simplify_eq. lia.
Qed.

(** A call that removes expired records, at or after a time. *)
Definition sweeps (time : Z) (w w' : world) : Prop :=
  (∃ e n, w' = call w (delete_expired_idempotency_records e n) ∧ time ≤ e) ∨
  (∃ u adm job scope dig h m e ids,
     w' = after w (create_idempotent_job u adm job scope dig h m e) ids ∧ time ≤ created_at job).
Lemma with_job_keeps u job d jid j : jobs d !! jid = Some j → jobs d !! job_id job = None → jobs (with_job u job d) !! jid = Some j.
Proof.
  intros Hj Hn. unfold with_job. destruct (status job), (current_run_id job); cbn;
    (rewrite lookup_insert_ne; [exact Hj|congruence]).
Qed.
Lemma sweeps_keep_jobs time w w' jid j : sweeps time w w' → jobs (db w) !! jid = Some j → jobs (db w') !! jid = Some j.
Proof.
  intros [(e & n & -> & _)|(u & adm & job & scope & dig & h & m & e & ids & -> & _)] Hj; cbn [db call after].
  - unfold delete_expired_idempotency_records. destruct (n <? 1)%nat; [exact Hj|].
    apply (by_tx _ _ (λ d : DB, jobs d !! jid = Some j)). txs. exact Hj.
  - unfold create_idempotent_job. destruct (current_run_id job); [|exact Hj].
    apply (by_tx _ _ (λ d : DB, jobs d !! jid = Some j)). txs; try exact Hj. by apply with_job_keeps.
Qed.

(** A call of the service that leaves the job there, before the record's expiry. *)
Definition holding (jid : string) (expires : Z) (w w' : world) : Prop :=
  any_call w w' ∧ is_Some (jobs (db w') !! jid) ∧ ¬ sweeps expires w w'.

Create HintDb records.
#[local] Hint Resolve save_records update_schedule_records set_enabled_records restore_records record_failure_records
  enqueue_outbox get_delivery_outbox begin_attempt_outbox mark_delivered_outbox mark_retryable_outbox mark_failed_outbox
  scrub_outbox list_due_outbox list_exhausted_outbox clear_failure_records queue_records claim_records heartbeat_records finalize_run_records fail_owned_records
  fail_queued_records reserve_recovery_records fail_recovery_records recover_stale_records recover_jobs_records
  reconcile_records mark_failure_records cancel_records reserve_deletion_records prune_records : records.
Lemma step_keeps k i w w' :
  scrape_idempotency (db w) !! k = Some i → holding (i_job_id i) (i_expires_at i) w w' →
  scrape_idempotency (db w') !! k = Some i.
Proof.
  intros Hi (Hs & Hj & Hn). revert Hj. change (kept k i (db w')).
  destruct Hs as [w' Hs|]; [destruct Hs|apply kept_by; [apply queue_records|exact Hi]]; unfold call, after; cbn [db].
  all: try (apply kept_by; [solve [eauto 2 with records]|exact Hi]).
  all: try (apply (kept_outbox _ _ (db w)); [solve [eauto 2 with records]|exact Hi]).
  - apply create_keeps; [exact Hi|]. apply Z.nle_gt. intros Hle. apply Hn. right. by repeat eexists.
  - by apply rollback_submission_keeps.
  - apply delete_expired_keeps; [exact Hi|]. apply Z.nle_gt. intros Hle. apply Hn. left. by repeat eexists.
  - by apply rollback_creation_keeps.
  - by apply finalize_deletion_keeps.
Qed.
Lemma steps_keep jid expires k i w w' :
  rtc (holding jid expires) w w' → i_job_id i = jid → i_expires_at i = expires →
  scrape_idempotency (db w) !! k = Some i → scrape_idempotency (db w') !! k = Some i.
Proof. intros Hr <- <-. induction Hr as [|w1 w2 w3 Hs _ IH]; [done|]. intros Hi. by apply IH, (step_keeps _ _ w1 w2). Qed.

Lemma holding_intact jid expires w w' : intact (db w) → rtc (holding jid expires) w w' → intact (db w').
Proof. intros I Hr. induction Hr as [|w1 w2 w3 [Hs _] _ IH]; [done|]. by apply IH, (any_call_intact w1). Qed.
Lemma held_job_reads_back d jid j : intact d → jobs d !! jid = Some j → ∃ job, row_to_job jid j = Ok job.
Proof.
  intros I Hj. destruct (jobs_intact _ I _ _ Hj) as (c & Hrev & _).
  destruct (row_to_job jid j) as [job|] eqn:Hb; [by exists job|]. unfold row_to_job, reveal in Hb. by rewrite Hrev in Hb.
Qed.

End store.

(** ** The sample submission *)

Definition keyed : store IdempotentJobOutcome :=
  create_idempotent_job u0 sample_adm sample_job "scope" "key" "hash" "sync" 1000.
Definition keyed_w : world := after initial keyed (Lifecycle.run_ids (Some "r1")).
(** A worker claims the run before the request comes again. *)
Definition keyed_claimed_w : world := call keyed_w (claim_run u0 "r1" "j1" "adhoc" sample_hash 20).

