(* ===== verification/Guarantees.v ===== *)
(** * Guarantees over every execution of the service

    What the lifecycle invariants say of the database, of claims and of ended runs, for
    any sequence of store calls ([sstep]) from the empty database; the refinement also with
    the calls that replace a running run ([any_call]). *)

From S2P Require Import Prelude.
From S2P Require Import Sha256.
From S2P Require Import Envelope.
From S2P Require Import Rows.
From S2P Require Import JobDb.
From S2P Require Import JobModel.
From S2P Require Import Tx.
From S2P Require Import Json.
From S2P Require Import Outbox.
From S2P Require Import JobTerminal.
From S2P Require Import JobRecovery.
From S2P Require Import JobDeletion.
From S2P Require Import JobRetention.
From S2P Require Import JobStore.
From S2P Require Import JobRuns.
From S2P Require Import Lifecycle.
From S2P Require Import LifecycleStore.
From S2P Require Import RunSpec.
From S2P Require Import System.
From S2P Require Import Samples.
Open Scope Z_scope.

Section guarantees.
Context `{Vault} `{JsonText}.

Lemma reachable_consistent w : rtc sstep initial w → consistent (absw w).
Proof. intros Hr%sstep_rtc_sim. eapply consistent_rtc; [done|]. apply consistent_empty. Qed.

Lemma reachable_trans w w' : rtc sstep initial w → rtc sstep w w' → consistent (absw w').
Proof. intros H1 H2. apply reachable_consistent. by etrans. Qed.

Lemma absw_job w jid j :
  jobs (db w) !! jid = Some j → a_jobs (absw w) !! jid = Some (j_status j, j_current_run_id j).
Proof. apply abs_jobs_at. Qed.
Lemma absw_run w rid r : job_runs (db w) !! rid = Some r → a_runs (absw w) !! rid = Some (abs_run r).
Proof. apply abs_run_at. Qed.

Lemma absw_job_inv w jid s cur :
  a_jobs (absw w) !! jid = Some (s, cur) →
  ∃ j, jobs (db w) !! jid = Some j ∧ j_status j = s ∧ j_current_run_id j = cur.
Proof.
  cbn. rewrite lookup_fmap. destruct (jobs (db w) !! jid) as [j|]; [|done].
  intros [= <- <-]. by exists j.
Qed.
Lemma absw_run_inv w rid ar :
  a_runs (absw w) !! rid = Some ar → ∃ r, job_runs (db w) !! rid = Some r ∧ ar = abs_run r.
Proof.
  cbn. rewrite lookup_fmap. destruct (job_runs (db w) !! rid) as [r|]; [|done].
  intros [= <-]. by exists r.
Qed.

(** [C1] The job store refines the lifecycle of Lifecycle.v. Read off the database, every
    execution of the store's operations is a sequence of the lifecycle's transitions, if
    run ids are new when they are handed out, submissions come in as queued jobs, a missed
    fire is recorded under a run id that no other job has (its own job's, one already
    recorded, or a new one), a restored schedule is put
    back over its own job, attempts are not counted down, and no call queues a run over a
    job it expects to be running. With calls of the last kind, which scheduler/cron.py can
    make, it is a sequence of the lifecycle's transitions and of replacements, which strand
    the replaced run. *)
Theorem store_refines_lifecycle w w' :
  (rtc sstep w w' → rtc astep (absw w) (absw w')) ∧
  (rtc any_call w w' → rtc any_astep (absw w) (absw w')).
Proof. split; [apply sstep_rtc_sim|apply any_call_sim]. Qed.

(** In every reachable database a run row is running exactly when its job is running
    with it as the current run: there is no orphaned running run, and no running job
    without its run. *)
Theorem running_runs_are_current w :
  rtc sstep initial w →
  (∀ rid r, job_runs (db w) !! rid = Some r → r_status r = running →
     ∃ j, jobs (db w) !! r_job_id r = Some j ∧ j_status j = running ∧ j_current_run_id j = Some rid) ∧
  (∀ jid j, jobs (db w) !! jid = Some j → j_status j = running →
     ∃ rid r, j_current_run_id j = Some rid ∧ job_runs (db w) !! rid = Some r ∧
              r_job_id r = jid ∧ r_status r = running).
Proof.
  intros C%reachable_consistent. split.
  - intros rid r Hr Hs. apply absw_job_inv.
    by apply (running_is_current _ C rid (abs_run r)), Hs; apply absw_run.
  - intros jid j Hj Hs. apply absw_job in Hj. rewrite Hs in Hj.
    destruct (running_has_run _ C _ _ Hj) as (rid & ar & -> & Hr & <- & Hrs).
    apply absw_run_inv in Hr as (r & Hr & ->). by exists rid, r.
Qed.

(** The record of a finished run (complete, partial, failed or cancelled) is final:
    in any later database its status, completion time and counts are the same, until the
    retention or the deletion of its job removes the row, which then never comes back. *)
Theorem finished_runs_are_final w w' rid r :
  rtc sstep initial w → job_runs (db w) !! rid = Some r → finished (r_status r) = true →
  rtc sstep w w' →
  match job_runs (db w') !! rid with
  | Some r' => r_job_id r' = r_job_id r ∧ r_status r' = r_status r ∧
               r_completed_at r' = r_completed_at r ∧ r_record_count r' = r_record_count r ∧
               r_error_count r' = r_error_count r
  | None => ∀ w'', rtc sstep w' w'' → job_runs (db w'') !! rid = None
  end.
Proof.
  intros Hw Hr Hf Hw'. pose proof (reachable_consistent _ Hw) as C.
  pose proof (reachable_trans _ _ Hw Hw') as C'.
  destruct (recorded_rtc rid (abs_run r) _ _ C Hf (or_introl (absw_run _ _ _ Hr))
              (sstep_rtc_sim _ _ Hw')) as [Hrec|Hgone].
  - apply absw_run_inv in Hrec as (r' & -> & E). by injection E.
  - assert (job_runs (db w') !! rid = None) as ->.
    { destruct Hgone as [Hn _]. cbn in Hn. rewrite lookup_fmap in Hn.
      by destruct (job_runs (db w') !! rid). }
    intros w'' Hw''. pose proof (removed_rtc rid _ _ Hgone (sstep_rtc_sim _ _ Hw'')) as [Hn _].
    cbn in Hn. rewrite lookup_fmap in Hn. by destruct (job_runs (db w'') !! rid).
Qed.

(** The id of a run that was claimed is the current one of a running job. *)
Lemma claim_makes_claimed w u rid jid trigger h t :
  rtc sstep initial w → (claim_run u rid jid trigger h t (db w)).1 = Ok true →
  claimed rid (absw (call w (claim_run u rid jid trigger h t))).
Proof.
  intros Hw Hok. destruct (claim_run_true _ _ _ _ _ _ _ Hok) as (j & c & Hc).
  set (w' := call w (claim_run u rid jid trigger h t)).
  assert (consistent (absw w')) as C.
  { eapply reachable_trans; [done|]. apply rtc_once, s_claim_run. }
  assert (a_jobs (absw w') !! jid = Some (running, Some rid)) as Hj.
  { cbn. rewrite (claimable_runs u _ _ _ _ t _ _ _ Hc), lookup_fmap. cbn.
    rewrite lookup_alter_eq, lookup_insert_eq. cbn. rewrite abs_job_eq. cbn.
    by destruct (proj1 (owned_as_true _ _ _) (cl_owned _ _ _ _ _ _ _ Hc)) as [_ ->]. }
  constructor; [by eapply current_used|].
  intros jid' s Hj'. assert (jid' = jid) as -> by by eapply (current_unique _ C jid).
  by rewrite Hj in Hj'; injection Hj' as <-.
Qed.

(** [C6] A run is executed at most once: after a successful claim of a run no later claim
    of it succeeds, by any worker, under any job, trigger or configuration. *)
Theorem run_claimed_once w w' u u' rid jid jid' trigger trigger' h h' t t' :
  rtc sstep initial w → (claim_run u rid jid trigger h t (db w)).1 = Ok true →
  rtc sstep (call w (claim_run u rid jid trigger h t)) w' →
  (claim_run u' rid jid' trigger' h' t' (db w')).1 ≠ Ok true.
Proof.
  intros Hw Hok Hw' Hok'. pose proof (claim_makes_claimed _ _ _ _ _ _ _ Hw Hok) as Hc.
  apply (claimed_rtc _ _ (absw w')) in Hc; [|by apply sstep_rtc_sim].
  destruct (claim_run_true _ _ _ _ _ _ _ Hok') as (j & c & Hcl).
  apply (claimed_not_queued _ _ Hc jid' queued); [|done].
  rewrite (absw_job _ _ _ (cl_job _ _ _ _ _ _ _ Hcl)).
  by destruct (proj1 (owned_as_true _ _ _) (cl_owned _ _ _ _ _ _ _ Hcl)) as [-> ->].
Qed.

(** Nothing may act on a run that ended: it is not active, and no claim, heartbeat,
    finalization or failure of it succeeds. *)
Definition stopped (rid : string) (d : DB) : Prop :=
  ∀ jid, run_is_active jid rid d = false ∧
    (∀ u trigger h t, (claim_run u rid jid trigger h t d).1 ≠ Ok true) ∧
    (∀ t, (heartbeat_run jid rid t d).1 ≠ Ok tt) ∧
    (∀ u s n e t cutoff w, (finalize_owned_run u jid rid s n e t cutoff w d).1 ≠ Ok tt) ∧
    (∀ u t cutoff n w, (fail_owned_run u jid rid t cutoff n w d).1 ≠ Ok tt).

Lemma ended_refuses w rid : ended rid (absw w) → stopped rid (db w).
Proof.
  intros [_ EA ER] jid.
  assert (∀ r, job_runs (db w) !! rid = Some r → r_status r ≠ running) as HR.
  { intros r Hr. by apply (ER (abs_run r)), absw_run. }
  assert (∀ j, jobs (db w) !! jid = Some j → j_current_run_id j = Some rid →
               is_active (j_status j) = false) as HA.
  { intros j Hj Hc. destruct (EA jid (j_status j)) as [Hq Hrn].
    - rewrite (absw_job _ _ _ Hj). by rewrite Hc.
    - unfold is_active. by rewrite !bool_decide_false. }
  split_and!.
  - unfold run_is_active. destruct (jobs (db w) !! jid) as [j|] eqn:Hj; [|done].
    destruct (owned_as running rid j) eqn:Ho; [|done].
    apply owned_as_true in Ho as [Hs Hc]. specialize (HA j eq_refl Hc). by rewrite Hs in HA.
  - intros u trigger h t Hok. destruct (claim_run_true _ _ _ _ _ _ _ Hok) as (j & c & Hcl).
    destruct (proj1 (owned_as_true _ _ _) (cl_owned _ _ _ _ _ _ _ Hcl)) as [Hs Hc].
    specialize (HA j (cl_job _ _ _ _ _ _ _ Hcl) Hc). by rewrite Hs in HA.
  - intros t Hok. destruct (heartbeat_ok _ _ _ _ Hok) as (r & Hr & _ & Hs & _). by apply (HR r).
  - intros u s n e t cutoff d Hok.
    destruct (finalize_cases u jid rid s n e t cutoff d (db w)) as [(j & r & Hf & _)|[Hn _]].
    + apply (HR r); [by apply Hf|by eapply fin_running].
    + by rewrite Hok in Hn.
  - intros u t cutoff n d Hok.
    destruct (fail_owned_ok _ _ _ _ _ _ _ _ Hok) as (j & _ & Hj & Hc & Ha & _).
    by rewrite (HA j) in Ha.
Qed.

Lemma ended_later w w' jid rid j :
  rtc sstep initial w → jobs (db w) !! jid = Some j → j_current_run_id j = Some rid →
  is_active (j_status j) = false → rtc sstep w w' → ended rid (absw w').
Proof.
  intros Hw Hj Hc Ha Hw'. apply (ended_rtc rid (absw w)); [|by apply sstep_rtc_sim].
  apply (idle_ended _ jid (j_status j)); [by apply reachable_consistent| | |].
  - rewrite (absw_job _ _ _ Hj). by rewrite Hc.
  - intros E. by rewrite E in Ha.
  - intros E. by rewrite E in Ha.
Qed.

(** Cancelling a run stops it for good: after [cancel_job] cancelled the run of a job,
    queued or running, the run is never active again, and every later claim, heartbeat,
    finalization or failure of it is refused. *)
Theorem cancelled_run_is_stopped w w' jid rid t e o :
  rtc sstep initial w → (cancel_job jid t e (db w)).1 = Ok o → co_action o = c_cancelled →
  co_run_id o = Some rid → rtc sstep (call w (cancel_job jid t e)) w' →
  stopped rid (db w').
Proof.
  intros Hw Hok Ha Hr Hw'. apply ended_refuses.
  destruct (cancel_cancelled _ _ _ _ _ _ Hok Ha Hr) as (j & Hj & Hc & Hs).
  eapply (ended_later (call w (cancel_job jid t e))); [|done..| |done].
  - eapply rtc_r; [done|]. apply s_cancel_job.
  - by rewrite Hs.
Qed.

(** A run ends once: after a successful [finalize_owned_run] no later finalization,
    failure, heartbeat or claim of the run succeeds, whatever its caller believes. *)
Theorem run_finishes_once w w' u jid rid s n e t cutoff d :
  rtc sstep initial w → (finalize_owned_run u jid rid s n e t cutoff d (db w)).1 = Ok tt →
  rtc sstep (call w (finalize_owned_run u jid rid s n e t cutoff d)) w' →
  stopped rid (db w').
Proof.
  intros Hw Hok Hw'. apply ended_refuses.
  destruct (finalize_cases u jid rid s n e t cutoff d (db w)) as [(j & r & Hf & E)|[Hn _]];
    [|by rewrite Hok in Hn].
  eapply (ended_later _ _ jid rid (finish_job s t j)); [eapply rtc_r; [done|apply s_finalize_owned_run]
    | | | |done].
  - unfold call. cbn. rewrite E. cbn. by rewrite lookup_insert_eq.
  - by destruct (proj1 (owned_as_true _ _ _) (fin_owned _ _ _ _ _ _ _ _ Hf)) as [_ ?].
  - pose proof (fin_status _ _ _ _ _ _ _ _ Hf) as Hs. by destruct s.
Qed.
End guarantees.

(** ** The sample execution *)

(** One execution within the lifecycle, and one that replaces the claimed run. *)
Lemma store_refines_lifecycle_witness :
  (rtc sstep initial finished_w ∧ rtc astep (absw initial) (absw finished_w)) ∧
  (any_call claimed_w replaced_w ∧ rtc any_astep (absw claimed_w) (absw replaced_w)).
Proof.
  split.
  - split; [exact finished_reachable|].
    exact (proj1 (store_refines_lifecycle initial finished_w) finished_reachable).
  - split; [exact replaced_call|].
    exact (proj2 (store_refines_lifecycle claimed_w replaced_w) (rtc_once _ _ replaced_call)).
Defined.

Lemma running_runs_are_current_witness :
  option_map r_status (job_runs (db claimed_w) !! "r1") = Some running ∧
  ∃ rid r, option_map j_current_run_id (jobs (db claimed_w) !! "j1") = Some (Some rid) ∧
    job_runs (db claimed_w) !! rid = Some r ∧ r_job_id r = "j1".
Proof.
  split; [vm_compute; reflexivity|].
  destruct (jobs (db claimed_w) !! "j1") as [j|] eqn:Hj; [|vm_compute in Hj; discriminate].
  assert (j_status j = running) as Hs by (vm_compute in Hj; injection Hj as <-; reflexivity).
  destruct (proj2 (running_runs_are_current claimed_w claimed_reachable) "j1" j Hj Hs)
    as (rid & r & Hc & Hr & Ho & _).
  exists rid, r. split; [cbn; f_equal; exact Hc|]. split; [exact Hr|exact Ho].
Defined.

Lemma finished_runs_are_final_witness :
  option_map r_record_count (job_runs (db finished_w) !! "r1") = Some (Some 7) ∧
  (cancel_job "j1" 40 None (db finished_w)).2 = db finished_w ∧
  match job_runs (db (call finished_w (cancel_job "j1" 40 None))) !! "r1" with
  | Some r' => r_status r' = complete
  | None => True
  end.
Proof.
  split; [vm_compute; reflexivity|]. split; [vm_compute; reflexivity|].
  destruct (job_runs (db finished_w) !! "r1") as [r|] eqn:Hr; [|vm_compute in Hr; discriminate].
  assert (r_status r = complete) as Hs by (vm_compute in Hr; injection Hr as <-; reflexivity).
  pose proof (finished_runs_are_final finished_w (call finished_w (cancel_job "j1" 40 None)) "r1" r
    finished_reachable Hr ltac:(rewrite Hs; reflexivity)
    (rtc_once _ _ (s_cancel_job finished_w "j1" 40 None))) as Hf.
  destruct (job_runs (db (call finished_w _)) !! "r1"); [|exact I].
  destruct Hf as (_ & Hst & _). rewrite Hst. exact Hs.
Defined.

Lemma run_claimed_once_witness :
  (claim_run u0 "r1" "j1" "adhoc" sample_hash 20 (db submitted)).1 = Ok true ∧
  (claim_run u0 "r1" "j1" "adhoc" sample_hash 21 (db claimed_w)).1 ≠ Ok true.
Proof.
  assert ((claim_run u0 "r1" "j1" "adhoc" sample_hash 20 (db submitted)).1 = Ok true) as Hc
    by (vm_compute; reflexivity).
  split; [exact Hc|].
  apply (run_claimed_once submitted claimed_w u0 u0 "r1" "j1" "j1" "adhoc" "adhoc" sample_hash
    sample_hash 20 21 submitted_reachable Hc). reflexivity.
Defined.

Lemma cancelled_run_is_stopped_witness :
  run_is_active "j1" "r1" (db claimed_w) = true ∧ stopped "r1" (db cancelled_w).
Proof.
  split; [vm_compute; reflexivity|].
  apply (cancelled_run_is_stopped claimed_w cancelled_w "j1" "r1" 25 None
    (cancellation_outcome "j1" (Some "r1") running c_cancelled cancelled) claimed_reachable);
    [vm_compute; reflexivity|reflexivity|reflexivity|reflexivity].
Defined.

Lemma run_finishes_once_witness :
  run_is_active "j1" "r1" (db claimed_w) = true ∧ stopped "r1" (db finished_w).
Proof.
  split; [vm_compute; reflexivity|].
  apply (run_finishes_once claimed_w finished_w u0 "j1" "r1" complete 7 0 30 15
    (Some sample_delivery) claimed_reachable); [vm_compute; reflexivity|reflexivity].
Defined.
