(* ===== verification/RecoverySpec.v ===== *)
(** * Stale run recovery

    [recover_stale_running_jobs] fails exactly the running jobs whose heartbeat is not
    newer than the cutoff, with their run, and touches no other job or run. *)

From S2P Require Import Prelude.
From S2P Require Import Envelope.
From S2P Require Import Rows.
From S2P Require Import JobDb.
From S2P Require Import JobModel.
From S2P Require Import Tx.
From S2P Require Import Json.
From S2P Require Import Outbox.
From S2P Require Import JobRecovery.
From S2P Require Import JobStore.
From S2P Require Import TxStore.
From S2P Require Import JobRuns.
From S2P Require Import Lifecycle.
From S2P Require Import LifecycleStore.
From S2P Require Import System.
From S2P Require Import Samples.
From S2P Require Import Guarantees.
Open Scope Z_scope.

Section recovery.
Context `{Vault} `{JsonText} (cutoff recovered_at : Z).

Definition failed_job (j : JobRow) : JobRow := set_j_updated_at (Some recovered_at) (set_j_status failed j).
Definition failed_run (r : RunRow) : RunRow :=
  set_r_completed_at (Some recovered_at) (set_r_status failed r).

(** A running job with its running, stale run. *)
Record stale_running (d : DB) (jid : string) (j : JobRow) (rid : string) (r : RunRow) : Prop := {
  sr_job : jobs d !! jid = Some j;
  sr_status : j_status j = running;
  sr_current : j_current_run_id j = Some rid;
  sr_run : job_runs d !! rid = Some r;
  sr_owner : r_job_id r = jid;
  sr_running : r_status r = running;
  sr_stale : _heartbeat_is_stale (r_heartbeat_at r) cutoff = true;
}.

Definition recovered (d : DB) (jid : string) (j : JobRow) (rid : string) (r : RunRow) : DB :=
  set_jobs (<[jid := failed_job j]> (jobs d)) (set_job_runs (<[rid := failed_run r]> (job_runs d)) d).

Definition recovery_of (jid rid : string) (r : RunRow) : RunRecovery :=
  {| rr_job_id := jid; rr_run_id := Some rid; rr_action := failed_stale_heartbeat;
     rr_last_heartbeat_at := r_heartbeat_at r |}.

Lemma current_run_of d jid j rid r :
  j_current_run_id j = Some rid → job_runs d !! rid = Some r → r_job_id r = jid →
  current_run d jid j = Some r.
Proof. unfold current_run. intros -> -> <-. by rewrite bool_decide_true. Qed.

Lemma tx_recover d0 d jid j rid r {A} (k : option RunRecovery → sql A) Q :
  stale_running d jid j rid r →
  tx_post d0 (recovered d jid j rid r) (k (Some (recovery_of jid rid r))) Q →
  tx_post d0 d (pbind (_recover_current_run jid (Some rid) cutoff recovered_at) k) Q.
Proof.
  intros [Hj Hs Hc Hr Ho Hrs Hst] Hk. unfold _recover_current_run.
  apply tx_bind_assoc, tx_bind_query.
  rewrite Hj, (current_run_of d jid j rid r Hc Hr Ho), Hs, Hc, Hrs, Hst.
  rewrite !bool_decide_true by done. cbn [negb orb].
  change (is_terminal running) with false. cbn iota.
  txs.
  - assert (r0 = r) as -> by congruence.
    match goal with Hu : jobs _ !! _ = Some ?j' |- _ => assert (j' = j) as -> by (cbn in Hu; congruence) end.
    done.
  - match goal with Hu : ∀ j, _ → _ = false |- _ => specialize (Hu j Hj);
      rewrite Hs, Hc in Hu; cbn in Hu; rewrite !bool_decide_true in Hu by done; discriminate end.
  - match goal with Hu : ∀ r, _ → _ → _ = false |- _ => specialize (Hu r Hr Ho);
      rewrite !bool_decide_true in Hu by done; discriminate end.
Qed.

Lemma stale_elsewhere d jid j rid r jid' j' rid' r' :
  stale_running d jid j rid r → stale_running d jid' j' rid' r' → jid' ≠ jid →
  stale_running (recovered d jid j rid r) jid' j' rid' r'.
Proof.
  intros S [Hj Hs Hc Hr Ho Hrs Hst] Hne. constructor; try done; cbn.
  - by rewrite lookup_insert_ne.
  - rewrite lookup_insert_ne; [done|]. intros ->. destruct S. congruence.
Qed.

Lemma stale_back d jid j rid r jid' j' rid' r' :
  stale_running d jid j rid r → stale_running (recovered d jid j rid r) jid' j' rid' r' →
  jid' ≠ jid → stale_running d jid' j' rid' r'.
Proof.
  intros S [Hj Hs Hc Hr Ho Hrs Hst] Hne. cbn in *. rewrite lookup_insert_ne in Hj by done.
  constructor; try done.
  destruct (decide (rid = rid')) as [->|]; [|by rewrite lookup_insert_ne in Hr].
  rewrite lookup_insert_eq in Hr. injection Hr as <-. done.
Qed.

(** What the loop makes of the rows it is given, and reports. *)
Record all_recovered (rows : list (string * JobRow)) (d : DB) (l : list RunRecovery) (d' : DB) : Prop := {
  ar_rows jid j rid r : (jid, j) ∈ rows → stale_running d jid j rid r →
    jobs d' !! jid = Some (failed_job j) ∧ job_runs d' !! rid = Some (failed_run r);
  ar_jobs jid : jid ∉ rows.*1 → jobs d' !! jid = jobs d !! jid;
  ar_runs rid : (∀ jid j r, (jid, j) ∈ rows → ¬ stale_running d jid j rid r) →
    job_runs d' !! rid = job_runs d !! rid;
  ar_rest : d' = set_jobs (jobs d') (set_job_runs (job_runs d') d);
  ar_report x : x ∈ l ↔ ∃ jid j rid r, (jid, j) ∈ rows ∧ stale_running d jid j rid r ∧
    x = recovery_of jid rid r;
}.

Lemma all_recovered_nil d : all_recovered [] d [] d.
Proof.
  constructor; try done.
  - intros ???? ?%elem_of_nil. done.
  - by destruct d.
  - intros x. split; [intros ?%elem_of_nil; done|]. intros (? & ? & ? & ? & ?%elem_of_nil & _). done.
Qed.

Lemma stale_unique d jid j rid r j' rid' r' :
  stale_running d jid j rid r → stale_running d jid j' rid' r' → j' = j ∧ rid' = rid ∧ r' = r.
Proof. intros [] []. by simplify_eq. Qed.

Lemma stale_still d jid j rid r jid' j' rid' r' :
  stale_running d jid j rid r → jid' ≠ jid →
  stale_running (recovered d jid j rid r) jid' j' rid' r' ↔ stale_running d jid' j' rid' r'.
Proof. intros S Hne. split; intros S'; [by eapply stale_back|by apply stale_elsewhere]. Qed.

Lemma all_recovered_cons d l d' jid j rid r rows :
  stale_running d jid j rid r → jid ∉ rows.*1 →
  all_recovered rows (recovered d jid j rid r) l d' →
  all_recovered ((jid, j) :: rows) d (recovery_of jid rid r :: l) d'.
Proof.
  intros S Hn [R J U Rest Rep].
  assert (∀ jid' j', (jid', j') ∈ rows → jid' ≠ jid) as Hne.
  { intros jid' j' Hin ->. apply Hn, list_elem_of_fmap. by exists (jid, j'). }
  constructor.
  - intros jid' j' rid' r' [[= -> ->]|Hin]%elem_of_cons S'.
    + destruct (stale_unique _ _ _ _ _ _ _ _ S S') as (_ & -> & ->).
      rewrite (J jid), (U rid); [cbn; by rewrite !lookup_insert_eq| |done].
      intros jid2 j2 r2 Hin S2%(stale_back d jid j rid r); [|done|by eapply Hne].
      destruct S, S2. apply (Hne jid2 j2); congruence.
    + apply (R jid' j' rid' r' Hin), stale_still; eauto.
  - intros jid' Hnin. rewrite J by set_solver. cbn. rewrite lookup_insert_ne; [done|]. set_solver.
  - intros rid' Hno. rewrite U; cbn.
    + rewrite lookup_insert_ne; [done|]. intros ->. by apply (Hno jid j r); [apply elem_of_cons; left|].
    + intros jid' j' r' Hin S'. apply (Hno jid' j' r'); [apply elem_of_cons; by right|].
      eapply stale_back; eauto.
  - rewrite Rest. by destruct d.
  - intros x. rewrite elem_of_cons, Rep. split.
    + intros [->|(jid' & j' & rid' & r' & Hin & S' & ->)]; [|apply stale_still in S'; [|done|by eapply Hne]].
      * exists jid, j, rid, r. split_and!; [apply elem_of_cons; by left|done..].
      * exists jid', j', rid', r'. split_and!; [apply elem_of_cons; by right|done..].
    + intros (jid' & j' & rid' & r' & [[= -> ->]|Hin]%elem_of_cons & S' & ->).
      * left. by destruct (stale_unique _ _ _ _ _ _ _ _ S S') as (_ & -> & ->).
      * right. exists jid', j', rid', r'. split_and!; [done| |done]. apply stale_still; eauto.
Qed.

Lemma tx_recover_rows rows d0 d {A} (k : list RunRecovery → sql A) Q :
  NoDup rows.*1 → (∀ jid j, (jid, j) ∈ rows → ∃ rid r, stale_running d jid j rid r) →
  (∀ l d', all_recovered rows d l d' → tx_post d0 d' (k l) Q) →
  tx_post d0 d (pbind (recover_rows rows cutoff recovered_at) k) Q.
Proof.
  revert d k. induction rows as [|[jid j] rows IH]; intros d k Hn Hs Hk; cbn [recover_rows].
  { txs. apply Hk, all_recovered_nil. }
  apply NoDup_cons in Hn as [Hnin Hn].
  destruct (Hs jid j) as (rid & r & S); [apply elem_of_cons; by left|].
  rewrite (sr_current _ _ _ _ _ S). apply tx_bind_assoc. eapply tx_recover; [done|].
  apply tx_bind_assoc, IH; [done| |].
  - intros jid' j' Hin. destruct (Hs jid' j') as (rid' & r' & S'); [apply elem_of_cons; by right|].
    exists rid', r'. apply stale_elsewhere; [done..|]. intros ->.
    apply Hnin, list_elem_of_fmap. by exists (jid, j').
  - intros l d' Har. txs. by apply Hk, all_recovered_cons.
Qed.

(** ** The rows the scan selects *)

Lemma recovery_rows_at d jid j :
  (jid, j) ∈ recovery_rows cutoff None d ↔ jobs d !! jid = Some j ∧ needs_recovery d cutoff jid j = true.
Proof.
  unfold recovery_rows. rewrite merge_sort_Permutation, list_elem_of_filter, elem_of_map_to_list.
  cbn. naive_solver.
Qed.

Lemma recovery_rows_nodup d : NoDup (recovery_rows cutoff None d).*1.
Proof.
  unfold recovery_rows. rewrite merge_sort_Permutation.
  apply NoDup_fst_filter, NoDup_fst_map_to_list.
Qed.

(** In a reachable database the jobs to recover are the stale ones. *)
Lemma needs_recovery_stale w jid j :
  rtc sstep initial w → jobs (db w) !! jid = Some j →
  needs_recovery (db w) cutoff jid j = true ↔ ∃ rid r, stale_running (db w) jid j rid r.
Proof.
  intros C%reachable_consistent Hj. unfold needs_recovery. rewrite andb_true_iff, bool_decide_eq_true.
  split.
  - intros [Hs Hn]. pose proof (absw_job _ _ _ Hj) as Ha. rewrite Hs in Ha.
    destruct (running_has_run _ C _ _ Ha) as (rid & ar & Hc & Hr & Ho & Hrs).
    apply absw_run_inv in Hr as (r & Hr & ->). exists rid, r.
    rewrite Hc, (current_run_of _ _ _ _ _ Hc Hr Ho) in Hn. cbn in Hrs.
    rewrite bool_decide_true in Hn by done. by constructor.
  - intros (rid & r & [_ Hs Hc Hr Ho Hrs Hst]). split; [done|].
    by rewrite Hc, (current_run_of _ _ _ _ _ Hc Hr Ho), Hst, orb_true_r.
Qed.
End recovery.

(** [C5] Recovery is exact: in every reachable database the unlimited pass of
    [recover_stale_running_jobs] commits, fails precisely the running jobs whose heartbeat
    is missing or not newer than the cutoff, together with their run, reports exactly
    them, and changes no other job, run or table. *)
Theorem stale_runs_recovered `{Vault} `{JsonText} w cutoff t :
  rtc sstep initial w →
  let r := recover_stale_running_jobs cutoff t None (db w) in
  let stale := stale_running cutoff (db w) in
  (∃ l, r.1 = Ok l ∧ ∀ x, x ∈ l ↔ ∃ jid j rid run, stale jid j rid run ∧ x = recovery_of jid rid run) ∧
  (∀ jid j rid run, stale jid j rid run →
     jobs r.2 !! jid = Some (failed_job t j) ∧ job_runs r.2 !! rid = Some (failed_run t run)) ∧
  (∀ jid, (∀ j rid run, ¬ stale jid j rid run) → jobs r.2 !! jid = jobs (db w) !! jid) ∧
  (∀ rid, (∀ jid j run, ¬ stale jid j rid run) → job_runs r.2 !! rid = job_runs (db w) !! rid) ∧
  r.2 = set_jobs (jobs r.2) (set_job_runs (job_runs r.2) (db w)).
Proof.
  intros Hw. tx_result Q. unfold recover_stale_running_jobs. tx_enter Q.
  apply tx_bind_query, tx_tail, tx_recover_rows; [apply recovery_rows_nodup| |].
  - intros jid j [Hj Hn]%recovery_rows_at. by apply needs_recovery_stale.
  - intros l d' [R J U Rest Rep]. txs.
    assert (∀ jid j rid run, stale_running cutoff (db w) jid j rid run →
              (jid, j) ∈ recovery_rows cutoff None (db w)) as Hin.
    { intros jid j rid run S. apply recovery_rows_at. split; [apply S|].
      apply needs_recovery_stale; [done|apply S|eauto]. }
    split_and!; try done.
    + exists l. split; [done|]. intros x. rewrite Rep. naive_solver.
    + eauto.
    + intros jid Hno. apply J. intros ([? j] & -> & Hj)%list_elem_of_fmap. cbn in *.
      apply recovery_rows_at in Hj as [Hj Hn]. apply needs_recovery_stale in Hn as (rid & r & S); [|done..].
      by eapply Hno.
    + intros rid Hno. apply U. eauto.
Qed.

(** The sample run, claimed at 20, is stale at cutoff 40. *)
Lemma stale_runs_recovered_witness :
  let r := recover_stale_running_jobs 40 50 None (db claimed_w) in
  r.1 = Ok [{| rr_job_id := "j1"; rr_run_id := Some "r1"; rr_action := failed_stale_heartbeat;
               rr_last_heartbeat_at := Some 20 |}] ∧
  ∃ j run, stale_running 40 (db claimed_w) "j1" j "r1" run ∧
    jobs r.2 !! "j1" = Some (failed_job 50 j) ∧ job_runs r.2 !! "r1" = Some (failed_run 50 run).
Proof.
  intros r. split; [vm_compute; reflexivity|].
  destruct (jobs (db claimed_w) !! "j1") as [j|] eqn:Hj; [|vm_compute in Hj; discriminate].
  destruct (job_runs (db claimed_w) !! "r1") as [run|] eqn:Hr; [|vm_compute in Hr; discriminate].
  assert (stale_running 40 (db claimed_w) "j1" j "r1" run) as S.
  { constructor; [exact Hj| | |exact Hr| | |]; vm_compute in Hj, Hr;
      injection Hj as <-; injection Hr as <-; reflexivity. }
  exists j, run. split; [exact S|].
  exact (proj1 (proj2 (stale_runs_recovered claimed_w 40 50 claimed_reachable)) "j1" j "r1" run S).
Defined.
