(* ===== verification/Dispatcher.v ===== *)
(** * The webhook dispatcher ([webhook/dispatcher.py])

    One attempt at a delivery: the age and attempt limits, the reservation in the outbox,
    the HTTP exchange, and what is stored of its outcome. The network is the argument
    [exchange]; every [utc_now()] is an argument. Delays are in microseconds. *)

From S2P Require Import Prelude.
From S2P Require Import Text.
From S2P Require Import Envelope.
From S2P Require Import Rows.
From S2P Require Import JobDb.
From S2P Require Import JobModel.
From S2P Require Import Json.
From S2P Require Import Outbox.
From S2P Require Import System.
Open Scope Z_scope.

Definition second : Z := 1000000.

(** The arguments of [HttpWebhookDispatcher.__init__]. *)
Record dispatch_config := {
  _backoff_base : Z;
  _backoff_max : Z;
  _max_delivery_attempts : Z;
  _max_delivery_age : Z;
  _dispatch_concurrency : nat;
  _dispatch_batch_size : nat;
  _client_cache_max_size : nat;
  _client_cache_idle_ttl : Z;
}.

(** What [__init__] lets through. *)
Definition dispatch_config_ok (c : dispatch_config) : bool :=
  (1 <=? _max_delivery_attempts c) && (second <=? _max_delivery_age c) &&
  (1 <=? _dispatch_concurrency c)%nat && (_dispatch_concurrency c <=? _dispatch_batch_size c)%nat &&
  (1 <=? _client_cache_max_size c)%nat && (0 <? _client_cache_idle_ttl c).

Inductive WebhookDispatchStatus := d_delivered | retryable_failed | permanent_failed.
#[export] Instance WebhookDispatchStatus_eq_dec : EqDecision WebhookDispatchStatus.
Proof. solve_decision. Defined.

Inductive WebhookDispatchReason :=
  r_retryable_http_response | r_transport_failure | r_permanent_http_response | r_unsafe_url
| r_non_retryable_failure.

Record WebhookDispatchResult := {
  dr_status : WebhookDispatchStatus;
  dr_attempts : Z;
  dr_last_error : option string;
  dr_reason_code : option WebhookDispatchReason;
  dr_retry_after : option Z;
}.

(** ** Retry-After *)

Inductive retry_after_action :=
  absent | inapplicable_status | out_of_range | accepted_delta_seconds | malformed
| timezone_missing | past_http_date | accepted_http_date.

(** [float] of a larger integer is infinite. *)
Definition float_limit : Z := 2 ^ 1024 - 2 ^ 970.

(** How [parsedate_to_datetime] reads a value: not at all, without a time zone, or as a time. *)
Inductive http_date := Unreadable | Naive | At (t : Z).

(** ** The exchange *)

(** What resolving the URL and sending the request come to. *)
Inductive exchange :=
| UnsafeURL
| TransportFailure (error_type : string)
| Response (status_code : Z) (retry_after : option string)
| Unexpected (error_type : string).

Definition _is_retryable_status (status_code : Z) : bool := (500 <=? status_code) || (status_code =? 429).
(** httpx: 2xx. *)
Definition is_success (status_code : Z) : bool := (200 <=? status_code) && (status_code <=? 299).

Section dispatcher.
Context `{Vault} `{JsonText} (cfg : dispatch_config) (parsedate_to_datetime : string → http_date).

Definition _parse_retry_after (status_code : Z) (raw_value : option string) (now : Z) :
    option Z * retry_after_action :=
  match raw_value with
  | None => (None, absent)
  | Some raw =>
      if negb ((status_code =? 429) || (status_code =? 503)) then (None, inapplicable_status)
      else
        let value := strip (txt raw) in
        if all_digits value then
          if float_limit <=? decimal value then (None, out_of_range)
          else (Some (decimal value * second), accepted_delta_seconds)
        else
          match parsedate_to_datetime (String.string_of_list_ascii value) with
          | Unreadable => (None, malformed)
          | Naive => (None, timezone_missing)
          | At t => if t - now <=? 0 then (None, past_http_date)
                    else (Some (t - now), accepted_http_date)
          end
  end.

Definition result (s : WebhookDispatchStatus) (error : option string)
    (reason : option WebhookDispatchReason) (retry_after : option Z) : WebhookDispatchResult :=
  {| dr_status := s; dr_attempts := 1; dr_last_error := error; dr_reason_code := reason;
     dr_retry_after := retry_after |}.

Definition send_once (e : exchange) (now : Z) : outcome string WebhookDispatchResult :=
  match e with
  | Response code retry_after =>
      if is_success code then Ok (result d_delivered None None None)
      else
        let last_error := "HTTP " +:+ String.string_of_list_ascii (str_int code) in
        if negb (_is_retryable_status code)
        then Ok (result permanent_failed (Some last_error) (Some r_permanent_http_response) None)
        else Ok (result retryable_failed (Some last_error) (Some r_retryable_http_response)
                   (_parse_retry_after code retry_after now).1)
  | UnsafeURL => Ok (result permanent_failed (Some "Webhook URL is unsafe or non-public")
                       (Some r_unsafe_url) None)
  | TransportFailure t => Ok (result retryable_failed (Some ("Transport failure: " +:+ t))
                                (Some r_transport_failure) None)
  | Unexpected t => Raise t
  end.

(** The [try] around [send_once] in [_process_delivery]. *)
Definition attempt_result (e : exchange) (now : Z) : WebhookDispatchResult :=
  match send_once e now with
  | Ok r => r
  | Raise t => result permanent_failed (Some ("Non-retryable dispatcher failure: " +:+ t))
                 (Some r_non_retryable_failure) None
  end.

(** ** Limits *)

Definition _backoff_delay (attempt_index : Z) : Z :=
  Z.min (_backoff_base cfg * 2 ^ Z.min attempt_index 62) (_backoff_max cfg).

Definition _delivery_deadline (d : WebhookDelivery) : Z :=
  w_created_at (wd_row d) + _max_delivery_age cfg.

Definition _terminal_reason (r : option WebhookDispatchReason) : WebhookFailureReason :=
  match r with
  | Some r_permanent_http_response => permanent_http_response
  | Some r_unsafe_url => unsafe_url
  | _ => non_retryable_failure
  end.

Definition attempts (d : WebhookDelivery) : Z := w_attempts (wd_row d).

Definition _fail_delivery (u : entropy) (d : WebhookDelivery) (failed_at : Z)
    (reason : WebhookFailureReason) (last_error : string) : store unit :=
  let! _ := mark_failed u (wd_id d) failed_at reason (Some last_error) (Some (attempts d)) 0 in
  pret tt.

Definition exhaustion (d : WebhookDelivery) (now : Z) : option (WebhookFailureReason * string) :=
  if _max_delivery_attempts cfg <=? attempts d
  then Some (attempt_exhausted, "Maximum total webhook delivery attempts reached")
  else if _delivery_deadline d <=? now
  then Some (age_exhausted, "Maximum webhook delivery age reached")
  else None.

Definition _fail_if_exhausted (u : entropy) (d : WebhookDelivery) (now : Z) : store bool :=
  match exhaustion d now with
  | None => pret false
  | Some (reason, error) => do! _fail_delivery u d now reason error in pret true
  end.

(** ** [_process_delivery]: before the exchange, and after it *)

Definition start_attempt (u : entropy) (d : WebhookDelivery) (now : Z) : store (option WebhookDelivery) :=
  let! stop := _fail_if_exhausted u d now in
  if (stop : bool) then pret None else begin_attempt (wd_id d) (attempts d) now.

Definition settle (u : entropy) (reserved : WebhookDelivery) (r : WebhookDispatchResult)
    (completed_at : Z) : store unit :=
  match dr_status r with
  | d_delivered =>
      let! _ := mark_delivered (wd_id reserved) completed_at (Some (attempts reserved)) 1 in pret tt
  | permanent_failed =>
      let! _ := mark_failed u (wd_id reserved) completed_at (_terminal_reason (dr_reason_code r))
                  (Some (or_text (dr_last_error r) "Non-retryable webhook failure"))
                  (Some (attempts reserved)) 0 in
      pret tt
  | retryable_failed =>
      if _max_delivery_attempts cfg <=? attempts reserved
      then _fail_delivery u reserved completed_at attempt_exhausted
             "Maximum total webhook delivery attempts reached"
      else
        let deadline := _delivery_deadline reserved in
        if deadline <=? completed_at
        then _fail_delivery u reserved completed_at age_exhausted
               "Maximum webhook delivery age reached after retryable failure"
        else
          let delay := Z.max (_backoff_delay (Z.max (attempts reserved - 1) 0))
                         (default 0 (dr_retry_after r)) in
          if deadline - completed_at <=? delay
          then _fail_delivery u reserved completed_at age_exhausted
                 "Next retry cannot occur before maximum delivery age"
          else
            let! _ := mark_retryable_failure u (wd_id reserved) completed_at (completed_at + delay)
                        (or_text (dr_last_error r) "Retryable webhook delivery failure")
                        (Some (attempts reserved)) 1 in
            pret tt
  end.

Definition _process_delivery (u : entropy) (d : WebhookDelivery) (now : Z) (e : exchange)
    (answered_at completed_at : Z) : store unit :=
  let! reserved := start_attempt u d now in
  match reserved with
  | None => pret tt
  | Some reserved => settle u reserved (attempt_result e answered_at) completed_at
  end.
End dispatcher.

(** ** The coordinator and its workers

    The coordinator fills a bounded queue from the outbox; the workers take deliveries
    from it. [scheduled] holds the ids that are queued or being processed. [posts] is a
    history variable: the requests that were sent, with their attempt number. *)

Inductive work :=
| Taken (d : WebhookDelivery)
| Sent (d : WebhookDelivery)
| Done (d : WebhookDelivery).

Definition work_delivery (x : work) : WebhookDelivery :=
  match x with Taken d | Sent d | Done d => d end.

Record fleet := {
  exhausted_left : list WebhookDelivery;
  queue : list WebhookDelivery;
  scheduled : gset string;
  busy : list work;
  posts : list (string * Z);
}.

Definition set_exhausted_left (l : list WebhookDelivery) (f : fleet) : fleet :=
  {| exhausted_left := l; queue := queue f; scheduled := scheduled f; busy := busy f; posts := posts f |}.
Definition set_busy (l : list work) (f : fleet) : fleet :=
  {| exhausted_left := exhausted_left f; queue := queue f; scheduled := scheduled f; busy := l;
     posts := posts f |}.

(** [put_nowait] for each due delivery that is not scheduled yet, until the queue is full. *)
Fixpoint enqueue_due (capacity : nat) (due : list WebhookDelivery) (q : list WebhookDelivery)
    (ids : gset string) : list WebhookDelivery * gset string :=
  match due with
  | [] => (q, ids)
  | d :: due =>
      if bool_decide (wd_id d ∈ ids) then enqueue_due capacity due q ids
      else if (capacity <=? length q)%nat then (q, ids)
      else enqueue_due capacity due (q ++ [d]) ({[ wd_id d ]} ∪ ids)
  end.

Definition schedule_due (cfg : dispatch_config) (due : list WebhookDelivery) (f : fleet) : fleet :=
  let '(q, ids) := enqueue_due (_dispatch_batch_size cfg) due (queue f) (scheduled f) in
  {| exhausted_left := exhausted_left f; queue := q; scheduled := ids; busy := busy f; posts := posts f |}.

(** What [startup] finds after a restart: an empty queue. *)
Definition fresh_fleet (sent : list (string * Z)) : fleet :=
  {| exhausted_left := []; queue := []; scheduled := ∅; busy := []; posts := sent |}.

Definition take_work (f : fleet) : option fleet :=
  match queue f with
  | d :: q => Some {| exhausted_left := exhausted_left f; queue := q; scheduled := scheduled f;
                      busy := Taken d :: busy f; posts := posts f |}
  | [] => None
  end.

(** The reservation came back: the request is sent, or there is nothing to do. *)
Definition started (l1 l2 : list work) (d : WebhookDelivery)
    (r : outcome store_error (option WebhookDelivery)) (f : fleet) : fleet :=
  match r with
  | Ok (Some reserved) =>
      {| exhausted_left := exhausted_left f; queue := queue f; scheduled := scheduled f;
         busy := l1 ++ Sent reserved :: l2; posts := (wd_id reserved, attempts reserved) :: posts f |}
  | _ => set_busy (l1 ++ Done d :: l2) f
  end.

(** The [finally] of [_worker_loop]. *)
Definition finished (l1 l2 : list work) (d : WebhookDelivery) (f : fleet) : fleet :=
  {| exhausted_left := exhausted_left f; queue := queue f; scheduled := scheduled f ∖ {[ wd_id d ]};
     busy := l1 ++ l2; posts := posts f |}.

(** ** Interleavings

    One atomic section of the coordinator, of a worker or of the rest of the service. An
    exception or a cancellation may end a worker's delivery at any point ([f_drop]); a new
    start finds no worker and an empty queue ([f_restart]). *)
Section fleet.
Context `{Vault} `{JsonText} (cfg : dispatch_config) (parsedate_to_datetime : string → http_date).

Definition listed (r : outcome store_error (list WebhookDelivery)) : list WebhookDelivery :=
  match r with Ok l => l | Raise _ => [] end.

Inductive dstep : world * fleet → world * fleet → Prop :=
| f_service w w' f : sstep w w' → dstep (w, f) (w', f)
| f_list_exhausted w f now :
    let m := list_exhausted_pending (_max_delivery_attempts cfg) (now - _max_delivery_age cfg) now
               (_dispatch_batch_size cfg) in
    dstep (w, f) (call w m, set_exhausted_left (listed (m (db w)).1) f)
| f_skip w f d l :
    exhausted_left f = d :: l → wd_id d ∈ scheduled f → dstep (w, f) (w, set_exhausted_left l f)
| f_exhaust w f d l u now :
    exhausted_left f = d :: l → wd_id d ∉ scheduled f →
    dstep (w, f) (call w (_fail_if_exhausted cfg u d now), set_exhausted_left l f)
| f_schedule w f now :
    let m := list_due_pending now (_dispatch_batch_size cfg) in
    dstep (w, f) (call w m, schedule_due cfg (listed (m (db w)).1) f)
| f_take w f f' :
    (length (busy f) < _dispatch_concurrency cfg)%nat → take_work f = Some f' → dstep (w, f) (w, f')
| f_start w f l1 d l2 u now :
    busy f = l1 ++ Taken d :: l2 →
    let m := start_attempt cfg u d now in
    dstep (w, f) (call w m, started l1 l2 d (m (db w)).1 f)
| f_settle w f l1 d l2 u e answered_at completed_at :
    busy f = l1 ++ Sent d :: l2 →
    dstep (w, f) (call w (settle cfg u d (attempt_result parsedate_to_datetime e answered_at) completed_at),
                  set_busy (l1 ++ Done d :: l2) f)
| f_drop w f l1 x l2 :
    busy f = l1 ++ x :: l2 → dstep (w, f) (w, set_busy (l1 ++ Done (work_delivery x) :: l2) f)
| f_finish w f l1 d l2 :
    busy f = l1 ++ Done d :: l2 → dstep (w, f) (w, finished l1 l2 d f)
| f_restart w f : busy f = [] → dstep (w, f) (w, fresh_fleet (posts f)).
End fleet.
