(* ===== verification/DispatcherSpec.v ===== *)
(** * What the webhook dispatcher guarantees

    Every attempt settles its delivery or schedules a later one before the deadline;
    attempts are bounded and never repeated, whatever the rest of the service does
    meanwhile; no delivery is in the hands of two workers. *)

From S2P Require Import Prelude.
From S2P Require Import Envelope.
From S2P Require Import Rows.
From S2P Require Import JobDb.
From S2P Require Import JobModel.
From S2P Require Import Tx.
From S2P Require Import Json.
From S2P Require Import Outbox.
From S2P Require Import TxStore.
From S2P Require Import OutboxSpec.
From S2P Require Import System.
From S2P Require Import Samples.
From S2P Require Import Deliveries.
From S2P Require Import Dispatcher.
Open Scope Z_scope.

Section spec.
Context `{Vault} `{JsonText} (cfg : dispatch_config) (parse_date : string → http_date).

Abbreviation wd := webhook_deliveries.

(** ** Single attempts *)

(** A call that ignores its result is the call. *)
Lemma call_ignored {A} (m : store A) w {B} (b : B) : call w (let! _ := m in pret b) = call w m.
Proof. unfold call, pbind. by destruct (m (db w)) as [[]]. Qed.

(** A part of an attempt changes the database by at most one call of the store. *)
Definition one_call (w w' : world) : Prop := w' = w ∨ sstep w w'.

Lemma fail_delivery_call u d t reason e w : sstep w (call w (_fail_delivery u d t reason e)).
Proof. unfold _fail_delivery. rewrite call_ignored. by refine (s_mark_failed w _ _ _ _ _ _ _ _). Qed.

Lemma fail_if_exhausted_call u d t w : one_call w (call w (_fail_if_exhausted cfg u d t)).
Proof.
  unfold _fail_if_exhausted. destruct (exhaustion cfg d t) as [[reason e]|]; [|by left; destruct w].
  right. rewrite call_ignored. apply fail_delivery_call.
Qed.

(** An attempt starts with the exhaustion or with the reservation. *)
Lemma start_attempt_eq u d t d0 :
  start_attempt cfg u d t d0 =
  match exhaustion cfg d t with
  | Some (reason, e) => (do! _fail_delivery u d t reason e in pret None) d0
  | None => begin_attempt (wd_id d) (attempts d) t d0
  end.
Proof.
  unfold start_attempt, _fail_if_exhausted. destruct (exhaustion cfg d t) as [[reason e]|]; [|done].
  unfold pbind. by destruct (_fail_delivery u d t reason e d0) as [[]].
Qed.

Lemma start_attempt_call u d t w : sstep w (call w (start_attempt cfg u d t)).
Proof.
  unfold call. rewrite start_attempt_eq. destruct (exhaustion cfg d t) as [[reason e]|].
  - pose proof (fail_delivery_call u d t reason e w) as Hs. rewrite <- (call_ignored _ _ (@None WebhookDelivery)) in Hs.
    exact Hs.
  - apply s_begin_attempt.
Qed.

Lemma settle_call u d r t w : sstep w (call w (settle cfg u d r t)).
Proof.
  unfold settle. destruct (dr_status r).
  - rewrite call_ignored. by refine (s_mark_delivered w _ _ _ _ _).
  - do 3 (case_match; [apply fail_delivery_call|]). rewrite call_ignored.
    by refine (s_mark_retryable_failure w _ _ _ _ _ _ _ _).
  - rewrite call_ignored. by refine (s_mark_failed w _ _ _ _ _ _ _ _).
Qed.

(** A reservation is a new attempt of an unexhausted delivery. *)
Lemma begin_reserves id n t d x :
  (begin_attempt id n t d).1 = Ok (Some x) →
  wd_id x = id ∧ attempts x = n + 1 ∧
  ∃ w, wd d !! id = Some w ∧ w_attempts w = n ∧ w_status w = Delivery.pending ∧
       wd (begin_attempt id n t d).2 !! id = Some (wd_row x) ∧ w_created_at (wd_row x) = w_created_at w ∧
       w_status (wd_row x) = Delivery.pending.
Proof.
  unfold begin_attempt, pbind. 
  assert (∀ v, (reserve_attempt id n t d).1 = Ok (Some v) → ∃ w, wd d !! id = Some w ∧
    w_attempts w = n ∧ w_status w = Delivery.pending ∧ wd (reserve_attempt id n t d).2 !! id = Some v ∧
    w_attempts v = n + 1 ∧ w_created_at v = w_created_at w ∧ w_status v = Delivery.pending) as Hr.
  { intros v. apply (tx_transaction _ d (λ r d', r = Ok (Some v) → ∃ w, wd d !! id = Some w ∧
      w_attempts w = n ∧ w_status w = Delivery.pending ∧ wd d' !! id = Some v ∧
      w_attempts v = n + 1 ∧ w_created_at v = w_created_at w ∧ w_status v = Delivery.pending)).
    txs; try done. cbn. rewrite lookup_insert_eq. intros [= <-]. exists w. boolprop.
    match goal with Hp : is_pending w = true |- _ => apply is_pending_true in Hp end.
    subst. by split_and!. }
  destruct (reserve_attempt id n t d) as [[[w|]|e] d']; try done.
  destruct (Hr w eq_refl) as (v & Hv & Hn & Hp & Hw & Ha & Hc & Hs). simpl in Hw.
  destruct (_decode_webhook_delivery id w) as [y| |] eqn:Hdec; try done.
  - intros [= ->]. assert (wd_id x = id ∧ wd_row x = w) as [-> E].
    { revert Hdec. unfold _decode_webhook_delivery. repeat case_match; intros; by simplify_eq. }
    unfold attempts. rewrite E. split_and!; try done. by exists v.
  - by destruct (quarantine_malformed_delivery id t d') as [[]].
Qed.

Lemma not_exhausted d t : exhaustion cfg d t = None →
  attempts d < _max_delivery_attempts cfg ∧ t < _delivery_deadline cfg d.
Proof.
  unfold exhaustion. destruct (Z.leb_spec (_max_delivery_attempts cfg) (attempts d)); [done|].
  by destruct (Z.leb_spec (_delivery_deadline cfg d) t).
Qed.

Lemma start_reserves u d t d0 x :
  (start_attempt cfg u d t d0).1 = Ok (Some x) →
  (begin_attempt (wd_id d) (attempts d) t d0).1 = Ok (Some x) ∧
  (start_attempt cfg u d t d0).2 = (begin_attempt (wd_id d) (attempts d) t d0).2 ∧
  attempts d < _max_delivery_attempts cfg ∧ t < _delivery_deadline cfg d.
Proof.
  rewrite start_attempt_eq. destruct (exhaustion cfg d t) as [[reason e]|] eqn:He.
  - unfold pbind. by destruct (_fail_delivery u d t reason e d0) as [[]].
  - intros Hb. split_and!; try done; by apply (not_exhausted d t).
Qed.

(** ** What is left of the row *)

Definition with_row (id : string) (w : WebhookRow) (d : DB) : DB :=
  set_webhook_deliveries (<[id := w]> (wd d)) d.

Lemma with_row_at id w d : wd (with_row id w d) !! id = Some w.
Proof. unfold with_row. cbn. by rewrite lookup_insert_eq. Qed.

(** An update of a single row, by its condition. *)
Lemma update_row id cond set d w :
  wd d !! id = Some w → cond w = true →
  transaction (let! n := update_webhook id cond set in pret (n =? 1)) d =
  (Ok true, with_row id (set w) d).
Proof.
  intros Hw Hc. refine (tx_pair _ d (λ r, r = (Ok true, with_row id (set w) d)) _).
  txs; [|exfalso; naive_solver congruence].
  match goal with Hu : wd _ !! id = Some ?w' |- _ => assert (w' = w) as -> by congruence end. done.
Qed.

Lemma pending_update_row id set d w :
  wd d !! id = Some w → is_pending w = true →
  _pending_update id (Some (w_attempts w)) set d = (Ok true, with_row id (set w) d).
Proof. intros Hw Hp. unfold _pending_update. rewrite (update_row id _ _ d w); try done. by rewrite Hp, Z.eqb_refl. Qed.

Definition attempted (t : Z) (w : WebhookRow) : WebhookRow :=
  set_w_updated_at t (set_w_last_attempt_at (Some t) (set_w_attempts (w_attempts w + 1) w)).

Lemma reserve_row id t d w :
  wd d !! id = Some w → is_pending w = true →
  reserve_attempt id (w_attempts w) t d = (Ok (Some (attempted t w)), with_row id (attempted t w) d).
Proof.
  intros Hw Hp. refine (tx_pair _ d (λ r, r = (Ok (Some (attempted t w)), with_row id (attempted t w) d)) _).
  txs.
  - match goal with Hu : wd _ !! id = Some ?w' |- _ => assert (w' = w) as -> by congruence end.
    f_equal. f_equal. cbn. by rewrite lookup_insert_eq.
  - exfalso. match goal with Hu : ∀ w, _ → _ = false |- _ => specialize (Hu w Hw) end.
    by rewrite Hp, Z.eqb_refl in *.
Qed.

(** A delivery as it was read from its row. *)
Record reads (x : WebhookDelivery) (id : string) (w : WebhookRow) : Prop := {
  read_id : wd_id x = id;
  read_attempts : attempts x = w_attempts w;
  read_created : w_created_at (wd_row x) = w_created_at w;
}.

(** What settling an attempt leaves of a row: it is dead, or its retry has a time, after
    the backoff and before the row's deadline. *)
Definition retry_planned (t : Z) (w w' : WebhookRow) : Prop :=
  w_attempts w' < _max_delivery_attempts cfg ∧
  t + _backoff_delay cfg (w_attempts w' - 1) ≤ w_next_attempt_at w' < w_created_at w + _max_delivery_age cfg.
Definition settled (t : Z) (w w' : WebhookRow) : Prop :=
  is_dead w' = true ∨ is_pending w' = true ∧ w_attempts w' = w_attempts w ∧ retry_planned t w w'.

Lemma fail_delivery_row u x t reason e d id w :
  reads x id w → wd d !! id = Some w → is_pending w = true →
  ∃ w', _fail_delivery u x t reason e d = (Ok tt, with_row id w' d) ∧ is_dead w' = true ∧
        w_failure_reason w' = Some reason.
Proof.
  intros [<- Ha _] Hw Hp. eexists. unfold _fail_delivery, mark_failed, pbind. rewrite Ha.
  rewrite (pending_update_row _ _ _ w) by done. by split_and!.
Qed.

Lemma settle_row u x r t d id w :
  reads x id w → wd d !! id = Some w → is_pending w = true → 1 ≤ w_attempts w →
  ∃ w', settle cfg u x r t d = (Ok tt, with_row id w' d) ∧ settled t w w'.
Proof.
  intros Hr Hw Hp Hpos. pose proof Hr as [Hi Ha Hc]. unfold settle.
  assert (∀ reason e, ∃ w', _fail_delivery u x t reason e d = (Ok tt, with_row id w' d) ∧ settled t w w')
    as Hfail.
  { intros reason e. destruct (fail_delivery_row u x t reason e d id w Hr Hw Hp) as (w' & ? & ? & _).
    exists w'. split; [done|by left]. }
  destruct (dr_status r).
  - unfold mark_delivered, pbind. rewrite Hi, Ha, (pending_update_row _ _ _ w) by done.
    eexists. split; [done|by left].
  - destruct (Z.leb_spec (_max_delivery_attempts cfg) (attempts x)); [apply Hfail|].
    destruct (Z.leb_spec (_delivery_deadline cfg x) t); [apply Hfail|].
    set (delay := Z.max (_backoff_delay cfg (Z.max (attempts x - 1) 0)) (default 0 (dr_retry_after r))).
    destruct (Z.leb_spec (_delivery_deadline cfg x - t) delay) as [|Hd]; [apply Hfail|].
    unfold mark_retryable_failure, pbind. rewrite Hi, Ha, (pending_update_row _ _ _ w) by done.
    eexists. split; [done|]. right. unfold _delivery_deadline in *. rewrite Hc in *.
    assert (_backoff_delay cfg (w_attempts w - 1) ≤ delay) as Hb.
    { unfold delay. rewrite Ha, (Z.max_l (w_attempts w - 1) 0) by lia. lia. }
    clearbody delay. unfold retry_planned. split_and!; cbn; try done; lia.
  - unfold mark_failed, pbind. rewrite Hi, Ha, (pending_update_row _ _ _ w) by done.
    eexists. split; [done|by left].
Qed.

Lemma with_row_twice id w w' d : with_row id w' (with_row id w d) = with_row id w' d.
Proof. unfold with_row. cbn. by rewrite insert_insert_eq. Qed.

Lemma quarantine_row id t d w :
  wd d !! id = Some w → is_pending w = true →
  quarantine_malformed_delivery id t d = (Ok true, with_row id (quarantine t w) d).
Proof. intros Hw Hp. by apply (update_row id is_pending). Qed.

Lemma decoded_reads id w x : _decode_webhook_delivery id w = Decoded x → wd_id x = id ∧ wd_row x = w.
Proof. unfold _decode_webhook_delivery. repeat case_match; intros; by simplify_eq. Qed.

(** Starting an attempt of a pending row. *)
Lemma start_row u x t d id w :
  reads x id w → wd d !! id = Some w → is_pending w = true →
  (∃ w', start_attempt cfg u x t d = (Ok None, with_row id w' d) ∧ is_dead w' = true) ∨
  (w_attempts w < _max_delivery_attempts cfg ∧ ∃ r,
   start_attempt cfg u x t d = (r, with_row id (attempted t w) d) ∧
   ((∃ y, r = Ok (Some y) ∧ reads y id (attempted t w)) ∨ r = Raise SecretDecryptionError)).
Proof.
  intros Hr Hw Hp. pose proof Hr as [Hi Ha Hc]. rewrite start_attempt_eq.
  destruct (exhaustion cfg x t) as [[reason e]|] eqn:Hex.
  { left. destruct (fail_delivery_row u x t reason e d id w Hr Hw Hp) as (w' & Hf & Hd & _).
    exists w'. unfold pbind. by rewrite Hf. }
  apply not_exhausted in Hex as [Hmax _]. rewrite Ha in Hmax.
  unfold begin_attempt, pbind. rewrite Hi, Ha, (reserve_row id t d w) by done.
  destruct (_decode_webhook_delivery id (attempted t w)) as [y| |] eqn:Hdec.
  - right. split; [done|]. eexists. split; [done|]. left. exists y. split; [done|].
    apply decoded_reads in Hdec as [E1 E2]. by constructor; unfold attempts; rewrite ?E2.
  - left. rewrite (quarantine_row id t _ (attempted t w)) by (try apply with_row_at; done).
    eexists. rewrite with_row_twice. done.
  - right. split; [done|]. eexists. split; [done|]. by right.
Qed.

(** What one call of [_process_delivery] makes of the row it was given. *)
Lemma process_row u x t e t1 t2 d id w :
  reads x id w → wd d !! id = Some w → is_pending w = true → 0 ≤ w_attempts w →
  ∃ r w', _process_delivery cfg parse_date u x t e t1 t2 d = (r, with_row id w' d) ∧
    (is_dead w' = true ∨
     is_pending w' = true ∧ w_attempts w' = w_attempts w + 1 ∧ w_attempts w' ≤ _max_delivery_attempts cfg ∧
     (r = Ok tt → retry_planned t2 w w')).
Proof.
  intros Hr Hw Hp Hpos. unfold _process_delivery, pbind.
  destruct (start_row u x t d id w Hr Hw Hp) as [(w' & -> & Hd)|(Hmax & r & -> & Hcase)].
  { exists (Ok tt), w'. split; [done|by left]. }
  destruct Hcase as [(y & -> & Hy)| ->].
  - destruct (settle_row u y (attempt_result parse_date e t1) t2 (with_row id (attempted t w) d) id (attempted t w) Hy)
      as (w' & Hs & Hset); [apply with_row_at|done|cbn; lia|].
    exists (Ok tt), w'. rewrite Hs, with_row_twice. split; [done|].
    destruct Hset as [?|(Hp' & Ha' & Hplan)]; [by left|right]. cbn in Ha'. by split_and!; [..|lia|].
  - eexists _, (attempted t w). split; [done|right]. cbn. split_and!; try done. lia.
Qed.

(** ** Retries end *)

Lemma process_calls u x t e t1 t2 w :
  rtc sstep w (call w (_process_delivery cfg parse_date u x t e t1 t2)).
Proof.
  pose proof (start_attempt_call u x t w) as Hs.
  unfold call, _process_delivery, pbind in *.
  destruct (start_attempt cfg u x t (db w)) as [[[y|]|err] d'] eqn:E; try by apply rtc_once.
  eapply rtc_l; [exact Hs|]. apply rtc_once. apply (settle_call u y _ t2 {| db := d'; used := used w |}).
Qed.

(** [n] attempts at a delivery, each made with what was read of its row, with any calls of
    the store between them. *)
Inductive rounds (id : string) : nat → world → world → Prop :=
| rounds_none w w' : rtc sstep w w' → rounds id 0 w w'
| rounds_more n w v w' u x t e t1 t2 :
    rtc sstep w v →
    (∀ row, wd (db v) !! id = Some row → is_pending row = true → reads x id row) →
    rounds id n (call v (_process_delivery cfg parse_date u x t e t1 t2)) w' →
    rounds id (Datatypes.S n) w w'.

Lemma rounds_steps id n w w' : rounds id n w w' → rtc sstep w w'.
Proof.
  induction 1 as [|n w v w' u x t e t1 t2 Hv _ _ IH]; [done|].
  etrans; [done|]. etrans; [apply process_calls|done].
Qed.

Definition removed_between (id : string) (w w' : world) : Prop :=
  ∃ v, rtc sstep w v ∧ rtc sstep v w' ∧ wd (db v) !! id = None.

Lemma removed_later id a b c : rtc sstep a b → removed_between id b c → removed_between id a c.
Proof. intros Hab (v & H1 & H2 & H3). exists v. split_and!; try done. by etrans. Qed.

Lemma dead_stays id w w' row :
  rtc sstep w w' → wd (db w) !! id = Some row → is_dead row = true →
  (∃ row', wd (db w') !! id = Some row' ∧ is_dead row' = true) ∨ removed_between id w w'.
Proof.
  intros Hr Hrow Hd. destruct (rows_evolve _ _ _ _ Hr Hrow) as [(y & Hy & E)|?]; [left|by right].
  exists y. split; [done|]. destruct (dead_is_final _ _ E Hd) as [Es _].
  unfold is_dead in *. by rewrite Es.
Qed.

(** One round from a row that is there: the row is dead, has used one more attempt, or was
    removed. *)
Lemma round_row id w u x t e t1 t2 row :
  wd (db w) !! id = Some row → 0 ≤ w_attempts row →
  (∀ r, wd (db w) !! id = Some r → is_pending r = true → reads x id r) →
  ∃ row', wd (db (call w (_process_delivery cfg parse_date u x t e t1 t2))) !! id = Some row' ∧
    (is_dead row' = true ∨ w_attempts row + 1 ≤ w_attempts row' ≤ _max_delivery_attempts cfg) ∨
  removed_between id w (call w (_process_delivery cfg parse_date u x t e t1 t2)).
Proof.
  intros Hrow Hpos Hx. destruct (is_pending row) eqn:Hp.
  - destruct (process_row u x t e t1 t2 (db w) id row (Hx row Hrow Hp) Hrow Hp Hpos)
      as (r & w' & E & Hcase).
    exists w'. left. unfold call. rewrite E. split; [apply with_row_at|].
    destruct Hcase as [?|(_ & Ha & Hm & _)]; [by left|right; lia].
  - destruct (dead_stays id _ _ row (process_calls u x t e t1 t2 w) Hrow) as [(r & Hr & Hd)|Hrem].
    + by rewrite dead_or_pending, Hp.
    + exists r. left. auto.
    + exists row. by right.
Qed.

(** [C13] Retries end: however the exchanges turn out, whatever errors the attempts meet and
    whatever else the service does between them, once a delivery was processed more often
    than it has attempts left, its row is delivered or failed (or its job was removed). *)
Theorem retries_end id n w w' row :
  rounds id n w w' → wd (db w) !! id = Some row →
  0 ≤ w_attempts row ≤ _max_delivery_attempts cfg →
  _max_delivery_attempts cfg - w_attempts row < Z.of_nat n →
  (∃ row', wd (db w') !! id = Some row' ∧ is_dead row' = true) ∨ removed_between id w w'.
Proof.
  intros Hr. revert row. induction Hr as [w w' Hr|n w v w' u x t e t1 t2 Hv Hx Hn IH];
    intros row Hrow Hpos Hlt; [lia|].
  destruct (rows_evolve _ _ _ _ Hv Hrow) as [(rv & Hrv & E)|(a & Ha & Ha' & Hn')].
  2:{ right. exists a. split_and!; try done. etrans; [done|]. etrans; [apply process_calls|by eapply rounds_steps]. }
  pose proof (attempts_grow _ _ E) as Hg.
  destruct (round_row id v u x t e t1 t2 rv Hrv ltac:(lia) Hx) as (row' & [[Hrow' [Hd|Ha]]|Hrem]).
  - destruct (dead_stays id _ _ row' (rounds_steps _ _ _ _ Hn) Hrow' Hd) as [?|Hrem]; [by left|right].
    eapply removed_later; [|done]. etrans; [done|apply process_calls].
  - destruct (IH row' Hrow' ltac:(lia) ltac:(lia)) as [?|Hrem]; [by left|right].
    eapply removed_later; [|done]. etrans; [done|apply process_calls].
  - right. eapply removed_later; [done|]. destruct Hrem as (a & H1 & H2 & H3). exists a.
    split_and!; try done. etrans; [done|by eapply rounds_steps].
Qed.

(** ** Attempts are bounded and never repeated *)

(** The attempt numbers sent for a delivery, latest first. *)
Definition posts_of (id : string) (f : fleet) : list Z :=
  (filter (λ p, p.1 = id) (posts f)).*2.

(** They decrease towards the past, and the row remembers the latest. *)
Definition posts_ok (id : string) (s : world * fleet) : Prop :=
  StronglySorted Z.gt (posts_of id s.2) ∧
  Forall (λ n, 1 ≤ n ≤ _max_delivery_attempts cfg) (posts_of id s.2) ∧
  ∀ row, wd (db s.1) !! id = Some row → 0 ≤ w_attempts row ∧ Forall (λ n, n ≤ w_attempts row) (posts_of id s.2).

Lemma posts_ok_call id w w' f :
  one_call w w' → is_Some (wd (db w) !! id) → posts_ok id (w, f) → posts_ok id (w', f).
Proof.
  intros Hc [x Hx] (Hs & Hb & Hr). split_and!; try done. simpl in *. intros row Hrow.
  destruct Hc as [->|St]; [by apply Hr|].
  destruct (Hr x Hx) as [Hpos Hle].
  destruct (sstep_row _ _ _ _ St Hx) as [(y & Hy & E)|Hn]; [|congruence].
  pose proof (attempts_grow _ _ E). assert (y = row) as -> by congruence. split; [lia|].
  eapply Forall_impl; [done|]. simpl. lia.
Qed.

Lemma posts_ok_same id w f f' : posts f' = posts f → posts_ok id (w, f) → posts_ok id (w, f').
Proof. unfold posts_ok, posts_of. intros E. cbn [fst snd]. by rewrite E. Qed.

Lemma posts_started id l1 l2 d x f :
  posts_of id (started l1 l2 d (Ok (Some x)) f) =
  if bool_decide (wd_id x = id) then attempts x :: posts_of id f else posts_of id f.
Proof.
  unfold posts_of, started. cbn [posts]. rewrite filter_cons. cbn [fst].
  case_bool_decide; case_decide; done.
Qed.

Lemma posts_ok_start id w u d now f l1 l2 :
  let m := start_attempt cfg u d now in
  is_Some (wd (db w) !! id) → posts_ok id (w, f) →
  posts_ok id (call w m, started l1 l2 d (m (db w)).1 f).
Proof.
  intros m Hsome Hok. assert (posts_ok id (call w m, f)) as Hok'.
  { eapply posts_ok_call; [right; apply start_attempt_call|done|done]. }
  destruct (m (db w)).1 as [[x|]|e] eqn:E; try by eapply posts_ok_same; [|exact Hok'].
  destruct (start_reserves u d now (db w) x E) as (Hb & E2 & Hmax & _).
  destruct (begin_reserves _ _ _ _ _ Hb) as (Hi & Ha & row & Hrow & Hn & _ & Hx & _).
  destruct Hok as (Hs & Hbd & Hr). destruct Hok' as (_ & _ & Hr').
  unfold posts_ok. cbn [fst snd] in *. rewrite posts_started, Hi.
  case_bool_decide as Eid; [subst id|by split_and!].
  destruct (Hr row Hrow) as [Hpos Hle].
  assert (Forall (λ n, n < attempts x) (posts_of (wd_id d) f)) as Hlt.
  { eapply Forall_impl; [done|]. simpl. lia. }
  split_and!.
  - constructor; [done|]. eapply Forall_impl; [done|]. simpl. lia.
  - constructor; [lia|done].
  - intros row' Hrow'. destruct (Hr' row' Hrow') as [Hpos' Hle']. split; [done|].
    constructor; [|done]. unfold call in Hrow'. simpl in Hrow'. unfold m in *. rewrite E2, Hx in Hrow'.
    injection Hrow' as <-. done.
Qed.

(** Steps while the row of the delivery stays. *)
Definition keeping (id : string) (s s' : world * fleet) : Prop :=
  dstep cfg parse_date s s' ∧ is_Some (wd (db s.1) !! id).

Lemma posts_ok_called id w w' f f' :
  one_call w w' → posts f' = posts f → is_Some (wd (db w) !! id) →
  posts_ok id (w, f) → posts_ok id (w', f').
Proof. intros Hc Hp Hsome Hok. apply (posts_ok_same id w' f f' Hp). by apply (posts_ok_call id w). Qed.

Lemma posts_ok_step id s s' : keeping id s s' → posts_ok id s → posts_ok id s'.
Proof.
  intros [St Hsome] Hok. destruct St; simpl in Hsome; try by apply (posts_ok_same id w f).
  - by apply (posts_ok_called id w w' f f); [right|..].
  - apply (posts_ok_called id w _ f _); [right; apply s_list_exhausted_pending|done..].
  - apply (posts_ok_called id w _ f _); [apply fail_if_exhausted_call|done..].
  - apply (posts_ok_called id w _ f _); [right; apply s_list_due_pending| |done..].
    unfold schedule_due. by destruct (enqueue_due _ _ _ _).
  - apply (posts_ok_same id w f); [|done]. unfold take_work in *. destruct (queue f); by simplify_eq.
  - by apply posts_ok_start.
  - apply (posts_ok_called id w _ f _); [right; apply settle_call|done..].
Qed.

Lemma decreasing_bounded (l : list Z) m :
  0 ≤ m → StronglySorted Z.gt l → Forall (λ n, 1 ≤ n ≤ m) l → Z.of_nat (length l) ≤ m.
Proof.
  intros Hm Hs. revert m Hm. induction Hs as [|a l Hs IH Ha]; intros m Hm Hb; [done|].
  apply Forall_cons in Hb as [Hab Hb]. cbn [length].
  enough (Z.of_nat (length l) ≤ a - 1) by lia. apply IH; [lia|].
  rewrite Forall_forall in *. intros n Hn. specialize (Ha n Hn). specialize (Hb n Hn). lia.
Qed.

(** A receiver is asked a bounded number of times: while the row of a delivery stays,
    the attempts sent for it carry strictly increasing numbers from 1 to
    [max_delivery_attempts], so there are at most that many requests and none repeats a
    number, however the coordinator, the workers, their failures, restarts and the rest of
    the service interleave. *)
Theorem attempts_bounded id s s' row :
  dispatch_config_ok cfg = true → wd (db s.1) !! id = Some row → 0 ≤ w_attempts row →
  posts_of id s.2 = [] → rtc (keeping id) s s' →
  StronglySorted Z.gt (posts_of id s'.2) ∧
  Forall (λ n, 1 ≤ n ≤ _max_delivery_attempts cfg) (posts_of id s'.2) ∧
  Z.of_nat (length (posts_of id s'.2)) ≤ _max_delivery_attempts cfg.
Proof.
  intros Hc Hrow Hpos Hnone Hr.
  assert (posts_ok id s) as Hok.
  { unfold posts_ok. rewrite Hnone. split_and!; try constructor; [congruence|constructor]. }
  apply (rtc_invariant (keeping id) (posts_ok id)) in Hr as (Hs & Hb & _);
    [|by intros; eapply posts_ok_step|done].
  split_and!; try done. apply decreasing_bounded; try done.
  unfold dispatch_config_ok in Hc. boolprop. lia.
Qed.

(** ** No delivery is in two hands *)

Definition held (f : fleet) : list string := map wd_id (queue f) ++ map (λ x, wd_id (work_delivery x)) (busy f).

Record fleet_ok (f : fleet) : Prop := {
  held_once : NoDup (held f);
  held_scheduled id : id ∈ held f ↔ id ∈ scheduled f;
  queue_bounded : (length (queue f) ≤ _dispatch_batch_size cfg)%nat;
  busy_bounded : (length (busy f) ≤ _dispatch_concurrency cfg)%nat;
}.

Lemma enqueue_due_ok b due q ids q' ids' :
  enqueue_due (_dispatch_batch_size cfg) due q ids = (q', ids') →
  NoDup (map wd_id q ++ b) → (∀ id, id ∈ map wd_id q ++ b ↔ id ∈ ids) →
  (length q ≤ _dispatch_batch_size cfg)%nat →
  NoDup (map wd_id q' ++ b) ∧ (∀ id, id ∈ map wd_id q' ++ b ↔ id ∈ ids') ∧
  (length q' ≤ _dispatch_batch_size cfg)%nat.
Proof.
  revert q ids. induction due as [|d due IH]; intros q ids; cbn [enqueue_due]; [by intros [= <- <-]|].
  case_bool_decide as Hin; [by apply IH|].
  destruct (Nat.leb_spec (_dispatch_batch_size cfg) (length q)); [by intros [= <- <-]|].
  intros E Hnd Hids Hlen. apply (IH _ _ E).
  - rewrite map_app, <- app_assoc. rewrite <- Hids in Hin. cbn.
    rewrite <- Permutation_middle. by constructor.
  - intros id. rewrite map_app, <- app_assoc. cbn. specialize (Hids id). set_solver.
  - rewrite length_app. cbn. lia.
Qed.

Lemma held_work l1 x l2 f :
  busy f = l1 ++ x :: l2 → held f ≡ₚ wd_id (work_delivery x) :: map wd_id (queue f) ++ map (λ x, wd_id (work_delivery x)) (l1 ++ l2).
Proof.
  intros E. unfold held. rewrite E, !map_app. cbn [map]. rewrite !app_assoc. symmetry.
  apply Permutation_middle.
Qed.

(** Replacing a worker's state, or ending it. *)
Lemma held_replace l1 x y l2 f :
  busy f = l1 ++ x :: l2 → wd_id (work_delivery y) = wd_id (work_delivery x) →
  fleet_ok f → fleet_ok (set_busy (l1 ++ y :: l2) f).
Proof.
  intros E Hid [Hn Hs Hq Hb]. pose proof (held_work _ _ _ _ E) as Hp.
  assert (held (set_busy (l1 ++ y :: l2) f) ≡ₚ held f) as Hsame.
  { rewrite Hp, (held_work l1 y l2 (set_busy (l1 ++ y :: l2) f) eq_refl), Hid. done. }
  constructor; try done.
  - by rewrite Hsame.
  - intros id. by rewrite Hsame.
  - rewrite E, length_app in Hb. unfold set_busy. cbn [busy]. by rewrite length_app.
Qed.

Lemma fleet_ok_same f f' :
  queue f' = queue f → scheduled f' = scheduled f → busy f' = busy f → fleet_ok f → fleet_ok f'.
Proof.
  intros Hq Hs Hb [N S Q B]. constructor; unfold held in *; rewrite ?Hq, ?Hs, ?Hb; done.
Qed.

Lemma started_id u d now d0 x : (start_attempt cfg u d now d0).1 = Ok (Some x) → wd_id x = wd_id d.
Proof. intros E. destruct (start_reserves _ _ _ _ _ E) as [Hb _]. by apply begin_reserves in Hb as [? _]. Qed.

Lemma fleet_ok_start l1 l2 d r f :
  busy f = l1 ++ Taken d :: l2 → (∀ x, r = Ok (Some x) → wd_id x = wd_id d) →
  fleet_ok f → fleet_ok (started l1 l2 d r f).
Proof.
  intros E Hid Hok. destruct r as [[x|]|e]; try by eapply held_replace.
  apply (fleet_ok_same (set_busy (l1 ++ Sent x :: l2) f)); try done.
  eapply held_replace; [done| |done]. by apply Hid.
Qed.

Lemma fleet_ok_finish l1 l2 d f :
  busy f = l1 ++ Done d :: l2 → fleet_ok f → fleet_ok (finished l1 l2 d f).
Proof.
  intros E [Hn Hs Hq Hb]. pose proof (held_work _ _ _ _ E) as Hp. cbn [work_delivery] in Hp.
  rewrite Hp in Hn. apply NoDup_cons in Hn as [Hnin Hn].
  constructor; try done.
  - intros id. unfold finished. cbn [scheduled]. rewrite elem_of_difference, elem_of_singleton, <- Hs, Hp, elem_of_cons.
    unfold held. cbn [queue busy]. split; [|tauto]. intros Hin. split; [by right|]. intros ->. done.
  - rewrite E, length_app in Hb. unfold finished. cbn [busy]. rewrite length_app. cbn in Hb. lia.
Qed.

Lemma fleet_ok_step s s' : dstep cfg parse_date s s' → fleet_ok s.2 → fleet_ok s'.2.
Proof.
  intros St Hok. destruct St; cbn [fst snd] in *; try done; try by apply (fleet_ok_same f).
  - unfold schedule_due. destruct (enqueue_due _ _ _ _) as [q ids] eqn:E.
    destruct Hok as [Hn Hs Hq Hb]. edestruct (enqueue_due_ok _ _ _ _ _ _ E Hn Hs Hq) as (? & ? & ?).
    by constructor.
  - destruct Hok as [Hn Hs Hq Hb]. unfold take_work, held in *.
    destruct (queue f) as [|d q] eqn:E; simplify_eq. cbn in Hn, Hs, Hq.
    assert (held {| exhausted_left := exhausted_left f; queue := q; scheduled := scheduled f;
                    busy := Taken d :: busy f; posts := posts f |} ≡ₚ
            wd_id d :: map wd_id q ++ map (λ x, wd_id (work_delivery x)) (busy f)) as Hp
      by (unfold held; cbn; by rewrite <- Permutation_middle).
    constructor; cbn [queue busy scheduled]; [by rewrite Hp| |lia|cbn; lia].
    intros id. rewrite Hp. apply Hs.
  - apply fleet_ok_start; [done| |done]. intros x Hx. by eapply started_id.
  - by eapply held_replace.
  - by eapply held_replace; [done|destruct x|].
  - by apply fleet_ok_finish.
  - constructor; cbn; [constructor| |lia..]. intros id. by rewrite elem_of_nil, elem_of_empty.
Qed.

(** The dispatcher never works on a delivery twice at once, and is bounded: in every
    interleaving, the ids queued and in the hands of workers are distinct and are exactly
    the scheduled ones, the queue holds at most a batch and at most [concurrency] workers
    are busy. *)
Theorem one_worker_per_delivery w s :
  rtc (dstep cfg parse_date) (w, fresh_fleet []) s →
  NoDup (held s.2) ∧ (∀ id, id ∈ held s.2 ↔ id ∈ scheduled s.2) ∧
  (length (queue s.2) ≤ _dispatch_batch_size cfg)%nat ∧
  (length (busy s.2) ≤ _dispatch_concurrency cfg)%nat.
Proof.
  intros Hr. assert (fleet_ok (fresh_fleet [])) as H1.
  { constructor; cbn; [constructor| |lia..]. intros id. by rewrite elem_of_nil, elem_of_empty. }
  apply (rtc_invariant _ (λ s, fleet_ok s.2)) in Hr as [? ? ? ?]; [done|intros ??? Hs; by eapply fleet_ok_step|done].
Qed.
End spec.

(** ** The sample delivery, with one attempt allowed *)

Definition sample_dispatch : dispatch_config := {|
  _backoff_base := second; _backoff_max := 30 * second; _max_delivery_attempts := 1;
  _max_delivery_age := 86400 * second; _dispatch_concurrency := 1; _dispatch_batch_size := 2;
  _client_cache_max_size := 4; _client_cache_idle_ttl := 300 * second |}.

Definition no_dates (s : string) : http_date := Unreadable.

Definition sample_read : WebhookDelivery :=
  match webhook_deliveries (db finished_w) !! "d1" with
  | Some row => {| wd_id := "d1"; wd_row := row; wd_url := ""; wd_headers := []; wd_payload := [];
                   wd_last_error := None |}
  | None => {| wd_id := ""; wd_row := delivery_row u0 sample_delivery 0; wd_url := ""; wd_headers := [];
               wd_payload := []; wd_last_error := None |}
  end.

Definition refuse (t : Z) : store unit :=
  _process_delivery sample_dispatch no_dates u0 sample_read t (Response 500 None) (t + 1) (t + 2).
Definition refused_w : world := call finished_w (refuse 40).
Definition refused_again_w : world := call refused_w (refuse 50).

Lemma refused_row :
  ∃ row, webhook_deliveries (db refused_w) !! "d1" = Some row ∧ is_pending row = false ∧
         w_failure_reason row = Some attempt_exhausted.
Proof. vm_compute. eauto. Qed.

Lemma first_row : ∃ row, webhook_deliveries (db finished_w) !! "d1" = Some row ∧ w_attempts row = 0.
Proof. vm_compute. eauto. Qed.

Lemma refused_rounds : rounds sample_dispatch no_dates "d1" 2 finished_w refused_again_w.
Proof.
  refine (rounds_more _ _ "d1" 1 finished_w finished_w refused_again_w u0 sample_read 40 (Response 500 None)
    41 42 (rtc_refl _ _) _ _).
  { intros row Hrow _. unfold sample_read. rewrite Hrow. by constructor. }
  refine (rounds_more _ _ "d1" 0 refused_w refused_w refused_again_w u0 sample_read 50 (Response 500 None)
    51 52 (rtc_refl _ _) _ (rounds_none _ _ _ _ _ (rtc_refl _ _))).
  intros row Hrow Hp. destruct refused_row as (r & Hr & Hr' & _). congruence.
Qed.

Lemma retries_end_witness :
  (∃ row, webhook_deliveries (db refused_w) !! "d1" = Some row ∧ is_pending row = false ∧
          w_failure_reason row = Some attempt_exhausted) ∧
  ((∃ row', webhook_deliveries (db refused_again_w) !! "d1" = Some row' ∧ is_dead row' = true) ∨
   removed_between "d1" finished_w refused_again_w).
Proof.
  split; [exact refused_row|].
  destruct first_row as (row & Hrow & Ha).
  apply (retries_end sample_dispatch no_dates "d1" 2 finished_w refused_again_w row refused_rounds Hrow);
    rewrite Ha; cbn; lia.
Defined.

(** The coordinator schedules it, a worker takes it and sends it. *)
Definition due_call := list_due_pending 40 (_dispatch_batch_size sample_dispatch).
Definition scheduled_f : fleet :=
  schedule_due sample_dispatch (listed (due_call (db finished_w)).1) (fresh_fleet []).
Definition taken_f : fleet := default scheduled_f (take_work scheduled_f).
Definition taken_d : WebhookDelivery := default sample_read (head (queue scheduled_f)).
Definition start_call := start_attempt sample_dispatch u0 taken_d 41.
Definition sent_s : world * fleet :=
  (call (call finished_w due_call) start_call,
   started [] [] taken_d (start_call (db (call finished_w due_call))).1 taken_f).

Lemma sent_steps :
  rtc (keeping sample_dispatch no_dates "d1") (finished_w, fresh_fleet []) sent_s.
Proof.
  apply (rtc_l _ _ (call finished_w due_call, scheduled_f)).
  { split; [|vm_compute; eauto]. unfold scheduled_f, due_call.
    pose proof (f_schedule sample_dispatch no_dates finished_w (fresh_fleet []) 40) as St. exact St. }
  apply (rtc_l _ _ (call finished_w due_call, taken_f)).
  { split; [|vm_compute; eauto].
    refine (f_take sample_dispatch no_dates (call finished_w due_call) scheduled_f taken_f _ _);
      vm_compute; [lia|reflexivity]. }
  apply rtc_once. split; [|vm_compute; eauto]. unfold sent_s, start_call.
  assert (busy taken_f = [] ++ Taken taken_d :: []) as Hb by (vm_compute; reflexivity).
  pose proof (f_start sample_dispatch no_dates (call finished_w due_call) taken_f [] taken_d [] u0 41 Hb) as St.
  exact St.
Qed.

Lemma attempts_bounded_witness :
  posts sent_s.2 = [("d1", 1)] ∧ Z.of_nat (length (posts_of "d1" sent_s.2)) ≤ _max_delivery_attempts sample_dispatch.
Proof.
  split; [vm_compute; reflexivity|].
  destruct first_row as (row & Hrow & E).
  assert (0 ≤ w_attempts row) as Ha by (rewrite E; exact (Z.le_refl 0)).
  pose proof (attempts_bounded sample_dispatch no_dates "d1" (finished_w, fresh_fleet []) sent_s row
    eq_refl Hrow Ha eq_refl sent_steps) as (_ & _ & Hb). exact Hb.
Defined.

Lemma one_worker_per_delivery_witness :
  held sent_s.2 = ["d1"] ∧ NoDup (held sent_s.2) ∧ (length (busy sent_s.2) ≤ 1)%nat.
Proof.
  split; [vm_compute; reflexivity|].
  destruct (one_worker_per_delivery sample_dispatch no_dates finished_w sent_s) as (Hn & _ & _ & Hb).
  - refine (rtc_subrel _ _ _ _ _ sent_steps). intros a b [Hd _]. exact Hd.
  - split; [exact Hn|exact Hb].
Defined.
