(* ===== verification/ClientCache.v ===== *)
(** * The webhook dispatcher's HTTP clients ([webhook/dispatcher.py])

    A bounded cache of clients, one per receiver host. A lease keeps a client from being
    evicted or expired; an eviction makes room for another host. *)

From S2P Require Import Prelude.
Open Scope Z_scope.

Module ClientCache.

(** [_ClientCacheEntry]; a client is its identity. [expiring]: an expiry task is set. *)
Record entry := { client : Z; last_used_at : Z; in_flight : Z; expiring : bool }.
Abbreviation cache := (gmap string entry).

Inductive acquired :=
| Leased (client : Z) (evicted : option Z)
| MustWait
| NotDistinct (evicted : option Z) (closes_made : bool).

(** [min(idle)]: the least recently used entry without leases, ties by host name. *)
Definition older (a b : string * entry) : bool :=
  (last_used_at a.2 <? last_used_at b.2) ||
  ((last_used_at a.2 =? last_used_at b.2) && String.leb a.1 b.1).
Definition idle (m : cache) : list (string * entry) :=
  filter (λ x, in_flight x.2 = 0) (map_to_list m).

Definition uses (m : cache) (c : Z) : Prop := map_Exists (λ _ e, client e = c) m.

(** [_acquire_client], one pass under the lock; [made] is what the factory returns. *)
Definition acquire_new (host : string) (now made : Z) (evicted : option Z) (m : cache) : acquired * cache :=
  if bool_decide (evicted = Some made) then (NotDistinct evicted true, m)
  else if bool_decide (uses m made) then (NotDistinct evicted false, m)
  else (Leased made evicted,
        <[host := {| client := made; last_used_at := now; in_flight := 1; expiring := false |}]> m).

Definition _acquire_client (max_size : nat) (host : string) (now made : Z) (m : cache) : acquired * cache :=
  match m !! host with
  | Some e =>
      (Leased (client e) None,
       <[host := {| client := client e; last_used_at := now; in_flight := in_flight e + 1;
                    expiring := false |}]> m)
  | None =>
      if (max_size <=? size m)%nat then
        match list_least older (idle m) with
        | None => (MustWait, m)
        | Some (h, e) => acquire_new host now made (Some (client e)) (delete h m)
        end
      else acquire_new host now made None m
  end.

Definition _release_client (host : string) (c now : Z) (m : cache) : cache :=
  match m !! host with
  | Some e =>
      if bool_decide (client e = c) then
        let n := Z.max 0 (in_flight e - 1) in
        <[host := {| client := c; last_used_at := now; in_flight := n;
                     expiring := if n =? 0 then true else expiring e |}]> m
      else m
  | None => m
  end.

(** [_expire_idle_client] after its sleep, for the entry of client [c]. *)
Definition _expire_idle_client (host : string) (c : Z) (m : cache) : option Z * cache :=
  match m !! host with
  | Some e => if bool_decide (client e = c) && (in_flight e =? 0) then (Some c, delete host m) else (None, m)
  | None => (None, m)
  end.

(** ** Use of the cache *)

Record pool := { entries : cache; leases : list (string * Z); closed : gset Z }.

Definition close (c : option Z) (s : gset Z) : gset Z :=
  match c with Some c => {[ c ]} ∪ s | None => s end.

(** What the caller holds and what is closed after a pass. *)
Definition after_acquire (host : string) (made : Z) (r : acquired * cache) (p : pool) : pool :=
  match r.1 with
  | Leased c evicted => {| entries := r.2; leases := (host, c) :: leases p; closed := close evicted (closed p) |}
  | MustWait => {| entries := r.2; leases := leases p; closed := closed p |}
  | NotDistinct evicted closes =>
      {| entries := r.2; leases := leases p;
         closed := if closes then close (Some made) (closed p) else closed p |}
  end.

(** The factory returns clients that are not closed. *)
Inductive pstep (max_size : nat) (p : pool) : pool → Prop :=
| p_acquire host now made :
    made ∉ closed p → pstep max_size p (after_acquire host made (_acquire_client max_size host now made (entries p)) p)
| p_release l1 host c l2 now :
    leases p = l1 ++ (host, c) :: l2 →
    pstep max_size p {| entries := _release_client host c now (entries p); leases := l1 ++ l2; closed := closed p |}
| p_expire host c :
    let r := _expire_idle_client host c (entries p) in
    pstep max_size p {| entries := r.2; leases := leases p; closed := close r.1 (closed p) |}.

Definition no_clients : pool := {| entries := ∅; leases := []; closed := ∅ |}.

(** ** Leased clients stay open *)

Definition lease_count (host : string) (l : list (string * Z)) : Z :=
  Z.of_nat (length (filter (λ x, x.1 = host) l)).

Record pool_ok (max_size : nat) (p : pool) : Prop := {
  counted host e : entries p !! host = Some e → in_flight e = lease_count host (leases p);
  leased host c : (host, c) ∈ leases p → ∃ e, entries p !! host = Some e ∧ client e = c;
  still_open host e : entries p !! host = Some e → client e ∉ closed p;
  isolated h h' e e' : entries p !! h = Some e → entries p !! h' = Some e' → client e = client e' → h = h';
  bounded : (size (entries p) ≤ max_size)%nat;
}.

Lemma lease_count_cons host h c l :
  lease_count host ((h, c) :: l) = lease_count host l + (if bool_decide (h = host) then 1 else 0).
Proof. unfold lease_count. rewrite filter_cons. cbn. case_decide; case_bool_decide; cbn; try done; lia. Qed.

Lemma lease_count_middle host l1 h c l2 :
  lease_count host (l1 ++ (h, c) :: l2) = lease_count host (l1 ++ l2) + (if bool_decide (h = host) then 1 else 0).
Proof.
  unfold lease_count. rewrite !filter_app, filter_cons, !length_app. cbn.
  case_decide; case_bool_decide; cbn; try done; lia.
Qed.

Lemma lease_count_nonneg host l : 0 ≤ lease_count host l.
Proof. unfold lease_count. lia. Qed.

Lemma no_lease host l : lease_count host l = 0 → ∀ c, (host, c) ∉ l.
Proof.
  unfold lease_count. intros Hl c Hin.
  assert ((host, c) ∈ filter (λ x, x.1 = host) l) as Hf by by apply list_elem_of_filter.
  apply list_elem_of_split in Hf as (? & ? & E). rewrite E, length_app in Hl. cbn in Hl. lia.
Qed.

Lemma not_used m c : ¬ uses m c → ∀ h e, m !! h = Some e → client e ≠ c.
Proof. intros Hn h e He Hc. apply Hn. by exists h, e. Qed.

(** Dropping an entry nobody leases, and closing its client. *)
Lemma pool_ok_drop max p host e :
  pool_ok max p → entries p !! host = Some e → in_flight e = 0 →
  pool_ok max {| entries := delete host (entries p); leases := leases p; closed := close (Some (client e)) (closed p) |}.
Proof.
  intros [C L O I B] He Hf. constructor; cbn.
  - intros h x [_ Hx]%lookup_delete_Some. eauto.
  - intros h c Hin. destruct (L h c Hin) as (x & Hx & Hc). exists x. split; [|done].
    apply lookup_delete_Some. split; [|done]. intros ->.
    rewrite He in Hx. injection Hx as ->. eapply no_lease; [|exact Hin]. by rewrite <- (C _ _ He).
  - intros h x [Hne Hx]%lookup_delete_Some. rewrite elem_of_union, elem_of_singleton.
    intros [E|Hin]; [|by eapply O]. apply Hne. symmetry. by apply (I h host x e).
  - intros h h' x x' [_ Hx]%lookup_delete_Some [_ Hx']%lookup_delete_Some. eauto.
  - rewrite map_size_delete, He. cbn. lia.
Qed.

(** Knowing less of what is closed. *)
Lemma pool_ok_less max m l s s' :
  s' ⊆ s → pool_ok max {| entries := m; leases := l; closed := s |} →
  pool_ok max {| entries := m; leases := l; closed := s' |}.
Proof. intros Hs [C L O I B]. constructor; try done. cbn in *. intros h e He Hin. eapply O; eauto. Qed.

(** A client for a host without one. *)
Lemma pool_ok_insert max p host now made :
  pool_ok max p → entries p !! host = None → (size (entries p) < max)%nat → made ∉ closed p →
  ¬ uses (entries p) made →
  pool_ok max
    {| entries := <[host := {| client := made; last_used_at := now; in_flight := 1; expiring := false |}]> (entries p);
       leases := (host, made) :: leases p; closed := closed p |}.
Proof.
  intros [C L O I B] Hn Hsize Hm Hu. pose proof (not_used _ _ Hu) as Hfresh.
  assert (lease_count host (leases p) = 0) as H0.
  { unfold lease_count. destruct (filter _ _) as [|[h c] l] eqn:E; [done|].
    assert ((h, c) ∈ filter (λ x : string * Z, x.1 = host) (leases p)) as Hin by (rewrite E; left).
    apply list_elem_of_filter in Hin as [Eh Hin]. cbn in Eh. subst h. apply L in Hin as (e & He & _). congruence. }
  constructor; cbn.
  - intros h e He. rewrite lease_count_cons. apply lookup_insert_Some in He as [[<- <-]|[Hne He]].
    + rewrite bool_decide_true by done. cbn. lia.
    + rewrite bool_decide_false by done. rewrite (C h e He). lia.
  - intros h c [[= -> ->]|Hin]%elem_of_cons; [rewrite lookup_insert_eq; eauto|].
    destruct (L h c Hin) as (e & He & Hc). exists e. split; [|done].
    rewrite lookup_insert_ne; [done|congruence].
  - intros h e [[<- <-]|[_ He]]%lookup_insert_Some; [done|eauto].
  - intros h h' e e' [[<- <-]|[_ He]]%lookup_insert_Some [[<- <-]|[_ He']]%lookup_insert_Some; cbn; try done.
    + intros Ec. exfalso. by apply (Hfresh _ _ He').
    + intros Ec. exfalso. by apply (Hfresh _ _ He).
    + by apply I.
  - rewrite map_size_insert, Hn. lia.
Qed.

(** One more, or one fewer, lease of an entry. *)
Lemma pool_ok_relet max p host e e' l :
  pool_ok max p → entries p !! host = Some e → client e' = client e →
  in_flight e' = lease_count host l → (∀ h, h ≠ host → lease_count h l = lease_count h (leases p)) →
  (∀ h c, (h, c) ∈ l → (h, c) ∈ leases p ∨ (h = host ∧ c = client e)) →
  pool_ok max {| entries := <[host := e']> (entries p); leases := l; closed := closed p |}.
Proof.
  intros [C L O I B] He Hc Hf Hothers Hl. constructor; cbn.
  - intros h x [[<- <-]|[Hne Hx]]%lookup_insert_Some; [done|]. rewrite (C h x Hx). symmetry. by apply Hothers.
  - intros h c Hin. destruct (decide (h = host)) as [->|Hne].
    + rewrite lookup_insert_eq. exists e'. split; [done|]. rewrite Hc.
      destruct (Hl _ _ Hin) as [Hin'|[_ ->]]; [|done]. destruct (L _ _ Hin') as (x & Hx & <-). congruence.
    + rewrite lookup_insert_ne by done. destruct (Hl _ _ Hin) as [Hin'|[? _]]; [eauto|done].
  - intros h x [[<- <-]|[_ Hx]]%lookup_insert_Some; [rewrite Hc|]; eauto.
  - intros h h' x x' [[<- <-]|[Hn Hx]]%lookup_insert_Some [[<- <-]|[Hn' Hx']]%lookup_insert_Some; rewrite ?Hc; eauto.
  - rewrite map_size_insert, He. done.
Qed.

Lemma pool_ok_acquire_new max p host now made evicted :
  pool_ok max p → entries p !! host = None → (size (entries p) < max)%nat → made ∉ closed p →
  (∀ c, evicted = Some c → ¬ uses (entries p) c) →
  pool_ok max (after_acquire host made (acquire_new host now made evicted (entries p)) p).
Proof.
  intros Hok Hn Hsize Hm Hev. unfold acquire_new.
  assert (pool_ok max {| entries := entries p; leases := leases p; closed := close evicted (closed p) |}) as Hok'.
  { destruct Hok as [C L O I B]. constructor; try done. cbn. intros h e He. destruct evicted as [c|]; [|eauto].
    cbn. rewrite elem_of_union, elem_of_singleton. intros [Ec|Hin]; [|by eapply O].
    by apply (not_used _ _ (Hev c eq_refl) _ _ He). }
  case_bool_decide as E1; [subst evicted; exact Hok'|].
  case_bool_decide as E2; [by destruct p|].
  apply (pool_ok_insert max {| entries := entries p; leases := leases p; closed := close evicted (closed p) |}); try done.
  cbn. destruct evicted as [c|]; [|done]. cbn. rewrite elem_of_union, elem_of_singleton. naive_solver.
Qed.

Lemma pool_ok_acquire max p host now made :
  pool_ok max p → made ∉ closed p →
  pool_ok max (after_acquire host made (_acquire_client max host now made (entries p)) p).
Proof.
  intros Hok Hm. unfold _acquire_client. destruct (entries p !! host) as [e|] eqn:He.
  { apply (pool_ok_relet max p host e); try done; cbn.
    - rewrite lease_count_cons, bool_decide_true by done. by rewrite (counted _ _ Hok _ _ He).
    - intros h Hne. rewrite lease_count_cons, bool_decide_false by done. lia.
    - intros h c [[= -> ->]|?]%elem_of_cons; auto. }
  destruct (Nat.leb_spec max (size (entries p))); [|by apply pool_ok_acquire_new].
  destruct (list_least older (idle (entries p))) as [[h e]|] eqn:Hl; [|by destruct p].
  apply list_least_elem in Hl. unfold idle in Hl.
  apply list_elem_of_filter in Hl as [Hf Hin%elem_of_map_to_list]. cbn in Hf.
  assert (pool_ok max {| entries := delete h (entries p); leases := leases p; closed := closed p |}) as Hok'.
  { apply (pool_ok_less max _ _ (close (Some (client e)) (closed p))); [cbn; set_solver|].
    by apply (pool_ok_drop max p h e). }
  refine (pool_ok_acquire_new max {| entries := delete h (entries p); leases := leases p; closed := closed p |}
            host now made (Some (client e)) Hok' _ _ Hm _); cbn.
  - rewrite lookup_delete_ne; [done|congruence].
  - rewrite map_size_delete, Hin. cbn. pose proof (bounded _ _ Hok).
    assert (size (entries p) ≠ 0%nat) by (apply map_size_non_empty_iff; intros E; by rewrite E in Hin). lia.
  - intros c [= <-] (h' & x & [Hne Hx]%lookup_delete_Some & Hc). by apply Hne, (isolated _ _ Hok h h' e x).
Qed.

Lemma pool_ok_step max p p' : pstep max p p' → pool_ok max p → pool_ok max p'.
Proof.
  intros St Hok. destruct St as [host now made Hm|l1 host c l2 now El|host c].
  - by apply pool_ok_acquire.
  - destruct (leased _ _ Hok host c) as (e & He & Hc).
    { rewrite El. apply elem_of_app. right. left. }
    unfold _release_client. rewrite He, bool_decide_true by done.
    pose proof (counted _ _ Hok _ _ He) as Hn. rewrite El, lease_count_middle, bool_decide_true in Hn by done.
    pose proof (lease_count_nonneg host (l1 ++ l2)).
    apply (pool_ok_relet max p host e); try done; cbn.
    + lia.
    + intros h Hne. rewrite El, lease_count_middle, bool_decide_false by done. lia.
    + intros h c' Hin. left. rewrite El. set_solver.
  - unfold r, _expire_idle_client. destruct (entries p !! host) as [e|] eqn:He; [|by destruct p].
    case_bool_decide as Hc; [|by destruct p]. destruct (Z.eqb_spec (in_flight e) 0); [|by destruct p].
    subst c. by apply pool_ok_drop.
Qed.

(** A leased HTTP client is never closed under its request: however leases, returns,
    evictions and idle expiries interleave, the client of every lease is open, is the one
    cached for that host and for no other host, and the cache never holds more than
    [client_cache_max_size] clients. *)
Theorem leased_clients_stay_open max p host c :
  rtc (pstep max) no_clients p → (host, c) ∈ leases p →
  c ∉ closed p ∧ (size (entries p) ≤ max)%nat ∧
  (∃ e, entries p !! host = Some e ∧ client e = c ∧ 1 ≤ in_flight e) ∧
  (∀ h e, entries p !! h = Some e → client e = c → h = host).
Proof.
  intros Hr Hin. assert (pool_ok max p) as [C L O I B].
  { apply (rtc_invariant (pstep max) (pool_ok max)) in Hr; [done|intros; by eapply pool_ok_step|].
    constructor; cbn; try done; [by intros h c' ?%elem_of_nil|]. rewrite map_size_empty. lia. }
  destruct (L host c Hin) as (e & He & <-). split_and!; eauto.
  exists e. split_and!; try done. rewrite (C host e He).
  pose proof (lease_count_nonneg host (leases p)).
  destruct (decide (lease_count host (leases p) = 0)) as [H0|]; [|lia]. by destruct (no_lease _ _ H0 (client e)).
Qed.

(** Two hosts share one slot in turn: the first client is evicted when it is idle. *)
Definition pool_a : pool := after_acquire "a" 1 (_acquire_client 1 "a" 10 1 ∅) no_clients.
Definition pool_idle : pool :=
  {| entries := _release_client "a" 1 11 (entries pool_a); leases := []; closed := closed pool_a |}.
Definition sample_pool : pool := after_acquire "b" 2 (_acquire_client 1 "b" 12 2 (entries pool_idle)) pool_idle.

Lemma sample_pool_reachable : rtc (pstep 1) no_clients sample_pool.
Proof.
  apply (rtc_l _ _ pool_a); [apply (p_acquire 1 no_clients "a" 10 1), not_elem_of_empty|].
  apply (rtc_l _ _ pool_idle); [apply (p_release 1 pool_a [] "a" 1 [] 11); vm_compute; reflexivity|].
  apply rtc_once, (p_acquire 1 pool_idle "b" 12 2). vm_compute. done.
Qed.

Lemma leased_clients_stay_open_witness :
  leases sample_pool = [("b", 2)] ∧ closed sample_pool = {[ 1 ]} ∧ 2 ∉ closed sample_pool.
Proof.
  split; [vm_compute; reflexivity|]. split; [vm_compute; reflexivity|].
  apply (leased_clients_stay_open 1 sample_pool "b" 2 sample_pool_reachable). left.
Defined.
End ClientCache.
