(* ===== verification/Ownership.v ===== *)
(** * A claimed run

    What a worker that claimed a run may rely on, whatever the rest of the service does:
    the run belongs to its job for good, it is active exactly while its row is running, and
    a run of its that is not running any more has ended. An attempt to finish or to fail it
    with a valid delivery, while its heartbeat is newer than the cutoff, always ends it. *)

From S2P Require Import Prelude.
From S2P Require Import Envelope.
From S2P Require Import Rows.
From S2P Require Import JobDb.
From S2P Require Import JobModel.
From S2P Require Import Tx.
From S2P Require Import Json.
From S2P Require Import Outbox.
From S2P Require Import JobTerminal.
From S2P Require Import JobRecovery.
From S2P Require Import JobStore.
From S2P Require Import TxStore.
From S2P Require Import JobRuns.
From S2P Require Import Lifecycle.
From S2P Require Import LifecycleStore.
From S2P Require Import RunSpec.
From S2P Require Import System.
From S2P Require Import Guarantees.
Open Scope Z_scope.

(** ** In the lifecycle *)

Record owned (jid rid : string) (a : astate) : Prop := {
  ow_claimed : claimed rid a;
  ow_current jid' s : a_jobs a !! jid' = Some (s, Some rid) → jid' = jid;
  ow_run r : a_runs a !! rid = Some r → a_job r = jid;
}.

Lemma owned_current_step jid rid a a' jid' s :
  owned jid rid a → astep a a' → a_jobs a' !! jid' = Some (s, Some rid) → jid' = jid.
Proof.
  intros [[CU CQ] OC OR] St. destruct St; simpl in *; intros; lookups; unfold drawn in *;
    try (match goal with Hj : _ !! _ = Some (_, Some rid) |- _ => exact (OC _ _ Hj) end); naive_solver.
Qed.

Lemma owned_run_step jid rid a a' r :
  owned jid rid a → astep a a' → a_runs a' !! rid = Some r → a_job r = jid.
Proof.
  intros [[CU CQ] OC OR] St. destruct St; simpl in *; intros; lookups; unfold drawn in *;
    try (match goal with Hr : a_runs _ !! _ = Some _ |- _ => exact (OR _ Hr)
                       | Hr : _ !! _ = Some ?r |- a_job ?r = _ => exact (OR _ Hr)
                       | Hj : _ !! _ = Some (_, Some _) |- _ => exact (OC _ _ Hj) end); try done.
  all: try naive_solver.
  etrans; [eassumption|by eapply OR].
Qed.

Lemma owned_step jid rid a a' : owned jid rid a → astep a a' → owned jid rid a'.
Proof.
  intros O St. constructor.
  - eapply claimed_step; [apply O|done].
  - intros. by eapply owned_current_step.
  - intros. by eapply owned_run_step.
Qed.

Lemma owned_rtc jid rid a a' : owned jid rid a → rtc astep a a' → owned jid rid a'.
Proof. intros O St. eapply (rtc_invariant astep); eauto using owned_step. Qed.

Lemma owned_idle_ended jid rid a :
  consistent a → owned jid rid a → (∀ r, a_runs a !! rid = Some r → a_status r ≠ running) → ended rid a.
Proof.
  intros C O Hr. constructor; [apply O| |done].
  intros jid' s Hj. split; [by eapply claimed_not_queued; [apply O|]|]. intros ->.
  destruct (running_has_run a C _ _ Hj) as (rid' & r & [= <-] & Hrun & _ & Hs). by apply (Hr r).
Qed.

(** ** In the database *)

Section ownership.
Context `{Vault} `{JsonText}.
Implicit Types w : world.

Lemma absw_idle w rid :
  (∀ r, job_runs (db w) !! rid = Some r → r_status r ≠ running) →
  ∀ ar, a_runs (absw w) !! rid = Some ar → a_status ar ≠ running.
Proof. intros Hr ar (r & Hrun & ->)%absw_run_inv. by apply Hr. Qed.

Lemma idle_run_ended w jid rid :
  rtc sstep initial w → owned jid rid (absw w) →
  (∀ r, job_runs (db w) !! rid = Some r → r_status r ≠ running) → ended rid (absw w).
Proof. intros C%reachable_consistent O Hr. eapply owned_idle_ended; [done..|by apply absw_idle]. Qed.

Lemma owned_run_job w jid rid r :
  owned jid rid (absw w) → job_runs (db w) !! rid = Some r → r_job_id r = jid.
Proof. intros O Hr%absw_run. by apply (ow_run _ _ _ O) in Hr. Qed.

(** The job of a running run that is owned. *)
Lemma owned_running w jid rid r :
  rtc sstep initial w → owned jid rid (absw w) → job_runs (db w) !! rid = Some r → r_status r = running →
  r_job_id r = jid ∧ ∃ j, jobs (db w) !! jid = Some j ∧ j_status j = running ∧ j_current_run_id j = Some rid.
Proof.
  intros C%reachable_consistent O Hr Hs. pose proof (owned_run_job _ _ _ _ O Hr) as Hj. split; [done|].
  pose proof (running_is_current _ C _ _ (absw_run _ _ _ Hr) Hs) as Hc. cbn in Hc. rewrite Hj in Hc.
  by apply absw_job_inv in Hc.
Qed.

Lemma inactive_ended w jid rid :
  rtc sstep initial w → owned jid rid (absw w) → run_is_active jid rid (db w) = false → ended rid (absw w).
Proof.
  intros C O Ha. apply (idle_run_ended w jid); [done..|]. intros r Hr Hs.
  destruct (owned_running w jid rid r C O Hr Hs) as (Hj & j & Hjob & Hst & Hc).
  unfold run_is_active, owned_as, current_run in Ha. rewrite Hjob, Hst, Hc, Hr in Ha.
  rewrite (proj2 (opt_eqb_true (Some rid) rid) eq_refl), !bool_decide_true in Ha by done.
  cbn in Ha. congruence.
Qed.

Lemma ended_call w w' rid : ended rid (absw w) → rtc sstep w w' → ended rid (absw w').
Proof. intros E St. eapply ended_rtc; [done|]. by apply sstep_rtc_sim. Qed.
Lemma owned_call w w' jid rid : owned jid rid (absw w) → rtc sstep w w' → owned jid rid (absw w').
Proof. intros E St. eapply owned_rtc; [done|]. by apply sstep_rtc_sim. Qed.

Lemma claim_makes_owned w u rid jid trigger h t :
  rtc sstep initial w → (claim_run u rid jid trigger h t (db w)).1 = Ok true →
  owned jid rid (absw (call w (claim_run u rid jid trigger h t))).
Proof.
  intros Hw Hok. pose proof (claim_makes_claimed _ _ _ _ _ _ _ Hw Hok) as Hcl.
  set (w' := call w (claim_run u rid jid trigger h t)) in *.
  assert (consistent (absw w')) as C.
  { eapply reachable_trans; [done|]. apply rtc_once, s_claim_run. }
  destruct (claim_run_true _ _ _ _ _ _ _ Hok) as (j & c & Hc).
  assert (∃ s, a_jobs (absw w') !! jid = Some (s, Some rid)) as [s Hj].
  { exists running. cbn. rewrite (claimable_runs u _ _ _ _ t _ _ _ Hc), lookup_fmap. cbn.
    rewrite lookup_alter_eq, lookup_insert_eq. cbn. rewrite abs_job_eq. cbn.
    by destruct (proj1 (owned_as_true _ _ _) (cl_owned _ _ _ _ _ _ _ Hc)) as [_ ->]. }
  constructor; [done| |].
  - intros jid' s' Hj'. by eapply (current_unique _ C jid).
  - intros r Hr. by eapply (current_owner _ C).
Qed.

(** ** Ending a run *)

Lemma running_or_idle d rid :
  (∃ r, job_runs d !! rid = Some r ∧ r_status r = running) ∨
  (∀ r, job_runs d !! rid = Some r → r_status r ≠ running).
Proof.
  destruct (job_runs d !! rid) as [r|]; [|by right].
  destruct (decide (r_status r = running)); [left; eauto|right; naive_solver].
Qed.

Lemma fail_owned_running u jid rid t cutoff n dl d j r :
  jobs d !! jid = Some j → j_status j = running → j_current_run_id j = Some rid →
  job_runs d !! rid = Some r → r_job_id r = jid → r_status r = running →
  (∀ c, cutoff = Some c → opt_gtb (r_heartbeat_at r) c = true) →
  check_delivery dl jid rid failed = Ok tt → intent_matches dl = true →
  (fail_owned_run u jid rid t cutoff n dl d).1 = Ok tt.
Proof.
  intros Hj Hs Hc Hr Ho Hrs Hh Hd Hi. unfold fail_owned_run. rewrite Hd.
  assert (owned_as running rid j = true) as Hoj by by apply owned_as_true.
  assert (match cutoff with Some c => opt_gtb (r_heartbeat_at r) c | None => true end = true) as Hb
    by (destruct cutoff as [c|]; [by apply Hh|done]).
  match goal with |- (transaction ?b d).1 = _ =>
    apply (tx_transaction b d (λ x d', x = Ok tt)) end.
  apply tx_bind_query. cbn beta. rewrite Hj, Hs, Hc, (proj2 (opt_eqb_true (Some rid) rid) eq_refl). cbn iota.
  txs; repeat match goal with
  | Hu : ∀ j, jobs _ !! _ = Some j → _ = false |- _ => rewrite (Hu j Hj) in Hoj; discriminate
  | Hu : ∀ r, job_runs _ !! _ = Some r → _ |- _ =>
      specialize (Hu r Hr Ho); rewrite bool_decide_true in Hu by done; cbn [andb] in Hu;
      rewrite Hb in Hu; discriminate
  end; try done; congruence.
Qed.

Lemma fail_owned_ends w u jid rid t cutoff n d :
  rtc sstep initial w → owned jid rid (absw w) →
  check_delivery d jid rid failed = Ok tt → intent_matches d = true →
  (∀ r c, job_runs (db w) !! rid = Some r → r_status r = running → cutoff = Some c →
     opt_gtb (r_heartbeat_at r) c = true) →
  ended rid (absw (call w (fail_owned_run u jid rid t cutoff n d))).
Proof.
  intros C O Hd Hi Hh.
  assert (sstep w (call w (fail_owned_run u jid rid t cutoff n d))) as St by apply s_fail_owned_run.
  destruct (running_or_idle (db w) rid) as [(r & Hr & Hs)|Hno].
  - destruct (owned_running w jid rid r C O Hr Hs) as (Ho & j & Hj & Hst & Hc).
    assert ((fail_owned_run u jid rid t cutoff n d (db w)).1 = Ok tt) as Hok.
    { eapply fail_owned_running; eauto. }
    destruct (fail_owned_ok _ _ _ _ _ _ _ _ Hok) as (_ & j' & _ & _ & _ & Hj' & Hc' & Hf').
    eapply (ended_later _ _ jid rid j'); [by eapply rtc_r| exact Hj' | exact Hc' | by rewrite Hf' | done].
  - eapply ended_call; [|by apply rtc_once]. by apply (idle_run_ended w jid).
Qed.

Lemma finalize_ends w u jid rid s n e t cutoff d :
  rtc sstep initial w → owned jid rid (absw w) → is_terminal s = true →
  check_delivery d jid rid s = Ok tt → intent_matches d = true →
  (∀ r, job_runs (db w) !! rid = Some r → r_status r = running → opt_gtb (r_heartbeat_at r) cutoff = true) →
  ended rid (absw (call w (finalize_owned_run u jid rid s n e t cutoff d))).
Proof.
  intros C O Hterm Hd Hi Hh.
  assert (sstep w (call w (finalize_owned_run u jid rid s n e t cutoff d))) as St by apply s_finalize_owned_run.
  destruct (running_or_idle (db w) rid) as [(r & Hr & Hs)|Hno].
  - destruct (owned_running w jid rid r C O Hr Hs) as (Ho & j & Hj & Hst & Hc).
    assert (finishable (db w) jid rid s cutoff d j r) as Hf.
    { constructor; try done; [by apply owned_as_true|by apply Hh]. }
    eapply (ended_later _ _ jid rid (finish_job s t j)); [by eapply rtc_r| | | |done].
    + cbn. rewrite (finishable_finishes u _ _ _ n e t _ _ _ _ _ Hf). cbn. by rewrite lookup_insert_eq.
    + done.
    + by destruct s.
  - eapply ended_call; [|by apply rtc_once]. by apply (idle_run_ended w jid).
Qed.
End ownership.
