(* ===== verification/Proc.v ===== *)
(** * Asynchronous procedures

    A coroutine of the service is a sequence of awaited calls. Each call is atomic; between
    two of them the rest of the service runs ([rely]), and the task may be cancelled: before
    the call, or after it took effect but before its result arrives. A call on a channel
    that may fail can raise, with or without its effect. [runs] is what can happen to a
    procedure under a bounded number of cancellations; [wp] is the rule to reason about
    it. *)

From S2P Require Import Prelude.
From S2P Require Import Queue.
From S2P Require Import Budget.
From S2P Require Import JobDb.

(** What a coroutine raises. [except Exception] catches all but [Cancelled]. *)
Inductive exn :=
| Cancelled
| InStore (e : store_error)
| InQueue (e : queue_error)
| BudgetStop (e : Budget.BudgetExceeded)
| LeaseLost (reason : string)
| Broken (type : string).

Definition is_cancelled (e : exn) : bool := match e with Cancelled => true | _ => false end.

(** What the parts called raise, as exceptions of the caller. *)
Definition in_store {A} (o : outcome store_error A) : outcome exn A :=
  match o with Ok a => Ok a | Raise e => Raise (InStore e) end.
Definition in_budget {A} (o : outcome Budget.budget_error A) : outcome exn A :=
  match o with
  | Ok a => Ok a
  | Raise (Budget.Exceeded e) => Raise (BudgetStop e)
  | Raise (Budget.ValueError _) => Raise (Broken "ValueError")
  end.

Definition in_queue {A} (o : outcome queue_error A) : outcome exn A :=
  match o with Ok a => Ok a | Raise e => Raise (InQueue e) end.
Definition in_library {A} (o : outcome string A) : outcome exn A :=
  match o with Ok a => Ok a | Raise e => Raise (Broken e) end.

(** What is called: the job store, the result store, the error store, Redis, the rest. *)
Inductive channel := JobChannel | ResultChannel | ErrorChannel | QueueChannel | OtherChannel.

Section proc.
Context {S : Type}.

(** [Local]: synchronous code; no other task runs and no cancellation arrives. [shielded]:
    the task awaits under [shield], which keeps the first cancellation away. *)
Inductive proc (A : Type) : Type :=
| Return (a : A)
| Throw (e : exn)
| Local {B} (m : prog S exn B) (k : outcome exn B → proc A)
| Await (c : channel) (shielded : bool) {B} (m : prog S exn B) (k : outcome exn B → proc A).
Arguments Return {A} a.
Arguments Throw {A} e.
Arguments Local {A B} m k.
Arguments Await {A} c shielded {B} m k.

Definition of_outcome {A} (o : outcome exn A) : proc A :=
  match o with Ok a => Return a | Raise e => Throw e end.
Definition local {A} (m : prog S exn A) : proc A := Local m of_outcome.
Definition await {A} (c : channel) (m : prog S exn A) : proc A := Await c false m of_outcome.

(** [try: p except BaseException as e: ...], the handler getting the outcome. *)
Fixpoint attempt {A B} (p : proc A) (k : outcome exn A → proc B) : proc B :=
  match p with
  | Return a => k (Ok a)
  | Throw e => k (Raise e)
  | Local m c => Local m (λ o, attempt (c o) k)
  | Await ch sh m c => Await ch sh m (λ o, attempt (c o) k)
  end.

Definition bind {A B} (p : proc A) (k : A → proc B) : proc B :=
  attempt p (λ o, match o with Ok a => k a | Raise e => Throw e end).

(** [try: p except Exception as e: h e] *)
Definition except {A} (p : proc A) (h : exn → proc A) : proc A :=
  attempt p (λ o, match o with
                  | Ok a => Return a
                  | Raise e => if is_cancelled e then Throw e else h e
                  end).

Fixpoint shield {A} (p : proc A) : proc A :=
  match p with
  | Return a => Return a
  | Throw e => Throw e
  | Local m c => Local m (λ o, shield (c o))
  | Await ch _ m c => Await ch true m (λ o, shield (c o))
  end.

(** ** Executions *)

Section runs.
Context (rely : S → S → Prop) (fails : channel → Prop).

(** Of [n] cancellations, one is used where it hits; a shielded call takes two. *)
Inductive runs {A} : nat → proc A → S → outcome exn A → S → Prop :=
| run_return n a s : runs n (Return a) s (Ok a) s
| run_throw n e s : runs n (Throw e) s (Raise e) s
| run_local n B (m : prog S exn B) k s o s' :
    runs n (k (m s).1) (m s).2 o s' → runs n (Local m k) s o s'
| run_await n c sh B (m : prog S exn B) k s s1 o s' :
    rtc rely s s1 → runs n (k (m s1).1) (m s1).2 o s' → runs n (Await c sh m k) s o s'
| run_cancel_before n c sh B (m : prog S exn B) k s s1 o s' :
    rtc rely s s1 → runs n (k (Raise Cancelled)) s1 o s' →
    runs (if sh : bool then 2 + n else 1 + n) (Await c sh m k) s o s'
| run_cancel_after n c sh B (m : prog S exn B) k s s1 o s' :
    rtc rely s s1 → runs n (k (Raise Cancelled)) (m s1).2 o s' →
    runs (if sh : bool then 2 + n else 1 + n) (Await c sh m k) s o s'
| run_fail n c sh B (m : prog S exn B) k s s1 e o s' :
    fails c → rtc rely s s1 → runs n (k (Raise (Broken e))) s1 o s' → runs n (Await c sh m k) s o s'
| run_fail_after n c sh B (m : prog S exn B) k s s1 e o s' :
    fails c → rtc rely s s1 → runs n (k (Raise (Broken e))) (m s1).2 o s' →
    runs n (Await c sh m k) s o s'.

(** ** Weakest preconditions *)

(** The cancellations left after one hits, if one can. *)
Definition spend (shielded : bool) (n : nat) : option nat :=
  match shielded, n with
  | false, Datatypes.S n | true, Datatypes.S (Datatypes.S n) => Some n
  | _, _ => None
  end.

(** The postcondition also says how many cancellations are left. *)
Fixpoint wp {A} (p : proc A) (n : nat) (Q : nat → outcome exn A → S → Prop) (s : S) : Prop :=
  match p with
  | Return a => Q n (Ok a) s
  | Throw e => Q n (Raise e) s
  | Local m k => wp (k (m s).1) n Q (m s).2
  | Await c sh m k => ∀ s1, rtc rely s s1 →
      wp (k (m s1).1) n Q (m s1).2 ∧
      (∀ n', spend sh n = Some n' → ∀ s2, s2 = s1 ∨ s2 = (m s1).2 → wp (k (Raise Cancelled)) n' Q s2) ∧
      (fails c → ∀ e s2, s2 = s1 ∨ s2 = (m s1).2 → wp (k (Raise (Broken e))) n Q s2)
  end.

Lemma wp_sound {A} (p : proc A) n (Q : outcome exn A → S → Prop) s o s' :
  runs n p s o s' → wp p n (λ _, Q) s → Q o s'.
Proof.
  induction 1 as [| |n B m k s o s' _ IH|n c sh B m k s s1 o s' Hr _ IH
    |n c sh B m k s s1 o s' Hr _ IH|n c sh B m k s s1 o s' Hr _ IH
    |n c sh B m k s s1 e o s' Hf Hr _ IH|n c sh B m k s s1 e o s' Hf Hr _ IH]; cbn; intros Hw; auto.
  - by apply IH, Hw.
  - apply IH, (proj1 (proj2 (Hw s1 Hr)) n); [by destruct sh|by left].
  - apply IH, (proj1 (proj2 (Hw s1 Hr)) n); [by destruct sh|by right].
  - apply IH, (proj2 (proj2 (Hw s1 Hr)) Hf); by left.
  - apply IH, (proj2 (proj2 (Hw s1 Hr)) Hf); by right.
Qed.

Lemma wp_mono {A} (p : proc A) n (Q Q' : nat → outcome exn A → S → Prop) s :
  (∀ n o s, Q n o s → Q' n o s) → wp p n Q s → wp p n Q' s.
Proof.
  intros HQ. revert n s. induction p as [a|e|B m k IH|c sh B m k IH]; intros n s; cbn; auto.
  intros Hw s1 Hr. destruct (Hw s1 Hr) as (H1 & H2 & H3). split_and!; eauto.
Qed.
End runs.
End proc.
Arguments proc S A : clear implicits.
Arguments Return {S A} a.
Arguments Throw {S A} e.
Arguments Local {S A B} m k.
Arguments Await {S A} c shielded {B} m k.

Notation "'let*' x := p 'in' k" := (bind p (λ x, k))
  (at level 10, x name, p at level 200, k at level 200,
   format "'let*'  x  :=  p  'in' '//' k") : scrape_scope.
Notation "'do*' p 'in' k" := (bind p (λ _, k))
  (at level 10, p at level 200, k at level 200,
   format "'do*'  p  'in' '//' k") : scrape_scope.

Section rules.
Context {S : Type} (rely : S → S → Prop) (fails : channel → Prop).
Abbreviation wp := (wp rely fails).

Lemma wp_attempt {A B} (p : proc S A) (k : outcome exn A → proc S B) n Q s :
  wp p n (λ n o s', wp (k o) n Q s') s → wp (attempt p k) n Q s.
Proof.
  revert n s. induction p as [a|e|C m c IH|ch sh C m c IH]; intros n s; cbn; auto.
  intros Hw s1 Hr. destruct (Hw s1 Hr) as (H1 & H2 & H3). split_and!; eauto.
Qed.

(** What a bound procedure is left to do. *)
Definition on_ok {A B} (k : A → proc S B) (Q : nat → outcome exn B → S → Prop) n (o : outcome exn A) s : Prop :=
  match o with Ok a => wp (k a) n Q s | Raise e => Q n (Raise e) s end.

Lemma wp_bind {A B} (p : proc S A) (k : A → proc S B) n Q s :
  wp p n (on_ok k Q) s → wp (bind p k) n Q s.
Proof. intros Hw. apply wp_attempt. eapply wp_mono; [|exact Hw]. by intros m [a|e] s'. Qed.

Lemma wp_except {A} (p : proc S A) (h : exn → proc S A) n Q s :
  wp p n (λ n o s', match o with
                    | Ok _ | Raise Cancelled => Q n o s'
                    | Raise e => wp (h e) n Q s'
                    end) s → wp (except p h) n Q s.
Proof. intros Hw. apply wp_attempt. eapply wp_mono; [|exact Hw]. by intros m [a|[]] s'. Qed.

Lemma wp_shield {A} (p : proc S A) Q s n :
  (n ≤ 1)%nat → wp p 0 (λ _, Q n) s → wp (shield p) n Q s.
Proof.
  intros Hn. revert s. induction p as [a|e|C m c IH|ch sh C m c IH]; intros s; cbn; auto.
  intros Hw s1 Hr. destruct (Hw s1 Hr) as (H1 & _ & H3). split_and!; eauto.
  intros n' Hs. destruct n as [|[|n]]; cbn in Hs; [done..|lia].
Qed.

(** A call between stable assertions. *)
Lemma wp_await {A} (c : channel) (m : prog S exn A) n (P : S → Prop) Q s :
  (∀ s s', P s → rely s s' → P s') → P s →
  (∀ s, P s → Q n (m s).1 (m s).2) →
  (∀ s n', n = Datatypes.S n' → P s → Q n' (Raise Cancelled) s ∧ Q n' (Raise Cancelled) (m s).2) →
  (∀ s e, fails c → P s → Q n (Raise (Broken e)) s ∧ Q n (Raise (Broken e)) (m s).2) →
  wp (await c m) n Q s.
Proof.
  intros Hst Hs Hok Hc Hf s1 Hr.
  assert (P s1) as Hs1 by by eapply (rtc_invariant rely P).
  split_and!.
  - specialize (Hok s1 Hs1). by destruct (m s1).1.
  - intros n' Hn. assert (n = Datatypes.S n') as -> by by destruct n; cbn in Hn; simplify_eq.
    destruct (Hc s1 n' eq_refl Hs1) as [? ?]. by intros s2 [->| ->].
  - intros Hfc e. destruct (Hf s1 e Hfc Hs1) as [? ?]. by intros s2 [->| ->].
Qed.

Lemma wp_local {A} (m : prog S exn A) n Q s : Q n (m s).1 (m s).2 → wp (local m) n Q s.
Proof. cbn. by destruct (m s).1. Qed.

(** ** Triples

    [triple N P p Q]: from [P], with at most [N] cancellations to come, [p] ends in [Q]; and
    it raises [Cancelled] only if it used one up. [wtriple] leaves the latter out. *)
Definition wtriple {A} (N : nat) (P : S → Prop) (p : proc S A) (Q : outcome exn A → S → Prop) : Prop :=
  ∀ n s, (n ≤ N)%nat → P s → wp p n (λ n' o s', (n' ≤ n)%nat ∧ Q o s') s.
Definition triple {A} (N : nat) (P : S → Prop) (p : proc S A) (Q : outcome exn A → S → Prop) : Prop :=
  ∀ n s, (n ≤ N)%nat → P s →
    wp p n (λ n' o s', (n' ≤ n)%nat ∧ (o = Raise Cancelled → (n' < n)%nat) ∧ Q o s') s.

Definition stable (P : S → Prop) : Prop := ∀ s s', P s → rely s s' → P s'.

Lemma triple_wtriple {A} N P (p : proc S A) Q : triple N P p Q → wtriple N P p Q.
Proof. intros Ht n s Hn Hs. eapply wp_mono; [|by apply Ht]. naive_solver. Qed.

Lemma triple_weaken {A} N N' (P P' : S → Prop) (p : proc S A) (Q Q' : outcome exn A → S → Prop) :
  triple N P p Q → (N' ≤ N)%nat → (∀ s, P' s → P s) → (∀ o s, Q o s → Q' o s) → triple N' P' p Q'.
Proof.
  intros Ht HN HP HQ n s Hn Hs. eapply wp_mono; [|apply Ht; [lia|by apply HP]]. naive_solver.
Qed.

Lemma triple_pre {A} N (P P' : S → Prop) (p : proc S A) (Q : outcome exn A → S → Prop) :
  triple N P p Q → (∀ s, P' s → P s) → triple N P' p Q.
Proof. intros Ht HP n s Hn Hs. by apply Ht, HP. Qed.

Lemma triple_pure {A} N (φ : Prop) P (p : proc S A) Q : (φ → triple N P p Q) → triple N (λ s, P s ∧ φ) p Q.
Proof. intros Ht n s Hn [Hs Hφ]. by apply Ht. Qed.

(** Without cancellations to come none is raised. *)
Lemma triple_calm {A} P (p : proc S A) Q :
  triple 0 P p Q → triple 0 P p (λ o s, Q o s ∧ o ≠ Raise Cancelled).
Proof.
  intros Ht n s Hn Hs. eapply wp_mono; [|by apply Ht]. cbn beta. intros n' o s' (? & Hc & ?).
  split_and!; try done. intros Ho. specialize (Hc Ho). lia.
Qed.

Lemma triple_return {A} N (P : S → Prop) (a : A) (Q : outcome exn A → S → Prop) :
  (∀ s, P s → Q (Ok a) s) → triple N P (Return a) Q.
Proof. intros HQ n s Hn Hs. cbn. split_and!; [done|done|by auto]. Qed.

Lemma triple_throw {A} N (P : S → Prop) (e : exn) (Q : outcome exn A → S → Prop) :
  e ≠ Cancelled → (∀ s, P s → Q (Raise e) s) → triple N P (Throw e) Q.
Proof. intros He HQ n s Hn Hs. cbn. split_and!; [done| |by auto]. congruence. Qed.

Lemma wtriple_throw {A} N (P : S → Prop) (e : exn) (Q : outcome exn A → S → Prop) :
  (∀ s, P s → Q (Raise e) s) → wtriple N P (Throw e) Q.
Proof. intros HQ n s Hn Hs. cbn. by auto. Qed.

Lemma triple_local {A} N (P : S → Prop) (m : prog S exn A) (Q : outcome exn A → S → Prop) :
  (∀ s, P s → (m s).1 ≠ Raise Cancelled ∧ Q (m s).1 (m s).2) → triple N P (local m) Q.
Proof.
  intros HQ n s Hn Hs. apply wp_local. destruct (HQ s Hs) as [Hc HQs]. by split_and!.
Qed.

Lemma triple_await {A} N (P : S → Prop) (c : channel) (m : prog S exn A) (Q : outcome exn A → S → Prop) :
  stable P →
  (∀ s, P s → (m s).1 ≠ Raise Cancelled ∧ Q (m s).1 (m s).2) →
  (∀ s, P s → N ≠ 0%nat → Q (Raise Cancelled) s ∧ Q (Raise Cancelled) (m s).2) →
  (∀ s e, P s → fails c → Q (Raise (Broken e)) s ∧ Q (Raise (Broken e)) (m s).2) →
  triple N P (await c m) Q.
Proof.
  intros Hst Hok Hc Hf n s Hn Hs. eapply wp_await; [exact Hst|done|..].
  - intros s1 Hs1. destruct (Hok s1 Hs1). by split_and!.
  - intros s1 n' -> Hs1. destruct (Hc s1 Hs1) as [H1 H2]; [lia|]. split; split_and!; auto with lia.
  - intros s1 e Hfc Hs1. destruct (Hf s1 e Hs1 Hfc) as [H1 H2]. by split.
Qed.

Lemma triple_attempt {A B} N P (p : proc S A) (k : outcome exn A → proc S B) Q Q' :
  triple N P p Q →
  (∀ a, triple N (Q (Ok a)) (k (Ok a)) Q') →
  (∀ e, e ≠ Cancelled → triple N (Q (Raise e)) (k (Raise e)) Q') →
  (∀ N', N = Datatypes.S N' → wtriple N' (Q (Raise Cancelled)) (k (Raise Cancelled)) Q') →
  triple N P (attempt p k) Q'.
Proof.
  intros Hp Ha He Hc n s Hn Hs. apply wp_attempt. eapply wp_mono; [|by apply Hp].
  cbn beta. intros n' o s' (Hn' & Hlt & HQ). destruct o as [a|e].
  - eapply wp_mono; [|apply Ha; [lia|done]]. cbn beta. intros n'' o s'' (? & Hl & ?). split_and!; [lia| |done].
    intros Ho. specialize (Hl Ho). lia.
  - destruct (is_cancelled e) eqn:Ee.
    + assert (e = Cancelled) as -> by by destruct e. specialize (Hlt eq_refl).
      destruct N as [|N']; [lia|]. eapply wp_mono; [|apply (Hc N'); [done|lia|done]].
      cbn beta. intros n'' o s'' (? & ?). split_and!; [lia| |done]. intros; lia.
    + assert (e ≠ Cancelled) as Hne by by destruct e.
      eapply wp_mono; [|apply (He e); [done|lia|done]]. cbn beta. intros n'' o s'' (? & Hl & ?).
      split_and!; [lia| |done]. intros Ho. specialize (Hl Ho). lia.
Qed.

Lemma triple_bind {A B} N P (p : proc S A) (k : A → proc S B) Q Q' :
  triple N P p Q →
  (∀ a, triple N (Q (Ok a)) (k a) Q') →
  (∀ e s, Q (Raise e) s → Q' (Raise e) s) →
  triple N P (bind p k) Q'.
Proof.
  intros Hp Ha He. eapply triple_attempt; [exact Hp|exact Ha| |].
  - intros e Hne. by apply triple_throw; auto.
  - intros N' _. apply wtriple_throw. auto.
Qed.

Lemma triple_except {A} N P (p : proc S A) (h : exn → proc S A) Q Q' :
  triple N P p Q →
  (∀ a s, Q (Ok a) s → Q' (Ok a) s) →
  (∀ e, e ≠ Cancelled → triple N (Q (Raise e)) (h e) Q') →
  (∀ s, Q (Raise Cancelled) s → Q' (Raise Cancelled) s) →
  triple N P (except p h) Q'.
Proof.
  intros Hp Ha He Hc. eapply triple_attempt; [exact Hp| | |].
  - intros a. apply triple_return, Ha.
  - intros e Hne. destruct e; try done; cbn; by apply He.
  - intros N' _. apply wtriple_throw, Hc.
Qed.

Lemma wtriple_bind {A B} N P (p : proc S A) (k : A → proc S B) Q Q' :
  triple N P p Q →
  (∀ a, wtriple N (Q (Ok a)) (k a) Q') →
  (∀ e s, Q (Raise e) s → Q' (Raise e) s) →
  wtriple N P (bind p k) Q'.
Proof.
  intros Hp Ha He n s Hn Hs. apply wp_bind. eapply wp_mono; [|by apply Hp].
  cbn beta. intros n' [a|e] s' (Hn' & _ & HQ); cbn.
  - eapply wp_mono; [|apply Ha; [lia|done]]. cbn beta. intros n'' o s'' (? & ?). split; [lia|done].
  - split; [done|by apply He].
Qed.

(** Under a shield the one cancellation that may come is kept away. *)
Lemma triple_shield {A} N P (p : proc S A) Q :
  (N ≤ 1)%nat → triple 0 P p Q → triple N P (shield p) Q.
Proof.
  intros HN Hp n s Hn Hs. apply wp_shield; [lia|]. eapply wp_mono; [|by apply Hp].
  cbn beta. intros n' o s' (_ & Hc & HQ). split_and!; [done| |done].
  intros Ho. specialize (Hc Ho). lia.
Qed.

(** ** Any number of cancellations

    [always P p Q]: from [P], whatever fails and however often the task is cancelled, [p]
    ends in [Q]. *)
Definition always {A} (P : S → Prop) (p : proc S A) (Q : outcome exn A → S → Prop) : Prop :=
  ∀ n s, P s → wp p n (λ _, Q) s.

Lemma always_weaken {A} (P P' : S → Prop) (p : proc S A) (Q Q' : outcome exn A → S → Prop) :
  always P p Q → (∀ s, P' s → P s) → (∀ o s, Q o s → Q' o s) → always P' p Q'.
Proof. intros Ha HP HQ n s Hs. eapply wp_mono; [|by apply Ha, HP]. naive_solver. Qed.

Lemma always_pre {A} (P P' : S → Prop) (p : proc S A) (Q : outcome exn A → S → Prop) :
  always P p Q → (∀ s, P' s → P s) → always P' p Q.
Proof. intros Ha HP n s Hs. by apply Ha, HP. Qed.

Lemma always_outcome {A} (P : S → Prop) (o : outcome exn A) (Q : outcome exn A → S → Prop) :
  (∀ s, P s → Q o s) → always P (of_outcome o) Q.
Proof. intros HQ n s Hs. destruct o; by apply HQ. Qed.

Lemma always_return {A} (P : S → Prop) (a : A) (Q : outcome exn A → S → Prop) :
  (∀ s, P s → Q (Ok a) s) → always P (Return a) Q.
Proof. apply (always_outcome P (Ok a)). Qed.

Lemma always_throw {A} (P : S → Prop) (e : exn) (Q : outcome exn A → S → Prop) :
  (∀ s, P s → Q (Raise e) s) → always P (Throw e) Q.
Proof. apply (always_outcome P (Raise e)). Qed.

Lemma always_local {A} (P : S → Prop) (m : prog S exn A) (Q : outcome exn A → S → Prop) :
  (∀ s, P s → Q (m s).1 (m s).2) → always P (local m) Q.
Proof. intros HQ n s Hs. apply wp_local. by apply HQ. Qed.

Lemma always_await {A} (P : S → Prop) (c : channel) (m : prog S exn A) (Q : outcome exn A → S → Prop) :
  stable P →
  (∀ s, P s → Q (m s).1 (m s).2) →
  (∀ s e, P s → e = Cancelled ∨ fails c → Q (Raise e) s ∧ Q (Raise e) (m s).2) →
  always P (await c m) Q.
Proof. intros Hst Hok Hr n s Hs. eapply wp_await; eauto. Qed.

Lemma always_attempt {A B} P (p : proc S A) (k : outcome exn A → proc S B) Q Q' :
  always P p Q → (∀ o, always (Q o) (k o) Q') → always P (attempt p k) Q'.
Proof.
  intros Hp Hk n s Hs. apply wp_attempt. eapply wp_mono; [|by apply Hp].
  cbn beta. intros n' o s' HQ. by apply Hk.
Qed.

Lemma always_bind {A B} P (p : proc S A) (k : A → proc S B) Q Q' :
  always P p Q → (∀ a, always (Q (Ok a)) (k a) Q') → (∀ e s, Q (Raise e) s → Q' (Raise e) s) →
  always P (bind p k) Q'.
Proof. intros Hp Hk He. eapply always_attempt; [exact Hp|]. intros [a|e]; [apply Hk|apply always_throw; auto]. Qed.

Lemma wp_and {A} (p : proc S A) n (Q Q' : nat → outcome exn A → S → Prop) s :
  wp p n Q s → wp p n Q' s → wp p n (λ n o s, Q n o s ∧ Q' n o s) s.
Proof.
  revert n s. induction p as [a|e|B m k IH|c sh B m k IH]; intros n s; cbn; auto.
  intros Hw Hw' s1 Hr. destruct (Hw s1 Hr) as (H1 & H2 & H3), (Hw' s1 Hr) as (H1' & H2' & H3'). split_and!; eauto.
Qed.
Lemma always_and {A} (P P' : S → Prop) (p : proc S A) (Q Q' : outcome exn A → S → Prop) :
  always P p Q → always P' p Q' → always (λ s, P s ∧ P' s) p (λ o s, Q o s ∧ Q' o s).
Proof. intros Hp Hp' n s [Hs Hs']. by apply wp_and; [apply Hp|apply Hp']. Qed.

(** An invariant of every part is one of the whole. *)
Lemma always_then {A B} (I : S → Prop) (p : proc S A) (k : A → proc S B) :
  always I p (λ _, I) → (∀ x, always I (k x) (λ _, I)) → always I (bind p k) (λ _, I).
Proof. intros Hp Hk. by eapply always_bind. Qed.

Lemma always_except {A} P (p : proc S A) (h : exn → proc S A) Q Q' :
  always P p Q → (∀ a s, Q (Ok a) s → Q' (Ok a) s) → (∀ e, always (Q (Raise e)) (h e) Q') →
  (∀ s, Q (Raise Cancelled) s → Q' (Raise Cancelled) s) → always P (except p h) Q'.
Proof.
  intros Hp Ha He Hc. eapply always_attempt; [exact Hp|].
  intros [a|[]]; cbn; try apply He; [by apply always_return, Ha|by apply always_throw, Hc].
Qed.

Lemma always_shield {A} P (p : proc S A) Q : always P p Q → always P (shield p) Q.
Proof.
  intros Hp n s Hs. assert (∀ m, wp p m (λ _, Q) s) as Hw by (intros m; by apply Hp).
  clear Hp Hs P. revert n s Hw. induction p as [a|e|C m c IH|ch sh C m c IH]; intros n s Hw.
  - exact (Hw n).
  - exact (Hw n).
  - apply IH. exact Hw.
  - cbn. intros s1 Hr. split_and!.
    + apply IH. intros k. by destruct (Hw k s1 Hr).
    + intros n' Hsp s2 Hs2. apply IH. intros k.
      apply (proj1 (proj2 (Hw (if sh then 2 + k else 1 + k)%nat s1 Hr))); [by destruct sh|done].
    + intros Hf e s2 Hs2. apply IH. intros k. by apply (proj2 (proj2 (Hw k s1 Hr))).
Qed.

Lemma always_runs {A} N (P : S → Prop) (p : proc S A) (Q : outcome exn A → S → Prop) s o s' :
  always P p Q → P s → runs rely fails N p s o s' → Q o s'.
Proof. intros Ha Hs Hr. eapply (wp_sound rely fails p N Q); [exact Hr|]. by apply Ha. Qed.

Lemma triple_runs {A} N (P : S → Prop) (p : proc S A) (Q : outcome exn A → S → Prop) s o s' :
  triple N P p Q → P s → runs rely fails N p s o s' → Q o s'.
Proof.
  intros Ht Hs Hr. eapply (wp_sound rely fails p N Q); [exact Hr|].
  eapply wp_mono; [|by apply Ht]. cbn beta. naive_solver.
Qed.
End rules.

(** ** Procedures that can be taken up again

    When [p] returns, [P] holds; when it raises, [Inv] does, and something did go wrong: in
    [calm] times, when no call fails and nothing is cancelled, [p] returns. *)

Section resumable.
Context {S : Type} (rely : S → S → Prop) (fails : channel → Prop) (N : nat) (calm : Prop) (Inv : S → Prop).
Context (calm_quiet : calm → N = 0%nat ∧ ∀ c, ¬ fails c).

Definition or_stopped {B} (P : B → S → Prop) (o : outcome exn B) (s : S) : Prop :=
  match o with Ok x => P x s | Raise _ => Inv s ∧ ¬ calm end.
(** What a call has to do. *)
Definition does {B} (P' : B → S → Prop) (m : prog S exn B) (s : S) : Prop :=
  Inv s ∧ Inv (m s).2 ∧ match (m s).1 with Ok x => P' x (m s).2 | Raise e => e ≠ Cancelled ∧ ¬ calm end.

Lemma step_call {B} c (m : prog S exn B) (P : S → Prop) (P' : B → S → Prop) :
  stable rely P → (∀ s, P s → does P' m s) → triple rely fails N P (await c m) (or_stopped P').
Proof.
  intros Hst Hm. apply triple_await; [exact Hst|..].
  - intros s Hs. destruct (Hm s Hs) as (_ & Hi & Ho). destruct (m s).1 as [x|e]; [by split|].
    split; [intros [= ->]; by destruct Ho|]. split; [done|]. apply Ho.
  - intros s Hs HN. destruct (Hm s Hs) as (Hu1 & Hu2 & _).
    split; (split; [done|]); intros C; by destruct (calm_quiet C).
  - intros s e Hs Hf. destruct (Hm s Hs) as (Hu1 & Hu2 & _).
    split; (split; [done|]); intros C; by apply (proj2 (calm_quiet C) c).
Qed.

Lemma step_local {B} (m : prog S exn B) (P : S → Prop) (P' : B → S → Prop) :
  (∀ s, P s → does P' m s) → triple rely fails N P (local m) (or_stopped P').
Proof.
  intros Hm. apply triple_local. intros s Hs. destruct (Hm s Hs) as (_ & Hi & Ho).
  destruct (m s).1 as [x|e]; [by split|]. split; [intros [= ->]; by destruct Ho|]. split; [done|]. apply Ho.
Qed.

(** [except Exception as e: raise f(e)] *)
Lemma step_phase {B} (f : exn → exn) (p : proc S B) (P : S → Prop) (P' : B → S → Prop) :
  (∀ e, f e ≠ Cancelled) →
  triple rely fails N P p (or_stopped P') → triple rely fails N P (except p (λ e, Throw (f e))) (or_stopped P').
Proof. intros Hf Hp. eapply triple_except; [exact Hp|done| |done]. intros e _. by apply triple_throw. Qed.

Lemma step_then {B C} (p : proc S B) (k : B → proc S C) P P' P'' :
  triple rely fails N P p (or_stopped P') → (∀ x, triple rely fails N (P' x) (k x) (or_stopped P'')) →
  triple rely fails N P (bind p k) (or_stopped P'').
Proof. intros Hp Hk. eapply triple_bind; [exact Hp|exact Hk|done]. Qed.
End resumable.

(** ** Undisturbed executions *)

Fixpoint exec {S A} (p : proc S A) (s : S) : outcome exn A * S :=
  match p with
  | Return a => (Ok a, s)
  | Throw e => (Raise e, s)
  | Local m k => exec (k (m s).1) (m s).2
  | Await _ _ m k => exec (k (m s).1) (m s).2
  end.

Lemma exec_attempt {S A B} (p : proc S A) (k : outcome exn A → proc S B) s :
  exec (attempt p k) s = exec (k (exec p s).1) (exec p s).2.
Proof. revert s. induction p as [a|e|C m c IH|ch sh C m c IH]; intros s; cbn; auto. Qed.

Lemma exec_bind {S A B} (p : proc S A) (k : A → proc S B) s :
  exec (bind p k) s =
    match (exec p s).1 with Ok a => exec (k a) (exec p s).2 | Raise e => (Raise e, (exec p s).2) end.
Proof. unfold bind. rewrite exec_attempt. by destruct (exec p s).1. Qed.

Lemma exec_await {S A} c (m : prog S exn A) s : exec (await c m) s = m s.
Proof. cbn. by destruct (m s) as [[]]. Qed.
Lemma exec_local {S A} (m : prog S exn A) s : exec (local m) s = m s.
Proof. cbn. by destruct (m s) as [[]]. Qed.

Lemma exec_runs {S A} (rely : S → S → Prop) fails n (p : proc S A) s :
  runs rely fails n p s (exec p s).1 (exec p s).2.
Proof.
  revert s. induction p as [a|e|B m k IH|c sh B m k IH]; intros s; cbn; econstructor; eauto. apply rtc_refl.
Qed.

(** Cancelled before its [k]-th call that is not shielded. *)
Fixpoint exec_cut {S A} (k : nat) (p : proc S A) (s : S) : outcome exn A * S :=
  match p with
  | Return a => (Ok a, s)
  | Throw e => (Raise e, s)
  | Local m c => exec_cut k (c (m s).1) (m s).2
  | Await _ false m c =>
      match k with
      | O => exec (c (Raise Cancelled)) s
      | Datatypes.S k => exec_cut k (c (m s).1) (m s).2
      end
  | Await _ true m c => exec_cut k (c (m s).1) (m s).2
  end.

Lemma exec_cut_runs {S A} (rely : S → S → Prop) fails k (p : proc S A) s :
  runs rely fails 1 p s (exec_cut k p s).1 (exec_cut k p s).2.
Proof.
  revert k s. induction p as [a|e|B m c IH|ch [] B m c IH]; intros k s; cbn; try (econstructor; eauto; apply rtc_refl).
  destruct k as [|k]; [|econstructor; eauto; apply rtc_refl].
  exact (run_cancel_before rely fails 0 ch false B m c s s _ _ (rtc_refl _ _) (exec_runs rely fails 0 _ s)).
Qed.

(** Cancelled when the effect of its [k]-th call that is not shielded has taken place. *)
Fixpoint exec_late {S A} (k : nat) (p : proc S A) (s : S) : outcome exn A * S :=
  match p with
  | Return a => (Ok a, s)
  | Throw e => (Raise e, s)
  | Local m c => exec_late k (c (m s).1) (m s).2
  | Await _ false m c =>
      match k with
      | O => exec (c (Raise Cancelled)) (m s).2
      | Datatypes.S k => exec_late k (c (m s).1) (m s).2
      end
  | Await _ true m c => exec_late k (c (m s).1) (m s).2
  end.

Lemma exec_late_runs {S A} (rely : S → S → Prop) fails k (p : proc S A) s :
  runs rely fails 1 p s (exec_late k p s).1 (exec_late k p s).2.
Proof.
  revert k s. induction p as [a|e|B m c IH|ch [] B m c IH]; intros k s; cbn; try (econstructor; eauto; apply rtc_refl).
  destruct k as [|k]; [|econstructor; eauto; apply rtc_refl].
  exact (run_cancel_after rely fails 0 ch false B m c s s _ _ (rtc_refl _ _) (exec_runs rely fails 0 _ _)).
Qed.
