(* ===== verification/Models.v ===== *)
(** * Configuration and result models

    The parts of a job's configuration ([config/schema.py]) that the queue and the worker
    read, the result of a target ([engine/scrape_models.py]) and the error records
    ([models/job.py]). *)

From S2P Require Import Prelude.
From S2P Require Import Text.
From S2P Require Import Budget.
From S2P Require Import Rows.
From S2P Require Import Json.
From S2P Require Import Redaction.
From S2P Require Import SensitiveData.
From S2P Require Import Outbox.
From S2P Require Import JobTerminal.
From S2P Require Import Payload.

Inductive FetcherType := basic | stealthy | dynamic.
Inductive OnEmptyAction := on_retry | on_warn | on_fail | on_skip.
Inductive GroupBy := by_target | by_merge.
Inductive FailStrategy := fs_partial | fs_all_or_nothing | fs_continue.
Inductive ExecutionMode := mode_sync | mode_async | mode_auto.
Inductive PageCacheMode := cache_off | cache_record | cache_replay.

#[export] Instance FetcherType_eq_dec : EqDecision FetcherType.
Proof. solve_decision. Defined.
#[export] Instance GroupBy_eq_dec : EqDecision GroupBy.
Proof. solve_decision. Defined.
#[export] Instance FailStrategy_eq_dec : EqDecision FailStrategy.
Proof. solve_decision. Defined.
#[export] Instance PageCacheMode_eq_dec : EqDecision PageCacheMode.
Proof. solve_decision. Defined.

Record TargetConfig := { t_url : string; t_fetcher : FetcherType; t_paginated : bool }.

(** [execution], [output] and [webhook] of [ScrapeConfig], flattened. *)
Record ScrapeConfig := {
  cfg_project : string;
  cfg_name : string;
  cfg_targets : list TargetConfig;
  cfg_priority : string;
  cfg_mode : ExecutionMode;
  cfg_fail_strategy : FailStrategy;
  cfg_page_cache : PageCacheMode;
  cfg_deadline_at : option Z;
  cfg_limits : Budget.budget_execution;
  cfg_group_by : GroupBy;
  cfg_webhook : option WebhookConfig;
  resolved_secret_values : list text;
}.

Inductive ErrorType :=
| content_empty | blocked_response | challenge_page | consent_gate | login_gate | rendered_empty
| selector_miss | selector_engine_error | navigation_timeout | proxy_rejected | http_not_found
| http_error | network_error | browser_error | timeout | budget_exceeded | cache_miss
| domain_daily_limit | domain_cooldown.
#[export] Instance ErrorType_eq_dec : EqDecision ErrorType.
Proof. solve_decision. Defined.

Inductive ActionTaken := act_retry | act_warn | act_fail | act_skip | act_circuit_break.
#[export] Instance ActionTaken_eq_dec : EqDecision ActionTaken.
Proof. solve_decision. Defined.

Inductive TargetStatus := success | target_failed.
#[export] Instance TargetStatus_eq_dec : EqDecision TargetStatus.
Proof. solve_decision. Defined.

Record TargetResult := {
  tr_url : string;
  tr_status : TargetStatus;
  tr_data : list json;
  tr_errors : list string;
  tr_pages_scraped : Z;
  tr_error_type : option ErrorType;
  tr_http_status : option Z;
  tr_error_detail : option string;
  tr_debug : option json;
  tr_stop_reason : string;
  tr_recorded_at : option string;
}.

Definition is_success (r : TargetResult) : bool := bool_decide (tr_status r = success).
Definition is_failed (r : TargetResult) : bool := bool_decide (tr_status r = target_failed).

Record ErrorRecord := {
  er_job_id : string;
  er_run_id : string;
  er_project : string;
  er_target_url : string;
  er_attempt : Z;
  er_timestamp : Z;
  er_error_type : ErrorType;
  er_http_status : option Z;
  er_fetcher_used : string;
  er_error_message : option string;
  er_selectors_matched : option (list (string * Z));
  er_budget : option Budget.BudgetExceeded;
  er_action_taken : ActionTaken;
  er_resolved : bool;
}.

(** What [save_result] reports. *)
Record SaveResultMeta := {
  sm_run_id : string;
  sm_file_path : string;
  sm_record_count : option Z;
  sm_serialized_bytes : Z;
}.

(** ** Terminal deliveries ([build_terminal_webhook_delivery])

    The calendar and the redaction of one URL are arguments; [active]: the secrets of the
    run in whose context the delivery is built. *)
Definition redact_payload (redact_userinfo_in_url : text → text) (active secret_values : list text)
    (payload : list (string * json)) : list (string * json) :=
  match redact_sensitive_mapping redact_userinfo_in_url active secret_values (JObject payload) with
  | JObject m => m
  | _ => []
  end.

Definition build_terminal_webhook_delivery (isoformat : Z → string) (redact_userinfo_in_url : text → text)
    (active : list text)
    (config : ScrapeConfig) (job_id : string) (status : Rows.JobStatus) (run_id : string)
    (result_path : option string) (result_count : option Z) (error_count : Z)
    (started_at completed_at : Z) (config_hash : option string) : option Outbox.WebhookDeliveryCreate :=
  match cfg_webhook config with
  | None => None
  | Some webhook =>
      if negb (should_fire (hook_on webhook) status) then None
      else
        let payload := redact_payload redact_userinfo_in_url active (resolved_secret_values config)
          (build_webhook_payload job_id (cfg_project config) (cfg_name config) status (Some run_id)
             result_path result_count error_count (isoformat started_at) (isoformat completed_at)
             config_hash) in
        Some (webhook_delivery_from_payload webhook payload completed_at)
  end.

(** Names that the redaction leaves alone: no secret is part of a key of the payload, of an
    event, or of the job's and the run's id, and the ids hold no URL. *)
Definition payload_keys : list string :=
  ["delivery_id"; "event"; "job_id"; "project"; "name"; "status"; "run_id"; "result_path"; "results_url";
   "result_count"; "error_count"; "started_at"; "completed_at"; "config_hash"].
Definition all_statuses : list JobStatus := [queued; running; complete; partial; failed; cancelled; deleting].
Definition names (jid rid : string) : list string := payload_keys ++ map event_of all_statuses ++ [jid; rid].
Record names_clear (active secrets : list text) (jid rid : string) : Prop := {
  nc_active : Forall (clear active) (names jid rid);
  nc_secrets : Forall (clear secrets) (names jid rid);
  nc_job_url : ¬ occurs (txt "://") (txt jid);
  nc_run_url : ¬ occurs (txt "://") (txt rid);
  nc_job : jid ≠ "";
}.

Section names.
Context (redact_userinfo_in_url : text → text) (active secrets : list text) (jid rid : string).
Context (Hclear : names_clear active secrets jid rid).

Lemma clear_name l : l ∈ names jid rid → clear active l ∧ clear secrets l.
Proof.
  intros Hl. by split; [apply (proj1 (Forall_forall _ _) (nc_active _ _ _ _ Hclear))
                       |apply (proj1 (Forall_forall _ _) (nc_secrets _ _ _ _ Hclear))].
Qed.

Lemma in_names l : l ∈ payload_keys ∨ (∃ s, l = event_of s) ∨ l = jid ∨ l = rid → l ∈ names jid rid.
Proof.
  intros Hl. apply elem_of_app. destruct Hl as [?|Hl]; [by left|right]. apply elem_of_app.
  destruct Hl as [[s ->]|Hl]; [left|right; set_solver].
  apply list_elem_of_In, in_map. destruct s; cbn; tauto.
Qed.

Lemma occurs_app_r v s s' : occurs v (txt s') → occurs v (txt (s +:+ s')).
Proof. 
  intros (a & b & E). exists (txt s ++ a), b. by rewrite txt_app, E, app_assoc.
Qed.

Lemma clear_status s : clear active (status_value s) ∧ clear secrets (status_value s).
Proof.
  destruct (clear_name (event_of s)) as [Ha Hs]; [apply in_names; eauto|].
  split; intros v Hv Ho; [apply (Ha v)|apply (Hs v)]; try done; by apply occurs_app_r.
Qed.

(** Such a member comes out as it went in. *)
Lemma redacted_name key l :
  _is_sensitive_key key = false → clear active l ∧ clear secrets l → ¬ occurs (txt "://") (txt l) →
  redact_member redact_userinfo_in_url active secrets key (JString l) = JString l.
Proof.
  intros Hk [Ha Hs] Hu. unfold redact_member. rewrite Hk.
  assert (∀ x : json, match is_secret_container key, JString l with true, JObject m => x | _, _ =>
    redact_sensitive_mapping redact_userinfo_in_url active secrets (JString l) end = JString l) as Hm.
  { intros x. destruct (is_secret_container key); by apply clear_text. }
  destruct (is_secret_container key); by apply clear_text.
Qed.

(** The store accepts the deliveries of such a run. *)
Lemma terminal_delivery_valid isoformat config s path count errors t t' hash w :
  resolved_secret_values config = secrets →
  build_terminal_webhook_delivery isoformat redact_userinfo_in_url active config jid s rid path count errors t t' hash = Some w →
  validate_terminal_delivery w jid rid s = Ok tt ∧ payload_is (d_payload w) "delivery_id" (delivery_id w) = true.
Proof.
  intros Hsec. unfold build_terminal_webhook_delivery. destruct (cfg_webhook config) as [hook|]; [|done].
  destruct (negb _); [done|]. intros [= <-]. rewrite Hsec.
  set (payload := build_webhook_payload _ _ _ _ _ _ _ _ _ _ _).
  assert (payload.*1 = payload_keys ∨ payload.*1 = take 13 payload_keys) as Hpk by (destruct hash; auto).
  assert (∀ x, x ∈ payload.*1 → x ∈ payload_keys) as Hkeys.
  { intros x. destruct Hpk as [->| ->]; [done|]. intros Hx; rewrite <- (take_drop 13 payload_keys); apply elem_of_app; by left. }
  assert (NoDup payload.*1) as Hnd.
  { destruct Hpk as [->| ->]; apply (bool_decide_unpack _); by vm_compute. }
  assert (redact_payload redact_userinfo_in_url active secrets payload =
          map (λ x, (x.1, redact_member redact_userinfo_in_url active secrets x.1 x.2)) payload) as ->.
  { unfold redact_payload. cbn [redact_sensitive_mapping]. rewrite clear_members; [done| |done].
    apply Forall_forall. intros x Hx. apply clear_name, in_names. by left; apply Hkeys. }
  assert (∀ key l, _is_sensitive_key key = false → payload_get payload key = Some (JString l) →
    clear active l ∧ clear secrets l → ¬ occurs (txt "://") (txt l) →
    payload_get (map (λ x, (x.1, redact_member redact_userinfo_in_url active secrets x.1 x.2)) payload) key
      = Some (JString l)) as Hget.
  { intros key l Hk Hg Hcl Hu. clear Hkeys Hnd Hpk. revert Hg. induction payload as [|[k v] m IH]; [done|].
    cbn [map]. rewrite !payload_get_cons. cbn [fst snd]. case_bool_decide as Hkk; [|exact IH].
    subst k. intros [= ->]. by rewrite redacted_name. }
  assert (∀ key, payload_get payload key = payload_get (build_webhook_payload jid (cfg_project config) (cfg_name config)
    s (Some rid) path count errors (isoformat t) (isoformat t') hash) key) as Hp by done.
  assert (∀ st, ¬ occurs (txt "://") (txt (event_of st))) as Hev.
  { intros []; by apply contains_absent. }
  apply named_delivery_valid; [apply Hclear|..]; apply Hget; try done;
    try (rewrite Hp; unfold build_webhook_payload; member).
  - apply clear_name, in_names. auto.
  - apply Hclear.
  - apply clear_name, in_names. auto.
  - apply Hclear.
  - apply clear_name, in_names. eauto.
  - apply clear_status.
  - intros Ho. by apply (Hev s), occurs_app_r.
Qed.
End names.
