(* ===== verification/ErrorStore.v ===== *)
(** * The error log ([storage/error_store.py], [storage/error_queries.py])

    [errors.db]: one table whose ids are never used again. [json.dumps], [json.loads] and
    the budget model of pydantic are parameters. *)

From S2P Require Import Prelude.
From S2P Require Import Text.
From S2P Require Import Budget.
From S2P Require Import Rows.
From S2P Require Import JobDb.
From S2P Require Import Json.
From S2P Require Import Models.
Open Scope Z_scope.

Record ErrorRow := {
  e_job_id : string;
  e_run_id : string;
  e_project : string;
  e_target_url : string;
  e_attempt : Z;
  e_timestamp : Z;
  e_error_type : ErrorType;
  e_http_status : option Z;
  e_fetcher_used : string;
  e_error_message : option string;
  e_selectors_matched : option string;
  e_action_taken : ActionTaken;
  e_resolved : bool;
}.

(** [next_error_id]: what AUTOINCREMENT gives next. *)
Record errors_db := { error_rows : gmap Z ErrorRow; next_error_id : Z }.
Definition no_errors : errors_db := {| error_rows := ∅; next_error_id := 1 |}.
Abbreviation error_store := (prog errors_db store_error).

(** Documents and their text; a written document reads back, whatever order its members
    have. [BudgetErrorDetails.model_dump] and [model_validate]. *)
Class ErrorText := {
  json_dumps : json → string;
  json_loads : string → option json;
  writable : json → Prop;
  json_loads_dumps v : writable v → json_loads (json_dumps v) = Some v;
  budget_dump : Budget.BudgetExceeded → json;
  budget_validate : json → option Budget.BudgetExceeded;
  budget_validate_dump b : budget_validate (budget_dump b) = Some b;
}.

Record ErrorFilters := {
  f_project : option string;
  f_job_id : option string;
  f_since : option Z;
  f_error_type : option ErrorType;
}.

(** [CleanupBacklogSnapshot] *)
Record CleanupBacklogSnapshot := { eligible_count : nat; oldest_eligible_at : option Z }.

(** An [int] that is no [bool]. *)
Definition json_int (v : json) : option Z :=
  match v with
  | JNumber n =>
      match txt n with
      | a :: l => if code a =? 45 then (if all_digits l then Some (- decimal l) else None)
                  else if all_digits (a :: l) then Some (decimal (a :: l)) else None
      | [] => None
      end
  | _ => None
  end.

Fixpoint selector_counts (m : list (string * json)) : option (list (string * Z)) :=
  match m with
  | [] => Some []
  | (k, v) :: m =>
      match json_int v with
      | None => None
      | Some n => match selector_counts m with Some l => Some ((k, n) :: l) | None => None end
      end
  end.
Definition selectors_json (l : list (string * Z)) : json :=
  JObject (map (λ x, (x.1, JNumber (String.string_of_list_ascii (str_int x.2)))) l).

Section errors.
Context `{ErrorText}.
Implicit Types (d : errors_db) (e : ErrorRecord).

(** ** Rows *)

Definition _loads_selectors_matched (value : option string) : option (list (string * Z)) :=
  match value with
  | None => None
  | Some v => match json_loads v with Some (JObject m) => selector_counts m | _ => None end
  end.

Definition _loads_budget_details (value : option string) : option Budget.BudgetExceeded :=
  match value with
  | None => None
  | Some v => match json_loads v with Some parsed => budget_validate parsed | None => None end
  end.

Definition _row_to_error (r : ErrorRow) : ErrorRecord :=
  let over := bool_decide (e_error_type r = budget_exceeded) in
  {| er_job_id := e_job_id r; er_run_id := e_run_id r; er_project := e_project r;
     er_target_url := e_target_url r; er_attempt := e_attempt r; er_timestamp := e_timestamp r;
     er_error_type := e_error_type r; er_http_status := e_http_status r; er_fetcher_used := e_fetcher_used r;
     er_error_message := e_error_message r;
     er_selectors_matched := if over then None else _loads_selectors_matched (e_selectors_matched r);
     er_budget := if over then _loads_budget_details (e_selectors_matched r) else None;
     er_action_taken := e_action_taken r; er_resolved := e_resolved r |}.

Definition error_row e : ErrorRow :=
  {| e_job_id := er_job_id e; e_run_id := er_run_id e; e_project := er_project e;
     e_target_url := er_target_url e; e_attempt := er_attempt e; e_timestamp := er_timestamp e;
     e_error_type := er_error_type e; e_http_status := er_http_status e; e_fetcher_used := er_fetcher_used e;
     e_error_message := er_error_message e;
     e_selectors_matched :=
       match er_budget e with
       | Some b => Some (json_dumps (budget_dump b))
       | None => option_map (λ l, json_dumps (selectors_json l)) (er_selectors_matched e)
       end;
     e_action_taken := er_action_taken e; e_resolved := er_resolved e |}.

(** ** Writing *)

Definition insert_error d e : errors_db :=
  {| error_rows := <[next_error_id d := error_row e]> (error_rows d); next_error_id := next_error_id d + 1 |}.
Definition log_errors (errors : list ErrorRecord) : error_store unit :=
  match errors with
  | [] => pret tt
  | _ => pmodify (λ d, foldl insert_error d errors)
  end.
Definition log_error e : error_store unit := log_errors [e].

(** ** Reading *)

(** The WHERE clauses of [build_query_errors_query]. *)
Definition matches (f : ErrorFilters) (r : ErrorRow) : bool :=
  match f_project f with Some p => bool_decide (e_project r = p) | None => true end &&
  match f_job_id f with Some j => bool_decide (e_job_id r = j) | None => true end &&
  match f_since f with Some t => t <=? e_timestamp r | None => true end &&
  match f_error_type f with Some t => bool_decide (e_error_type r = t) | None => true end.

(** ORDER BY timestamp, id, in either direction. *)
Definition error_before (a b : Z * ErrorRow) : Prop :=
  (e_timestamp a.2 <? e_timestamp b.2) || ((e_timestamp a.2 =? e_timestamp b.2) && (a.1 <=? b.1)) = true.
#[export] Instance error_before_dec a b : Decision (error_before a b).
Proof. unfold error_before. apply _. Defined.
Definition error_after (a b : Z * ErrorRow) : Prop := error_before b a.
#[export] Instance error_after_dec a b : Decision (error_after a b).
Proof. unfold error_after. apply _. Defined.

Definition page_of {A} (limit : option nat) (offset : nat) (l : list A) : list A :=
  match limit with Some n => take n (drop offset l) | None => drop offset l end.

Definition query_errors (f : ErrorFilters) (limit : option nat) (offset : nat) : error_store (list ErrorRecord) := λ d,
  (Ok (map (λ x, _row_to_error x.2)
         (page_of limit offset (merge_sort error_after (filter (λ x, matches f x.2 = true) (map_to_list (error_rows d)))))),
   d).

Definition count_errors_for_run (rid : string) : error_store Z := λ d,
  (Ok (Z.of_nat (size (filter (λ x : Z * ErrorRow, e_run_id x.2 = rid) (error_rows d)))), d).

(** ** Deleting *)

Definition keep_errors (P : Z * ErrorRow → bool) d : errors_db :=
  {| error_rows := filter (λ x, P x = true) (error_rows d); next_error_id := next_error_id d |}.

Definition delete_errors_for_job (jid : string) : error_store unit :=
  pmodify (keep_errors (λ x, negb (bool_decide (e_job_id x.2 = jid)))).

(** The ids of the first rows of a condition, oldest first. *)
Definition oldest (P : ErrorRow → bool) (limit : nat) d : list Z :=
  (take limit (merge_sort error_before (filter (λ x, P x.2 = true) (map_to_list (error_rows d))))).*1.
Definition delete_oldest (P : ErrorRow → bool) (limit : nat) d : nat * errors_db :=
  let ids := oldest P limit d in
  (length ids, keep_errors (λ x, negb (bool_decide (x.1 ∈ ids))) d).

Definition _delete_error_batch (column : ErrorRow → string) (value : string) (limit : nat) :
    error_store (nat * bool) :=
  if (limit <? 1)%nat then praise (ValueError "Error cleanup limit must be positive")
  else λ d,
    let '(deleted, d) := delete_oldest (λ r, bool_decide (column r = value)) limit d in
    (Ok (deleted, bool_decide (map_Exists (λ _ r, column r = value) (error_rows d))), d).
Definition delete_errors_for_job_batch (jid : string) (limit : nat) := _delete_error_batch e_job_id jid limit.
Definition delete_errors_for_run_batch (rid : string) (limit : nat) := _delete_error_batch e_run_id rid limit.

Definition delete_expired_errors (expired_before : Z) (limit : nat) : error_store nat :=
  if (limit <? 1)%nat then praise (ValueError "Error cleanup limit must be positive")
  else λ d,
    let '(deleted, d) := delete_oldest (λ r, e_timestamp r <=? expired_before) limit d in (Ok deleted, d).

Definition summarize_cleanup_backlog (expired_before : Z) : error_store CleanupBacklogSnapshot := λ d,
  let eligible := filter (λ x : Z * ErrorRow, e_timestamp x.2 ≤ expired_before) (map_to_list (error_rows d)) in
  (Ok {| eligible_count := length eligible;
         oldest_eligible_at := match eligible with
                               | [] => None
                               | x :: l => Some (foldr (λ y m, Z.min (e_timestamp y.2) m) (e_timestamp x.2) l)
                               end |}, d).
End errors.

(** * The error log reads back

    Every logged error is found by the queries that match it, as it was logged. *)

(** ** Numbers of a document *)

Lemma digit_not_minus a : is_digit a = true → (code a =? 45) = false.
Proof. unfold is_digit. intros H%andb_true_iff. apply Z.eqb_neq. rewrite !Z.leb_le in H. lia. Qed.

Lemma all_digits_digits n : all_digits (digits n) = true.
Proof.
  pose proof (digits_digits n) as Hd. assert (digits n ≠ []) as Hne.
  { unfold digits. cbn [digits_acc]. destruct (n <? 10)%N; [done|].
    intros E. pose proof (decimal_digits n) as Hn.
    assert (∀ f n acc, acc ≠ [] → digits_acc f n acc ≠ []) as Hacc.
    { clear. induction f as [|f IH]; intros n acc Ha; cbn [digits_acc]; [done|]. destruct (n <? 10)%N; [done|]. by apply IH. }
    by eapply Hacc; [|exact E]. }
  unfold all_digits. destruct (digits n) as [|a l]; [done|]. apply forallb_forall. intros x Hx%list_elem_of_In.
  by apply (proj1 (Forall_forall _ _) Hd).
Qed.

Lemma json_int_str n : json_int (JNumber (String.string_of_list_ascii (str_int n))) = Some n.
Proof.
  unfold json_int, txt. rewrite String.list_ascii_of_string_of_list_ascii. unfold str_int.
  destruct (Z.ltb_spec n 0) as [Hn|Hn].
  - change (code (chr 45) =? 45) with true. cbn iota. rewrite all_digits_digits, decimal_digits. f_equal. lia.
  - pose proof (all_digits_digits (Z.to_N n)) as Ha. pose proof (decimal_digits (Z.to_N n)) as Hd.
    destruct (digits (Z.to_N n)) as [|a l] eqn:E; [done|].
    assert (is_digit a = true) as Hi by (pose proof (digits_digits (Z.to_N n)) as Hf; rewrite E in Hf; by inversion Hf).
    rewrite digit_not_minus, Ha by done. f_equal. rewrite Hd. lia.
Qed.

Lemma selector_counts_written l :
  selector_counts (map (λ x, (x.1, JNumber (String.string_of_list_ascii (str_int x.2)))) l) = Some l.
Proof. induction l as [|[k n] l IH]; cbn [map selector_counts fst snd]; [done|]. by rewrite json_int_str, IH. Qed.

Section spec.
Context `{ErrorText}.
Implicit Types (d : errors_db) (e : ErrorRecord).

(** The details belong to the type of the error, and their documents can be written. *)
Record readable e : Prop := {
  rd_selectors : ∀ l, er_selectors_matched e = Some l → er_error_type e ≠ budget_exceeded ∧ writable (selectors_json l);
  rd_budget : ∀ b, er_budget e = Some b → er_error_type e = budget_exceeded ∧ writable (budget_dump b);
}.

Lemma row_reads_back e : readable e → _row_to_error (error_row e) = e.
Proof.
  intros [Hs Hb]. destruct e as [? ? ? ? ? ? ty ? ? ? sel bud ? ?]. cbn in Hs, Hb. unfold _row_to_error, error_row. cbn.
  destruct bud as [b|].
  - destruct (Hb b eq_refl) as [-> Hw]. destruct sel as [l|]; [by destruct (Hs l eq_refl)|].
    rewrite bool_decide_true by done. cbn. by rewrite json_loads_dumps, budget_validate_dump.
  - destruct sel as [l|]; cbn.
    + destruct (Hs l eq_refl) as [Ht Hw]. rewrite bool_decide_false by done. cbn.
      rewrite json_loads_dumps by done. unfold selectors_json. by rewrite selector_counts_written.
    + by destruct (bool_decide _).
Qed.

(** ** Ids are given once *)

Definition ids_below d : Prop := ∀ i, is_Some (error_rows d !! i) → i < next_error_id d.

Lemma insert_error_below d e : ids_below d → ids_below (insert_error d e).
Proof.
  intros Hd i. cbn. rewrite lookup_insert_is_Some. intros [<-|[_ Hi]]; [lia|]. apply Hd in Hi. lia.
Qed.

Lemma insert_error_rows d e : ids_below d → map_to_list (error_rows (insert_error d e)) ≡ₚ
  (next_error_id d, error_row e) :: map_to_list (error_rows d).
Proof.
  intros Hd. cbn. apply map_to_list_insert. apply eq_None_not_Some. intros Hi. apply Hd in Hi. lia.
Qed.

(** ** Queries *)

Definition found (f : ErrorFilters) d : list (Z * ErrorRow) := filter (λ x, matches f x.2 = true) (map_to_list (error_rows d)).

Lemma found_insert f d e :
  ids_below d → found f (insert_error d e) ≡ₚ
    (if matches f (error_row e) then [(next_error_id d, error_row e)] else []) ++ found f d.
Proof.
  intros Hd. unfold found. rewrite (insert_error_rows d e Hd), filter_cons. cbn. by destruct (matches f (error_row e)).
Qed.

Lemma found_logged f es d :
  ids_below d → map (λ x, x.2) (found f (foldl insert_error d es)) ≡ₚ
    map (λ x, x.2) (found f d) ++ filter (λ r, matches f r = true) (map error_row es).
Proof.
  revert d. induction es as [|e es IH]; intros d Hd; cbn [foldl map].
  { by rewrite filter_nil, app_nil_r. }
  rewrite IH by by apply insert_error_below. rewrite (found_insert f d e Hd), map_app, filter_cons.
  destruct (matches f (error_row e)); [|done]. rewrite decide_True by done. cbn.
  by rewrite <- Permutation_middle.
Qed.

Lemma sorted_newest l : StronglySorted error_after l → StronglySorted (λ a b, er_timestamp b ≤ er_timestamp a) (map (λ x : Z * ErrorRow, _row_to_error x.2) l).
Proof.
  induction 1 as [|x l _ IH Hx]; cbn; [constructor|]. constructor; [done|]. apply Forall_map. eapply Forall_impl; [exact Hx|].
  intros y Hy. cbn. unfold error_after, error_before in Hy. rewrite orb_true_iff, andb_true_iff, Z.ltb_lt, Z.eqb_eq in Hy. lia.
Qed.

#[export] Instance error_after_total : Total error_after.
Proof.
  intros a b. unfold error_after, error_before. rewrite !orb_true_iff, !andb_true_iff, !Z.ltb_lt, !Z.eqb_eq, !Z.leb_le. lia.
Qed.
#[export] Instance error_after_trans : Transitive error_after.
Proof.
  intros a b c. unfold error_after, error_before. rewrite !orb_true_iff, !andb_true_iff, !Z.ltb_lt, !Z.eqb_eq, !Z.leb_le. lia.
Qed.
End spec.

(** What is logged is found. After [log_errors], a query (for any project, job, time and
    type, unpaged) lists exactly what it listed before and those of the new errors that it
    matches, each one as it was logged, the newest first; matching is decided on the stored
    row. *)
Theorem logged_errors_are_found `{ErrorText} f es d :
  ids_below d → Forall readable es →
  ∃ old new, (query_errors f None 0 d).1 = Ok old ∧ (query_errors f None 0 (log_errors es d).2).1 = Ok new ∧
    new ≡ₚ old ++ filter (λ e, matches f (error_row e) = true) es ∧
    StronglySorted (λ a b, er_timestamp b ≤ er_timestamp a) new.
Proof.
  intros Hd Hes. eexists _, _. split; [reflexivity|]. split; [reflexivity|]. unfold page_of. rewrite !drop_0. split.
  - assert (∀ d, map (λ x, _row_to_error x.2) (merge_sort error_after (found f d)) ≡ₚ map _row_to_error (map (λ x : Z * ErrorRow, x.2) (found f d))) as Hm.
    { intros d0. rewrite map_map. by rewrite merge_sort_Permutation. }
    fold (found f d). fold (found f (log_errors es d).2). rewrite !Hm.
    assert ((log_errors es d).2 = foldl insert_error d es) as -> by by destruct es.
    rewrite (found_logged f es d Hd), map_app. apply Permutation_app_head.
    clear Hm. induction Hes as [|e es He _ IH]; cbn [map]; [done|]. rewrite !filter_cons.
    destruct (matches f (error_row e)); [|exact IH]. rewrite !decide_True by done. cbn. by rewrite row_reads_back, IH.
  - apply sorted_newest, StronglySorted_merge_sort; apply _.
Qed.

(** ** A sample log *)

Definition limit_index (n : Budget.BudgetLimitName) : Z :=
  match n with
  | Budget.run_duration_seconds => 0 | Budget.requests => 1 | Budget.fetched_bytes => 2
  | Budget.extracted_records => 3 | Budget.serialized_result_bytes => 4 | Budget.browser_debug_bytes => 5
  end.
Definition limit_of (i : Z) : Budget.BudgetLimitName :=
  if i =? 0 then Budget.run_duration_seconds else if i =? 1 then Budget.requests
  else if i =? 2 then Budget.fetched_bytes else if i =? 3 then Budget.extracted_records
  else if i =? 4 then Budget.serialized_result_bytes else Budget.browser_debug_bytes.
Definition number (n : Z) : json := JNumber (String.string_of_list_ascii (str_int n)).
Definition sample_budget_dump (b : Budget.BudgetExceeded) : json :=
  JArray [number (limit_index (Budget.limit_name b)); number (Budget.configured_limit b); number (Budget.observed_amount b)].
Definition sample_budget_validate (v : json) : option Budget.BudgetExceeded :=
  match v with
  | JArray [a; b; c] =>
      match json_int a, json_int b, json_int c with
      | Some i, Some m, Some n =>
          Some {| Budget.limit_name := limit_of i; Budget.configured_limit := m; Budget.observed_amount := n |}
      | _, _, _ => None
      end
  | _ => None
  end.
Lemma sample_budget_reads b : sample_budget_validate (sample_budget_dump b) = Some b.
Proof. destruct b as [l m n]. unfold sample_budget_dump, sample_budget_validate, number. cbn [Budget.limit_name Budget.configured_limit Budget.observed_amount].
  rewrite !json_int_str. by destruct l. Qed.

Definition sample_selectors : list (string * Z) := [("h1", 2)].
#[export] Program Instance sample_error_text : ErrorText := {|
  json_dumps _ := "selectors"; json_loads _ := Some (selectors_json sample_selectors);
  writable v := v = selectors_json sample_selectors;
  budget_dump := sample_budget_dump; budget_validate := sample_budget_validate;
  budget_validate_dump := sample_budget_reads |}.
Next Obligation. by intros v ->. Qed.

Definition sample_error (url : string) (at_ : Z) (selectors : option (list (string * Z))) : ErrorRecord :=
  {| er_job_id := "j1"; er_run_id := "r1"; er_project := "p"; er_target_url := url; er_attempt := 1; er_timestamp := at_;
     er_error_type := selector_miss; er_http_status := Some 200; er_fetcher_used := "basic"; er_error_message := None;
     er_selectors_matched := selectors; er_budget := None; er_action_taken := act_warn; er_resolved := false |}.
Definition sample_errors : list ErrorRecord := [sample_error "a" 5 (Some sample_selectors); sample_error "b" 3 None].
Definition since_four : ErrorFilters := {| f_project := None; f_job_id := Some "j1"; f_since := Some 4; f_error_type := None |}.

Lemma logged_errors_are_found_witness :
  ∃ new, (query_errors since_four None 0 (log_errors sample_errors no_errors).2).1 = Ok new ∧
    new ≡ₚ [sample_error "a" 5 (Some sample_selectors)].
Proof.
  assert (ids_below no_errors) as Hi by (intros i; cbn; rewrite lookup_empty; by intros [? ?]).
  assert (Forall readable sample_errors) as Hr.
  { rewrite Forall_forall. intros e [->|[->|[]%not_elem_of_nil]%elem_of_cons]%elem_of_cons; constructor; cbn; try done.
    by intros l [= <-]. }
  destruct (logged_errors_are_found since_four sample_errors no_errors Hi Hr) as (old & new & Ho & Hn & Hp & _).
  exists new. split; [exact Hn|]. assert (old = []) as -> by (revert Ho; vm_compute; congruence).
  assert (filter (λ e, matches since_four (error_row e) = true) sample_errors = [sample_error "a" 5 (Some sample_selectors)])
    as Hf by (by vm_compute). rewrite Hf in Hp. exact Hp.
Defined.
