(* ===== verification/LocalResults.v ===== *)
(** * The result store ([storage/result_store.py], [storage/result_queries.py])

    [LocalResultStore]: result documents below a root directory, one folder per project, job
    and run, and [results_meta.db], one row per run. Reading a document is a parameter. A
    blocking call runs in a thread and ends before a cancellation is passed on
    ([cleanup_safe_to_thread]); the lock of [_save_guard] is not modelled: the theorems on
    [save_result] assume what it gives, that nobody else writes the run's artifact. *)

From S2P Require Import Prelude.
From S2P Require Import Text.
From S2P Require Import Paths.
From S2P Require Import Budget.
From S2P Require Import Rows.
From S2P Require Import JobDb.
From S2P Require Import Json.
From S2P Require Import JsonEncoding.
From S2P Require Import Proc.
From S2P Require Import Models.
From S2P Require Import ErrorStore.
From S2P Require Import Filesystem.
Open Scope Z_scope.

(** ** Paths as text *)

(** [PurePosixPath]: an anchor, empty if relative, and the parts. *)
Record PurePath := { anchor : string; parts : list string }.

Definition slash (a : Ascii.ascii) : bool := code a =? 47.
(** [s.split("/")] *)
Fixpoint segments (l : text) : list text :=
  match l with
  | [] => [[]]
  | a :: l =>
      if slash a then [] :: segments l
      else match segments l with w :: ws => (a :: w) :: ws | [] => [[a]] end
  end.
Definition anchor_of (l : text) : string :=
  match l with
  | a :: l =>
      if slash a then
        match l with
        | b :: l => if slash b && negb (match l with c :: _ => slash c | [] => false end) then "//" else "/"
        | [] => "/"
        end
      else ""
  | [] => ""
  end.
Definition significant (s : string) : bool := negb (bool_decide (s = "") || bool_decide (s = ".")).
Definition parse_path (s : string) : PurePath :=
  {| anchor := anchor_of (txt s);
     parts := filter (λ s, significant s = true) (map String.string_of_list_ascii (segments (txt s))) |}.
Fixpoint slashed (l : list string) : string :=
  match l with [] => "" | [s] => s | s :: l => s +:+ "/" +:+ slashed l end.
Definition path_str (p : PurePath) : string :=
  match parts p with
  | [] => if bool_decide (anchor p = "") then "." else anchor p
  | l => anchor p +:+ slashed l
  end.

Definition climb (l : list string) (c : string) : list string := if bool_decide (c = "..") then removelast l else l ++ [c].
(** [os.path.abspath] *)
Definition abspath (cwd p : PurePath) : PurePath :=
  let q := if bool_decide (anchor p = "") then {| anchor := anchor cwd; parts := parts cwd ++ parts p |} else p in
  {| anchor := anchor q; parts := foldl climb [] (parts q) |}.

(** ** The store *)

(** [second]: of the clock's unit. *)
Class ResultSettings := {
  results_dir : PurePath;
  cwd : PurePath;
  looks_up_active : bool;
  _max_serialized_result_bytes : Z;
  _max_artifact_tree_bytes : Z;
  _max_artifact_tree_entries : nat;
  budget_clock : nat → Z;
  second : Z;
}.

(** [json.loads]; a document it can give back is read as it was written. *)
Class JsonReader := {
  json_loads : text → outcome string json;
  readable : json → Prop;
  loads_encoded v : readable v → json_loads (encode v) = Ok v;
}.

Record MetaRow := {
  m_job_id : string;
  m_project : string;
  m_run_id : string;
  m_status : string;
  m_record_count : option Z;
  m_file_path : string;
  m_created_at : Z;
}.

(** The folder, and the identity, size and time of the file when it parsed. *)
Definition fingerprint : Type := fpath * Z * nat * Z.

(** [known_jobs] and [active_runs] are what [job_lookup] and [active_run_lookup] answer;
    [checks_left] the deadline checks that still pass, if there is a deadline. *)
Record archive := {
  files : disk;
  meta : gmap Z MetaRow;
  next_meta_id : Z;
  cursors : option (Z * option (string * string * string));
  _validated_artifacts : gmap Z fingerprint;
  today : Z;
  run_budget : option Budget.RunBudget;
  known_jobs : gmap string (string * string);
  active_runs : gset fpath;
  checks_left : option nat;
}.
Definition set_files (v : disk) (s : archive) : archive :=
  {| files := v; meta := meta s; next_meta_id := next_meta_id s; cursors := cursors s;
     _validated_artifacts := _validated_artifacts s; today := today s; run_budget := run_budget s;
     known_jobs := known_jobs s; active_runs := active_runs s; checks_left := checks_left s |}.
Definition set_meta (v : gmap Z MetaRow) (s : archive) : archive :=
  {| files := files s; meta := v; next_meta_id := next_meta_id s; cursors := cursors s;
     _validated_artifacts := _validated_artifacts s; today := today s; run_budget := run_budget s;
     known_jobs := known_jobs s; active_runs := active_runs s; checks_left := checks_left s |}.
Definition set_next_meta_id (v : Z) (s : archive) : archive :=
  {| files := files s; meta := meta s; next_meta_id := v; cursors := cursors s;
     _validated_artifacts := _validated_artifacts s; today := today s; run_budget := run_budget s;
     known_jobs := known_jobs s; active_runs := active_runs s; checks_left := checks_left s |}.
Definition set_cursors (v : option (Z * option (string * string * string))) (s : archive) : archive :=
  {| files := files s; meta := meta s; next_meta_id := next_meta_id s; cursors := v;
     _validated_artifacts := _validated_artifacts s; today := today s; run_budget := run_budget s;
     known_jobs := known_jobs s; active_runs := active_runs s; checks_left := checks_left s |}.
Definition set_validated (v : gmap Z fingerprint) (s : archive) : archive :=
  {| files := files s; meta := meta s; next_meta_id := next_meta_id s; cursors := cursors s;
     _validated_artifacts := v; today := today s; run_budget := run_budget s;
     known_jobs := known_jobs s; active_runs := active_runs s; checks_left := checks_left s |}.
Definition set_run_budget (v : option Budget.RunBudget) (s : archive) : archive :=
  {| files := files s; meta := meta s; next_meta_id := next_meta_id s; cursors := cursors s;
     _validated_artifacts := _validated_artifacts s; today := today s; run_budget := v;
     known_jobs := known_jobs s; active_runs := active_runs s; checks_left := checks_left s |}.
Definition set_checks_left (v : option nat) (s : archive) : archive :=
  {| files := files s; meta := meta s; next_meta_id := next_meta_id s; cursors := cursors s;
     _validated_artifacts := _validated_artifacts s; today := today s; run_budget := run_budget s;
     known_jobs := known_jobs s; active_runs := active_runs s; checks_left := v |}.

Record ResultPayload := { rp_run_id : string; rp_data : json; rp_status : string }.
Record ResultMetadata := {
  rm_job_id : string; rm_project : string; rm_run_id : string; rm_status : string;
  rm_record_count : option Z; rm_file_path : string; rm_created_at : Z;
}.

Definition meta_before (a b : Z * MetaRow) : Prop :=
  (m_created_at a.2 <? m_created_at b.2) || ((m_created_at a.2 =? m_created_at b.2) && (a.1 <=? b.1)) = true.
#[export] Instance meta_before_dec a b : Decision (meta_before a b).
Proof. unfold meta_before. apply _. Defined.
Definition meta_after (a b : Z * MetaRow) : Prop := meta_before b a.
#[export] Instance meta_after_dec a b : Decision (meta_after a b).
Proof. unfold meta_after. apply _. Defined.

(** ** Checked folders *)

Section store.
Context `{ResultSettings} `{JsonReader} `{Printable}.
Implicit Types (s : archive) (jid : string).

Abbreviation procedure := (proc archive).
Abbreviation step := (prog archive exn).

Definition _RESULT_RUN_DIR_DEPTH : nat := 3.
Definition _DELETE_ID_BATCH_SIZE : nat := 500.

Definition _root : PurePath := abspath cwd results_dir.

Fixpoint strip (l l' : list string) : option (list string) :=
  match l, l' with
  | [], l' => Some l'
  | a :: l, b :: l' => if bool_decide (a = b) then strip l l' else None
  | _ :: _, [] => None
  end.

(** No part below the root is a link. *)
Fixpoint unlinked (d : disk) (at_ rest : fpath) : outcome string unit :=
  match rest with
  | [] => Ok tt
  | c :: rest =>
      match lstat (at_ ++ [c]) d with
      | Ok (Link _) => Raise "ValueError"
      | Raise e => if bool_decide (e = "FileNotFoundError") then unlinked d (at_ ++ [c]) rest else Raise e
      | Ok _ => unlinked d (at_ ++ [c]) rest
      end
  end.

(** The folder that a path names, as its parts below the root. *)
Definition relative_dir (file_path : string) : option fpath :=
  let path := parse_path file_path in
  if bool_decide (".." ∈ parts path) then None
  else
    let resolved := abspath cwd path in
    if negb (bool_decide (anchor resolved = anchor _root)) then None
    else
      match strip (parts _root) (parts resolved) with
      | None => None
      | Some relative => if negb (bool_decide (length relative = _RESULT_RUN_DIR_DEPTH)) then None else Some relative
      end.
Definition _checked_result_dir (file_path : string) (d : disk) : outcome string fpath :=
  match relative_dir file_path with
  | None => Raise "ValueError"
  | Some relative => match unlinked d [] relative with Ok _ => Ok relative | Raise e => Raise e end
  end.
Definition _checked_result_dirs (paths : list string) (d : disk) : outcome string (list fpath) :=
  foldr (λ p l, match _checked_result_dir p d, l with
                | Raise e, _ => if bool_decide (e = "ValueError") then l else Raise e
                | Ok p, Ok l => Ok (p :: l)
                | Ok _, Raise e => Raise e
                end) (Ok []) paths.

(** [str(run_dir)] *)
Definition dir_str (relative : fpath) : string :=
  path_str {| anchor := anchor _root; parts := parts _root ++ relative |}.
(** [str(safe_join(self._results_dir, *parts))] *)
Definition joined_str (relative : fpath) : string :=
  path_str {| anchor := anchor results_dir; parts := parts results_dir ++ relative |}.

(** ** Calls *)

Definition on_disk {A} (m : disk_op A) : step A := λ s, let r := m (files s) in (in_library r.1, set_files r.2 s).

(** [cleanup_safe_to_thread]: once its thread has started, the call takes place. *)
Definition cleanup_safe_to_thread {A} (m : step A) : procedure A :=
  attempt (await OtherChannel (λ s, (Ok tt, s))) (λ o,
    match o with
    | Ok _ => local m
    | Raise e => if is_cancelled e then Local m (λ _, Throw Cancelled) else Throw (Broken "RuntimeError")
    end).
Definition disk_call {A} (m : Z → disk_op A) : procedure A := cleanup_safe_to_thread (λ s, on_disk (m (today s)) s).
Definition disk_now {A} (m : Z → disk_op A) : procedure A := local (λ s, on_disk (m (today s)) s).
Definition meta_call {A} (m : step A) : procedure A := await ResultChannel m.
Definition reading {A} (f : archive → A) : step A := λ s, (Ok (f s), s).

Definition job_lookup jid : procedure (string * string) :=
  await JobChannel (λ s, (match known_jobs s !! jid with Some x => Ok x | None => Raise (Broken "KeyError") end, s)).
Definition _active (identity : fpath) : procedure bool :=
  if negb looks_up_active then Return false
  else await JobChannel (reading (λ s, bool_decide (identity ∈ active_runs s))).
Definition checked_dir (file_path : string) : procedure fpath :=
  local (λ s, (in_library (_checked_result_dir file_path (files s)), s)).

(** ** Rows *)

Definition rows_where (P : MetaRow → bool) s : list (Z * MetaRow) :=
  merge_sort meta_before (filter (λ x, P x.2 = true) (map_to_list (meta s))).

(** [build_result_lookup_query]: a run's row, or the newest of the job. *)
Definition lookup_row jid (run_id : option string) s : option (Z * MetaRow) :=
  match run_id with
  | Some r => head (rows_where (λ x, bool_decide (m_job_id x = jid) && bool_decide (m_run_id x = r)) s)
  | None => last (rows_where (λ x, bool_decide (m_job_id x = jid)) s)
  end.

(** INSERT OR REPLACE, [job_id] and [run_id] being unique; ids are not used again. *)
Definition replace_row (row : MetaRow) : step unit := pmodify (λ s,
  set_next_meta_id (next_meta_id s + 1)
    (set_meta (<[next_meta_id s := row]>
       (filter (λ x, ¬ (m_job_id x.2 = m_job_id row ∧ m_run_id x.2 = m_run_id row)) (meta s))) s)).

(** One statement per batch, all in one transaction. *)
Definition _delete_metadata_ids (ids : list Z) : step unit := pmodify (λ s,
  set_validated (filter (λ x, x.1 ∉ ids) (_validated_artifacts s))
    (set_meta (filter (λ x, x.1 ∉ ids) (meta s)) s)).

(** ** Saving *)

Definition check_budget : step unit := λ s,
  match run_budget s with
  | None => (Ok tt, s)
  | Some b => let r := Budget.check_deadline budget_clock b in (in_budget r.1, set_run_budget (Some r.2) s)
  end.

(** A document, or how far it got when it exceeded the limit. *)
Inductive written := Sized (bytes : Z) | TooBig (observed : Z).

Definition write_json_file_bounded (path : fpath) (data : json) (max_bytes : Z) : step written := λ s,
  if max_bytes <? 0 then (Raise (Broken "ValueError"), s)
  else
    let r := stream (E := exn + Z) (λ s, let r := check_budget s in
                       (match r.1 with Ok _ => Ok tt | Raise e => Raise (inl e) end, r.2))
               inr (iter_json_bytes data) max_bytes 0 s in
    match r.1 with
    | Ok n =>
        let w := on_disk (write_bytes_file (today s) path (compact_json_bytes data)) r.2 in
        (match w.1 with Ok _ => Ok (Sized n) | Raise e => Raise e end, w.2)
    | Raise (inr observed) => (Ok (TooBig observed), r.2)
    | Raise (inl e) => (Raise e, r.2)
    end.

(** [restore_previous] *)
Definition restore_previous (run_dir path : fpath) (run_dir_existed : bool) (previous : option text) : procedure unit :=
  do* match previous with
      | None => except (disk_now (λ now, unlink now path))
                  (λ e, match e with
                        | Broken t => if bool_decide (t = "FileNotFoundError") then Return tt else Throw e
                        | _ => Throw e
                        end)
      | Some bytes => disk_call (λ now, write_bytes_file now path bytes)
      end in
  if run_dir_existed then Return tt
  else except (disk_now (λ now, rmdir now run_dir)) (λ _, Return tt).

Definition serialized_limit (max_serialized_bytes : option Z) s : Z :=
  match run_budget s with
  | Some b => Budget.max_serialized_result_bytes (Budget.lim b)
  | None => default _max_serialized_result_bytes max_serialized_bytes
  end.

(** [budget.enforce_serialized_result_bytes], then the error of the store. *)
Definition too_big {A} (limit observed : Z) : step A := λ s,
  let error := Raise (BudgetStop {| Budget.limit_name := Budget.serialized_result_bytes;
                                    Budget.configured_limit := limit; Budget.observed_amount := observed |}) in
  match run_budget s with
  | None => (error, s)
  | Some b =>
      let r := Budget.enforce_serialized_result_bytes budget_clock observed b in
      (match in_budget r.1 with Ok _ => error | Raise e => Raise e end, set_run_budget (Some r.2) s)
  end.

(** The document is written and its row replaced. A cancellation of the write stops it, or
    comes too late. *)
Definition write_and_record jid project run_id (status : string) (record_count : option Z) (data : json)
    (run_dir path : fpath) (limit : Z) : procedure written :=
  let* w := await OtherChannel (write_json_file_bounded path data limit) in
  match w with
  | TooBig observed => Return w
  | Sized _ =>
      do* local check_budget in
      do* meta_call (λ s, replace_row {| m_job_id := jid; m_project := project; m_run_id := run_id; m_status := status;
            m_record_count := record_count; m_file_path := dir_str run_dir; m_created_at := today s |} s) in
      Return w
  end.

(** The part under [_save_guard]. *)
Definition replace_artifact jid project run_id (status : string) (record_count : option Z) (data : json)
    (run_dir : fpath) (limit : Z) : procedure Z :=
  let* run_dir_existed := local (reading (λ s, exists_at run_dir (files s))) in
  do* disk_call (λ now, ensure_directory now run_dir) in
  let path := run_dir ++ ["results.json"] in
  let* previous := except (let* b := disk_call (λ _, read_bytes_file_no_follow path) in Return (Some b))
                     (λ e, match e with
                           | Broken t => if bool_decide (t = "FileNotFoundError") then Return None else Throw e
                           | _ => Throw e
                           end) in
  attempt (write_and_record jid project run_id status record_count data run_dir path limit) (λ o,
    match o with
    | Ok (Sized n) => do* local check_budget in Return n
    | Ok (TooBig observed) =>
        do* restore_previous run_dir path run_dir_existed previous in
        local (too_big limit observed)
    | Raise e => do* restore_previous run_dir path run_dir_existed previous in Throw e
    end).

(** [drawn] is what [generate_run_id] returns, when no run id is given. *)
Definition save_result jid (data : json) (run_id : option string) (drawn status : string) (record_count : option Z)
    (max_serialized_bytes : option Z) : procedure SaveResultMeta :=
  let* job := job_lookup jid in
  let run_id := match run_id with Some r => if bool_decide (r = "") then drawn else r | None => drawn end in
  let* limit := local (reading (serialized_limit max_serialized_bytes)) in
  match safe_join [job.1; job.2; run_id] with
  | Raise e => Throw (Broken e)
  | Ok relative =>
      let* run_dir := checked_dir (joined_str relative) in
      let* n := replace_artifact jid job.1 run_id status record_count data run_dir limit in
      Return {| sm_run_id := run_id; sm_file_path := dir_str run_dir; sm_record_count := record_count;
                sm_serialized_bytes := n |}
  end.

(** ** Reading *)

Definition read_json (path : fpath) (max_bytes : option Z) : disk_op json := λ d,
  let r := _read_bytearray_file_no_follow path max_bytes d in
  (match r.1 with Ok bytes => json_loads bytes | Raise e => Raise e end, r.2).

(** [data.get(key)]; of a repeated key the last value counts. *)
Definition member (key : string) (v : json) : option json :=
  match v with JObject m => last (filter (λ x, x.1 = key) m).*2 | _ => None end.
(** [field in data and data[field] != value] *)
Definition mismatch (v : json) (x : string * string) : bool :=
  match member x.1 v with None => false | Some (JString t) => negb (bool_decide (t = x.2)) | Some _ => true end.

Definition corrupt_kind (e : string) : bool :=
  bool_decide (e = "FileSizeLimitExceeded") || bool_decide (e = "JSONDecodeError") || bool_decide (e = "UnicodeDecodeError").

Definition get_result jid (run_id : option string) : procedure ResultPayload :=
  let* found := meta_call (reading (lookup_row jid run_id)) in
  match found with
  | None => Throw (Broken "KeyError")
  | Some (_, row) =>
      let* run_dir := checked_dir (m_file_path row) in
      let* data := except (await OtherChannel (λ s,
          on_disk (read_json (run_dir ++ ["results.json"]) (Some _max_serialized_result_bytes)) s))
        (λ e, match e with
              | Broken t => Throw (if corrupt_kind t then Broken "ResultArtifactReadError" else e)
              | _ => Throw e
              end) in
      if existsb (mismatch data) [("job_id", m_job_id row); ("run_id", m_run_id row); ("project", m_project row)]
      then Throw (Broken "ResultArtifactReadError")
      else Return {| rp_run_id := m_run_id row; rp_data := data; rp_status := m_status row |}
  end.

Definition metadata_of_row (row : MetaRow) : ResultMetadata :=
  {| rm_job_id := m_job_id row; rm_project := m_project row; rm_run_id := m_run_id row; rm_status := m_status row;
     rm_record_count := m_record_count row; rm_file_path := m_file_path row; rm_created_at := m_created_at row |}.
Definition get_result_metadata jid (run_id : option string) : procedure (option ResultMetadata) :=
  let* found := meta_call (reading (lookup_row jid run_id)) in
  Return (match found with Some x => Some (metadata_of_row x.2) | None => None end).

(** ** Deleting *)

Fixpoint checked_all (paths : list string) (d : disk) : outcome string (list fpath) :=
  match paths with
  | [] => Ok []
  | p :: paths =>
      match _checked_result_dir p d with
      | Raise e => Raise e
      | Ok p => match checked_all paths d with Raise e => Raise e | Ok l => Ok (p :: l) end
      end
  end.

(** [dict.fromkeys] *)
Fixpoint fromkeys (seen l : list fpath) : list fpath :=
  match l with
  | [] => []
  | x :: l => if bool_decide (x ∈ seen) then fromkeys seen l else x :: fromkeys (x :: seen) l
  end.

(** The folders go before their rows, so that an interrupted removal can be repeated. *)
Definition _delete_files_then_ids (found : list (Z * MetaRow)) (additional_paths : list string) : procedure Z :=
  if bool_decide (found = []) && bool_decide (additional_paths = []) then Return 0
  else
    let* paths := local (λ s, (in_library (checked_all (map (λ x, m_file_path x.2) found ++ additional_paths) (files s)), s)) in
    do* disk_call (λ now, remove_directories now (fromkeys [] paths)) in
    do* match found with [] => Return tt | _ => meta_call (_delete_metadata_ids (map fst found)) end in
    Return (Z.of_nat (length found)).

Fixpoint owned_paths (project job_name : string) (owned_run_ids : list string) : outcome string (list string) :=
  match owned_run_ids with
  | [] => Ok []
  | r :: l =>
      match safe_join [project; job_name; r] with
      | Raise e => Raise e
      | Ok p => match owned_paths project job_name l with Raise e => Raise e | Ok ps => Ok (joined_str p :: ps) end
      end
  end.

Definition delete_results jid (owned_run_ids : list string) : procedure unit :=
  let* job := job_lookup jid in
  match owned_paths job.1 job.2 owned_run_ids with
  | Raise e => Throw (Broken e)
  | Ok expected_paths =>
      let* found := meta_call (reading (rows_where (λ x, bool_decide (m_job_id x = jid)))) in
      do* _delete_files_then_ids found expected_paths in Return tt
  end.

Definition delete_result jid run_id : procedure bool :=
  let* found := meta_call (reading (rows_where (λ x, bool_decide (m_job_id x = jid) && bool_decide (m_run_id x = run_id)))) in
  let* n := _delete_files_then_ids found [] in
  if negb (n =? 0) then Return true
  else
    let* job := job_lookup jid in
    match safe_join [job.1; job.2; run_id] with
    | Raise e => Throw (Broken e)
    | Ok relative =>
        let* run_dir := checked_dir (joined_str relative) in
        let* existed := local (reading (λ s, is_directory run_dir (files s))) in
        do* disk_call (λ now, remove_directories now [run_dir]) in
        Return existed
    end.

(** ** Retention *)

(** The rows that are not of an active run; of a failed lookup the row stays. *)
Fixpoint inactive_rows (found : list (Z * MetaRow)) : procedure (list (Z * MetaRow)) :=
  match found with
  | [] => Return []
  | x :: found =>
      let* keep := attempt (checked_dir (m_file_path x.2)) (λ o,
        match o with
        | Raise _ => Return true
        | Ok identity =>
            attempt (_active identity) (λ o,
              match o with
              | Raise e => if is_cancelled e then Throw e else Return false
              | Ok active => Return (negb active)
              end)
        end) in
      let* rest := inactive_rows found in
      Return (if keep : bool then x :: rest else rest)
  end.

Definition _delete_retention_batch (query : archive → list (Z * MetaRow)) : procedure Z :=
  let* found := meta_call (reading query) in
  let* inactive := inactive_rows found in
  match inactive with
  | [] => Return 0
  | _ =>
      do* meta_call (_delete_metadata_ids (map fst inactive)) in
      let* paths := local (λ s, (in_library (_checked_result_dirs (map (λ x, m_file_path x.2) inactive) (files s)), s)) in
      do* disk_call (λ now, remove_directories now paths) in
      Return (Z.of_nat (length inactive))
  end.

Definition EXPIRED_RESULTS_QUERY (cutoff : Z) (limit : nat) s : list (Z * MetaRow) :=
  take limit (rows_where (λ r, m_created_at r <? cutoff) s).
(** ROW_NUMBER of the rows of a job, newest first, from 1. *)
Definition rank (x : Z * MetaRow) s : nat :=
  length (filter (λ y, m_job_id y.2 = m_job_id x.2 ∧ meta_after y x) (map_to_list (meta s))).
Definition excess (max_results : nat) s : list (Z * MetaRow) :=
  filter (λ x, max_results < rank x s)%nat (rows_where (λ _, true) s).
Definition EXCESS_RESULTS_PER_JOB_QUERY (max_results limit : nat) s : list (Z * MetaRow) :=
  take limit (excess max_results s).

Definition SECONDS_PER_DAY : Z := 86400.
Definition delete_expired (retention_days : Z) (limit : nat) : procedure Z :=
  if retention_days <? 1 then Throw (Broken "ValueError")
  else if (limit <? 1)%nat then Throw (Broken "ValueError")
  else
    let* now := local (reading today) in
    _delete_retention_batch (EXPIRED_RESULTS_QUERY (now - retention_days * SECONDS_PER_DAY * second) limit).
Definition prune_excess_per_job (max_results_per_job limit : nat) : procedure Z :=
  if (max_results_per_job <? 1)%nat then Throw (Broken "ValueError")
  else if (limit <? 1)%nat then Throw (Broken "ValueError")
  else _delete_retention_batch (EXCESS_RESULTS_PER_JOB_QUERY max_results_per_job limit).

Definition snapshot_of (l : list (Z * MetaRow)) : CleanupBacklogSnapshot :=
  {| eligible_count := length l; oldest_eligible_at := (λ x, m_created_at x.2) <$> head l |}.
Definition summarize_cleanup_backlog (expired_before : Z) (max_results_per_job : nat) :
    procedure (CleanupBacklogSnapshot * CleanupBacklogSnapshot) :=
  meta_call (reading (λ s, (snapshot_of (rows_where (λ r, m_created_at r <? expired_before) s),
                            snapshot_of (excess max_results_per_job s)))).
End store.
