(* ===== verification/LocalResultsSpec.v ===== *)
(** * What a save leaves, and reading it back

    Where a result goes, and what a save leaves behind whatever happens meanwhile. *)

From S2P Require Import Prelude.
From S2P Require Import Text.
From S2P Require Import Paths.
From S2P Require Import Budget.
From S2P Require Import JobDb.
From S2P Require Import Json.
From S2P Require Import JsonEncoding.
From S2P Require Import Proc.
From S2P Require Import Models.
From S2P Require Import Filesystem.
From S2P Require Import LocalResults.
Open Scope Z_scope.

(** ** Paths *)

(** One part of a path: not empty, not a dot, and without a slash. *)
Definition part_ok (c : string) : Prop := significant c = true ∧ Forall (λ a, slash a = false) (txt c).
Definition name_ok (c : string) : Prop := part_ok c ∧ c ≠ "..".

Lemma segments_free w : Forall (λ a, slash a = false) w → segments w = [w].
Proof. induction 1 as [|a w Ha _ IH]; cbn [segments]; [done|]. by rewrite Ha, IH. Qed.
Lemma segments_slash w l : Forall (λ a, slash a = false) w → segments (w ++ chr 47 :: l) = w :: segments l.
Proof. induction 1 as [|a w Ha _ IH]; cbn [segments app]; [done|]. by rewrite Ha, IH. Qed.
Lemma slashed_cons c c' l : slashed (c :: c' :: l) = c +:+ "/" +:+ slashed (c' :: l).
Proof. done. Qed.
Lemma segments_slashed l : l ≠ [] → Forall part_ok l → segments (txt (slashed l)) = map txt l.
Proof.
  intros Hne Hl. induction Hl as [|c l [_ Hc] Hl IH]; [done|]. destruct l as [|c' l]; [by apply segments_free|].
  rewrite slashed_cons, !txt_app. change (txt "/") with [chr 47]. cbn [app]. rewrite segments_slash by done. by rewrite (IH ltac:(done)).
Qed.
Lemma slashed_head c l : part_ok c → ∃ a w, txt (slashed (c :: l)) = a :: w ∧ slash a = false.
Proof.
  intros [Hs Hc]. assert (∃ a w, txt c = a :: w) as (a & w & E).
  { destruct (txt c) as [|a w] eqn:E; [|eauto]. apply (f_equal String.string_of_list_ascii) in E.
    rewrite String.string_of_list_ascii_of_string in E. cbn in E. by subst. }
  rewrite E in Hc. inversion Hc; subst. destruct l; cbn [slashed]; [eauto|]. rewrite txt_app, E. cbn [app]. eauto.
Qed.

Lemma anchor_slash a w : slash a = false → anchor_of (chr 47 :: a :: w) = "/".
Proof. intros Ha. cbn. by rewrite Ha. Qed.

Lemma parsed_parts l : Forall part_ok l →
  filter (λ s, significant s = true) (map String.string_of_list_ascii (map txt l)) = l.
Proof.
  induction 1 as [|c l [Hc _] _ IH]; [done|]. cbn [map]. unfold txt at 1. rewrite String.string_of_list_ascii_of_string.
  by rewrite filter_cons_True, IH.
Qed.

Lemma parsed_empty l :
  filter (λ s, significant s = true) (map String.string_of_list_ascii ([] :: l)) =
  filter (λ s, significant s = true) (map String.string_of_list_ascii l).
Proof. done. Qed.

(** An anchor as [Path] has it. *)
Definition anchor_ok (s : string) : Prop := s = "" ∨ s = "/" ∨ s = "//".

Lemma parse_printed p : anchor_ok (anchor p) → parts p ≠ [] → Forall part_ok (parts p) → parse_path (path_str p) = p.
Proof.
  destruct p as [an l]; cbn [anchor parts]. intros Ha Hne Hl. unfold parse_path, path_str. cbn [anchor parts].
  destruct l as [|c l]; [done|]. destruct (slashed_head c l) as (a & w & E & Hs); [by inversion Hl|].
  rewrite !txt_app. pose proof (segments_slashed (c :: l) ltac:(done) Hl) as Hseg.
  destruct Ha as [->|[->| ->]].
  - change (txt "") with (@nil Ascii.ascii). cbn [app]. rewrite Hseg, parsed_parts by done. f_equal. rewrite E. cbn. by rewrite Hs.
  - change (txt "/") with [chr 47]. cbn [app]. rewrite E, anchor_slash by done. f_equal. rewrite <- E.
    change (chr 47 :: txt (slashed (c :: l))) with ([] ++ chr 47 :: txt (slashed (c :: l))).
    rewrite segments_slash, Hseg, parsed_empty by done. by apply parsed_parts.
  - change (txt "//") with [chr 47; chr 47]. cbn [app]. f_equal; [rewrite E; cbn; by rewrite Hs|].
    change (chr 47 :: chr 47 :: txt (slashed (c :: l))) with ([] ++ chr 47 :: [] ++ chr 47 :: txt (slashed (c :: l))).
    rewrite !segments_slash, Hseg, !parsed_empty by done. by apply parsed_parts.
Qed.

Lemma climb_up l acc : Forall (λ c, c ≠ "..") l → foldl climb acc l = acc ++ l.
Proof.
  intros Hl. revert acc. induction Hl as [|c l Hc _ IH]; intros acc; cbn; [by rewrite app_nil_r|].
  unfold climb at 2. rewrite bool_decide_false by done. by rewrite IH, <- app_assoc.
Qed.

Lemma strip_app l l' : strip l (l ++ l') = Some l'.
Proof. induction l as [|a l IH]; cbn; [done|]. by rewrite bool_decide_true. Qed.
Lemma strip_some l l' r : strip l l' = Some r → l' = l ++ r.
Proof.
  revert l'. induction l as [|a l IH]; intros [|b l']; cbn; try congruence.
  case_bool_decide; [|done]. subst. by intros ->%IH.
Qed.

Section paths.
Context `{ResultSettings}.

(** The directory is named without dots; the working directory is absolute. *)
Record settings_ok : Prop := {
  so_dir : anchor_ok (anchor results_dir) ∧ Forall name_ok (parts results_dir);
  so_cwd : (anchor cwd = "/" ∨ anchor cwd = "//") ∧ Forall name_ok (parts cwd);
}.
Context (ok : settings_ok).

Lemma names_no_dots l : Forall name_ok l → Forall (λ c, c ≠ "..") l.
Proof. intros Hl. eapply Forall_impl; [exact Hl|]. by intros c []. Qed.
Lemma names_parts l : Forall name_ok l → Forall part_ok l.
Proof. intros Hl. eapply Forall_impl; [exact Hl|]. by intros c []. Qed.

Lemma root_ok : anchor_ok (anchor _root) ∧ anchor _root ≠ "" ∧ Forall name_ok (parts _root).
Proof.
  destruct ok as [[Ha Hp] [Hca Hcp]]. unfold _root, abspath. case_bool_decide as E; cbn.
  - rewrite climb_up by (apply names_no_dots, Forall_app; by split). cbn. split_and!; [right; tauto| |by apply Forall_app].
    destruct Hca as [-> | ->]; done.
  - rewrite climb_up by by apply names_no_dots. done.
Qed.

Lemma abspath_below base relative :
  anchor_ok (anchor base) → Forall name_ok (parts base) → abspath cwd base = _root → Forall name_ok relative →
  abspath cwd {| anchor := anchor base; parts := parts base ++ relative |} = {| anchor := anchor _root; parts := parts _root ++ relative |}.
Proof.
  intros Ha Hb <- Hr. destruct ok as [_ [_ Hc]]. unfold abspath. cbn. case_bool_decide; cbn.
  - rewrite !climb_up by (apply names_no_dots; rewrite ?Forall_app; tauto). cbn. by rewrite app_assoc.
  - by rewrite !climb_up by (apply names_no_dots; rewrite ?Forall_app; tauto).
Qed.

Lemma relative_below base relative :
  anchor_ok (anchor base) → Forall name_ok (parts base) → abspath cwd base = _root →
  Forall name_ok relative → length relative = 3%nat →
  relative_dir (path_str {| anchor := anchor base; parts := parts base ++ relative |}) = Some relative.
Proof.
  intros Ha Hb Hroot Hr Hl. unfold relative_dir.
  rewrite parse_printed; cbn [anchor parts]; [|done|by destruct (parts base), relative|apply names_parts, Forall_app; by split].
  rewrite bool_decide_false.
  2:{ intros Hin. pose proof (names_no_dots (parts base ++ relative) ltac:(by apply Forall_app)) as Hn.
      by apply (proj1 (Forall_forall _ _) Hn) in Hin. }
  rewrite abspath_below by done. cbn [anchor parts]. rewrite bool_decide_true by done. cbn [negb]. rewrite strip_app.
  by rewrite bool_decide_true by (rewrite Hl; done).
Qed.
Lemma checked_below base relative d :
  anchor_ok (anchor base) → Forall name_ok (parts base) → abspath cwd base = _root →
  Forall name_ok relative → length relative = 3%nat →
  _checked_result_dir (path_str {| anchor := anchor base; parts := parts base ++ relative |}) d =
    match unlinked d [] relative with Ok _ => Ok relative | Raise e => Raise e end.
Proof. intros. unfold _checked_result_dir. by rewrite relative_below. Qed.

Lemma checked_joined relative d : Forall name_ok relative → length relative = 3%nat →
  _checked_result_dir (joined_str relative) d = match unlinked d [] relative with Ok _ => Ok relative | Raise e => Raise e end.
Proof. destruct ok as [[Ha Hp] _]. by apply checked_below. Qed.
Lemma root_abs : abspath cwd _root = _root.
Proof.
  destruct root_ok as (_ & Hne & Hp). destruct _root as [an l] eqn:E. unfold abspath. cbn in *.
  rewrite bool_decide_false by done. cbn. by rewrite climb_up by by apply names_no_dots.
Qed.
Lemma checked_dir_str relative d : Forall name_ok relative → length relative = 3%nat →
  _checked_result_dir (dir_str relative) d = match unlinked d [] relative with Ok _ => Ok relative | Raise e => Raise e end.
Proof. destruct root_ok as (Ha & _ & Hp). apply checked_below; [done|done|apply root_abs]. Qed.

Lemma segments_parts l : Forall (Forall (λ a, slash a = false)) (segments l).
Proof.
  induction l as [|a l IH]; cbn [segments]; [by repeat constructor|]. destruct (slash a) eqn:Ha; [by constructor|].
  destruct IH as [|w ws Hw Hws]; repeat constructor; auto.
Qed.
Lemma parsed_ok s : Forall part_ok (parts (parse_path s)).
Proof.
  cbn. apply Forall_forall. intros c [Hc Hin]%list_elem_of_filter. split; [done|].
  apply list_elem_of_fmap in Hin as (w & -> & Hw). unfold txt. rewrite String.list_ascii_of_string_of_list_ascii.
  by apply (proj1 (Forall_forall _ _) (segments_parts (txt s))).
Qed.

Lemma unlinked_no_link d at_ rest q :
  unlinked d at_ rest = Ok tt → q `prefix_of` rest → q ≠ [] → ∀ k, lstat (at_ ++ q) d ≠ Ok (Link k).
Proof.
  revert at_ q. induction rest as [|c rest IH]; intros at_ q; cbn [unlinked].
  { by intros _ ->%prefix_nil_inv. }
  intros Hu Hq Hne k. destruct q as [|c' q]; [done|]. pose proof (prefix_cons_inv_1 _ _ _ _ Hq) as ->.
  apply prefix_cons_inv_2 in Hq. destruct (decide (q = [])) as [->|Hq'].
  - intros E. by rewrite E in Hu.
  - rewrite cons_middle, app_assoc. revert k. apply IH; [|done|done].
    destruct (lstat (at_ ++ [c]) d) as [[]|e]; try done. by case_bool_decide.
Qed.

(** [C29] A path of the metadata is only ever followed inside the results directory: when the
    store accepts a stored path, whatever its text, the path is a project, a job and a run
    below the directory, none of the three is empty, a dot, two dots or contains a slash, and
    none of the folders on the way is a link. *)
Theorem result_paths_are_contained file_path d relative :
  _checked_result_dir file_path d = Ok relative →
  length relative = 3%nat ∧ Forall name_ok relative ∧
  abspath cwd (parse_path file_path) = {| anchor := anchor _root; parts := parts _root ++ relative |} ∧
  (∀ q k, q `prefix_of` relative → q ≠ [] → lstat q d ≠ Ok (Link k)).
Proof.
  unfold _checked_result_dir, relative_dir. case_bool_decide as Hdots; [done|].
  case_bool_decide as Ha; cbn [negb]; [|done]. destruct (strip _ _) as [r|] eqn:Es; [|done]. apply strip_some in Es.
  case_bool_decide as Hl; cbn [negb]; [|done]. destruct (unlinked d [] r) as [[]|] eqn:Eu; [|done]. intros [= <-].
  assert (Forall name_ok (parts (abspath cwd (parse_path file_path)))) as Hn.
  { assert (Forall name_ok (parts (parse_path file_path))) as Hp.
    { apply Forall_forall. intros c Hc. split; [by apply (proj1 (Forall_forall _ _) (parsed_ok file_path))|by intros ->]. }
    destruct ok as [_ [_ Hc]]. unfold abspath. case_bool_decide; cbn [parts anchor];
      rewrite climb_up by (apply names_no_dots; rewrite ?Forall_app; tauto); cbn [app]; rewrite ?Forall_app; tauto. }
  rewrite Es, Forall_app in Hn. split_and!; [done|tauto| |].
  - destruct (abspath cwd (parse_path file_path)) as [an l]. cbn in *. by subst.
  - intros q k Hq Hne. by apply (unlinked_no_link d [] r).
Qed.
End paths.

(** ** Calls in threads *)

Lemma always_cleanup {A} (rely : archive → archive → Prop) fails (P : archive → Prop) (m : prog archive exn A) (Q : outcome exn A → archive → Prop) :
  stable rely P →
  (∀ s, P s → Q (m s).1 (m s).2 ∧ Q (Raise Cancelled) (m s).2) →
  (∀ s, P s → fails OtherChannel → Q (Raise (Broken "RuntimeError")) s) →
  always rely fails P (cleanup_safe_to_thread m) Q.
Proof.
  intros Hst Hm Hf. unfold cleanup_safe_to_thread.
  eapply (always_attempt rely fails _ _ _ (λ o s, P s ∧ ∀ e, o = Raise e → e = Cancelled ∨ fails OtherChannel)).
  - apply always_await; [done|by intros s Hs|]. intros s e Hs He. split; (split; [done|]); by intros e' [= <-].
  - intros [u|e].
    + apply always_local. intros s [Hs _]. by apply Hm.
    + destruct (is_cancelled e) eqn:Ee.
      * intros n s [Hs _]. cbn. by apply Hm.
      * apply always_throw. intros s [Hs He]. apply Hf; [done|]. destruct (He e eq_refl) as [->|]; done.
Qed.

(** ** Saving *)

Section save.
Context `{ResultSettings} `{JsonReader} `{Printable}.
Context (jid rid : string) (dir : fpath).
Implicit Types s : archive.

Definition artifact_path : fpath := dir ++ ["results.json"].
Definition rows_of s : gmap Z MetaRow := filter (λ x, m_job_id x.2 = jid ∧ m_run_id x.2 = rid) (meta s).

(** Nobody else writes the run's artifact and its row, as the lock of [_save_guard] has it. *)
Record leaves_run s s' : Prop := {
  lr_tree : tree_ok (nodes (files s)) → tree_ok (nodes (files s'));
  lr_artifact : content (nodes (files s') !! artifact_path) = content (nodes (files s) !! artifact_path);
  lr_rows : rows_of s' = rows_of s;
  lr_jobs : known_jobs s' !! jid = known_jobs s !! jid;
  lr_limit m : serialized_limit m s' = serialized_limit m s;
  lr_faults : faults (files s) = [] → faults (files s') = [];
}.

Context (project status : string) (count : option Z) (data : json).
Definition row_at (t : Z) : MetaRow :=
  {| m_job_id := jid; m_project := project; m_run_id := rid; m_status := status; m_record_count := count;
     m_file_path := dir_str dir; m_created_at := t |}.
Definition recorded s : Prop := ∃ id t, rows_of s = {[ id := row_at t ]}.

(** [calm]: no call fails, and the disk has no faults. *)
Context (fails : channel → Prop) (calm : Prop) (calm_fails : calm → ∀ c, ¬ fails c).
Context (old : option text) (old_rows : gmap Z MetaRow).
Abbreviation always := (always leaves_run fails).
Abbreviation new := (Some (encode data)).

(** The content of the artifact is [x]; [r]: the row was replaced. *)
Record now_at (x : option text) (r : bool) s : Prop := {
  na_artifact : holds artifact_path x (nodes (files s));
  na_rows : if r then recorded s else rows_of s = old_rows;
  na_faults : calm → faults (files s) = [];
}.
(** The artifact is the old one or the new one, the row as well; when nothing failed, a new
    artifact has its row. *)
Definition whole_or_old s : Prop :=
  (∃ x r, now_at x r s ∧ (x = old ∨ x = new)) ∧ (calm → now_at old false s ∨ now_at old true s ∨ now_at new true s).

Lemma now_at_stable x r : stable leaves_run (now_at x r).
Proof.
  intros s s' [[Ht Hx] Hr Hf] [Lt La Lr _ _ Lf]. split; [split; [auto|congruence]| |auto].
  destruct r; [|congruence]. destruct Hr as (id & t & E). exists id, t. congruence.
Qed.
Lemma whole_now x r s : now_at x r s → x = old ∧ r = false ∨ x = old ∧ r = true ∨ x = new ∧ r = true → whole_or_old s.
Proof. intros Hs Hc. split; [exists x, r; tauto|]. intros _. destruct Hc as [[-> ->]|[[-> ->]|[-> ->]]]; tauto. Qed.

(** ** Calls *)

Lemma on_disk_now x r x' s d : 
  now_at x r s → holds artifact_path x' (nodes d) → (calm → faults d = []) → now_at x' r (set_files d s).
Proof. intros [_ Hr _] Hh Hf. by split. Qed.

Lemma always_disk {A} x r (m : Z → disk_op A) :
  (∀ now d, holds artifact_path x (nodes d) → holds artifact_path x (nodes (m now d).2)) →
  (∀ now d, faults d = [] → faults (m now d).2 = []) →
  always (now_at x r) (disk_call m) (λ _, now_at x r).
Proof.
  intros Hm Hf. apply always_cleanup; [apply now_at_stable| |done]. intros s Hs.
  assert (now_at x r (on_disk (m (today s)) s).2) as Hn; [|by split].
  unfold on_disk. cbn. eapply on_disk_now; [exact Hs|by apply Hm, Hs|]. intros Hc. by apply Hf, Hs.
Qed.

Lemma read_content p n d :
  tree_ok (nodes d) →
  let r := _read_bytearray_file_no_follow p n d in
  nodes r.2 = nodes d ∧ (faults d = [] → faults r.2 = []) ∧ (∀ b, r.1 = Ok b → content (nodes d !! p) = Some b) ∧
  (r.1 = Raise "FileNotFoundError" → content (nodes d !! p) = None).
Proof.
  intros Ht. cbv zeta. unfold _read_bytearray_file_no_follow. destruct (match n with Some _ => _ | None => _ end); [done|].
  set (m := λ d, _). assert (∀ d', nodes d' = nodes d → (∀ b, (m d').1 = Ok b → content (nodes d !! p) = Some b) ∧
    ((m d').1 = Raise "FileNotFoundError" → content (nodes d !! p) = None)) as Hm.
  { intros d' E. unfold m. cbn. destruct (lstat p d') as [k|e] eqn:El.
    - apply lstat_ok in El. rewrite <- E, El. destruct k as [|b ? ?|]; cbn; try done.
      destruct (match n with Some _ => _ | None => _ end); [done|]. by split; [intros b' [= ->]|].
    - cbn. split; [done|]. intros _. rewrite <- E in Ht |- *. by rewrite (lstat_missing d' p e). }
  split_and!.
  - by apply (faulty_keeps _ _ (λ t, t = nodes d)).
  - intros Hf. by apply faulty_no_faults.
  - intros b [fs Hb]%faulty_ok. apply (proj1 (Hm (with_faults fs d) eq_refl)). by rewrite Hb.
  - intros [|[fs Hb]]%faulty_raise; [done|]. apply (proj2 (Hm (with_faults fs d) eq_refl)). by rewrite Hb.
Qed.

(** The previous artifact. *)
Lemma previous_read :
  always (now_at old false)
    (except (let* b := disk_call (λ _, read_bytes_file_no_follow artifact_path) in Return (Some b))
       (λ e, match e with
             | Broken t => if bool_decide (t = "FileNotFoundError") then Return None else Throw e
             | _ => Throw e
             end))
    (λ o s, now_at old false s ∧ ∀ p, o = Ok p → p = old).
Proof.
  eapply (always_except _ _ _ _ _ (λ o s, now_at old false s ∧ (∀ p, o = Ok p → p = old) ∧
    (o = Raise (Broken "FileNotFoundError") → old = None))).
  - eapply (always_bind _ _ _ _ _ (λ o s, now_at old false s ∧ (∀ b, o = Ok b → old = Some b) ∧
      (o = Raise (Broken "FileNotFoundError") → old = None))).
    + apply always_cleanup; [apply now_at_stable| |by intros s Hs _].
      intros s Hs. destruct (na_artifact _ _ _ Hs) as [Ht Hx].
      pose proof (read_content artifact_path None (files s) Ht) as (Hn & Hf & Hok & Hno). cbv zeta in *.
      assert (now_at old false (on_disk (read_bytes_file_no_follow artifact_path) s).2) as Hs'.
      { unfold on_disk, read_bytes_file_no_follow. cbn [fst snd]. eapply on_disk_now; [exact Hs|by rewrite Hn|].
        intros Hc. by apply Hf, Hs. }
      split; [|by split_and!]. split; [exact Hs'|]. unfold on_disk, read_bytes_file_no_follow. cbn [fst snd].
      destruct (_read_bytearray_file_no_follow _ _ _).1 as [b|e]; cbn [in_library].
      * split; [|done]. intros b' [= <-]. by rewrite <- Hx, (Hok b eq_refl).
      * split; [done|]. intros [= ->]. by rewrite <- Hx, Hno.
    + intros b. apply always_return. intros s (Hs & Hb & _). split_and!; [done| |done]. intros p [= <-]. by rewrite (Hb b).
    + intros e s (Hs & _ & He). split_and!; [done..|]. intros [= ->]. by apply He.
  - intros p s (Hs & Hp & _). by split.
  - intros e. destruct e as [| | | | |t]; try (apply always_throw; by intros s (Hs & _)).
    case_bool_decide as Ht; [subst|apply always_throw; by intros s (Hs & _)].
    apply always_return. intros s (Hs & _ & Hp). split; [done|]. intros p [= <-]. by rewrite Hp.
  - intros s (Hs & _). by split.
Qed.

(** ** Putting back *)

Definition put_back (r : bool) s : Prop := (∃ x, now_at x r s ∧ (x = old ∨ x = new)) ∧ (calm → now_at old r s).

Lemma changed_disk x r (m : disk_op unit) s :
  now_at x r s → x = old ∨ x = new →
  (holds artifact_path old (nodes (m (files s)).2) ∨ holds artifact_path x (nodes (m (files s)).2)) →
  (calm → faults (files s) = [] → faults (m (files s)).2 = [] ∧ holds artifact_path old (nodes (m (files s)).2)) →
  put_back r (on_disk m s).2.
Proof.
  intros Hs Hx Hh Hc. unfold on_disk. cbn [snd]. split.
  - destruct Hh as [Hh|Hh]; [exists old|exists x]; (split; [|by auto]); eapply on_disk_now; eauto;
      intros C; apply (Hc C), (na_faults _ _ _ Hs C).
  - intros C. destruct (Hc C (na_faults _ _ _ Hs C)) as [Hf Ho]. by eapply on_disk_now.
Qed.

Lemma write_back x r now bytes s :
  old = Some bytes → now_at x r s → x = old ∨ x = new → put_back r (on_disk (write_bytes_file now artifact_path bytes) s).2.
Proof.
  intros Ho Hs Hx. pose proof (write_bytes_file_spec now dir "results.json" bytes x (files s) (na_artifact _ _ _ Hs)) as (Hok & Hany & Hc).
  cbv zeta in *. rewrite <- Ho in *. eapply changed_disk; [exact Hs|done| |].
  - tauto.
  - intros _ Hf. destruct (Hc Hf) as [Hf' Hr]. split; [done|].
    destruct (write_bytes_file now _ bytes (files s)) as [[[]|e] d]; cbn [fst snd] in *; [by apply Hok|].
    destruct Hr as [_ ->]; [done|]. by destruct Hx as [Hx|Hx]; [rewrite Ho in Hx|].
Qed.

Lemma unlink_back x r now s :
  old = None → now_at x r s → x = old ∨ x = new → put_back r (on_disk (unlink now artifact_path) s).2.
Proof.
  intros Ho Hs Hx. pose proof (unlink_spec now artifact_path x (files s) (na_artifact _ _ _ Hs)) as (Hok & Hany & Hc).
  cbv zeta in *. eapply changed_disk; [exact Hs|done| |]; rewrite Ho.
  - tauto.
  - intros _ Hf. destruct (Hc Hf) as [Hf' Hr]. split; [done|].
    destruct (unlink now _ (files s)) as [[[]|e] d]; cbn [fst snd] in *; [by apply Hok; left|].
    destruct Hr as [-> Hn]; [done|]. rewrite <- Hn. apply Hs.
Qed.

Lemma put_back_stable r : stable leaves_run (put_back r).
Proof.
  intros s s' [(x & Hx & Hxs) Hc] Hr. split; [exists x; split; [by eapply now_at_stable|done]|].
  intros C. eapply now_at_stable; [by apply Hc|done].
Qed.

Lemma restore_step r existed previous :
  previous = old →
  always (λ s, ∃ x, now_at x r s ∧ (x = old ∨ x = new)) (restore_previous dir artifact_path existed previous) (λ _, put_back r).
Proof.
  intros ->. unfold restore_previous. eapply (always_bind _ _ _ _ _ (λ _, put_back r)); [|intros u|done].
  - destruct old as [bytes|] eqn:Ho.
    + apply always_cleanup.
      * intros s s' (x & Hx & Hxs) Hr. exists x. split; [by eapply now_at_stable|done].
      * intros s (x & Hs & Hx). split; (eapply write_back; [done| |]; rewrite ?Ho; eauto).
      * intros s (x & Hs & Hx) Hf. split; [exists x; by rewrite Ho|]. intros C. by destruct (calm_fails C OtherChannel).
    + eapply (always_except _ _ _ _ _ (λ _, put_back r)); [|done| |done].
      * apply always_local. intros s (x & Hs & Hx). eapply unlink_back; rewrite ?Ho; eauto.
      * intros e. destruct e; try by apply always_throw. case_bool_decide; [by apply always_return|by apply always_throw].
  - destruct existed; [by apply always_return|].
    eapply (always_except _ _ _ _ _ (λ _, put_back r)); [|done|intros e; by apply always_return|done].
    apply always_local. intros s [(x & Hs & Hx) Hc].
    assert (∀ x, now_at x r s → now_at x r (on_disk (rmdir (today s) dir) s).2) as Hk.
    { intros x' Hx'. unfold on_disk. cbn [snd]. eapply on_disk_now; [exact Hx'|by apply rmdir_keeps, Hx'|].
      intros C. by apply rmdir_faults, Hx'. }
    split; [exists x; split; [by apply Hk|done]|]. intros C. by apply Hk, Hc.
Qed.

(** ** The document and its row *)

Lemma budget_keeps x r s : now_at x r s → now_at x r (check_budget s).2.
Proof. unfold check_budget. destruct (run_budget s); [|done]. by intros [? ? ?]. Qed.
Lemma too_big_keeps {B} x r limit observed s : now_at x r s → now_at x r (too_big (A := B) limit observed s).2.
Proof. unfold too_big. destruct (run_budget s); [|done]. by intros [? ? ?]. Qed.

Lemma stream_spec {E} (check : prog archive E unit) tb chunks limit n0 s (P : archive → Prop) :
  (∀ s, P s → P (check s).2) → P s →
  P (stream check tb chunks limit n0 s).2 ∧
  (∀ n, (stream check tb chunks limit n0 s).1 = Ok n → n = n0 + Z.of_nat (length (concat chunks)) ∧ (n0 ≤ limit → n ≤ limit)).
Proof.
  intros Hk. revert n0 s. induction chunks as [|c chunks IH]; intros n0 s Hs; cbn [stream concat]; unfold pbind.
  - pose proof (Hk s Hs) as Hs'. destruct (check s) as [[]?]; cbn in *; [|done]. split; [done|]. intros n [= <-]. lia.
  - pose proof (Hk s Hs) as Hs'. destruct (check s) as [[]s1]; cbn [fst snd] in *; [|done].
    destruct (Z.ltb_spec limit (n0 + Z.of_nat (length c))) as [Hl|Hl]; [done|].
    destruct (IH (n0 + Z.of_nat (length c)) s1 Hs') as [Hp Hn]. split; [done|]. intros n Hok.
    destruct (Hn n Hok) as [-> Hb]. rewrite length_app. split; [lia|]. intros _. by apply Hb.
Qed.

Definition written_post (limit : Z) (r : bool) (o : outcome exn written) s : Prop :=
  match o with
  | Ok (Sized n) => now_at new r s ∧ n = Z.of_nat (length (encode data)) ∧ n ≤ limit
  | Ok (TooBig _) => now_at old false s
  | Raise _ => ∃ x r, now_at x r s ∧ (x = old ∨ x = new)
  end.

Lemma write_effect limit s :
  now_at old false s →
  let r := write_json_file_bounded artifact_path data limit s in
  written_post limit false r.1 r.2 ∧ ∃ x r0, now_at x r0 r.2 ∧ (x = old ∨ x = new).
Proof.
  intros Hs. cbv zeta. unfold write_json_file_bounded.
  assert (∀ s, now_at old false s → ∃ x r, now_at x r s ∧ (x = old ∨ x = new)) as Hk by (intros s' Hs'; exists old, false; auto).
  destruct (Z.ltb_spec limit 0) as [Hl|Hl]; [cbn; auto|].
  match goal with |- context [@stream _ _ ?f] => set (check := f) end.
  pose proof (stream_spec check inr (iter_json_bytes data) limit 0 s (now_at old false)) as Hst.
  destruct Hst as [Hs1 Hn]; [|exact Hs|].
  { intros s1 Hs1. subst check. cbn [snd]. by apply budget_keeps. }
  destruct (stream check inr _ limit 0 s) as [[n|[e|o]] s1]; cbn [fst snd] in *; [|cbn; auto..].
  destruct (Hn n eq_refl) as [-> Hb]. change (concat (iter_json_bytes data)) with (compact_json_bytes data) in *.
  rewrite chunks_whole in *. unfold on_disk.
  pose proof (write_bytes_file_spec (today s) dir "results.json" (encode data) old (files s1) (na_artifact _ _ _ Hs1)) as (Hok & Hany & Hc).
  cbv zeta in *. fold artifact_path in *.
  assert (∃ x r0, now_at x r0 (set_files (write_bytes_file (today s) artifact_path (encode data) (files s1)).2 s1) ∧
    (x = old ∨ x = new)) as Hw.
  { destruct Hany as [Hh|Hh]; [exists old, false|exists new, false]; (split; [|by auto]); (eapply on_disk_now; [exact Hs1|exact Hh|]);
      intros C; apply Hc, (na_faults _ _ _ Hs1 C). }
  cbn [fst snd]. split; [|exact Hw].
  destruct (write_bytes_file _ _ _ _) as [[[]|e] d] eqn:E; cbn [fst snd in_library written_post] in *; [|done].
  split; [|lia]. eapply on_disk_now; [exact Hs1|by apply Hok|]. intros C. apply Hc, (na_faults _ _ _ Hs1 C).
Qed.

Lemma row_replaced t s : recorded (replace_row (row_at t) s).2.
Proof.
  exists (next_meta_id s), t. unfold rows_of. cbn. apply map_eq. intros i.
  destruct (decide (i = next_meta_id s)) as [->|Hi].
  - rewrite lookup_singleton_eq. apply map_lookup_filter_Some. by rewrite lookup_insert_eq.
  - rewrite lookup_singleton_ne by done. apply map_lookup_filter_None. right. intros m.
    rewrite lookup_insert_ne by done. intros [_ Hn]%map_lookup_filter_Some. done.
Qed.


Lemma commit_step limit w :
  match w with Sized n => n = Z.of_nat (length (encode data)) ∧ n ≤ limit | TooBig _ => False end →
  always (now_at new false)
    (meta_call (λ s, replace_row {| m_job_id := jid; m_project := project; m_run_id := rid; m_status := status;
       m_record_count := count; m_file_path := dir_str dir; m_created_at := today s |} s))
    (λ o s, match o with Ok _ => now_at new true s | Raise _ => ∃ x r, now_at x r s ∧ (x = old ∨ x = new) end).
Proof.
  intros Hw. apply always_await; [apply now_at_stable|..].
  - intros s [Hh _ Hf]. split; [exact Hh|apply row_replaced|exact Hf].
  - intros s e [Hh Hr Hf] _. split; [by exists new, false; split; [split|right]|].
    exists new, true. split; [|by right]. split; [exact Hh|apply row_replaced|exact Hf].
Qed.

Lemma write_and_record_step limit :
  always (now_at old false) (write_and_record jid project rid status count data dir artifact_path limit) (written_post limit true).
Proof.
  unfold write_and_record. eapply (always_bind _ _ _ _ _ (written_post limit false)).
  - apply always_await; [apply now_at_stable|intros s Hs; by apply write_effect|].
    intros s e Hs _. split; [exists old, false; by auto|]. by apply (write_effect limit).
  - intros [n|observed]; [|by apply always_return]. cbn [written_post].
    intros k s (Hs & Hn). revert k s Hs.
    match goal with |- ∀ k s, now_at _ _ s → wp _ _ ?p k _ s => change (always (now_at new false) p (written_post limit true)) end.
    eapply (always_bind _ _ _ _ _ (λ _, now_at new false)).
    + apply always_local. intros s Hs. by apply budget_keeps.
    + intros u. eapply always_bind; [by apply (commit_step limit (Sized n))| |done].
      intros u'. by apply always_return.
    + intros e s Hs. exists new, false. auto.
  - done.
Qed.

Definition saved_post (limit : Z) (o : outcome exn Z) s : Prop :=
  match o with
  | Ok n => now_at new true s ∧ n = Z.of_nat (length (encode data)) ∧ n ≤ limit
  | Raise _ => whole_or_old s
  end.

Lemma put_back_whole r s : put_back r s → whole_or_old s.
Proof. intros [(x & Hs & Hx) Hc]. split; [eauto 6|]. intros C. specialize (Hc C). destruct r; auto. Qed.

Lemma restored {B} existed (k : proc archive B) (Q : outcome exn B → archive → Prop) :
  (∀ r, always (put_back r) k Q) → (∀ e s, whole_or_old s → Q (Raise e) s) →
  always (λ s, ∃ x r, now_at x r s ∧ (x = old ∨ x = new)) (do* restore_previous dir artifact_path existed old in k) Q.
Proof.
  intros Hk He n s (x & r & Hs). apply (always_bind leaves_run fails
    (λ s, ∃ x, now_at x r s ∧ (x = old ∨ x = new)) _ _ (λ _, put_back r) Q); [|intros u; apply Hk| |eauto].
  - by apply restore_step.
  - intros e s' Hs'. apply He. by eapply put_back_whole.
Qed.

Lemma replace_artifact_step limit :
  always (now_at old false) (replace_artifact jid project rid status count data dir limit) (saved_post limit).
Proof.
  assert (∀ s, now_at old false s → whole_or_old s) as Hold by (intros s Hs; apply (whole_now old false); auto).
  unfold replace_artifact. eapply (always_bind _ _ _ _ _ (λ _, now_at old false)); [by apply always_local|intros existed|auto].
  eapply (always_bind _ _ _ _ _ (λ _, now_at old false)); [|intros u|auto].
  { apply always_disk; [intros; by apply ensure_directory_keeps|intros; by apply ensure_faults]. }
  fold artifact_path. eapply always_bind; [apply previous_read|intros previous|intros e s [Hs _]; by apply Hold].
  intros k s [Hs Hp]. rewrite (Hp previous eq_refl). clear Hp. revert k s Hs.
  match goal with |- ∀ k s, now_at old false s → wp _ _ ?p k _ s => change (always (now_at old false) p (saved_post limit)) end.
  eapply always_attempt; [apply write_and_record_step|]. intros [[n|observed]|e]; cbn [written_post].
  - eapply (always_bind _ _ _ _ _ (λ _ s, now_at new true s ∧ n = Z.of_nat (length (encode data)) ∧ n ≤ limit)).
    + apply always_local. intros s (Hs & Hn). split; [by apply budget_keeps|done].
    + intros u'. by apply always_return.
    + intros e s (Hs & _). apply (whole_now new true); auto.
  - eapply always_pre; [apply (restored existed)|by intros s Hs; exists old, false; auto]; [|done].
    intros r. apply always_local. intros s Hs. assert (put_back r (too_big (A := Z) limit observed s).2) as Hb.
    { destruct Hs as [(x & Hx & Ho) Hc]. split; [exists x; split; [by apply too_big_keeps|done]|]. intros C. by apply too_big_keeps, Hc. }
    destruct (too_big limit observed s) as [[n|e] s'] eqn:E; cbn [fst snd] in *; [|by eapply put_back_whole].
    exfalso. revert E. unfold too_big. destruct (run_budget s); [|done]. by destruct (in_budget _).
  - apply restored; [|done]. intros r. apply always_throw. intros s. apply put_back_whole.
Qed.
End save.

(** ** Whole saves *)

Section saved.
Context `{ResultSettings} `{JsonReader} `{Printable}.
Implicit Types s : archive.

Lemma safe_join_same l p : safe_join l = Ok p → p = l.
Proof.
  revert p. induction l as [|x l IH]; intros p; cbn [safe_join]; [congruence|].
  assert (∀ v, safe_path_part x = Ok v → v = x) as Hx by (unfold safe_path_part; intros v; repeat case_match; congruence).
  destruct (safe_path_part x) as [v|]; [|done]. rewrite (Hx v eq_refl).
  destruct (safe_join l) as [p'|]; [|done]. intros [= <-]. by rewrite (IH p').
Qed.

Lemma unlinked_folders d at_ rest :
  tree_ok (nodes d) → (∃ m, nodes d !! (at_ ++ rest) = Some (Folder m)) → unlinked d at_ rest = Ok tt.
Proof.
  intros Ht. revert at_. induction rest as [|c rest IH]; intros at_ [m Hm]; cbn [unlinked]; [done|].
  rewrite cons_middle, app_assoc in Hm. assert (∃ m, lstat (at_ ++ [c]) d = Ok (Folder m)) as [m' ->]; [|apply IH; eauto].
  destruct (decide (rest = [])) as [->|Hne]; [rewrite app_nil_r in Hm; exists m; by apply lstat_found|].
  destruct (tree_prefix _ _ _ _ Ht Hm Hne) as [m' Hm']. exists m'. by apply lstat_found.
Qed.

(** The request: what is saved, and where. *)
Context (jid rid project name status : string) (count : option Z) (data : json) (drawn : string) (lim : option Z).
Definition result_dir : fpath := [project; name; rid].
Definition artifact s : option text := content (nodes (files s) !! artifact_path result_dir).
Definition is_recorded s : Prop := recorded jid rid result_dir project status count s.

(** The request as it starts. *)
Record saveable s : Prop := {
  sv_settings : settings_ok;
  sv_names : Forall name_ok result_dir;
  sv_paths : safe_join result_dir = Ok result_dir;
  sv_run : rid ≠ "";
  sv_tree : tree_ok (nodes (files s));
  sv_job : known_jobs s !! jid = Some (project, name);
}.
Abbreviation rely := (leaves_run jid rid result_dir).
Abbreviation request := (save_result jid data (Some rid) drawn status count lim).

Definition save_post s0 (fails : channel → Prop) (o : outcome exn SaveResultMeta) s : Prop :=
  match o with
  | Ok m => artifact s = Some (encode data) ∧ is_recorded s ∧
            sm_serialized_bytes m = Z.of_nat (length (encode data)) ∧ sm_serialized_bytes m ≤ serialized_limit lim s0
  | Raise _ =>
      (artifact s = artifact s0 ∨ artifact s = Some (encode data)) ∧
      (rows_of jid rid s = rows_of jid rid s0 ∨ is_recorded s) ∧
      ((∀ c, ¬ fails c) → faults (files s0) = [] → artifact s = artifact s0 ∨ is_recorded s)
  end.

Lemma whole_saved s0 fails s e :
  whole_or_old jid rid result_dir project status count data ((∀ c, ¬ fails c) ∧ faults (files s0) = [])
    (artifact s0) (rows_of jid rid s0) s → save_post s0 fails (Raise e) s.
Proof.
  intros [(x & r & [[_ Hx] Hr _] & Ho) Hc]. cbn. unfold artifact at 1 3. split_and!.
  - destruct Ho as [->| ->]; auto.
  - destruct r; auto.
  - intros Hf Hd. destruct (Hc (conj Hf Hd)) as [[[_ ?] _ _]|[[_ ? _]|[_ ? _]]]; auto.
Qed.

Lemma save_step fails s0 n :
  saveable s0 → wp rely fails request n (λ _, save_post s0 fails) s0.
Proof.
  intros Hs. set (calm := (∀ c, ¬ fails c) ∧ faults (files s0) = []).
  set (start := now_at jid rid result_dir project status count calm (rows_of jid rid s0) (artifact s0) false).
  set (P := λ s, start s ∧ known_jobs s !! jid = Some (project, name) ∧ serialized_limit lim s = serialized_limit lim s0).
  assert (∀ s e, start s → save_post s0 fails (Raise e) s) as Hraise.
  { intros s e Hst. apply whole_saved. eapply whole_now; [exact Hst|]. by left. }
  assert (stable rely P) as Hstable.
  { intros s s' (Hst & Hj & Hl) Hr. split; [by eapply now_at_stable|]. split; [by rewrite (lr_jobs _ _ _ _ _ Hr)|].
    by rewrite (lr_limit _ _ _ _ _ Hr). }
  assert (always rely fails P request (save_post s0 fails)) as Ha.
  2:{ apply Ha. split; [|by split; [apply Hs|]]. split; [split; [apply Hs|done]|done|by intros []]. }
  unfold save_result. eapply (always_bind _ _ _ _ _ (λ o s, P s ∧ ∀ x, o = Ok x → x = (project, name))).
  - apply always_await; [exact Hstable| |by intros s e HP _].
    intros s HP. split; [exact HP|]. destruct HP as (_ & Hj & _). cbn. rewrite Hj. by intros x [= <-].
  - intros job n' s [HP Hx]. rewrite (Hx job eq_refl). cbn [fst snd]. rewrite bool_decide_false by apply Hs.
    revert n' s HP Hx. intros n' s HP _. revert n' s HP.
    match goal with |- ∀ n s, P s → wp _ _ ?p n _ s => change (always rely fails P p (save_post s0 fails)) end.
    change (safe_join [project; name; rid]) with (safe_join result_dir). rewrite (sv_paths _ Hs).
    eapply (always_bind _ _ _ _ _ (λ o s, start s ∧ o = Ok (serialized_limit lim s0))).
    { apply always_local. intros s (Hst & _ & Hl). cbn. by rewrite Hl. }
    2:{ intros e s [Hst _]. by apply Hraise. }
    intros limit. eapply (always_bind _ _ _ _ _ (λ o s, start s ∧ limit = serialized_limit lim s0 ∧ ∀ d, o = Ok d → d = result_dir)).
    { apply always_local. intros s [Hst Hl]. cbn [fst snd]. split; [exact Hst|]. split; [congruence|].
      rewrite (checked_joined (sv_settings _ Hs)) by (apply Hs || done). destruct (unlinked _ _ _); cbn; congruence. }
    2:{ intros e s [Hst _]. by apply Hraise. }
    intros d n' s (Hst & -> & Hd). rewrite (Hd d eq_refl). clear Hd. revert n' s Hst.
    match goal with |- ∀ n s, start s → wp _ _ ?p n _ s => change (always rely fails start p (save_post s0 fails)) end.
    eapply always_bind; [by apply replace_artifact_step; intros []| |].
    + intros k. apply always_return. intros s ([[_ Hx] Hr _] & -> & Hl). by split_and!.
    + intros e s Hw. by apply whole_saved.
  - intros e s [[Hst _] _]. by apply Hraise.
Qed.

(** [C30] What a save may leave, however its task is cancelled and whatever fails: when it
    returns, the artifact is the document and the metadata its one row, and the document is
    within the limit; when it raises, the artifact is the old one or the whole new document,
    never a part of it, and the row the old or the new one; and if nothing failed, a new
    artifact that stays has its row. The artifact and the row are not exchanged as one: a
    cancellation at the commit of the metadata can leave the new row with the old artifact
    or none ([cancelled_commit_strands_row]). *)
Theorem stopped_save_is_old_or_new s s' fails n o :
  saveable s → runs rely fails n request s o s' → save_post s fails o s'.
Proof. intros Hs Hr. eapply wp_sound; [exact Hr|]. by apply save_step. Qed.
End saved.

(** ** Reading back *)

Section read_back.
Context `{ResultSettings} `{JsonReader} `{Printable}.
Implicit Types s : archive.

Lemma head_single {A} (l : list A) x : NoDup l → (∀ y, y ∈ l ↔ y = x) → l = [x].
Proof.
  intros Hn Hl. destruct l as [|y l]; [by pose proof (proj2 (Hl x) eq_refl); set_solver|].
  assert (y = x) as -> by (apply Hl; set_solver). destruct l as [|z l]; [done|].
  assert (z = x) as -> by (apply Hl; set_solver). apply NoDup_cons in Hn as [Hn _]. set_solver.
Qed.

Lemma elem_rows P s x : x ∈ rows_where P s ↔ P x.2 = true ∧ meta s !! x.1 = Some x.2.
Proof.
  unfold rows_where. rewrite merge_sort_Permutation, list_elem_of_filter. destruct x. by rewrite elem_of_map_to_list.
Qed.
Lemma NoDup_rows P s : NoDup (rows_where P s).
Proof. unfold rows_where. rewrite merge_sort_Permutation. apply NoDup_filter, NoDup_map_to_list. Qed.

Lemma lookup_recorded jid rid s id row :
  rows_of jid rid s = {[ id := row ]} → lookup_row jid (Some rid) s = Some (id, row).
Proof.
  intros Hr. unfold lookup_row. rewrite (head_single _ (id, row)); [reflexivity|apply NoDup_rows|].
  intros [i r]. rewrite elem_rows. cbn [fst snd]. rewrite andb_true_iff, !bool_decide_eq_true.
  assert (rows_of jid rid s !! i = Some r ↔ meta s !! i = Some r ∧ m_job_id r = jid ∧ m_run_id r = rid) as Hi
    by apply map_lookup_filter_Some.
  rewrite Hr, lookup_singleton_Some in Hi. naive_solver.
Qed.

(** The document names its job, run and project, if it names them, as the row does. *)
Definition identified jid rid project (data : json) : Prop :=
  existsb (mismatch data) [("job_id", jid); ("run_id", rid); ("project", project)] = false.

Lemma exec_checked p d s : _checked_result_dir p (files s) = Ok d → exec (checked_dir p) s = (Ok d, s).
Proof. intros E. cbn. by rewrite E. Qed.

(** [C31] A saved result reads back: after a save that returned, the result of the run is the
    document that was saved, with its status. During the save nobody else touches the run's
    row or artifact ([leaves_run]); the disk is a tree without pending faults when it is read;
    the document is JSON that the reader can give back and names its own job, run and
    project, if any; and it is within the store's limit for reading, which a save under a
    larger limit of its own may exceed. *)
Theorem saved_result_reads_back jid rid project name status count data drawn lim s s' fails n m :
  saveable jid rid project name s →
  runs (leaves_run jid rid (result_dir rid project name)) fails n
    (save_result jid data (Some rid) drawn status count lim) s (Ok m) s' →
  tree_ok (nodes (files s')) → faults (files s') = [] →
  readable data → identified jid rid project data → Z.of_nat (length (encode data)) ≤ _max_serialized_result_bytes →
  (exec (get_result jid (Some rid)) s').1 = Ok {| rp_run_id := rid; rp_data := data; rp_status := status |}.
Proof.
  intros Hs Hr Ht Hf Hd Hi Hmax.
  pose proof (wp_sound _ _ _ _ _ _ _ _ Hr (save_step jid rid project name status count data drawn lim fails s n Hs)) as (Ha & (id & t & Hrow) & _).
  unfold get_result. rewrite exec_bind. unfold meta_call. rewrite exec_await. unfold reading. cbn [fst snd].
  rewrite (lookup_recorded _ _ _ _ _ Hrow). rewrite exec_bind.
  set (dir := result_dir rid project name) in *. unfold artifact in Ha. fold dir in Ha.
  assert (∃ b k, nodes (files s') !! artifact_path dir = Some (Regular (encode data) b k)) as (mt & k & Hreg).
  { destruct (nodes (files s') !! artifact_path dir) as [[]|]; cbn in Ha; simplify_eq. eauto. }
  rewrite (exec_checked _ dir).
  2:{ cbn [m_file_path row_at]. rewrite (checked_dir_str (sv_settings _ _ _ _ _ Hs)) by (apply Hs || done).
      rewrite unlinked_folders; [done|done|]. cbn [app]. by eapply Ht. }
  cbn [fst snd]. rewrite exec_bind. unfold except. rewrite exec_attempt, exec_await. unfold on_disk, read_json, _read_bytearray_file_no_follow.
  assert (0 ≤ Z.of_nat (length (encode data))) as H0' by lia.
  rewrite (proj2 (Z.ltb_ge _ _)) by lia. cbn [fst snd]. rewrite faulty_none by done. cbn [fst snd].
  change (dir ++ ["results.json"]) with (artifact_path dir). rewrite (lstat_found _ _ _ Ht Hreg).
  rewrite (proj2 (Z.ltb_ge _ _)) by lia. cbn [fst snd]. rewrite loads_encoded by done. cbn [in_library exec fst snd].
  cbn [m_job_id m_run_id m_project row_at m_status]. unfold identified in Hi. by rewrite Hi.
Qed.
End read_back.

(** ** At concrete inputs *)

#[export] Instance sample_settings : ResultSettings := {|
  results_dir := {| anchor := "/"; parts := ["data"; "results"] |}; cwd := {| anchor := "/"; parts := [] |};
  looks_up_active := true; _max_serialized_result_bytes := 1000; _max_artifact_tree_bytes := 3000;
  _max_artifact_tree_entries := 100; budget_clock := Z.of_nat; second := 1 |}.
Definition sample_document : json := JObject [("job_id", JString "j1"); ("records", JArray [JNumber "1"])].
#[export] Program Instance sample_reader : JsonReader := {|
  json_loads t := if bool_decide (t = encode sample_document) then Ok sample_document else Raise "JSONDecodeError";
  readable v := v = sample_document |}.
Next Obligation. intros v ->. cbn beta. by rewrite bool_decide_true. Qed.
#[export] Instance all_printable : Printable := {| printable_other _ := true |}.

Definition sample_archive : archive := {|
  files := {| nodes := {[ [] := Folder 0 ]}; faults := []; next_inode := 1 |};
  meta := ∅; next_meta_id := 1; cursors := Some (0, None); _validated_artifacts := ∅; today := 50; run_budget := None;
  known_jobs := {[ "j1" := ("p", "n") ]}; active_runs := ∅; checks_left := None |}.
Definition sample_save : proc archive SaveResultMeta :=
  save_result "j1" sample_document (Some "r1") "r9" "complete" (Some 1) None.
Definition saved_archive := exec sample_save sample_archive.

Lemma sample_settings_ok : settings_ok.
Proof. split; split; cbn; try tauto; repeat constructor; try done; by repeat constructor. Qed.
Lemma sample_saveable : saveable "j1" "r1" "p" "n" sample_archive.
Proof.
  constructor; [exact sample_settings_ok| |by vm_compute|done| |done].
  - repeat constructor; try done; by repeat constructor.
  - by apply tree_checked_ok; vm_compute.
Qed.

Lemma result_paths_are_contained_witness :
  _checked_result_dir "/data//results/./p/n/r1/" (files saved_archive.2) = Ok ["p"; "n"; "r1"] ∧
  _checked_result_dir "/data/results/../n/r1" (files saved_archive.2) = Raise "ValueError" ∧
  Forall name_ok ["p"; "n"; "r1"].
Proof.
  assert (_checked_result_dir "/data//results/./p/n/r1/" (files saved_archive.2) = Ok ["p"; "n"; "r1"]) as E by by vm_compute.
  split; [exact E|]. split; [by vm_compute|].
  exact (proj1 (proj2 (result_paths_are_contained sample_settings_ok "/data//results/./p/n/r1/" _ _ E))).
Defined.

Lemma stopped_save_is_old_or_new_witness :
  saved_archive.1 = Ok {| sm_run_id := "r1"; sm_file_path := "/data/results/p/n/r1"; sm_record_count := Some 1;
                          sm_serialized_bytes := 29 |} ∧
  save_post "j1" "r1" "p" "n" "complete" (Some 1) sample_document None sample_archive (λ _, False) saved_archive.1 saved_archive.2.
Proof.
  split; [by vm_compute|].
  exact (stopped_save_is_old_or_new "j1" "r1" "p" "n" "complete" (Some 1) sample_document "r9" None sample_archive saved_archive.2 (λ _, False) 0
    saved_archive.1 sample_saveable (exec_runs _ (λ _, False) 0 sample_save sample_archive)).
Defined.

(** The gap that [stopped_save_is_old_or_new] leaves: cancelled while its COMMIT takes effect, a save puts
    the old artifact back, or removes the new one, although the new row stays. *)
Definition stranded := exec_late 4 sample_save sample_archive.
Lemma cancelled_commit_strands_row :
  runs (leaves_run "j1" "r1" (result_dir "r1" "p" "n")) (λ _, False) 1 sample_save sample_archive stranded.1 stranded.2 ∧
  stranded.1 = Raise Cancelled ∧ artifact "r1" "p" "n" stranded.2 = None ∧ lookup_row "j1" (Some "r1") stranded.2 ≠ None.
Proof. split; [exact (exec_late_runs _ (λ _, False) 4 sample_save sample_archive)|]. split; [by vm_compute|]. split; by vm_compute. Qed.

Lemma sample_saved_runs : runs (leaves_run "j1" "r1" (result_dir "r1" "p" "n")) (λ _, False) 0 sample_save sample_archive
  (Ok {| sm_run_id := "r1"; sm_file_path := "/data/results/p/n/r1"; sm_record_count := Some 1; sm_serialized_bytes := 29 |})
  saved_archive.2.
Proof.
  pose proof (exec_runs (leaves_run "j1" "r1" (result_dir "r1" "p" "n")) (λ _, False) 0 sample_save sample_archive) as Hr.
  fold saved_archive in Hr. assert (saved_archive.1 = Ok {| sm_run_id := "r1"; sm_file_path := "/data/results/p/n/r1";
    sm_record_count := Some 1; sm_serialized_bytes := 29 |}) as E by by vm_compute. by rewrite E in Hr.
Qed.

Lemma saved_result_reads_back_witness :
  (exec (get_result "j1" (Some "r1")) saved_archive.2).1 =
    Ok {| rp_run_id := "r1"; rp_data := sample_document; rp_status := "complete" |}.
Proof.
  refine (saved_result_reads_back "j1" "r1" "p" "n" "complete" (Some 1) sample_document "r9" None sample_archive saved_archive.2
    (λ _, False) 0 _ sample_saveable sample_saved_runs _ _ _ _ _); [|by vm_compute|done|by vm_compute|by vm_compute].
  apply tree_checked_ok. by vm_compute.
Defined.
