(* ===== verification/ResultRemoval.v ===== *)
(** * Removing results

    A removal that was interrupted can be repeated; and what retention may remove. *)

From S2P Require Import Prelude.
From S2P Require Import Text.
From S2P Require Import Paths.
From S2P Require Import JobDb.
From S2P Require Import Json.
From S2P Require Import JsonEncoding.
From S2P Require Import Proc.
From S2P Require Import Models.
From S2P Require Import Filesystem.
From S2P Require Import LocalResults.
From S2P Require Import LocalResultsSpec.
Open Scope Z_scope.

(** ** Trees that shrink *)

Definition same_kind (n n' : node) : Prop :=
  match n, n' with
  | Folder _, Folder _ => True
  | Link k, Link k' => k = k'
  | Regular b k i, Regular b' k' i' => b = b' ∧ k = k' ∧ i = i'
  | _, _ => False
  end.
#[export] Instance same_kind_preorder : PreOrder same_kind.
Proof. split; [by intros []|]. intros [] [] []; cbn; try done; intuition congruence. Qed.

(** Entries are only removed; a folder may have a new time. *)
Definition shrinks (t t' : gmap fpath node) : Prop := ∀ p n, t' !! p = Some n → ∃ n', t !! p = Some n' ∧ same_kind n n'.
#[export] Instance shrinks_preorder : PreOrder shrinks.
Proof.
  split; [intros t p n Hn; by exists n|]. intros t1 t2 t3 H12 H23 p n Hn. destruct (H23 p n Hn) as (n2 & H2 & K2).
  destruct (H12 p n2 H2) as (n1 & H1 & K1). exists n1. split; [done|by etrans].
Qed.

(** There is no folder at [p]. *)
Definition no_folder (p : fpath) (t : gmap fpath node) : Prop := ∀ m, t !! p ≠ Some (Folder m).
Lemma no_folder_shrinks p t t' : shrinks t t' → no_folder p t → no_folder p t'.
Proof. intros Hs Hp m Hm. destruct (Hs _ _ Hm) as ([] & E & K); try done. by destruct (Hp mtime). Qed.

Lemma walk_shrinks t t' at_ rest :
  shrinks t t' →
  match walk t at_ rest with
  | Ok n => match walk t' at_ rest with Ok n' => same_kind n' n | Raise e => e = "FileNotFoundError" end
  | Raise e => e = "FileNotFoundError" →
               match walk t' at_ rest with Ok _ => False | Raise e => e = "FileNotFoundError" end
  end.
Proof.
  intros Hs. revert at_. induction rest as [|c rest IH]; intros at_; cbn [walk].
  - destruct (t' !! at_) as [n'|] eqn:E; [|by destruct (t !! at_)]. destruct (Hs _ _ E) as (n & -> & Hk). done.
  - destruct (t' !! at_) as [n'|] eqn:E.
    + destruct (Hs _ _ E) as (n & -> & Hk). destruct n, n'; try done; apply IH.
    + destruct (t !! at_) as [[]|]; try done. by destruct (walk t _ rest).
Qed.

Lemma unlinked_shrinks d d' at_ rest :
  shrinks (nodes d) (nodes d') → unlinked d at_ rest = Ok tt → unlinked d' at_ rest = Ok tt.
Proof.
  intros Hs. revert at_. induction rest as [|c rest IH]; intros at_; cbn [unlinked]; [done|].
  unfold lstat. pose proof (walk_shrinks (nodes d) (nodes d') [] (at_ ++ [c]) Hs) as Hw.
  destruct (walk (nodes d) [] (at_ ++ [c])) as [n|e].
  - destruct (walk (nodes d') [] (at_ ++ [c])) as [n'|e'].
    + destruct n, n'; try done; apply IH.
    + subst e'. rewrite bool_decide_true by done. destruct n; try done; apply IH.
  - case_bool_decide as He; [|done]. specialize (Hw He). destruct (walk (nodes d') [] (at_ ++ [c])) as [|e']; [done|].
    rewrite bool_decide_true by done. apply IH.
Qed.

Section disk.
Context (now : Z).

Lemma touch_shrinks p t : shrinks t (touch now p t).
Proof.
  intros q n. rewrite lookup_touch. case_bool_decide; [|by exists n]. destruct (t !! q) as [[]|]; cbn; intros [= <-]; by eexists.
Qed.
Lemma drop_shrinks l t : shrinks t (drop_entries l t).
Proof. intros q n. rewrite drop_lookup. case_bool_decide; [done|]. by exists n. Qed.

Lemma rmtree_spec p d :
  tree_ok (nodes d) →
  let r := rmtree now p d in
  tree_ok (nodes r.2) ∧ shrinks (nodes d) (nodes r.2) ∧
  (r.1 = Ok tt → ∀ q, nodes r.2 !! (p ++ q) = None) ∧ (r.1 = Ok tt ∨ r.1 = Raise "OSError") ∧
  (faults d = [] → faults r.2 = [] ∧ r.1 = Ok tt).
Proof.
  intros Ht. cbv zeta. unfold rmtree. set (m := λ d, _). set (rest := λ l d, _).
  assert (∀ d', (m d').1 = Ok tt ∧ faults (m d').2 = faults d' ∧ nodes (m d').2 = drop_entries [p] (touch now (parent p) (nodes d'))) as Hm
    by done.
  assert (tree_ok (nodes (faulty m rest d).2) ∧ shrinks (nodes d) (nodes (faulty m rest d).2)) as [Hok Hsh].
  { apply (faulty_keeps m rest (λ t, tree_ok t ∧ shrinks (nodes d) t)); [| |by split].
    - intros d' [Ht' Hs']. destruct (Hm d') as (_ & _ & ->). split; [by apply drop_ok, touch_ok|].
      etrans; [exact Hs'|]. etrans; [apply touch_shrinks|apply drop_shrinks].
    - intros l d' [Ht' Hs']. unfold rest. cbn. split; [by apply drop_ok|]. etrans; [exact Hs'|apply drop_shrinks]. }
  split_and!; [done|done| | |].
  - intros [fs Hf]%faulty_ok q. destruct (Hm (with_faults fs d)) as (_ & _ & Hn). rewrite Hf in Hn. cbn [snd] in Hn.
    rewrite Hn, drop_lookup, bool_decide_true; [done|]. constructor. by apply prefix_app_r.
  - destruct (faulty m rest d).1 as [[]|e] eqn:E; [by left|]. apply faulty_raise in E as [->|[fs Hf]]; [by right|].
    destruct (Hm (with_faults fs d)) as (Ho & _). by rewrite Hf in Ho.
  - intros Hf. rewrite faulty_none by done. by destruct (Hm d) as (-> & -> & _).
Qed.

Lemma remove_directories_spec paths d :
  tree_ok (nodes d) →
  let r := remove_directories now paths d in
  tree_ok (nodes r.2) ∧ shrinks (nodes d) (nodes r.2) ∧
  (r.1 = Ok tt → ∀ p, p ∈ paths → no_folder p (nodes r.2)) ∧
  (faults d = [] → faults r.2 = [] ∧ r.1 = Ok tt).
Proof.
  revert d. induction paths as [|p paths IH]; intros d Ht; cbn [remove_directories].
  { cbn. split_and!; try done. intros _ p Hp. by apply not_elem_of_nil in Hp. }
  destruct (is_directory p d) eqn:Hd; cbn [negb].
  - pose proof (rmtree_spec p d Ht) as (H1 & H2 & H3 & H4 & H5). cbv zeta in *.
    destruct (rmtree now p d) as [[u|e] d1]; cbn [fst snd] in *.
    + destruct u. specialize (H3 eq_refl). destruct (IH d1 H1) as (I1 & I2 & I3 & I5).
      split_and!; [done|by etrans|..].
      * intros Ho q [->|Hq]%elem_of_cons; [|by apply I3]. eapply no_folder_shrinks; [exact I2|]. intros m.
        specialize (H3 []). rewrite app_nil_r in H3. by rewrite H3.
      * intros Hf. apply I5, (proj1 (H5 Hf)).
    + destruct H4 as [|[= ->]]; [done|]. rewrite bool_decide_false by done. cbn [fst snd].
      by split_and!.
  - destruct (IH d Ht) as (I1 & I2 & I3 & I5). split_and!; try done.
    intros Ho q [->|Hq]%elem_of_cons; [|by apply I3]. eapply no_folder_shrinks; [exact I2|]. intros m Hm.
    unfold is_directory in Hd. by rewrite (lstat_found d p _ Ht Hm) in Hd.
Qed.
End disk.

(** ** Removing a job's results *)

Section removal.
Context `{ResultSettings} `{JsonReader} `{Printable}.
Context (fails : channel → Prop) (N : nat) (calm : Prop) (calm_quiet : calm → N = 0%nat ∧ ∀ c, ¬ fails c).
Context (jid project name : string) (owned_run_ids : list string) (s0 : archive).
Implicit Types s : archive.

Definition run_dir (rid : string) : fpath := [project; name; rid].
(** The folders that the metadata names for the job, and those of the runs it is said to own. *)
Definition named (d : fpath) : Prop :=
  (∃ id r, meta s0 !! id = Some r ∧ m_job_id r = jid ∧ _checked_result_dir (m_file_path r) (files s0) = Ok d) ∨
  (∃ rid, rid ∈ owned_run_ids ∧ d = run_dir rid).

(** The removal is not refused: every path is accepted. *)
Record removable : Prop := {
  rm_settings : settings_ok;
  rm_tree : tree_ok (nodes (files s0));
  rm_job : known_jobs s0 !! jid = Some (project, name);
  rm_rows id r : meta s0 !! id = Some r → m_job_id r = jid → ∃ d, _checked_result_dir (m_file_path r) (files s0) = Ok d;
  rm_owned rid : rid ∈ owned_run_ids → safe_join (run_dir rid) = Ok (run_dir rid) ∧ Forall name_ok (run_dir rid) ∧
                                       unlinked (files s0) [] (run_dir rid) = Ok tt;
}.
Context (accepted : removable).

Definition others : gmap Z MetaRow := filter (λ x, m_job_id x.2 ≠ jid) (meta s0).
(** No row is left, and none of the folders; the rows of other jobs are as they were. *)
Definition removed s : Prop := meta s = others ∧ ∀ d, named d → no_folder d (nodes (files s)).
Record removing s : Prop := {
  rg_tree : tree_ok (nodes (files s));
  rg_shrinks : shrinks (nodes (files s0)) (nodes (files s));
  rg_job : known_jobs s !! jid = Some (project, name);
  rg_faults : calm → faults (files s) = [];
  rg_rows : meta s = meta s0 ∨ removed s;
}.
Definition finished s : Prop := removing s ∧ removed s.
Abbreviation triple := (triple eq fails N).
Abbreviation ends := (or_stopped calm removing).

Lemma step_cleanup {A} (m : prog archive exn A) (P : archive → Prop) (P' : A → archive → Prop) :
  (∀ s, P s → does calm removing P' m s) → triple P (cleanup_safe_to_thread m) (ends P').
Proof.
  intros Hm. unfold cleanup_safe_to_thread.
  eapply (triple_attempt _ _ _ _ _ _ (λ o s, P s ∧ ∀ e, o = Raise e → ¬ calm)).
  - apply triple_await; [by intros s s' Hs <-|by intros s Hs|..].
    + intros s Hs HN. split; (split; [done|]); intros e _ C; by destruct (calm_quiet C).
    + intros s e Hs Hf. split; (split; [done|]); intros e' _ C; by apply (proj2 (calm_quiet C) OtherChannel).
  - intros u. eapply triple_pre; [by apply step_local|by intros s []].
  - intros e He. assert (is_cancelled e = false) as -> by by destruct e. apply triple_throw; [done|].
    intros s [Hs Hc]. destruct (Hm s Hs) as (Hi & _). split; [done|]. by eapply Hc.
  - intros N' _. cbn [is_cancelled]. intros n s _ [Hs Hc]. cbn. destruct (Hm s Hs) as (_ & Hi & _).
    split; [done|]. split; [done|]. by eapply Hc.
Qed.

Lemma does_same {A} s (x : A) (P' : A → archive → Prop) m :
  m s = (Ok x, s) → removing s → P' x s → does calm removing P' m s.
Proof. intros E Hs Hp. unfold does. by rewrite E. Qed.

(** ** Paths *)

Lemma checked_still d s p :
  removing s → _checked_result_dir p (files s0) = Ok d → _checked_result_dir p (files s) = Ok d.
Proof.
  intros Hs. unfold _checked_result_dir. destruct (relative_dir p) as [l|]; [|done].
  destruct (unlinked (files s0) [] l) as [[]|] eqn:E; [|done].
  by rewrite (unlinked_shrinks _ _ _ _ (rg_shrinks _ Hs) E).
Qed.

Lemma owned_checked s rid :
  removing s → rid ∈ owned_run_ids → _checked_result_dir (joined_str (run_dir rid)) (files s) = Ok (run_dir rid).
Proof.
  intros Hs Hr. destruct (rm_owned accepted rid Hr) as (_ & Hn & Hu). apply (checked_still _ _ _ Hs).
  rewrite (checked_joined (rm_settings accepted)) by done. by rewrite Hu.
Qed.

Lemma owned_all l : l ⊆ owned_run_ids → owned_paths project name l = Ok (map (λ r, joined_str (run_dir r)) l).
Proof.
  induction l as [|r l IH]; intros Hl; cbn [owned_paths map]; [done|].
  destruct (rm_owned accepted r) as (Hj & _); [set_solver|]. change [project; name; r] with (run_dir r). rewrite Hj.
  rewrite IH by set_solver. done.
Qed.

Lemma checked_all_ok paths d :
  (∀ p, p ∈ paths → ∃ q, _checked_result_dir p d = Ok q) →
  ∃ l, checked_all paths d = Ok l ∧ ∀ q, q ∈ l ↔ ∃ p, p ∈ paths ∧ _checked_result_dir p d = Ok q.
Proof.
  induction paths as [|p paths IH]; intros Hp; cbn [checked_all].
  { exists []. split; [done|]. set_solver. }
  destruct (Hp p) as [q Hq]; [set_solver|]. rewrite Hq. destruct IH as (l & -> & Hl); [set_solver|].
  exists (q :: l). split; [done|]. intros q'. rewrite elem_of_cons, Hl. split.
  - intros [->|(p' & Hp' & E)]; [exists p|exists p']; set_solver.
  - intros (p' & [->|Hp']%elem_of_cons & E); [left; congruence|right; eauto].
Qed.

Lemma fromkeys_elem seen l x : x ∈ fromkeys seen l ↔ x ∈ l ∧ x ∉ seen.
Proof.
  revert seen. induction l as [|y l IH]; intros seen; cbn [fromkeys]; [set_solver|].
  case_bool_decide; [rewrite IH; set_solver|]. rewrite !elem_of_cons, IH. destruct (decide (x = y)); set_solver.
Qed.

(** ** The steps *)

(** The rows that were found are those of the job. *)
Definition listed (found : list (Z * MetaRow)) s : Prop :=
  removing s ∧ ∀ x, x ∈ found ↔ meta s !! x.1 = Some x.2 ∧ m_job_id x.2 = jid.
Definition emptied (found : list (Z * MetaRow)) s : Prop :=
  listed found s ∧ ∀ d, named d → no_folder d (nodes (files s)).

Lemma rows_named s found : listed found s → found ≠ [] → meta s = meta s0.
Proof.
  intros [Hs Hf] Hne. destruct (rg_rows _ Hs) as [|[E _]]; [done|]. destruct found as [|x found]; [done|].
  destruct (proj1 (Hf x)) as [Hx Hj]; [set_solver|]. rewrite E in Hx. by apply map_lookup_filter_Some in Hx as [_ []].
Qed.

Lemma unlisted_rows s : listed [] s → meta s = others.
Proof.
  intros [Hs Hf]. destruct (rg_rows _ Hs) as [E|[E _]]; [|done]. rewrite E. unfold others. symmetry.
  apply map_filter_id. intros id r Hr Hj. rewrite <- E in Hr. cbn in Hj.
  pose proof (proj2 (Hf (id, r)) (conj Hr Hj)). set_solver.
Qed.

(** Every folder named is among the paths to be removed, or there is no folder any more. *)
Lemma dirs_cover s found (l : list fpath) :
  listed found s →
  (∀ q, q ∈ l ↔ ∃ p, p ∈ map (λ x, m_file_path x.2) found ++ map (λ r, joined_str (run_dir r)) owned_run_ids ∧
                     _checked_result_dir p (files s) = Ok q) →
  ∀ d, named d → d ∈ l ∨ no_folder d (nodes (files s)).
Proof.
  intros [Hs Hf] Hl d Hd. destruct (rg_rows _ Hs) as [E|[_ Hr]]; [|right; by apply Hr]. left. apply Hl.
  destruct Hd as [(id & r & Hr & Hj & Hc)|(rid & Hr & ->)].
  - exists (m_file_path r). split; [|by apply checked_still]. apply elem_of_app. left. apply list_elem_of_fmap.
    exists (id, r). split; [done|]. apply Hf. by rewrite E.
  - exists (joined_str (run_dir rid)). split; [|by apply owned_checked]. apply elem_of_app. right.
    apply list_elem_of_fmap. eauto.
Qed.

Lemma remove_does found (dirs : list fpath) s :
  listed found s → (∀ d, named d → d ∈ dirs ∨ no_folder d (nodes (files s))) →
  does calm removing (λ _ : unit, emptied found) (on_disk (remove_directories (today s) (fromkeys [] dirs))) s.
Proof.
  intros [Hs Hf] Hd. pose proof (remove_directories_spec (today s) (fromkeys [] dirs) (files s) (rg_tree _ Hs)) as (H1' & H2' & H3' & H4').
  cbv zeta in *. unfold does, on_disk. cbn [fst snd].
  set (r := remove_directories _ _ _) in *.
  assert (removing (set_files r.2 s)) as Hi.
  { constructor; cbn; [done|etrans; [apply Hs|done]|apply Hs|intros C; by apply H4', Hs|].
    destruct (rg_rows _ Hs) as [|[E Hr]]; [by left|right]. split; [done|]. intros d Hn. eapply no_folder_shrinks; [exact H2'|by apply Hr]. }
  split; [done|]. split; [done|]. destruct r.1 as [[]|e] eqn:E; cbn [in_library].
  - split; [by split|]. intros d Hn. cbn. destruct (Hd d Hn) as [Hin|Hno].
    + apply H3'; [done|]. apply fromkeys_elem. set_solver.
    + by eapply no_folder_shrinks.
  - split; [done|]. intros C. destruct (H4' (rg_faults _ Hs C)) as [_ Ho]. congruence.
Qed.

Lemma delete_does found s :
  emptied found s → does calm removing (λ _ : unit, finished) (_delete_metadata_ids (map fst found)) s.
Proof.
  intros [[Hs Hf] Hd]. unfold does, _delete_metadata_ids, pmodify. cbn [fst snd].
  assert (filter (λ x : Z * MetaRow, x.1 ∉ map fst found) (meta s) = others) as E.
  { apply map_eq. intros id. apply option_eq. intros r. unfold others. rewrite !map_lookup_filter_Some. cbn [fst snd].
    assert (id ∈ map fst found ↔ ∃ r, meta s !! id = Some r ∧ m_job_id r = jid) as Hid.
    { rewrite list_elem_of_fmap. split; [intros ([i r'] & -> & Hx%Hf); eauto|]. intros (r' & Hr'). exists (id, r'). split; [done|]. by apply Hf. }
    destruct (rg_rows _ Hs) as [Em|[Em _]].
    - rewrite Hid, Em. split; [intros [Hr Hn]; split; [done|]; intros Hj; apply Hn; eauto|].
      intros [Hr Hn]. split; [done|]. intros (r' & Hr' & Hj). congruence.
    - rewrite Hid, Em. unfold others. rewrite map_lookup_filter_Some. cbn [snd]. split; [tauto|].
      intros [Hr Hn]. split; [done|]. intros (r' & Hr' & Hj). apply map_lookup_filter_Some in Hr' as [_ Hr']. done. }
  assert (removed (set_validated (filter (λ x, x.1 ∉ map fst found) (_validated_artifacts s))
    (set_meta (filter (λ x, x.1 ∉ map fst found) (meta s)) s))) as Hr by (split; [exact E|exact Hd]).
  assert (∀ s', removed s' → files s' = files s → known_jobs s' = known_jobs s → removing s') as Hk.
  { intros s' Hs' Ef Ej. destruct Hs. constructor; rewrite ?Ef, ?Ej; try done. by right. }
  split; [done|]. split; [by apply Hk|]. split; [by apply Hk|exact Hr].
Qed.

Lemma delete_results_step : triple removing (delete_results jid owned_run_ids) (ends (λ _, finished)).
Proof.
  unfold delete_results. eapply (step_then _ _ _ _ _ _ _ _ (λ x s, removing s ∧ x = (project, name))).
  { apply step_call; [exact calm_quiet|by intros s s' Hs <-|]. intros s Hs. unfold does. cbn. by rewrite (rg_job _ Hs). }
  intros job. apply triple_pure. intros ->. cbn [fst snd]. rewrite owned_all by done.
  eapply (step_then _ _ _ _ _ _ _ _ listed).
  { apply step_call; [exact calm_quiet|by intros s s' Hs <-|]. intros s Hs. apply (does_same _ _ _ _ eq_refl); [done|].
    split; [done|]. intros x. rewrite elem_rows, bool_decide_eq_true. tauto. }
  intros found. eapply (step_then _ _ _ _ _ _ _ _ (λ _, finished)); [|intros z; by apply triple_return].
  unfold _delete_files_then_ids. set (expected := map _ owned_run_ids).
  destruct (bool_decide (found = []) && bool_decide (expected = [])) eqn:Eb.
  { boolprop. repeat match goal with Hb : bool_decide _ = true |- _ => apply bool_decide_eq_true in Hb end. subst found.
    apply triple_return. intros s Hl. split; [apply Hl|]. split; [by apply unlisted_rows|].
    destruct (rg_rows _ (proj1 Hl)) as [E|[_ Hr]]; [|exact Hr]. intros d [(id & r & Hr & Hj & _)|(rid & Hr & _)].
    - rewrite <- E in Hr. pose proof (proj2 (proj2 Hl (id, r)) (conj Hr Hj)). set_solver.
    - unfold expected in *. destruct owned_run_ids; [set_solver|done]. }
  eapply (step_then _ _ _ _ _ _ _ _ (λ dirs s, listed found s ∧ ∀ d, named d → d ∈ dirs ∨ no_folder d (nodes (files s)))).
  { apply step_local. intros s Hl. destruct (checked_all_ok (map (λ x, m_file_path x.2) found ++ expected) (files s)) as (l & El & Hl').
    - intros p [Hp|Hp]%elem_of_app; apply list_elem_of_fmap in Hp as (x & -> & Hx).
      + destruct (proj1 (proj2 Hl x) Hx) as [Hr Hj]. rewrite (rows_named s found Hl) in Hr by (by intros ->; apply not_elem_of_nil in Hx).
        destruct (rm_rows accepted _ _ Hr Hj) as [d Hd]. exists d. apply (checked_still _ _ _ (proj1 Hl) Hd).
      + exists (run_dir x). by apply owned_checked; [apply Hl|].
    - unfold does. cbn [fst snd]. rewrite El. cbn [in_library]. split; [apply Hl|]. split; [apply Hl|].
      split; [done|]. by eapply dirs_cover. }
  intros dirs. eapply (step_then _ _ _ _ _ _ _ _ (λ _, emptied found)).
  { apply step_cleanup. intros s [Hl Hd]. by apply remove_does. }
  intros u. eapply (step_then _ _ _ _ _ _ _ _ (λ _, finished)); [|intros u'; by apply triple_return].
  destruct found as [|x found]; [apply triple_return; intros s [Hl Hd]; split; [apply Hl|]; split; [by apply unlisted_rows|done]|].
  apply step_call; [exact calm_quiet|by intros s s' Hs <-|]. intros s. apply delete_does.
Qed.
End removal.

(** [C32] The removal of a job's results can be repeated wherever it was interrupted: cancelled,
    failed, or stopped by a fault of the disk in the middle of a folder, it never forgets a
    folder that is still there, and the same request, undisturbed, removes every folder that
    the metadata named at first or the job owns, every row of the job, and no other row. *)
Theorem interrupted_removal_resumes `{ResultSettings} `{JsonReader} `{Printable}
    jid project name ids s0 s fails n o :
  removable jid project name ids s0 → faults (files s) = [] →
  runs eq fails n (delete_results jid ids) s0 o s →
  (o = Ok tt → removed jid project name ids s0 s) ∧
  let again := exec (delete_results jid ids) s in again.1 = Ok tt ∧ removed jid project name ids s0 again.2.
Proof.
  intros Ha Hf Hr.
  assert (removing False jid project name ids s0 s0) as H0' by (constructor; try apply Ha; [reflexivity|done|by left]).
  pose proof (triple_runs eq fails n _ _ _ s0 o s (delete_results_step fails n False ltac:(done) jid project name ids s0 Ha) H0' Hr) as Ho.
  assert (removing False jid project name ids s0 s) as Hi by (destruct o; apply Ho).
  split; [intros ->; apply Ho|]. cbv zeta.
  assert (removing True jid project name ids s0 s) as Hi' by (destruct Hi; by constructor).
  pose proof (triple_runs eq (λ _, False) 0 _ _ _ s (exec (delete_results jid ids) s).1 (exec (delete_results jid ids) s).2
    (delete_results_step (λ _, False) 0 True ltac:(intros _; split; [done|by intros c []]) jid project name ids s0 Ha) Hi'
    (exec_runs eq (λ _, False) 0 _ s)) as Hx.
  destruct (exec _ s).1 as [[]|e]; [by destruct Hx|]. by destruct Hx as [_ []].
Qed.

(** ** Retention *)

Section retention.
Context `{ResultSettings} `{JsonReader} `{Printable}.
Context (fails : channel → Prop) (s0 : archive) (query : archive → list (Z * MetaRow)).
Implicit Types s : archive.
Abbreviation always := (always eq fails).

(** The batch takes the row: it is listed, and its run was not seen active. *)
Definition dir_of (x : Z * MetaRow) (d : fpath) : Prop := _checked_result_dir (m_file_path x.2) (files s0) = Ok d.
Definition doomed (x : Z * MetaRow) : Prop :=
  x ∈ query s0 ∧ ∀ d, dir_of x d → looks_up_active = true → d ∉ active_runs s0.

Lemma at_start_stable : stable eq (λ s, s = s0).
Proof. by intros s s' -> <-. Qed.

Lemma inactive_step found :
  (∀ x, x ∈ found → x ∈ query s0) →
  always (λ s, s = s0) (inactive_rows found)
    (λ o s, s = s0 ∧ ∀ l, o = Ok l → ∀ x, x ∈ l → doomed x).
Proof.
  induction found as [|x found IH]; intros Hf; cbn [inactive_rows].
  { apply always_return. intros s ->. split; [done|]. intros l [= <-] x Hx. by apply not_elem_of_nil in Hx. }
  eapply (always_bind _ _ _ _ _ (λ o s, s = s0 ∧ (o = Ok true → doomed x))).
  - eapply (always_attempt _ _ _ _ _ (λ o s, s = s0 ∧ in_library (_checked_result_dir (m_file_path x.2) (files s0)) = o)).
    { apply always_local. intros s ->. by split. }
    intros [d|e].
    + eapply (always_attempt _ _ _ _ _ (λ o s, s = s0 ∧ dir_of x d ∧
        (o = Ok false → looks_up_active = true → d ∉ active_runs s0))).
      * unfold _active. destruct looks_up_active eqn:Hl; cbn [negb].
        -- eapply (always_pre _ _ (λ s, s = s0 ∧ dir_of x d)).
           ++ apply always_await; [by intros s s' Hs <-| |by intros s e [-> Hd] _].
              intros s [-> Hd]. cbn. split; [done|]. split; [done|]. intros [= Hb] _. by apply bool_decide_eq_false in Hb.
           ++ intros s [-> E]. split; [done|]. unfold dir_of. by destruct (_checked_result_dir _ _); cbn in E; simplify_eq.
        -- apply always_return. intros s [-> E]. split; [done|]. split; [|done].
           unfold dir_of. by destruct (_checked_result_dir _ _); cbn in E; simplify_eq.
      * intros [[]|e].
        -- apply always_return. by intros s (-> & _).
        -- apply always_return. intros s (-> & Hd & Ha). split; [done|]. intros _. split; [apply Hf; set_solver|].
           intros d' Hd' Hl. unfold dir_of in *. assert (d' = d) as -> by congruence. by apply Ha.
        -- destruct (is_cancelled e); [by apply always_throw; intros s (-> & _)|by apply always_return; intros s (-> & _)].
    + apply always_return. intros s [-> E]. split; [done|]. intros _. split; [apply Hf; set_solver|].
      intros d' Hd'. unfold dir_of in Hd'. by rewrite Hd' in E.
  - intros keep k s [-> Hk]. revert k. 
    assert (always (λ s, s = s0) (let* rest := inactive_rows found in Return (if keep : bool then x :: rest else rest))
      (λ o s, s = s0 ∧ ∀ l, o = Ok l → ∀ x, x ∈ l → doomed x)) as Ha; [|intros k; by apply Ha].
    eapply always_bind; [apply IH; intros; apply Hf; set_solver| |by intros e s [-> _]].
    intros rest. apply always_return. intros s [-> Hr]. split; [done|]. intros l [= <-] y Hy.
    specialize (Hr rest eq_refl). destruct keep; [|by apply Hr]. apply elem_of_cons in Hy as [->|Hy]; auto.
  - by intros e s [-> _].
Qed.

(** A row, and its folder, that the batch does not take. *)
Context (id : Z) (row : MetaRow) (d : fpath).
Record spared : Prop := {
  sp_row : meta s0 !! id = Some row;
  sp_dir : dir_of (id, row) d;
  sp_not : ¬ doomed (id, row);
  sp_alone id' row' : meta s0 !! id' = Some row' → dir_of (id', row') d → id' = id;
  sp_query x : x ∈ query s0 → meta s0 !! x.1 = Some x.2;
}.
Context (safe : spared).
Definition intact s : Prop := meta s !! id = Some row ∧ ∀ q, d `prefix_of` q → nodes (files s) !! q = nodes (files s0) !! q.

Lemma dir_length p e t : _checked_result_dir p t = Ok e → length e = 3%nat.
Proof.
  unfold _checked_result_dir, relative_dir. repeat (case_match; try done). intros [= <-]. simplify_eq.
  match goal with Hb : negb (bool_decide (length _ = _)) = false |- _ => apply negb_false_iff, bool_decide_eq_true in Hb end.
  done.
Qed.

Lemma remove_elsewhere now paths q t :
  (∀ p, p ∈ paths → ¬ p `prefix_of` q ∧ parent p ≠ q) →
  nodes (remove_directories now paths t).2 !! q = nodes t !! q.
Proof.
  revert t. induction paths as [|p paths IH]; intros t Hp; cbn [remove_directories]; [done|].
  destruct (Hp p) as [Hq Hn]; [set_solver|]. assert (∀ t, nodes (remove_directories now paths t).2 !! q = nodes t !! q) as IH'
    by (intros t'; apply IH; set_solver).
  destruct (negb _); [apply IH'|].
  assert (nodes (rmtree now p t).2 !! q = nodes t !! q) as Hr.
  { unfold rmtree. apply (faulty_keeps _ _ (λ n, n !! q = nodes t !! q)); [| |done].
    - intros t' <-. cbn. rewrite drop_lookup, bool_decide_false; [by rewrite lookup_touch, bool_decide_false|].
      rewrite Exists_cons, Exists_nil. by intros [?|[]].
    - intros l t' <-. cbn. rewrite drop_lookup, bool_decide_false; [done|]. intros [r [[Hr _]%list_elem_of_filter Hrq]]%Exists_exists.
      apply Hq. etrans; [apply Hr|done]. }
  destruct (rmtree now p t) as [[u|e] t1]; cbn [fst snd] in *; [by rewrite IH'|].
  case_bool_decide; [by rewrite IH'|exact Hr].
Qed.

Lemma dirs_elsewhere l dirs :
  (∀ x, x ∈ l → doomed x) →
  _checked_result_dirs (map (λ x, m_file_path x.2) l) (files s0) = Ok dirs →
  ∀ p, p ∈ dirs → ∃ x, x ∈ l ∧ dir_of x p.
Proof.
  intros Hl. revert dirs. induction l as [|x l IH]; intros dirs; unfold _checked_result_dirs; cbn [map foldr].
  { intros [= <-] p Hp. by apply not_elem_of_nil in Hp. }
  fold (_checked_result_dirs (map (λ x, m_file_path x.2) l) (files s0)).
  destruct (_checked_result_dir (m_file_path x.2) (files s0)) as [d0|e] eqn:E.
  - destruct (_checked_result_dirs _ _) as [ds|]; [|done]. intros [= <-] p [->|Hp]%elem_of_cons.
    + exists x. split; [set_solver|done].
    + destruct (IH ltac:(set_solver) ds eq_refl p Hp) as (y & Hy & ?). exists y. split; [set_solver|done].
  - case_bool_decide; [|done]. intros Hd p Hp. destruct (IH ltac:(set_solver) dirs Hd p Hp) as (y & Hy & ?).
    exists y. split; [set_solver|done].
Qed.

Lemma batch_step : always (λ s, s = s0) (_delete_retention_batch query) (λ _, intact).
Proof.
  assert (intact s0) as H0' by (split; [apply safe|done]).
  assert (stable eq intact) as Hst by by intros s s' Hs <-.
  unfold _delete_retention_batch. eapply (always_bind _ _ _ _ _ (λ o s, s = s0 ∧ ∀ l, o = Ok l → l = query s0)).
  { apply always_await; [apply at_start_stable| |by intros s e -> _]. intros s ->. cbn. split; [done|]. by intros l [= <-]. }
  2: by intros e s [-> _].
  intros found k s [-> Hf]. specialize (Hf found eq_refl). subst found. revert k.
  match goal with |- ∀ k, wp _ _ ?p k _ s0 => assert (always (λ s, s = s0) p (λ _, intact)) as Ha end; [|intros k; by apply Ha].
  eapply always_bind; [by apply inactive_step| |by intros e s [-> _]].
  intros [|x l]; [by apply always_return; intros s [-> _]|]. intros k s [-> Hl]. specialize (Hl _ eq_refl).
  revert k. set (inactive := x :: l) in *.
  match goal with |- ∀ k, wp _ _ ?p k _ s0 => assert (always (λ s, s = s0) p (λ _, intact)) as Ha end; [|intros k; by apply Ha].
  set (kept := λ s : archive, files s = files s0 ∧ intact s).
  assert (kept (_delete_metadata_ids (map fst inactive) s0).2) as Hk.
  { split; [done|]. split; [|done]. apply map_lookup_filter_Some. split; [apply safe|]. cbn [fst].
    intros ([i r] & E & Hin)%list_elem_of_fmap. cbn in E. subst i. destruct (Hl _ Hin) as [Hq Ha].
    pose proof (sp_query safe _ Hq) as Hr. cbn in Hr. rewrite (sp_row safe) in Hr. injection Hr as <-. by apply (sp_not safe). }
  eapply (always_bind _ _ _ _ _ (λ _, kept)); [|intros u|by intros e s [_ ?]].
  { apply always_await; [apply at_start_stable| |]; [by intros s ->|intros s e -> _; by split]. }
  eapply (always_bind _ _ _ _ _ (λ o s, kept s ∧ ∀ ps, o = Ok ps → ∀ p, p ∈ ps → ∃ x, x ∈ inactive ∧ dir_of x p)).
  { apply always_local. intros s [Ef Hi]. cbn [fst snd]. split; [done|]. rewrite Ef. intros ps E.
    destruct (_checked_result_dirs _ _) as [ds|] eqn:Ed; [|done]. injection E as <-. by apply (dirs_elsewhere inactive). }
  2: by intros e s [[_ ?] _].
  intros ps. eapply (always_bind _ _ _ _ _ (λ _, intact)); [|intros u'; by apply always_return|done].
  eapply (always_attempt _ _ _ _ _ (λ o s, intact s ∧ ∀ p, p ∈ ps → ∃ x, x ∈ inactive ∧ dir_of x p)).
  { apply always_await; [by intros s s' Hs <-|..]; intros s; [intros [[_ Hi] Hp]|intros e [[_ Hi] Hp] _];
      repeat split; try apply Hi; by apply Hp. }
  assert (∀ s, intact s → (∀ p, p ∈ ps → ∃ x, x ∈ inactive ∧ dir_of x p) → intact (on_disk (remove_directories (today s) ps) s).2) as Hrm.
  { intros s [Hr Hn] Hp. split; [done|]. intros q Hq. unfold on_disk. cbn. rewrite remove_elsewhere; [by apply Hn|].
    intros p Hin. destruct (Hp p Hin) as ([i r] & Hx & Hd). pose proof (dir_length _ _ _ Hd) as Hlp.
    pose proof (dir_length _ _ _ (sp_dir safe)) as Hld. split.
    - intros Hpq. assert (p = d) as ->.
      { destruct (prefix_weak_total p d q Hpq Hq) as [Hw|Hw]; apply prefix_length_eq in Hw; auto with lia. }
      destruct (Hl _ Hx) as [Hqx _] . pose proof (sp_query safe _ Hqx) as Hrow. cbn in Hrow.
      assert (i = id) as -> by by eapply (sp_alone safe).
      rewrite (sp_row safe) in Hrow. injection Hrow as <-. apply (sp_not safe), Hl, Hx.
    - intros <-. apply prefix_length in Hq. unfold parent in Hq. rewrite Hld in Hq.
      assert (p ≠ []) as Hne by by destruct p. rewrite (app_removelast_last "" Hne), length_app in Hlp. cbn in Hlp. lia. }
  intros [u''|e].
  - apply always_local. intros s [Hi Hp]. by apply Hrm.
  - destruct (is_cancelled e); [|by apply always_throw; intros s [? _]].
    intros k s [Hi Hp]. cbn. by apply Hrm.
Qed.
End retention.

(** Pruning spares the newest results: whatever fails and however the pass is cancelled,
    a row among the newest [max_results_per_job] of its job, or of a run that is active, stays,
    and every entry of its folder is as it was. *)
Theorem prune_keeps_newest `{ResultSettings} `{JsonReader} `{Printable} s s' fails n o max_results limit id row d :
  meta s !! id = Some row → _checked_result_dir (m_file_path row) (files s) = Ok d →
  (∀ id' row', meta s !! id' = Some row' → _checked_result_dir (m_file_path row') (files s) = Ok d → id' = id) →
  (rank (id, row) s ≤ max_results)%nat ∨ (looks_up_active = true ∧ d ∈ active_runs s) →
  runs eq fails n (prune_excess_per_job max_results limit) s o s' →
  meta s' !! id = Some row ∧ ∀ q, d `prefix_of` q → nodes (files s') !! q = nodes (files s) !! q.
Proof.
  intros Hr Hd Ha Hsafe. set (query := EXCESS_RESULTS_PER_JOB_QUERY max_results limit).
  assert (∀ x, x ∈ query s → (max_results < rank x s)%nat ∧ meta s !! x.1 = Some x.2) as Hq.
  { intros x (i & Hx & _)%elem_of_take. apply list_elem_of_lookup_2, list_elem_of_filter in Hx as [Hx Hin]. split; [done|]. by apply elem_rows in Hin as [_ Hin]. }
  assert (spared s query id row d) as Hsp.
  { constructor; [done|done| |done|by intros x [_ ?]%Hq].
    intros [[Hlt _]%Hq Hn]. destruct Hsafe as [Hle|[Hl Hact]]; [cbn in Hlt; lia|by apply (Hn d Hd Hl)]. }
  intros Hrun. refine (always_runs eq fails n (λ s', s' = s) _ (λ _, intact s id row d) s o s' _ eq_refl Hrun).
  unfold prune_excess_per_job. assert (intact s id row d s) as H0' by by split.
  destruct (_ <? 1)%nat; [by apply always_throw; intros ? ->|]. destruct (_ <? 1)%nat; [by apply always_throw; intros ? ->|].
  by apply batch_step.
Qed.

(** ** At concrete inputs *)

Definition sample_error_disk (s : archive) : archive :=
  set_files {| nodes := nodes (files s); faults := [torn [["p"; "n"; "r1"; "results.json"]]]; next_inode := next_inode (files s) |} s.
(** The disk fails while the folder of the run is removed. *)
Definition torn_removal := exec (delete_results "j1" ["r1"]) (sample_error_disk saved_archive.2).

Lemma sample_removable : removable "j1" "p" "n" ["r1"] (sample_error_disk saved_archive.2).
Proof.
  constructor; [exact sample_settings_ok|apply tree_checked_ok; by vm_compute|by vm_compute| |].
  - intros id r Hr _. exists ["p"; "n"; "r1"]. assert (meta (sample_error_disk saved_archive.2) = {[ 1%Z :=
      {| m_job_id := "j1"; m_project := "p"; m_run_id := "r1"; m_status := "complete"; m_record_count := Some 1;
         m_file_path := "/data/results/p/n/r1"; m_created_at := 50 |} ]}) as E by by vm_compute.
    rewrite E in Hr. apply lookup_singleton_Some in Hr as [_ <-]. by vm_compute.
  - intros rid ->%list_elem_of_singleton. split; [by vm_compute|]. split; [apply sample_saveable|by vm_compute].
Qed.

Lemma interrupted_removal_resumes_witness :
  torn_removal.1 = Raise (Broken "OSError") ∧ nodes (files torn_removal.2) !! ["p"; "n"; "r1"] ≠ None ∧
  (exec (delete_results "j1" ["r1"]) torn_removal.2).1 = Ok tt ∧
  removed "j1" "p" "n" ["r1"] (sample_error_disk saved_archive.2) (exec (delete_results "j1" ["r1"]) torn_removal.2).2.
Proof.
  split; [by vm_compute|]. split; [by vm_compute|].
  refine (proj2 (interrupted_removal_resumes "j1" "p" "n" ["r1"] _ torn_removal.2 (λ _, False) 0 torn_removal.1 sample_removable _
    (exec_runs eq (λ _, False) 0 (delete_results "j1" ["r1"]) (sample_error_disk saved_archive.2)))).
  by vm_compute.
Defined.

Definition two_results := exec (save_result "j1" sample_document (Some "r2") "" "complete" (Some 1) None) saved_archive.2.
Definition pruned := exec (prune_excess_per_job 1 10) two_results.2.
Definition second_row : MetaRow :=
  {| m_job_id := "j1"; m_project := "p"; m_run_id := "r2"; m_status := "complete"; m_record_count := Some 1;
     m_file_path := "/data/results/p/n/r2"; m_created_at := 50 |}.
Definition second_alone (x : Z * MetaRow) : bool :=
  match _checked_result_dir (m_file_path x.2) (files two_results.2) with
  | Ok d => bool_decide (d = ["p"; "n"; "r2"] → x.1 = 2)
  | Raise _ => true
  end.

Lemma prune_keeps_newest_witness :
  pruned.1 = Ok 1 ∧ meta pruned.2 !! 1 = None ∧ meta pruned.2 !! 2 = Some second_row.
Proof.
  split; [by vm_compute|]. split; [by vm_compute|].
  refine (proj1 (prune_keeps_newest two_results.2 pruned.2 (λ _, False) 0 pruned.1 1 10 2 second_row ["p"; "n"; "r2"] _ _ _ _
    (exec_runs eq (λ _, False) 0 (prune_excess_per_job 1 10) two_results.2))).
  - by vm_compute.
  - by vm_compute.
  - intros id' row' Hr Hd. assert (forallb second_alone (map_to_list (meta two_results.2)) = true) as Hc by by vm_compute.
    rewrite forallb_elem in Hc. specialize (Hc (id', row') (proj2 (elem_of_map_to_list _ _ _) Hr)).
    unfold second_alone in Hc. cbn [fst snd] in Hc. rewrite Hd in Hc. apply bool_decide_eq_true in Hc. by apply Hc.
  - left. apply Nat.leb_le. by vm_compute.
Defined.
