(* ===== verification/Artifacts.v ===== *)
(** * Reconciling artifacts with their metadata ([storage/result_store.py], second half)

    One page of a pass over the rows of [results_meta.db] and one over the folders below the
    results root, each resumed at a stored cursor. A pass looks at the disk in threads that
    poll a deadline ([checks_left]); [pass] is what such a thread shares with the page. Error
    identifiers are not cut to a length, and log lines are left out. *)

From S2P Require Import Prelude.
From S2P Require Import Text.
From S2P Require Import Unicode.
From S2P Require Import Paths.
From S2P Require Import Budget.
From S2P Require Import Rows.
From S2P Require Import Json.
From S2P Require Import JsonEncoding.
From S2P Require Import Proc.
From S2P Require Import Models.
From S2P Require Import Filesystem.
From S2P Require Import LocalResults.
Open Scope Z_scope.

(** ** What a page counts *)

Inductive counter :=
| metadata_rows_inspected | valid_artifacts | missing_result_files | corrupt_result_files
| unreadable_result_files | unsafe_metadata_paths | filesystem_entries_inspected
| filesystem_run_directories_inspected | malformed_entries_ignored | orphan_candidates
| recent_candidates_skipped | active_run_candidates_skipped | metadata_race_candidates_skipped
| active_run_race_candidates_skipped | stale_temporary_candidates | directories_would_remove
| files_would_remove | directories_removed | files_removed | removed_bytes.
#[export] Instance counter_eq_dec : EqDecision counter.
Proof. solve_decision. Defined.

Inductive ResultArtifactFailureKind := af_missing | af_corrupt | af_unreadable | af_unsafe.
Record ResultArtifactFailure := {
  af_job_id : string;
  af_run_id : string;
  af_kind : ResultArtifactFailureKind;
  af_error_type : option string;
}.
Record ReconciliationOperationFailure := {
  of_action : string;
  of_identity : fpath;
  of_error_type : string;
}.

(** [_ReconciliationState] *)
Record tally := {
  counts : counter → Z;
  artifact_failures : list ResultArtifactFailure;
  operation_failures : list ReconciliationOperationFailure;
}.
Definition no_counts : tally := {| counts _ := 0; artifact_failures := []; operation_failures := [] |}.
Definition add_count (c : counter) (n : Z) (t : tally) : tally :=
  {| counts c' := if bool_decide (c' = c) then counts t c' + n else counts t c';
     artifact_failures := artifact_failures t; operation_failures := operation_failures t |}.
Definition add_artifact_failure (f : ResultArtifactFailure) (t : tally) : tally :=
  {| counts := counts t; artifact_failures := artifact_failures t ++ [f]; operation_failures := operation_failures t |}.
Definition add_operation_failure (f : ReconciliationOperationFailure) (t : tally) : tally :=
  {| counts := counts t; artifact_failures := artifact_failures t; operation_failures := operation_failures t ++ [f] |}.

Record ResultReconciliationReport := {
  dry_run : bool;
  totals : tally;
  metadata_scan_exhausted : bool;
  filesystem_scan_exhausted : bool;
}.
Definition empty_report (dry : bool) : ResultReconciliationReport :=
  {| dry_run := dry; totals := no_counts; metadata_scan_exhausted := true; filesystem_scan_exhausted := true |}.
Definition failure_count (r : ResultReconciliationReport) : nat :=
  (length (artifact_failures (totals r)) + length (operation_failures (totals r)))%nat.
Definition has_more (r : ResultReconciliationReport) : bool :=
  negb (metadata_scan_exhausted r && filesystem_scan_exhausted r).
Definition merged_with (r page : ResultReconciliationReport) (metadata_scanned filesystem_scanned : bool) :
    outcome exn ResultReconciliationReport :=
  if negb (Bool.eqb (dry_run r) (dry_run page)) then Raise (Broken "ValueError")
  else Ok {|
    dry_run := dry_run r;
    totals := {| counts c := counts (totals r) c + counts (totals page) c;
                 artifact_failures := artifact_failures (totals r) ++ artifact_failures (totals page);
                 operation_failures := operation_failures (totals r) ++ operation_failures (totals page) |};
    metadata_scan_exhausted := if metadata_scanned then metadata_scan_exhausted page else metadata_scan_exhausted r;
    filesystem_scan_exhausted :=
      if filesystem_scanned then filesystem_scan_exhausted page else filesystem_scan_exhausted r |}.

(** [_RemovalCandidate], and an entry of the scan with its cursor of three parts. *)
Record RemovalCandidate := {
  c_identity : fpath;
  c_path : fpath;
  c_size : Z;
  c_recent : bool;
}.
Record ScannedArtifactEntry := {
  se_cursor : fpath;
  run_candidate : option RemovalCandidate;
  temp_candidates : list RemovalCandidate;
}.

(** What a thread of the pass works on. *)
Record pass := { store : archive; state : tally; scanned_entries : list ScannedArtifactEntry }.

(** ** Names and cursors *)

(** A regular expression: the name of the file written, the process, 32 hexadecimal digits. *)
Definition lower_hex (c : Z) : bool := ((48 <=? c) && (c <=? 57)) || ((97 <=? c) && (c <=? 102)).
Definition _ATOMIC_TEMP_PATTERN (name : string) : bool :=
  match split_at 46 (u name) with
  | [[]; stem; ext; pid; unique; tmp] =>
      existsb (λ x, bool_decide (stem = u x.1) && bool_decide (ext = u x.2))
        [("results", "json"); ("dynamic-main", "png"); ("stealthy-main", "png")] &&
      match pid with d :: ds => (49 <=? d) && forallb (λ c, (48 <=? c) && (c <=? 57)) (d :: ds) | [] => false end &&
      bool_decide (length unique = 32%nat) && forallb lower_hex unique && bool_decide (tmp = u "tmp")
  | _ => false
  end.

(** Tuples of strings in Python's order. *)
Fixpoint lex_leb (l l' : list string) : bool :=
  match l, l' with
  | [], _ => true
  | _ :: _, [] => false
  | a :: l, b :: l' => if bool_decide (a = b) then lex_leb l l' else String.leb a b
  end.
Definition name_before (a b : string * node) : Prop := String.leb a.1 b.1 = true.
#[export] Instance name_before_dec a b : Decision (name_before a b).
Proof. unfold name_before. apply _. Defined.
Definition path_before (a b : fpath * Z * Z) : Prop := String.leb (slashed a.1.1) (slashed b.1.1) = true.
#[export] Instance path_before_dec a b : Decision (path_before a b).
Proof. unfold path_before. apply _. Defined.

(** Shorter cursors are filled with empty strings. *)
Definition padded (parts : fpath) : fpath := parts ++ replicate (3 - length parts) "".
Definition cursor_of (parts : fpath) : option (string * string * string) :=
  match parts with [a; b; c] => Some (a, b, c) | _ => None end.
Definition cursor_parts (c : string * string * string) : fpath := [c.1.1; c.1.2; c.2].

Definition mtime_of (n : node) : Z := match n with Folder m | Regular _ m _ | Link m => m end.

(** ** Errors *)

Definition error_type (e : exn) : string := match e with Broken t => t | BudgetStop _ => "BudgetExceeded" | _ => "Exception" end.
Definition deadline_error : exn := Broken "FilesystemDeadlineReached".
Definition is_type (t : string) (e : exn) : bool := match e with Broken t' => bool_decide (t' = t) | _ => false end.
Definition os_error (e : exn) : bool :=
  existsb (λ t, is_type t e)
    ["OSError"; "FileNotFoundError"; "NotADirectoryError"; "FileExistsError"; "IsADirectoryError"; "FilesystemDeadlineReached"].
Definition value_error (e : exn) : bool :=
  existsb (λ t, is_type t e)
    ["ValueError"; "FileSizeLimitExceeded"; "DirectoryEntryLimitExceeded"; "JSONDecodeError"; "UnicodeDecodeError"].

(** [try]: what was done before the exception stays done. *)
Definition ptry {S A B} (m : prog S exn A) (k : outcome exn A → prog S exn B) : prog S exn B := λ s,
  let r := m s in k r.1 r.2.
Fixpoint each {S A} (f : A → prog S exn unit) (l : list A) : prog S exn unit :=
  match l with [] => pret tt | x :: l => do! f x in each f l end.

Section store.
Context `{ResultSettings} `{JsonReader} `{Printable}.
Implicit Types (s : archive).

Abbreviation procedure := (proc archive).
Abbreviation step := (prog archive exn).
Abbreviation scanning := (prog pass exn).

Definition on_store {A} (m : step A) : scanning A := λ p,
  let r := m (store p) in
  (r.1, {| store := r.2; state := state p; scanned_entries := scanned_entries p |}).
Definition tallied (f : tally → tally) : scanning unit := pmodify (λ p,
  {| store := store p; state := f (state p); scanned_entries := scanned_entries p |}).
Definition bump (c : counter) : scanning unit := tallied (add_count c 1).
Definition operation_failed (action : string) (identity : fpath) (e : exn) : tally → tally :=
  add_operation_failure {| of_action := action; of_identity := identity; of_error_type := error_type e |}.

(** The deadline may pass at any check. *)
Definition deadline_reached : step bool := λ s,
  match checks_left s with
  | None => (Ok false, s)
  | Some (Datatypes.S n) => (Ok false, set_checks_left (Some n) s)
  | Some O => (Ok true, s)
  end.
Definition check_stop (polled : bool) : step unit :=
  if polled then let! stop := deadline_reached in if stop then praise deadline_error else pret tt else pret tt.

(** ** Metadata rows *)

Definition _record_artifact_failure (row : MetaRow) (kind : ResultArtifactFailureKind) (error : option string)
    (t : tally) : tally :=
  add_artifact_failure
    {| af_job_id := m_job_id row; af_run_id := m_run_id row; af_kind := kind; af_error_type := error |}
    (add_count match kind with
               | af_missing => missing_result_files
               | af_corrupt => corrupt_result_files
               | af_unreadable => unreadable_result_files
               | af_unsafe => unsafe_metadata_paths
               end 1 t).

(** [read_json_file_no_follow] with a deadline, its blocks being read at once. *)
Definition validate_file (path : fpath) : step unit :=
  do! check_stop true in
  let! bytes := on_disk (_read_bytearray_file_no_follow path (Some _max_serialized_result_bytes)) in
  do! check_stop true in
  match json_loads bytes with Ok _ => pret tt | Raise e => praise (Broken e) end.

Definition _validate_metadata_row (row_id : Z) (row : MetaRow) : scanning unit :=
  let failed kind error := tallied (_record_artifact_failure row kind error) in
  let! p := pget in
  let validated := _validated_artifacts (store p) !! row_id in
  do! on_store (pmodify (λ s, set_validated (delete row_id (_validated_artifacts s)) s)) in
  match _checked_result_dir (m_file_path row) (files (store p)) with
  | Raise e => failed af_unsafe (Some e)
  | Ok run_dir =>
      let result_path := run_dir ++ ["results.json"] in
      match lstat run_dir (files (store p)), lstat result_path (files (store p)) with
      | Raise e, _ | Ok _, Raise e =>
          failed (if bool_decide (e = "FileNotFoundError") then af_missing else af_unreadable) (Some e)
      | Ok (Folder _), Ok (Regular bytes mtime inode) =>
          let current : fingerprint := (run_dir, inode, length bytes, mtime) in
          let valid := do! on_store (pmodify (λ s, set_validated (<[row_id := current]> (_validated_artifacts s)) s)) in
                       bump valid_artifacts in
          if bool_decide (validated = Some current) then valid
          else ptry (on_store (validate_file result_path)) (λ o,
            match o with
            | Ok _ => valid
            | Raise e =>
                if is_type "FileNotFoundError" e then failed af_missing (Some (error_type e))
                else if corrupt_kind (error_type e) then failed af_corrupt (Some (error_type e))
                else if is_type "FilesystemDeadlineReached" e then praise e
                else if os_error e then failed af_unreadable (Some (error_type e))
                else praise e
            end)
      | Ok _, Ok _ => failed af_unsafe None
      end
  end.

(** Entries of rows that a completed page did not list are dropped. *)
Definition _forget_unlisted_artifacts (after_id : Z) (rows : list (Z * MetaRow)) (exhausted : bool) : step unit :=
  let upper := match last rows with Some x => x.1 | None => after_id end in
  pmodify (λ s, set_validated
    (filter (λ x, ¬ (after_id < x.1 ∧ (exhausted = true ∨ x.1 <= upper) ∧ x.1 ∉ map fst rows)) (_validated_artifacts s)) s).

(** The size of the completed prefix. *)
Fixpoint _validate_metadata_rows (rows : list (Z * MetaRow)) (completed : nat) : scanning nat :=
  match rows with
  | [] => pret completed
  | x :: rows =>
      let! stop := on_store deadline_reached in
      if stop then pret completed
      else ptry (_validate_metadata_row x.1 x.2) (λ o,
        match o with
        | Ok _ => do! bump metadata_rows_inspected in _validate_metadata_rows rows (Datatypes.S completed)
        | Raise e => if is_type "FilesystemDeadlineReached" e then pret completed else praise e
        end)
  end.

(** ** Trees *)

Definition children (p : fpath) (t : gmap fpath node) : list (string * node) :=
  merge_sort name_before
    (omap (λ x, match last x.1 with
                | Some c => if bool_decide (parent x.1 = p) then Some (c, x.2) else None
                | None => None
                end) (map_to_list t)).
(** [os.scandir] of an open folder. *)
Definition scandir (p : fpath) : disk_op (list (string * node)) :=
  faulty (λ d, (match lstat p d with
                | Ok (Folder _) => Ok (children p (nodes d))
                | Ok _ => Raise "NotADirectoryError"
                | Raise e => Raise e
                end, d)) whole.
Definition _directory_entries (directory : fpath) (limit : nat) : disk_op (list (string * node)) := λ d,
  match scandir directory d with
  | (Ok l, d) => (if (limit <? length l)%nat then Raise "DirectoryEntryLimitExceeded" else Ok l, d)
  | (Raise e, d) => (Raise e, d)
  end.

(** The variables of [_tree_snapshot]; the next folder comes first. *)
Record snapshot := {
  pending : list fpath;
  total_bytes : Z;
  total_entries : nat;
  newest_mtime : Z;
  temporary_files : list (fpath * Z * Z);
}.
Fixpoint snapshot_entries (polled : bool) (directory : fpath) (entries : list (string * node)) (a : snapshot) :
    step snapshot :=
  match entries with
  | [] => pret a
  | (name, n) :: entries =>
      do! check_stop polled in
      let a := {| pending := pending a; total_bytes := total_bytes a; total_entries := Datatypes.S (total_entries a);
                  newest_mtime := Z.max (newest_mtime a) (mtime_of n); temporary_files := temporary_files a |} in
      let path := directory ++ [name] in
      match n with
      | Link _ => snapshot_entries polled directory entries a
      | Folder _ => snapshot_entries polled directory entries
          {| pending := path :: pending a; total_bytes := total_bytes a; total_entries := total_entries a;
             newest_mtime := newest_mtime a; temporary_files := temporary_files a |}
      | Regular bytes mtime _ =>
          let size := Z.of_nat (length bytes) in
          if _max_artifact_tree_bytes <? total_bytes a + size then praise (Broken "FileSizeLimitExceeded")
          else snapshot_entries polled directory entries
            {| pending := pending a; total_bytes := total_bytes a + size; total_entries := total_entries a;
               newest_mtime := newest_mtime a;
               temporary_files := temporary_files a ++ (if _ATOMIC_TEMP_PATTERN name then [(path, size, mtime)] else []) |}
      end
  end.
(** [fuel] bounds the folders; every folder but the first is an entry. *)
Fixpoint snapshot_folders (fuel : nat) (polled : bool) (a : snapshot) : step snapshot :=
  match fuel, pending a with
  | Datatypes.S fuel, directory :: rest =>
      do! check_stop polled in
      let! entries := on_disk (_directory_entries directory (_max_artifact_tree_entries - total_entries a)) in
      let! a := snapshot_entries polled directory entries
        {| pending := rest; total_bytes := total_bytes a; total_entries := total_entries a;
           newest_mtime := newest_mtime a; temporary_files := temporary_files a |} in
      snapshot_folders fuel polled a
  | _, _ => pret a
  end.
Definition _tree_snapshot (run_dir : fpath) (polled : bool) : step (Z * Z * list (fpath * Z * Z)) :=
  do! check_stop polled in
  let! s := pget in
  match lstat run_dir (files s) with
  | Raise e => praise (Broken e)
  | Ok (Folder mtime) =>
      let! a := snapshot_folders (Datatypes.S _max_artifact_tree_entries) polled
        {| pending := [run_dir]; total_bytes := 0; total_entries := 0; newest_mtime := mtime; temporary_files := [] |} in
      pret (total_bytes a, newest_mtime a, merge_sort path_before (temporary_files a))
  | Ok _ => praise (Broken "ValueError")
  end.

(** ** The scan *)

Section scan.
Context (cutoff_timestamp : Z) (limit : nat) (after : option fpath).

Definition scanned (e : ScannedArtifactEntry) : scanning unit :=
  do! pmodify (λ p, {| store := store p; state := state p; scanned_entries := scanned_entries p ++ [e] |}) in
  bump filesystem_entries_inspected.

(** What is left of a folder that has to be followed: its names, or that it is none. *)
Definition remaining_names (parts : fpath) : step (option (list string)) :=
  do! check_stop true in
  let! s := pget in
  match parts, lstat parts (files s) with
  | _ :: _, Raise e => praise (Broken e)
  | _ :: _, Ok (Regular _ _ _) | _ :: _, Ok (Link _) => pret None
  | _, _ =>
      let! entries := on_disk (scandir parts) in
      do! each (λ _, check_stop true) entries in
      pret (Some (take (limit + 2)
        (filter (λ name, match after with
                         | None => true
                         | Some a => lex_leb (take (length parts + 1) a) (parts ++ [name])
                         end = true) (map fst entries))))
  end.

(** The size, the newest time and the temporary files of a run's folder. *)
Definition examine (parts : fpath) : step (option (fpath * (Z * Z * list (fpath * Z * Z)))) :=
  let! s := pget in
  match lstat parts (files s) with
  | Raise e => praise (Broken e)
  | Ok (Folder _) =>
      match _checked_result_dir (dir_str parts) (files s) with
      | Raise e => praise (Broken e)
      | Ok run_dir => let! tree := _tree_snapshot run_dir true in pret (Some (run_dir, tree))
      end
  | Ok _ => pret None
  end.

Fixpoint temp_entries (identity : fpath) (run_is_recent : bool) (l : list (fpath * Z * Z)) : scanning (list RemovalCandidate) :=
  match l with
  | [] => pret []
  | (path, size, mtime) :: l =>
      if (cutoff_timestamp <=? mtime) || run_is_recent then
        do! bump recent_candidates_skipped in temp_entries identity run_is_recent l
      else
        do! bump stale_temporary_candidates in
        let! rest := temp_entries identity run_is_recent l in
        pret ({| c_identity := identity; c_path := path; c_size := size; c_recent := false |} :: rest)
  end.

(** The body of the loop over the leaves; it stops with the deadline's error. *)
Definition visit_leaf (parts : fpath) : scanning unit :=
  let cursor := padded parts in
  let bare := {| se_cursor := cursor; run_candidate := None; temp_candidates := [] |} in
  if match after with Some a => lex_leb cursor a | None => false end then pret tt
  else
    let! stop := on_store deadline_reached in
    let! p := pget in
    if stop || (limit <=? length (scanned_entries p))%nat then praise deadline_error
    else if (length parts <? _RESULT_RUN_DIR_DEPTH)%nat then scanned bare
    else ptry (on_store (examine parts)) (λ o,
      match o with
      | Ok None => do! bump malformed_entries_ignored in scanned bare
      | Ok (Some (run_dir, (total_bytes, newest_mtime, temporary_files))) =>
          do! bump filesystem_run_directories_inspected in
          let run_is_recent := cutoff_timestamp <=? newest_mtime in
          let! temps := temp_entries cursor run_is_recent temporary_files in
          scanned {| se_cursor := cursor;
                     run_candidate := Some {| c_identity := cursor; c_path := run_dir; c_size := total_bytes;
                                              c_recent := run_is_recent |};
                     temp_candidates := temps |}
      | Raise e =>
          if is_type "FilesystemDeadlineReached" e then praise e
          else if os_error e || value_error e then
            do! tallied (operation_failed "scan_run" cursor e) in scanned bare
          else praise e
      end).

(** [namespace_leaves]; [depth] is how far below the runs are. A folder with nothing left is
    a leaf itself. *)
Fixpoint namespace_leaves (depth : nat) (parts : fpath) : scanning unit :=
  match depth with
  | O => visit_leaf parts
  | Datatypes.S depth =>
      let leaf := match parts with [] => pret tt | _ => visit_leaf parts end in
      ptry (on_store (remaining_names parts)) (λ o,
        match o with
        | Ok None => do! bump malformed_entries_ignored in visit_leaf parts
        | Ok (Some []) => leaf
        | Ok (Some names) => each (λ name, namespace_leaves depth (parts ++ [name])) names
        | Raise e =>
            if is_type "FilesystemDeadlineReached" e then praise e
            else if is_type "FileNotFoundError" e then leaf
            else if os_error e || value_error e then
              do! tallied (operation_failed (nth (length parts) ["scan_root"; "scan_project"; "scan_job"] "") parts e) in leaf
            else praise e
        end)
  end.

(** Whether the scan came to the end. *)
Definition _scan_artifacts : scanning bool :=
  ptry (namespace_leaves _RESULT_RUN_DIR_DEPTH []) (λ o,
    match o with
    | Ok _ => pret true
    | Raise e => if is_type "FilesystemDeadlineReached" e then pret false else praise e
    end).
End scan.

(** ** Removing what nothing refers to *)

(** Best effort: a folder that is not empty, or a missing one, can wait. *)
Definition _prune_empty_namespace (parts : fpath) : step unit := λ s,
  match parts with
  | [project; job_name] =>
      let r := on_disk (rmdir (today s) [project; job_name]) s in
      match r.1 with Ok _ => (Ok tt, (on_disk (rmdir (today s) [project]) r.2).2) | Raise _ => (Ok tt, r.2) end
  | [project] => (Ok tt, (on_disk (rmdir (today s) [project]) s).2)
  | _ => (Raise (Broken "IndexError"), s)
  end.

Definition _metadata_references (candidate : RemovalCandidate) : procedure bool :=
  let* rows := meta_call (reading (rows_where (λ r,
    bool_decide (Some (m_project r) = head (c_identity candidate)) && bool_decide (Some (m_run_id r) = last (c_identity candidate))))) in
  local (reading (λ s, existsb (λ x,
    match _checked_result_dir (m_file_path x.2) (files s) with
    | Ok d => bool_decide (d = c_path candidate)
    | Raise _ => false
    end) rows)).

Inductive removal := was_removed | was_recent | was_missing.

Definition _remove_run_candidate (candidate : RemovalCandidate) (cutoff_timestamp : Z) (polled : bool) :
    step (removal * Z) := λ s,
  match _checked_result_dir (dir_str (c_path candidate)) (files s) with
  | Raise e => (Raise (Broken e), s)
  | Ok path => ptry (_tree_snapshot path polled) (λ o,
      match o with
      | Raise e => if is_type "FileNotFoundError" e then pret (was_missing, 0) else praise e
      | Ok (size, newest_mtime, _) =>
          if cutoff_timestamp <=? newest_mtime then pret (was_recent, 0)
          else
            do! check_stop polled in
            do! (λ s, on_disk (rmtree (today s) path) s) in
            do! _prune_empty_namespace (take 2 (c_identity candidate)) in
            pret (was_removed, size)
      end) s
  end.

(** Every part of a path on the way to a temporary file is a folder. *)
Fixpoint folders_below (d : disk) (at_ rest : fpath) : outcome string unit :=
  match rest with
  | c :: ((_ :: _) as rest) =>
      match lstat (at_ ++ [c]) d with
      | Ok (Folder _) => folders_below d (at_ ++ [c]) rest
      | Ok _ => Raise "ValueError"
      | Raise e => Raise e
      end
  | _ => Ok tt
  end.
Definition temp_file (run_dir path : fpath) (d : disk) : outcome string node :=
  match strip run_dir path with
  | None | Some [] => Raise "ValueError"
  | Some relative =>
      if bool_decide (".." ∈ relative) then Raise "ValueError"
      else match folders_below d run_dir relative with Raise e => Raise e | Ok _ => lstat path d end
  end.

Definition _remove_temp_candidate (candidate : RemovalCandidate) (cutoff_timestamp : Z) (polled : bool) :
    step (removal * Z) := λ s,
  match _checked_result_dir (joined_str (c_identity candidate)) (files s) with
  | Raise e => (Raise (Broken e), s)
  | Ok run_dir =>
      ptry (let! tree := _tree_snapshot run_dir polled in
            λ s, (in_library (match temp_file run_dir (c_path candidate) (files s) with
                              | Ok n => Ok (tree.1.2, n) | Raise e => Raise e end), s)) (λ o,
        match o with
        | Raise e => if is_type "FileNotFoundError" e then pret (was_missing, 0) else praise e
        | Ok (newest_mtime, n) =>
            match last (c_path candidate), n with
            | Some name, Regular bytes mtime _ =>
                if negb (_ATOMIC_TEMP_PATTERN name) then praise (Broken "ValueError")
                else if (cutoff_timestamp <=? newest_mtime) || (cutoff_timestamp <=? mtime) then pret (was_recent, 0)
                else
                  do! check_stop polled in
                  do! (λ s, on_disk (unlink (today s) (c_path candidate)) s) in
                  pret (was_removed, Z.of_nat (length bytes))
            | _, _ => praise (Broken "ValueError")
            end
        end) s
  end.

(** ** Reconciling one entry *)

(** A check that fails counts as active. *)
Definition active_or_failed (item : RemovalCandidate) (action : string) (t : tally) : procedure (bool * tally) :=
  attempt (_active (c_identity item)) (λ o,
    match o with
    | Ok active => Return (active, t)
    | Raise e => if is_cancelled e then Throw e else Return (true, operation_failed action (c_identity item) e t)
    end).

(** A removal in a thread that [cancel_on_cancellation] stops: the first entry of a page
    polls only that, so the deadline counts for it once the task is cancelled. *)
Definition stoppable_to_thread {A} (m : bool → step A) (polled : bool) : procedure A :=
  attempt (await OtherChannel (λ s, (Ok tt, s))) (λ o,
    match o with
    | Ok _ => local (m polled)
    | Raise e => if is_cancelled e then Local (m true) (λ _, Throw Cancelled) else Throw (Broken "RuntimeError")
    end).

(** How a removal counts; [None] is a stop. *)
Definition removal_outcome (m : procedure (removal * Z)) (action : string) (item : RemovalCandidate) (c : counter)
    (t : tally) : procedure (option tally) :=
  attempt m (λ o,
    match o with
    | Ok (was_removed, n) => Return (Some (add_count removed_bytes n (add_count c 1 t)))
    | Ok (was_recent, _) => Return (Some (add_count recent_candidates_skipped 1 t))
    | Ok (was_missing, _) => Return (Some t)
    | Raise e =>
        if is_cancelled e then Throw e
        else if is_type "FilesystemDeadlineReached" e then Return None
        else Return (Some (operation_failed action (c_identity item) e t))
    end).

Definition blocking_stop_reached (polled : bool) : procedure bool :=
  if polled then local deadline_reached else Return false.

Fixpoint reconcile_temps (items : list RemovalCandidate) (cutoff_timestamp : Z) (dry polled : bool) (t : tally) :
    procedure (bool * tally) :=
  match items with
  | [] => Return (true, t)
  | item :: items =>
      let continue t := reconcile_temps items cutoff_timestamp dry polled t in
      let* stop := blocking_stop_reached polled in
      if stop then Return (false, t)
      else
        let* active := active_or_failed item "check_active_temp" t in
        if active.1 : bool then continue (add_count active_run_candidates_skipped 1 active.2)
        else
          let t := add_count files_would_remove 1 active.2 in
          if dry then continue t
          else
            let* active := active_or_failed item "recheck_active_temp" t in
            if active.1 : bool then continue (add_count active_run_race_candidates_skipped 1 active.2)
            else
              let* done := removal_outcome (stoppable_to_thread (_remove_temp_candidate item cutoff_timestamp) polled)
                             "remove_temp" item files_removed active.2 in
              match done with None => Return (false, active.2) | Some t => continue t end
  end.

(** A run's folder that no row refers to. *)
Definition reconcile_orphan (candidate : RemovalCandidate) (cutoff_timestamp : Z) (dry polled : bool) (t : tally) :
    procedure (bool * tally) :=
  if c_recent candidate then Return (true, add_count recent_candidates_skipped 1 t)
  else
    let* active := active_or_failed candidate "check_active_run" (add_count orphan_candidates 1 t) in
    if active.1 : bool then Return (true, add_count active_run_candidates_skipped 1 active.2)
    else
      let t := add_count directories_would_remove 1 active.2 in
      if dry then Return (true, t)
      else
        let* referenced := _metadata_references candidate in
        if referenced : bool then Return (true, add_count metadata_race_candidates_skipped 1 t)
        else
          let* active := active_or_failed candidate "recheck_active_run" t in
          if active.1 : bool then Return (true, add_count active_run_race_candidates_skipped 1 active.2)
          else
            let* done := removal_outcome (stoppable_to_thread (_remove_run_candidate candidate cutoff_timestamp) polled)
                           "remove_run" candidate directories_removed active.2 in
            Return (match done with None => (false, active.2) | Some t => (true, t) end).

(** False on a cooperative stop. *)
Definition _reconcile_scanned_entry (entry : ScannedArtifactEntry) (cutoff_timestamp : Z) (dry polled : bool) (t : tally) :
    procedure (bool * tally) :=
  match run_candidate entry with
  | None =>
      do* if negb dry && bool_decide (nth 2 (se_cursor entry) "" = "")
          then cleanup_safe_to_thread (_prune_empty_namespace (filter (λ part, part ≠ "") (se_cursor entry)))
          else Return tt in
      Return (true, t)
  | Some candidate =>
      let* referenced := _metadata_references candidate in
      if referenced : bool then reconcile_temps (temp_candidates entry) cutoff_timestamp dry polled t
      else reconcile_orphan candidate cutoff_timestamp dry polled t
  end.

(** ** One page *)

Definition cursor_state s : outcome exn (Z * option (string * string * string)) :=
  match cursors s with Some c => Ok c | None => Raise (Broken "RuntimeError") end.
Definition _load_reconciliation_cursors : procedure (Z * option (string * string * string)) :=
  meta_call (λ s, (cursor_state s, s)).
Definition _save_reconciliation_cursors (metadata_cursor : Z) (filesystem_cursor : option (string * string * string)) :
    procedure unit :=
  meta_call (λ s, match cursors s with
                  | None => (Raise (Broken "RuntimeError"), s)
                  | Some _ => (Ok tt, set_cursors (Some (metadata_cursor, filesystem_cursor)) s)
                  end).

Definition id_before (a b : Z * MetaRow) : Prop := a.1 <= b.1.
#[export] Instance id_before_dec a b : Decision (id_before a b).
Proof. unfold id_before. apply _. Defined.
Definition rows_after (cursor : Z) (limit : nat) s : list (Z * MetaRow) :=
  take limit (merge_sort id_before (filter (λ x, cursor < x.1) (map_to_list (meta s)))).

(** A thread of the pass on the page's tally. *)
Definition in_thread {A} (m : scanning A) (t : tally) : procedure (A * tally * list ScannedArtifactEntry) :=
  cleanup_safe_to_thread (λ s,
    let r := m {| store := s; state := t; scanned_entries := [] |} in
    (match r.1 with Ok a => Ok (a, state r.2, scanned_entries r.2) | Raise e => Raise e end, store r.2)).

(** The rows: the next cursor, whether the scan is exhausted, and the tally. *)
Definition metadata_page (metadata_limit : nat) (metadata_cursor : Z) (t : tally) : procedure (Z * bool * tally) :=
  if bool_decide (metadata_limit = 0%nat) then Return (metadata_cursor, true, t)
  else
    let* stop := local deadline_reached in
    if stop : bool then Return (metadata_cursor, false, t)
    else
      let* fetched_rows := meta_call (reading (rows_after metadata_cursor (metadata_limit + 1))) in
      let rows := take metadata_limit fetched_rows in
      let* validated := in_thread (_validate_metadata_rows rows 0) t in
      let completed_rows := validated.1.1 in
      let exhausted := (length fetched_rows <=? metadata_limit)%nat && bool_decide (completed_rows = length rows) in
      do* local (_forget_unlisted_artifacts metadata_cursor (take completed_rows rows) exhausted) in
      Return (if exhausted then 0 else match last (take completed_rows rows) with Some x => x.1 | None => metadata_cursor end,
              exhausted, validated.1.2).

(** The prefix of the entries that was completed, by its cursor and whether it is all. *)
Fixpoint reconcile_entries (entries : list ScannedArtifactEntry) (first : bool) (cutoff_timestamp : Z) (dry : bool)
    (cursor : option (string * string * string)) (t : tally) :
    procedure (option (string * string * string) * bool * tally) :=
  match entries with
  | [] => Return (cursor, true, t)
  | entry :: entries =>
      let* stop := if first then Return false else local deadline_reached in
      if stop : bool then Return (cursor, false, t)
      else
        let* done := _reconcile_scanned_entry entry cutoff_timestamp dry (negb first) t in
        if done.1 : bool then reconcile_entries entries false cutoff_timestamp dry (cursor_of (se_cursor entry)) done.2
        else Return (cursor, false, done.2)
  end.

Definition filesystem_page (cutoff_timestamp : Z) (dry : bool) (filesystem_limit : nat)
    (cursor : option (string * string * string)) (t : tally) :
    procedure (option (string * string * string) * bool * tally) :=
  if bool_decide (filesystem_limit = 0%nat) then Return (cursor, true, t)
  else
    let* stop := local deadline_reached in
    let* found := if stop : bool then Return (false, t, [])
                  else in_thread (_scan_artifacts cutoff_timestamp filesystem_limit (cursor_parts <$> cursor)) t in
    let* done := reconcile_entries found.2 true cutoff_timestamp dry cursor found.1.2 in
    let exhausted := found.1.1 && done.1.2 in
    Return (if exhausted then None else done.1.1, exhausted, done.2).

Definition _reconcile_artifact_page (cutoff_timestamp : Z) (dry : bool) (metadata_limit filesystem_limit : nat) :
    procedure ResultReconciliationReport :=
  let* stored := _load_reconciliation_cursors in
  let* rows := metadata_page metadata_limit stored.1 no_counts in
  let* entries := filesystem_page cutoff_timestamp dry filesystem_limit stored.2 rows.2 in
  do* if bool_decide (metadata_limit = 0%nat) && bool_decide (filesystem_limit = 0%nat) then Return tt
      else _save_reconciliation_cursors rows.1.1 entries.1.1 in
  Return {| dry_run := dry; totals := entries.2; metadata_scan_exhausted := rows.1.2;
            filesystem_scan_exhausted := entries.1.2 |}.

(** A limit that is not given is the batch size. *)
Definition reconcile_artifacts (grace_seconds : Z) (dry : bool) (now : option Z) (batch_size : Z)
    (metadata_scan_limit filesystem_scan_limit : option Z) : procedure ResultReconciliationReport :=
  let metadata_limit := default batch_size metadata_scan_limit in
  let filesystem_limit := default batch_size filesystem_scan_limit in
  if (grace_seconds <? 1) || (batch_size <? 1) || (metadata_limit <? 0) || (filesystem_limit <? 0)
  then Throw (Broken "ValueError")
  else
    let* utc_now := local (reading today) in
    _reconcile_artifact_page (default utc_now now - grace_seconds * second) dry
      (Z.to_nat metadata_limit) (Z.to_nat filesystem_limit).
End store.
