(* ===== verification/ArtifactsSpec.v ===== *)
(** * Reconciliation keeps what is referred to, and pages through everything

    No pass takes the artifact of a row away, whatever is saved while it runs; and a page of
    the scan is the next entries of the sorted tree. *)

From S2P Require Import Prelude.
From S2P Require Import Text.
From S2P Require Import Paths.
From S2P Require Import JobDb.
From S2P Require Import Json.
From S2P Require Import JsonEncoding.
From S2P Require Import Filesystem.
From S2P Require Import Proc.
From S2P Require Import Models.
From S2P Require Import LocalResults.
From S2P Require Import LocalResultsSpec.
From S2P Require Import ResultRemoval.
From S2P Require Import Artifacts.
Open Scope Z_scope.

Create HintDb quiet discriminated.

(** ** Steps that only look *)

Lemma keeps_ptry {S A B} (I : S → Prop) (m : prog S exn A) (k : outcome exn A → prog S exn B) :
  keeps I m → (∀ o, keeps I (k o)) → keeps I (ptry m k).
Proof. intros Hm Hk s Hs. unfold ptry. cbn. by apply Hk, Hm. Qed.
Lemma keeps_each {S A} (I : S → Prop) (f : A → prog S exn unit) l : (∀ x, keeps I (f x)) → keeps I (each f l).
Proof. intros Hf. induction l; cbn [each]; [apply keeps_ret|]. apply keeps_bind; auto. Qed.
Lemma kept_get {S} (I : S → Prop) : keeps I (pget (S := S) (E := exn)).
Proof. by intros s Hs. Qed.
#[export] Hint Resolve keeps_ret keeps_raise keeps_bind keeps_ptry keeps_each kept_get : quiet.

Section settings.
Context `{ResultSettings} `{JsonReader} `{Printable}.
Implicit Types (s : archive) (t : gmap fpath node).

(** The entries of the tree and the rows are as they were. *)
Definition still t (rows : gmap Z MetaRow) s : Prop := nodes (files s) = t ∧ meta s = rows.

Section still.
Context (t : gmap fpath node) (rows : gmap Z MetaRow).
Abbreviation quiet := (keeps (still t rows)).

Lemma quiet_deadline : quiet deadline_reached.
Proof. intros s Hs. unfold deadline_reached. by destruct (checks_left s) as [[]|]. Qed.
Hint Resolve quiet_deadline : quiet.
Lemma quiet_check polled : quiet (check_stop polled).
Proof. unfold check_stop. destruct polled; [|auto with quiet]. apply keeps_bind; [auto with quiet|]. intros []; auto with quiet. Qed.
Lemma quiet_disk {A} (m : disk_op A) : (∀ d, nodes (m d).2 = nodes d) → quiet (on_disk m).
Proof. intros Hm s [<- <-]. split; [apply Hm|done]. Qed.
Lemma scandir_nodes q d : nodes (scandir q d).2 = nodes d.
Proof. unfold scandir. by apply (faulty_keeps _ _ (λ n, n = nodes d)). Qed.
Lemma entries_nodes q n d : nodes (_directory_entries q n d).2 = nodes d.
Proof. unfold _directory_entries. pose proof (scandir_nodes q d) as E. by destruct (scandir q d) as [[]]. Qed.
Hint Resolve quiet_check : quiet.

Lemma quiet_entries polled q l a : quiet (snapshot_entries polled q l a).
Proof.
  revert a. induction l as [|[name n] l IH]; intros a; cbn [snapshot_entries]; [auto with quiet|].
  apply keeps_bind; [auto with quiet|]. intros _. destruct n; [apply IH| |apply IH]. case_match; [auto with quiet|apply IH].
Qed.
Lemma quiet_folders fuel polled a : quiet (snapshot_folders fuel polled a).
Proof.
  revert a. induction fuel as [|fuel IH]; intros a; cbn [snapshot_folders]; [auto with quiet|].
  destruct (pending a); [auto with quiet|]. apply keeps_bind; [auto with quiet|]. intros _.
  apply keeps_bind; [apply quiet_disk, entries_nodes|]. intros l'. apply keeps_bind; [apply quiet_entries|]. auto.
Qed.
Lemma quiet_tree q polled : quiet (_tree_snapshot q polled).
Proof.
  unfold _tree_snapshot. apply keeps_bind; [auto with quiet|]. intros _. apply keeps_bind; [auto with quiet|].
  intros s. destruct (lstat q (files s)) as [[]|]; auto with quiet. apply keeps_bind; [apply quiet_folders|]. auto with quiet.
Qed.
Lemma quiet_names limit after parts : quiet (remaining_names limit after parts).
Proof.
  unfold remaining_names. apply keeps_bind; [auto with quiet|]. intros _. apply keeps_bind; [auto with quiet|]. intros s.
  repeat case_match; auto with quiet; (apply keeps_bind; [apply quiet_disk, scandir_nodes|]); intros found;
    (apply keeps_bind; auto with quiet).
Qed.
Lemma quiet_examine parts : quiet (examine parts).
Proof.
  unfold examine. apply keeps_bind; [auto with quiet|]. intros s. repeat case_match; auto with quiet.
  apply keeps_bind; [apply quiet_tree|]. auto with quiet.
Qed.
Lemma quiet_file q : quiet (validate_file q).
Proof.
  unfold validate_file. apply keeps_bind; [auto with quiet|]. intros _. apply keeps_bind.
  - apply quiet_disk. intros d. unfold _read_bytearray_file_no_follow. case_match; [done|].
    by apply (faulty_keeps _ _ (λ n, n = nodes d)).
  - intros b. apply keeps_bind; [auto with quiet|]. intros _. case_match; auto with quiet.
Qed.
End still.

(** ** The newest time of a tree *)

Lemma entries_newest polled q l a s b :
  (snapshot_entries polled q l a s).1 = Ok b →
  newest_mtime a <= newest_mtime b ∧ ∀ x, x ∈ l → mtime_of x.2 <= newest_mtime b.
Proof.
  revert a s. induction l as [|[name n] l IH]; intros a s; cbn [snapshot_entries].
  { intros [= <-]. split; [done|]. intros x Hx. by apply not_elem_of_nil in Hx. }
  unfold pbind. destruct (check_stop polled s) as [[u|e] s1]; [|done].
  assert (∀ a', newest_mtime a' = newest_mtime a `max` mtime_of n → (snapshot_entries polled q l a' s1).1 = Ok b →
    newest_mtime a <= newest_mtime b ∧ ∀ x, x ∈ (name, n) :: l → mtime_of x.2 <= newest_mtime b) as Hrec.
  { intros a' Ea Hb. destruct (IH a' s1 Hb) as [H1' H2']. split; [lia|]. intros x [->|Hx]%elem_of_cons; [cbn; lia|by apply H2']. }
  destruct n; cbn; [by apply Hrec| |by apply Hrec]. case_match; [done|]. by apply Hrec.
Qed.
Lemma folders_newest fuel polled a s b :
  (snapshot_folders fuel polled a s).1 = Ok b → newest_mtime a <= newest_mtime b.
Proof.
  revert a s. induction fuel as [|fuel IH]; intros a s; cbn [snapshot_folders]; [by intros [= <-]|].
  destruct (pending a) as [|q rest]; [by intros [= <-]|]. unfold pbind.
  destruct (check_stop polled s) as [[u|e] s1]; [|done]. destruct (on_disk _ s1) as [[l|e] s2]; [|done].
  destruct (snapshot_entries _ _ _ _ _) as [[a'|e] s3] eqn:E; [|done]. intros Hb%IH.
  pose proof (entries_newest _ _ _ _ _ a' ltac:(by rewrite E)) as [Ha _]. cbn in Ha. lia.
Qed.

Lemma elem_children q t name n : (name, n) ∈ children q t ↔ t !! (q ++ [name]) = Some n.
Proof.
  unfold children. rewrite merge_sort_Permutation, list_elem_of_omap. split.
  - intros ([l n'] & Hl & E). apply elem_of_map_to_list in Hl. cbn in E. destruct (last l) as [c|] eqn:El; [|done].
    apply last_Some in El as [l' ->]. case_bool_decide as Hp; [|done]. injection E as <- <-.
    unfold parent in Hp. by rewrite removelast_last in Hp; subst l'.
  - intros Hn. exists (q ++ [name], n). split; [by apply elem_of_map_to_list|]. cbn.
    by rewrite last_snoc, bool_decide_true by by unfold parent; rewrite removelast_last.
Qed.

Lemma scandir_ok q d l : (scandir q d).1 = Ok l → l = children q (nodes d).
Proof.
  intros [fs Hf]%faulty_ok. destruct (lstat q (with_faults fs d)) as [[]|]; simplify_eq. done.
Qed.

Lemma listed_ok q n s l : (on_disk (_directory_entries q n) s).1 = Ok l → l = children q (nodes (files s)).
Proof.
  unfold on_disk, _directory_entries. destruct (scandir q (files s)) as [[l'|e] d] eqn:Es; [|done].
  cbn [fst snd]. destruct (n <? length l')%nat; [done|]. cbn. intros [= <-]. apply scandir_ok. by rewrite Es.
Qed.

(** What is directly in the folder is not newer than its tree. *)
Lemma tree_newest q polled s size newest temps name n :
  (_tree_snapshot q polled s).1 = Ok (size, newest, temps) →
  nodes (files s) !! (q ++ [name]) = Some n → mtime_of n <= newest.
Proof.
  intros Ht Hn. revert Ht. unfold _tree_snapshot, pbind at 1. pose proof (quiet_check (nodes (files s)) (meta s) polled s ltac:(done)) as [E1 _].
  destruct (check_stop polled s) as [[u|e] s1]; [|done]. unfold pbind at 1, pget. cbn [snd] in E1.
  destruct (lstat q (files s1)) as [[mtime| |]|]; [|done..]. unfold pbind at 1. cbn [snapshot_folders pending].
  destruct (pbind _ _ s1) as [[b|e] s2] eqn:E; [|done]. intros [= _ <- _]. revert E. unfold pbind.
  pose proof (quiet_check (nodes (files s1)) (meta s1) polled s1 ltac:(done)) as [E2 _]. rewrite E1 in E2.
  destruct (check_stop polled s1) as [[u'|e] s3]; [|done]. cbn [snd] in E2.
  destruct (on_disk _ s3) as [[l|e] s4] eqn:Ed; [|done]. destruct (snapshot_entries _ _ _ _ _) as [[a'|e] s5] eqn:Ee; [|done].
  intros Hb. pose proof (folders_newest _ _ a' s5 b ltac:(by rewrite Hb)) as Hle.
  pose proof (entries_newest _ _ _ _ _ a' ltac:(by rewrite Ee)) as [_ Hall].
  assert (l = children q (nodes (files s3))) as -> by (eapply (listed_ok q _ s3); by rewrite Ed).
  specialize (Hall (name, n)). rewrite elem_children, E2 in Hall. specialize (Hall Hn). cbn in Hall. lia.
Qed.
(** ** What the scan finds *)

Section found.
Context (ok : settings_ok) (t : gmap fpath node) (rows : gmap Z MetaRow).
Context (named : ∀ q, is_Some (t !! q) → Forall name_ok q).
Context (cutoff : Z) (limit : nat) (after : option fpath).

(** A candidate is a folder of three proper names, and is looked up under them. *)
Definition candidate_ok (c : RemovalCandidate) : Prop :=
  c_identity c = c_path c ∧ length (c_path c) = 3%nat ∧ Forall name_ok (c_path c).
Definition entry_ok (e : ScannedArtifactEntry) : Prop := ∀ c, run_candidate e = Some c → candidate_ok c.
Definition finding (p : pass) : Prop := still t rows (store p) ∧ Forall entry_ok (scanned_entries p).
Abbreviation finds := (keeps finding).

Lemma finds_store {A} (m : prog archive exn A) : keeps (still t rows) m → finds (on_store m).
Proof. intros Hm p [Hs He]. split; [by apply Hm|done]. Qed.
Lemma finds_tally f : finds (tallied f).
Proof. by intros p [Hs He]. Qed.
Lemma finds_bump c : finds (bump c).
Proof. apply finds_tally. Qed.
Lemma finds_scanned e : entry_ok e → finds (scanned e).
Proof.
  intros He. apply keeps_bind; [|intros _; apply finds_tally]. intros p [Hs Hp]. split; [done|]. cbn.
  apply Forall_app_2; [done|by apply Forall_singleton].
Qed.
Lemma bare_ok cursor : entry_ok {| se_cursor := cursor; run_candidate := None; temp_candidates := [] |}.
Proof. by intros c. Qed.
Hint Resolve finds_tally finds_bump finds_scanned bare_ok quiet_deadline quiet_names quiet_examine finds_store : quiet.

Lemma finds_temps identity recent l : finds (temp_entries cutoff identity recent l).
Proof.
  induction l as [|[[q size] m] l IH]; cbn [temp_entries]; [auto with quiet|].
  case_match; (apply keeps_bind; [apply finds_tally|]; intros _; auto). apply keeps_bind; auto with quiet.
Qed.

Lemma examined parts s d tree : length parts = 3%nat → still t rows s → (examine parts s).1 = Ok (Some (d, tree)) →
  d = parts ∧ Forall name_ok parts.
Proof.
  intros Hl [Et _]. unfold examine, pbind at 1, pget. destruct (lstat parts (files s)) as [[]|] eqn:El; try done.
  apply lstat_ok in El. rewrite Et in El. assert (Forall name_ok parts) as Hn by by apply named.
  rewrite checked_dir_str by done. destruct (unlinked _ _ _); [|done]. unfold pbind.
  by destruct (_tree_snapshot parts true s) as [[?|?] ?]; intros [= <- _].
Qed.

Lemma finds_leaf parts : (length parts ≤ 3)%nat → finds (visit_leaf cutoff limit after parts).
Proof.
  intros Hl. unfold visit_leaf. destruct (match after with Some _ => _ | None => _ end); [auto with quiet|].
  apply keeps_bind; [auto with quiet|]. intros stop. apply keeps_bind; [auto with quiet|]. intros p0.
  destruct (stop || _); [auto with quiet|]. destruct (length parts <? _)%nat eqn:Hlt; [auto with quiet|].
  apply Nat.ltb_ge in Hlt. unfold _RESULT_RUN_DIR_DEPTH in Hlt. intros p Hp. unfold ptry. cbv zeta.
  pose proof (finds_store _ (quiet_examine t rows parts) p Hp) as Hp'.
  assert ((on_store (examine parts) p).1 = (examine parts (store p)).1) as E by done. rewrite E.
  pose proof (examined parts (store p)) as Hex. destruct (examine parts (store p)).1 as [[[d [[size newest] temps]]|]|e].
  - destruct (Hex d (size, newest, temps) ltac:(lia) (proj1 Hp) eq_refl) as [-> Hn]. revert Hp'. apply keeps_bind; [apply finds_tally|].
    intros _. apply keeps_bind; [apply finds_temps|]. intros cands. apply finds_scanned. intros c [= <-]. unfold candidate_ok. cbn.
    unfold padded. replace (3 - length parts)%nat with 0%nat by lia. rewrite app_nil_r. split_and!; [done|lia|done].
  - revert Hp'. apply keeps_bind; auto with quiet.
  - revert Hp'. repeat case_match; [auto with quiet| |auto with quiet]. apply keeps_bind; auto with quiet.
Qed.

Lemma finds_leaves depth parts : (length parts + depth ≤ 3)%nat → finds (namespace_leaves cutoff limit after depth parts).
Proof.
  revert parts. induction depth as [|depth IH]; intros parts Hl; cbn [namespace_leaves]; [apply finds_leaf; lia|].
  assert (finds (visit_leaf cutoff limit after parts)) as Hleaf by (apply finds_leaf; lia).
  assert (finds match parts with [] => pret tt | _ => visit_leaf cutoff limit after parts end) as Hleaf'
    by (destruct parts; auto with quiet).
  apply keeps_ptry; [auto with quiet|]. intros [[[|name names]|]|e]; [done| | |].
  - apply keeps_each. intros name'. apply IH. rewrite length_app. cbn. lia.
  - apply keeps_bind; auto with quiet.
  - repeat case_match; auto with quiet; (apply keeps_bind; auto with quiet).
Qed.
Lemma finds_scan : finds (_scan_artifacts cutoff limit after).
Proof. apply keeps_ptry; [by apply finds_leaves|]. intros [u|e]; [|case_match]; auto with quiet. Qed.

Lemma quiet_validated f : keeps (still t rows) (pmodify (E := exn) (λ s, set_validated (f s) s)).
Proof. by intros s Hs. Qed.
Hint Resolve quiet_validated quiet_file : quiet.
Lemma finds_row id row : finds (_validate_metadata_row id row).
Proof.
  unfold _validate_metadata_row. apply keeps_bind; [auto with quiet|]. intros p0. cbv zeta.
  apply keeps_bind; [auto with quiet|]. intros _. destruct (_checked_result_dir _ _) as [dir|e]; [|auto with quiet].
  destruct (lstat dir _) as [[]|]; [|destruct (lstat _ _); auto with quiet..|auto with quiet].
  destruct (lstat _ _) as [[]|]; auto with quiet.
  case_bool_decide; [apply keeps_bind; auto with quiet|]. apply keeps_ptry; [auto with quiet|].
  intros [u|e]; [apply keeps_bind; auto with quiet|]. repeat case_match; auto with quiet.
Qed.
Lemma finds_rows l n : finds (_validate_metadata_rows l n).
Proof.
  revert n. induction l as [|x l IH]; intros n; cbn [_validate_metadata_rows]; [auto with quiet|].
  apply keeps_bind; [auto with quiet|]. intros [|]; [auto with quiet|]. apply keeps_ptry; [apply finds_row|].
  intros [u|e]; [|case_match; auto with quiet]. apply keeps_bind; auto with quiet.
Qed.
End found.

(** ** Removals that leave a file *)

Section leaving.
Context (q : fpath) (now : Z).

(** The tree shrinks, but the regular file at [q] stays. *)
Definition leaves t t' : Prop :=
  tree_ok t' ∧ shrinks t t' ∧ ∀ b m i, t !! q = Some (Regular b m i) → t' !! q = Some (Regular b m i).
Lemma leaves_refl t : tree_ok t → leaves t t.
Proof. intros Ht. by split_and!. Qed.
Lemma leaves_trans t1 t2 t3 : leaves t1 t2 → leaves t2 t3 → leaves t1 t3.
Proof.
  intros (_ & Hs & H12) (Hok & Hs' & H23). split_and!; [done|by transitivity t2|]. intros b m i Hq. by apply H23, H12.
Qed.

Lemma touch_leaves (p : fpath) t : tree_ok t → leaves t (touch now p t).
Proof.
  intros Ht. split_and!; [by apply touch_ok|apply touch_shrinks|]. intros b m i Hq. rewrite lookup_touch, Hq. by case_bool_decide.
Qed.
Lemma drop_leaves l t : tree_ok t → (∀ p, p ∈ l → ¬ p `prefix_of` q) → leaves t (drop_entries l t).
Proof.
  intros Ht Hl. split_and!; [by apply drop_ok|apply drop_shrinks|]. intros b m i Hq. rewrite drop_lookup, bool_decide_false; [done|].
  intros (p & Hp & Hpq)%Exists_exists. by apply (Hl p).
Qed.
Lemma delete_leaves (p : fpath) t n :
  tree_ok t → t !! p = Some n → (∀ c, t !! (p ++ [c]) = None) → p ≠ q ∨ is_folder n = true → leaves t (delete p t).
Proof.
  intros Ht Hp Hc Hn. split_and!; [by apply delete_ok| |].
  - intros r k [_ Hk]%lookup_delete_Some. by exists k.
  - intros b m i Hq. destruct (decide (p = q)) as [->|]; [|by rewrite lookup_delete_ne].
    rewrite Hq in Hp. injection Hp as <-. by destruct Hn.
Qed.
Lemma faulty_leaves {A} (m : disk_op A) rest d :
  (∀ d, tree_ok (nodes d) → leaves (nodes d) (nodes (m d).2)) →
  (∀ l d, tree_ok (nodes d) → leaves (nodes d) (nodes (rest l d))) →
  tree_ok (nodes d) → leaves (nodes d) (nodes (faulty m rest d).2).
Proof.
  intros Hm Hr Hd. apply (faulty_keeps m rest (leaves (nodes d))); [..|by apply leaves_refl].
  - intros d' Hd'. eapply leaves_trans; [exact Hd'|]. apply Hm, Hd'.
  - intros l d' Hd'. eapply leaves_trans; [exact Hd'|]. apply Hr, Hd'.
Qed.

Lemma rmtree_leaves (p : fpath) d : tree_ok (nodes d) → ¬ p `prefix_of` q → leaves (nodes d) (nodes (rmtree now p d).2).
Proof.
  intros Ht Hp. apply faulty_leaves; [| |done].
  - intros d' Ht'. eapply leaves_trans; [by apply (touch_leaves (parent p))|]. apply drop_leaves; [by apply touch_ok|].
    by intros ? ->%list_elem_of_singleton.
  - intros l d' Ht'. apply drop_leaves; [done|]. intros r [[Hr _] _]%list_elem_of_filter Hrq. apply Hp. by etrans.
Qed.
Lemma rmdir_leaves (p : fpath) d : tree_ok (nodes d) → leaves (nodes d) (nodes (rmdir now p d).2).
Proof.
  apply faulty_leaves; [|intros l d' Ht; by apply leaves_refl]. intros d' Ht.
  destruct (lstat p d') as [[m| |]|] eqn:El; cbn; try by apply leaves_refl. case_bool_decide as He; [by apply leaves_refl|].
  apply lstat_ok in El. eapply leaves_trans; [by apply (touch_leaves (parent p))|].
  destruct (touch_folder now (parent p) p (nodes d') m El) as [m' Hm']. eapply delete_leaves; [by apply touch_ok|done| |by right].
  intros c. apply touch_none. destruct (nodes d' !! (p ++ [c])) eqn:E; [|done]. exfalso. apply He. exists (p ++ [c]), n.
  split; [done|]. unfold parent. rewrite removelast_last. split; [done|]. by destruct p.
Qed.
Lemma unlink_leaves (p : fpath) d : tree_ok (nodes d) → p ≠ q → leaves (nodes d) (nodes (unlink now p d).2).
Proof.
  intros Ht Hpq. revert Ht. apply faulty_leaves; [|intros l d' Ht; by apply leaves_refl]. intros d' Ht.
  destruct (lstat p d') as [n|] eqn:El; [|by apply leaves_refl]. apply lstat_ok in El.
  assert (is_folder n = false → leaves (nodes d') (delete p (touch now (parent p) (nodes d')))) as Hd; [|destruct n; cbn; auto using leaves_refl].
  intros Hn. eapply leaves_trans; [by apply (touch_leaves (parent p))|].
  destruct (touch now (parent p) (nodes d') !! p) as [n'|] eqn:En; [|apply touch_none in En; congruence].
  eapply delete_leaves; [by apply touch_ok|done| |by left]. intros c. apply touch_none. by eapply no_children.
Qed.
End leaving.

(** ** A row keeps its artifact *)

Section kept.
Context (ok : settings_ok) (d : fpath) (cutoff : Z).
Definition artifact_of : fpath := d ++ ["results.json"].

(** A row of the run whose path is the folder. *)
Definition referenced s : Prop := ∃ id row,
  meta s !! id = Some row ∧ relative_dir (m_file_path row) = Some d ∧
  Some (m_project row) = head d ∧ Some (m_run_id row) = last d.
Definition sound_tree t : Prop := tree_ok t ∧ ∀ q, is_Some (t !! q) → Forall name_ok q.
Definition kept s : Prop := sound_tree (nodes (files s)) ∧
  (referenced s → ∃ b m i, nodes (files s) !! artifact_of = Some (Regular b m i)).
(** If a row refers to the folder, its artifact was written since the cutoff. *)
Definition secure s : Prop := sound_tree (nodes (files s)) ∧
  (referenced s → ∃ b m i, nodes (files s) !! artifact_of = Some (Regular b m i) ∧ cutoff <= m).

Lemma secure_kept s : secure s → kept s.
Proof. intros [Ht Hs]. split; [done|]. intros (b & m & i & Hn & _)%Hs. eauto. Qed.
Lemma unreferenced_secure s : kept s → ¬ referenced s → secure s.
Proof. intros [Ht _] Hr. by split. Qed.

Lemma sound_leaves q t t' : sound_tree t → leaves q t t' → sound_tree t'.
Proof. intros [_ Hn] (Hok & Hs & _). split; [done|]. intros r [n Hr]. destruct (Hs _ _ Hr) as (n' & Hr' & _). apply Hn. by exists n'. Qed.
Lemma kept_leaves s s' : kept s → meta s' = meta s → leaves artifact_of (nodes (files s)) (nodes (files s')) → kept s'.
Proof.
  intros [Ht Hs] Hm Hl. split; [by eapply sound_leaves|]. unfold referenced. rewrite Hm. intros (b & m & i & Hn)%Hs.
  exists b, m, i. by apply Hl.
Qed.

Lemma quiet_keeps {A} (I : archive → Prop) (m : prog archive exn A) :
  (∀ s s', I s → nodes (files s') = nodes (files s) → meta s' = meta s → I s') →
  (∀ t rows, keeps (still t rows) m) → keeps I m.
Proof. intros HI Hm s Hs. destruct (Hm (nodes (files s)) (meta s) s ltac:(done)) as [Hn Hr]. by eapply HI. Qed.
Lemma kept_same s s' : kept s → nodes (files s') = nodes (files s) → meta s' = meta s → kept s'.
Proof. unfold kept, referenced. by intros Hs -> ->. Qed.

(** The folder is not removed: it is another one, or no row refers to it. *)
Definition free (path : fpath) s : Prop := kept s ∧ (path = d → ¬ referenced s).
Lemma free_same path s s' : free path s → nodes (files s') = nodes (files s) → meta s' = meta s → free path s'.
Proof. unfold free, kept, referenced. by intros Hs -> ->. Qed.
Lemma free_leaves path s s' : free path s → meta s' = meta s → leaves artifact_of (nodes (files s)) (nodes (files s')) → free path s'.
Proof. intros [Hk Hf] Hm Hl. split; [by eapply kept_leaves|]. unfold referenced. by rewrite Hm. Qed.

Lemma prune_free path parts : keeps (free path) (_prune_empty_namespace parts).
Proof.
  intros s Hs. unfold _prune_empty_namespace. destruct parts as [|project [|job [|]]]; cbn [fst snd]; try done.
  - eapply free_leaves; [done..|]. apply rmdir_leaves, Hs.
  - set (s1 := (on_disk _ s).2). assert (free path s1) as H1' by (eapply free_leaves; [done..|]; apply rmdir_leaves, Hs).
    destruct (on_disk _ s).1; cbn [snd]; [|done]. eapply free_leaves; [done..|]. apply rmdir_leaves, H1'.
Qed.
Lemma rmtree_free path : length path = 3%nat → length d = 3%nat → keeps (free path) (λ s, on_disk (rmtree (today s) path) s).
Proof.
  intros Hp Hd s Hs. destruct (decide (path = d)) as [->|Hne].
  - assert (¬ referenced s) as Hr by by apply Hs. split; [|by intros _]. split; [|by intros ?].
    destruct (rmtree_spec (today s) d (files s)) as (Hok & Hsh & _); [apply Hs|]. split; [done|].
    intros q [n Hq]. destruct (Hsh _ _ Hq) as (n' & Hq' & _). destruct Hs as [[[_ Hn] _] _]. apply Hn. by exists n'.
  - eapply free_leaves; [done..|]. apply rmtree_leaves; [apply Hs|]. intros Hpq.
    destruct (prefix_weak_total path d artifact_of Hpq) as [Hw|Hw]; [by apply prefix_app_r| |];
      apply prefix_length_eq in Hw; auto with lia.
Qed.

Lemma checked_candidate c path f : candidate_ok c → _checked_result_dir (dir_str (c_path c)) f = Ok path → path = c_path c.
Proof. intros (_ & Hl & Hn). rewrite checked_dir_str by done. by destruct (unlinked _ _ _) as [[]|]; intros [= <-]. Qed.

(** What a removal may assume. *)
Definition cleared (c : RemovalCandidate) s : Prop := kept s ∧ (c_path c = d → secure s).
Lemma remove_run_keeps c polled s : candidate_ok c → length d = 3%nat →
  cleared c s → kept (_remove_run_candidate c cutoff polled s).2.
Proof.
  intros Hc Hd [Hk Hsec]. unfold _remove_run_candidate. destruct (_checked_result_dir _ _) as [path|e] eqn:Ep; [|done].
  pose proof (checked_candidate _ _ _ Hc Ep) as ->. unfold ptry.
  destruct (quiet_tree (nodes (files s)) (meta s) (c_path c) polled s ltac:(done)) as [Hn Hm].
  pose proof (kept_same _ _ Hk Hn Hm) as Hk'. destruct (_tree_snapshot _ _ s) as [[[[size newest] temps]|e] s1] eqn:Et; cbn [fst snd] in *.
  2: by destruct (is_type _ e). destruct (cutoff <=? newest) eqn:Hnew; [done|]. apply Z.leb_gt in Hnew.
  assert (free (c_path c) s1) as Hf.
  { split; [done|]. intros Hpd Hr. destruct (Hsec Hpd) as [_ Hw]. assert (referenced s) as Hr' by by unfold referenced in *; rewrite Hm in Hr.
    destruct (Hw Hr') as (b & m & i & Ha & Hcm). rewrite Hpd in Et.
    pose proof (tree_newest d polled s size newest temps "results.json" _ ltac:(by rewrite Et) Ha) as Hle. cbn in Hle. lia. }
  enough (free (c_path c) ((do! check_stop polled in do! (λ s, on_disk (rmtree (today s) (c_path c)) s) in
    do! _prune_empty_namespace (take 2 (c_identity c)) in pret (was_removed, size)) s1).2) as [? _] by done.
  revert Hf. generalize s1. change (keeps (free (c_path c)) (do! check_stop polled in do! (λ s, on_disk (rmtree (today s) (c_path c)) s) in
    do! _prune_empty_namespace (take 2 (c_identity c)) in pret (was_removed, size))).
  apply keeps_bind; [apply (quiet_keeps _ _ (free_same _)); intros; apply quiet_check|]. intros _.
  apply keeps_bind; [apply rmtree_free; [apply Hc|done]|]. intros _. apply keeps_bind; [apply prune_free|]. intros _. apply keeps_ret.
Qed.

Lemma pattern_not_result name : _ATOMIC_TEMP_PATTERN name = true → name ≠ "results.json".
Proof. intros Hp ->. by vm_compute in Hp. Qed.
Lemma remove_temp_keeps c polled : keeps kept (_remove_temp_candidate c cutoff polled).
Proof.
  intros s Hk. unfold _remove_temp_candidate. destruct (_checked_result_dir _ _) as [run_dir|e]; [|done].
  revert s Hk. match goal with |- ∀ s, _ → kept (?m s).2 => change (keeps kept m) end.
  assert (∀ polled, keeps kept (check_stop polled)) as Hcheck by (intros b; apply (quiet_keeps _ _ kept_same); intros; apply quiet_check).
  apply keeps_ptry.
  - apply keeps_bind; [apply (quiet_keeps _ _ kept_same); intros; apply quiet_tree|]. by intros tree s Hs.
  - intros [[newest n]|e]; [|case_match; auto with quiet]. destruct (last (c_path c)) as [name|] eqn:El; [|auto with quiet].
    destruct n; auto with quiet. destruct (negb _) eqn:Hpat; [auto with quiet|]. apply negb_false_iff, pattern_not_result in Hpat.
    case_match; [auto with quiet|]. apply keeps_bind; [done|]. intros _. apply keeps_bind; [|auto with quiet].
    intros s Hs. eapply kept_leaves; [done..|]. apply unlink_leaves; [apply Hs|]. intros E. unfold artifact_of in E.
    by rewrite E, last_snoc in El; injection El as <-.
Qed.

(** ** The pass *)

Section kept_pass.
Context (rely : archive → archive → Prop) (fails : channel → Prop) (d_length : length d = 3%nat).
(** Nobody else removes the artifact of a row, and who records a result has just written it. *)
Context (keep_kept : stable rely kept) (keep_secure : stable rely secure).
Abbreviation always := (always rely fails).

Lemma kept_call {A} (I : archive → Prop) ch (m : prog archive exn A) : stable rely I → keeps I m → always I (await ch m) (λ _, I).
Proof. intros Hst Hm. apply always_await; [done|by intros s Hs; apply Hm|]. intros s e Hs _. split; [done|by apply Hm]. Qed.
Lemma keeps_here {A} (I : archive → Prop) (m : prog archive exn A) : keeps I m → always I (local m) (λ _, I).
Proof. intros Hm. apply always_local. by intros s Hs; apply Hm. Qed.
Lemma always_both {A} (I I' : archive → Prop) (p : proc archive A) :
  (∀ s, I s → I' s) → always I p (λ _, I) → always I p (λ _, I').
Proof. intros Hi Hp. eapply always_weaken; [exact Hp|done|auto]. Qed.
Lemma keeps_reading {A} (I : archive → Prop) (f : archive → A) : keeps I (reading f).
Proof. by intros s Hs. Qed.
Lemma cleared_stable c : stable rely (cleared c).
Proof. intros s s' [Hk Hs] Hr. split; [by eapply keep_kept|]. intros Hc. eapply keep_secure; [by apply Hs|done]. Qed.

Lemma active_keeps I c action (t : tally) : stable rely I → always I (active_or_failed c action t) (λ _, I).
Proof.
  intros Hst. eapply (always_attempt _ _ _ _ _ (λ _, I)).
  - unfold _active. destruct (negb _); [by apply always_return|]. apply kept_call; [done|apply keeps_reading].
  - intros [a|e]; [by apply always_return|]. destruct (is_cancelled e); [by apply always_throw|by apply always_return].
Qed.

Lemma references_cleared c : candidate_ok c →
  always kept (_metadata_references c) (λ o s, kept s ∧ (o = Ok false → cleared c s)).
Proof.
  intros (Hid & Hl & _). unfold _metadata_references.
  set (P := λ r : MetaRow, bool_decide (Some (m_project r) = head (c_identity c)) && bool_decide (Some (m_run_id r) = last (c_identity c))).
  eapply (always_bind _ _ _ _ _ (λ o s, kept s ∧ ∀ l, o = Ok l → l = rows_where P s)).
  { apply always_await; [done|intros s Hs; cbn; split; [done|]; by intros l [= <-]|]. intros s e Hs _. by split. }
  2: { intros e s [Hk _]. by split. }
  intros l. apply always_local. intros s [Hk Hl']. specialize (Hl' l eq_refl) as ->. cbn [reading fst snd]. split; [done|].
  intros [= Hno]. split; [done|]. intros Hc. apply unreferenced_secure; [done|]. intros (id & row & Hr & Hdir & Hp & Hi).
  rewrite existsb_elem_false in Hno. specialize (Hno (id, row)). destruct Hk as [[Ht _] Ha].
  destruct Ha as (b & m & i & Hn); [by exists id, row|]. cbn [snd] in Hno. unfold _checked_result_dir in Hno. rewrite Hdir in Hno.
  rewrite (unlinked_folders _ [] d Ht) in Hno; [|by eapply tree_prefix]. rewrite bool_decide_true in Hno by done.
  discriminate Hno. apply elem_rows. split; [|done]. unfold P. cbn. rewrite Hid, Hc, Hp, Hi. by rewrite !bool_decide_true.
Qed.

Lemma stoppable_keeps (P : archive → Prop) (m : bool → prog archive exn (removal * Z)) polled :
  stable rely P → (∀ s, P s → kept s) → (∀ b s, P s → kept (m b s).2) → always P (stoppable_to_thread m polled) (λ _, kept).
Proof.
  intros Hst Hk Hm. eapply (always_attempt _ _ _ _ _ (λ _, P)); [by apply kept_call, keeps_ret|].
  intros [u|e]; [by apply always_local; intros s Hs; apply Hm|]. destruct (is_cancelled e); [|by apply always_throw].
  intros n s Hs. by apply Hm.
Qed.
Lemma outcome_keeps (P : archive → Prop) m action item c (t : tally) : always P m (λ _, kept) → always P (removal_outcome m action item c t) (λ _, kept).
Proof.
  intros Hm. eapply always_attempt; [exact Hm|]. intros [[[] n]|e]; try by apply always_return.
  destruct (is_cancelled e); [by apply always_throw|]. destruct (is_type _ e); by apply always_return.
Qed.

Lemma temps_keep items dry polled (t : tally) : always kept (reconcile_temps items cutoff dry polled t) (λ _, kept).
Proof.
  revert t. induction items as [|item items IH]; intros t; cbn [reconcile_temps]; [by apply always_return|].
  apply always_then; [unfold blocking_stop_reached; destruct polled; [|by apply always_return]|].
  { apply keeps_here. apply (quiet_keeps _ _ kept_same). intros. apply quiet_deadline. }
  intros [|]; [by apply always_return|]. apply always_then; [by apply active_keeps|]. intros [[|] t']; [apply IH|].
  destruct dry; [apply IH|]. apply always_then; [by apply active_keeps|]. intros [[|] t'']; [apply IH|]. apply always_then.
  - apply outcome_keeps, stoppable_keeps; [done..|]. intros b. apply remove_temp_keeps.
  - intros [t3|]; [apply IH|by apply always_return].
Qed.

Lemma orphan_keeps c dry polled (t : tally) : candidate_ok c → always kept (reconcile_orphan c cutoff dry polled t) (λ _, kept).
Proof.
  intros Hc. unfold reconcile_orphan. destruct (c_recent c); [by apply always_return|].
  apply always_then; [by apply active_keeps|]. intros [[|] t']; [by apply always_return|]. destruct dry; [by apply always_return|].
  eapply always_bind; [by apply references_cleared| |by intros e s [? _]]. intros [|]; [by apply always_return; intros s [? _]|].
  eapply (always_pre _ _ (cleared c)); [|by intros s [_ Hs]; apply Hs].
  eapply always_bind; [apply active_keeps, cleared_stable| |by intros e s [? _]].
  intros [[|] t'']; [by apply always_return; intros s [? _]|]. eapply (always_bind _ _ _ _ _ (λ _, kept)); [| |done].
  - apply outcome_keeps, stoppable_keeps; [apply cleared_stable|by intros s [? _]|]. intros b s Hs. by apply remove_run_keeps.
  - intros [t3|]; by apply always_return.
Qed.

Lemma thread_keeps (m : prog archive exn unit) : keeps kept m → always kept (cleanup_safe_to_thread m) (λ _, kept).
Proof. intros Hm. apply always_cleanup; [done| |done]. intros s Hs. split; by apply Hm. Qed.
Lemma prune_keeps parts : keeps kept (_prune_empty_namespace parts).
Proof.
  intros s Hs. enough (free [] (_prune_empty_namespace parts s).2) as [? _] by done.
  apply prune_free. split; [done|]. intros E. by rewrite <- E in d_length.
Qed.

Lemma entry_keeps e dry polled (t : tally) : entry_ok e → always kept (_reconcile_scanned_entry e cutoff dry polled t) (λ _, kept).
Proof.
  intros He. unfold _reconcile_scanned_entry. destruct (run_candidate e) as [c|] eqn:Ec.
  - eapply always_bind; [by apply references_cleared, He| |by intros x s [? _]].
    intros [|]; (eapply always_pre; [|by intros s [? _]]); [apply temps_keep|by apply orphan_keeps, He].
  - apply always_then; [|intros u; by apply always_return]. destruct (_ && _); [apply thread_keeps, prune_keeps|by apply always_return].
Qed.
Lemma entries_keep l first dry cursor (t : tally) : Forall entry_ok l → always kept (reconcile_entries l first cutoff dry cursor t) (λ _, kept).
Proof.
  revert first cursor t. induction l as [|e l IH]; intros first cursor t Hl; cbn [reconcile_entries]; [by apply always_return|].
  apply Forall_cons in Hl as [He Hl]. apply always_then.
  - destruct first; [by apply always_return|]. apply keeps_here, (quiet_keeps _ _ kept_same). intros. apply quiet_deadline.
  - intros [|]; [by apply always_return|]. apply always_then; [by apply entry_keeps|]. intros [[|] t']; [by apply IH|by apply always_return].
Qed.

Lemma in_thread_keeps {A} (m : prog pass exn A) (t : tally) :
  (∀ t rows, (∀ q, is_Some (t !! q) → Forall name_ok q) → keeps (finding t rows) m) →
  always kept (in_thread m t) (λ o s, kept s ∧ ∀ x, o = Ok x → Forall entry_ok x.2).
Proof.
  intros Hm. apply always_cleanup; [done| |by intros s Hs _].
  intros s Hs. destruct (Hm (nodes (files s)) (meta s) (proj2 (proj1 Hs)) {| store := s; state := t; scanned_entries := [] |})
    as [[Hn Hr] He]; [by split|]. cbn [fst snd]. split; (split; [by eapply kept_same|]); [|done].
  intros x. by destruct (m _).1 as [a|e]; intros [= <-].
Qed.

Lemma metadata_keeps limit cursor (t : tally) : always kept (metadata_page limit cursor t) (λ _, kept).
Proof.
  unfold metadata_page. case_bool_decide; [by apply always_return|]. apply always_then.
  { apply keeps_here, (quiet_keeps _ _ kept_same). intros. apply quiet_deadline. }
  intros [|]; [by apply always_return|]. apply always_then; [by apply kept_call, keeps_reading|]. intros rows.
  eapply always_bind; [apply in_thread_keeps; intros; apply finds_rows| |by intros e s [? _]].
  intros x. apply (always_pre _ _ kept); [|by intros s [? _]]. apply always_then; [|intros u; by apply always_return].
  apply keeps_here. by intros s Hs.
Qed.
Lemma filesystem_keeps dry limit cursor (t : tally) : always kept (filesystem_page cutoff dry limit cursor t) (λ _, kept).
Proof.
  unfold filesystem_page. case_bool_decide; [by apply always_return|]. apply always_then.
  { apply keeps_here, (quiet_keeps _ _ kept_same). intros. apply quiet_deadline. }
  intros stop. eapply (always_bind _ _ _ _ _ (λ o s, kept s ∧ ∀ x, o = Ok x → Forall entry_ok x.2)); [| |by intros e s [? _]].
  - destruct stop; [apply always_return; intros s Hs; split; [done|]; intros x [= <-]; constructor|].
    apply in_thread_keeps. intros t' rows Hn. by apply finds_scan.
  - intros found k s [Hs Hf]. revert k s Hs. apply always_then; [by apply entries_keep, Hf|]. intros x. by apply always_return.
Qed.
Lemma page_keeps dry ml fl : always kept (_reconcile_artifact_page cutoff dry ml fl) (λ _, kept).
Proof.
  unfold _reconcile_artifact_page. apply always_then; [apply kept_call; [done|]; by intros s Hs|]. intros stored.
  apply always_then; [apply metadata_keeps|]. intros rows. apply always_then; [apply filesystem_keeps|]. intros entries.
  apply always_then; [|intros u; by apply always_return]. destruct (_ && _); [by apply always_return|].
  apply kept_call; [done|]. intros s Hs. cbn. by destruct (cursors s).
Qed.
End kept_pass.
End kept.

(** [C33] Reconciliation never takes the artifact of a row away: whatever fails, wherever the
    deadline or a cancellation stops the pass, and whatever results are saved while it runs
    (a row that appears has an artifact written since the cutoff), the rows of a run's folder
    keep their document. *)
Theorem referenced_artifacts_are_kept d rely fails n s s' o grace dry at_time batch ml fl :
  let cutoff := default (today s) at_time - grace * second in
  settings_ok → length d = 3%nat → stable rely (kept d) → stable rely (secure d cutoff) →
  kept d s → runs rely fails n (reconcile_artifacts grace dry at_time batch ml fl) s o s' → kept d s'.
Proof.
  intros cutoff ok Hd Hk Hsec Hs Hrun. unfold reconcile_artifacts in Hrun.
  refine (always_runs rely fails n (λ s', s' = s) _ (λ _, kept d) s o s' _ eq_refl Hrun).
  destruct (_ || _); [by apply always_throw; intros ? ->|].
  eapply (always_bind _ _ _ _ _ (λ o s', s' = s ∧ ∀ x, o = Ok x → x = today s)); [| |by intros e ? [-> _]].
  - apply always_local. intros ? ->. split; [done|]. by intros x [= <-].
  - intros x k s1 [-> Hx]. rewrite (Hx x eq_refl). revert k. cut (always rely fails (λ s', s' = s)
      (_reconcile_artifact_page cutoff dry (Z.to_nat (default batch ml)) (Z.to_nat (default batch fl))) (λ _, kept d)); [by intros Ha k; apply Ha|].
    eapply always_pre; [by apply page_keeps|]. by intros ? ->.
Qed.
End settings.

(** ** At concrete inputs *)

Definition name_checked (c : string) : bool :=
  significant c && negb (bool_decide (c = "..")) && forallb (λ a, negb (slash a)) (txt c).
Lemma name_checked_ok c : name_checked c = true → name_ok c.
Proof.
  intros [[Hc Hd]%andb_true_iff Hs]%andb_true_iff. apply negb_true_iff, bool_decide_eq_false in Hd. split; [|done]. split; [done|].
  apply Forall_forall. intros a Ha. rewrite forallb_elem in Hs. by apply negb_true_iff, Hs.
Qed.
Definition names_checked (t : gmap fpath node) : bool := forallb (λ x, forallb name_checked x.1) (map_to_list t).
Lemma names_checked_ok t : names_checked t = true → ∀ q, is_Some (t !! q) → Forall name_ok q.
Proof.
  intros Hc q [n Hn]. apply Forall_forall. intros c Hin. apply name_checked_ok. unfold names_checked in Hc. rewrite forallb_elem in Hc.
  specialize (Hc (q, n) (proj2 (elem_of_map_to_list _ _ _) Hn)). by eapply forallb_elem in Hc.
Qed.

(** Beside the saved run, which has an old temporary file, an old folder without a row. *)
Definition littered : archive :=
  let s := saved_archive.2 in
  set_files (set_nodes
    (<[["p"; "n"; "old"] := Folder 3]> (<[["p"; "n"; "old"; "results.json"] := Regular (encode sample_document) 3 7]>
    (<[["p"; "n"; "r1"; ".results.json.12.0123456789abcdef0123456789abcdef.tmp"] := Regular [] 3 8]>
    (<[["q"] := Folder 4]> (nodes (files s)))))) (files s)) s.
Definition tidied := exec (reconcile_artifacts 10 false (Some 70) 5 None None) littered.
Definition saved_dir : fpath := ["p"; "n"; "r1"].

Definition others_careful (s s' : archive) : Prop :=
  (kept saved_dir s → kept saved_dir s') ∧ (secure saved_dir 60 s → secure saved_dir 60 s').

Lemma littered_kept : kept saved_dir littered.
Proof.
  split; [split; [apply tree_checked_ok|apply names_checked_ok]; by vm_compute|]. intros _.
  assert (match nodes (files littered) !! artifact_of saved_dir with Some (Regular _ _ _) => true | _ => false end = true) as Hn by by vm_compute.
  destruct (nodes (files littered) !! artifact_of saved_dir) as [[|b m i|]|]; try done. eauto.
Qed.

Lemma referenced_artifacts_are_kept_witness :
  nodes (files littered) !! ["p"; "n"; "old"] ≠ None ∧ nodes (files tidied.2) !! ["p"; "n"; "old"] = None ∧
  nodes (files tidied.2) !! ["q"] = None ∧ kept saved_dir tidied.2.
Proof.
  split; [by vm_compute|]. split; [by vm_compute|]. split; [by vm_compute|].
  refine (referenced_artifacts_are_kept saved_dir others_careful (λ _, False) 0 littered tidied.2 tidied.1 10 false (Some 70) 5 None None
    sample_settings_ok eq_refl _ _ littered_kept (exec_runs _ (λ _, False) 0 (reconcile_artifacts 10 false (Some 70) 5 None None) littered)).
  - intros s s' Hs [Hk _]. by apply Hk.
  - intros s s' Hs [_ Hk]. by apply Hk.
Defined.

(** * The pages of a scan are the tree

    Undisturbed, a page of [_scan_artifacts] is the next entries of the tree in the order of
    their cursors, although every folder gives it only a few names. *)

(** ** The order of cursors *)

Lemma lex_refl l : lex_leb l l = true.
Proof. induction l; cbn; [done|]. by rewrite bool_decide_true. Qed.
Lemma lex_total l l' : lex_leb l l' = true ∨ lex_leb l' l = true.
Proof.
  revert l'. induction l as [|a l IH]; intros [|b l']; cbn; auto. case_bool_decide as E.
  - subst. rewrite bool_decide_true by done. apply IH.
  - rewrite bool_decide_false by done. apply str_leb_total.
Qed.
Lemma lex_antisym l l' : lex_leb l l' = true → lex_leb l' l = true → l = l'.
Proof.
  revert l'. induction l as [|a l IH]; intros [|b l']; cbn; try done. case_bool_decide as E.
  - subst. rewrite bool_decide_true by done. intros. f_equal. by apply IH.
  - rewrite bool_decide_false by done. intros. by destruct E; apply str_leb_antisym.
Qed.
Lemma lex_trans l l' l'' : lex_leb l l' = true → lex_leb l' l'' = true → lex_leb l l'' = true.
Proof.
  revert l' l''. induction l as [|a l IH]; intros [|b l'] [|c l'']; cbn; try done.
  repeat case_bool_decide; subst; try done; eauto using str_leb_trans. intros. by destruct H; apply str_leb_antisym.
Qed.
Lemma lex_after l l' : lex_leb l l' = false → lex_leb l' l = true.
Proof. destruct (lex_total l l'); congruence. Qed.
(** Lists are compared where they first differ. *)
Lemma lex_diverge x y r r' : length x = length y → x ≠ y → lex_leb (x ++ r) (y ++ r') = lex_leb x y.
Proof.
  revert y. induction x as [|a x IH]; intros [|b y]; cbn; try done. intros [= Hl] Hne.
  case_bool_decide; [|done]. subst. apply IH; congruence.
Qed.
Lemma lex_below x y r : length x = length y → lex_leb (x ++ replicate (length r) "") (y ++ r) = lex_leb x y.
Proof.
  revert y. induction x as [|a x IH]; intros [|b y]; cbn; try done.
  - intros _. induction r as [|c r IHr]; cbn; [done|]. case_bool_decide; [done|]. by destruct c.
  - intros [= Hl]. case_bool_decide; [by apply IH|done].
Qed.

(** ** Lists *)

Lemma take_app_eq {A} n (l l' k k' : list A) : take n l = take n l' → take n k = take n k' → take n (l ++ k) = take n (l' ++ k').
Proof.
  intros Hl Hk. rewrite !take_app, Hl. f_equal. pose proof (f_equal length Hl) as Hn. rewrite !length_take in Hn.
  destruct (decide (n ≤ length l)%nat); [by replace (n - length l)%nat with 0%nat by lia; replace (n - length l')%nat with 0%nat by lia|].
  replace (length l') with (length l) by lia. apply (f_equal (take (n - length l))) in Hk. by rewrite !take_take, !Nat.min_l in Hk by lia.
Qed.
Lemma take_flat_map {A B} n (f g : A → list B) l : (∀ x, x ∈ l → take n (f x) = take n (g x)) → take n (flat_map f l) = take n (flat_map g l).
Proof.
  induction l as [|x l IH]; intros Hx; cbn; [done|]. apply take_app_eq; [apply Hx; set_solver|]. apply IH. set_solver.
Qed.
Lemma take_prefix {A} n (l k : list A) : (n ≤ length l)%nat → take n (l ++ k) = take n l.
Proof. intros. by rewrite take_app_le. Qed.
(** All but one element give something. *)
Lemma flat_map_length {A B} `{EqDecision A} (f : A → list B) c (l : list A) :
  NoDup l → (∀ x, x ∈ l → x ≠ c → f x ≠ []) → (length l ≤ length (flat_map f l) + 1)%nat ∧ (c ∉ l → (length l ≤ length (flat_map f l))%nat).
Proof.
  intros Hn. induction Hn as [|x l Hx _ IH]; intros Hf; cbn; [lia|]. rewrite length_app.
  destruct IH as [I1 I2]; [intros y Hy; apply Hf; set_solver|]. destruct (decide (x = c)) as [->|Hc].
  - specialize (I2 Hx). split; [lia|]. intros Hn. destruct Hn. set_solver.
  - assert (f x ≠ []) as Hne by (apply Hf; set_solver). destruct (f x); [done|]. cbn. split; [lia|].
    intros Hn. assert (c ∉ l) as Hcl by set_solver. specialize (I2 Hcl). lia.
Qed.

Section paging.
Context `{ResultSettings} `{JsonReader} `{Printable}.
Implicit Types (s : archive) (t : gmap fpath node) (cs : list fpath).

(** ** The whole tree

    The runs, and what above them is no folder or an empty one, in the order of their names. *)
Fixpoint all_leaves t (depth : nat) (parts : fpath) : list fpath :=
  match depth with
  | O => [parts]
  | Datatypes.S depth =>
      let leaf := match parts with [] => [] | _ => [parts] end in
      match t !! parts with
      | None => leaf
      | Some (Folder _) =>
          match map fst (children parts t) with
          | [] => leaf
          | names => flat_map (λ name, all_leaves t depth (parts ++ [name])) names
          end
      | Some _ => leaf
      end
  end.
Definition leaf_cursors t : list fpath := map padded (all_leaves t _RESULT_RUN_DIR_DEPTH []).

Section page.
Context (t : gmap fpath node) (ht : tree_ok t) (cutoff : Z) (limit : nat) (after : option fpath).
Context (after_length : ∀ a, after = Some a → length a = 3%nat).

Definition beyond (cursor : fpath) : bool := match after with Some a => negb (lex_leb cursor a) | None => true end.
Definition remains (parts : fpath) (name : string) : bool :=
  match after with None => true | Some a => lex_leb (take (length parts + 1) a) (parts ++ [name]) end.

(** The leaves that a page looks at. *)
Fixpoint paged (depth : nat) (parts : fpath) : list fpath :=
  match depth with
  | O => [parts]
  | Datatypes.S depth =>
      let leaf := match parts with [] => [] | _ => [parts] end in
      match t !! parts with
      | None => leaf
      | Some (Folder _) =>
          match take (limit + 2) (filter (λ name, remains parts name = true) (map fst (children parts t))) with
          | [] => leaf
          | names => flat_map (λ name, paged depth (parts ++ [name])) names
          end
      | Some _ => leaf
      end
  end.

(** The loop over the leaves, on cursors alone: whether it came to the end. *)
Fixpoint consume (l : list fpath) cs : bool * list fpath :=
  match l with
  | [] => (true, cs)
  | x :: l =>
      if negb (beyond (padded x)) then consume l cs
      else if (limit <=? length cs)%nat then (false, cs) else consume l (cs ++ [padded x])
  end.
Lemma consume_app l l' cs :
  consume (l ++ l') cs = if (consume l cs).1 then consume l' (consume l cs).2 else consume l cs.
Proof. revert cs. induction l as [|x l IH]; intros cs; cbn [app consume]; [done|]. destruct (negb _); [apply IH|]. destruct (limit <=? _)%nat; [done|apply IH]. Qed.

Definition fresh (l : list fpath) : list fpath := filter (λ c, beyond c = true) (map padded l).
Lemma fresh_cons x l : fresh (x :: l) = if beyond (padded x) then padded x :: fresh l else fresh l.
Proof. unfold fresh. rewrite map_cons, filter_cons. destruct (beyond (padded x)); [by rewrite decide_True|by rewrite decide_False]. Qed.
Lemma fresh_app l l' : fresh (l ++ l') = fresh l ++ fresh l'.
Proof. unfold fresh. by rewrite map_app, filter_app. Qed.
Lemma fresh_flat {A} (f : A → list fpath) l : fresh (flat_map f l) = flat_map (λ x, fresh (f x)) l.
Proof. induction l as [|x l IH]; cbn [flat_map]; [done|]. by rewrite fresh_app, IH. Qed.
Lemma consume_fresh l cs : (length cs ≤ limit)%nat →
  consume l cs = ((length cs + length (fresh l) <=? limit)%nat, cs ++ take (limit - length cs) (fresh l)).
Proof.
  revert cs. induction l as [|x l IH]; intros cs Hcs; cbn [consume].
  { change (fresh []) with (@nil fpath). rewrite take_nil, app_nil_r, Nat.add_0_r. by rewrite (proj2 (Nat.leb_le _ _)). }
  rewrite fresh_cons. destruct (beyond (padded x)); cbn [negb]; [|by apply IH].
  cbn [length]. destruct (limit <=? length cs)%nat eqn:Hl.
  - apply Nat.leb_le in Hl. replace (limit - length cs)%nat with 0%nat by lia. rewrite app_nil_r.
    by rewrite (proj2 (Nat.leb_gt _ _)) by lia.
  - apply Nat.leb_gt in Hl. rewrite IH by (rewrite length_app; cbn; lia). rewrite length_app. cbn [length].
    replace (limit - length cs)%nat with (Datatypes.S (limit - (length cs + 1)))%nat by lia. cbn [take].
    rewrite <- app_assoc. cbn [app]. do 2 f_equal; lia.
Qed.
Lemma consume_same l l' cs : (length cs ≤ limit)%nat →
  take (Datatypes.S limit) (fresh l) = take (Datatypes.S limit) (fresh l') → consume l cs = consume l' cs.
Proof.
  intros Hcs He. rewrite !consume_fresh by done. f_equal.
  - apply (f_equal length) in He. rewrite !length_take in He. apply eq_true_iff_eq. rewrite !Nat.leb_le. lia.
  - f_equal. apply (f_equal (take (limit - length cs))) in He. by rewrite !take_take, !Nat.min_l in He by lia.
Qed.

(** ** What the names left out would give *)

Lemma leaves_below depth parts x : x ∈ all_leaves t depth parts → ∃ r, x = parts ++ r ∧ (length r ≤ depth)%nat.
Proof.
  revert parts. induction depth as [|depth IH]; intros parts; cbn [all_leaves].
  { intros ->%list_elem_of_singleton. exists []. by rewrite app_nil_r. }
  assert (∀ l, x ∈ (match parts with [] => [] | _ => [parts] end : list fpath) ∨ x ∈ [parts] ∨
    x ∈ flat_map (λ name, all_leaves t depth (parts ++ [name])) l → ∃ r, x = parts ++ r ∧ (length r ≤ Datatypes.S depth)%nat) as Hx.
  { intros l [Hx|[->%list_elem_of_singleton|Hx]].
    - destruct parts; [by apply not_elem_of_nil in Hx|]. apply list_elem_of_singleton in Hx as ->. exists []. rewrite app_nil_r. cbn. split; [done|lia].
    - exists []. rewrite app_nil_r. cbn. split; [done|lia].
    - apply list_elem_of_In, in_flat_map in Hx as (name & _ & Hx). apply list_elem_of_In, IH in Hx as (r & -> & Hr).
      exists (name :: r). rewrite <- app_assoc. cbn. split; [done|lia]. }
  destruct (t !! parts) as [[]|]; [|intros; apply (Hx []); auto..].
  destruct (map fst (children parts t)) eqn:E; intros; [apply (Hx []); auto|eapply (Hx (_ :: _)); eauto].
Qed.
Lemma leaves_some depth parts : parts ≠ [] → all_leaves t depth parts ≠ [].
Proof.
  revert parts. induction depth as [|depth IH]; intros parts Hp; cbn [all_leaves]; [done|].
  destruct (t !! parts) as [[]|]; [|by destruct parts..]. destruct (map fst (children parts t)) as [|n l]; [by destruct parts|].
  cbn [flat_map]. intros [Hn _]%app_eq_nil. revert Hn. apply IH. by destruct parts.
Qed.

(** A cursor below a folder is compared by the folder, unless the other one is below it too. *)
Lemma below_folder a parts depth x : length a = 3%nat → (length parts + depth = 3)%nat → x ∈ all_leaves t depth parts →
  parts ≠ take (length parts) a → lex_leb (padded x) a = lex_leb parts (take (length parts) a).
Proof.
  intros Ha Hl (r & -> & _)%leaves_below Hne. unfold padded. rewrite <- app_assoc.
  rewrite <- (take_drop (length parts) a) at 1. apply lex_diverge; [rewrite length_take; lia|done].
Qed.
Lemma fresh_none l : (∀ x, x ∈ l → beyond (padded x) = false) → fresh l = [].
Proof. induction l as [|x l IH]; intros Hx; [done|]. rewrite fresh_cons, Hx by set_solver. apply IH. set_solver. Qed.
Lemma fresh_all l : (∀ x, x ∈ l → beyond (padded x) = true) → fresh l = map padded l.
Proof. induction l as [|x l IH]; intros Hx; [done|]. rewrite fresh_cons, Hx by set_solver. cbn. f_equal. apply IH. set_solver. Qed.

Lemma passed_by depth parts name : (length parts + Datatypes.S depth = 3)%nat → remains parts name = false →
  fresh (all_leaves t depth (parts ++ [name])) = [].
Proof.
  intros Hl. unfold remains. case_eq after; [|done]. intros a Ea Hr. pose proof (after_length a Ea) as Ha3. apply fresh_none. intros x Hx.
  unfold beyond. rewrite Ea. assert (length (parts ++ [name]) = (length parts + 1)%nat) as El by by rewrite length_app.
  rewrite (below_folder a (parts ++ [name]) depth); [rewrite El|done|lia|done|intros E; by rewrite El in E; rewrite <- E, lex_refl in Hr].
  by rewrite (lex_after _ _ Hr).
Qed.
(** Of the names that remain, only the one on the way to [after] may give nothing. *)
Lemma remains_some depth parts name : (length parts + Datatypes.S depth = 3)%nat → remains parts name = true →
  after = None ∨ parts ++ [name] ≠ take (length parts + 1) (default [] after) → fresh (all_leaves t depth (parts ++ [name])) ≠ [].
Proof.
  intros Hl Hr Hc. rewrite fresh_all.
  - intros [=Hn%map_eq_nil]. revert Hn. apply leaves_some. by destruct parts.
  - intros x Hx. unfold beyond. revert Hr Hc. unfold remains. case_eq after; [|done]. intros a Ea Hr [|Hc]; [done|]. cbn in Hc.
    pose proof (after_length a Ea) as Ha3. assert (length (parts ++ [name]) = (length parts + 1)%nat) as El by by rewrite length_app.
    rewrite (below_folder a (parts ++ [name]) depth); [rewrite El|done|lia|done|by rewrite El].
    destruct (lex_leb (parts ++ [name]) _) eqn:E; [|done]. by destruct Hc; apply lex_antisym.
Qed.

(** ** A page looks at enough *)

Lemma children_nodup parts : NoDup (map fst (children parts t)).
Proof.
  unfold children. rewrite merge_sort_Permutation.
  assert (∀ l : list (fpath * node), NoDup l.*1 → NoDup (map fst (omap (λ x, match last x.1 with
    | Some c => if bool_decide (parent x.1 = parts) then Some (c, x.2) else None | None => None end) l))) as Hl; [|apply Hl, NoDup_fst_map_to_list].
  induction l as [|[q n] l IH]; cbn; intros Hn; [constructor|]. apply NoDup_cons in Hn as [Hq Hn]. specialize (IH Hn).
  destruct (last q) as [c|] eqn:El; [|done]. case_bool_decide as Hp; [|done]. cbn. apply NoDup_cons. split; [|done].
  intros ([c' n'] & E & Hin)%list_elem_of_fmap. cbn in E. subst c'. apply list_elem_of_omap in Hin as ([q' n''] & Hin & E').
  cbn in E'. destruct (last q') as [c'|] eqn:El'; [|done]. case_bool_decide as Hp'; [|done]. injection E' as -> ->.
  apply Hq, list_elem_of_fmap. exists (q', n'). split; [|done]. cbn. apply last_Some in El as [l1 ->], El' as [l2 ->].
  unfold parent in *. rewrite removelast_last in Hp, Hp'. congruence.
Qed.

Definition relevant (parts : fpath) : Prop := ∀ a, after = Some a → lex_leb (take (length parts) a) parts = true.
Lemma relevant_child parts name : remains parts name = true → relevant (parts ++ [name]).
Proof. unfold remains, relevant. intros Hr a Ea. rewrite Ea in Hr. by rewrite length_app. Qed.

Abbreviation names parts := (map fst (children parts t)).
Abbreviation remaining parts := (filter (λ name, remains parts name = true) (names parts)).

Lemma remaining_fresh depth parts l : (length parts + Datatypes.S depth = 3)%nat →
  fresh (flat_map (λ name, all_leaves t depth (parts ++ [name])) (filter (λ name, remains parts name = true) l)) =
  fresh (flat_map (λ name, all_leaves t depth (parts ++ [name])) l).
Proof.
  intros Hl. induction l as [|n l IH]; [done|]. cbn [flat_map]. rewrite fresh_app, filter_cons.
  destruct (remains parts n) eqn:Hr; [rewrite decide_True by done; cbn [flat_map]; by rewrite fresh_app, IH|].
  rewrite decide_False by done. by rewrite IH, passed_by.
Qed.

(** Nothing remains in a folder only if the cursor is in it. *)
Lemma nothing_remains parts : (length parts < 3)%nat → relevant parts → names parts ≠ [] → remaining parts = [] →
  beyond (padded parts) = false.
Proof.
  intros Hl Hrel Hn Hr. destruct (names parts) as [|n l] eqn:En; [done|]. rewrite filter_cons in Hr.
  destruct (remains parts n) eqn:Hrn; [by rewrite decide_True in Hr|]. unfold remains in Hrn. unfold beyond, relevant in *.
  revert Hrn Hrel. case_eq after; [|done]. intros a Ea Hrn Hrel. specialize (Hrel a eq_refl). pose proof (after_length a Ea) as Ha.
  assert (parts = take (length parts) a) as Ep.
  { destruct (decide (parts = take (length parts) a)) as [|Hne]; [done|]. exfalso.
    destruct (lookup_lt_is_Some_2 a (length parts) ltac:(lia)) as [c Hc].
    rewrite Nat.add_1_r, (take_S_r _ _ c Hc), lex_diverge in Hrn; [congruence|rewrite length_take; lia|auto]. }
  unfold padded. rewrite <- (take_drop (length parts) a) at 1. rewrite Ep at 1.
  replace (3 - length parts)%nat with (length (drop (length parts) a)) by (rewrite length_drop; lia).
  by rewrite lex_below, lex_refl.
Qed.

(** The names of a page give what is needed of all names. *)
Lemma enough_names depth parts : (length parts + Datatypes.S depth = 3)%nat →
  take (Datatypes.S limit) (flat_map (λ name, fresh (all_leaves t depth (parts ++ [name]))) (take (limit + 2) (remaining parts))) =
  take (Datatypes.S limit) (flat_map (λ name, fresh (all_leaves t depth (parts ++ [name]))) (remaining parts)).
Proof.
  intros Hl. set (f := λ name, fresh (all_leaves t depth (parts ++ [name]))). set (F := remaining parts).
  destruct (decide (length F ≤ limit + 2)%nat) as [|Hlong]; [by rewrite (take_ge F)|].
  rewrite <- (take_drop (limit + 2) F) at 2. rewrite flat_map_app, take_prefix; [done|].
  assert (NoDup (take (limit + 2) F)) as Hn.
  { eapply sublist_NoDup; [|apply sublist_take]. eapply sublist_NoDup; [apply children_nodup|apply sublist_filter]. }
  pose proof (flat_map_length f (nth (length parts) (default [] after) "") _ Hn) as [Hlen _].
  - intros n (i & Hi & _)%elem_of_take Hne. apply list_elem_of_lookup_2, list_elem_of_filter in Hi as [Hr _]. apply remains_some; [done..|].
    case_eq after; [|by left]. intros a Ea. right. cbn. pose proof (after_length a Ea) as Ha. rewrite Ea in Hne. cbn in Hne.
    destruct (lookup_lt_is_Some_2 a (length parts) ltac:(lia)) as [c Hc].
    rewrite Nat.add_1_r, (take_S_r _ _ c Hc). intros [_ [= ->]]%app_inj_2; [|done]. apply Hne. symmetry. by apply nth_lookup_Some.
  - rewrite length_take in Hlen. lia.
Qed.

Lemma paged_same depth parts : (length parts + depth = 3)%nat → relevant parts →
  take (Datatypes.S limit) (fresh (paged depth parts)) = take (Datatypes.S limit) (fresh (all_leaves t depth parts)).
Proof.
  revert parts. induction depth as [|depth IH]; intros parts Hl Hrel; [done|]. cbn [paged all_leaves].
  destruct (t !! parts) as [[]|]; [|done..].
  assert (fresh (flat_map (λ name, all_leaves t depth (parts ++ [name])) (names parts)) =
          flat_map (λ name, fresh (all_leaves t depth (parts ++ [name]))) (remaining parts)) as Eall
    by by rewrite <- remaining_fresh, fresh_flat.
  pose proof (enough_names depth parts Hl) as Hen. destruct (take (limit + 2) (remaining parts)) as [|n l] eqn:Et.
  - assert (remaining parts = []) as Er by (destruct (remaining parts) as [|x y]; [done|]; by rewrite Nat.add_comm in Et).
    destruct (names parts) as [|n l] eqn:En; [done|]. rewrite Eall, Er. cbn [flat_map]. rewrite take_nil.
    destruct parts as [|p parts]; [done|]. set (q := p :: parts) in *. rewrite fresh_cons.
    rewrite (nothing_remains q); [done|lia|done|by rewrite En|by rewrite En].
  - destruct (names parts) as [|n' l'] eqn:En; [cbn in Et; by rewrite take_nil in Et|]. rewrite <- En in *. rewrite Eall, <- Hen, fresh_flat.
    apply take_flat_map. intros x Hx. assert (x ∈ take (limit + 2) (remaining parts)) as Hx' by by rewrite Et.
    apply elem_of_take in Hx' as (i & Hi & _). apply list_elem_of_lookup_2, list_elem_of_filter in Hi as [Hr _].
    apply IH; [rewrite length_app; cbn; lia|by apply relevant_child].
Qed.

(** ** Running the scan *)

Section running.
Context (s0 : archive) (calm_disk : faults (files s0) = []) (no_deadline : checks_left s0 = None) (same : nodes (files s0) = t).

(** An error that the scan notes and goes on after. *)
Definition benign (e : exn) : Prop := os_error e || value_error e = true ∧ is_type "FilesystemDeadlineReached" e = false.
Definition safe {A} (m : prog archive exn A) : Prop := (m s0).2 = s0 ∧ ∀ e, (m s0).1 = Raise e → benign e.

Lemma safe_ret {A} (a : A) : safe (pret a).
Proof. by split. Qed.
Lemma safe_raise {A} e : benign e → safe (A := A) (praise e).
Proof. split; [done|]. by intros e' [= <-]. Qed.
Lemma safe_bind {A B} (m : prog archive exn A) (k : A → prog archive exn B) : safe m → (∀ a, safe (k a)) → safe (pbind m k).
Proof. intros [Hm He] Hk. unfold safe, pbind. destruct (m s0) as [[a|e] s]; cbn in *; subst; [apply Hk|]. split; [done|]. intros e' [= <-]. by apply He. Qed.
Lemma safe_get {B} (k : archive → prog archive exn B) : safe (k s0) → safe (let! s := pget in k s).
Proof. done. Qed.
Lemma deadline_calm : deadline_reached s0 = (Ok false, s0).
Proof. unfold deadline_reached. by rewrite no_deadline. Qed.
Lemma check_calm polled : check_stop polled s0 = (Ok tt, s0).
Proof. unfold check_stop. destruct polled; [|done]. unfold pbind. by rewrite deadline_calm. Qed.
Lemma safe_check polled : safe (check_stop polled).
Proof. unfold safe. by rewrite check_calm. Qed.

Lemma lstat_errors q d e : lstat q d = Raise e → e = "FileNotFoundError" ∨ e = "NotADirectoryError".
Proof.
  unfold lstat. generalize (@nil string). induction q as [|c q IH]; intros at_; cbn [walk].
  - case_match; [done|]. intros [= <-]. by left.
  - case_match; [|intros [= <-]; by left]. case_match; [apply IH|intros [= <-]; by right|intros [= <-]; by left].
Qed.
Lemma benign_lstat q d e : lstat q d = Raise e → benign (Broken e).
Proof. by intros [-> | ->]%lstat_errors. Qed.

Lemma scandir_calm q : on_disk (scandir q) s0 = (in_library (match lstat q (files s0) with
  | Ok (Folder _) => Ok (children q t) | Ok _ => Raise "NotADirectoryError" | Raise e => Raise e end), s0).
Proof. unfold on_disk, scandir. rewrite faulty_none by done. rewrite same. by destruct s0. Qed.
Lemma entries_calm q n : on_disk (_directory_entries q n) s0 = (in_library (match lstat q (files s0) with
  | Ok (Folder _) => if (n <? length (children q t))%nat then Raise "DirectoryEntryLimitExceeded" else Ok (children q t)
  | Ok _ => Raise "NotADirectoryError" | Raise e => Raise e end), s0).
Proof.
  unfold on_disk, _directory_entries, scandir. rewrite faulty_none by done. rewrite same.
  destruct (lstat q (files s0)) as [[]|]; by destruct s0.
Qed.
Lemma safe_listing q n : safe (on_disk (_directory_entries q n)).
Proof.
  unfold safe. rewrite entries_calm. split; [done|]. cbn. intros e. destruct (lstat q (files s0)) as [[]|] eqn:El; cbn.
  - case_match; [|done]. by intros [= <-].
  - by intros [= <-].
  - by intros [= <-].
  - intros [= <-]. by eapply benign_lstat.
Qed.

Lemma safe_entries polled q l a : safe (snapshot_entries polled q l a).
Proof.
  revert a. induction l as [|[name n] l IH]; intros a; cbn [snapshot_entries]; [apply safe_ret|].
  apply safe_bind; [apply safe_check|]. intros _. destruct n; [apply IH| |apply IH]. case_match; [by apply safe_raise|apply IH].
Qed.
Lemma safe_folders fuel polled a : safe (snapshot_folders fuel polled a).
Proof.
  revert a. induction fuel as [|fuel IH]; intros a; cbn [snapshot_folders]; [apply safe_ret|].
  destruct (pending a); [apply safe_ret|]. apply safe_bind; [apply safe_check|]. intros _.
  apply safe_bind; [apply safe_listing|]. intros l'. apply safe_bind; [apply safe_entries|]. auto.
Qed.
Lemma unlinked_errors d at_ rest e : unlinked d at_ rest = Raise e → benign (Broken e).
Proof.
  revert at_. induction rest as [|c rest IH]; intros at_; cbn [unlinked]; [done|].
  destruct (lstat (at_ ++ [c]) d) as [[]|e'] eqn:El; [apply IH..|by intros [= <-]|]. case_bool_decide; [apply IH|].
  intros [= <-]. by eapply benign_lstat.
Qed.
Lemma safe_examine parts : safe (examine parts).
Proof.
  unfold examine. apply safe_get. destruct (lstat parts (files s0)) as [[]|] eqn:El; [|apply safe_ret..|by eapply safe_raise, benign_lstat].
  unfold _checked_result_dir. destruct (relative_dir _) as [d|]; [|by apply safe_raise].
  destruct (unlinked _ _ _) eqn:Eu; [|by eapply safe_raise, unlinked_errors]. apply safe_bind; [|intros; apply safe_ret].
  unfold _tree_snapshot. apply safe_bind; [apply safe_check|]. intros _. apply safe_get.
  destruct (lstat d (files s0)) as [[]|] eqn:El'; [|by apply safe_raise..|by eapply safe_raise, benign_lstat].
  apply safe_bind; [apply safe_folders|]. intros; apply safe_ret.
Qed.

(** The computation does to the entries what [consume] does to their cursors. *)
Definition follows (m : prog pass exn unit) (l : list fpath) : Prop := ∀ p, store p = s0 →
  store (m p).2 = s0 ∧
  map se_cursor (scanned_entries (m p).2) = (consume l (map se_cursor (scanned_entries p))).2 ∧
  (m p).1 = if (consume l (map se_cursor (scanned_entries p))).1 then Ok tt else Raise deadline_error.

Lemma follows_ret : follows (pret tt) [].
Proof. by intros p Hp. Qed.
Lemma follows_seq m k l l' : follows m l → follows k l' → follows (do! m in k) (l ++ l').
Proof.
  intros Hm Hk p Hp. destruct (Hm p Hp) as (Hs & Hc & Ho). unfold pbind. destruct (m p) as [o p1]. cbn [fst snd] in *.
  rewrite consume_app. destruct (consume l _) as [[] cs]; cbn [fst snd] in *; subst o; [|done].
  rewrite <- Hc. by apply Hk.
Qed.
Lemma follows_tallied f k l : follows k l → follows (do! tallied f in k) l.
Proof. intros Hk p Hp. by apply (Hk {| store := store p; state := f (state p); scanned_entries := scanned_entries p |}). Qed.
Lemma follows_each {A} (f : A → prog pass exn unit) (g : A → list fpath) l :
  (∀ x, x ∈ l → follows (f x) (g x)) → follows (each f l) (flat_map g l).
Proof.
  induction l as [|x l IH]; intros Hf; cbn [each flat_map]; [apply follows_ret|].
  apply follows_seq; [apply Hf; set_solver|]. apply IH. set_solver.
Qed.
Lemma follows_store {A} (m : prog archive exn A) (k : outcome exn A → prog pass exn unit) l :
  (m s0).2 = s0 → follows (k (m s0).1) l → follows (ptry (on_store m) k) l.
Proof.
  intros Hm Hk p Hp. unfold ptry, on_store. cbn. rewrite Hp, Hm. by apply (Hk {| store := s0; state := state p; scanned_entries := scanned_entries p |}).
Qed.

(** What is done once a leaf is taken: one entry with its cursor. *)
Definition adds (m : prog pass exn unit) (cursor : fpath) : Prop := ∀ p, store p = s0 →
  store (m p).2 = s0 ∧ map se_cursor (scanned_entries (m p).2) = map se_cursor (scanned_entries p) ++ [cursor] ∧ (m p).1 = Ok tt.
Lemma adds_scanned e : adds (scanned e) (se_cursor e).
Proof. intros p Hp. cbn. by rewrite map_app. Qed.
Lemma adds_tallied f k c : adds k c → adds (do! tallied f in k) c.
Proof. intros Hk p Hp. by apply (Hk {| store := store p; state := f (state p); scanned_entries := scanned_entries p |}). Qed.
Lemma adds_store {A} (m : prog archive exn A) (k : outcome exn A → prog pass exn unit) c :
  (m s0).2 = s0 → adds (k (m s0).1) c → adds (ptry (on_store m) k) c.
Proof.
  intros Hm Hk p Hp. unfold ptry, on_store. cbn. rewrite Hp, Hm. by apply (Hk {| store := s0; state := state p; scanned_entries := scanned_entries p |}).
Qed.
Lemma adds_temps (identity : fpath) recent l (k : list RemovalCandidate → prog pass exn unit) c :
  (∀ r, adds (k r) c) → adds (let! r := temp_entries cutoff identity recent l in k r) c.
Proof.
  revert k. induction l as [|[[q n] m] l IH]; intros k Hk; cbn [temp_entries]; [apply Hk|].
  case_match; intros p Hp.
  - apply (IH k Hk {| store := store p; state := add_count recent_candidates_skipped 1 (state p); scanned_entries := scanned_entries p |} Hp).
  - set (p' := {| store := store p; state := add_count stale_temporary_candidates 1 (state p); scanned_entries := scanned_entries p |}).
    set (x := {| c_identity := identity; c_path := q; c_size := n; c_recent := false |}).
    destruct (IH (λ r, k (x :: r)) (λ r, Hk _) p' Hp) as (Hs & Hc & Ho). unfold pbind in *. cbn in *. fold p' in Hs, Hc, Ho |- *.
    by destruct (temp_entries _ _ _ _ p') as [[]].
Qed.

Lemma follows_leaf parts : (length parts ≤ 3)%nat → follows (visit_leaf cutoff limit after parts) [parts].
Proof.
  intros Hl p Hp. unfold visit_leaf. cbn [consume]. unfold beyond.
  destruct (match after with Some _ => _ | None => false end) eqn:Ea.
  { assert (negb match after with Some a => negb (lex_leb (padded parts) a) | None => true end = true) as ->
      by by destruct after; [rewrite Ea|]. by split_and!. }
  assert (negb match after with Some a => negb (lex_leb (padded parts) a) | None => true end = false) as ->
      by by destruct after; [rewrite Ea|].
  unfold pbind, on_store, pget. cbn zeta. rewrite Hp, deadline_calm. cbn [fst snd orb store scanned_entries].
  rewrite length_map. destruct (limit <=? length (scanned_entries p))%nat; [by split_and!|]. cbn [fst snd].
  match goal with |- context [if ?b then scanned ?e else ?m] => enough (adds (if b then scanned e else m) (padded parts)) as Ha end.
  { destruct (Ha {| store := s0; state := state p; scanned_entries := scanned_entries p |} eq_refl) as (? & Hc & Ho). by rewrite Hc, Ho. }
  destruct (_ <? _)%nat; [apply adds_scanned|]. destruct (safe_examine parts) as [Hs He]. apply adds_store; [done|].
  destruct (examine parts s0).1 as [[[d [[size newest] temps]]|]|e].
  - apply adds_tallied, adds_temps. intros r. apply adds_scanned.
  - apply adds_tallied, adds_scanned.
  - destruct (He e eq_refl) as [Hb Hd]. rewrite Hd, Hb. apply adds_tallied, adds_scanned.
Qed.

Lemma each_check {A} (l : list A) : each (λ _, check_stop true) l s0 = (Ok tt, s0).
Proof. induction l as [|x l IH]; cbn [each]; [done|]. unfold pbind. by rewrite check_calm. Qed.
Lemma names_calm parts : parts = [] ∨ is_Some (t !! parts) →
  remaining_names limit after parts s0 = (match t !! parts with
    | Some (Folder _) => Ok (Some (take (limit + 2) (remaining parts)))
    | Some _ => match parts with [] => Raise (Broken "NotADirectoryError") | _ => Ok None end
    | None => Raise (Broken "FileNotFoundError") end, s0).
Proof.
  intros Hp. unfold remaining_names, pbind, pget. rewrite check_calm. unfold pret, praise.
  assert (lstat parts (files s0) = match t !! parts with Some n => Ok n | None => Raise "FileNotFoundError" end) as El.
  { destruct (t !! parts) as [n|] eqn:E; [apply lstat_found; by rewrite same|]. destruct Hp as [->|[n Hn]]; [|congruence].
    unfold lstat. cbn. by rewrite same, E. }
  destruct parts as [|c parts]; cbv beta iota.
  - rewrite scandir_calm, El. destruct (t !! _) as [[]|]; try done. cbn [in_library]. by rewrite each_check.
  - rewrite El. destruct (t !! _) as [[]|] eqn:E; try done. rewrite scandir_calm, El. cbn [in_library]. by rewrite each_check.
Qed.

Lemma follows_leaves depth parts : (length parts + depth = 3)%nat → parts = [] ∨ is_Some (t !! parts) →
  follows (namespace_leaves cutoff limit after depth parts) (paged depth parts).
Proof.
  revert parts. induction depth as [|depth IH]; intros parts Hl Hp; cbn [namespace_leaves paged]; [apply follows_leaf; lia|].
  pose proof (follows_leaf parts ltac:(lia)) as Hleaf.
  assert (follows match parts with [] => pret tt | _ => visit_leaf cutoff limit after parts end match parts with [] => [] | _ => [parts] end) as Hleaf'
    by (destruct parts; [apply follows_ret|done]).
  apply follows_store; [by rewrite names_calm|]. rewrite names_calm by done. cbn [fst].
  destruct (t !! parts) as [[]|] eqn:E.
  - assert (∀ n, n ∈ take (limit + 2) (remaining parts) → follows (namespace_leaves cutoff limit after depth (parts ++ [n])) (paged depth (parts ++ [n]))) as Hn.
    { intros n (i & Hi & _)%elem_of_take. apply list_elem_of_lookup_2, list_elem_of_filter in Hi as [_ Hi].
      apply list_elem_of_fmap in Hi as ([n' k] & -> & Hc). apply elem_children in Hc. apply IH; [rewrite length_app; cbn; lia|]. right. by exists k. }
    destruct (take (limit + 2) (remaining parts)) as [|n l]; [done|]. by apply (follows_each (λ n, namespace_leaves cutoff limit after depth (parts ++ [n]))).
  - destruct parts; [apply follows_tallied, follows_ret|]. by apply follows_tallied.
  - destruct parts; [apply follows_tallied, follows_ret|]. by apply follows_tallied.
  - done.
Qed.
End running.

(** One page, from the entries that are left. *)
Lemma scan_page s (st : tally) :
  faults (files s) = [] → checks_left s = None → nodes (files s) = t →
  let r := _scan_artifacts cutoff limit after {| store := s; state := st; scanned_entries := [] |} in
  let rest := filter (λ c, beyond c = true) (leaf_cursors t) in
  store r.2 = s ∧ map se_cursor (scanned_entries r.2) = take limit rest ∧ r.1 = Ok (length rest <=? limit)%nat.
Proof.
  intros Hf Hd Hn. cbv zeta. unfold _scan_artifacts, ptry.
  destruct (follows_leaves s Hf Hd Hn 3 [] eq_refl (or_introl eq_refl) {| store := s; state := st; scanned_entries := [] |} eq_refl)
    as (Hs & Hc & Ho). cbn [scanned_entries map] in Hc, Ho.
  assert (take (Datatypes.S limit) (fresh (paged 3 [])) = take (Datatypes.S limit) (fresh (all_leaves t 3 []))) as Hsame
    by (apply paged_same; [done|]; intros a Ea; done).
  rewrite (consume_same _ _ [] ltac:(cbn; lia) Hsame), consume_fresh in Hc, Ho by (cbn; lia). cbn [fst snd length app Nat.add] in Hc, Ho.
  rewrite Nat.sub_0_r in Hc. unfold leaf_cursors, _RESULT_RUN_DIR_DEPTH. fold (fresh (all_leaves t 3 [])).
  destruct (namespace_leaves _ _ _ _ _ _) as [o p]. cbn [fst snd] in *. subst o.
  destruct (length (fresh _) <=? limit)%nat; by split_and!.
Qed.
End page.

(** ** The order of the tree *)

Definition before (x y : fpath) : Prop := lex_leb y x = false.
#[local] Instance before_trans : Transitive before.
Proof.
  intros x y z Hxy Hyz. unfold before in *. destruct (lex_leb z x) eqn:E; [|done].
  pose proof (lex_trans _ _ _ (lex_after _ _ Hyz) E). congruence.
Qed.
Lemma before_irrefl x : ¬ before x x.
Proof. unfold before. by rewrite lex_refl. Qed.

Lemma sorted_flat_map {A B} (Q : A → A → Prop) (R : B → B → Prop) (f : A → list B) l :
  StronglySorted Q l → (∀ x, x ∈ l → StronglySorted R (f x)) → (∀ x y a b, Q x y → a ∈ f x → b ∈ f y → R a b) →
  StronglySorted R (flat_map f l).
Proof.
  intros Hs Hf HR. induction Hs as [|x l Hs IH Hx]; cbn; [constructor|].
  assert (∀ l1 l2, StronglySorted R l1 → StronglySorted R l2 → (∀ a b, a ∈ l1 → b ∈ l2 → R a b) → StronglySorted R (l1 ++ l2)) as Happ.
  { intros l1 l2 H1' H2'. induction H1' as [|a l1 _ IH1 Ha]; cbn; intros Hc; [done|]. constructor; [apply IH1; set_solver|].
    apply Forall_app. split; [done|]. apply Forall_forall. intros b Hb. apply Hc; set_solver. }
  apply Happ; [apply Hf; set_solver|apply IH; set_solver|]. intros a b Ha Hb.
  apply list_elem_of_In, in_flat_map in Hb as (y & Hy & Hb). apply list_elem_of_In in Hy, Hb.
  rewrite Forall_forall in Hx. eapply HR; [by apply Hx|done..].
Qed.

Definition name_lt (a b : string) : Prop := String.leb a b = true ∧ a ≠ b.
Lemma names_sorted t parts : StronglySorted name_lt (map fst (children parts t)).
Proof.
  pose proof (children_nodup t parts) as Hn. revert Hn.
  assert (StronglySorted name_before (children parts t)) as Hs.
  { apply StronglySorted_merge_sort; [intros a b c; apply str_leb_trans|intros a b; apply str_leb_total]. }
  induction Hs as [|[n k] l _ IH Hl]; cbn; intros Hn; [constructor|]. apply NoDup_cons in Hn as [Hx Hn]. constructor; [by apply IH|].
  apply Forall_forall. intros n' Hn'. split; [|by intros ->]. apply list_elem_of_fmap in Hn' as ([] & -> & Hin).
  by apply (proj1 (Forall_forall _ _) Hl).
Qed.

Lemma leaves_sorted t depth parts : (length parts + depth = 3)%nat →
  StronglySorted (λ x y, before (padded x) (padded y)) (all_leaves t depth parts).
Proof.
  revert parts. induction depth as [|depth IH]; intros parts Hl; cbn [all_leaves]; [repeat constructor|].
  assert (StronglySorted (λ x y, before (padded x) (padded y)) match parts with [] => [] | _ => [parts] end) as Hleaf
    by (destruct parts; repeat constructor).
  destruct (t !! parts) as [[]|]; try done. pose proof (names_sorted t parts) as Hs.
  destruct (map fst (children parts t)) as [|n l]; [done|]. eapply sorted_flat_map; [exact Hs| |].
  - intros x _. apply IH. rewrite length_app. cbn. lia.
  - intros x y a b [Hxy Hne] (r & -> & _)%leaves_below (r' & -> & _)%leaves_below. unfold before, padded.
    rewrite <- !app_assoc. rewrite !(app_assoc parts), lex_diverge; [|by rewrite !length_app|by intros [_ [=]]%app_inj_2].
    assert (lex_leb (parts ++ [y]) (parts ++ [x]) = String.leb y x) as ->.
    { clear -Hne. induction parts as [|c parts IH]; cbn; [by rewrite bool_decide_false|]. by rewrite bool_decide_true. }
    destruct (String.leb y x) eqn:E; [|done]. by destruct Hne; apply str_leb_antisym.
Qed.
Lemma cursors_sorted t : StronglySorted before (leaf_cursors t).
Proof.
  unfold leaf_cursors. pose proof (leaves_sorted t 3 [] eq_refl) as Hs. unfold _RESULT_RUN_DIR_DEPTH.
  induction Hs as [|x l _ IH Hx]; cbn [map]; constructor; [done|]. by apply Forall_fmap.
Qed.

(** What comes after a cursor. *)
Lemma after_cursor (l1 l2 : list fpath) c : StronglySorted before (l1 ++ c :: l2) →
  filter (λ x, negb (lex_leb x c) = true) (l1 ++ c :: l2) = l2.
Proof.
  intros Hs.
  assert (∀ l, Forall (λ x, lex_leb x c = true) l → filter (λ x, negb (lex_leb x c) = true) l = []) as Hno.
  { induction 1 as [|x l Hx _ IH]; [done|]. rewrite filter_cons, decide_False; [done|]. by rewrite Hx. }
  assert (∀ l, Forall (before c) l → filter (λ x, negb (lex_leb x c) = true) l = l) as Hyes.
  { induction 1 as [|x l Hx _ IH]; [done|]. rewrite filter_cons, decide_True, IH; [done|]. by rewrite Hx. }
  rewrite filter_app, filter_cons, decide_False by by rewrite lex_refl.
  rewrite Hno, Hyes; [done| |].
  - clear Hno Hyes. induction l1 as [|x l1 IH]; inversion Hs; subst; auto.
  - clear Hno Hyes. induction l1 as [|x l1 IH]; inversion Hs as [|? ? Hs' Hx]; subst; constructor; [|by apply IH].
    apply lex_after. rewrite Forall_forall in Hx. apply Hx. set_solver.
Qed.

Lemma cursor_length t c : c ∈ leaf_cursors t → length c = 3%nat.
Proof.
  intros (x & -> & (r & -> & Hr)%leaves_below)%list_elem_of_fmap. unfold padded. rewrite length_app, length_replicate. cbn in *.
  unfold _RESULT_RUN_DIR_DEPTH in Hr. lia.
Qed.
(** Every entry of the depth of the runs is a leaf. *)
Lemma runs_are_leaves t parts r n : tree_ok t → t !! (parts ++ r) = Some n → parts ++ r ∈ all_leaves t (length r) parts.
Proof.
  intros Ht. revert parts. induction r as [|c r IH]; intros parts Hn; cbn [length all_leaves].
  { rewrite app_nil_r. apply list_elem_of_singleton. by rewrite app_nil_r in *. }
  destruct (tree_prefix t parts (c :: r) n Ht Hn) as [m ->]; [done|]. rewrite cons_middle, app_assoc in *.
  assert (∃ k, t !! (parts ++ [c]) = Some k) as [k Hk].
  { destruct r; [rewrite app_nil_r in Hn; eauto|]. destruct (tree_prefix t (parts ++ [c]) (s :: r) n Ht Hn) as [k ?]; eauto. }
  assert (c ∈ map fst (children parts t)) as Hc by (apply list_elem_of_fmap; exists (c, k); split; [done|]; by apply elem_children).
  destruct (map fst (children parts t)) as [|x l]; [by apply not_elem_of_nil in Hc|].
  apply list_elem_of_In, in_flat_map. exists c. split; [by apply list_elem_of_In|]. apply list_elem_of_In. by apply IH.
Qed.

(** Page after page, each from the last cursor of the one before, as the passes store it. *)
Fixpoint pages (cutoff : Z) (limit fuel : nat) (after : option fpath) s : option (list fpath) :=
  match fuel with
  | O => None
  | Datatypes.S fuel =>
      let r := _scan_artifacts cutoff limit after {| store := s; state := no_counts; scanned_entries := [] |} in
      let found := map se_cursor (scanned_entries r.2) in
      match r.1 with
      | Ok true => Some found
      | Ok false => app found <$> pages cutoff limit fuel (match last found with Some c => Some c | None => after end) (store r.2)
      | Raise _ => None
      end
  end.

Lemma pages_rest cutoff limit fuel after s l0 rest :
  (0 < limit)%nat → tree_ok (nodes (files s)) → faults (files s) = [] → checks_left s = None →
  leaf_cursors (nodes (files s)) = l0 ++ rest → after = last l0 → (length rest < fuel)%nat →
  pages cutoff limit fuel after s = Some rest.
Proof.
  intros Hlim Ht Hf Hd. revert after l0 rest. induction fuel as [|fuel IH]; intros after l0 rest EL Ea Hfuel; [lia|]. cbn [pages].
  pose proof (cursors_sorted (nodes (files s))) as Hs.
  assert (∀ a, after = Some a → length a = 3%nat) as Hal.
  { intros a ->. symmetry in Ea. apply last_Some in Ea as [l1 ->]. apply (cursor_length (nodes (files s))). rewrite EL. set_solver. }
  destruct (scan_page (nodes (files s)) Ht cutoff limit after Hal s no_counts Hf Hd eq_refl) as (-> & -> & ->).
  assert (filter (λ c, beyond after c = true) (leaf_cursors (nodes (files s))) = rest) as ->.
  { rewrite EL in *. destruct after as [a|].
    - symmetry in Ea. apply last_Some in Ea as [l1 ->]. rewrite <- app_assoc in *. by apply after_cursor.
    - symmetry in Ea. apply last_None in Ea as ->. cbn [app]. clear. by induction rest as [|x l IH]; [|rewrite filter_cons, decide_True, IH]. }
  destruct (length rest <=? limit)%nat eqn:Hle; [apply Nat.leb_le in Hle; by rewrite take_ge|]. apply Nat.leb_gt in Hle.
  assert (take limit rest ≠ []) as Hne by (destruct rest, limit; cbn in *; [lia..|done]).
  destruct (last (take limit rest)) as [c|] eqn:El; [|by apply last_None in El].
  rewrite (IH (Some c) (l0 ++ take limit rest) (drop limit rest)).
  - cbn. by rewrite take_drop.
  - by rewrite <- app_assoc, take_drop.
  - by rewrite last_app, El.
  - rewrite length_drop. lia.
Qed.

(** [C34] Paging through the tree is complete: with no fault and no deadline, pages of any
    positive limit, each resumed at the last cursor of the one before, come to an end and
    together list every leaf of the namespace once, in strictly increasing order of the
    cursors, every entry of the depth of the runs among them; that a page takes only
    [limit + 2] names of each folder makes no difference. *)
Theorem pages_cover_the_tree cutoff limit s :
  let t := nodes (files s) in
  (0 < limit)%nat → tree_ok t → faults (files s) = [] → checks_left s = None →
  pages cutoff limit (Datatypes.S (length (leaf_cursors t))) None s = Some (leaf_cursors t) ∧
  StronglySorted before (leaf_cursors t) ∧
  ∀ p j r, is_Some (t !! [p; j; r]) → [p; j; r] ∈ leaf_cursors t.
Proof.
  intros t Hlim Ht Hf Hd. split_and!; [|apply cursors_sorted|].
  - apply (pages_rest _ _ _ _ _ []); auto.
  - intros p j r [n Hn]. apply list_elem_of_fmap. exists [p; j; r]. split; [done|]. by apply (runs_are_leaves t [] [p; j; r] n).
Qed.
End paging.

(** ** At a concrete input *)

Lemma pages_cover_the_tree_witness :
  pages 60 1 4 None littered = Some [["p"; "n"; "old"]; ["p"; "n"; "r1"]; ["q"; ""; ""]] ∧
  leaf_cursors (nodes (files littered)) = [["p"; "n"; "old"]; ["p"; "n"; "r1"]; ["q"; ""; ""]].
Proof.
  assert (leaf_cursors (nodes (files littered)) = [["p"; "n"; "old"]; ["p"; "n"; "r1"]; ["q"; ""; ""]]) as E by by vm_compute.
  split; [|exact E].
  pose proof (proj1 (pages_cover_the_tree 60 1 littered (le_n 1) (proj1 (proj1 littered_kept)) eq_refl eq_refl)) as Hp.
  rewrite E in Hp. exact Hp.
Defined.
