(* ===== verification/Worker.v ===== *)
(** * The worker's task ([queue/worker.py], [queue/run_lifecycle.py])

    [scrape_task]: load the configuration, claim the run, work on its targets under a
    heartbeat, save the result, finish the run; and the handlers for every way in which
    this can stop. The procedures are the source's coroutines, call by call; [task] is
    what they read and write. The work on the targets is an arbitrary sequence of
    activity checks, budget reservations and error records ([target_action]), with an
    arbitrary outcome. Metrics, log lines and the redaction context are left out. *)

From S2P Require Import Prelude.
From S2P Require Import Text.
From S2P Require Import Budget.
From S2P Require Import Envelope.
From S2P Require Import Rows.
From S2P Require Import JobDb.
From S2P Require Import JobModel.
From S2P Require Import Json.
From S2P Require Import Redaction.
From S2P Require Import SensitiveData.
From S2P Require Import Outbox.
From S2P Require Import Payload.
From S2P Require Import JobStore.
From S2P Require Import JobRuns.
From S2P Require Import System.
From S2P Require Import Samples.
From S2P Require Import Proc.
From S2P Require Import Models.
Open Scope Z_scope.

(** What the worker needs of the result store, whose calls may fail: a saved artifact is
    there. *)
Inductive failure := OverBudget (e : Budget.BudgetExceeded) | OtherFailure (type : string).

Class ResultStore (R : Type) := {
  save_result : string → string → list (string * json) → JobStatus → Z → option Z → prog R failure SaveResultMeta;
  delete_result : string → string → prog R failure bool;
  stored : string → string → R → Prop;
  saved_is_stored job run doc s n limit r m :
    (save_result job run doc s n limit r).1 = Ok m → stored job run (save_result job run doc s n limit r).2;
}.

Record JobExecutionContext := {
  x_config : ScrapeConfig;
  x_config_hash : string;
  x_job : Job;
  x_started_at : Z;
  x_run_id : string;
}.

(** The stores and the clock, the budget, and the variables of [scrape_task]: its context,
    its heartbeat ([beating] while the heartbeat's task runs, [lost_reason] once it gave
    up), and the [completed_at] it gave to [finalize_owned_run]. [ours] is a history
    variable: this task's claim succeeded. *)
Record task (R : Type) := {
  service : world;
  now : Z;
  results : R;
  error_log : list ErrorRecord;
  budget : option Budget.RunBudget;
  context : option JobExecutionContext;
  heartbeat : bool;
  beating : bool;
  lost_reason : option string;
  finalized_at : option Z;
  ours : bool;
}.
Arguments service {R}. Arguments now {R}. Arguments results {R}. Arguments error_log {R}.
Arguments budget {R}. Arguments context {R}. Arguments heartbeat {R}. Arguments beating {R}.
Arguments lost_reason {R}. Arguments finalized_at {R}. Arguments ours {R}.

Section setters.
Context {R : Type}.
Implicit Type s : task R.
Definition set_service (v : world) s : task R :=
  {| service := v; now := now s; results := results s; error_log := error_log s; budget := budget s;
     context := context s; heartbeat := heartbeat s; beating := beating s;
     lost_reason := lost_reason s; finalized_at := finalized_at s; ours := ours s |}.
Definition set_results (v : R) s : task R :=
  {| service := service s; now := now s; results := v; error_log := error_log s; budget := budget s;
     context := context s; heartbeat := heartbeat s; beating := beating s;
     lost_reason := lost_reason s; finalized_at := finalized_at s; ours := ours s |}.
Definition set_error_log (v : list ErrorRecord) s : task R :=
  {| service := service s; now := now s; results := results s; error_log := v; budget := budget s;
     context := context s; heartbeat := heartbeat s; beating := beating s;
     lost_reason := lost_reason s; finalized_at := finalized_at s; ours := ours s |}.
Definition set_budget (v : option Budget.RunBudget) s : task R :=
  {| service := service s; now := now s; results := results s; error_log := error_log s; budget := v;
     context := context s; heartbeat := heartbeat s; beating := beating s;
     lost_reason := lost_reason s; finalized_at := finalized_at s; ours := ours s |}.
Definition set_context (v : option JobExecutionContext) s : task R :=
  {| service := service s; now := now s; results := results s; error_log := error_log s;
     budget := budget s; context := v; heartbeat := heartbeat s; beating := beating s;
     lost_reason := lost_reason s; finalized_at := finalized_at s; ours := ours s |}.
Definition set_heartbeat (v : bool) s : task R :=
  {| service := service s; now := now s; results := results s; error_log := error_log s;
     budget := budget s; context := context s; heartbeat := v; beating := beating s;
     lost_reason := lost_reason s; finalized_at := finalized_at s; ours := ours s |}.
Definition set_beating (v : bool) s : task R :=
  {| service := service s; now := now s; results := results s; error_log := error_log s;
     budget := budget s; context := context s; heartbeat := heartbeat s; beating := v;
     lost_reason := lost_reason s; finalized_at := finalized_at s; ours := ours s |}.
Definition set_finalized_at (v : option Z) s : task R :=
  {| service := service s; now := now s; results := results s; error_log := error_log s;
     budget := budget s; context := context s; heartbeat := heartbeat s; beating := beating s;
     lost_reason := lost_reason s; finalized_at := v; ours := ours s |}.
Definition set_ours (v : bool) s : task R :=
  {| service := service s; now := now s; results := results s; error_log := error_log s;
     budget := budget s; context := context s; heartbeat := heartbeat s; beating := beating s;
     lost_reason := lost_reason s; finalized_at := finalized_at s; ours := v |}.
End setters.

(** What the work on the targets does to the run. A target that exceeds the budget still
    flushes its pending error records. *)
Inductive target_action :=
| Checkpoint (name : string)
| Reserve (m : Budget.budget_prog unit) (pending : list ErrorRecord)
| FlushErrors (records : list ErrorRecord).

Definition in_failure {A} (o : outcome failure A) : outcome exn A :=
  match o with
  | Ok a => Ok a
  | Raise (OverBudget e) => Raise (BudgetStop e)
  | Raise (OtherFailure t) => Raise (Broken t)
  end.

(** [except RunOwnershipError], and [except (RunHeartbeatLeaseLost, RunOwnershipError)]. *)
Definition is_run_ownership_error (e : exn) : bool :=
  match e with InStore (RunOwnershipError _ _ _) => true | _ => false end.
Definition is_ownership_error (e : exn) : bool :=
  match e with LeaseLost _ => true | e => is_run_ownership_error e end.

(** The settings of the service, and what the worker takes from elsewhere: YAML, paths, the
    calendar, clocks, random ids and nonces, the redaction of one URL and the document of a
    result. *)
Class Deployment := {
  nonces : entropy;
  admission_limits : admission;
  running_heartbeat_timeout : Z;
  time_unit : Z;
  budget_limits : Budget.budget_settings;
  has_dispatcher : bool;
  load_config : string → outcome string ScrapeConfig;
  build_run_paths : string → string → string → outcome string unit;
  isoformat : Z → string;
  format_number : Z → string;
  monotonic : nat → Z;
  generate_run_id : string;
  redact_userinfo_in_url : text → text;
  materialize : JobExecutionContext → list TargetResult → JobStatus → list string → bool →
                prog Budget.RunBudget failure (list (string * json));
  annotate : JobExecutionContext → Budget.RunBudget → list (string * json) → list (string * json);
}.

Section worker.
Context `{Vault} `{JsonText} {R : Type} `{ResultStore R} `{Deployment}.
Implicit Types (s : task R) (jid rid : string) (c : JobExecutionContext).

Abbreviation procedure := (proc (task R)).

(** ** Calls *)

Definition on_jobs {A} (m : store A) (ids : gset string) : prog (task R) exn A := λ s,
  let r := m (db (service s)) in
  (in_store r.1, set_service {| db := r.2; used := used (service s) ∪ ids |} s).
Definition job_store {A} (m : store A) : procedure A := await JobChannel (on_jobs m ∅).

Definition on_budget {A} (m : Budget.budget_prog A) : prog (task R) exn A := λ s,
  match budget s with
  | Some b => let r := m b in (in_budget r.1, set_budget (Some r.2) s)
  | None => (Raise (Broken "AttributeError"), s)
  end.
Definition check_deadline : procedure unit := local (on_budget (Budget.check_deadline monotonic)).

Definition utc_now : procedure Z := local (λ s, (Ok (now s), s)).
Definition assign (f : task R → task R) : procedure unit := local (λ s, (Ok tt, f s)).
Definition get {A} (f : task R → A) : procedure A := local (λ s, (Ok (f s), s)).
Definition pure {A} (o : outcome string A) : prog (task R) exn A := λ s,
  (match o with Ok a => Ok a | Raise e => Raise (Broken e) end, s).

(** [RunActivityGuard.checkpoint] *)
Definition checkpoint jid rid (name : string) : procedure unit :=
  let* active := job_store (λ d, (Ok (run_is_active jid rid d), d)) in
  if (active : bool) then Return tt
  else Throw (InStore (RunOwnershipError ("cancellation checkpoint " +:+ name) jid rid)).

(** [RunHeartbeat.start], [ensure_owned] and [stop]; [stop] also swallows a cancellation of
    the caller. *)
Definition start_heartbeat : procedure unit := assign (λ s, set_beating true (set_heartbeat true s)).
Definition ensure_owned : procedure unit :=
  let* lost := get lost_reason in
  match lost with Some reason => Throw (LeaseLost reason) | None => Return tt end.
Definition stop_heartbeat : procedure unit :=
  let* running := get beating in
  if (running : bool) then
    do* assign (set_beating false) in
    attempt (await OtherChannel (λ s, (Ok tt, s))) (λ _, Return tt)
  else Return tt.

(** ** Errors and webhooks *)

Definition count_errors_for_run rid (log : list ErrorRecord) : Z :=
  Z.of_nat (length (filter (λ e, er_run_id e = rid) log)).
Definition count_errors rid : procedure Z :=
  await ErrorChannel (λ s, (Ok (count_errors_for_run rid (error_log s)), s)).
Definition log_errors (l : list ErrorRecord) : procedure unit :=
  await ErrorChannel (λ s, (Ok tt, set_error_log (error_log s ++ l) s)).

Definition dispatch_webhook (config : ScrapeConfig) (delivery : option WebhookDeliveryCreate) : procedure unit :=
  match cfg_webhook config, delivery with
  | Some _, Some _ =>
      if has_dispatcher then except (await OtherChannel (λ s, (Ok tt, s))) (λ _, Return tt) else Return tt
  | _, _ => Return tt
  end.

Definition terminal_delivery c jid (status : JobStatus) (path : option string) (count : option Z)
    (errors completed_at : Z) : option WebhookDeliveryCreate :=
  build_terminal_webhook_delivery isoformat redact_userinfo_in_url (resolved_secret_values (x_config c))
    (x_config c) jid status (x_run_id c) path count errors (x_started_at c) completed_at (Some (x_config_hash c)).

(** ** The end of a run that did not finish *)

Definition _error_count_snapshot (run_id : option string) : procedure Z :=
  match run_id with
  | None => Return 0
  | Some rid => except (count_errors rid) (λ _, Return 0)
  end.

Definition handle_crash jid (run_id : option string) (failed_at : Z) (heartbeat_cutoff : option Z)
    (error_count : Z) (delivery : option WebhookDeliveryCreate) : procedure bool :=
  match run_id with
  | None => Return false
  | Some rid =>
      except (do* job_store (fail_owned_run nonces jid rid failed_at heartbeat_cutoff error_count delivery) in
              Return true)
             (λ _, Return false)
  end.

Definition _handle_execution_crash jid (run_id : option string) : procedure unit :=
  let* c := get context in
  let* failed_at := utc_now in
  let* error_count := _error_count_snapshot run_id in
  let delivery := match c, run_id with
                  | Some c, Some _ => terminal_delivery c jid failed None (Some 0) error_count failed_at
                  | _, _ => None
                  end in
  let* t := utc_now in
  let* committed := handle_crash jid run_id failed_at
                      (match c with Some _ => Some (t - running_heartbeat_timeout) | None => None end)
                      error_count delivery in
  match c with
  | Some c => if (committed : bool) then dispatch_webhook (x_config c) delivery else Return tt
  | None => Return tt
  end.

Definition _run_finalized_by_owner jid rid : procedure bool :=
  attempt (job_store (get_job_run jid rid)) (λ o,
    match o with
    | Raise e => if is_cancelled e then Throw e else Return false
    | Ok None => Return false
    | Ok (Some r) =>
        let* c := get context in
        let* finalized := get finalized_at in
        let owner_completed_at := match c with Some _ => finalized | None => None end in
        Return (bool_decide (r_status r = complete) || bool_decide (r_status r = partial) ||
                match owner_completed_at with
                | Some t => bool_decide (r_completed_at r = Some t)
                | None => false
                end)
    end).

Definition _discard_unowned_result jid (run_id : option string) : procedure unit :=
  match run_id with
  | None => Return tt
  | Some rid =>
      let* finalized := _run_finalized_by_owner jid rid in
      if (finalized : bool) then Return tt
      else except (do* await ResultChannel (λ s, let r := delete_result jid rid (results s) in
                                                 (in_failure r.1, set_results r.2 s)) in
                   Return tt)
                  (λ _, Return tt)
  end.

(** [active_run_id]: the delivery's run id until the context is loaded. *)
Definition active_run_id (run_id : option string) s : option string :=
  match context s with Some c => Some (x_run_id c) | None => run_id end.

Definition _handle_worker_cancellation jid (delivered : option string) : procedure bool :=
  let* run_id := get (active_run_id delivered) in
  let* lease_lost := get (λ s, heartbeat s && bool_decide (is_Some (lost_reason s))) in
  do* stop_heartbeat in
  if (lease_lost : bool) then
    do* _discard_unowned_result jid run_id in Return false
  else
    let* active := match run_id with
                   | None => Return false
                   | Some rid => except (job_store (λ d, (Ok (run_is_active jid rid d), d))) (λ _, Return true)
                   end in
    do* _discard_unowned_result jid run_id in
    if negb active then Return true
    else do* shield (_handle_execution_crash jid run_id) in Return true.

(** ** Loading and claiming *)

Definition _run_superseded (job : Job) rid : bool :=
  match current_run_id job with Some r => negb (bool_decide (r = rid)) | None => false end.

Definition _should_skip_delivery (job : Job) rid : bool :=
  if _run_superseded job rid then true
  else match status job with
       | complete | partial | failed | cancelled | deleting => true
       | running => true
       | queued => false
       end.

(** [run_id or job.current_run_id or generate_run_id()] *)
Definition effective_run_id (run_id : option string) (job : Job) : string :=
  or_text run_id (or_text (current_run_id job) generate_run_id).

(** The run's budget, shortened to the submission's deadline. *)
Definition run_budget (config : ScrapeConfig) (started_at : Z) (reading : nat) : Budget.RunBudget :=
  let b := Budget.from_settings monotonic time_unit budget_limits (Some (cfg_limits config)) reading in
  match cfg_deadline_at config with
  | None => b
  | Some deadline =>
      let duration := Z.min (Budget.max_duration_seconds (Budget.lim b)) (Z.max 0 (deadline - started_at)) in
      let l := Budget.lim b in
      {| Budget.lim :=
           {| Budget.max_duration_seconds := duration; Budget.max_requests := Budget.max_requests l;
              Budget.max_fetched_bytes := Budget.max_fetched_bytes l;
              Budget.max_extracted_records := Budget.max_extracted_records l;
              Budget.max_serialized_result_bytes := Budget.max_serialized_result_bytes l;
              Budget.max_browser_debug_bytes := Budget.max_browser_debug_bytes l |};
         Budget.started_monotonic := Budget.started_monotonic b;
         Budget.deadline_monotonic := Budget.started_monotonic b + duration;
         Budget._fetched_bytes := Budget._fetched_bytes b; Budget._requests := Budget._requests b;
         Budget._extracted_records := Budget._extracted_records b;
         Budget._browser_debug_bytes := Budget._browser_debug_bytes b;
         Budget._estimated_result_bytes := Budget._estimated_result_bytes b;
         Budget._exhausted := Budget._exhausted b; Budget.readings := Budget.readings b |}
  end.

Definition _load_job_execution_context jid (config_yaml : string) (run_id : option string) :
    procedure (option JobExecutionContext) :=
  let* job := job_store (get_job jid) in
  let rid := effective_run_id run_id job in
  if _should_skip_delivery job rid then Return None
  else
    let* config := await OtherChannel (pure (load_config config_yaml)) in
    do* local (pure (build_run_paths (cfg_project config) (name job) rid)) in
    let* started_at := utc_now in
    do* assign (set_budget (Some (run_budget config started_at 0))) in
    Return (Some {| x_config := config; x_config_hash := sha256 config_yaml; x_job := job;
                    x_started_at := started_at; x_run_id := rid |}).

(** [claim_run], and the history variable. *)
Definition claim (rid jid trigger hash : string) (started_at : Z) : prog (task R) exn bool := λ s,
  let r := on_jobs (claim_run nonces rid jid trigger hash started_at) ∅ s in
  (r.1, match r.1 with Ok true => set_ours true r.2 | _ => r.2 end).

Definition _mark_run_started c jid (trigger : string) : procedure bool :=
  let* queued := match current_run_id (x_job c) with
                 | None => await JobChannel (on_jobs (queue_run nonces admission_limits jid queued None (x_run_id c) trigger
                             (x_started_at c) None None false) {[ x_run_id c ]})
                 | Some _ => Return true
                 end in
  if negb queued then Return false
  else
    let* claimed := await JobChannel (claim (x_run_id c) jid trigger (x_config_hash c) (x_started_at c)) in
    if negb claimed then Return false
    else do* check_deadline in Return true.

(** ** The work on the targets *)

Definition _flush_errors jid rid (l : list ErrorRecord) : procedure unit :=
  match l with
  | [] => Return tt
  | _ =>
      do* checkpoint jid rid "before_error_flush" in
      do* log_errors l in
      checkpoint jid rid "after_error_flush"
  end.

Definition act jid rid (a : target_action) : procedure unit :=
  match a with
  | Checkpoint name => checkpoint jid rid name
  | Reserve m pending => except (local (on_budget m)) (λ e, do* _flush_errors jid rid pending in Throw e)
  | FlushErrors l => _flush_errors jid rid l
  end.

Fixpoint _process_all_targets jid rid (script : list target_action)
    (outcome : outcome string (list TargetResult)) : procedure (list TargetResult) :=
  match script with
  | [] => local (pure outcome)
  | a :: script => do* act jid rid a in _process_all_targets jid rid script outcome
  end.

(** ** The result *)

Definition _collect_result_payload (l : list TargetResult) : list json * list string :=
  (flat_map tr_data l, flat_map tr_errors l).

Definition failed_count (l : list TargetResult) : nat := length (filter (λ r, is_failed r = true) l).

Definition _determine_final_status (config : ScrapeConfig) (all_results : list TargetResult)
    (flat_data : list json) : JobStatus :=
  match cfg_fail_strategy config with
  | fs_all_or_nothing => if (0 <? failed_count all_results)%nat then failed else complete
  | fs_continue => match flat_data with [] => failed | _ => complete end
  | fs_partial =>
      if (failed_count all_results =? length all_results)%nat || bool_decide (flat_data = [])
      then failed
      else if (0 <? failed_count all_results)%nat then partial
      else complete
  end.

Record PersistedJobResult := {
  p_final_status : JobStatus;
  p_flat_data : list json;
  p_all_errors : list string;
  p_save_meta : SaveResultMeta;
}.

(** [save_run_result]: the document names its job, its run and the configuration. *)
Definition save_run_result c jid (doc : list (string * json)) (s : JobStatus) (record_count : Z)
    (limit : option Z) : procedure SaveResultMeta :=
  let doc := set_member "config_hash" (JString (x_config_hash c))
               (set_member "run_id" (JString (x_run_id c)) (set_member "job_id" (JString jid) doc)) in
  await ResultChannel (λ s', let r := save_result jid (x_run_id c) doc s record_count limit (results s') in
                             (in_failure r.1, set_results r.2 s')).

Definition _persist_job_results c jid (all_results : list TargetResult) : procedure PersistedJobResult :=
  do* checkpoint jid (x_run_id c) "before_result_persistence" in
  do* check_deadline in
  let '(flat_data, all_errors) := _collect_result_payload all_results in
  let final_status := _determine_final_status (x_config c) all_results flat_data in
  let publish_results := negb (bool_decide (final_status = failed) &&
                               bool_decide (cfg_fail_strategy (x_config c) = fs_all_or_nothing)) in
  let flat_data := if publish_results then flat_data else [] in
  let* doc := await OtherChannel (λ s,
    match budget s with
    | Some b => let r := materialize c all_results final_status all_errors publish_results b in
                (in_failure r.1, set_budget (Some r.2) s)
    | None => (Raise (Broken "AttributeError"), s)
    end) in
  do* check_deadline in
  let* doc := get (λ s, match budget s with Some b => annotate c b doc | None => doc end) in
  let* meta := save_run_result c jid doc final_status (Z.of_nat (length flat_data)) None in
  do* checkpoint jid (x_run_id c) "after_result_persistence" in
  Return {| p_final_status := final_status; p_flat_data := flat_data; p_all_errors := all_errors;
            p_save_meta := meta |}.

Definition _finalize_job_execution c jid (p : PersistedJobResult) : procedure unit :=
  do* checkpoint jid (x_run_id c) "before_terminal_finalization" in
  let* completed_at := utc_now in
  let* error_count := count_errors (x_run_id c) in
  let delivery := terminal_delivery c jid (p_final_status p) (Some (sm_file_path (p_save_meta p)))
                    (sm_record_count (p_save_meta p)) error_count completed_at in
  do* assign (set_finalized_at (Some completed_at)) in
  do* job_store (finalize_owned_run nonces jid (x_run_id c) (p_final_status p)
                   (Z.of_nat (length (p_flat_data p))) error_count completed_at
                   (completed_at - running_heartbeat_timeout) delivery) in
  dispatch_webhook (x_config c) delivery.

(** ** A run that hits one of its limits *)

Definition limit_value (n : Budget.BudgetLimitName) : string :=
  match n with
  | Budget.run_duration_seconds => "run_duration_seconds"
  | Budget.requests => "requests"
  | Budget.fetched_bytes => "fetched_bytes"
  | Budget.extracted_records => "extracted_records"
  | Budget.serialized_result_bytes => "serialized_result_bytes"
  | Budget.browser_debug_bytes => "browser_debug_bytes"
  end.

(** [str(error)] *)
Definition budget_message (e : Budget.BudgetExceeded) : string :=
  "Run budget exceeded: " +:+ limit_value (Budget.limit_name e) +:+
  " configured=" +:+ format_number (Budget.configured_limit e) +:+
  " observed=" +:+ format_number (Budget.observed_amount e).

Definition budget_error_record c jid (e : Budget.BudgetExceeded) (recorded_at : Z) : ErrorRecord :=
  {| er_job_id := jid; er_run_id := x_run_id c; er_project := cfg_project (x_config c);
     er_target_url := ""; er_attempt := 0; er_timestamp := recorded_at; er_error_type := budget_exceeded; er_http_status := None;
     er_fetcher_used := "service_budget"; er_error_message := Some (budget_message e);
     er_selectors_matched := None; er_budget := Some e; er_action_taken := act_fail; er_resolved := false |}.

Definition budget_document c jid (e : Budget.BudgetExceeded) (completed_at : Z) : list (string * json) :=
  [("project", JString (cfg_project (x_config c))); ("name", JString (cfg_name (x_config c)));
   ("job_id", JString jid); ("status", JString (status_value failed));
   ("completed_at", JString (isoformat completed_at)); ("errors", JArray [JString (budget_message e)]);
   ("targets", JArray []);
   ("budget_error", JObject [("limit_name", JString (limit_value (Budget.limit_name e)));
                             ("configured_limit", JNumber (format_number (Budget.configured_limit e)));
                             ("observed_amount", JNumber (format_number (Budget.observed_amount e)))]);
   ("results", match cfg_group_by (x_config c) with by_merge => JArray [] | by_target => JObject [] end)].

(** What the save of the failed run's document came to. *)
Inductive saved_failure := Saved (meta : SaveResultMeta) | NotSaved | OwnershipLost.

Definition save_budget_result c jid (e : Budget.BudgetExceeded) (completed_at : Z) : procedure saved_failure :=
  let* b := get budget in
  let doc := budget_document c jid e completed_at in
  let doc := match b with Some b => annotate c b doc | None => doc end in
  let limit := option_map (λ b, Budget.max_serialized_result_bytes (Budget.lim b)) b in
  attempt (do* checkpoint jid (x_run_id c) "before_budget_result_persistence" in
           let* meta := save_run_result c jid doc failed 0 limit in
           attempt (checkpoint jid (x_run_id c) "after_budget_result_persistence") (λ o,
             match o with
             | Ok _ => Return (Saved meta)
             | Raise e => if is_cancelled e || is_run_ownership_error e then Throw e else Return (Saved meta)
             end))
    (λ o, match o with
          | Ok x => Return x
          | Raise Cancelled => Throw Cancelled
          | Raise e => if is_run_ownership_error e then Return OwnershipLost else Return NotSaved
          end).

Definition _handle_budget_exhaustion c jid (e : Budget.BudgetExceeded) : procedure unit :=
  let discard := _discard_unowned_result jid (Some (x_run_id c)) in
  attempt (checkpoint jid (x_run_id c) "before_budget_failure_persistence") (λ o,
    match o with
    | Raise x => if is_run_ownership_error x then discard else Throw x
    | Ok _ =>
        do* except (do* checkpoint jid (x_run_id c) "before_budget_error_flush" in
                    let* recorded_at := utc_now in
                    log_errors [budget_error_record c jid e recorded_at])
                   (λ _, Return tt) in
        let* completed_at := utc_now in
        let* saved := save_budget_result c jid e completed_at in
        match saved with
        | OwnershipLost => discard
        | _ =>
            let* lease_lost := get (λ s, heartbeat s && bool_decide (is_Some (lost_reason s))) in
            do* stop_heartbeat in
            if (lease_lost : bool) then discard
            else
              let* error_count := _error_count_snapshot (Some (x_run_id c)) in
              let delivery := terminal_delivery c jid failed
                (match saved with Saved m => Some (sm_file_path m) | _ => None end)
                (match saved with Saved m => sm_record_count m | _ => Some 0 end)
                error_count completed_at in
              do* assign (set_finalized_at (Some completed_at)) in
              attempt (job_store (finalize_owned_run nonces jid (x_run_id c) failed 0 error_count completed_at
                                    (completed_at - running_heartbeat_timeout) delivery)) (λ o,
                match o with
                | Ok _ => dispatch_webhook (x_config c) delivery
                | Raise Cancelled => Throw Cancelled
                | Raise x => if is_run_ownership_error x then discard
                             else do* discard in _handle_execution_crash jid (Some (x_run_id c))
                end)
        end
    end).

Definition _handle_budget_stop jid (delivered : option string) (e : Budget.BudgetExceeded) : procedure unit :=
  let* c := get context in
  match c with
  | None => _handle_execution_crash jid delivered
  | Some c =>
      except (_handle_budget_exhaustion c jid e)
        (λ _, do* stop_heartbeat in
              do* _discard_unowned_result jid (Some (x_run_id c)) in
              _handle_execution_crash jid (Some (x_run_id c)))
  end.

(** ** The task *)

Definition run_job jid (config_yaml : string) (run_id : option string) (trigger : string)
    (script : list target_action) (targets : outcome string (list TargetResult)) : procedure unit :=
  let* c := _load_job_execution_context jid config_yaml run_id in
  match c with
  | None => Return tt
  | Some c =>
      do* assign (set_context (Some c)) in
      let* claimed := _mark_run_started c jid trigger in
      if negb claimed then Return tt
      else
        do* start_heartbeat in
        do* checkpoint jid (x_run_id c) "before_targets" in
        let* all_results := _process_all_targets jid (x_run_id c) script targets in
        let* persisted := _persist_job_results c jid all_results in
        do* ensure_owned in
        do* stop_heartbeat in
        _finalize_job_execution c jid persisted
  end.

(** A cancellation inside a handler goes to the cancellation handler. *)
Definition on_cancellation jid (run_id : option string) : procedure unit :=
  let* propagate := _handle_worker_cancellation jid run_id in
  if (propagate : bool) then Throw Cancelled else Return tt.

Definition or_cancelled jid (run_id : option string) (p : procedure unit) : procedure unit :=
  attempt p (λ o, match o with
                  | Raise Cancelled => on_cancellation jid run_id
                  | o => of_outcome o
                  end).

Definition on_exception jid (run_id : option string) (e : exn) : procedure unit :=
  match e with
  | BudgetStop b => or_cancelled jid run_id (_handle_budget_stop jid run_id b)
  | Cancelled => on_cancellation jid run_id
  | _ =>
      let* active := get (active_run_id run_id) in
      if is_ownership_error e then
        do* stop_heartbeat in
        _discard_unowned_result jid active
      else
        or_cancelled jid run_id (
          do* stop_heartbeat in
          do* _discard_unowned_result jid active in
          _handle_execution_crash jid active)
  end.

Definition scrape_task jid (config_yaml : string) (run_id : option string) (trigger : string)
    (script : list target_action) (targets : outcome string (list TargetResult)) : procedure unit :=
  attempt
    (attempt (run_job jid config_yaml run_id trigger script targets) (λ o,
       match o with
       | Ok _ => Return tt
       | Raise e => on_exception jid run_id e
       end))
    (λ o, do* stop_heartbeat in of_outcome o).
Lemma on_jobs_read {A} (m : store A) s : (m (db (service s))).2 = db (service s) → (on_jobs m ∅ s).2 = s.
Proof. intros E. destruct s as [w]. unfold on_jobs. cbn in *. rewrite E, union_empty_r_L. by destruct w. Qed.
Lemma effective_is rid job : rid ≠ "" → effective_run_id (Some rid) job = rid.
Proof. intros Hr. unfold effective_run_id. cbn. by rewrite bool_decide_false. Qed.
End worker.

(** * A sample task

    A deployment, a result store and a worker's task for the queued run of [Samples]. *)

Definition sample_webhook : WebhookConfig :=
  {| hook_url := "https://hooks.example/x"; hook_headers := sample_headers; hook_timeout := 10;
     hook_on := ["complete"; "failed"] |}.

Definition sample_config : ScrapeConfig := {|
  cfg_project := "p"; cfg_name := "n"; cfg_targets := [{| t_url := "https://a.example/"; t_fetcher := basic; t_paginated := false |}];
  cfg_priority := "normal"; cfg_mode := mode_async; cfg_fail_strategy := fs_partial; cfg_page_cache := cache_off; cfg_deadline_at := None;
  cfg_limits := {| Budget.x_max_requests := Budget.SMissing; Budget.x_max_fetched_bytes := Budget.SMissing;
                   Budget.x_max_extracted_records := Budget.SMissing;
                   Budget.x_max_serialized_result_bytes := Budget.SMissing |};
  cfg_group_by := by_target; cfg_webhook := Some sample_webhook; resolved_secret_values := [txt "hunter/2"] |}.

(** Saved artifacts, by job and run. *)
Definition sample_save (jid rid : string) (doc : list (string * json)) (s : JobStatus) (n : Z) (limit : option Z) :
    prog (gset (string * string)) failure SaveResultMeta := λ r,
  (Ok {| sm_run_id := rid; sm_file_path := "/results/r"; sm_record_count := Some n; sm_serialized_bytes := 100 |},
   {[ (jid, rid) ]} ∪ r).
#[export] Program Instance sample_results : ResultStore (gset (string * string)) := {|
  save_result := sample_save;
  delete_result jid rid := λ r, (Ok true, r ∖ {[ (jid, rid) ]});
  stored jid rid r := (jid, rid) ∈ r |}.
Next Obligation. intros job run doc s n limit r m _. cbn. set_solver. Qed.

#[export] Instance sample_deployment : Deployment := {|
  nonces := u0; admission_limits := sample_adm; running_heartbeat_timeout := 300; time_unit := 1;
  budget_limits := {| Budget.s_run_max_requests := Budget.SMissing; Budget.s_run_max_duration_seconds := Budget.SMissing;
                      Budget.s_run_max_fetched_bytes := Budget.SMissing;
                      Budget.s_run_max_extracted_records := Budget.SMissing;
                      Budget.s_run_max_serialized_result_bytes := Budget.SMissing;
                      Budget.s_run_max_browser_debug_bytes := Budget.SMissing |};
  has_dispatcher := true;
  load_config y := if bool_decide (y = "project: p") then Ok sample_config else Raise "ValueError";
  build_run_paths _ _ _ := Ok tt;
  isoformat _ := "2026-01-01T00:00:00+00:00"; format_number _ := "1"; monotonic n := Z.of_nat n;
  generate_run_id := "r2"; redact_userinfo_in_url u := u;
  materialize _ _ _ _ _ := λ b, (Ok [], b);
  annotate _ _ doc := doc |}.

Definition sample_target : TargetResult := {|
  tr_url := "https://a.example/"; tr_status := success; tr_data := [JString "row"]; tr_errors := [];
  tr_pages_scraped := 1; tr_error_type := None; tr_http_status := Some 200; tr_error_detail := None;
  tr_debug := None; tr_stop_reason := "done"; tr_recorded_at := None |}.

(** The task of the delivery of run r1, before it starts. *)
Definition sample_task : task (gset (string * string)) := {|
  service := submitted; now := 20; results := ∅; error_log := []; budget := None; context := None;
  heartbeat := false; beating := false; lost_reason := None; finalized_at := None; ours := false |}.

Definition sample_scrape : proc (task (gset (string * string))) unit :=
  scrape_task "j1" "project: p" (Some "r1") "adhoc"
    [Checkpoint "target"; Reserve (Budget.reserve_requests (λ n, Z.of_nat n) 1) []] (Ok [sample_target]).

Definition run_of (s : task (gset (string * string))) : option JobStatus :=
  option_map r_status (job_runs (db (service s)) !! "r1").

(** Undisturbed it completes the run; cancelled while it works on the target it fails it. *)
Example sample_scrapes :
  run_of (exec sample_scrape sample_task).2 = Some complete ∧
  run_of (exec_cut 6 sample_scrape sample_task).2 = Some failed ∧
  ours (exec_cut 6 sample_scrape sample_task).2 = true.
Proof. vm_compute. repeat split. Qed.
