(* ===== verification/WorkerSpec.v ===== *)
(** * What the worker's task guarantees

    [scrape_task] runs while the rest of the service acts on the database, and is cancelled
    at any point. It does not leave behind a running run that it claimed (unless a
    trigger replaces that run meanwhile), and it never throws away the result of a run that
    is recorded as finished. *)

From S2P Require Import Prelude.
From S2P Require Import Text.
From S2P Require Import Budget.
From S2P Require Import Envelope.
From S2P Require Import Rows.
From S2P Require Import JobDb.
From S2P Require Import JobModel.
From S2P Require Import Tx.
From S2P Require Import Json.
From S2P Require Import Outbox.
From S2P Require Import JobTerminal.
From S2P Require Import JobRecovery.
From S2P Require Import SensitiveData.
From S2P Require Import JobStore.
From S2P Require Import TxStore.
From S2P Require Import JobRuns.
From S2P Require Import Lifecycle.
From S2P Require Import LifecycleStore.
From S2P Require Import RunSpec.
From S2P Require Import System.
From S2P Require Import Guarantees.
From S2P Require Import Ownership.
From S2P Require Import Proc.
From S2P Require Import Models.
From S2P Require Import Worker.
From S2P Require Import Samples.
Open Scope Z_scope.

(** A delivery that [finalize_owned_run] and [fail_owned_run] accept. *)
Definition acceptable (d : option WebhookDeliveryCreate) (jid rid : string) (s : JobStatus) : Prop :=
  check_delivery d jid rid s = Ok tt ∧ intent_matches d = true.

Section worker.
Context `{Vault} `{JsonText} {R : Type} `{ResultStore R} `{Deployment}.
Context (jid rid config_yaml : string) (fails : channel → Prop).
Implicit Types (s : task R) (w : world).

(** ** The rest of the service *)

Definition idle w : Prop := ∀ r, job_runs (db w) !! rid = Some r → r_status r ≠ running.

(** The event loop and the heartbeat keep up: a run this task claimed has a heartbeat
    within the timeout, and so has a run it is about to claim. *)
Definition timely s : Prop :=
  (∀ r, job_runs (db (service s)) !! rid = Some r → r_status r = running → ours s = true →
     opt_gtb (r_heartbeat_at r) (now s - running_heartbeat_timeout) = true) ∧
  (∀ c, context s = Some c → ours s = false → now s - running_heartbeat_timeout < x_started_at c).

(** What may happen between two steps of the task: store calls, the clock, other error
    records and results. The heartbeat gives up when the store rejects it. The job was
    submitted with a run. *)
Record env s s' : Prop := {
  e_service : rtc sstep (service s) (service s');
  e_vars : (context s', heartbeat s', beating s', finalized_at s', ours s') =
           (context s, heartbeat s, beating s, finalized_at s, ours s);
  e_lost : lost_reason s' = lost_reason s ∨ (heartbeat s = true ∧ idle (service s'));
  e_now : now s ≤ now s';
  e_timely : timely s';
  e_job j : jobs (db (service s')) !! jid = Some j → is_Some (j_current_run_id j);
}.

Record inv s : Prop := {
  i_reachable : rtc sstep initial (service s);
  i_timely : timely s;
  i_owned : ours s = true → owned jid rid (absw (service s));
  i_context c : context s = Some c → x_run_id c = rid ∧ load_config config_yaml = Ok (x_config c);
  i_lost : lost_reason s ≠ None → ours s = true ∧ ended rid (absw (service s));
  i_ours : ours s = true → context s ≠ None;
  i_heart : heartbeat s = true → ours s = true;
}.

Definition over s : Prop := ours s = true → ended rid (absw (service s)).

Lemma env_vars s s' : env s s' → context s' = context s ∧ ours s' = ours s ∧ heartbeat s' = heartbeat s.
Proof. intros E. pose proof (e_vars _ _ E) as Hv. by injection Hv. Qed.

Lemma inv_stable : stable env inv.
Proof.
  intros s s' [Hr Ht Ho Hc Hl Hx Hh] E. destruct (env_vars _ _ E) as (Ec & Eo & Eh).
  assert (rtc sstep initial (service s')) as Hr' by (etrans; [exact Hr|apply E]).
  constructor; rewrite ?Eo, ?Ec, ?Eh; try done.
  - apply E.
  - intros Hours. eapply owned_call; [by apply Ho|apply E].
  - intros Hne. destruct (e_lost _ _ E) as [El|[Hb Hi]].
    + rewrite El in Hne. destruct (Hl Hne). split; [done|]. eapply ended_call; [done|apply E].
    + split; [by apply Hh|]. apply (idle_run_ended _ jid); [done| |done].
      eapply owned_call; [by apply Ho, Hh|apply E].
Qed.

Lemma over_stable s s' : over s → env s s' → over s'.
Proof.
  intros Ho E. destruct (env_vars _ _ E) as (_ & Eo & _). intros Hours. rewrite Eo in Hours.
  eapply ended_call; [by apply Ho|apply E].
Qed.

Abbreviation triple := (triple env fails).
Context (jobs_work : ¬ fails JobChannel).
(** The redaction of the payload leaves the names of the job and the run alone. *)
Definition deliverable : Prop := ∀ config, load_config config_yaml = Ok config →
  names_clear (resolved_secret_values config) (resolved_secret_values config) jid rid.
Context (names_ok : deliverable).

Lemma delivers c st path count errors t :
  x_run_id c = rid → load_config config_yaml = Ok (x_config c) →
  acceptable (terminal_delivery c jid st path count errors t) jid rid st.
Proof.
  intros Hr Hl. destruct (terminal_delivery c jid st path count errors t) as [w|] eqn:E; [|done].
  unfold terminal_delivery in E. rewrite Hr in E. split; cbn.
  - eapply (proj1 (terminal_delivery_valid _ _ _ _ _ (names_ok _ Hl) _ _ _ _ _ _ _ _ _ _ eq_refl E)).
  - eapply (proj2 (terminal_delivery_valid _ _ _ _ _ (names_ok _ Hl) _ _ _ _ _ _ _ _ _ _ eq_refl E)).
Qed.

(** What the procedures keep; an ownership error means that the run is over. *)
Definition kept {A} (o : outcome exn A) s : Prop :=
  inv s ∧ (∀ e, o = Raise e → is_ownership_error e = true → over s).
Definition done_or {A} (o : outcome exn A) s : Prop := inv s ∧ (o = Raise Cancelled ∨ over s).

Lemma kept_ok {A} (a : A) s : inv s → kept (Ok a) s.
Proof. by split. Qed.
Lemma kept_other {A} e s : is_ownership_error e = false → inv s → kept (A := A) (Raise e) s.
Proof. intros He Hi. split; [done|]. intros e' [= <-]. by rewrite He. Qed.

Lemma keep_bind {A B} N (p : proc (task R) A) (k : A → proc (task R) B) :
  triple N inv p kept → (∀ a, triple N inv (k a) kept) → triple N inv (bind p k) kept.
Proof.
  intros Hp Hk. eapply triple_bind; [exact Hp| |].
  - intros a. eapply triple_weaken; [apply Hk|done| |done]. by intros s [? _].
  - intros e s [Hi He]. split; [done|]. intros e' [= <-]. by apply He.
Qed.

Lemma get_spec {A B} N (P : task R → Prop) (f : task R → A) (k : A → proc (task R) B) Q :
  (∀ a, triple N (λ s, P s ∧ f s = a) (k a) Q) → triple N P (bind (get f) k) Q.
Proof.
  intros Hk. eapply (triple_bind _ _ _ _ _ _ (λ o s, P s ∧ o = Ok (f s))).
  - by apply triple_local.
  - intros a. eapply triple_weaken; [apply (Hk a)|done| |done]. intros s [? [= ->]]. done.
  - by intros e s [_ ?].
Qed.

(** Calls that change no variable of the argument. *)
Lemma on_jobs_service {A} (m : store A) s : service (on_jobs m ∅ s).2 = call (service s) m.
Proof. unfold on_jobs, call. cbn. by rewrite union_empty_r_L. Qed.
Lemma in_store_calm {A} (o : outcome store_error A) : in_store o ≠ Raise Cancelled.
Proof. by destruct o. Qed.
Lemma in_budget_calm {A} (o : outcome Budget.budget_error A) : in_budget o ≠ Raise Cancelled.
Proof. by destruct o as [|[]]. Qed.
Lemma in_budget_other {A} (o : outcome Budget.budget_error A) e :
  in_budget o = Raise e → is_ownership_error e = false.
Proof. destruct o as [|[]]; cbn; intros; by simplify_eq. Qed.
Lemma in_failure_other {A} (o : outcome failure A) e :
  in_failure o = Raise e → is_ownership_error e = false.
Proof. destruct o as [|[]]; cbn; intros; by simplify_eq. Qed.
Lemma in_failure_calm {A} (o : outcome failure A) : in_failure o ≠ Raise Cancelled.
Proof. by destruct o as [|[]]. Qed.

Lemma read_spec {A} N (P : task R → Prop) (m : store A) Q :
  (∀ d, (m d).2 = d) → stable env P →
  (∀ s, P s → Q (in_store (m (db (service s))).1) s ∧ Q (Raise Cancelled) s) →
  triple N P (job_store m) Q.
Proof.
  intros Hm Hst HQ. apply triple_await; [done|..].
  - intros s Hs. rewrite on_jobs_read by done. split; [apply in_store_calm|]. by apply HQ.
  - intros s Hs _. rewrite on_jobs_read by done. split; by apply HQ.
  - intros s e Hs Hf. by destruct (jobs_work Hf).
Qed.

(** A call of another service that leaves the invariant alone. *)
Lemma other_spec {A} N (P : task R → Prop) (ch : channel) (m : prog (task R) exn A) Q :
  stable env P → (∀ s, P s → (m s).1 ≠ Raise Cancelled ∧ Q (m s).1 (m s).2) →
  (∀ s s' e, P s → (s' = s ∨ s' = (m s).2) → is_ownership_error e = false → Q (Raise e) s') →
  triple N P (await ch m) Q.
Proof. intros Hst Hok Hr. apply triple_await; [done|done|..]; intros; split; apply (Hr s); auto. Qed.

(** Assertions about the variables the invariant speaks of. *)
Definition same s s' : Prop :=
  (service s', now s', context s', ours s', lost_reason s', heartbeat s') =
  (service s, now s, context s, ours s, lost_reason s, heartbeat s).
Record plain (P : task R → Prop) : Prop := {
  pl_stable : stable env P;
  pl_same s s' : same s s' → P s → P s';
}.

Definition since (t : Z) s : Prop := inv s ∧ t ≤ now s.
Definition ended_inv s : Prop := inv s ∧ over s.

Lemma inv_plain : plain inv.
Proof.
  split; [apply inv_stable|]. intros s s' [= E1 E2 E3 E4 E5 E6] [Hr Ht Ho Hc Hl Hx Hh].
  constructor; unfold timely; rewrite ?E1, ?E2, ?E3, ?E4, ?E5, ?E6; done.
Qed.
Lemma since_plain t : plain (since t).
Proof.
  split.
  - intros s s' [Hi Ht] E. split; [by eapply inv_stable|]. pose proof (e_now _ _ E). lia.
  - intros s s' E [Hi Ht]. split; [by eapply (pl_same _ inv_plain s)|]. injection E as E1 E2 E3 E4 E5 E6. by rewrite E2.
Qed.

Lemma over_plain : plain over.
Proof.
  split; [exact over_stable|]. intros s s' [= E1 E2 E3 E4 E5 E6]. unfold over. by rewrite E1, E4.
Qed.
Lemma plain_and P P' : plain P → plain P' → plain (λ s, P s ∧ P' s).
Proof.
  intros [S1 E1] [S2 E2]. split.
  - intros s s' [? ?] E. split; [by eapply S1|by eapply S2].
  - intros s s' E [? ?]. split; [by eapply E1|by eapply E2].
Qed.

Lemma ended_plain : plain ended_inv.
Proof. apply (plain_and inv over); [apply inv_plain|apply over_plain]. Qed.

(** A checkpoint that refuses to go on shows that the run is over. *)
Definition or_over {A} (P : task R → Prop) (o : outcome exn A) s : Prop :=
  P s ∧ (∀ e, o = Raise e → is_ownership_error e = true → over s).

Lemma checkpoint_plain N P name : plain P → (∀ s, P s → inv s) →
  triple N P (checkpoint jid rid name) (or_over P).
Proof.
  intros HP Hinv. unfold checkpoint. eapply (triple_bind _ _ _ _ _ _
    (λ o s, P s ∧ (o = Ok false → over s) ∧ (o = Raise Cancelled ∨ is_ok o = true))).
  - apply read_spec; [done|apply HP|]. intros s Hs. cbn. split; split_and!; auto; try done.
    intros [= Ha] Hours. apply (inactive_ended _ jid); [by apply Hinv|by apply Hinv|done].
  - intros []; [apply triple_return|apply triple_throw; [done|]].
    + by intros s [Hi _].
    + intros s (Hi & Ho & _). split; [done|]. intros e _ _. by apply Ho.
  - intros e s (Hi & _ & [[= ->]|?]); [|done]. split; [done|]. by intros e [= <-].
Qed.

Lemma checkpoint_spec N name : triple N inv (checkpoint jid rid name) kept.
Proof. by apply checkpoint_plain; [apply inv_plain|]. Qed.

(** ** Calls that keep every plain assertion *)

Definition ok_or_cancelled {A} (P : task R → Prop) (o : outcome exn A) s : Prop :=
  P s ∧ (is_ok o = true ∨ o = Raise Cancelled).

Lemma plain_call {A} N P (ch : channel) (m : prog (task R) exn A) :
  plain P → (∀ s, (m s).1 ≠ Raise Cancelled) → (∀ s, same s (m s).2) →
  (∀ s e, (m s).1 = Raise e → is_ownership_error e = false) →
  triple N P (await ch m) (λ o s, P s ∧ ∀ e, o = Raise e → is_ownership_error e = false).
Proof.
  intros [Hst Hsame] Hc Hs He. apply other_spec; [done|..].
  - intros s HP. split_and!; [by apply Hc|by apply (Hsame s), HP|by apply He].
  - intros s s' e HP [->| ->] Hne; (split; [by eauto|]); by intros e' [= <-].
Qed.

Lemma quiet_call N P ch : plain P → triple N P (await ch (λ s, (Ok tt, s))) (λ o s, P s).
Proof.
  intros HP. eapply triple_weaken; [apply (plain_call N P ch)|done|done|]; try done. by intros o s [? _].
Qed.

Lemma stop_spec N P : plain P → triple N P stop_heartbeat (λ o s, P s ∧ o = Ok tt).
Proof.
  intros HP. unfold stop_heartbeat. apply get_spec. intros [].
  - eapply (triple_bind _ _ _ _ _ _ (λ o s, P s ∧ o = Ok tt)).
    + apply triple_local. intros s [Hs _]. split_and!; try done. by eapply (pl_same _ HP s).
    + intros a. eapply (triple_attempt _ _ _ _ _ _ (λ o s, P s)).
      * eapply triple_weaken; [by apply quiet_call|done| |done]. by intros s [? _].
      * intros. by apply triple_return.
      * intros. by apply triple_return.
      * intros N' _ n s Hn Hs. cbn. split; [done|]. by split.
    + by intros e s [_ ?].
  - apply triple_return. by intros s [? _].
Qed.

Lemma count_spec N P : plain P → triple N P (count_errors rid)
  (λ o s, P s ∧ ∀ e, o = Raise e → is_ownership_error e = false).
Proof. intros HP. by apply plain_call. Qed.

Lemma snapshot_spec N P : plain P →
  triple N P (_error_count_snapshot (Some rid)) (ok_or_cancelled P).
Proof.
  intros HP. eapply triple_except; [by apply (count_spec N P)|..].
  - intros a s [? _]. split; [done|by left].
  - intros e _. apply triple_return. intros s [? _]. split; [done|by left].
  - intros s [? _]. split; [done|by right].
Qed.

Lemma dispatch_spec N P config d : plain P → triple N P (dispatch_webhook config d) (ok_or_cancelled P).
Proof.
  intros HP. unfold dispatch_webhook.
  destruct (cfg_webhook config), d; try (apply triple_return; intros; split; [done|by left]).
  destruct has_dispatcher; [|apply triple_return; intros; split; [done|by left]].
  eapply triple_except; [by apply quiet_call|..].
  - intros a s ?. split; [done|by left].
  - intros e _. apply triple_return. intros s ?. split; [done|by left].
  - intros s ?. split; [done|by right].
Qed.

Lemma finalized_spec N P : plain P → triple N P (_run_finalized_by_owner jid rid) (ok_or_cancelled P).
Proof.
  intros HP. unfold _run_finalized_by_owner.
  eapply (triple_attempt _ _ _ _ _ _ (λ o s, P s)).
  - apply read_spec; [done|apply HP|by split].
  - intros [r|]; [|apply triple_return; intros; split; [done|by left]].
    apply get_spec. intros c. apply get_spec. intros f. apply triple_return.
    intros s [[Hs _] _]. split; [done|by left].
  - intros e Hne. destruct e; try done; apply triple_return; intros; (split; [done|by left]).
  - intros N' _. apply wtriple_throw. intros s Hs. split; [done|by right].
Qed.

Lemma discard_spec N P : plain P → triple N P (_discard_unowned_result jid (Some rid)) (ok_or_cancelled P).
Proof.
  intros HP. cbn [_discard_unowned_result]. eapply triple_bind; [by apply finalized_spec|..].
  - intros []; [apply triple_return; by intros s [? _]; split; [done|left]|].
    eapply (triple_except _ _ _ _ _ _ (λ o s, P s)).
    + eapply (triple_bind _ _ _ _ _ _ (λ o s, P s)).
      * eapply triple_weaken; [apply (plain_call N P)|done| |by intros o s [? _]]; try done.
        -- intros s. apply in_failure_calm.
        -- intros s e. cbn. by destruct (delete_result _ _ _).1 as [|[]]; intros [= <-].
        -- by intros s [? _].
      * intros a. apply triple_return. intros s Hs. exact Hs.
      * done.
    + intros a s ?. split; [done|by left].
    + intros e _. apply triple_return. intros s ?. split; [done|by left].
    + intros s ?. split; [done|by right].
  - intros e s [? [|[= ->]]]; [done|]. split; [done|by right].
Qed.

(** ** Calls that end the run *)

(** A store call that leaves the run ended, if it is this task's. *)
Lemma inv_ends s w' :
  inv s → sstep (service s) w' → over (set_service w' s) → inv (set_service w' s).
Proof.
  intros [Hr Ht Ho Hc Hl Hx Hh] St Hov.
  assert (rtc sstep initial w') as Hr' by by eapply rtc_r.
  constructor; cbn; try done.
  - split; [|by apply Ht]. cbn. intros r Hrun Hs Hours.
    by destruct (ended_not_running _ _ (Hov Hours) _ (absw_run _ _ _ Hrun)).
  - intros Hours. eapply owned_call; [by apply Ho|by apply rtc_once].
  - intros Hne. destruct (Hl Hne). split; [done|by apply Hov].
Qed.

Lemma ending_call N (P : task R → Prop) (m : store unit) :
  stable env P → (∀ s, P s → inv s) →
  (∀ s, P s → sstep (service s) (call (service s) m)) →
  (∀ s, P s → ours s = true → ended rid (absw (call (service s) m))) →
  triple N P (job_store m) done_or.
Proof.
  intros Hst Hinv Hstep Hend.
  assert (∀ s, P s → inv (on_jobs m ∅ s).2 ∧ over (on_jobs m ∅ s).2) as Hafter.
  { intros s Hs. assert ((on_jobs m ∅ s).2 = set_service (call (service s) m) s) as ->
      by (unfold on_jobs, call; cbn; by rewrite union_empty_r_L).
    assert (over (set_service (call (service s) m) s)) as Ho by by intros Hours; apply Hend.
    split; [|done]. by apply inv_ends; auto. }
  apply triple_await; [done|..].
  - intros s Hs. split; [apply in_store_calm|]. destruct (Hafter s Hs). by split; [|right].
  - intros s Hs _. split; (split; [|by left]); [by apply Hinv|by apply Hafter].
  - intros s e Hs Hf. by destruct (jobs_work Hf).
Qed.

(** The run's heartbeat is newer than a cutoff computed earlier. *)
Lemma fresh_since s t r :
  since t s → job_runs (db (service s)) !! rid = Some r → r_status r = running → ours s = true →
  opt_gtb (r_heartbeat_at r) (t - running_heartbeat_timeout) = true.
Proof.
  intros [Hi Ht] Hr Hs Ho. pose proof (proj1 (i_timely _ Hi) r Hr Hs Ho) as Hf.
  destruct (r_heartbeat_at r); [|done]. cbn in *. lia.
Qed.

Lemma fail_call N t failed_at (cutoff : option Z) n d :
  acceptable d jid rid failed →
  (∀ c, cutoff = Some c → c = t - running_heartbeat_timeout) →
  triple N (since t) (job_store (fail_owned_run nonces jid rid failed_at cutoff n d)) done_or.
Proof.
  intros [Hd Hm] Hcut. apply ending_call; [apply since_plain|by intros s [? _]|..].
  - intros s _. apply s_fail_owned_run.
  - intros s Hs Hours. apply fail_owned_ends; try done; [apply Hs|by apply Hs|].
    intros r c Hr Hrs ->. rewrite (Hcut c eq_refl). by eapply fresh_since.
Qed.

Lemma finalize_call N t st n e d :
  is_terminal st = true → acceptable d jid rid st →
  triple N (since t) (job_store (finalize_owned_run nonces jid rid st n e t
                                   (t - running_heartbeat_timeout) d)) done_or.
Proof.
  intros Hst [Hd Hm]. apply ending_call; [apply since_plain|by intros s [? _]|..].
  - intros s _. apply s_finalize_owned_run.
  - intros s Hs Hours. apply finalize_ends; try done; [apply Hs|by apply Hs|].
    intros r Hr Hrs. by eapply fresh_since.
Qed.

Lemma done_or_ended {A} (o : outcome exn A) s : ended_inv s → done_or o s.
Proof. intros [? ?]. by split; [|right]. Qed.

Lemma handle_crash_spec N t failed_at cutoff n d :
  acceptable d jid rid failed → (∀ c, cutoff = Some c → c = t - running_heartbeat_timeout) →
  triple N (since t) (handle_crash jid (Some rid) failed_at cutoff n d) done_or.
Proof.
  intros Hd Hc. cbn [handle_crash]. apply (triple_except _ _ _ _ _ _ done_or).
  - eapply triple_bind; [by apply fail_call|..].
    + intros a. apply triple_return. intros s [? [|?]]; [done|]. by apply done_or_ended.
    + intros e s [? [[= ->]|?]]; split; auto.
  - intros a s. done.
  - intros e Hne. apply triple_return. intros s [? [[=]|?]]; [done|]. by apply done_or_ended.
  - done.
Qed.

Lemma utc_now_spec {B} N (P : task R → Prop) (k : Z → proc (task R) B) Q :
  (∀ t, triple N (λ s, P s ∧ now s = t) (k t) Q) → triple N P (bind utc_now k) Q.
Proof. apply (get_spec N P now k Q). Qed.

Lemma no_delivery_acceptable : acceptable None jid rid failed.
Proof. done. Qed.

Lemma crash_spec N : triple N inv (_handle_execution_crash jid (Some rid)) done_or.
Proof.
  unfold _handle_execution_crash. apply get_spec. intros c. apply utc_now_spec. intros failed_at.
  assert (∀ s, inv s → context s = c → ∀ n t,
    acceptable (match c with Some c => terminal_delivery c jid failed None (Some 0) n t | None => None end)
      jid rid failed) as Hd.
  { intros s Hi Hc n t. destruct c as [c|]; [|done]. destruct (i_context _ Hi c Hc). by apply delivers. }
  intros n s Hn [[Hi Hc] _]. specialize (Hd s Hi Hc). revert n s Hn Hi Hc.
  enough (triple N inv (let* error_count := _error_count_snapshot (Some rid) in
    let delivery := match c with Some c => terminal_delivery c jid failed None (Some 0) error_count failed_at
                    | None => None end in
    let* t := utc_now in
    let* committed := handle_crash jid (Some rid) failed_at
                       (match c with Some _ => Some (t - running_heartbeat_timeout) | None => None end)
                       error_count delivery in
    match c with
    | Some c => if (committed : bool) then dispatch_webhook (x_config c) delivery else Return tt
    | None => Return tt
    end) done_or) as Ht by (intros n s Hn Hi Hc; by apply Ht).
  eapply triple_bind; [apply snapshot_spec, inv_plain|..].
  - intros count. cbn zeta. apply utc_now_spec. intros t.
    eapply (triple_bind _ _ _ _ _ _ done_or).
    + eapply triple_weaken; [apply (handle_crash_spec N t)|done| |done].
      * destruct c; [apply Hd|done].
      * destruct c; [by intros ? [= <-]|done].
      * intros s [[Hi _] <-]. by split.
    + intros committed. assert (∀ s, done_or (A := bool) (Ok committed) s → ended_inv s) as Hok.
      { intros s [? [|?]]; [done|by split]. }
      destruct c as [c|]; [destruct committed|]; try (apply triple_return; intros s Hs; by apply done_or_ended, Hok).
      eapply triple_weaken; [apply (dispatch_spec N ended_inv), ended_plain|done|exact Hok|].
      intros o s [? _]. by apply done_or_ended.
    + intros e s [? [[= ->]|?]]; split; auto.
  - intros e s [? [|[= ->]]]; [done|]. split; auto.
Qed.

(** ** Cancellation and budget stops *)

Lemma active_run_is s : inv s → active_run_id (Some rid) s = Some rid.
Proof.
  intros Hi. unfold active_run_id. destruct (context s) as [c|] eqn:Hc; [|done].
  by destruct (i_context _ Hi c Hc) as [-> _].
Qed.

Lemma lease_lost_over s : inv s → heartbeat s && bool_decide (is_Some (lost_reason s)) = true → over s.
Proof.
  intros Hi Hl Hours. boolprop. apply (i_lost _ Hi).
  match goal with Hs : is_Some _ |- _ => destruct Hs as [? ->] end. done.
Qed.

(** Whoever gets at a state and drops what it got. *)
Lemma discard_over N : triple N ended_inv (_discard_unowned_result jid (Some rid)) done_or.
Proof.
  eapply triple_weaken; [apply (discard_spec N ended_inv), ended_plain|done|done|].
  intros o s [? _]. by apply done_or_ended.
Qed.

Lemma calm_done {A} P (p : proc (task R) A) :
  triple 0 P p done_or → triple 0 P p (λ o s, ended_inv s).
Proof.
  intros Ht. eapply triple_weaken; [by apply triple_calm|done|done|].
  intros o s [[? [?|?]] ?]; [done|by split].
Qed.

(** What the cancellation handler finds decides what is known when it discards. *)
Lemma cancellation_spec : triple 0 inv (_handle_worker_cancellation jid (Some rid)) (λ o s, ended_inv s).
Proof.
  unfold _handle_worker_cancellation. apply get_spec. intros run_id. apply get_spec. intros lost.
  intros n s Hn [[Hi <-] Hl]. rewrite active_run_is by done. revert n s Hn Hi Hl.
  enough (triple 0 (λ s, inv s ∧ (lost = true → over s)) (
    do* stop_heartbeat in
    if (lost : bool) then do* _discard_unowned_result jid (Some rid) in Return false
    else
      let* active := except (job_store (λ d, (Ok (run_is_active jid rid d), d))) (λ _, Return true) in
      do* _discard_unowned_result jid (Some rid) in
      if negb active then Return true
      else do* shield (_handle_execution_crash jid (Some rid)) in Return true) (λ o s, ended_inv s)) as Ht.
  { intros n s Hn Hi Hl. apply Ht; [done|]. split; [done|]. intros ->. by eapply lease_lost_over. }
  assert (∀ b : bool, plain (λ s, inv s ∧ (b = true → over s))) as HP.
  { intros b. apply plain_and; [apply inv_plain|]. split.
    - intros s s' Hs E Hb. eapply over_stable; eauto.
    - intros s s' E Hs Hb. eapply (pl_same _ over_plain); eauto. }
  eapply triple_bind; [by apply stop_spec| |by intros e s [_ ?]].
  intros []. destruct lost.
  - eapply (triple_bind _ _ _ _ _ _ (λ o s, ended_inv s)); [|by intros; apply triple_return|done].
    eapply triple_weaken; [apply calm_done, discard_over|done| |done].
    intros s [[? Ho] _]. split; [done|by apply Ho].
  - eapply (triple_bind _ _ _ _ _ _ (λ o s, (inv s ∧ (o = Ok false → over s)) ∧ is_ok o = true)).
    + eapply (triple_weaken _ _ 0 0 inv); [apply triple_calm|done|by intros s [[? _] _]|].
      * apply (triple_except _ _ _ inv _ _ (λ o s, inv s ∧ (o = Ok false → over s) ∧ (is_ok o = true ∨ o = Raise Cancelled))
                 (λ o s, inv s ∧ (o = Ok false → over s) ∧ (is_ok o = true ∨ o = Raise Cancelled))).
        -- apply read_spec; [done|apply inv_stable|]. intros s Hs. cbn. split; split_and!; auto; try done.
           intros [= Ha] Hours. apply (inactive_ended _ jid); [by apply Hs|by apply Hs|done].
        -- done.
        -- intros e Hne. apply triple_return. intros s [? _]. split_and!; auto; done.
        -- done.
      * intros o s [(? & ? & [?|?]) ?]; done.
    + intros active. eapply (triple_bind _ _ _ _ _ _ (λ o s, (inv s ∧ (negb active = true → over s)) ∧ is_ok o = true)).
      * eapply triple_weaken; [apply triple_calm, (discard_spec 0 _ (HP (negb active)))|done| |].
        -- intros s [[? Ho] _]. split; [done|]. destruct active; [done|]. by intros; apply Ho.
        -- intros o s [[? [?|?]] ?]; done.
      * intros []. destruct (negb active).
        -- apply triple_return. intros s [[? Ho] _]. split; [done|by apply Ho].
        -- eapply (triple_bind _ _ _ _ _ _ (λ o s, ended_inv s)); [|by intros; apply triple_return|done].
           apply triple_shield; [lia|]. eapply triple_weaken; [apply calm_done, crash_spec|done| |done].
           by intros s [[? _] _].
      * by intros e s [_ ?].
    + by intros e s [_ ?].
Qed.

(** ** The handlers *)

Definition finished_task {A} (o : outcome exn A) s : Prop := ended_inv s.

Lemma on_cancellation_spec : wtriple env fails 0 inv (on_cancellation jid (Some rid)) finished_task.
Proof.
  unfold on_cancellation. eapply wtriple_bind; [apply cancellation_spec| |done].
  intros []; [by apply wtriple_throw|by apply triple_wtriple, triple_return].
Qed.

Lemma or_cancelled_spec N p :
  (N ≤ 1)%nat → triple N inv p done_or → triple N inv (or_cancelled jid (Some rid) p) finished_task.
Proof.
  intros HN Hp. eapply triple_attempt; [exact Hp|..].
  - intros a. apply triple_return. intros s [? [|?]]; [done|by split].
  - intros e Hne. assert (∀ k, match e with Cancelled => k | _ => of_outcome (Raise e) end = Throw (S := task R) (A := unit) e)
      as E by by destruct e.
    assert (∀ s, done_or (A := unit) (Raise e) s → ended_inv s) as He by (intros s [? [[= ->]|?]]; [done|by split]).
    destruct e; try done; by apply triple_throw.
  - intros N' ->. assert (N' = 0%nat) as -> by lia.
    intros n s Hn [Hi _]. by apply on_cancellation_spec.
Qed.

(** Taking an attempt apart when its handler passes cancellations on. *)
Lemma attempt_spec {A B} N P (p : proc (task R) A) (k : outcome exn A → proc (task R) B) Q Q' :
  triple N P p Q → k (Raise Cancelled) = Throw Cancelled →
  (∀ a, triple N (Q (Ok a)) (k (Ok a)) Q') →
  (∀ e, e ≠ Cancelled → triple N (Q (Raise e)) (k (Raise e)) Q') →
  (∀ s, Q (Raise Cancelled) s → Q' (Raise Cancelled) s) →
  triple N P (attempt p k) Q'.
Proof.
  intros Hp Hk Ha He Hc. eapply triple_attempt; [exact Hp|done|done|].
  intros N' _. rewrite Hk. by apply wtriple_throw.
Qed.

Definition since_or_over {A} (t : Z) (o : outcome exn A) s : Prop := or_over (since t) o s.

Lemma save_spec N P c doc st n limit : plain P → (∀ s, P s → inv s) →
  triple N P (save_run_result c jid doc st n limit) (or_over P).
Proof.
  intros HP Hinv. unfold save_run_result.
  eapply triple_weaken; [apply (plain_call N P)|done|done|]; try done.
  - intros s. apply in_failure_calm.
  - intros s e. cbn. by destruct (save_result _ _ _ _ _ _ _).1 as [|[]]; intros [= <-].
  - intros o s [? He]. split; [done|]. intros e -> Hown. by rewrite (He e eq_refl) in Hown.
Qed.

(** A refused checkpoint in the middle of saving is told apart from any other failure. *)
Lemma save_budget_spec N t c e : x_run_id c = rid →
  triple N (since t) (save_budget_result c jid e t)
    (λ o s, since t s ∧ (o = Ok OwnershipLost → over s) ∧ (is_ok o = true ∨ o = Raise Cancelled)).
Proof.
  intros Hc. unfold save_budget_result. rewrite Hc. apply get_spec. intros b.
  apply (triple_pre _ _ _ (since t)); [|by intros s [? _]].
  assert (∀ name, triple N (since t) (checkpoint jid rid name) (or_over (since t))) as Hcp
    by by intros; apply checkpoint_plain; [apply since_plain|intros ? [? _]].
  apply (attempt_spec _ _ _ _ (λ o s, since t s ∧ o ≠ Ok OwnershipLost ∧
           ∀ x, o = Raise x → is_run_ownership_error x = true → over s)); [|done|..].
  - eapply triple_bind; [apply Hcp|..].
    + intros []. apply (triple_pre _ _ _ (since t)); [|by intros s [? _]].
      eapply triple_bind; [apply save_spec; [apply since_plain|by intros s [? _]]|..].
      * intros meta. apply (triple_pre _ _ _ (since t)); [|by intros s [? _]].
        eapply attempt_spec; [apply Hcp|done|..].
        -- intros []. apply triple_return. intros s [? _]. by split_and!.
        -- intros x Hne. destruct (is_run_ownership_error x) eqn:Hx.
           ++ assert (is_cancelled x = false) as -> by by destruct x. cbn [orb].
              apply triple_throw; [done|]. intros s [? Ho]. split_and!; try done.
              intros x' [= <-] _. apply (Ho x); [done|]. by destruct x.
           ++ assert (is_cancelled x = false) as -> by by destruct x. cbn [orb].
              apply triple_return. intros s [? _]. by split_and!.
        -- intros s [? _]. split_and!; try done. by intros x [= <-].
      * intros x s [? Ho]. split_and!; try done. intros x' [= <-] Hx. apply (Ho x); [done|]. by destruct x.
    + intros x s [? Ho]. split_and!; try done. intros x' [= <-] Hx. apply (Ho x); [done|]. by destruct x.
  - intros a. apply triple_return. intros s (? & Hno & _). split_and!; auto. intros [= ->]. done.
  - intros x Hne. assert (∀ A (k : A) k', match x with Cancelled => k | _ => k' end = k') as -> by by destruct x.
    destruct (is_run_ownership_error x) eqn:Hx; apply triple_return; intros s (? & _ & Ho); split_and!; auto; try done.
    intros _. by apply (Ho x).
  - intros s (? & _ & _). split_and!; auto. done.
Qed.

(** The run is over if the procedure returns. *)
Definition over_if_ok {A} (o : outcome exn A) s : Prop := inv s ∧ (is_ok o = true → over s).

Lemma discard_ok N : triple N ended_inv (_discard_unowned_result jid (Some rid)) over_if_ok.
Proof.
  eapply triple_weaken; [apply (discard_spec N ended_inv), ended_plain|done|done|]. by intros o s [[? ?] _].
Qed.

Lemma finalize_budget_spec N c t n d :
  acceptable d jid rid failed →
  triple N (since t)
    (attempt (job_store (finalize_owned_run nonces jid rid failed 0 n t (t - running_heartbeat_timeout) d))
       (λ o, match o with
             | Ok _ => dispatch_webhook (x_config c) d
             | Raise Cancelled => Throw Cancelled
             | Raise x => if is_run_ownership_error x then _discard_unowned_result jid (Some rid)
                          else do* _discard_unowned_result jid (Some rid) in
                               _handle_execution_crash jid (Some rid)
             end)) over_if_ok.
Proof.
  intros Hd. eapply attempt_spec; [by apply finalize_call|done|..].
  - intros a. eapply triple_weaken; [apply (dispatch_spec N ended_inv), ended_plain|done| |].
    + intros s [? [|?]]; [done|by split].
    + by intros o s [[? ?] _].
  - intros x Hne. assert (∀ A (k : A) k', match x with Cancelled => k | _ => k' end = k') as -> by by destruct x.
    apply (triple_pre _ _ _ ended_inv); [|intros s [? [[= ->]|?]]; [done|by split]].
    destruct (is_run_ownership_error x); [apply discard_ok|].
    eapply triple_bind; [apply discard_ok|..].
    + intros []. apply (triple_pre _ _ _ inv); [|by intros s [? _]].
      eapply triple_weaken; [apply crash_spec|done|done|]. intros o s [? [->|?]]; by split.
    + intros e s [? _]. by split.
  - intros s [? _]. by split.
Qed.

Lemma exhaustion_spec N c e :
  x_run_id c = rid → load_config config_yaml = Ok (x_config c) →
  triple N inv (_handle_budget_exhaustion c jid e) over_if_ok.
Proof.
  intros Hc Hl. unfold _handle_budget_exhaustion. cbv zeta.
  eapply attempt_spec; [rewrite Hc; apply checkpoint_spec|done|..].
  - intros []. apply (triple_pre _ _ _ inv); [|by intros s [? _]].
    eapply (triple_bind _ _ _ _ _ _ (λ o s, inv s)).
    + eapply (triple_except _ _ _ _ _ _ (λ o s, inv s)); try done.
      * eapply (triple_bind _ _ _ _ _ _ (λ o s, inv s)); try done.
        -- rewrite Hc. eapply triple_weaken; [apply checkpoint_spec|done|done|by intros o s [? _]].
        -- intros []. apply utc_now_spec. intros t.
           eapply triple_weaken; [apply (plain_call N inv)|done|by intros s [? _]|by intros o s [? _]]; try done.
           apply inv_plain.
    + intros []. apply utc_now_spec. intros t. apply (triple_pre _ _ _ (since t)); [|by intros s [? <-]; split].
      eapply triple_bind; [by apply save_budget_spec| |].
      * intros saved. assert (saved = OwnershipLost ∨ saved ≠ OwnershipLost) as [->|Hne] by (destruct saved; auto).
        -- rewrite Hc. apply (triple_pre _ _ _ ended_inv); [apply discard_ok|].
           intros s ([? _] & Ho & _). split; [done|by apply Ho].
        -- apply (triple_pre _ _ _ (since t)); [|by intros s [? _]].
           assert (∀ A (k k' : A), match saved with OwnershipLost => k | _ => k' end = k') as -> by by destruct saved.
           apply get_spec. intros lost.
           apply (triple_pre _ _ _ (λ s, since t s ∧ (lost = true → over s)));
             [|by intros s [[? ?] <-]; split; [done|apply lease_lost_over]].
           eapply triple_bind; [apply stop_spec| |by intros x s [[[? _] _] ?]].
           { apply plain_and; [apply since_plain|]. split.
             - intros s s' Hs E Hb. eapply over_stable; eauto.
             - intros s s' E Hs Hb. eapply (pl_same _ over_plain); eauto. }
           intros []. destruct lost.
           ++ rewrite Hc. apply (triple_pre _ _ _ ended_inv); [apply discard_ok|].
              intros s [[[? _] Ho] _]. split; [done|by apply Ho].
           ++ apply (triple_pre _ _ _ (since t)); [|by intros s [[? _] _]].
              rewrite Hc. eapply triple_bind; [apply snapshot_spec, (since_plain t)|..].
              ** intros count. cbv zeta. apply (triple_pre _ _ _ (since t)); [|by intros s [? _]].
                 eapply (triple_bind _ _ _ _ _ _ (λ o s, since t s)).
                 --- apply triple_local. intros s Hs. split; [done|]. by eapply (pl_same _ (since_plain t) s).
                 --- intros []. apply finalize_budget_spec. by apply delivers.
                 --- intros x s [? _]. by split.
              ** intros x s [[? _] _]. by split.
      * intros x s [[? _] _]. by split.
    + intros x s ?. by split.
  - intros x Hne. destruct (is_run_ownership_error x) eqn:Hx.
    + rewrite Hc. apply (triple_pre _ _ _ ended_inv); [apply discard_ok|].
      intros s [? Ho]. split; [done|]. apply (Ho x); [done|]. by destruct x.
    + apply triple_throw; [done|]. intros s [? _]. by split.
  - intros s [? _]. by split.
Qed.

Lemma stop_discard_crash N P : (∀ s, P s → inv s) →
  triple N P (do* stop_heartbeat in
              do* _discard_unowned_result jid (Some rid) in
              _handle_execution_crash jid (Some rid)) done_or.
Proof.
  intros HP. apply (triple_pre _ _ _ inv); [|done].
  eapply triple_bind; [apply stop_spec, inv_plain| |by intros e s [_ ?]].
  intros []. apply (triple_pre _ _ _ inv); [|by intros s [? _]].
  eapply triple_bind; [apply discard_spec, inv_plain|..].
  - intros []. apply (triple_pre _ _ _ inv); [apply crash_spec|by intros s [? _]].
  - intros e s [? [|[= ->]]]; [done|]. split; auto.
Qed.

Lemma budget_stop_spec N e : triple N inv (_handle_budget_stop jid (Some rid) e) done_or.
Proof.
  unfold _handle_budget_stop. apply get_spec. intros [c|].
  - intros n s Hn [Hi Hc]. destruct (i_context _ Hi c Hc) as [Hr Hl]. revert n s Hn Hi Hc.
    enough (triple N inv (except (_handle_budget_exhaustion c jid e)
      (λ _, do* stop_heartbeat in
            do* _discard_unowned_result jid (Some (x_run_id c)) in
            _handle_execution_crash jid (Some (x_run_id c)))) done_or) as Ht by by intros; apply Ht.
    eapply triple_except; [by apply exhaustion_spec|..].
    + intros [] s [? Ho]. by split; [|right; apply Ho].
    + intros x _. rewrite Hr. apply stop_discard_crash. by intros s [? _].
    + intros s [? _]. split; auto.
  - apply (triple_pre _ _ _ inv); [apply crash_spec|by intros s [? _]].
Qed.

Lemma on_exception_spec N e :
  (N ≤ 1)%nat → e ≠ Cancelled →
  triple N (λ s, inv s ∧ (is_ownership_error e = true → over s)) (on_exception jid (Some rid) e) finished_task.
Proof.
  intros HN Hne. unfold on_exception.
  assert (triple N (λ s, inv s ∧ (is_ownership_error e = true → over s))
    (let* active := get (active_run_id (Some rid)) in
     if is_ownership_error e then do* stop_heartbeat in _discard_unowned_result jid active
     else or_cancelled jid (Some rid) (
            do* stop_heartbeat in
            do* _discard_unowned_result jid active in
            _handle_execution_crash jid active)) finished_task) as Hrest.
  { apply get_spec. intros active. intros n s Hn [[Hi Ho] <-]. rewrite active_run_is by done.
    destruct (is_ownership_error e) eqn:He.
    - assert (triple N ended_inv (do* stop_heartbeat in _discard_unowned_result jid (Some rid)) finished_task) as Ht.
      { eapply triple_bind; [apply stop_spec, ended_plain| |by intros x s' [_ ?]].
        intros []. apply (triple_pre _ _ _ ended_inv); [|by intros s' [? _]].
        eapply triple_weaken; [apply (discard_spec N ended_inv), ended_plain|done|done|]. by intros o s' [? _]. }
      apply Ht; [done|]. split; [done|by apply Ho].
    - exact (or_cancelled_spec N _ HN (stop_discard_crash N inv (λ s H, H)) n s Hn Hi). }
  destruct e; try exact Hrest; [done|].
  apply (triple_pre _ _ _ inv); [|by intros s [? _]]. by apply or_cancelled_spec; [|apply budget_stop_spec].
Qed.

(** ** The run *)

Context (timeout_positive : 0 < running_heartbeat_timeout) (rid_named : rid ≠ "").

(** Before the context is set; [has_run]: the job has a current run. *)
Definition has_run s : Prop :=
  ∀ j, jobs (db (service s)) !! jid = Some j → is_Some (j_current_run_id j).
Definition fresh_task s : Prop := inv s ∧ context s = None ∧ has_run s.

Lemma fresh_ours s : fresh_task s → ours s = false.
Proof. intros (Hi & Hc & _). destruct (ours s) eqn:Ho; [|done]. by destruct (i_ours _ Hi Ho). Qed.

Lemma fresh_stable : stable env fresh_task.
Proof.
  intros s s' (Hi & Hc & Hr) E. destruct (env_vars _ _ E) as [Ec _].
  split_and!; [by eapply inv_stable|congruence|]. intros j Hj. by apply (e_job _ _ E j).
Qed.

Definition loaded c s : Prop :=
  fresh_task s ∧ x_run_id c = rid ∧ load_config config_yaml = Ok (x_config c) ∧
  x_started_at c = now s ∧ is_Some (current_run_id (x_job c)).

Lemma get_job_run_id d job : (get_job jid d).1 = Ok job →
  ∃ j, jobs d !! jid = Some j ∧ current_run_id job = j_current_run_id j.
Proof.
  unfold get_job, read. cbn. destruct (jobs d !! jid) as [j|]; [|done].
  unfold row_to_job. destruct (reveal _ _); [|done]. intros [= <-]. by exists j.
Qed.

Lemma get_job_calm d e : (get_job jid d).1 = Raise e → is_ownership_error (InStore e) = false.
Proof.
  unfold get_job, read. cbn. destruct (jobs d !! jid) as [j|]; [|by intros [= <-]].
  unfold row_to_job, reveal. destruct (reveal_text _ _); [done|]. by intros [= <-].
Qed.

(** Where loading may stop: with nothing claimed. *)
Definition unclaimed {A} (o : outcome exn A) s : Prop := inv s ∧ ours s = false.

Lemma load_spec N : triple N fresh_task (_load_job_execution_context jid config_yaml (Some rid))
  (λ o s, match o with Ok (Some c) => loaded c s | _ => unclaimed o s end).
Proof.
  assert (∀ s, fresh_task s → inv s ∧ ours s = false) as Hf by (intros s Hs; split; [apply Hs|by apply fresh_ours]).
  unfold _load_job_execution_context.
  eapply (triple_bind _ _ _ _ _ _ (λ o s, fresh_task s ∧ ∀ job, o = Ok job → is_Some (current_run_id job))).
  - apply read_spec; [done|apply fresh_stable|]. intros s Hs. split; [|by split]. split; [done|].
    intros job Hj. destruct (get_job jid (db (service s))).1 as [job'|] eqn:E; [|done].
    injection Hj as <-. apply get_job_run_id in E as (j & Hj & ->). by apply (proj2 (proj2 Hs)) in Hj.
  - intros job. cbv zeta. rewrite effective_is by done.
    destruct (_should_skip_delivery job rid); [apply triple_return; intros s [? _]; by apply Hf|].
    intros n s Hn [Hs Hjob]. specialize (Hjob job eq_refl). revert n s Hn Hs.
    eapply (triple_bind _ _ _ _ _ _ (λ o s, fresh_task s ∧ ∀ config, o = Ok config → load_config config_yaml = Ok config)).
    + apply other_spec; [apply fresh_stable|..].
      * intros s Hs. unfold pure. destruct (load_config config_yaml) as [config|]; cbn; split_and!; try done.
        by intros ? [= <-].
      * intros s s' e Hs [->| ->] _; by split.
    + intros config. intros n s Hn [Hs Hl]. specialize (Hl config eq_refl). revert n s Hn Hs.
      eapply (triple_bind _ _ _ _ _ _ (λ o s, fresh_task s)).
      * apply triple_local. intros s Hs. unfold pure. by destruct (build_run_paths _ _ _).
      * intros []. apply utc_now_spec. intros t.
        eapply (triple_bind _ _ _ _ _ _ (λ o s, fresh_task s ∧ now s = t)).
        -- apply triple_local. intros s [(? & ? & ?) ?]. split; [done|]. split; [|done].
           split_and!; try done. by eapply (pl_same _ inv_plain s).
        -- intros []. apply triple_return. intros s [? ?]. by split_and!.
        -- intros e s [? _]. by apply Hf.
      * intros e s ?. by apply Hf.
    + intros e s [? _]. by apply Hf.
  - intros e s [? _]. by apply Hf.
Qed.

(** A claim makes the run this task's, with a heartbeat of its own start. *)
Definition ready c s : Prop := inv s ∧ context s = Some c ∧ ours s = false.

Lemma ready_stable c : stable env (ready c).
Proof.
  intros s s' (Hi & Hc & Ho) E. destruct (env_vars _ _ E) as (Ec & Eo & _).
  split_and!; [by eapply inv_stable|congruence..].
Qed.

Lemma loaded_ready c s : loaded c s → ready c (set_context (Some c) s).
Proof.
  intros ((Hi & Hn & _) & Hr & Hl & Ht & _).
  assert (ours s = false) as Ho by (destruct (ours s) eqn:E; [by destruct (i_ours _ Hi E)|done]).
  destruct Hi as [Hreach [T1 T2] Howned Hctx Hlost Hours Hheart]. split_and!; try done.
  constructor; cbn; try done.
  - split; cbn; [done|]. intros ? [= <-] _. rewrite Ht. lia.
  - by intros ? [= <-].
Qed.

Lemma claimed_heartbeat u trigger h t w r :
  (claim_run u rid jid trigger h t (db w)).1 = Ok true →
  job_runs (claim_run u rid jid trigger h t (db w)).2 !! rid = Some r → r_heartbeat_at r = Some t.
Proof.
  intros Hok. destruct (claim_run_true _ _ _ _ _ _ _ Hok) as (j & x & Hc).
  rewrite (claimable_runs u _ _ _ _ t _ _ _ Hc). cbn. rewrite lookup_insert_eq. by intros [= <-].
Qed.

Lemma claim_keeps c s trigger h :
  ready c s → inv (claim rid jid trigger h (x_started_at c) s).2 ∧
    ((claim rid jid trigger h (x_started_at c) s).1 = Ok true ∨
     ours (claim rid jid trigger h (x_started_at c) s).2 = false).
Proof.
  intros (Hi & Hc & Ho). unfold claim.
  set (m := claim_run nonces rid jid trigger h (x_started_at c)).
  assert ((on_jobs m ∅ s).2 = set_service (call (service s) m) s) as Es
    by (unfold on_jobs, call; cbn; by rewrite union_empty_r_L).
  assert (sstep (service s) (call (service s) m)) as St by apply s_claim_run.
  destruct (claim_run_keeps nonces rid jid trigger h (x_started_at c) (db (service s))) as [Hok|[Hno Hd]].
  - assert ((on_jobs m ∅ s).1 = Ok true) as E1 by by (unfold on_jobs, m; cbn; rewrite Hok). rewrite E1, Es.
    split; [|by left]. destruct Hi as [Hreach [T1 T2] Howned Hctx Hlost Hours Hheart].
    assert (owned jid rid (absw (call (service s) m))) as Hown by by apply claim_makes_owned.
    constructor; cbn; try done.
    + by eapply rtc_r.
    + split; [|done]. cbn. intros r Hr _ _. rewrite (claimed_heartbeat _ _ _ _ (service s) r Hok Hr). cbn.
      specialize (T2 c Hc Ho). lia.
    + intros Hne. destruct (Hlost Hne). congruence.
    + intros _. by rewrite Hc.
  - assert ((on_jobs m ∅ s).1 ≠ Ok true) as Hne by (unfold on_jobs; cbn; fold m in Hno; by destruct (m (db (service s))).1 as [[]|]).
    rewrite (on_jobs_read m) by done.
    assert (match (on_jobs m ∅ s).1 with Ok true => set_ours true s | _ => s end = s) as ->
      by by destruct (on_jobs m ∅ s).1 as [[]|].
    cbn. by split; [|right].
Qed.

Lemma claim_ours c s trigger h t :
  ready c s → (claim rid jid trigger h t s).1 = Ok true → ours (claim rid jid trigger h t s).2 = true.
Proof. unfold claim. cbn. by intros _ ->. Qed.

(** What claiming comes to. *)
Definition claiming (o : outcome exn bool) s : Prop :=
  inv s ∧ (o = Ok true ∨ o = Raise Cancelled ∨ ours s = false) ∧ (o = Ok true → ours s = true).

Lemma claim_spec N c trigger : x_run_id c = rid →
  triple N (ready c) (await JobChannel (claim (x_run_id c) jid trigger (x_config_hash c) (x_started_at c))) claiming.
Proof.
  intros Hc. rewrite Hc. apply triple_await; [apply ready_stable|..].
  - intros s Hs. split; [apply in_store_calm|].
    destruct (claim_keeps c s trigger (x_config_hash c) Hs) as [Hi Hor].
    split_and!; [done|by destruct Hor; auto|by apply (claim_ours c)].
  - intros s Hs _. destruct (claim_keeps c s trigger (x_config_hash c) Hs) as [Hi _].
    split; split_and!; auto; [apply Hs|done|done].
  - intros s e _ Hf. by destruct (jobs_work Hf).
Qed.

Lemma deadline_spec N P : plain P → triple N P check_deadline
  (λ o s, P s ∧ ∀ e, o = Raise e → is_ownership_error e = false).
Proof.
  intros HP. apply triple_local. intros s Hs. unfold on_budget. destruct (budget s) as [b|]; cbn.
  - split; [apply in_budget_calm|]. split; [by eapply (pl_same _ HP s)|]. intros e.
    by apply in_budget_other.
  - split_and!; try done. intros e He. by injection He as <-.
Qed.

Lemma ours_plain : plain (λ s, inv s ∧ ours s = true).
Proof.
  apply plain_and; [apply inv_plain|]. split.
  - intros s s' Hs E. by destruct (env_vars _ _ E) as (_ & -> & _).
  - intros s s' [= E1 E2 E3 E4 E5 E6] Hs. congruence.
Qed.

Lemma not_ours_over s : ours s = false → over s.
Proof. intros Ho Hours. congruence. Qed.

Definition started (o : outcome exn bool) s : Prop :=
  kept o s ∧ (o = Ok true → ours s = true) ∧ (o = Ok false → over s).

Lemma mark_spec N c trigger : x_run_id c = rid → is_Some (current_run_id (x_job c)) →
  triple N (ready c) (_mark_run_started c jid trigger) started.
Proof.
  intros Hc [r Hr]. unfold _mark_run_started. rewrite Hr.
  eapply (triple_bind _ _ _ _ _ _ (λ o s, ready c s ∧ o = Ok true)); [by apply triple_return| |by intros e s [_ ?]].
  intros queued. apply (triple_pre _ _ _ (λ s, ready c s ∧ queued = true)); [|by intros s [? [= ->]]].
  intros n s Hn [Hs ->]. revert n s Hn Hs. cbn [negb].
  eapply (triple_bind _ _ _ _ _ _ claiming); [by apply claim_spec|..].
  - intros [].
    + apply (triple_pre _ _ _ (λ s, inv s ∧ ours s = true)); [|by intros s (? & _ & Ho); split; [|apply Ho]].
      eapply triple_bind; [apply deadline_spec, ours_plain|..].
      * intros []. apply triple_return. intros s [[? ?] _]. by split_and!; [apply kept_ok|..].
      * intros e s [[? ?] He]. split; [|done]. by apply kept_other; [apply He|].
    + apply triple_return. intros s (? & Hor & _). split; [by apply kept_ok|]. split; [done|].
      intros _. apply not_ours_over. by destruct Hor as [?|[?|?]].
  - intros e s (? & Hor & _). split; [|done]. split; [done|]. intros e' [= <-] He.
    apply not_ours_over. destruct Hor as [?|[[= ->]|?]]; done.
Qed.

Lemma kept_unless {A} (o : outcome exn A) s :
  inv s → (∀ e, o = Raise e → is_ownership_error e = false) → kept o s.
Proof. intros Hi He. split; [done|]. intros e Ho Hown. by rewrite (He e Ho) in Hown. Qed.

Lemma flush_spec N l : triple N inv (_flush_errors jid rid l) kept.
Proof.
  unfold _flush_errors. destruct l as [|e l]; [by apply triple_return, kept_ok|].
  apply keep_bind; [apply checkpoint_spec|]. intros []. apply keep_bind; [|intros []; apply checkpoint_spec].
  eapply triple_weaken; [apply (plain_call N inv)|done|done|]; try done; [apply inv_plain|].
  intros o s [? ?]. by apply kept_unless.
Qed.

Lemma on_budget_spec N (m : Budget.budget_prog unit) : triple N inv (local (on_budget m))
  (λ o s, inv s ∧ ∀ e, o = Raise e → is_ownership_error e = false).
Proof.
  apply triple_local. intros s Hs. unfold on_budget. destruct (budget s) as [b|]; cbn.
  - split; [apply in_budget_calm|]. split; [by eapply (pl_same _ inv_plain s)|].
    intros e. apply in_budget_other.
  - split; [done|]. split; [done|]. intros e. by intros [= <-].
Qed.

Lemma act_spec N a : triple N inv (act jid rid a) kept.
Proof.
  destruct a as [name|m pending|l]; cbn [act]; [apply checkpoint_spec| |apply flush_spec].
  eapply triple_except; [apply on_budget_spec|..].
  - intros a s [? ?]. by apply kept_ok.
  - intros e Hne n s Hn [Hs He]. specialize (He e eq_refl). revert n s Hn Hs.
    apply keep_bind; [apply flush_spec|]. intros []. apply triple_throw; [done|]. intros s. by apply kept_other.
  - intros s [? _]. by apply kept_other.
Qed.

Lemma targets_spec N script targets : triple N inv (_process_all_targets jid rid script targets) kept.
Proof.
  induction script as [|a script IH]; cbn [_process_all_targets].
  - apply triple_local. intros s Hs. unfold pure. by destruct targets; split; [|apply kept_ok| |apply kept_other].
  - apply keep_bind; [apply act_spec|]. by intros [].
Qed.

(** What is persisted has a final status. *)
Lemma final_status_terminal config l data : is_terminal (_determine_final_status config l data) = true.
Proof. unfold _determine_final_status. by destruct (cfg_fail_strategy config); repeat case_match. Qed.

Definition persisted (o : outcome exn PersistedJobResult) s : Prop :=
  kept o s ∧ ∀ p, o = Ok p → is_terminal (p_final_status p) = true.

Lemma keep_then {A B} N (p : proc (task R) A) (k : A → proc (task R) B) (Q : outcome exn B → task R → Prop) :
  triple N inv p kept → (∀ a, triple N inv (k a) Q) → (∀ e s, kept (A := A) (Raise e) s → Q (Raise e) s) →
  triple N inv (bind p k) Q.
Proof.
  intros Hp Hk He. eapply triple_bind; [exact Hp| |exact He].
  intros a. apply (triple_pre _ _ _ inv); [apply Hk|by intros s [? _]].
Qed.

Lemma kept_raise {A B} e s : kept (A := A) (Raise e) s → kept (A := B) (Raise e) s.
Proof. intros [Hi He]. split; [done|]. intros e' [= <-]. by apply He. Qed.

Lemma kept_deadline N : triple N inv check_deadline kept.
Proof.
  eapply triple_weaken; [apply (deadline_spec N inv), inv_plain|done|done|]. intros o s [? ?]. by apply kept_unless.
Qed.

Lemma persist_spec N c l : x_run_id c = rid → triple N inv (_persist_job_results c jid l) persisted.
Proof.
  intros Hc. unfold _persist_job_results. rewrite Hc.
  assert (∀ A e s, kept (A := A) (Raise e) s → persisted (Raise e) s) as Hr
    by (intros A e s ?; split; [by eapply kept_raise|done]).
  apply keep_then; [apply checkpoint_spec|intros []|apply Hr].
  apply keep_then; [apply kept_deadline|intros []|apply Hr]. cbn zeta. unfold _collect_result_payload.
  apply keep_then; [|intros doc|apply Hr].
  { eapply triple_weaken; [apply (other_spec N inv OtherChannel)|done|done|intros o s Hk; exact Hk].
    - apply inv_stable.
    - intros s Hs. destruct (budget s) as [b|]; cbn.
      + split; [apply in_failure_calm|]. apply kept_unless; [|intros e; apply in_failure_other].
        by eapply (pl_same _ inv_plain s).
      + split; [done|]. by apply kept_other.
    - intros s s' e Hs [->| ->] He; apply kept_other; try done.
      destruct (budget s) as [b|]; [|done]. by eapply (pl_same _ inv_plain s). }
  apply keep_then; [apply kept_deadline|intros []|apply Hr].
  apply get_spec. intros doc'. apply (triple_pre _ _ _ inv); [|by intros s [? _]].
  apply keep_then; [apply (save_spec N inv); [apply inv_plain|done]|intros meta|apply Hr].
  apply keep_then; [apply checkpoint_spec|intros []|apply Hr].
  apply triple_return. intros s Hs. split; [by apply kept_ok|]. intros p [= <-]. apply final_status_terminal.
Qed.

(** The run is over when it is finalized. *)
Definition run_over (o : outcome exn unit) s : Prop := kept o s ∧ (is_ok o = true → over s).

Lemma finalize_spec N c p :
  x_run_id c = rid → load_config config_yaml = Ok (x_config c) → is_terminal (p_final_status p) = true →
  triple N inv (_finalize_job_execution c jid p) run_over.
Proof.
  intros Hc Hl Hst. unfold _finalize_job_execution. rewrite Hc.
  apply keep_then; [apply checkpoint_spec|intros []|by split].
  apply utc_now_spec. intros t. apply (triple_pre _ _ _ (since t)); [|by intros s [? <-]; split].
  eapply triple_bind; [apply (count_spec N (since t)), since_plain|..].
  - intros n. apply (triple_pre _ _ _ (since t)); [|by intros s [? _]]. cbn zeta.
    eapply (triple_bind _ _ _ _ _ _ (λ o s, since t s ∧ o = Ok tt)); [|intros []|by intros e s [_ ?]].
    { apply triple_local. intros s Hs. split_and!; try done; by eapply (pl_same _ (since_plain t) s). }
    apply (triple_pre _ _ _ (since t)); [|by intros s [? _]].
    eapply triple_bind; [apply (finalize_call N t); [done|by apply delivers]|..].
    + intros []. apply (triple_pre _ _ _ ended_inv); [|intros s [? [|?]]; [done|by split]].
      eapply triple_weaken; [apply (dispatch_spec N ended_inv), ended_plain|done|done|].
      intros o s [[? ?] _]. split; [by split|done].
    + intros e s [Hi Hor]. split; [|done]. split; [done|]. intros e' [= <-] He.
      by destruct Hor as [[= ->]|?].
  - intros e s [[? _] He]. split; [|done]. apply kept_other; [by apply He|done].
Qed.

Lemma lease_spec N : triple N inv ensure_owned kept.
Proof.
  unfold ensure_owned. apply get_spec. intros [reason|].
  - apply triple_throw; [done|]. intros s [Hs Hl]. split; [done|]. intros e _ _ Hours.
    apply (i_lost _ Hs). by rewrite Hl.
  - apply triple_return. intros s [? _]. by apply kept_ok.
Qed.

Lemma run_spec N trigger script targets :
  triple N fresh_task (run_job jid config_yaml (Some rid) trigger script targets) run_over.
Proof.
  unfold run_job. eapply triple_bind; [apply load_spec|..].
  - intros [c|]; [|apply triple_return; intros s [Hi Ho]; split; [by apply kept_ok|by intros; apply not_ours_over]].
    intros n s Hn Hld. pose proof Hld as (_ & Hc & Hl & _ & Hcur). revert n s Hn Hld.
    eapply (triple_bind _ _ _ _ _ _ (λ o s, ready c s ∧ o = Ok tt)); [|intros []|by intros e s [_ ?]].
    { apply triple_local. intros s Hs. split; [done|]. split; [by apply loaded_ready|done]. }
    eapply triple_bind; [apply (triple_pre _ _ _ (ready c)); [by apply mark_spec|by intros s [? _]]|..].
    + intros []; cbn [negb].
      * eapply (triple_bind _ _ _ _ _ _ (λ o s, inv s ∧ o = Ok tt)); [|intros []|by intros e s [_ ?]].
        { apply triple_local. intros s [[Hi _] [Ho _]]. split; [done|]. split; [|done].
          destruct Hi. constructor; try done. by intros _; apply Ho. }
        apply (triple_pre _ _ _ inv); [|by intros s [? _]]. rewrite Hc.
        apply keep_then; [apply checkpoint_spec|intros []|by split].
        apply keep_then; [apply targets_spec|intros l|by intros e s ?; split; [eapply kept_raise|]].
        eapply triple_bind; [by apply persist_spec|..].
        -- intros p n s Hn [[Hi _] Hp]. specialize (Hp p eq_refl). revert n s Hn Hi.
           apply keep_then; [apply lease_spec|intros []|by split].
           eapply triple_bind; [apply (stop_spec N inv), inv_plain|intros []|by intros e s [_ ?]].
           apply (triple_pre _ _ _ inv); [by apply finalize_spec|by intros s [? _]].
        -- intros e s [Hk _]. split; [by eapply kept_raise|done].
      * apply triple_return. intros s ([Hi _] & _ & Ho). split; [by apply kept_ok|by intros; apply Ho].
    + intros e s [Hk _]. split; [by eapply kept_raise|done].
  - intros e s [Hi Ho]. split; [|done]. split; [done|]. intros. by apply not_ours_over.
Qed.

Lemma task_spec N trigger script targets :
  (N ≤ 1)%nat →
  wtriple env fails N fresh_task (scrape_task jid config_yaml (Some rid) trigger script targets) finished_task.
Proof.
  intros HN. apply triple_wtriple. unfold scrape_task.
  eapply (triple_attempt _ _ _ _ _ _ finished_task).
  - eapply triple_attempt; [apply run_spec|..].
    + intros []. apply triple_return. intros s [[? _] Ho]. split; [done|by apply Ho].
    + intros e Hne. eapply triple_pre; [by apply on_exception_spec|].
      intros s [[Hi He] _]. split; [done|by apply He].
    + intros N' ->. assert (N' = 0%nat) as -> by lia. intros n s Hn [[Hi _] _].
      by apply on_cancellation_spec.
  - intros []. eapply triple_bind; [apply (stop_spec N ended_inv), ended_plain|intros []|by intros e s [_ ?]].
    apply triple_return. by intros s [? _].
  - intros e Hne. eapply triple_bind; [apply (stop_spec N ended_inv), ended_plain|intros []|by intros e' s [_ ?]].
    apply triple_throw; [done|]. by intros s [? _].
  - intros N' _. eapply wtriple_bind; [apply (stop_spec N' ended_inv), ended_plain|intros []|by intros e' s [_ ?]].
    apply wtriple_throw. by intros s [? _].
Qed.

Lemma task_runs trigger script targets n s o s' :
  (n ≤ 1)%nat → fresh_task s →
  runs env fails n (scrape_task jid config_yaml (Some rid) trigger script targets) s o s' → ended_inv s'.
Proof.
  intros Hn Hs Hr. eapply (wp_sound env fails _ n (λ _, ended_inv)); [exact Hr|].
  eapply wp_mono; [|by apply (task_spec n trigger script targets Hn n s)]. by intros ? ? ? [_ ?].
Qed.
End worker.

Lemma ended_inactive `{Vault} w jid rid : ended rid (absw w) → run_is_active jid rid (db w) = false.
Proof.
  intros E. destruct (run_is_active jid rid (db w)) eqn:Ha; [|done]. unfold run_is_active in Ha.
  destruct (jobs (db w) !! jid) as [j|]; [|done]. apply andb_true_iff in Ha as [[_ Hc]%owned_as_true Ha].
  unfold current_run in Ha. rewrite Hc in Ha. destruct (job_runs (db w) !! rid) as [r|] eqn:Hr; [|done].
  destruct (bool_decide (r_job_id r = jid)); [|done]. boolprop.
  by destruct (ended_not_running _ _ E _ (absw_run _ _ _ Hr)).
Qed.

(** [C2] A worker does not leave its own run behind: whatever its targets do, whichever calls
    on the result store, the error store and Redis fail, and if the task is cancelled, once at
    any point, then when [scrape_task] stops, a run that it had claimed is not running, and
    never will be again. The other steps of the service interleave freely, during the task and
    after it, but for one: no scheduled trigger queues a new run in place of a running one
    (the call of [_trigger_job] that [sstep] leaves out; it strands the replaced run, see
    [queue_over_running_orphans]). It also assumes that the job store answers, that
    heartbeats arrive within the timeout, and that no secret is part of the names that a
    webhook carries. *)
Theorem no_run_left_running `{Vault} `{JsonText} {R : Type} `{ResultStore R} `{Deployment}
    jid rid config_yaml fails n trigger script targets (s s' : task R) o w :
  ¬ fails JobChannel → deliverable jid rid config_yaml → 0 < running_heartbeat_timeout → rid ≠ "" → (n ≤ 1)%nat →
  fresh_task jid rid config_yaml s →
  runs (env jid rid) fails n (scrape_task jid config_yaml (Some rid) trigger script targets) s o s' →
  ours s' = true → rtc sstep (service s') w →
  run_is_active jid rid (db w) = false ∧ ∀ r, job_runs (db w) !! rid = Some r → r_status r ≠ running.
Proof.
  intros Hj Hd Ht Hr Hn Hs Hruns Ho Hw.
  destruct (task_runs jid rid config_yaml fails Hj Hd Ht Hr trigger script targets n s o s' Hn Hs Hruns) as [Hi Hov].
  assert (ended rid (absw w)) as He by (eapply ended_call; [by apply Hov|done]).
  split; [by apply ended_inactive|]. intros r Hrun. exact (ended_not_running _ _ He _ (absw_run _ _ _ Hrun)).
Qed.

Lemma sample_names : deliverable "j1" "r1" "project: p".
Proof.
  intros config Hl. injection Hl as <-. constructor; try done.
  - apply clear_checked. by vm_compute.
  - apply clear_checked. by vm_compute.
  - apply contains_absent. by vm_compute.
  - apply contains_absent. by vm_compute.
Qed.

Lemma sample_fresh : fresh_task "j1" "r1" "project: p" sample_task.
Proof.
  split_and!; try done.
  - constructor; try done. apply submitted_reachable.
  - intros j Hj. assert (option_map j_current_run_id (jobs (db (service sample_task)) !! "j1") = Some (Some "r1"))
      as E by by vm_compute.
    rewrite Hj in E. injection E as ->. by eexists.
Qed.

(** A duplicate delivery of a run that another worker executes, cancelled while it loads
    the job, fails that run. *)
Definition duplicate_task : task (gset (string * string)) := set_service claimed_w sample_task.
Example duplicate_fails_the_run :
  run_of duplicate_task = Some running ∧ ours (exec_cut 0 sample_scrape duplicate_task).2 = false ∧
  run_of (exec_cut 0 sample_scrape duplicate_task).2 = Some failed.
Proof. vm_compute. repeat split. Qed.

(** Cancelled at a target, the task fails its run. *)
Lemma no_run_left_running_witness :
  ours (exec_cut 6 sample_scrape sample_task).2 = true ∧
  run_is_active "j1" "r1" (db (service (exec_cut 6 sample_scrape sample_task).2)) = false.
Proof.
  assert (ours (exec_cut 6 sample_scrape sample_task).2 = true) as Ho by by vm_compute. split; [exact Ho|].
  apply (no_run_left_running "j1" "r1" "project: p" (λ _, False) 1 "adhoc"
    [Checkpoint "target"; Reserve (Budget.reserve_requests (λ n, Z.of_nat n) 1) []] (Ok [sample_target])
    sample_task (exec_cut 6 sample_scrape sample_task).2 (exec_cut 6 sample_scrape sample_task).1 _
    (λ H, H) sample_names ltac:(done) ltac:(done) ltac:(done) sample_fresh
    (exec_cut_runs _ _ 6 sample_scrape sample_task) Ho (rtc_refl _ _)).
Defined.
