(* ===== verification/WorkerResult.v ===== *)
(** * The result of a finished run

    However often the worker's task is cancelled and whatever fails, it never throws away
    the result of a run that is recorded as complete or partial, and records none as such
    before its result is saved. *)

From S2P Require Import Prelude.
From S2P Require Import Text.
From S2P Require Import Budget.
From S2P Require Import Envelope.
From S2P Require Import Rows.
From S2P Require Import JobDb.
From S2P Require Import JobModel.
From S2P Require Import Tx.
From S2P Require Import Json.
From S2P Require Import Outbox.
From S2P Require Import JobTerminal.
From S2P Require Import JobRecovery.
From S2P Require Import JobStore.
From S2P Require Import TxStore.
From S2P Require Import JobRuns.
From S2P Require Import RunSpec.
From S2P Require Import System.
From S2P Require Import Proc.
From S2P Require Import Models.
From S2P Require Import Worker.
From S2P Require Import Samples.
Open Scope Z_scope.

(** The run is recorded with a result. *)
Definition has_result (s : JobStatus) : Prop := s = complete ∨ s = partial.
Definition recorded (jid rid : string) (d : DB) : Prop :=
  ∃ r, job_runs d !! rid = Some r ∧ r_job_id r = jid ∧ has_result (r_status r).

Section store.
Context `{Vault} `{JsonText}.
Implicit Types d : DB.

(** Which store calls record one: none but [finalize_owned_run]. *)
Definition records_none {A} (jid rid : string) (m : store A) : Prop :=
  ∀ d, recorded jid rid (m d).2 → recorded jid rid d.

Lemma claim_records_none jid rid u rid' jid' trigger h t :
  records_none jid rid (claim_run u rid' jid' trigger h t).
Proof.
  intros d. destruct (claim_run_keeps u rid' jid' trigger h t d) as [Hok|[_ ->]]; [|done].
  destruct (claim_run_true _ _ _ _ _ _ _ Hok) as (j & c & Hc). rewrite (claimable_runs u _ _ _ _ t _ _ _ Hc).
  cbn. intros (r & Hr & ? & Hs). cbn in Hr. destruct (decide (rid = rid')) as [->|Hne].
  - rewrite lookup_insert_eq in Hr. injection Hr as <-. by destruct Hs.
  - rewrite lookup_insert_ne in Hr by done. by exists r.
Qed.

Lemma finalize_records jid rid u st n e t cutoff w d :
  recorded jid rid (finalize_owned_run u jid rid st n e t cutoff w d).2 → recorded jid rid d ∨ has_result st.
Proof.
  destruct (finalize_cases u jid rid st n e t cutoff w d) as [(j & r & Hf & ->)|[_ ->]]; [|by left].
  cbn. intros (r' & Hr & ? & Hs). cbn in Hr. rewrite lookup_insert_eq in Hr. injection Hr as <-. by right.
Qed.

Lemma fail_records_none jid rid u jid' rid' t cutoff n w :
  records_none jid rid (fail_owned_run u jid' rid' t cutoff n w).
Proof.
  intros d. unfold fail_owned_run. destruct (check_delivery w jid' rid' failed); [|done].
  match goal with |- context [transaction ?b d] =>
    apply (tx_transaction b d (λ x d', recorded jid rid d' → recorded jid rid d)) end.
  txs; try done; intros (r' & Hr & ? & Hs); cbn in Hr; try (by exists r').
  all: destruct (decide (rid = rid')) as [->|Hne];
    [rewrite lookup_insert_eq in Hr; injection Hr as <-; by destruct Hs
    |rewrite lookup_insert_ne in Hr by done; by exists r'].
Qed.

Lemma queue_records_none jid rid u adm jid' st exp_run rid' trigger t h y b :
  records_none jid rid (queue_run u adm jid' st exp_run rid' trigger t h y b).
Proof.
  intros d. unfold queue_run, _check_admission. destruct (closed_lifecycle st); [done|].
  match goal with |- context [transaction ?b d] =>
    apply (tx_transaction b d (λ x d', recorded jid rid d' → recorded jid rid d)) end.
  txs; try done.
Qed.
End store.

Section worker.
Context `{Vault} `{JsonText} {R : Type} `{ResultStore R} `{Deployment}.
Context (jid rid : string) (fails : channel → Prop).
Implicit Types s : task R.

(** The rest of the service neither ends this run with a result nor deletes the result. *)
Record quiet s s' : Prop := {
  q_recorded : recorded jid rid (db (service s')) → recorded jid rid (db (service s));
  q_stored : stored jid rid (results s) → stored jid rid (results s');
  q_context : context s' = context s;
}.

Definition named s : Prop := ∀ c, context s = Some c → x_run_id c = rid.

(** The claim; and the two states of affairs that give it. *)
Definition preserved s : Prop := named s ∧ (recorded jid rid (db (service s)) → stored jid rid (results s)).
Definition unrecorded s : Prop := named s ∧ ¬ recorded jid rid (db (service s)).
Definition saved s : Prop := named s ∧ stored jid rid (results s).

Lemma unrecorded_preserved s : unrecorded s → preserved s.
Proof. by intros [? ?]. Qed.
Lemma saved_preserved s : saved s → preserved s.
Proof. by intros [? ?]. Qed.

(** Assertions about the database, the results and the context. *)
Definition untouched s s' : Prop :=
  (service s', results s', context s') = (service s, results s, context s).
Record framed (P : task R → Prop) : Prop := {
  f_stable : stable quiet P;
  f_same s s' : untouched s s' → P s → P s';
  f_named s : P s → named s;
}.

Lemma named_quiet s s' : named s → quiet s s' → named s'.
Proof. intros Hn E c. rewrite (q_context _ _ E). apply Hn. Qed.

Lemma preserved_framed : framed preserved.
Proof.
  split; [| |by intros s [? _]].
  - intros s s' [Hn Hp] E. split; [by eapply named_quiet|]. intros Hr. by apply E, Hp, E.
  - unfold preserved, named. intros s s' [= E1 E2 E3]. by rewrite ?E1, ?E2, ?E3.
Qed.
Lemma unrecorded_framed : framed unrecorded.
Proof.
  split; [| |by intros s [? _]].
  - intros s s' [Hn Hp] E. split; [by eapply named_quiet|]. intros Hr. by apply Hp, E.
  - unfold unrecorded, named. intros s s' [= E1 E2 E3]. by rewrite ?E1, ?E2, ?E3.
Qed.
Lemma saved_framed : framed saved.
Proof.
  split; [| |by intros s [? _]].
  - intros s s' [Hn Hp] E. split; [by eapply named_quiet|]. by apply E.
  - unfold saved, named. intros s s' [= E1 E2 E3]. by rewrite ?E1, ?E2, ?E3.
Qed.

Context (jobs_work : ¬ fails JobChannel).
Abbreviation always := (always quiet fails).
Definition keeps {A} (P : task R → Prop) (p : proc (task R) A) : Prop := always P p (λ _, P).

Lemma keeps_seq {A B} P (p : proc (task R) A) (k : A → proc (task R) B) :
  keeps P p → (∀ a, keeps P (k a)) → keeps P (bind p k).
Proof. intros Hp Hk. by eapply always_bind; [exact Hp|..]. Qed.
Lemma keeps_attempt {A B} P (p : proc (task R) A) (k : outcome exn A → proc (task R) B) :
  keeps P p → (∀ o, keeps P (k o)) → keeps P (attempt p k).
Proof. intros Hp Hk. by eapply always_attempt; [exact Hp|..]. Qed.
Lemma keeps_except {A} P (p : proc (task R) A) (h : exn → proc (task R) A) :
  keeps P p → (∀ e, keeps P (h e)) → keeps P (except p h).
Proof. intros Hp Hk. by eapply always_except; [exact Hp|..]. Qed.
Lemma keeps_shield {A} P (p : proc (task R) A) : keeps P p → keeps P (shield p).
Proof. apply always_shield. Qed.
Lemma keeps_return {A} P (a : A) : keeps P (Return a).
Proof. by apply always_return. Qed.
Lemma keeps_throw {A} P e : keeps P (Throw (A := A) e).
Proof. by apply always_throw. Qed.
Lemma keeps_outcome {A} P (o : outcome exn A) : keeps P (of_outcome o).
Proof. by apply always_outcome. Qed.

Section framed.
Context (P : task R → Prop) (HP : framed P).

Lemma keeps_local {A} (m : prog (task R) exn A) : (∀ s, untouched s (m s).2) → keeps P (local m).
Proof. intros Hm. apply always_local. intros s Hs. by eapply (f_same _ HP s). Qed.
Lemma keeps_get {A} (f : task R → A) : keeps P (get f).
Proof. by apply keeps_local. Qed.
Lemma keeps_await {A} ch (m : prog (task R) exn A) : (∀ s, untouched s (m s).2) → keeps P (await ch m).
Proof.
  intros Hm. apply always_await; [apply HP|..].
  - intros s Hs. by eapply (f_same _ HP s).
  - intros s e Hs _. split; [done|]. by eapply (f_same _ HP s).
Qed.
Lemma keeps_read {A} (m : store A) : (∀ d, (m d).2 = d) → keeps P (job_store m).
Proof.
  intros Hm. apply keeps_await. intros [w]. unfold untouched, on_jobs. cbn. rewrite Hm, union_empty_r_L. by destruct w.
Qed.
Lemma keeps_on_budget {A} (m : Budget.budget_prog A) : keeps P (local (on_budget m)).
Proof. apply keeps_local. intros s. unfold on_budget. by destruct (budget s). Qed.

(** What leaves the three alone in every procedure of the worker. *)
Ltac stays := repeat first
  [ apply keeps_return | apply keeps_throw | apply keeps_outcome | apply keeps_get
  | apply keeps_shield | apply keeps_on_budget
  | apply keeps_seq; [|intros ?] | apply keeps_except; [|intros ?] | apply keeps_attempt; [|intros ?]
  | match goal with |- keeps _ (match ?x with _ => _ end) => destruct x end
  | apply keeps_local; done | apply keeps_await; done | apply keeps_read; done ].

Lemma keeps_checkpoint name : keeps P (checkpoint jid rid name).
Proof. unfold checkpoint. stays. Qed.
Lemma keeps_stop : keeps P stop_heartbeat.
Proof. unfold stop_heartbeat, assign. stays. Qed.
Lemma keeps_ensure : keeps P ensure_owned.
Proof. unfold ensure_owned. stays. Qed.
Lemma keeps_dispatch config d : keeps P (dispatch_webhook config d).
Proof. unfold dispatch_webhook. stays. Qed.
Lemma keeps_snapshot run_id : keeps P (_error_count_snapshot run_id).
Proof. unfold _error_count_snapshot, count_errors. stays. Qed.
Lemma keeps_log l : keeps P (log_errors l).
Proof. unfold log_errors. stays. Qed.
Lemma keeps_flush l : keeps P (_flush_errors jid rid l).
Proof. unfold _flush_errors, log_errors. stays; apply keeps_checkpoint. Qed.
Lemma keeps_act a : keeps P (act jid rid a).
Proof. destruct a; cbn [act]; stays; auto using keeps_checkpoint, keeps_flush. Qed.
Lemma keeps_targets script targets : keeps P (_process_all_targets jid rid script targets).
Proof.
  induction script as [|a script IH]; cbn [_process_all_targets].
  - apply keeps_local. by destruct targets.
  - apply keeps_seq; [apply keeps_act|done].
Qed.
End framed.

Ltac frame := repeat match goal with |- framed _ => first [apply preserved_framed|apply unrecorded_framed|apply saved_framed] end.
Ltac stays_with tac :=
  repeat first
    [ solve [tac] | apply keeps_return | apply keeps_throw | apply keeps_outcome
    | apply keeps_get; frame | apply keeps_checkpoint; frame | apply keeps_stop; frame
    | apply keeps_ensure; frame | apply keeps_dispatch; frame | apply keeps_snapshot; frame
    | apply keeps_log; frame | apply keeps_on_budget; frame
    | apply keeps_shield
    | apply keeps_seq; [|intros ?] | apply keeps_except; [|intros ?] | apply keeps_attempt; [|intros ?]
    | match goal with |- keeps _ (match ?x with _ => _ end) => destruct x end
    | apply keeps_local; [frame|done] | apply keeps_await; [frame|done] | apply keeps_read; [frame|done] ].
Ltac stays_too := stays_with fail.

(** ** Calls *)

Lemma keeps_recording {A} (m : store A) : records_none jid rid m → keeps preserved (job_store m).
Proof.
  intros Hm. assert (∀ s, preserved s → preserved (on_jobs m ∅ s).2) as Hk.
  { intros s [Hn Hp]. split; [done|]. cbn. intros Hr. by apply Hp, Hm. }
  apply always_await; [apply preserved_framed|done|]. intros s e Hs _. split; [done|by apply Hk].
Qed.

(** Once the result is saved the run may end as it likes. *)
Lemma keeps_saved {A} (m : store A) : keeps saved (job_store m).
Proof. by apply always_await; [apply saved_framed|..]; try (intros ? ? ?; split). Qed.

Lemma crash_keeps run_id : keeps preserved (_handle_execution_crash jid run_id).
Proof.
  unfold _handle_execution_crash, utc_now. stays_too.
  all: unfold handle_crash; stays_too; by apply keeps_recording, fail_records_none.
Qed.

(** An active run is not recorded as finished. *)
Lemma active_unrecorded s : named s → run_is_active jid rid (db (service s)) = true → unrecorded s.
Proof.
  intros Hn Ha. split; [done|]. intros (r & Hr & Hj & Hs). unfold run_is_active in Ha.
  destruct (jobs (db (service s)) !! jid) as [j|]; [|done]. apply andb_true_iff in Ha as [[_ Hc]%owned_as_true Ha].
  unfold current_run in Ha. rewrite Hc, Hr, bool_decide_true in Ha by done.
  boolprop. destruct Hs; congruence.
Qed.

Lemma checkpoint_unrecorded name : always preserved (checkpoint jid rid name)
  (λ o s, match o with Ok _ => unrecorded s | Raise _ => preserved s end).
Proof.
  unfold checkpoint. eapply (always_bind _ _ _ _ _ (λ o s, preserved s ∧ (o = Ok true → unrecorded s))).
  - apply always_await; [apply preserved_framed|..].
    + intros s Hs. rewrite on_jobs_read by done. split; [done|]. intros [= Ha]. apply active_unrecorded; [apply Hs|done].
    + intros s e Hs _. rewrite on_jobs_read by done. by split.
  - intros []; [apply always_return|apply always_throw]; intros s [? Hu]; [by apply Hu|done].
  - by intros e s [? _].
Qed.

(** ** Throwing away the result *)

Lemma finalized_unrecorded : always preserved (_run_finalized_by_owner jid rid)
  (λ o s, preserved s ∧ (o = Ok false → unrecorded s)).
Proof.
  unfold _run_finalized_by_owner.
  eapply (always_attempt _ _ _ _ _ (λ o s, preserved s ∧
    match o with
    | Ok (Some r) => has_result (r_status r) ∨ unrecorded s
    | Ok None => unrecorded s
    | Raise e => e = Cancelled
    end)).
  - apply always_await; [apply preserved_framed|..].
    + intros s Hs. rewrite on_jobs_read by done. split; [done|]. cbn.
      destruct (job_runs (db (service s)) !! rid) as [r|] eqn:Hr.
      * destruct (bool_decide (r_job_id r = jid)) eqn:Hj; cbn.
        -- destruct (decide (has_result (r_status r))) as [?|Hno]; [by left|right].
           split; [apply Hs|]. intros (r' & Hr' & _ & Hs'). congruence.
        -- boolprop. split; [apply Hs|]. intros (r' & Hr' & Hj' & _). congruence.
      * split; [apply Hs|]. intros (r' & Hr' & _). congruence.
    + intros s e Hs Hor. rewrite on_jobs_read by done. destruct Hor as [->|Hf]; [by split|done].
  - intros [[r|]|e].
    + eapply (always_bind _ _ _ _ _ (λ o s, preserved s ∧ (has_result (r_status r) ∨ unrecorded s))).
      * apply always_local. by intros s Hs.
      * intros c. eapply (always_bind _ _ _ _ _ (λ o s, preserved s ∧ (has_result (r_status r) ∨ unrecorded s))).
        -- apply always_local. by intros s Hs.
        -- intros f. apply always_return. intros s [Hs Hor]. split; [done|]. intros [= Hf]. boolprop.
           destruct Hor as [[?|?]|?]; congruence.
        -- intros e s [? _]. by split.
      * intros e s [? _]. by split.
    + apply always_return. by intros s [? ?].
    + destruct (is_cancelled e) eqn:He; [apply always_throw|apply always_return]; intros s [? ->]; by split.
Qed.

Lemma discard_keeps : keeps preserved (_discard_unowned_result jid (Some rid)).
Proof.
  cbn [_discard_unowned_result]. eapply always_bind; [apply finalized_unrecorded| |by intros e s [? _]].
  intros []; [apply always_return; by intros s [? _]|].
  apply (always_pre _ _ unrecorded); [|intros s [_ Hu]; by apply Hu].
  eapply (always_except _ _ _ _ _ (λ o s, preserved s)).
  - eapply (always_bind _ _ _ _ _ (λ o s, preserved s)); [|intros a; by apply always_return|done].
    apply always_await; [apply unrecorded_framed|..].
    + intros s [? ?]. by apply unrecorded_preserved.
    + intros s e [? ?] _. by split; apply unrecorded_preserved.
  - done.
  - intros e. by apply always_return.
  - done.
Qed.

(** ** Saving the result *)

Lemma save_saves c doc st n limit : x_run_id c = rid →
  always unrecorded (save_run_result c jid doc st n limit)
    (λ o s, preserved s ∧ (is_ok o = true → saved s)).
Proof.
  intros Hc. unfold save_run_result. rewrite Hc. cbv zeta. apply always_await; [apply unrecorded_framed|..].
  - intros s Hs. split; [by apply unrecorded_preserved|]. cbn. intros Hok. split; [apply Hs|cbn].
    match goal with |- stored _ _ (save_result ?j ?r ?d ?x ?y ?z ?w).2 =>
      destruct (save_result j r d x y z w).1 as [m|f] eqn:E; [|by destruct f] end.
    by eapply saved_is_stored.
  - intros s e [? ?] _. by split; (split; [by apply unrecorded_preserved|]).
Qed.

(** A result is saved before it is recorded. *)
Lemma persist_saves c l : x_run_id c = rid →
  always preserved (_persist_job_results c jid l) (λ o s, preserved s ∧ (is_ok o = true → saved s)).
Proof.
  intros Hc. unfold _persist_job_results. rewrite Hc.
  eapply always_bind; [apply checkpoint_unrecorded|intros []|by intros e s].
  eapply (always_bind _ _ _ _ _ (λ o s, unrecorded s)); [apply keeps_on_budget, unrecorded_framed|intros []|];
    [|by intros e s Hs; split; [by apply unrecorded_preserved|]].
  unfold _collect_result_payload. cbv zeta.
  eapply (always_bind _ _ _ _ _ (λ o s, unrecorded s)); [|intros doc|];
    [|..|by intros e s Hs; split; [by apply unrecorded_preserved|]].
  { apply keeps_await; [apply unrecorded_framed|]. intros s. by destruct (budget s). }
  eapply (always_bind _ _ _ _ _ (λ o s, unrecorded s)); [apply keeps_on_budget, unrecorded_framed|intros []|];
    [|by intros e s Hs; split; [by apply unrecorded_preserved|]].
  eapply (always_bind _ _ _ _ _ (λ o s, unrecorded s)); [apply keeps_get, unrecorded_framed|intros doc'|];
    [|by intros e s Hs; split; [by apply unrecorded_preserved|]].
  eapply always_bind; [by apply save_saves|intros meta|by intros e s [? _]].
  apply (always_pre _ _ saved); [|intros s [_ Hs]; by apply Hs].
  eapply (always_bind _ _ _ _ _ (λ o s, saved s)); [apply keeps_checkpoint, saved_framed|intros []|].
  - apply always_return. intros s Hs. split; [by apply saved_preserved|done].
  - intros e s Hs. split; [by apply saved_preserved|done].
Qed.

Lemma finalize_keeps c p : keeps saved (_finalize_job_execution c jid p).
Proof.
  unfold _finalize_job_execution, utc_now, count_errors, assign. destruct (decide (x_run_id c = rid)) as [->|].
  - stays_with ltac:(apply keeps_saved).
  - unfold checkpoint. stays_with ltac:(apply keeps_saved).
Qed.

(** ** A run that hits a limit *)

Lemma save_budget_keeps c e t : x_run_id c = rid → keeps preserved (save_budget_result c jid e t).
Proof.
  intros Hc. unfold save_budget_result. rewrite Hc.
  apply keeps_seq; [apply keeps_get, preserved_framed|intros b]. cbv zeta.
  apply keeps_attempt; [|intros o; stays_too].
  eapply always_bind; [apply checkpoint_unrecorded|intros []|done].
  eapply always_bind; [by apply save_saves|intros meta|by intros e' s [? _]].
  apply (always_pre _ _ preserved); [|by intros s [? _]]. stays_too.
Qed.

Lemma finalize_failed_none u n e t cutoff w :
  records_none jid rid (finalize_owned_run u jid rid failed n e t cutoff w).
Proof. intros d Hr. by destruct (finalize_records _ _ _ _ _ _ _ _ _ _ Hr) as [?|[?|?]]. Qed.

Lemma exhaustion_keeps c e : x_run_id c = rid → keeps preserved (_handle_budget_exhaustion c jid e).
Proof.
  intros Hc. unfold _handle_budget_exhaustion, utc_now, assign. rewrite Hc. cbv zeta.
  stays_with ltac:(first [apply discard_keeps|by apply save_budget_keeps|apply crash_keeps
                         |apply keeps_recording, finalize_failed_none]).
Qed.

Lemma get_context_spec {A} (k : option JobExecutionContext → proc (task R) A) :
  keeps preserved (k None) → (∀ c, x_run_id c = rid → keeps preserved (k (Some c))) →
  keeps preserved (bind (get context) k).
Proof.
  intros Hno Hk. eapply (always_bind _ _ _ _ _ (λ o s, preserved s ∧ o = Ok (context s))).
  - by apply always_local.
  - intros [c|].
    + intros n s [Hs [= Hc]]. apply Hk; [|done]. apply (proj1 Hs). done.
    + apply (always_pre _ _ preserved); [apply Hno|by intros s [? _]].
  - by intros e s [? _].
Qed.

Lemma budget_stop_keeps e : keeps preserved (_handle_budget_stop jid (Some rid) e).
Proof.
  unfold _handle_budget_stop. apply get_context_spec; [apply crash_keeps|].
  intros c Hc. apply keeps_except; [by apply exhaustion_keeps|]. intros x. rewrite Hc.
  stays_with ltac:(first [apply discard_keeps|apply crash_keeps]).
Qed.

(** ** The handlers and the task *)

Lemma active_spec {A} (k : option string → proc (task R) A) :
  keeps preserved (k (Some rid)) → keeps preserved (bind (get (active_run_id (Some rid))) k).
Proof.
  intros Hk. eapply (always_bind _ _ _ _ _ (λ o s, preserved s ∧ o = Ok (Some rid))).
  - apply always_local. intros s Hs. split; [done|]. cbn. unfold active_run_id.
    destruct (context s) as [c|] eqn:Hc; [|done]. by rewrite (proj1 Hs c Hc).
  - intros a n s [Hs [= ->]]. by apply Hk.
  - by intros e s [? _].
Qed.

Lemma cancellation_keeps : keeps preserved (on_cancellation jid (Some rid)).
Proof.
  unfold on_cancellation, _handle_worker_cancellation. apply keeps_seq; [|intros b; stays_too].
  apply active_spec. stays_with ltac:(first [apply discard_keeps|apply crash_keeps]).
Qed.

Lemma or_cancelled_keeps p : keeps preserved p → keeps preserved (or_cancelled jid (Some rid) p).
Proof.
  intros Hp. apply keeps_attempt; [done|]. intros [|[]]; try apply keeps_outcome; apply cancellation_keeps.
Qed.

Lemma on_exception_keeps e : keeps preserved (on_exception jid (Some rid) e).
Proof.
  unfold on_exception. destruct e; try apply cancellation_keeps;
    try (apply or_cancelled_keeps, budget_stop_keeps); apply active_spec;
    (destruct (is_ownership_error _); [stays_with ltac:(apply discard_keeps)|]);
    apply or_cancelled_keeps; stays_with ltac:(first [apply discard_keeps|apply crash_keeps]).
Qed.

(** ** The run *)

Context (config_yaml : string) (rid_named : rid ≠ "").

Lemma load_keeps : always preserved (_load_job_execution_context jid config_yaml (Some rid))
  (λ o s, preserved s ∧ ∀ c, o = Ok (Some c) → x_run_id c = rid).
Proof.
  assert (∀ A (p : proc (task R) A) (k : A → proc (task R) (option JobExecutionContext)),
    keeps preserved p → (∀ a, always preserved (k a) (λ o s, preserved s ∧ ∀ c, o = Ok (Some c) → x_run_id c = rid)) →
    always preserved (bind p k) (λ o s, preserved s ∧ ∀ c, o = Ok (Some c) → x_run_id c = rid)) as Hb.
  { intros A p k Hp Hk. eapply always_bind; [exact Hp|exact Hk|]. by intros e s ?. }
  unfold _load_job_execution_context. apply Hb; [apply keeps_read; [apply preserved_framed|done]|intros job].
  cbv zeta. rewrite effective_is by done.
  destruct (_should_skip_delivery job rid); [apply always_return; by intros s ?|].
  apply Hb; [apply keeps_await; [apply preserved_framed|]; by intros|intros config].
  apply Hb; [apply keeps_local; [apply preserved_framed|by intros]|intros _].
  apply Hb; [by apply keeps_get, preserved_framed|intros t].
  apply Hb; [by apply keeps_local; [apply preserved_framed|]|intros _].
  apply always_return. intros s Hs. split; [done|]. by intros c [= <-].
Qed.

Lemma claiming_keeps c trigger h t : x_run_id c = rid →
  keeps preserved (await JobChannel (claim (x_run_id c) jid trigger h t)).
Proof.
  intros ->. assert (∀ s, preserved s → preserved (claim rid jid trigger h t s).2) as Hk.
  { intros s [Hn Hp]. unfold claim.
    assert (preserved (on_jobs (claim_run nonces rid jid trigger h t) ∅ s).2) as Hm.
    { split; [done|]. cbn. intros Hr. by eapply Hp, claim_records_none. }
    destruct (on_jobs _ ∅ s) as [[[]|] s']; cbn in *; try done. }
  apply always_await; [apply preserved_framed|done|]. intros s e Hs _. split; [done|by apply Hk].
Qed.

Lemma queue_keeps adm st exp trigger t :
  keeps preserved (await JobChannel (on_jobs (queue_run nonces adm jid st exp rid trigger t None None false) {[ rid ]})).
Proof.
  assert (∀ s, preserved s → preserved (on_jobs (queue_run nonces adm jid st exp rid trigger t None None false) {[ rid ]} s).2) as Hk.
  { intros s [Hn Hp]. split; [done|]. cbn. intros Hr. by eapply Hp, queue_records_none. }
  apply always_await; [apply preserved_framed|done|]. intros s e Hs _. split; [done|by apply Hk].
Qed.

Lemma mark_keeps c trigger : x_run_id c = rid → keeps preserved (_mark_run_started c jid trigger).
Proof.
  intros Hc. unfold _mark_run_started, check_deadline.
  stays_with ltac:(first [by apply claiming_keeps|rewrite Hc; apply queue_keeps]).
Qed.

Lemma run_keeps trigger script targets :
  keeps preserved (run_job jid config_yaml (Some rid) trigger script targets).
Proof.
  unfold run_job. eapply always_bind; [apply load_keeps| |by intros e s [? _]].
  intros [c|]; [|by apply always_return; intros s [? _]].
  intros n s [Hs Hc]. specialize (Hc c eq_refl). revert n s Hs.
  apply keeps_seq; [apply always_local; intros s [Hn Hp]; split; [by intros ? [= <-]|done]|intros _].
  apply keeps_seq; [by apply mark_keeps|intros []; cbn [negb]; [|apply keeps_return]].
  rewrite Hc. apply keeps_seq; [by apply keeps_local; [apply preserved_framed|]|intros _].
  apply keeps_seq; [apply keeps_checkpoint, preserved_framed|intros _].
  apply keeps_seq; [apply keeps_targets, preserved_framed|intros l].
  eapply always_bind; [by apply persist_saves|intros p|by intros e s [? _]].
  apply (always_weaken _ _ saved _ _ (λ _, saved)); [|intros s [_ Hs]; by apply Hs|intros o s; apply saved_preserved].
  apply keeps_seq; [apply keeps_ensure, saved_framed|intros _].
  apply keeps_seq; [apply keeps_stop, saved_framed|intros _]. apply finalize_keeps.
Qed.

Lemma task_keeps trigger script targets :
  keeps preserved (scrape_task jid config_yaml (Some rid) trigger script targets).
Proof.
  unfold scrape_task. apply keeps_attempt.
  - apply keeps_attempt; [apply run_keeps|]. intros [a|e]; [apply keeps_return|apply on_exception_keeps].
  - intros o. apply keeps_seq; [apply keeps_stop, preserved_framed|intros _; apply keeps_outcome].
Qed.
End worker.

(** [C3] Results are not lost: however often the task is cancelled, whatever its targets
    do, and whichever calls fail (those on the job store excepted), when [scrape_task] stops,
    a run that is recorded as complete or partial has its saved result; provided it was so
    before, that no one else ends this run with a result or deletes it. *)
Theorem recorded_runs_keep_their_result `{Vault} `{JsonText} {R : Type} `{ResultStore R} `{Deployment}
    jid rid config_yaml fails n trigger script targets (s s' : task R) o :
  ¬ fails JobChannel → rid ≠ "" → context s = None →
  (recorded jid rid (db (service s)) → stored jid rid (results s)) →
  runs (quiet jid rid) fails n (scrape_task jid config_yaml (Some rid) trigger script targets) s o s' →
  recorded jid rid (db (service s')) → stored jid rid (results s').
Proof.
  intros Hj Hr Hc Hs Hruns.
  apply (always_runs _ _ n _ _ _ s o s' (task_keeps jid rid fails Hj config_yaml Hr trigger script targets)); [|exact Hruns].
  split; [|done]. intros c. by rewrite Hc.
Qed.

Lemma recorded_runs_keep_their_result_witness :
  recorded "j1" "r1" (db (service (exec sample_scrape sample_task).2)) ∧
  stored "j1" "r1" (results (exec sample_scrape sample_task).2).
Proof.
  assert (recorded "j1" "r1" (db (service (exec sample_scrape sample_task).2))) as Hr.
  { assert (option_map (λ r, (r_job_id r, r_status r)) (job_runs (db (service (exec sample_scrape sample_task).2)) !! "r1")
      = Some ("j1", complete)) as E by by vm_compute.
    destruct (job_runs _ !! "r1") as [r|] eqn:Er; [|done]. injection E as E1 E2. exists r. by repeat split; [..|left]. }
  split; [exact Hr|].
  apply (recorded_runs_keep_their_result "j1" "r1" "project: p" (λ _, False) 0 "adhoc"
    [Checkpoint "target"; Reserve (Budget.reserve_requests (λ n, Z.of_nat n) 1) []] (Ok [sample_target])
    sample_task _ (exec sample_scrape sample_task).1 (λ H, H)); [done|done| |apply (exec_runs _ _ 0 sample_scrape)|exact Hr].
  intros (r & E & _). by vm_compute in E.
Defined.
