(* ===== verification/Service.v ===== *)
(** * What the reconcilers and the scheduler work on

    The stores, the run queue and the clocks as one state, and the calls on them. The run
    queue is an interface ([DeliveryQueue]) that [RedisDeliveries] implements with the
    scripts of Queue.v; result metadata and APScheduler are parameters. Also the monitor of
    an interval-driven loop ([runtime/background.py]). *)

From S2P Require Import Prelude.
From S2P Require Import Crontab.
From S2P Require Import Redis.
From S2P Require Import Priority.
From S2P Require Import Queue.
From S2P Require Import Envelope.
From S2P Require Import Rows.
From S2P Require Import JobDb.
From S2P Require Import JobModel.
From S2P Require Import Json.
From S2P Require Import System.
From S2P Require Import Proc.
From S2P Require Import Models.
From S2P Require Import ErrorStore.
From S2P Require Import Worker.
Import Priority.
Open Scope Z_scope.

(** ** The run queue *)

(** What the callers of [WorkerPool] rely on: an enqueue that returns leaves a delivery of
    the run that the queue knows of. *)
Class DeliveryQueue (Q : Type) := {
  inspect_delivery : Z → string → Q → outcome queue_error QueueDeliveryState;
  enqueue : Z → string → string → string → bool → string → string → prog Q queue_error unit;
  enqueue_delivers now jid config priority needs_browser rid trigger q :
    (enqueue now jid config priority needs_browser rid trigger q).1 = Ok tt →
    inspect_delivery now rid (enqueue now jid config priority needs_browser rid trigger q).2 ≠ Ok st_missing;
}.

(** The results of jobs, as far as this part of the service uses them: the path and the
    record count of a run's metadata, and the removal of all results of a job. *)
Class ResultFiles (R : Type) := {
  get_result_metadata : string → string → R → outcome string (option (string * option Z));
  delete_results : string → list string → prog R string unit;
  has_results : string → R → Prop;
  deleted_leaves_none jid ids r :
    (delete_results jid ids r).1 = Ok tt → ¬ has_results jid (delete_results jid ids r).2;
}.

(** APScheduler: a trigger of cron fields, a time zone and a jitter, or why there is none; a
    registry of jobs by id, where removing an unknown id is a [JobLookupError]. *)
Class CronScheduler (A : Type) := {
  cron_trigger : cron_fields → string → Z → outcome string Z;
  add_job : string → Z → A → A;
  remove_job : string → A → option A;
  pause_job : string → A → A;
  start_scheduler : A → A;
  shutdown_scheduler : A → option A;
  aps_running : A → bool;
  next_run_time : string → A → option (option Z);
}.

(** ** The state *)

(** [failures] is [_schedule_failures], and [healthy_at]
    what [mark_last_success] recorded of the scheduler. *)
Record host (Q R A : Type) := {
  stores : world;
  clock : Z;
  monotonic_clock : Z;
  pool : Q;
  artifacts : R;
  errors : errors_db;
  cron : A;
  failures : gmap string string;
  healthy_at : option Z;
}.
Arguments stores {Q R A}. Arguments clock {Q R A}. Arguments monotonic_clock {Q R A}.
Arguments pool {Q R A}. Arguments artifacts {Q R A}. Arguments errors {Q R A}. Arguments cron {Q R A}.
Arguments failures {Q R A}. Arguments healthy_at {Q R A}.

Section setters.
Context {Q R A : Type}.
Implicit Type h : host Q R A.
Definition set_stores (v : world) h : host Q R A :=
  {| stores := v; clock := clock h; monotonic_clock := monotonic_clock h; pool := pool h;
     artifacts := artifacts h; errors := errors h; cron := cron h; failures := failures h; healthy_at := healthy_at h |}.
Definition set_pool (v : Q) h : host Q R A :=
  {| stores := stores h; clock := clock h; monotonic_clock := monotonic_clock h; pool := v;
     artifacts := artifacts h; errors := errors h; cron := cron h; failures := failures h; healthy_at := healthy_at h |}.
Definition set_cron (v : A) h : host Q R A :=
  {| stores := stores h; clock := clock h; monotonic_clock := monotonic_clock h; pool := pool h;
     artifacts := artifacts h; errors := errors h; cron := v; failures := failures h; healthy_at := healthy_at h |}.
Definition set_failures (v : gmap string string) h : host Q R A :=
  {| stores := stores h; clock := clock h; monotonic_clock := monotonic_clock h; pool := pool h;
     artifacts := artifacts h; errors := errors h; cron := cron h; failures := v; healthy_at := healthy_at h |}.
Definition set_healthy_at (v : option Z) h : host Q R A :=
  {| stores := stores h; clock := clock h; monotonic_clock := monotonic_clock h; pool := pool h;
     artifacts := artifacts h; errors := errors h; cron := cron h; failures := failures h; healthy_at := v |}.
Definition set_artifacts (v : R) h : host Q R A :=
  {| stores := stores h; clock := clock h; monotonic_clock := monotonic_clock h; pool := pool h;
     artifacts := v; errors := errors h; cron := cron h; failures := failures h; healthy_at := healthy_at h |}.
Definition set_errors (v : errors_db) h : host Q R A :=
  {| stores := stores h; clock := clock h; monotonic_clock := monotonic_clock h; pool := pool h;
     artifacts := artifacts h; errors := v; cron := cron h; failures := failures h; healthy_at := healthy_at h |}.
(** Time passes. *)
Definition advance (d : Z) h : host Q R A :=
  {| stores := stores h; clock := clock h + d; monotonic_clock := monotonic_clock h + d; pool := pool h;
     artifacts := artifacts h; errors := errors h; cron := cron h; failures := failures h; healthy_at := healthy_at h |}.
End setters.

(** No job waits under this run id. *)
Definition unqueued (rid : string) (w : world) : Prop :=
  ∀ jid j, jobs (db w) !! jid = Some j → j_status j = queued → j_current_run_id j ≠ Some rid.

(** ** Calls *)

Section calls.
Context `{Vault} `{JsonText} {Q R A : Type} `{DeliveryQueue Q} `{ResultFiles R} `{CronScheduler A} `{Deployment}.
Implicit Types (h : host Q R A) (jid rid : string).

Abbreviation procedure := (proc (host Q R A)).

Definition on_store {B} (m : store B) (ids : gset string) : prog (host Q R A) exn B := λ h,
  let r := m (db (stores h)) in
  (in_store r.1, set_stores {| db := r.2; used := used (stores h) ∪ ids |} h).
Definition job_call {B} (m : store B) : procedure B := await JobChannel (on_store m ∅).

Definition inspect rid : procedure QueueDeliveryState :=
  await QueueChannel (λ h, (in_queue (inspect_delivery (clock h) rid (pool h)), h)).
Definition enqueue_run jid config priority (needs_browser : bool) rid trigger : procedure unit :=
  await QueueChannel (λ h,
    let r := enqueue (clock h) jid config priority needs_browser rid trigger (pool h) in
    (in_queue r.1, set_pool r.2 h)).

(** [asyncio.to_thread(load_config, ..)] *)
Definition load (config : string) : procedure ScrapeConfig :=
  await OtherChannel (λ h, (in_library (load_config config), h)).
Definition metadata_of jid rid : procedure (option (string * option Z)) :=
  await ResultChannel (λ h, (in_library (get_result_metadata jid rid (artifacts h)), h)).

Definition remove_results jid ids : procedure unit :=
  await ResultChannel (λ h,
    let r := delete_results jid ids (artifacts h) in (in_library r.1, set_artifacts r.2 h)).
Definition error_call {B} (m : error_store B) : procedure B :=
  await ErrorChannel (λ h, let r := m (errors h) in (in_store r.1, set_errors r.2 h)).
(** [asyncio.sleep]; what else happens meanwhile may take longer. *)
Definition sleep (d : Z) : procedure unit := await OtherChannel (λ h, (Ok tt, advance d h)).

Definition current_time : procedure Z := local (λ h, (Ok (clock h), h)).
Definition fetch {B} (f : host Q R A → B) : procedure B := local (λ h, (Ok (f h), h)).
Definition update (f : host Q R A → host Q R A) : procedure unit := local (λ h, (Ok tt, f h)).

(** ** [queue_delivery_metadata] ([queue/delivery.py]) *)
Record QueueDeliveryMetadata := { priority : string; needs_browser : bool }.
Definition queue_delivery_metadata (config : ScrapeConfig) : QueueDeliveryMetadata :=
  {| priority := cfg_priority config;
     needs_browser := existsb (λ t, negb (bool_decide (t_fetcher t = basic))) (cfg_targets config) |}.

(** [run_lease_is_active] ([queue/job_state.py]) *)
Definition run_lease_is_active (updated_at : option Z) (lease_seconds now : Z) : bool :=
  match updated_at with None => false | Some t => now - t <? lease_seconds end.
End calls.

(** ** The queue on Redis *)

(** A worker pool: Redis, and the flags of [WorkerPool]. *)
Record RedisPool (T : Type) := { redis : T; pool_started : bool; pool_stopping : bool }.
Arguments redis {T}. Arguments pool_started {T}. Arguments pool_stopping {T}.

Section redis.
Context {T : Type} `{Redis T} `{QueueNames}.
Context (payload_ttl_ms : Z) (payload : string → string → bool → string → Z → string).
Context (payload_ttl_positive : 0 < payload_ttl_ms).

Lemma in_queue_known q r (s : T) x :
  q ∈ known_queues → z_score s q r = Some x →
  ∃ y, head (omap (λ q, (λ x, (q, x)) <$> z_score s q r) known_queues) = Some y.
Proof.
  intros Hq Hx. generalize dependent known_queues. intros l Hq. induction Hq as [l|q q' l Hq IH]; cbn.
  - rewrite Hx. cbn. eauto.
  - destruct (z_score s q' r); cbn; eauto.
Qed.

Lemma waiting_not_missing now clock_ms q r (s : T) x :
  r_exists s now (job_key r) = true → q ∈ known_queues → z_score s q r = Some x →
  ∀ n, delivery_snapshot now clock_ms r s ≠ Ok {| snap_state := st_missing; snap_queue := n |}.
Proof.
  intros Hj Hq Hx n. destruct (in_queue_known _ _ _ _ Hq Hx) as [[q' y] Hy].
  unfold delivery_snapshot. repeat (case_match; try done); congruence.
Qed.

Lemma enqueued_not_missing now clock_ms pri r enqueue_ms p (s : T) b n :
  pri ∈ PRIORITIES → (atomic_enqueue now (intake pri) r enqueue_ms payload_ttl_ms p s).1 = Ok b →
  delivery_snapshot now clock_ms r (atomic_enqueue now (intake pri) r enqueue_ms payload_ttl_ms p s).2
    ≠ Ok {| snap_state := st_missing; snap_queue := n |}.
Proof.
  intros Hpri Ho. assert (intake pri ∈ known_queues) as Hknown by by apply intake_known.
  destruct (atomic_enqueue _ _ _ _ _ _ s) as [o s'] eqn:He. cbn in Ho |- *. subst o. destruct b.
  - apply enqueue_stored in He as (s1 & score & life & _ & _ & _ & _ & _ & _ & _ & Hl & _ & ->).
    apply (waiting_not_missing now clock_ms (intake pri) r _ score); [|done|].
    + unfold r_set. rewrite exists_write_other by by apply fifo_not_job.
      rewrite exists_add, exists_setex. apply Z.ltb_lt. lia.
    + unfold r_set. by rewrite score_write, zadd_same.
  - pose proof (enqueue_refused _ _ _ _ _ _ _ _ He) as ->. unfold atomic_enqueue in He.
    destruct (r_exists s now (result_key r)) eqn:E1; [unfold delivery_snapshot; by rewrite E1|].
    destruct (r_exists s now (in_progress_key r)) eqn:E2.
    { unfold delivery_snapshot. rewrite E1, E2. by destruct (1 <? _)%nat. }
    cbn [orb] in He. destruct (r_exists s now (job_key r)) eqn:E3.
    + cbn [andb] in He. destruct (existsb _ known_queues) eqn:E4; [|repeat case_match; congruence].
      apply existsb_elem in E4 as (q & Hq & [x Hx]%bool_decide_eq_true).
      by apply (waiting_not_missing now clock_ms q r s x).
    + cbn [andb] in He. repeat case_match; congruence.
Qed.

#[export, program] Instance RedisDeliveries : DeliveryQueue (RedisPool T) := {|
  inspect_delivery now rid q :=
    if negb (pool_started q) then Raise NotStarted
    else match delivery_snapshot now now rid (redis q) with Ok s => Ok (snap_state s) | Raise e => Raise e end;
  enqueue now jid config priority needs_browser rid trigger := λ q,
    let r := pool_enqueue (pool_started q) (pool_stopping q) now priority (Some rid) now payload_ttl_ms
               (payload jid rid needs_browser trigger now) (redis q) in
    (match r.1 with Ok _ => Ok tt | Raise e => Raise e end,
     {| redis := r.2; pool_started := pool_started q; pool_stopping := pool_stopping q |}) |}.
Next Obligation.
  intros now jid config pri browser rid trigger q. cbn. unfold pool_enqueue.
  destruct (pool_stopping q); [done|]. destruct (pool_started q); [|done]. cbn.
  case_bool_decide as Hpri; [|done]. cbn. unfold pbind. set (p := payload _ _ _ _ _).
  pose proof (enqueued_not_missing now now pri rid now p (redis q)) as Hs.
  destruct (atomic_enqueue _ _ _ _ _ _ (redis q)) as [[b|e] s']; cbn in *; [|done]. intros _.
  destruct (delivery_snapshot now now rid s') as [[st n]|e]; cbn in *; [|done].
  intros [= ->]. by apply (Hs b n).
Qed.
End redis.

(** ** Monitors ([BackgroundLoopMonitor]) *)

Module Monitor.
Record monitor := {
  interval_seconds : Z;
  _grace_seconds : Z;
  _failure_grace_count : Z;
  _started_at : Z;
  _last_success_at : option Z;
  _last_failure_at : option Z;
  _consecutive_failures : Z;
  (** the task, once bound: whether it is done *)
  _task : option bool;
}.

Definition create (interval grace_cycles failure_grace_count now : Z) : outcome store_error monitor :=
  if interval <=? 0 then Raise (ValueError "interval_seconds must be positive")
  else if grace_cycles <=? 1 then Raise (ValueError "grace_cycles must allow at least one failed cycle")
  else if failure_grace_count <? 0 then Raise (ValueError "failure_grace_count must not be negative")
  else Ok {| interval_seconds := interval; _grace_seconds := interval * grace_cycles;
             _failure_grace_count := failure_grace_count; _started_at := now; _last_success_at := None;
             _last_failure_at := None; _consecutive_failures := 0; _task := None |}.

Definition bind (m : monitor) : monitor :=
  {| interval_seconds := interval_seconds m; _grace_seconds := _grace_seconds m;
     _failure_grace_count := _failure_grace_count m; _started_at := _started_at m;
     _last_success_at := _last_success_at m; _last_failure_at := _last_failure_at m;
     _consecutive_failures := _consecutive_failures m; _task := Some false |}.
Definition record_success (now : Z) (m : monitor) : monitor :=
  {| interval_seconds := interval_seconds m; _grace_seconds := _grace_seconds m;
     _failure_grace_count := _failure_grace_count m; _started_at := _started_at m;
     _last_success_at := Some now; _last_failure_at := _last_failure_at m;
     _consecutive_failures := 0; _task := _task m |}.
Definition record_failure (now : Z) (m : monitor) : monitor :=
  {| interval_seconds := interval_seconds m; _grace_seconds := _grace_seconds m;
     _failure_grace_count := _failure_grace_count m; _started_at := _started_at m;
     _last_success_at := _last_success_at m; _last_failure_at := Some now;
     _consecutive_failures := _consecutive_failures m + 1; _task := _task m |}.

(** [self._last_success_at or self._started_at]: a success at 0 counts as none. *)
Definition last_healthy (m : monitor) : Z :=
  match _last_success_at m with Some t => if t =? 0 then _started_at m else t | None => _started_at m end.
Definition background_ok (now : Z) (m : monitor) : bool :=
  match _task m with
  | Some false =>
      if _failure_grace_count m <? _consecutive_failures m then false
      else now - last_healthy m <=? _grace_seconds m
  | _ => false
  end.
End Monitor.
