(* ===== verification/ResultClients.v ===== *)
(** * The result store behind the interfaces of its callers

    The worker and the deletion of jobs use the result store through [ResultStore] and
    [ResultFiles]; undisturbed executions of the store's operations implement both, and the
    laws the callers rely on hold of them. *)

From S2P Require Import Prelude.
From S2P Require Import Text.
From S2P Require Import Paths.
From S2P Require Import Budget.
From S2P Require Import Rows.
From S2P Require Import JobDb.
From S2P Require Import Json.
From S2P Require Import JsonEncoding.
From S2P Require Import Proc.
From S2P Require Import Models.
From S2P Require Import Worker.
From S2P Require Import Service.
From S2P Require Import Filesystem.
From S2P Require Import LocalResults.
From S2P Require Import LocalResultsSpec.
Open Scope Z_scope.

Section clients.
Context `{ResultSettings} `{JsonReader} `{Printable}.
Implicit Types (s : archive) (jid rid : string).

(** What the store raises, as its callers tell it apart. *)
Definition as_failure (e : exn) : failure :=
  match e with BudgetStop b => OverBudget b | Broken t => OtherFailure t | _ => OtherFailure "Exception" end.
Definition store_save jid rid (doc : list (string * json)) (status : JobStatus) (record_count : Z) (limit : option Z) :
    prog archive failure SaveResultMeta := λ s,
  let r := exec (LocalResults.save_result jid (JObject doc) (Some rid) rid (status_value status) (Some record_count) limit) s in
  (match r.1 with Ok m => Ok m | Raise e => Raise (as_failure e) end, r.2).
Definition store_delete jid rid : prog archive failure bool := λ s,
  let r := exec (LocalResults.delete_result jid rid) s in
  (match r.1 with Ok b => Ok b | Raise e => Raise (as_failure e) end, r.2).
Definition has_row jid rid s : Prop := lookup_row jid (Some rid) s ≠ None.

Lemma row_found jid rid s id row : meta s !! id = Some row → m_job_id row = jid → m_run_id row = rid → has_row jid rid s.
Proof.
  intros Hr Hj Hi Hn. unfold lookup_row in Hn. apply head_None in Hn.
  assert ((id, row) ∈ rows_where (λ x, bool_decide (m_job_id x = jid) && bool_decide (m_run_id x = rid)) s) as Hin.
  { apply elem_rows. cbn. by rewrite !bool_decide_true. }
  rewrite Hn in Hin. by apply not_elem_of_nil in Hin.
Qed.

(** A step of an undisturbed execution that returned. *)
Lemma exec_ok {A B} (p : proc archive A) (k : A → proc archive B) s b :
  (exec (bind p k) s).1 = Ok b →
  ∃ a, (exec p s).1 = Ok a ∧ (exec (k a) (exec p s).2).1 = Ok b ∧ exec (bind p k) s = exec (k a) (exec p s).2.
Proof. rewrite exec_bind. destruct (exec p s).1 as [a|e]; [|done]. intros Hb. by exists a. Qed.

Lemma check_budget_meta s : meta (check_budget s).2 = meta s.
Proof. unfold check_budget. by destruct (run_budget s). Qed.

Lemma recorded_row jid project rid status count data dir path limit s n :
  (exec (write_and_record jid project rid status count data dir path limit) s).1 = Ok (Sized n) →
  ∃ id row, meta (exec (write_and_record jid project rid status count data dir path limit) s).2 !! id = Some row ∧
    m_job_id row = jid ∧ m_run_id row = rid.
Proof.
  unfold write_and_record. intros Hw. apply exec_ok in Hw as (w & _ & Hw & ->).
  destruct w as [n'|]; [|done]. apply exec_ok in Hw as (u & _ & Hw & ->). apply exec_ok in Hw as (u' & _ & _ & ->).
  cbn [exec fst snd]. unfold meta_call. rewrite exec_await. unfold replace_row, pmodify. cbn [fst snd meta set_meta set_next_meta_id].
  eexists _, _. split; [apply lookup_insert_eq|]. done.
Qed.

Lemma saved_has_row jid rid data count limit status s m :
  (exec (LocalResults.save_result jid data (Some rid) rid status count limit) s).1 = Ok m →
  has_row jid rid (exec (LocalResults.save_result jid data (Some rid) rid status count limit) s).2.
Proof.
  unfold LocalResults.save_result. intros Hs. apply exec_ok in Hs as (job & _ & Hs & ->). cbv zeta in *.
  assert ((if bool_decide (rid = "") then rid else rid) = rid) as Er by by case_bool_decide. rewrite Er in *.
  apply exec_ok in Hs as (lim & _ & Hs & ->). destruct (safe_join _) as [rel|e]; [|done].
  apply exec_ok in Hs as (dir & _ & Hs & ->). apply exec_ok in Hs as (n & Hn & _ & ->). cbn [exec snd].
  set (s1 := (exec (checked_dir _) _).2) in *. revert Hn. unfold replace_artifact.
  intros Hn. apply exec_ok in Hn as (existed & _ & Hn & ->). apply exec_ok in Hn as (u & _ & Hn & ->). cbv zeta in *.
  apply exec_ok in Hn as (previous & _ & Hn & ->). revert Hn. rewrite exec_attempt. set (s2 := (exec _ _).2).
  pose proof (recorded_row jid job.1 rid status count data dir (dir ++ ["results.json"]) lim s2) as Hrow.
  destruct (exec (write_and_record _ _ _ _ _ _ _ _ _) s2) as [[[n'|obs]|e] s3]; cbn [fst snd] in *.
  - intros Hn. apply exec_ok in Hn as (u' & _ & _ & ->). rewrite exec_local. cbn [exec snd].
    destruct (Hrow n' eq_refl) as (id & row & Hr & Hj & Hi). eapply row_found; [|done..]. by rewrite check_budget_meta.
  - intros Hn. apply exec_ok in Hn as (u' & _ & Hn & _). rewrite exec_local in Hn. unfold too_big in Hn.
    destruct (run_budget _); cbn in Hn; [|done]. by destruct (in_budget _).
  - intros Hn. by apply exec_ok in Hn as (u' & _ & Hn & _).
Qed.

#[export] Instance worker_results : ResultStore archive.
Proof.
  refine {| Worker.save_result := store_save; Worker.delete_result := store_delete; stored := has_row |}.
  intros jid rid doc status count limit s m. unfold store_save. cbn [fst snd].
  destruct (exec _ s).1 as [m'|e] eqn:E; [|done]. intros _. by apply (saved_has_row _ _ _ _ _ _ _ m').
Defined.

Definition error_name (e : exn) : string := match e with Broken t => t | _ => "Exception" end.
Definition store_metadata jid rid s : outcome string (option (string * option Z)) :=
  match (exec (LocalResults.get_result_metadata jid (Some rid)) s).1 with
  | Ok m => Ok ((λ m, (rm_file_path m, rm_record_count m)) <$> m)
  | Raise e => Raise (error_name e)
  end.
Definition store_delete_results jid (owned_run_ids : list string) : prog archive string unit := λ s,
  let r := exec (LocalResults.delete_results jid owned_run_ids) s in
  (match r.1 with Ok _ => Ok tt | Raise e => Raise (error_name e) end, r.2).
Definition job_has_rows jid s : Prop := ∃ id row, meta s !! id = Some row ∧ m_job_id row = jid.

Lemma thread_meta {A} (m : Z → disk_op A) s : meta (exec (disk_call m) s).2 = meta s.
Proof. unfold disk_call, cleanup_safe_to_thread. rewrite exec_attempt, exec_await. cbn [fst snd]. by rewrite exec_local. Qed.

Lemma deleted_has_no_rows jid ids s u :
  (exec (LocalResults.delete_results jid ids) s).1 = Ok u → ¬ job_has_rows jid (exec (LocalResults.delete_results jid ids) s).2.
Proof.
  unfold LocalResults.delete_results. intros Hd. apply exec_ok in Hd as (job & _ & Hd & ->).
  destruct (owned_paths _ _ _) as [expected|e]; [|done]. apply exec_ok in Hd as (found & Hf & Hd & ->).
  set (s1 := (exec (job_lookup jid) s).2) in *.
  assert (exec (meta_call (reading (rows_where (λ x, bool_decide (m_job_id x = jid))))) s1 =
    (Ok (rows_where (λ x, bool_decide (m_job_id x = jid)) s1), s1)) as E
    by by unfold meta_call; rewrite exec_await.
  rewrite E in *. cbn in Hf. injection Hf as <-. cbn [snd] in *. clear E. set (found := rows_where _ s1) in *.
  assert (∀ id row, meta s1 !! id = Some row → m_job_id row = jid → (id, row) ∈ found) as Hall.
  { intros id row Hr Hj. apply elem_rows. cbn. by rewrite bool_decide_true. }
  apply exec_ok in Hd as (n & Hn & _ & ->). cbn [exec snd]. revert Hn. unfold _delete_files_then_ids.
  destruct (_ && _) eqn:Hempty.
  - intros _ (id & row & Hr & Hj). specialize (Hall id row Hr Hj). apply andb_true_iff in Hempty as [Hemp%bool_decide_eq_true _].
    rewrite Hemp in Hall. by apply not_elem_of_nil in Hall.
  - intros Hn. apply exec_ok in Hn as (paths & _ & Hn & ->). apply exec_ok in Hn as (u1 & _ & Hn & ->).
    apply exec_ok in Hn as (u2 & _ & _ & ->). cbn [exec snd]. rewrite exec_local. cbn [snd].
    intros (id & row & Hr & Hj). set (s2 := (exec (disk_call _) _).2) in *.
    assert (meta s2 = meta s1) as Em by by unfold s2; rewrite thread_meta.
    assert (meta s1 !! id = Some row ∧ id ∉ map fst found) as [Hr1 Hni].
    { destruct found as [|x l] eqn:Ef.
      - cbn [exec snd] in Hr. rewrite Em in Hr. split; [done|]. cbn. apply not_elem_of_nil.
      - rewrite <- Ef in *. unfold meta_call in Hr. rewrite exec_await in Hr. unfold _delete_metadata_ids, pmodify in Hr.
        cbn [snd meta set_meta set_validated] in Hr. apply map_lookup_filter_Some in Hr as [Hr Hni]. by rewrite Em in Hr. }
    apply Hni, list_elem_of_fmap. exists (id, row). split; [done|]. by apply Hall.
Qed.

#[export] Instance deletion_results : ResultFiles archive.
Proof.
  refine {| Service.get_result_metadata := store_metadata; Service.delete_results := store_delete_results; has_results := job_has_rows |}.
  intros jid ids s. unfold store_delete_results. cbn [fst snd].
  destruct (exec _ s).1 as [u|e] eqn:E; [|done]. intros _. by apply (deleted_has_no_rows _ _ _ u).
Defined.
End clients.
