(* ===== verification/Reconcile.v ===== *)
(** * Reconciliation ([queue/reconciliation.py], [queue/running_reconciliation.py],
    [queue/terminal_reconciliation.py])

    The passes that repair accepted deliveries the queue lost, runs whose worker died and
    terminal runs without their webhook, and one round of each of their loops. Log lines
    are left out. *)

From S2P Require Import Prelude.
From S2P Require Import Text.
From S2P Require Import Unicode.
From S2P Require Import Crontab.
From S2P Require Import Redis.
From S2P Require Import Queue.
From S2P Require Import Envelope.
From S2P Require Import Rows.
From S2P Require Import JobDb.
From S2P Require Import JobModel.
From S2P Require Import Json.
From S2P Require Import Outbox.
From S2P Require Import JobTerminal.
From S2P Require Import Payload.
From S2P Require Import JobRecovery.
From S2P Require Import System.
From S2P Require Import Samples.
From S2P Require Import Proc.
From S2P Require Import Models.
From S2P Require Import ErrorStore.
From S2P Require Import Worker.
From S2P Require Import Service.
Open Scope Z_scope.

(** [QueuedReconciliationSummary] *)
Record QueuedReconciliationSummary := {
  inspected : nat;
  queue_present : nat;
  recovered : nat;
  q_failed : nat;
  q_race_noop : nat;
}.
Definition no_summary : QueuedReconciliationSummary :=
  {| inspected := 0; queue_present := 0; recovered := 0; q_failed := 0; q_race_noop := 0 |}.

(** [TerminalIntentReconciliationSummary], and the counts it is made of. *)
Record TerminalIntentReconciliationSummary := {
  t_inspected : nat;
  t_required : nat;
  t_existing : nat;
  t_repaired : nat;
  t_not_required : nat;
  t_race_noop : nat;
  t_metadata_missing : nat;
  t_parent_converged : nat;
}.

Record RunningReconciliationSummary := {
  run_recovered : nat;
  terminal_intents : TerminalIntentReconciliationSummary;
}.

#[export] Instance TerminalIntentAction_eq_dec : EqDecision TerminalIntentAction.
Proof. solve_decision. Defined.

Definition one (b : bool) : nat := if b then 1 else 0.
Definition QueuedReconciliationError : exn := Broken "QueuedReconciliationError".
Definition TerminalIntentReconciliationError : exn := Broken "TerminalIntentReconciliationError".
Definition is_queued_reconciliation_error (e : exn) : bool :=
  match e with Broken t => bool_decide (t = "QueuedReconciliationError") | _ => false end.

Definition _ACTIVE_DELIVERY_STATES (st : QueueDeliveryState) : bool :=
  match st with st_queued | st_deferred | st_in_progress => true | _ => false end.

(** [load_yaml_mapping], of a library, and what is told of a notifier. *)
Class Reconciling := {
  load_yaml_mapping : string → outcome string (list (string * json));
}.

Section reconcile.
Context `{Vault} `{JsonText} {Q R A : Type} `{DeliveryQueue Q} `{ResultFiles R} `{CronScheduler A} `{Deployment}.
Context `{Reconciling}.

Abbreviation procedure := (proc (host Q R A)).

(** ** Queued deliveries *)

Definition _conditionally_fail_delivery (job : StaleQueuedJob) (failed_at : Z) (expected_queued_at : option Z) :
    procedure bool :=
  job_call (fail_queued_run_recovery nonces (q_job_id job) (q_run_id job)
              (default (q_queued_at job) expected_queued_at) failed_at).

Definition failed_or_lost (did_fail : bool) : QueuedReconciliationSummary :=
  {| inspected := 1; queue_present := 0; recovered := 0; q_failed := one did_fail; q_race_noop := one (negb did_fail) |}.
Definition fail_delivery (job : StaleQueuedJob) (failed_at : Z) (expected : option Z) :
    procedure QueuedReconciliationSummary :=
  let* did_fail := _conditionally_fail_delivery job failed_at expected in Return (failed_or_lost did_fail).

(** The original run is put back into the queue, once its row is reserved. *)
Definition restore_delivery (job : StaleQueuedJob) (m : QueueDeliveryMetadata) (stale_before inspected_at : Z) :
    procedure QueuedReconciliationSummary :=
  let* reserved := job_call (reserve_queued_run_recovery (q_job_id job) (q_run_id job) (q_queued_at job)
                               stale_before inspected_at) in
  if negb reserved
  then Return {| inspected := 1; queue_present := 0; recovered := 0; q_failed := 0; q_race_noop := 1 |}
  else
    attempt (enqueue_run (q_job_id job) (q_config_yaml job) (priority m) (needs_browser m) (q_run_id job) (q_trigger job))
      (λ o, match o with
            | Ok _ => Return {| inspected := 1; queue_present := 0; recovered := 1; q_failed := 0; q_race_noop := 0 |}
            | Raise Cancelled => Throw Cancelled
            | Raise _ => fail_delivery job inspected_at (Some inspected_at)
            end).

(** A delivery that the queue lost: its configuration is read again for its metadata. *)
Definition missing_delivery (job : StaleQueuedJob) (stale_before inspected_at : Z) :
    procedure QueuedReconciliationSummary :=
  attempt (let* config := load (q_config_yaml job) in Return (queue_delivery_metadata config)) (λ o,
    match o with
    | Ok m => restore_delivery job m stale_before inspected_at
    | Raise Cancelled => Throw Cancelled
    | Raise _ => fail_delivery job inspected_at None
    end).

Definition reconcile_stale_queued_job (job : StaleQueuedJob) (stale_before inspected_at : Z) :
    procedure QueuedReconciliationSummary :=
  let* delivery_state := except (inspect (q_run_id job)) (λ _, Throw QueuedReconciliationError) in
  if _ACTIVE_DELIVERY_STATES delivery_state
  then Return {| inspected := 1; queue_present := 1; recovered := 0; q_failed := 0; q_race_noop := 0 |}
  else
    match delivery_state with
    | st_complete => fail_delivery job inspected_at None
    | _ => missing_delivery job stale_before inspected_at
    end.

Definition add_summary (a b : QueuedReconciliationSummary) : QueuedReconciliationSummary :=
  {| inspected := inspected a; queue_present := queue_present a + queue_present b;
     recovered := recovered a + recovered b; q_failed := q_failed a + q_failed b;
     q_race_noop := q_race_noop a + q_race_noop b |}%nat.

Fixpoint reconcile_each (jobs : list StaleQueuedJob) (stale_before inspected_at : Z)
    (total : QueuedReconciliationSummary) : procedure QueuedReconciliationSummary :=
  match jobs with
  | [] => Return total
  | job :: jobs =>
      let* item := except (reconcile_stale_queued_job job stale_before inspected_at)
                     (λ e, if is_queued_reconciliation_error e then Throw QueuedReconciliationError else Throw e) in
      reconcile_each jobs stale_before inspected_at (add_summary total item)
  end.

Definition reconcile_stale_queued_jobs (queued_claim_timeout : Z) (at_time : option Z)
    (batch_size : option nat) (batch_offset : nat) : procedure QueuedReconciliationSummary :=
  let* inspected_at := match at_time with Some t => Return t | None => current_time end in
  let stale_before := inspected_at - queued_claim_timeout in
  let* stale_jobs := job_call (list_stale_queued_jobs stale_before batch_size batch_offset) in
  reconcile_each stale_jobs stale_before inspected_at
    {| inspected := length stale_jobs; queue_present := 0; recovered := 0; q_failed := 0; q_race_noop := 0 |}.

(** One round of the loop, after its sleep: the next offset, and the monitor. *)
Definition queued_round (queued_claim_timeout : Z) (batch_size : nat) (batch_offset : nat) (m : Monitor.monitor) :
    procedure (nat * Monitor.monitor) :=
  attempt (reconcile_stale_queued_jobs queued_claim_timeout None (Some batch_size) batch_offset) (λ o,
    match o with
    | Raise Cancelled => Throw Cancelled
    | Ok summary =>
        let* t := fetch monotonic_clock in
        Return (if (inspected summary =? batch_size)%nat then (batch_offset + queue_present summary)%nat else 0%nat,
                Monitor.record_success t m)
    | Raise _ =>
        let* t := fetch monotonic_clock in Return (batch_offset, Monitor.record_failure t m)
    end).

(** ** Terminal webhook intents *)

Definition _event (c : TerminalWebhookCandidate) : string := event_of (c_status c).

(** The metadata, and whether it is missing. *)
Definition _load_result_metadata (c : TerminalWebhookCandidate) :
    procedure (option (string * option Z) * bool) :=
  except (let* m := metadata_of (c_job_id c) (c_run_id c) in
          Return (match m with Some x => (Some x, false) | None => (None, true) end))
         (λ _, Return (None, true)).

Definition _declares_webhook (config_yaml : string) : bool :=
  match load_yaml_mapping config_yaml with
  | Ok m => match payload_get m "webhook" with Some JNull | None => false | Some _ => true end
  | Raise _ => true
  end.

Definition _load_terminal_config (c : TerminalWebhookCandidate) : procedure (option ScrapeConfig) :=
  attempt (load (c_config_yaml c)) (λ o,
    match o with
    | Ok config => Return (Some config)
    | Raise Cancelled => Throw Cancelled
    | Raise e =>
        let* declares := await OtherChannel (λ h, (Ok (_declares_webhook (c_config_yaml c)), h)) in
        if (declares : bool) then Throw e else Return None
    end).

Definition no_counts : TerminalIntentReconciliationSummary :=
  {| t_inspected := 0; t_required := 0; t_existing := 0; t_repaired := 0; t_not_required := 0;
     t_race_noop := 0; t_metadata_missing := 0; t_parent_converged := 0 |}.
Definition add_counts (a b : TerminalIntentReconciliationSummary) : TerminalIntentReconciliationSummary :=
  {| t_inspected := t_inspected a + t_inspected b; t_required := t_required a + t_required b;
     t_existing := t_existing a + t_existing b; t_repaired := t_repaired a + t_repaired b;
     t_not_required := t_not_required a + t_not_required b; t_race_noop := t_race_noop a + t_race_noop b;
     t_metadata_missing := t_metadata_missing a + t_metadata_missing b;
     t_parent_converged := t_parent_converged a + t_parent_converged b |}%nat.

(** The counters are set as the candidate goes along: they keep what they have when an
    exception stops it, so they are passed on with the outcome. *)
Definition count_required : TerminalIntentReconciliationSummary :=
  {| t_inspected := 0; t_required := 1; t_existing := 0; t_repaired := 0; t_not_required := 0;
     t_race_noop := 0; t_metadata_missing := 0; t_parent_converged := 0 |}.
Definition count_missing (missing : bool) : TerminalIntentReconciliationSummary :=
  {| t_inspected := 0; t_required := 0; t_existing := 0; t_repaired := 0; t_not_required := 0;
     t_race_noop := 0; t_metadata_missing := one missing; t_parent_converged := 0 |}.
Definition count_result (known : bool) (r : TerminalIntentReconcileResult) : TerminalIntentReconciliationSummary :=
  let created := bool_decide (t_action r = intent_created) in
  let existing := bool_decide (t_action r = intent_existing) in
  let none := bool_decide (t_action r = not_required) in
  {| t_inspected := 0; t_required := 0; t_existing := one existing;
     t_repaired := one (created && negb known); t_not_required := one (none && negb known);
     t_race_noop := one (negb existing && (known || (negb created && negb none)));
     t_metadata_missing := 0; t_parent_converged := one (parent_converged r) |}.

(** What came of one candidate: its counts, and the exception that stopped it. *)
Abbreviation candidate_outcome := (TerminalIntentReconciliationSummary * option exn)%type.

Definition ensure_candidate (c : TerminalWebhookCandidate) (known : bool)
    (counts : TerminalIntentReconciliationSummary) (delivery : option WebhookDeliveryCreate) : procedure candidate_outcome :=
  attempt (job_call (reconcile_terminal_webhook_candidate nonces c delivery)) (λ o,
    match o with
    | Ok r => Return (add_counts counts (count_result known r), None)
    | Raise Cancelled => Throw Cancelled
    | Raise e => Return (counts, Some e)
    end).

Definition owed_delivery (c : TerminalWebhookCandidate) (config : ScrapeConfig)
    (metadata : option (string * option Z)) : option WebhookDeliveryCreate :=
  build_terminal_webhook_delivery isoformat redact_userinfo_in_url [] config (c_job_id c) (c_status c) (c_run_id c)
    (option_map fst metadata)
    (match metadata with Some (_, Some n) => Some n | _ => c_record_count c end)
    (c_error_count c) (c_started_at c) (reconciled_at c) (Some (c_config_hash c)).

Definition _candidate (c : TerminalWebhookCandidate) : procedure candidate_outcome :=
  match c_existing c with
  | Some _ => ensure_candidate c true count_required None
  | None =>
      if negb (bool_decide (sha256 (c_config_yaml c) = c_config_hash c))
      then Return (no_counts, Some (InStore (ValueError "Persisted job config no longer matches the terminal run config hash")))
      else
        attempt (_load_terminal_config c) (λ o,
          match o with
          | Raise Cancelled => Throw Cancelled
          | Raise e => Return (no_counts, Some e)
          | Ok None => ensure_candidate c false no_counts None
          | Ok (Some config) =>
              match cfg_webhook config with
              | Some webhook =>
                  if should_fire (hook_on webhook) (c_status c) then
                    let* metadata := _load_result_metadata c in
                    ensure_candidate c false (add_counts count_required (count_missing metadata.2))
                      (owed_delivery c config metadata.1)
                  else ensure_candidate c false no_counts None
              | None => ensure_candidate c false no_counts None
              end
          end)
  end.

(** A failed candidate is ordered behind the others, if that can be recorded. *)
Definition mark_failed_candidate (c : TerminalWebhookCandidate) : procedure unit :=
  let* failed_at := current_time in
  except (let* _ := job_call (mark_terminal_webhook_reconciliation_failure (c_job_id c) (c_run_id c) failed_at) in
          Return tt)
         (λ _, Return tt).

Fixpoint reconcile_candidates (candidates : list TerminalWebhookCandidate)
    (counts : TerminalIntentReconciliationSummary) (first_failure : option exn) : procedure candidate_outcome :=
  match candidates with
  | [] => Return (counts, first_failure)
  | c :: candidates =>
      let* o := _candidate c in
      do* match o.2 with Some _ => mark_failed_candidate c | None => Return tt end in
      reconcile_candidates candidates (add_counts counts o.1)
        (match first_failure with Some e => Some e | None => o.2 end)
  end.

Definition reconcile_terminal_webhook_intents (batch_size : option nat) :
    procedure TerminalIntentReconciliationSummary :=
  let* candidates := job_call (list_terminal_webhook_candidates batch_size) in
  let* o := reconcile_candidates candidates
    (add_counts no_counts {| t_inspected := length candidates; t_required := 0; t_existing := 0; t_repaired := 0;
       t_not_required := 0; t_race_noop := 0; t_metadata_missing := 0; t_parent_converged := 0 |}) None in
  match o.2 with
  | Some _ => Throw TerminalIntentReconciliationError
  | None => Return o.1
  end.

(** ** Running jobs *)

(** [webhook_notifier.notify()] only sets an event. *)
Definition notify : procedure unit := await OtherChannel (λ h, (Ok tt, h)).

Definition reconcile_stale_running_jobs (heartbeat_timeout : Z) (batch_size : nat) (has_notifier : bool)
    (at_time : option Z) : procedure RunningReconciliationSummary :=
  let* recovered_at := match at_time with Some t => Return t | None => current_time end in
  let cutoff := recovered_at - heartbeat_timeout in
  let* recoveries := job_call (recover_stale_running_jobs cutoff recovered_at (Some batch_size)) in
  let* terminal := reconcile_terminal_webhook_intents (Some batch_size) in
  do* (if negb (t_repaired terminal =? 0)%nat && has_notifier then notify else Return tt) in
  Return {| run_recovered := length recoveries; terminal_intents := terminal |}.

Definition running_round (heartbeat_timeout : Z) (batch_size : nat) (has_notifier : bool) (m : Monitor.monitor) :
    procedure Monitor.monitor :=
  attempt (reconcile_stale_running_jobs heartbeat_timeout batch_size has_notifier None) (λ o,
    match o with
    | Raise Cancelled => Throw Cancelled
    | Ok _ => let* t := fetch monotonic_clock in Return (Monitor.record_success t m)
    | Raise _ => let* t := fetch monotonic_clock in Return (Monitor.record_failure t m)
    end).
End reconcile.

(** * A sample service

    Concrete instances of what the reconcilers are given: the queue on Redis, a registry of
    schedules, metadata of no result; and states with an empty queue. *)

#[export] Instance sample_queue : DeliveryQueue (RedisPool GRedis) :=
  RedisDeliveries 604800000 (λ jid rid _ _ _, jid +:+ "/" +:+ rid) eq_refl.

(** The jobs that have results. *)
#[export] Program Instance sample_metadata : ResultFiles (gset string) := {|
  get_result_metadata _ _ _ := Ok None;
  delete_results jid _ := λ r, (Ok tt, r ∖ {[ jid ]});
  has_results jid r := jid ∈ r |}.
Next Obligation. intros jid ids r _. cbn. set_solver. Qed.

(** Triggers by job; whether the scheduler runs. *)
#[export] Instance sample_cron : CronScheduler (gmap string Z * bool) := {|
  cron_trigger _ tz jitter := if bool_decide (tz = "UTC") then Ok jitter else Raise "ZoneInfoNotFoundError";
  add_job jid t a := (<[jid := t]> a.1, a.2);
  Service.remove_job jid a := if bool_decide (is_Some (a.1 !! jid)) then Some (delete jid a.1, a.2) else None;
  pause_job _ a := a;
  start_scheduler a := (a.1, true);
  shutdown_scheduler a := if a.2 then Some (a.1, false) else None;
  aps_running a := a.2;
  next_run_time _ _ := None |}.

#[export] Instance sample_reconciling : Reconciling := {| load_yaml_mapping _ := Ok [] |}.
Definition host_of (w : world) (t : Z) : host (RedisPool GRedis) (gset string) (gmap string Z * bool) := {|
  stores := w; clock := t; monotonic_clock := t;
  pool := {| redis := g_empty; pool_started := true; pool_stopping := false |};
  artifacts := {[ "j1" ]}; errors := no_errors; cron := (∅, true); failures := ∅; healthy_at := None |}.
Definition sample_host := host_of finished_w 40.
