(* ===== verification/ReconcileSpec.v ===== *)
(** * Reconciling queued deliveries

    What one reconciled delivery comes to, whatever else happens; and that the paging of the
    reconciliation loop misses no stale delivery. *)

From S2P Require Import Prelude.
From S2P Require Import Redis.
From S2P Require Import Queue.
From S2P Require Import Envelope.
From S2P Require Import Rows.
From S2P Require Import JobDb.
From S2P Require Import JobModel.
From S2P Require Import Tx.
From S2P Require Import Json.
From S2P Require Import JobRecovery.
From S2P Require Import TxStore.
From S2P Require Import Lifecycle.
From S2P Require Import LifecycleStore.
From S2P Require Import System.
From S2P Require Import Guarantees.
From S2P Require Import Proc.
From S2P Require Import Models.
From S2P Require Import Worker.
From S2P Require Import Service.
From S2P Require Import Reconcile.
From S2P Require Import Samples.
Open Scope Z_scope.

Section deliveries.
Context `{Vault}.

(** ** The two operations on the row of a stale delivery *)

(** The row waits for this run since this time. *)
Record waits (d : DB) (jid rid : string) (t : Z) (j : JobRow) : Prop := {
  w_row : jobs d !! jid = Some j;
  w_status : j_status j = queued;
  w_run : j_current_run_id j = Some rid;
  w_since : j_updated_at j = Some t;
}.

Definition others_same (jid : string) (d d' : DB) : Prop := ∀ i, i ≠ jid → jobs d' !! i = jobs d !! i.

Lemma reserve_waiting d jid rid q j stale_before t :
  waits d jid rid q j → q ≤ stale_before →
  reserve_queued_run_recovery jid rid q stale_before t d =
    (Ok true, set_jobs (<[jid := set_j_updated_at (Some t) j]> (jobs d)) d).
Proof.
  intros [Hj Hs Hc Ht] Hq. unfold reserve_queued_run_recovery.
  assert (bool_decide (j_status j = queued) && opt_eqb (j_current_run_id j) rid && opt_eqb (j_updated_at j) q &&
          opt_leb (j_updated_at j) stale_before = true) as Hb.
  { rewrite Hs, Hc, Ht, !(proj2 (opt_eqb_true _ _) eq_refl). cbn. by apply Z.leb_le. }
  match goal with |- transaction _ d = ?r => refine (tx_pair _ d (λ x, x = r) _) end. apply tx_update_job.
  - intros j' Hj' _. simplify_eq. tx_guard. by apply tx_ret.
  - intros Hno. by rewrite (Hno j Hj) in Hb.
Qed.

Lemma fail_waiting u d jid rid q j t :
  waits d jid rid q j →
  let r := fail_queued_run_recovery u jid rid q t d in
  match r.1 with
  | Ok b => b = true ∧ others_same jid d r.2 ∧ ∃ j', jobs r.2 !! jid = Some j' ∧ j_status j' = failed
  | Raise _ => r.2 = d
  end.
Proof.
  intros [Hj Hs Hc Ht]. unfold fail_queued_run_recovery.
  assert (bool_decide (j_status j = queued) && opt_eqb (j_current_run_id j) rid && opt_eqb (j_updated_at j) q = true) as Hb.
  { by rewrite Hs, Hc, Ht, !(proj2 (opt_eqb_true _ _) eq_refl). }
  cbv zeta. match goal with |- match (transaction ?b d).1 with _ => _ end => apply (tx_transaction b d (λ o d', match o with
    | Ok v => v = true ∧ others_same jid d d' ∧ ∃ j', jobs d' !! jid = Some j' ∧ j_status j' = failed
    | Raise _ => d' = d end)) end.
  apply tx_update_job.
  - intros j' Hj' _. simplify_eq. tx_guard. apply tx_insert_failed_queued_run; [|by intros ?].
    intros j'' _ _ _. apply tx_ret. set (row := failed_run_row _ _ _ _ _ _ _ _).
    assert (r_job_id row = jid) as Hrow by apply failed_row_job. clearbody row. split; [done|].
    split; [intros i Hi|]; cbn; rewrite Hrow.
    + by rewrite lookup_alter_ne, lookup_insert_ne.
    + rewrite lookup_alter_eq, lookup_insert_eq. cbn. by eexists.
  - intros Hno. by rewrite (Hno j Hj) in Hb.
Qed.

Lemma sorted_filter {A} (S : relation A) (P : A → Prop) `{∀ x, Decision (P x)} l :
  StronglySorted S l → StronglySorted S (filter P l).
Proof.
  induction 1 as [|x l _ IH Hx]; [constructor|]. rewrite filter_cons. case_decide; [|done].
  constructor; [done|]. rewrite Forall_forall in *. intros y [_ Hy]%list_elem_of_filter. by apply Hx.
Qed.

(** ** The stale deliveries, in the order of the pass *)

Definition stale_rows (stale_before : Z) (d : DB) : list (string * JobRow) :=
  stale_queued_rows stale_before None 0 d.

Lemma elem_stale sb d x :
  x ∈ stale_rows sb d ↔ jobs d !! x.1 = Some x.2 ∧ stale_queued sb x.2 = true.
Proof.
  unfold stale_rows, stale_queued_rows. rewrite merge_sort_Permutation, list_elem_of_filter.
  destruct x as [i j]. rewrite elem_of_map_to_list. cbn. tauto.
Qed.

Lemma stale_keys sb d : NoDup (stale_rows sb d).*1.
Proof.
  unfold stale_rows, stale_queued_rows. rewrite merge_sort_Permutation.
  apply NoDup_fst_filter, NoDup_fst_map_to_list.
Qed.

#[export] Instance queued_before_total : Total queued_before.
Proof.
  intros [i a] [k b]. unfold queued_before. cbn. rewrite !orb_true_iff, !andb_true_iff, !Z.ltb_lt, !Z.eqb_eq.
  destruct (Z.lt_trichotomy (default 0 (j_updated_at a)) (default 0 (j_updated_at b))) as [?|[->|?]]; auto.
  destruct (str_leb_total i k); auto.
Qed.
#[export] Instance queued_before_trans : Transitive queued_before.
Proof.
  intros [i a] [k b] [l c]. unfold queued_before. cbn. rewrite !orb_true_iff, !andb_true_iff, !Z.ltb_lt, !Z.eqb_eq.
  intros [?|[-> ?]] [?|[<- ?]]; auto; [left; lia|]. right. split; [done|]. by eapply str_leb_trans.
Qed.

Lemma queued_before_antisym x y sb d :
  x ∈ stale_rows sb d → y ∈ stale_rows sb d → queued_before x y → queued_before y x → x = y.
Proof.
  intros [Hx _]%elem_stale [Hy _]%elem_stale. destruct x as [i a], y as [k b]. unfold queued_before. cbn in *.
  rewrite !orb_true_iff, !andb_true_iff, !Z.ltb_lt, !Z.eqb_eq. intros [?|[? Ha]] [?|[? Hb]]; try lia.
  assert (i = k) as -> by by apply str_leb_antisym. congruence.
Qed.

Lemma stale_sorted sb d : StronglySorted queued_before (stale_rows sb d).
Proof. apply StronglySorted_merge_sort; apply _. Qed.

(** When one job stops being stale and the others stay as they are, the list loses it. *)
Lemma stale_rows_without sb d d' jid :
  others_same jid d d' → (∀ j, jobs d' !! jid = Some j → stale_queued sb j = false) →
  stale_rows sb d' = filter (λ x, x.1 ≠ jid) (stale_rows sb d).
Proof.
  intros Ho Hj.
  assert (∀ x, x ∈ stale_rows sb d' ↔ x.1 ≠ jid ∧ x ∈ stale_rows sb d) as He.
  { intros [i j]. rewrite !elem_stale. cbn. destruct (decide (i = jid)) as [->|Hi].
    - split; [|naive_solver]. intros [Hl Hs]. rewrite (Hj j Hl) in Hs. done.
    - rewrite Ho by done. tauto. }
  eapply StronglySorted_unique_strong; [|apply stale_sorted|apply sorted_filter, stale_sorted|].
  - intros x y Hx [_ Hy]%list_elem_of_filter. apply He in Hx as [_ Hx]. by eapply queued_before_antisym.
  - apply NoDup_Permutation; [eapply (NoDup_fmap_1 fst), stale_keys|apply NoDup_filter; eapply (NoDup_fmap_1 fst), stale_keys|].
    intros x. by rewrite He, list_elem_of_filter.
Qed.
End deliveries.

(** ** One delivery, whatever else happens *)

Section settled.
Context `{Vault} `{JsonText} {Q R A : Type} `{DeliveryQueue Q} `{ResultFiles R} `{CronScheduler A} `{Deployment}.
Context `{Reconciling}.
Implicit Types (h : host Q R A) (w : world).

(** The rest of the service makes its store calls, and uses the queue as it likes. *)
Definition serves h h' : Prop := stores h' = stores h ∨ sstep (stores h) (stores h').

Definition sound h : Prop := consistent (absw (stores h)).

Lemma sound_stable : stable serves sound.
Proof. intros h h' C [E|St]; unfold sound; [by rewrite E|]. eapply consistent_rtc; [by apply sstep_sim|done]. Qed.

Lemma fail_recovery_unqueues u jid rid q t w :
  consistent (absw w) → (fail_queued_run_recovery u jid rid q t (db w)).1 = Ok true →
  unqueued rid (call w (fail_queued_run_recovery u jid rid q t)).
Proof.
  intros C Hok i j' Hj' Hs Hc.
  assert (∃ j, jobs (db w) !! jid = Some j ∧ j_status j = queued ∧ j_current_run_id j = Some rid ∧
    j_updated_at j = Some q) as (j & Hj & Hq & Hr & Hu).
  { revert Hok. unfold fail_queued_run_recovery. match goal with |- (transaction ?b ?d).1 = _ → _ =>
      apply (tx_transaction b d (λ o _, o = Ok true → ∃ j, jobs (db w) !! jid = Some j ∧ j_status j = queued ∧
        j_current_run_id j = Some rid ∧ j_updated_at j = Some q)) end.
    apply tx_update_job; [|by intros ?].
    intros j Hj Hb. conditions. tx_guard. apply tx_insert_failed_queued_run; [|done]. intros. apply tx_ret. eauto 6. }
  pose proof (fail_waiting u _ _ _ _ _ t (Build_waits _ _ _ _ _ Hj Hq Hr Hu)) as Hf. cbv zeta in Hf.
  rewrite Hok in Hf. destruct Hf as (_ & Ho & jf & Hjf & Hfs). unfold call in Hj'. cbn [db] in Hj'.
  destruct (decide (i = jid)) as [->|Hi]; [congruence|]. rewrite Ho in Hj' by done.
  apply Hi, (current_unique _ C jid (j_status j) rid) with (s := j_status j').
  - apply absw_job in Hj. by rewrite Hj, Hr.
  - apply absw_job in Hj'. by rewrite Hj', Hc.
Qed.

(** The reservation of a recovery found the row as the pass had read it, and stamped it. *)
Lemma reserve_marks jid rid q sb t d :
  (reserve_queued_run_recovery jid rid q sb t d).1 = Ok true →
  ∃ j, waits d jid rid q j ∧ q ≤ sb ∧
    jobs (reserve_queued_run_recovery jid rid q sb t d).2 !! jid = Some (set_j_updated_at (Some t) j).
Proof.
  unfold reserve_queued_run_recovery. match goal with |- (transaction ?b ?d).1 = _ → _ =>
    apply (tx_transaction b d (λ o d', o = Ok true → ∃ j, waits d jid rid q j ∧ q ≤ sb ∧
      jobs d' !! jid = Some (set_j_updated_at (Some t) j))) end.
  apply tx_update_job; [|by intros ?]. intros j Hj Hb. conditions. tx_guard. apply tx_ret. intros _. exists j.
  match goal with Hu : j_updated_at j = Some q, Hl : opt_leb _ _ = true |- _ => rewrite Hu in Hl; cbn in Hl end.
  split_and!; [by constructor|lia|]. cbn. by rewrite lookup_insert_eq.
Qed.

Section delivery.
Context (w0 : world) (job : StaleQueuedJob) (sb t : Z) (fails : channel → Prop).
Abbreviation always := (always serves fails).

(** A moment of the pass at which the row was still as inspected, and was stamped. *)
Definition marked h : Prop :=
  ∃ w1 j, let w2 := call w1 (reserve_queued_run_recovery (q_job_id job) (q_run_id job) (q_queued_at job) sb t) in
    rtc sstep w0 w1 ∧ waits (db w1) (q_job_id job) (q_run_id job) (q_queued_at job) j ∧ q_queued_at job ≤ sb ∧
    jobs (db w2) !! q_job_id job = Some (set_j_updated_at (Some t) j) ∧ rtc sstep w2 (stores h).

(** Its summary counts one thing, and that is so. *)
Definition settled (o : outcome exn QueuedReconciliationSummary) h : Prop :=
  match o with
  | Ok s =>
      inspected s = 1%nat ∧ (queue_present s + recovered s + q_failed s + q_race_noop s = 1)%nat ∧
      (recovered s = 1%nat → inspect_delivery (clock h) (q_run_id job) (pool h) ≠ Ok st_missing ∧ marked h) ∧
      (q_failed s = 1%nat → unqueued (q_run_id job) (stores h))
  | Raise _ => True
  end.

Definition begun h : Prop := sound h ∧ rtc sstep w0 (stores h).
Lemma served_reaches w h h' : serves h h' → rtc sstep w (stores h) → rtc sstep w (stores h').
Proof. intros [->|Hs] Hr; [done|]. by eapply rtc_r. Qed.
Lemma begun_stable : stable serves begun.
Proof. intros h h' [Hs Hr] Hserve. split; [by eapply sound_stable|by eapply served_reaches]. Qed.
Lemma marked_stable : stable serves marked.
Proof. intros h h' (w1 & j & ? & ? & ? & ? & ?) Hserve. exists w1, j. split_and!; try done. by eapply served_reaches. Qed.

Lemma always_keeps {B} c (m : prog (host Q R A) exn B) :
  (∀ h, stores (m h).2 = stores h) → always begun (await c m) (λ _, begun).
Proof.
  intros Hm. assert (∀ h, begun h → begun (m h).2) as Hb by (intros h [Hs Hr]; unfold begun, sound; by rewrite Hm).
  apply always_await; [apply begun_stable|done|]. intros h e Hh _. auto.
Qed.

Lemma fail_settles at_ expected : always begun (fail_delivery job at_ expected) settled.
Proof.
  unfold fail_delivery. eapply (always_bind _ _ _ _ _ (λ o h, o = Ok true → unqueued (q_run_id job) (stores h))).
  3: done.
  - apply always_await; [apply begun_stable|..]; [|by intros h e _ _].
    intros h [C _]. cbn. rewrite union_empty_r_L. intros Hok.
    apply (fail_recovery_unqueues _ _ _ _ _ _ C). revert Hok.
    by destruct (fail_queued_run_recovery _ _ _ _ _ _) as [[[]|] ?].
  - intros b. apply always_return. intros h Hb. unfold failed_or_lost. destruct b; cbn; repeat split; auto; done.
Qed.

Lemma settled_noop h p q : (p + q = 1)%nat → settled
  (Ok {| inspected := 1; queue_present := p; recovered := 0; q_failed := 0; q_race_noop := q |}) h.
Proof. intros. cbn. repeat split; try lia; done. Qed.

Lemma reserve_recovery_step :
  always begun (job_call (reserve_queued_run_recovery (q_job_id job) (q_run_id job) (q_queued_at job) sb t))
    (λ o h, begun h ∧ (o = Ok true → marked h)).
Proof.
  assert (∀ h, begun h → begun (on_store (reserve_queued_run_recovery (q_job_id job) (q_run_id job) (q_queued_at job) sb t) ∅ h).2) as Hb.
  { intros h [C Hr]. unfold begun, sound. cbn. rewrite union_empty_r_L. split.
    - unfold absw. cbn. by rewrite abs_reserve_queued_run_recovery.
    - eapply rtc_r; [exact Hr|]. apply s_reserve_recovery. }
  apply always_await; [apply begun_stable|..].
  - intros h Hh. split; [by apply Hb|]. cbn. rewrite union_empty_r_L. intros Hok.
    destruct (reserve_marks (q_job_id job) (q_run_id job) (q_queued_at job) sb t (db (stores h))) as (j & Hw & Hq & Hj).
    { revert Hok. by destruct (reserve_queued_run_recovery _ _ _ _ _ _) as [[[]|] ?]. }
    exists (stores h), j. split_and!; try done. apply Hh.
  - intros h e Hh _. split; (split; [auto|done]).
Qed.

Lemma restore_settles m : always begun (restore_delivery job m sb t) settled.
Proof.
  unfold restore_delivery. eapply always_bind; [apply reserve_recovery_step|intros reserved|done].
  destruct reserved; [|apply always_return; intros; by apply (settled_noop _ 0 1)]. cbn [negb].
  eapply (always_attempt _ _ _ _ _ (λ o h, (begun h ∧ marked h) ∧
    (o = Ok tt → inspect_delivery (clock h) (q_run_id job) (pool h) ≠ Ok st_missing))).
  - apply always_await.
    + intros h h' [Hb Hm] Hs. split; [by eapply begun_stable|]. intros _. by eapply marked_stable; [apply Hm|].
    + intros h [Hb Hm]. split; [split; [exact Hb|by apply Hm]|]. cbn.
      pose proof (enqueue_delivers (clock h) (q_job_id job) (q_config_yaml job) (priority m) (needs_browser m)
        (q_run_id job) (q_trigger job) (pool h)) as Hd.
      destruct (enqueue _ _ _ _ _ _ _ _) as [[[]|e] q']; cbn in *; [|done]. intros _. by apply Hd.
    + intros h e [Hb Hm] _. split; (split; [split; [exact Hb|by apply Hm]|done]).
  - intros [[]|e].
    + apply always_return. intros h [[_ Hm] Hd]. cbn. repeat split; try done. by apply Hd.
    + pose proof (fail_settles t (Some t)) as Hf.
      destruct e; [by apply always_throw|..]; (eapply always_pre; [exact Hf|by intros h [[? _] _]]).
Qed.

Lemma missing_settles : always begun (missing_delivery job sb t) settled.
Proof.
  unfold missing_delivery. eapply (always_attempt _ _ _ _ _ (λ _, begun)).
  { eapply always_bind; [by apply always_keeps|intros c; by apply always_return|done]. }
  intros [m|e]; [apply restore_settles|]. destruct e; [by apply always_throw|apply fail_settles..].
Qed.

Lemma job_settles : always begun (reconcile_stale_queued_job job sb t) settled.
Proof.
  unfold reconcile_stale_queued_job. eapply (always_bind _ _ _ _ _ (λ _, begun)); [|intros st|done].
  { eapply always_except; [by apply always_keeps|done| |done]. intros e. by apply always_throw. }
  destruct (_ACTIVE_DELIVERY_STATES st); [apply always_return; intros; by apply (settled_noop _ 1 0)|].
  destruct st; try apply missing_settles. apply fail_settles.
Qed.
End delivery.
End settled.

(** ** A pass that is not disturbed *)

Section paging.
Context `{Vault} `{JsonText} {Q R A : Type} `{DeliveryQueue Q} `{ResultFiles R} `{CronScheduler A} `{Deployment}.
Context `{Reconciling}.
Implicit Types (h : host Q R A) (job : StaleQueuedJob).

Abbreviation base h := (db (stores h)).

(** What the pass holds of a delivery, and its row. *)
Record listed (sb : Z) (d : DB) (x : string * JobRow) job : Prop := {
  l_id : q_job_id job = x.1;
  l_waits : waits d (q_job_id job) (q_run_id job) (q_queued_at job) x.2;
  l_stale : q_queued_at job ≤ sb;
}.

Lemma listed_same sb d d' x job : jobs d' !! x.1 = jobs d !! x.1 → listed sb d x job → listed sb d' x job.
Proof. intros E [Hi [Hj ? ? ?] ?]. constructor; [done| |done]. rewrite Hi in *. constructor; try done. by rewrite E. Qed.

(** It stays in the queue, or it leaves the stale deliveries. *)
Definition leaves (sb : Z) (jid : string) (d d' : DB) : Prop :=
  others_same jid d d' ∧ ∀ j, jobs d' !! jid = Some j → stale_queued sb j = false.
Definition taken_out (sb : Z) (jid : string) (d d' : DB) (s : QueuedReconciliationSummary) : Prop :=
  q_race_noop s = 0%nat ∧ queue_present s = 0%nat ∧ leaves sb jid d d'.
Definition handled (sb : Z) (jid : string) (d d' : DB) (s : QueuedReconciliationSummary) : Prop :=
  (q_race_noop s = 0%nat ∧ queue_present s = 1%nat ∧ d' = d) ∨ taken_out sb jid d d' s.

Lemma exec_call {B} (m : store B) h :
  exec (job_call m) h = (in_store (m (base h)).1, set_stores {| db := (m (base h)).2; used := used (stores h) |} h).
Proof. unfold job_call. rewrite exec_await. unfold on_store. cbn. by rewrite union_empty_r_L. Qed.

Lemma exec_fail_delivery sb x job t expected h s h' :
  waits (base h) (q_job_id job) (q_run_id job) (default (q_queued_at job) expected) x →
  exec (fail_delivery job t expected) h = (Ok s, h') → taken_out sb (q_job_id job) (base h) (base h') s.
Proof.
  intros Hw. unfold fail_delivery, _conditionally_fail_delivery. rewrite exec_bind, exec_call. cbn [fst snd].
  pose proof (fail_waiting nonces _ _ _ _ _ t Hw) as Hf. cbv zeta in Hf.
  destruct (fail_queued_run_recovery _ _ _ _ _ _) as [[b|e] d']; cbn in Hf |- *; [|done].
  destruct Hf as (-> & Ho & j' & Hj & Hs). intros [= <- <-]. split; [done|]. split; [done|]. split; [done|].
  cbn. intros j. rewrite Hj. intros [= <-]. unfold stale_queued. by rewrite Hs.
Qed.

Lemma not_stale_since sb t j : sb < t → stale_queued sb (set_j_updated_at (Some t) j) = false.
Proof.
  intros Ht. unfold stale_queued. cbn. rewrite !andb_false_iff. right. by apply Z.leb_gt.
Qed.

Lemma exec_restore sb x job m t h s h' :
  sb < t → listed sb (base h) x job →
  exec (restore_delivery job m sb t) h = (Ok s, h') → taken_out sb (q_job_id job) (base h) (base h') s.
Proof.
  intros Ht [Hid Hw Hq]. unfold restore_delivery. rewrite exec_bind, exec_call. cbn [fst snd].
  rewrite (reserve_waiting _ _ _ _ _ sb t Hw Hq). cbn [fst snd in_store negb].
  set (d1 := set_jobs _ (base h)). set (h1 := set_stores _ h).
  assert (others_same (q_job_id job) (base h) d1) as Ho by (intros i Hi; cbn; by rewrite lookup_insert_ne).
  assert (waits d1 (q_job_id job) (q_run_id job) t (set_j_updated_at (Some t) x.2)) as Hw1.
  { destruct Hw. constructor; try done. cbn. by rewrite lookup_insert_eq. }
  rewrite exec_attempt. unfold enqueue_run. rewrite exec_await. cbn [fst snd].
  set (h2 := set_pool _ h1). destruct (in_queue _) as [[]|e].
  - intros [= <- <-]. split; [done|]. split; [done|]. split; [done|]. cbn. rewrite lookup_insert_eq.
    intros j [= <-]. by apply not_stale_since.
  - destruct e; try done; intros He;
      apply (exec_fail_delivery sb _ job t (Some t) h2 _ _ Hw1) in He as (? & ? & Ho2 & ?);
      (split; [done|]; split; [done|]; split; [|done]; intros i Hi; rewrite Ho2 by done; by apply Ho).
Qed.

Lemma listed_load job h :
  exec (let* config := load (q_config_yaml job) in Return (queue_delivery_metadata config)) h =
    (match load_config (q_config_yaml job) with Ok c => Ok (queue_delivery_metadata c) | Raise e => Raise (Broken e) end, h).
Proof. rewrite exec_bind. unfold load. rewrite exec_await. cbn. by destruct (load_config _). Qed.

Lemma exec_missing sb x job t h s h' :
  sb < t → listed sb (base h) x job →
  exec (missing_delivery job sb t) h = (Ok s, h') → taken_out sb (q_job_id job) (base h) (base h') s.
Proof.
  intros Ht Hl. unfold missing_delivery. rewrite exec_attempt, listed_load. cbn [fst snd].
  destruct (load_config _) as [c|e]; [by apply (exec_restore sb x)|].
  intros He. by apply (exec_fail_delivery sb x.2 job t None _ _ _ (l_waits _ _ _ _ Hl)) in He.
Qed.

Lemma exec_item sb x job t h s h' :
  sb < t → listed sb (base h) x job →
  exec (reconcile_stale_queued_job job sb t) h = (Ok s, h') → handled sb (q_job_id job) (base h) (base h') s.
Proof.
  intros Ht Hl. unfold reconcile_stale_queued_job, except, inspect. rewrite exec_bind, exec_attempt, exec_await. cbn [fst snd].
  destruct (inspect_delivery _ _ _) as [st|e]; cbn; [|done].
  destruct (_ACTIVE_DELIVERY_STATES st); [by intros [= <- <-]; left|].
  destruct st; intros He; right; try (by apply (exec_missing sb x) in He).
  by apply (exec_fail_delivery sb x.2 job t None _ _ _ (l_waits _ _ _ _ Hl)) in He.
Qed.

Lemma filter_out_key {B} (x : string * B) l l' :
  NoDup (l ++ x :: l').*1 → filter (λ y, y.1 ≠ x.1) (l ++ x :: l') = l ++ l' ∧ Forall (λ y, y.1 ≠ x.1) (l ++ l').
Proof.
  rewrite fmap_app, fmap_cons, NoDup_app, NoDup_cons. intros (_ & Hd & Hx & _).
  assert (Forall (λ y, y.1 ≠ x.1) (l ++ l')) as Hf.
  { apply Forall_forall. intros y [Hy|Hy]%elem_of_app E; apply (list_elem_of_fmap_2 fst) in Hy; rewrite E in Hy.
    - apply (Hd _ Hy). left.
    - done. }
  split; [|done]. rewrite filter_app, filter_cons, decide_False by naive_solver. rewrite <- filter_app.
  clear Hd Hx. induction Hf as [|y m Hy _ IH]; [done|]. by rewrite filter_cons_True, IH.
Qed.

Lemma stale_rows_drop sb d d' pre x l :
  stale_rows sb d = pre ++ x :: l → leaves sb x.1 d d' →
  stale_rows sb d' = pre ++ l ∧ Forall (λ y, y.1 ≠ x.1) l.
Proof.
  intros Hrows [Ho Hn]. rewrite (stale_rows_without sb _ _ _ Ho Hn), Hrows.
  pose proof (stale_keys sb d) as Hnd. rewrite Hrows in Hnd. apply filter_out_key in Hnd as [E Hf].
  split; [done|]. by apply Forall_app in Hf as [_ ?].
Qed.

Lemma listed_leaves sb d d' (x : string * JobRow) (page : list (string * JobRow)) js :
  leaves sb x.1 d d' → Forall (λ y, y.1 ≠ x.1) page → Forall2 (listed sb d) page js → Forall2 (listed sb d') page js.
Proof.
  intros [Ho _] Hne Hl. induction Hl as [|y job page js Hy Hl IH]; [constructor|].
  apply Forall_cons in Hne as [? ?]. constructor; [|auto]. eapply listed_same; [|exact Hy]. by apply Ho.
Qed.

(** A page of the stale deliveries between those before and after it: what is left of it
    is what was found in the queue. *)
Lemma exec_each sb t page : ∀ pre suf js total h s h',
  sb < t → stale_rows sb (base h) = pre ++ page ++ suf → Forall2 (listed sb (base h)) page js →
  exec (reconcile_each js sb t total) h = (Ok s, h') →
  ∃ kept, stale_rows sb (base h') = pre ++ kept ++ suf ∧
    queue_present s = (queue_present total + length kept)%nat ∧ inspected s = inspected total.
Proof.
  induction page as [|x page IH]; intros pre suf js total h s h' Ht Hrows Hl He.
  { apply Forall2_nil_inv_l in Hl as ->. cbn in He. injection He as <- <-. exists []. cbn. split_and!; [done|lia|done]. }
  apply Forall2_cons_inv_l in Hl as (job & js' & Hx & Hl & ->). cbn [reconcile_each] in He.
  rewrite exec_bind in He. unfold except in He. rewrite exec_attempt in He.
  destruct (exec (reconcile_stale_queued_job job sb t) h) as [[item|e] h1] eqn:Hitem; cbn [fst snd] in He.
  2:{ destruct (is_cancelled e); [done|]. by destruct (is_queued_reconciliation_error e). }
  cbn in He.
  apply (exec_item sb x _ _ _ _ _ Ht Hx) in Hitem as [(_ & Hp & Hb)|(_ & Hp & Hout)].
  - rewrite <- Hb in Hrows, Hl. destruct (IH (pre ++ [x]) suf js' (add_summary total item) h1 s h' Ht)
      as (kept & Hk & Hs & Hi); [|done..|].
    { by rewrite Hrows, <- app_assoc. }
    exists (x :: kept). cbn in Hs, Hi. rewrite Hk, <- app_assoc. cbn. split_and!; [done|lia|done].
  - rewrite (l_id _ _ _ _ Hx) in Hout. destruct (stale_rows_drop sb _ _ pre x (page ++ suf) Hrows Hout) as [Hrows1 Hne].
    apply Forall_app in Hne as [Hne _].
    destruct (IH pre suf js' (add_summary total item) h1 s h' Ht Hrows1) as (kept & Hk & Hs & Hi);
      [by eapply listed_leaves|done|].
    exists kept. cbn in Hs, Hi. split_and!; [done|lia|done].
Qed.

(** ** One round of the loop *)

Lemma stale_job_listed sb d x o :
  x ∈ stale_rows sb d → stale_queued_job d x = Ok o → ∃ job, o = Some job ∧ listed sb d x job.
Proof.
  intros [Hj Hs]%elem_stale. destruct x as [jid j]. cbn in *. unfold stale_queued in Hs.
  apply andb_true_iff in Hs as [[Hq [rid Hr]%bool_decide_eq_true]%andb_true_iff Hu]. apply bool_decide_eq_true in Hq.
  unfold stale_queued_job. rewrite Hr. destruct (j_updated_at j) as [t|] eqn:Ht; [|done]. apply Z.leb_le in Hu.
  destruct (match current_snapshot d jid j with Some _ => _ | None => _ end); intros [= <-].
  eexists. split; [done|]. constructor; cbn; [done|constructor; done|done].
Qed.

Lemma listed_page sb d l js :
  (∀ x, x ∈ l → x ∈ stale_rows sb d) → traverse (stale_queued_job d) l = Ok js → Forall2 (listed sb d) l (omap id js).
Proof.
  revert js. induction l as [|x l IH]; intros js Hl; cbn.
  { intros [= <-]. constructor. }
  destruct (stale_queued_job d x) as [o|] eqn:Ho; [|done]. destruct (traverse _ l) as [os|]; [|done].
  intros [= <-]. destruct (stale_job_listed sb d x o) as (job & -> & Hx); [set_solver|done|].
  cbn. constructor; [done|]. apply IH; [set_solver|done].
Qed.

Definition page (sb : Z) (b off : nat) (d : DB) : list (string * JobRow) := take b (drop off (stale_rows sb d)).

Lemma exec_pass timeout b off h s h' :
  0 < timeout →
  exec (reconcile_stale_queued_jobs timeout None (Some b) off) h = (Ok s, h') →
  inspected s = length (page (clock h - timeout) b off (base h)) ∧
  drop (off + queue_present s) (stale_rows (clock h - timeout) (base h')) =
    drop (off + b) (stale_rows (clock h - timeout) (base h)).
Proof.
  intros Ht. unfold reconcile_stale_queued_jobs. rewrite exec_bind. unfold current_time. rewrite exec_local. cbn [fst snd].
  rewrite exec_bind, exec_call. set (sb := clock h - timeout). cbn [fst snd].
  unfold list_stale_queued_jobs, read. change (stale_queued_rows sb (Some b) off (base h)) with (page sb b off (base h)).
  destruct (traverse _ _) as [os|] eqn:Hl; cbn [fst snd in_store]; [|done].
  set (h1 := set_stores _ h). assert (base h1 = base h) as Eb by done. clearbody h1.
  set (rows := stale_rows sb (base h)).
  assert (rows = take off rows ++ page sb b off (base h) ++ drop (off + b) rows) as Hrows.
  { unfold page. fold rows. by rewrite <- drop_drop, !take_drop. }
  assert (Forall2 (listed sb (base h)) (page sb b off (base h)) (omap id os)) as Hlist.
  { apply listed_page; [|done]. intros x Hx. unfold page in Hx. eapply elem_of_sublist; [exact Hx|].
    etrans; [apply sublist_take|apply sublist_drop]. }
  intros He. eapply (exec_each sb _ _ (take off rows) _ _ _ h1) in He as (kept & Hk & Hp & Hi);
    [|subst sb; lia|by rewrite Eb|by rewrite Eb].
  rewrite Hi. cbn [inspected queue_present Nat.add] in *. split; [by symmetry; eapply Forall2_length|].
  rewrite Hk, Hp. destruct (decide (off ≤ length rows)%nat) as [Hoff|Hoff].
  - rewrite app_assoc. apply drop_app_length'. rewrite length_app, length_take. lia.
  - rewrite (drop_ge rows) by lia. apply drop_ge. rewrite app_nil_r, length_app, length_take. lia.
Qed.

Lemma stale_since sb j :
  stale_queued sb j = true ↔
  j_status j = queued ∧ is_Some (j_current_run_id j) ∧ ∃ t, j_updated_at j = Some t ∧ t ≤ sb.
Proof.
  unfold stale_queued. rewrite !andb_true_iff, !bool_decide_eq_true.
  destruct (j_updated_at j) as [t|]; cbn; rewrite ?Z.leb_le; naive_solver.
Qed.

(** A later cutoff only adds deliveries behind. *)
Lemma stale_later sb sb' d : sb ≤ sb' → ∃ more, stale_rows sb' d = stale_rows sb d ++ more.
Proof.
  intros Hle. exists (filter (λ x, stale_queued sb x.2 = false) (stale_rows sb' d)).
  assert (∀ x, x ∈ stale_rows sb d → x ∈ stale_rows sb' d) as Hin.
  { intros x [? (? & ? & t & ? & ?)%stale_since]%elem_stale. apply elem_stale. split; [done|].
    apply stale_since. split_and!; [done..|]. exists t. split; [done|lia]. }
  assert (∀ x, x ∈ stale_rows sb' d ↔ x ∈ stale_rows sb d ++ filter (λ x, stale_queued sb x.2 = false) (stale_rows sb' d)) as He.
  { intros x. rewrite elem_of_app, list_elem_of_filter. split; [|naive_solver]. intros Hx.
    destruct (stale_queued sb x.2) eqn:Hs; [left|by right]. apply elem_stale. by apply elem_stale in Hx as [? _]. }
  eapply StronglySorted_unique_strong; [|apply stale_sorted| |].
  - intros x y Hx Hy%He. by apply (queued_before_antisym _ _ sb' d).
  - apply StronglySorted_app_2; [|apply stale_sorted|apply sorted_filter, stale_sorted].
    intros x y [_ (_ & _ & t & Ht & ?)%stale_since]%elem_stale [Hn [_ (? & ? & t' & Ht' & ?)%stale_since]%elem_stale]%list_elem_of_filter.
    unfold queued_before. rewrite Ht, Ht'. cbn. apply orb_true_iff. left. apply Z.ltb_lt.
    destruct (Z.lt_ge_cases t t'); [done|]. rewrite (proj2 (stale_since sb y.2)) in Hn; [done|].
    split_and!; [done..|]. exists t'. split; [done|lia].
  - apply NoDup_Permutation; [eapply (NoDup_fmap_1 fst), stale_keys| |done].
    apply NoDup_app. split_and!; [eapply (NoDup_fmap_1 fst), stale_keys| |apply NoDup_filter; eapply (NoDup_fmap_1 fst), stale_keys].
    intros x [_ Hs]%elem_stale [Hn _]%list_elem_of_filter. congruence.
Qed.

(** The rounds of one pass: each takes its page at the offset the round before returned;
    between two rounds time passes. The list is the jobs that were taken up. *)
Inductive pass (timeout : Z) (b : nat) : nat → host Q R A → list string → Prop :=
| pass_last off h m m' h' :
    0 ≤ Monitor._consecutive_failures m →
    exec (queued_round timeout b off m) h = (Ok (0%nat, m'), h') → Monitor._consecutive_failures m' = 0 →
    (length (page (clock h - timeout) b off (base h)) < b)%nat →
    pass timeout b off h (map fst (page (clock h - timeout) b off (base h)))
| pass_next off off' h m m' h' h'' rest :
    0 ≤ Monitor._consecutive_failures m →
    exec (queued_round timeout b off m) h = (Ok (off', m'), h') → Monitor._consecutive_failures m' = 0 →
    length (page (clock h - timeout) b off (base h)) = b →
    base h'' = base h' → clock h ≤ clock h'' → pass timeout b off' h'' rest →
    pass timeout b off h (map fst (page (clock h - timeout) b off (base h)) ++ rest).

Lemma exec_round timeout b off m h off' m' h' :
  0 < timeout → 0 ≤ Monitor._consecutive_failures m →
  exec (queued_round timeout b off m) h = (Ok (off', m'), h') → Monitor._consecutive_failures m' = 0 →
  length (page (clock h - timeout) b off (base h)) = b →
  drop off' (stale_rows (clock h - timeout) (base h')) = drop (off + b) (stale_rows (clock h - timeout) (base h)).
Proof.
  intros Ht Hm. unfold queued_round. rewrite exec_attempt.
  destruct (exec (reconcile_stale_queued_jobs timeout None (Some b) off) h) as [[s|e] h1] eqn:He; cbn [fst snd].
  - apply exec_pass in He as [Hi Hd]; [|done]. rewrite exec_bind. unfold fetch. rewrite exec_local. cbn.
    intros [= <- <- <-] _ Hl. rewrite Hi, Hl, Nat.eqb_refl. exact Hd.
  - destruct e; try done; rewrite exec_bind; unfold fetch; rewrite exec_local; cbn;
      intros [= <- <- <-]; cbn; lia.
Qed.
End paging.

(** [C20] A stale delivery is accounted for and put back only by a pass that won its row.
    Whatever store calls the rest of the service makes meanwhile (all but a queued run that
    replaces a running one), whatever fails and whenever the task is cancelled: when
    [reconcile_stale_queued_job] returns, its summary counts one thing for the one delivery.
    If that is a recovery, the queue now knows a delivery of the original run, and at a
    moment of the pass the job's row was still queued under that run and last changed when
    the pass had read, and the pass then stamped it with its own time, so that another pass
    that had read the same row finds another time there. If it is a failure, no job is queued under
    that run any more. A race no-op settles nothing. *)
Theorem stale_delivery_settled `{Vault} `{JsonText} {Q R A : Type} `{DeliveryQueue Q} `{ResultFiles R}
    `{CronScheduler A} `{Deployment} `{Reconciling} (fails : channel → Prop) n job sb t (h h' : host Q R A) s :
  rtc sstep initial (stores h) → runs serves fails n (reconcile_stale_queued_job job sb t) h (Ok s) h' →
  inspected s = 1%nat ∧ (queue_present s + recovered s + q_failed s + q_race_noop s = 1)%nat ∧
  (recovered s = 1%nat → inspect_delivery (clock h') (q_run_id job) (pool h') ≠ Ok st_missing ∧
     marked (stores h) job sb t h') ∧
  (q_failed s = 1%nat → unqueued (q_run_id job) (stores h')).
Proof.
  intros Hw Hr. change (settled (stores h) job sb t (Ok s) h').
  eapply (always_runs serves fails); [apply job_settles| |exact Hr]. split; [by apply reachable_consistent|done].
Qed.

(** [C21] The loop's paging misses no delivery. Let nothing else touch the jobs, and let every
    round succeed. However many deliveries a round finds in the queue, recovers or fails,
    the rounds from offset 0 up to the first page that is not full take up all deliveries
    that were stale at the beginning, in their order, before any that became stale later. *)
Theorem pass_takes_every_stale_delivery `{Vault} `{JsonText} {Q R A : Type} `{DeliveryQueue Q} `{ResultFiles R}
    `{CronScheduler A} `{Deployment} `{Reconciling} timeout b (h : host Q R A) taken :
  0 < timeout → pass timeout b 0 h taken →
  map fst (stale_rows (clock h - timeout) (db (stores h))) `prefix_of` taken.
Proof.
  intros Ht Hp. change (stale_rows (clock h - timeout) (db (stores h))) with
    (drop 0 (stale_rows (clock h - timeout) (db (stores h)))).
  induction Hp as [off h m m' h' _ _ _ Hl|off off' h m m' h' h'' rest Hm He Hf Hl Hb Hc _ IH].
  - unfold page in *. rewrite firstn_all2; [done|]. rewrite length_take in Hl. lia.
  - pose proof (exec_round _ _ _ _ _ _ _ _ Ht Hm He Hf Hl) as Hd.
    destruct (stale_later (clock h - timeout) (clock h'' - timeout) (db (stores h'')) ltac:(lia)) as [more Hmore].
    rewrite Hmore, Hb in IH. rewrite <- (take_drop b (drop off _)), drop_drop, map_app. apply prefix_app.
    rewrite <- Hd. etrans; [|exact IH]. rewrite drop_app, map_app. by apply prefix_app_r.
Qed.

(** ** A queued run that the queue lost *)

Definition lost_host := host_of submitted 1000.
Definition lost_job : StaleQueuedJob :=
  {| q_job_id := "j1"; q_run_id := "r1"; q_config_yaml := "project: p"; q_queued_at := 10; q_trigger := "adhoc";
     q_schedule_cron := None; q_schedule_enabled := true |}.
Definition restored := exec (reconcile_stale_queued_job lost_job 700 1000) lost_host.
Definition one_recovered : QueuedReconciliationSummary :=
  {| inspected := 1; queue_present := 0; recovered := 1; q_failed := 0; q_race_noop := 0 |}.
Lemma restored_runs :
  runs serves (λ _, False) 0 (reconcile_stale_queued_job lost_job 700 1000) lost_host (Ok one_recovered) restored.2.
Proof.
  assert (restored.1 = Ok one_recovered) as E by by vm_compute. rewrite <- E.
  exact (exec_runs serves (λ _, False) 0 (reconcile_stale_queued_job lost_job 700 1000) lost_host).
Qed.

Lemma stale_delivery_settled_witness :
  inspect_delivery (clock restored.2) "r1" (pool restored.2) ≠ Ok st_missing ∧
  marked (stores lost_host) lost_job 700 1000 restored.2.
Proof.
  exact (proj1 (proj2 (proj2 (stale_delivery_settled _ 0 lost_job 700 1000 lost_host _ _
    submitted_reachable restored_runs))) eq_refl).
Defined.

Definition sample_monitor : Monitor.monitor :=
  {| Monitor.interval_seconds := 60; Monitor._grace_seconds := 120; Monitor._failure_grace_count := 1;
     Monitor._started_at := 0; Monitor._last_success_at := None; Monitor._last_failure_at := None;
     Monitor._consecutive_failures := 0; Monitor._task := Some false |}.
Definition first_round := exec (queued_round 300 1 0 sample_monitor) lost_host.
Definition second_round := exec (queued_round 300 1 0 sample_monitor) first_round.2.
Definition good_monitor := Monitor.record_success 1000 sample_monitor.

Lemma sample_pass : pass 300 1 0 lost_host (map fst (page 700 1 0 (db (stores lost_host))) ++ []).
Proof.
  assert (first_round.1 = Ok (0%nat, good_monitor)) as E1 by by vm_compute.
  assert (second_round.1 = Ok (0%nat, good_monitor)) as E2 by by vm_compute.
  assert (page 700 1 0 (db (stores first_round.2)) = []) as Ep by by vm_compute.
  assert (page 700 1 0 (db (stores lost_host)) ≠ []) as Hp by by vm_compute.
  pose proof (pass_next 300 1 0 0 lost_host sample_monitor good_monitor first_round.2 first_round.2 []) as Hn.
  pose proof (pass_last 300 1 0 first_round.2 sample_monitor good_monitor second_round.2) as Hl.
  change (clock lost_host) with 1000 in Hn. change (1000 - 300) with 700 in Hn.
  assert (clock first_round.2 = 1000) as Ec by by vm_compute.
  rewrite Ec in Hn, Hl. change (1000 - 300) with 700 in Hl. rewrite Ep in Hl.
  apply Hn; [done| |done| |done|lia|apply Hl; [done| |done|exact Nat.lt_0_1]].
  - rewrite <- E1. apply surjective_pairing.
  - unfold page in *. rewrite length_take. by destruct (drop 0 _).
  - rewrite <- E2. apply surjective_pairing.
Qed.

Lemma pass_takes_every_stale_delivery_witness :
  map fst (stale_rows 700 (db (stores lost_host))) = ["j1"] ∧
  map fst (stale_rows 700 (db (stores lost_host))) `prefix_of` map fst (page 700 1 0 (db (stores lost_host))) ++ [].
Proof.
  split; [by vm_compute|]. exact (pass_takes_every_stale_delivery 300 1 lost_host _ eq_refl sample_pass).
Defined.
