(* ===== verification/TerminalSpec.v ===== *)
(** * Reconciling terminal runs

    A pass that is not disturbed and reports no failure leaves no terminal run it took up
    without its reconciliation. *)

From S2P Require Import Prelude.
From S2P Require Import Redis.
From S2P Require Import Queue.
From S2P Require Import Envelope.
From S2P Require Import Rows.
From S2P Require Import JobDb.
From S2P Require Import JobModel.
From S2P Require Import Tx.
From S2P Require Import Json.
From S2P Require Import Outbox.
From S2P Require Import JobTerminal.
From S2P Require Import Payload.
From S2P Require Import TxStore.
From S2P Require Import LifecycleStore.
From S2P Require Import System.
From S2P Require Import Proc.
From S2P Require Import Models.
From S2P Require Import Worker.
From S2P Require Import Service.
From S2P Require Import Reconcile.
From S2P Require Import JobRuns.
From S2P Require Import JobRecovery.
From S2P Require Import Samples.
From S2P Require Import ReconcileSpec.
Open Scope Z_scope.

Section terminal.
Context `{Vault} `{JsonText}.

(** ** One candidate in the database *)

(** The run of a candidate and its parent, as the candidate was read. *)
Record current (d : DB) (c : TerminalWebhookCandidate) (r : RunRow) (j : JobRow) : Prop := {
  cu_rows : candidate_rows c d = Some (r, j);
  cu_status : r_status r = c_status c;
  cu_terminal : is_terminal (r_status r) = true;
  cu_hash : r_config_hash r = c_config_hash c;
  cu_open : j_status j ≠ deleting;
  cu_config : config_matches c r j = Ok true;
}.

(** What reconciling it changes. *)
Record reconciled (d d' : DB) (c : TerminalWebhookCandidate) (j : JobRow) : Prop := {
  re_runs i : i ≠ c_run_id c → job_runs d' !! i = job_runs d !! i;
  re_run r : job_runs d' !! c_run_id c = Some r → r_webhook_reconciled_at r ≠ None ∧ r_job_id r = c_job_id c;
  re_jobs i : i ≠ c_job_id c → jobs d' !! i = jobs d !! i;
  re_job : ∃ j', jobs d' !! c_job_id c = Some j' ∧ j_config_yaml j' = j_config_yaml j ∧
             j_current_run_id j' = j_current_run_id j ∧
             (j' = j ∨ is_terminal (j_status j') = true) ∧
             ¬ (j_status j' = running ∧ j_current_run_id j = Some (c_run_id c));
}.

Definition marked (c : TerminalWebhookCandidate) (r : RunRow) : RunRow :=
  set_r_webhook_reconciled_at (coalesce (r_webhook_reconciled_at r) (Some (reconciled_at c))) r.

Lemma tx_ensure d0 d u c w conv r (Q : outcome store_error TerminalIntentReconcileResult → DB → Prop) :
  job_runs d !! c_run_id c = Some r → r_job_id r = c_job_id c → r_status r = c_status c →
  r_config_hash r = c_config_hash c →
  (∀ x d', job_runs d' = <[c_run_id c := marked c r]> (job_runs d) → jobs d' = jobs d → Q (Ok x) d') →
  (∀ e, Q (Raise e) d0) →
  tx_post d0 d (ensure_intent u c w conv) Q.
Proof.
  intros Hr Hj Hs Hh Hk He. unfold ensure_intent, _mark_terminal_webhook_reconciled.
  txs; try apply He.
  all: try match goal with Hn : job_runs _ !! _ = Some ?r0 |- ?Q (Ok _) (set_job_runs (<[_ := set_r_webhook_reconciled_at _ ?r0]> _) _) =>
    cbn in Hn; rewrite Hr in Hn; injection Hn as <-; by apply Hk end.
  all: try match goal with Hn : ∀ r, _ → _ → _ = false |- _ =>
    specialize (Hn r Hr Hj); rewrite Hs, Hh, !bool_decide_true in Hn by done; discriminate end.
Qed.

Lemma reconcile_effect u c w d r j :
  current d c r j →
  let x := reconcile_terminal_webhook_candidate u c w d in
  match x.1 with Ok _ => reconciled d x.2 c j | Raise _ => x.2 = d end.
Proof.
  intros [Hrows Hs Ht Hh Ho Hc]. cbv zeta.
  match goal with |- match (reconcile_terminal_webhook_candidate _ _ _ _).1 with _ => _ end =>
    unfold reconcile_terminal_webhook_candidate end.
  match goal with |- match (transaction ?b d).1 with _ => _ end => apply (tx_transaction b d (λ o d',
    match o with Ok _ => reconciled d d' c j | Raise _ => d' = d end)) end.
  apply tx_bind_query. cbn beta. rewrite Hrows. cbn iota.
  apply candidate_rows_Some in Hrows as (Hr & Hrj & Hj).
  rewrite Hs in *. rewrite Hh, Ht, !bool_decide_true, bool_decide_false by done. cbn [negb orb].
  apply tx_bind_lift; [|intros e E; congruence]. intros same E. rewrite Hc in E. injection E as <-. cbn [negb].
  destruct (opt_eqb (j_current_run_id j) (c_run_id c) && bool_decide (j_status j = running)) eqn:Hcur.
  - apply tx_update_job; [|intros Hno; specialize (Hno j Hj); rewrite andb_comm in Hno; congruence].
    intros j' Hj' _. simplify_eq. cbn [Z.eqb negb]. tx_guard. eapply (tx_ensure _ _ _ _ _ _ r); try done.
    intros _ d' Hr' Hjobs. cbn in Hr', Hjobs. constructor.
    + intros i Hi. by rewrite Hr', lookup_insert_ne.
    + intros r'. rewrite Hr', lookup_insert_eq. intros [= <-]. cbn. split; [by destruct (r_webhook_reconciled_at r)|done].
    + intros i Hi. by rewrite Hjobs, lookup_insert_ne.
    + rewrite Hjobs, lookup_insert_eq. eexists. split; [done|]. cbn. split_and!; auto.
      intros [E _]. rewrite E in Ht. done.
  - eapply (tx_ensure _ _ _ _ _ _ r); try done. intros _ d' Hr' Hjobs. constructor.
    + intros i Hi. by rewrite Hr', lookup_insert_ne.
    + intros r'. rewrite Hr', lookup_insert_eq. intros [= <-]. cbn. split; [by destruct (r_webhook_reconciled_at r)|done].
    + intros i Hi. by rewrite Hjobs.
    + rewrite Hjobs. exists j. split_and!; auto. intros [E1 E2].
      rewrite E1, E2, (proj2 (opt_eqb_true _ _) eq_refl), bool_decide_true in Hcur by done. done.
Qed.
End terminal.

(** ** A pass that is not disturbed *)

Section pass.
Context `{Vault} `{JsonText} {Q R A : Type} `{DeliveryQueue Q} `{ResultFiles R} `{CronScheduler A} `{Deployment}.
Context `{Reconciling}.
Implicit Types (h : host Q R A) (c : TerminalWebhookCandidate).

Abbreviation base h := (db (stores h)).
Abbreviation row := (string * RunRow * JobRow)%type.
Abbreviation run_of x := (x.1.1) (only parsing).

(** The candidates, in the order of the pass. *)
Abbreviation candidates := (terminal_webhook_candidate_rows None).

Lemma elem_candidates d (x : row) :
  x ∈ candidates d ↔
  job_runs d !! x.1.1 = Some x.1.2 ∧ jobs d !! r_job_id x.1.2 = Some x.2 ∧ candidate_run x.1.2 x.1.1 x.2 = true.
Proof.
  unfold terminal_webhook_candidate_rows. rewrite merge_sort_Permutation, list_elem_of_omap.
  destruct x as [[rid r] j]. cbn. split.
  - intros ([rid' r'] & Hin & Hx). apply elem_of_map_to_list in Hin. cbn in Hx.
    destruct (jobs d !! r_job_id r') as [j'|] eqn:Hj; [|done]. destruct (candidate_run r' rid' j') eqn:Hc; [|done].
    by simplify_eq.
  - intros (Hr & Hj & Hc). exists (rid, r). split; [by apply elem_of_map_to_list|]. cbn. by rewrite Hj, Hc.
Qed.

Lemma candidate_keys d : NoDup (map (λ x : row, x.1.1) (candidates d)).
Proof.
  unfold terminal_webhook_candidate_rows. rewrite merge_sort_Permutation.
  pose proof (NoDup_fst_map_to_list (job_runs d)) as Hnd. revert Hnd. generalize (map_to_list (job_runs d)) as l.
  induction l as [|[rid r] l IH]; [constructor|]. cbn. rewrite NoDup_cons. intros [Hn Hl].
  assert (∀ y, y ∈ map (λ x : row, x.1.1) (omap (λ x, match jobs d !! r_job_id x.2 with
            | Some j => if candidate_run x.2 x.1 j then Some (x, j) else None | None => None end) l) → y ∈ l.*1) as Hs.
  { intros y ([[z r'] j] & -> & Hz)%list_elem_of_fmap. apply list_elem_of_omap in Hz as ([z' r''] & Hin & Hz).
    cbn in Hz. repeat case_match; try done. simplify_eq. by apply (list_elem_of_fmap_2 fst) in Hin. }
  destruct (jobs d !! r_job_id r) as [j|]; [destruct (candidate_run r rid j)|]; cbn; try by apply IH.
  constructor; [|by apply IH]. intros Hin. apply Hn. by apply Hs.
Qed.

(** What a candidate holds of the rows it was read from; it stays so while others are
    reconciled. *)
Lemma read_candidate d x c :
  x ∈ candidates d → terminal_webhook_candidate d x.1.1 x.1.2 x.2 = Ok c →
  c_run_id c = x.1.1 ∧ current d c x.1.2 x.2.
Proof.
  intros (Hr & Hj & Hc)%elem_candidates. destruct x as [[rid r] j]. cbn in *. unfold terminal_webhook_candidate.
  destruct (r_heartbeat_at r); [|done].
  unfold candidate_run in Hc. boolprop.
  destruct (r_config_yaml r) as [stored|] eqn:Hy.
  - destruct (reveal _ stored) as [p|] eqn:Hp; [|done]. intros [= <-]. cbn. split; [done|].
    constructor; cbn; try done; [apply candidate_rows_Some; by cbn|].
    unfold config_matches. cbn. rewrite Hy, Hp. by rewrite bool_decide_true.
  - destruct (reveal _ (j_config_yaml j)) as [p|] eqn:Hp; [|done]. intros [= <-]. cbn. split; [done|].
    constructor; cbn; try done; [apply candidate_rows_Some; by cbn|].
    unfold config_matches. cbn. rewrite Hy, Hp. by rewrite bool_decide_true.
Qed.

Lemma config_matches_same c r j j' : j_config_yaml j' = j_config_yaml j → config_matches c r j' = config_matches c r j.
Proof. intros E. unfold config_matches. by rewrite E. Qed.

Lemma current_kept d d' c c' r r' j j' :
  c_run_id c ≠ c_run_id c' → current d c r j → current d c' r' j' → reconciled d d' c' j' →
  ∃ j'', current d' c r j''.
Proof.
  intros Hne [Hc Hs Ht Hh Ho Hm] [Hc' _ _ _ _ _] Hre.
  apply candidate_rows_Some in Hc as (Hr & Hj & Hjob). apply candidate_rows_Some in Hc' as (_ & _ & Hjob').
  assert (job_runs d' !! c_run_id c = Some r) as Hr' by by rewrite (re_runs _ _ _ _ Hre).
  destruct (decide (c_job_id c = c_job_id c')) as [E|E].
  - rewrite E, Hjob' in Hjob. injection Hjob as <-. destruct (re_job _ _ _ _ Hre) as (j'' & Hj'' & Hcfg & _ & Hst & _).
    exists j''. constructor; try done; [apply candidate_rows_Some; split_and!; congruence| |by rewrite (config_matches_same _ _ j')].
    destruct Hst as [->|Hst]; [done|]. by destruct (j_status j'').
  - exists j. constructor; try done. apply candidate_rows_Some. by rewrite (re_jobs _ _ _ _ Hre).
Qed.

(** Nothing becomes a candidate, and the one reconciled is none any more. *)
Lemma candidates_shrink d d' c r j y :
  current d c r j → reconciled d d' c j → y ∈ candidates d' →
  y.1.1 ≠ c_run_id c ∧ ∃ j', (y.1, j') ∈ candidates d.
Proof.
  intros [Hc _ _ _ Ho _] Hre (Hr & Hj & Hcand)%elem_candidates. destruct y as [[rid r'] j']. cbn in *.
  apply candidate_rows_Some in Hc as (Hrow & Hrj & Hjob).
  destruct (re_job _ _ _ _ Hre) as (j'' & Hj'' & _ & Hcur & Hst & Hn).
  unfold candidate_run in Hcand. apply andb_true_iff in Hcand as [[Hterm Hopen]%andb_true_iff Hwhy].
  assert (rid ≠ c_run_id c) as Hne.
  { intros ->. destruct (re_run _ _ _ _ Hre _ Hr) as [Hm E]. rewrite bool_decide_false in Hwhy by done. cbn in Hwhy.
    apply andb_true_iff in Hwhy as [Hrun%bool_decide_eq_true Hid%opt_eqb_true].
    rewrite E in Hj. rewrite Hj in Hj''. injection Hj'' as <-. apply Hn. split; [done|]. by rewrite <- Hcur. }
  split; [done|]. rewrite (re_runs _ _ _ _ Hre) in Hr by done.
  destruct (decide (r_job_id r' = c_job_id c)) as [E|E].
  - exists j. apply elem_candidates. cbn. rewrite E. split_and!; [done..|]. unfold candidate_run. rewrite Hterm.
    rewrite bool_decide_false by done. cbn.
    rewrite E in Hj. rewrite Hj in Hj''. injection Hj'' as <-.
    destruct Hst as [->|Hst]; [exact Hwhy|]. destruct (bool_decide (j_status j' = running)) eqn:Hrun.
    + apply bool_decide_eq_true in Hrun. by rewrite Hrun in Hst.
    + cbn in Hwhy. rewrite orb_false_r in Hwhy. by rewrite Hwhy.
  - exists j'. apply elem_candidates. cbn. rewrite <- (re_jobs _ _ _ _ Hre) by done. split_and!; [done..|].
    unfold candidate_run. by rewrite Hterm, Hopen, Hwhy.
Qed.

(** ** One candidate, and all that were listed *)

(** A candidate that is done with is reconciled; one that failed is as it was. *)
Definition candidate_effect c j (d d' : DB) (o : outcome exn (TerminalIntentReconciliationSummary * option exn)) : Prop :=
  match o with
  | Ok (n, None) => t_inspected n = 0%nat ∧ reconciled d d' c j
  | Ok (_, Some _) => d' = d
  | Raise _ => True
  end.

Lemma exec_look {B} ch (f : host Q R A → outcome exn B) h : exec (await ch (λ x, (f x, x))) h = (f h, h).
Proof. exact (exec_await ch (λ x, (f x, x)) h). Qed.

Lemma exec_ensure c known counts w h r j :
  current (base h) c r j → t_inspected counts = 0%nat →
  candidate_effect c j (base h) (base (exec (ensure_candidate c known counts w) h).2)
    (exec (ensure_candidate c known counts w) h).1.
Proof.
  intros Hc Hn. unfold ensure_candidate. rewrite exec_attempt, exec_call. cbn [fst snd].
  pose proof (reconcile_effect nonces c w _ _ _ Hc) as He. cbv zeta in He.
  destruct (reconcile_terminal_webhook_candidate nonces c w (base h)) as [[x|e] d']; cbn in He |- *; [|by destruct e].
  split; [by rewrite Hn|exact He].
Qed.

Lemma exec_candidate c h r j :
  current (base h) c r j →
  candidate_effect c j (base h) (base (exec (_candidate c) h).2) (exec (_candidate c) h).1.
Proof.
  intros Hc. unfold _candidate.
  destruct (c_existing c); [by eapply exec_ensure|]. case_bool_decide; [|done]. cbn [negb].
  rewrite exec_attempt. unfold _load_terminal_config, load. rewrite exec_attempt, exec_look. cbn [fst snd].
  assert (∀ k n, t_inspected k = 0%nat → candidate_effect c j (base h)
    (base (exec (ensure_candidate c false k n) h).2) (exec (ensure_candidate c false k n) h).1) as He
    by (intros; by eapply exec_ensure).
  destruct (in_library _) as [config|e]; cbn [exec fst snd].
  - destruct (cfg_webhook config) as [webhook|]; [|by apply He]. destruct (should_fire _ _); [|by apply He].
    rewrite exec_bind. unfold _load_result_metadata, metadata_of, except. rewrite exec_attempt, exec_bind, exec_look.
    cbn [fst snd]. destruct (in_library (get_result_metadata _ _ _)) as [[m|]|e]; cbn [exec fst snd]; try by apply He.
    destruct (is_cancelled e); cbn [exec fst snd]; [done|by apply He].
  - destruct e; cbn [exec fst snd]; try done; rewrite exec_bind, exec_look; cbn [fst snd];
      (destruct (_declares_webhook _); cbn [exec fst snd]; [done|by apply He]).
Qed.

Lemma first_failure_kept cs : ∀ counts e h s h',
  exec (reconcile_candidates cs counts (Some e)) h = (Ok (s, None), h') → False.
Proof.
  induction cs as [|c cs IH]; intros counts e h s h'; [done|]. cbn [reconcile_candidates].
  rewrite exec_bind. destruct (exec (_candidate c) h) as [[o|] h1]; cbn [fst snd]; [|done].
  rewrite exec_bind. destruct (exec _ h1) as [[[]|] h2]; cbn [fst snd]; [|done]. apply IH.
Qed.

(** The candidates taken up are none afterwards, and no run has become one. *)
Lemma exec_candidates cs : ∀ counts h s h',
  NoDup (map c_run_id cs) → Forall (λ c, ∃ r j, current (base h) c r j) cs →
  exec (reconcile_candidates cs counts None) h = (Ok (s, None), h') →
  t_inspected s = t_inspected counts ∧
  ∀ y, y ∈ candidates (base h') → y.1.1 ∉ map c_run_id cs ∧ ∃ j, (y.1, j) ∈ candidates (base h).
Proof.
  induction cs as [|c cs IH]; intros counts h s h' Hnd Hcs; cbn [reconcile_candidates].
  { intros [= <- <-]. split; [done|]. intros [y j] Hy. split; [apply not_elem_of_nil|by exists j]. }
  apply NoDup_cons in Hnd as [Hc Hnd]. apply Forall_cons in Hcs as [(r & j & Hr) Hcs].
  rewrite exec_bind. pose proof (exec_candidate c h r j Hr) as He.
  destruct (exec (_candidate c) h) as [[[n [e|]]|e] h1]; cbn [fst snd candidate_effect] in *; [| |done].
  - rewrite exec_bind. destruct (exec _ h1) as [[[]|] h2]; cbn [fst snd]; [|done]. intros []%first_failure_kept.
  - destruct He as [Hn He]. cbn [exec bind attempt].
    intros Hx. apply IH in Hx as [Hs Hx]; [|done|].
    + split; [cbn in Hs; lia|]. intros y Hy. destruct (Hx y Hy) as [Hnot [j1 Hj1]].
      destruct (candidates_shrink _ _ _ _ _ _ Hr He Hj1) as [Hne Hold]. split; [|exact Hold].
      apply not_elem_of_cons. by split.
    + rewrite Forall_forall in *. intros c' Hin. destruct (Hcs c' Hin) as (r' & j' & Hr'). exists r'.
      eapply current_kept; [|exact Hr'|exact Hr|exact He]. intros E. apply Hc. rewrite <- E.
      by apply list_elem_of_fmap_2.
Qed.

(** The rows that a pass takes up. *)
Definition taken_up (limit : option nat) (d : DB) : list row := terminal_webhook_candidate_rows limit d.

Lemma taken_up_candidates limit d x : x ∈ taken_up limit d → x ∈ candidates d.
Proof.
  unfold taken_up, terminal_webhook_candidate_rows. destruct limit as [n|]; [|done].
  intros Hx. eapply elem_of_sublist; [exact Hx|apply sublist_take].
Qed.

Lemma taken_up_keys limit d : NoDup (map (λ x : row, run_of x) (taken_up limit d)).
Proof.
  pose proof (candidate_keys d) as Hk. unfold taken_up, terminal_webhook_candidate_rows in *.
  destruct limit as [n|]; [|done]. eapply sublist_NoDup; [exact Hk|]. apply fmap_sublist, sublist_take.
Qed.

Lemma listed_current d rows cs :
  (∀ x, x ∈ rows → x ∈ candidates d) →
  traverse (λ x : row, terminal_webhook_candidate d (run_of x) x.1.2 x.2) rows = Ok cs →
  map c_run_id cs = map (λ x : row, run_of x) rows ∧ Forall (λ c, ∃ r j, current d c r j) cs.
Proof.
  revert cs. induction rows as [|x rows IH]; intros cs Hin; cbn.
  { intros [= <-]. split; [done|constructor]. }
  destruct (terminal_webhook_candidate d (run_of x) x.1.2 x.2) as [c|] eqn:Hc; [|done].
  destruct (traverse _ rows) as [cs'|] eqn:Hcs; [|done]. intros [= <-].
  apply read_candidate in Hc as [Hid Hcur]; [|apply Hin; by left].
  destruct (IH cs') as [Hids Hall]; [intros y Hy; apply Hin; by right|done|]. cbn. rewrite Hid, Hids.
  split; [done|]. constructor; [by eexists _, _|done].
Qed.
Lemma exec_listed limit h s h' :
  exec (reconcile_terminal_webhook_intents limit) h = (Ok s, h') →
  ∃ cs h1, traverse (λ x : row, terminal_webhook_candidate (base h) (run_of x) x.1.2 x.2) (taken_up limit (base h)) = Ok cs ∧
    base h1 = base h ∧
    exec (reconcile_candidates cs (add_counts no_counts {| t_inspected := length cs; t_required := 0; t_existing := 0;
       t_repaired := 0; t_not_required := 0; t_race_noop := 0; t_metadata_missing := 0; t_parent_converged := 0 |}) None) h1 =
      (Ok (s, None), h').
Proof.
  unfold reconcile_terminal_webhook_intents. rewrite exec_bind, exec_call. cbn [fst snd].
  assert (∀ n, list_terminal_webhook_candidates limit (base h) = n → ∀ cs, n.1 = Ok cs → n.2 = base h ∧
    traverse (λ x : row, terminal_webhook_candidate (base h) (run_of x) x.1.2 x.2) (taken_up limit (base h)) = Ok cs) as Hl.
  { intros n <- cs. unfold list_terminal_webhook_candidates, read, taken_up. by destruct limit as [[]|]. }
  specialize (Hl _ eq_refl). destruct (list_terminal_webhook_candidates limit (base h)) as [[cs|] d]; cbn [in_store fst snd] in *; [|done].
  destruct (Hl cs eq_refl) as [-> Ht]. rewrite exec_bind. set (h1 := set_stores _ h).
  destruct (exec (reconcile_candidates cs _ None) h1) as [[[n [e|]]|] h2] eqn:He; cbn [fst snd exec]; [done| |done].
  intros [= <- <-]. exists cs, h1. by split_and!.
Qed.
End pass.

(** [C22] An undisturbed pass that reports no failure leaves nothing it took up behind: it
    counts as many candidates as it took (those that had failed before last, the oldest
    first), none of their runs is a candidate afterwards, and every candidate that is left
    was one before. So a pass without a limit leaves no terminal run unreconciled. *)
Theorem terminal_pass_complete `{Vault} `{JsonText} {Q R A : Type} `{DeliveryQueue Q} `{ResultFiles R}
    `{CronScheduler A} `{Deployment} `{Reconciling} limit (h h' : host Q R A) s :
  exec (reconcile_terminal_webhook_intents limit) h = (Ok s, h') →
  let d := db (stores h) in
  t_inspected s = length (terminal_webhook_candidate_rows limit d) ∧
  ∀ y, y ∈ terminal_webhook_candidate_rows None (db (stores h')) →
    y.1.1 ∉ map (λ x, x.1.1) (terminal_webhook_candidate_rows limit d) ∧
    ∃ j, (y.1, j) ∈ terminal_webhook_candidate_rows None d.
Proof.
  intros He d. apply exec_listed in He as (cs & h1 & Hcs & Hb & He).
  destruct (listed_current d _ cs (taken_up_candidates limit d) Hcs) as [Hids Hall].
  pose proof (taken_up_keys limit d) as Hnd. unfold taken_up in *. rewrite <- Hids in *.
  apply exec_candidates in He as [Hn Hy]; [|done|by rewrite Hb]. rewrite Hb in Hy. split; [|exact Hy].
  rewrite Hn. cbn. by rewrite <- (length_map c_run_id), Hids, length_map.
Qed.

(** A run whose worker died was recovered: it is failed, and owes a webhook. *)
Definition recovered_w : world := call claimed_w (recover_stale_running_jobs 700 800 (Some 1%nat)).
Definition owing_host := host_of recovered_w 1000.
Definition repaired := exec (reconcile_terminal_webhook_intents None) owing_host.
Definition one_repaired : TerminalIntentReconciliationSummary :=
  {| t_inspected := 1; t_required := 1; t_existing := 0; t_repaired := 1; t_not_required := 0; t_race_noop := 0;
     t_metadata_missing := 1; t_parent_converged := 0 |}.
Lemma repaired_outcome : repaired.1 = Ok one_repaired.
Proof. by vm_compute. Qed.

Lemma terminal_pass_complete_witness :
  length (terminal_webhook_candidate_rows None (db recovered_w)) = 1%nat ∧
  ∀ y, y ∈ terminal_webhook_candidate_rows None (db (stores repaired.2)) →
    y.1.1 ∉ map (λ x, x.1.1) (terminal_webhook_candidate_rows None (db recovered_w)).
Proof.
  assert (exec (reconcile_terminal_webhook_intents None) owing_host = (Ok one_repaired, repaired.2)) as E.
  { fold repaired. rewrite (surjective_pairing repaired) at 1. by rewrite repaired_outcome. }
  destruct (terminal_pass_complete None owing_host repaired.2 one_repaired E) as [Hn Hy].
  split; [exact (eq_sym Hn)|]. intros y Hin. exact (proj1 (Hy y Hin)).
Defined.
