(* ===== verification/Submission.v ===== *)
(** * Ad-hoc submissions ([api/scrape_submission.py])

    A submission is saved, delivered to the queue, and awaited when its mode asks for it.
    The fault injection of [qualification_checkpoint] is left out. *)

From S2P Require Import Prelude.
From S2P Require Import Text.
From S2P Require Import Paths.
From S2P Require Import Redis.
From S2P Require Import Queue.
From S2P Require Import Sha256.
From S2P Require Import Envelope.
From S2P Require Import Rows.
From S2P Require Import JobDb.
From S2P Require Import JobModel.
From S2P Require Import Tx.
From S2P Require Import Json.
From S2P Require Import JobStore.
From S2P Require Import TxStore.
From S2P Require Import JobRuns.
From S2P Require Import LifecycleStore.
From S2P Require Import System.
From S2P Require Import Samples.
From S2P Require Import Proc.
From S2P Require Import Models.
From S2P Require Import Worker.
From S2P Require Import Service.
From S2P Require Import Reconcile.
From S2P Require Import ReconcileSpec.
Open Scope Z_scope.

Definition _ADHOC_JOB_SAVE_ATTEMPTS : nat := 5.
Definition _RESULT_BEARING_STATUSES (s : JobStatus) : bool :=
  match s with complete | partial | failed => true | _ => false end.

Record ScrapeSubmission := {
  s_job : string;
  s_run : string;
  s_status : JobStatus;
  s_completed : bool;
  s_replayed : bool;
}.

Record IdempotencyContext := { caller_scope : string; key_digest : string }.

(** What is drawn for an attempt to save: [uuid.uuid4()], [generate_run_id()] and the hex
    digits of the name. *)
Record draw := { d_job_id : string; d_run_id : string; d_suffix : string }.

(** The draws of the attempts; [QueueJobHandle.result], which ends with the result of the
    run's delivery, or with an exception by its type: "TimeoutError", "ResultNotFound",
    "CancelledError" when the delivery was aborted, or any other. *)
Class Submitting (Q : Type) := {
  draws : list draw;
  queue_result : string → Z → Q → outcome string unit;
}.

Definition IdempotencyConflictError : exn := Broken "IdempotencyConflictError".
Definition is_duplicate (e : exn) : bool := match e with InStore (DuplicateJobError _ _) => true | _ => false end.

Section submission.
Context `{Vault} `{JsonText} {Q R A : Type} `{DeliveryQueue Q} `{ResultFiles R} `{CronScheduler A} `{Deployment}.
Context `{Printable} `{Submitting Q}.
Implicit Types (h : host Q R A) (jid rid : string).

Abbreviation procedure := (proc (host Q R A)).

Definition should_wait_for_completion (config : ScrapeConfig) : bool :=
  match cfg_mode config with
  | mode_sync => true
  | mode_async => false
  | mode_auto =>
      match cfg_targets config with
      | [target] => if t_paginated target then false else bool_decide (t_fetcher target = basic)
      | _ => false
      end
  end.

Definition _adhoc_job_name (hex config_name : string) : outcome string string :=
  match safe_path_part config_name with
  | Raise e => Raise e
  | Ok config_name =>
      let suffix := "-" +:+ hex in
      let max_base_bytes := (MAX_PATH_PART_BYTES - length (txt suffix))%nat in
      safe_path_part (truncate max_base_bytes config_name +:+ suffix)
  end.

Definition adhoc_job (d : draw) (name config_yaml : string) (config : ScrapeConfig) (now : Z) : Job :=
  {| job_id := d_job_id d; project := cfg_project config; JobModel.name := name; status := queued;
     config_yaml := config_yaml; created_at := now; updated_at := Some now; schedule_cron := None;
     schedule_timezone := "UTC"; schedule_enabled := true; current_run_id := Some (d_run_id d);
     current_trigger := Some "adhoc"; deletion_requested_at := None; delete_results_on_delete := None;
     schedule_failure_at := None; schedule_failure_code := None; schedule_consecutive_failures := 0 |}.

(** One attempt: the job, and whether it is new. *)
Definition save_attempt (job : Job) (idempotency : option IdempotencyContext) (response_mode : string)
    (retention_hours : Z) : procedure (Job * bool) :=
  let ids := match current_run_id job with Some r => {[ r ]} | None => ∅ end in
  match idempotency with
  | None =>
      let* _ := await JobChannel (on_store (save_job nonces admission_limits job) ids) in
      Return (job, true)
  | Some context =>
      let* o := await JobChannel (on_store
        (create_idempotent_job nonces admission_limits job (caller_scope context) (key_digest context)
           (sha256 (config_yaml job)) response_mode (created_at job + retention_hours * 3600 * time_unit)) ids) in
      match i_action o with
      | conflict => Throw IdempotencyConflictError
      | matched => Return (i_job o, false)
      | created => Return (i_job o, true)
      end
  end.

Fixpoint save_attempts (rest : list draw) (config_yaml : string) (config : ScrapeConfig)
    (idempotency : option IdempotencyContext) (response_mode : string) (retention_hours : Z)
    (last_duplicate : option exn) : procedure (Job * bool) :=
  match rest with
  | [] => Throw (match last_duplicate with Some e => e | None => Broken "RuntimeError" end)
  | d :: rest =>
      match _adhoc_job_name (d_suffix d) (cfg_name config) with
      | Raise e => Throw (Broken e)
      | Ok name =>
          let* now := current_time in
          attempt (save_attempt (adhoc_job d name config_yaml config now) idempotency response_mode retention_hours)
            (λ o, match o with
                  | Raise e =>
                      if is_duplicate e
                      then save_attempts rest config_yaml config idempotency response_mode retention_hours (Some e)
                      else Throw e
                  | Ok saved => Return saved
                  end)
      end
  end.

Definition _save_adhoc_job (config_yaml : string) (config : ScrapeConfig) (idempotency : option IdempotencyContext)
    (response_mode : string) (retention_hours : Z) : procedure (Job * bool) :=
  save_attempts (take _ADHOC_JOB_SAVE_ATTEMPTS draws) config_yaml config idempotency response_mode retention_hours None.

Definition wait_for_queued_job rid (timeout : Z) : procedure bool :=
  attempt (await QueueChannel (λ h, (in_library (queue_result rid timeout (pool h)), h))) (λ o,
    match o with
    | Ok _ => Return true
    | Raise (Broken t) =>
        if bool_decide (t = "TimeoutError") || bool_decide (t = "ResultNotFound") || bool_decide (t = "CancelledError")
        then Return false else Throw (Broken t)
    | Raise e => Throw e
    end).

(** The loop of [wait_for_persisted_job]; [fuel] bounds its rounds. *)
Fixpoint poll_persisted_job (fuel : nat) jid (deadline poll_delay : Z) : procedure bool :=
  match fuel with
  | O => Throw (Broken "fuel")
  | S fuel =>
      let* job := job_call (get_job jid) in
      if _RESULT_BEARING_STATUSES (status job) then Return true
      else if bool_decide (status job = cancelled) || bool_decide (status job = deleting) then Return false
      else
        let* now := fetch monotonic_clock in
        let remaining := deadline - now in
        if remaining <=? 0 then Return false
        else do* sleep (Z.min poll_delay remaining) in poll_persisted_job fuel jid deadline poll_delay
  end.
Definition wait_for_persisted_job jid (timeout poll_delay : Z) : procedure bool :=
  let* now := fetch monotonic_clock in
  poll_persisted_job (Z.to_nat timeout + 2) jid (now + timeout) poll_delay.

(** The delivery of a new submission. When it fails, a submission without a receipt is
    taken back. *)
Definition deliver_submission (job : Job) rid (config_yaml : string) (config : ScrapeConfig)
    (idempotency : option IdempotencyContext) : procedure unit :=
  let delivery := queue_delivery_metadata config in
  attempt (enqueue_run (job_id job) config_yaml (priority delivery) (needs_browser delivery) rid "adhoc") (λ o,
    match o with
    | Ok _ => Return tt
    | Raise Cancelled => Throw Cancelled
    | Raise e =>
        do* match idempotency with
            | None => except (let* _ := job_call (rollback_queued_submission (job_id job) rid) in Return tt)
                        (λ _, Return tt)
            | Some _ => Return tt
            end in
        Throw e
    end).

(** What is reported once the wait is over: only the durable run authorises its result. *)
Definition durable_outcome (job : Job) rid (signalled replayed : bool) : procedure ScrapeSubmission :=
  let* found_job := job_call (get_job (job_id job)) in
  let same_current_run := opt_eqb (current_run_id found_job) rid in
  let* run := (if same_current_run then Return None else job_call (get_job_run (job_id job) rid)) in
  let durable_status := match run with Some r => r_status r | None => status found_job end in
  let historical := match run with Some _ => negb same_current_run | None => false end in
  Return {| s_job := job_id job; s_run := rid; s_status := durable_status;
            s_completed := signalled && _RESULT_BEARING_STATUSES durable_status && (same_current_run || historical);
            s_replayed := replayed |}.

Definition submit_scrape_job (config_yaml : string) (config : ScrapeConfig) (sync_timeout sync_poll_delay : Z)
    (idempotency : option IdempotencyContext) (retention_hours : Z) : procedure ScrapeSubmission :=
  let wait_for_completion := should_wait_for_completion config in
  let* saved := _save_adhoc_job config_yaml config idempotency
    (if wait_for_completion then "sync" else "async") retention_hours in
  let '(job, should_enqueue) := saved in
  match current_run_id job with
  | None => Throw (Broken "RuntimeError")
  | Some rid =>
      do* (if (should_enqueue : bool) then deliver_submission job rid config_yaml config idempotency else Return tt) in
      if negb wait_for_completion
      then Return {| s_job := job_id job; s_run := rid; s_status := status job; s_completed := false;
                     s_replayed := negb should_enqueue |}
      else
        let* signalled := (if should_enqueue then wait_for_queued_job rid sync_timeout
                           else wait_for_persisted_job (job_id job) sync_timeout sync_poll_delay) in
        durable_outcome job rid signalled (negb should_enqueue)
  end.
End submission.

(** * Submissions are durable or undone

    What a submission reports as completed is so in the database, and a submission without a
    receipt that fails before its delivery is taken back. *)

(** ** Saving a submission, and taking it back *)

Section undo.
Context `{Vault} `{JsonText}.
Implicit Types (d : DB) (job : Job).

(** No row mentions this job id. *)
Record unused d (jid : string) : Prop := {
  un_jobs : jobs d !! jid = None;
  un_snapshots i s : queued_run_snapshots d !! i = Some s → s_job_id s ≠ jid;
  un_idempotency k i : scrape_idempotency d !! k = Some i → i_job_id i ≠ jid;
  un_history : no_history d jid = true;
}.

Record submission job rid : Prop := { sub_status : status job = queued; sub_run : current_run_id job = Some rid }.

Lemma save_effect u adm job rid d :
  submission job rid →
  let r := save_job u adm job d in
  match r.1 with
  | Ok _ => r.2 = with_job u job d ∧ queued_run_snapshots d !! rid = None
  | Raise _ => r.2 = d
  end.
Proof.
  intros [Hs Hr]. cbv zeta. unfold save_job.
  match goal with |- match (transaction ?b d).1 with _ => _ end => apply (tx_transaction b d (λ o d', match o with
    | Ok _ => d' = with_job u job d ∧ queued_run_snapshots d !! rid = None | Raise _ => d' = d end)) end.
  apply tx_insert_new_job; [|done]. intros _ _ _ Hn. apply tx_ret. split; [done|]. by apply Hn.
Qed.

Lemma with_job_jobs u job d : jobs (with_job u job d) = <[job_id job := job_row u job]> (jobs d).
Proof. unfold with_job. by destruct (status job), (current_run_id job). Qed.

Lemma rollback_undoes u job rid d :
  submission job rid → unused d (job_id job) → queued_run_snapshots d !! rid = None →
  rollback_queued_submission (job_id job) rid (with_job u job d) = (Ok true, d).
Proof.
  intros [Hs Hr] [Hj Hsn Hi Hh] Hn. unfold rollback_queued_submission.
  match goal with |- transaction ?b ?d = ?r => refine (tx_pair b d (λ x, x = r) _) end.
  apply tx_bind_query. rewrite with_job_jobs, lookup_insert_eq.
  assert (owned_as queued rid (job_row u job) = true) as Ho.
  { unfold owned_as. cbn. rewrite Hs, Hr. by rewrite bool_decide_true, (proj2 (opt_eqb_true _ _) eq_refl). }
  assert (no_history (with_job u job d) (job_id job) = true) as Hh' by (unfold with_job; by rewrite Hs, Hr).
  rewrite Ho, Hh'. tx_guard. apply tx_keep_idempotency. apply tx_delete_snapshot. intros n.
  assert (scrape_idempotency (with_job u job d) = scrape_idempotency d) as Ei by (unfold with_job; by rewrite Hs, Hr).
  apply tx_delete_job; cbn [jobs set_queued_run_snapshots set_scrape_idempotency]; rewrite with_job_jobs, lookup_insert_eq.
  2:{ intros Hno. by rewrite (Hno _ eq_refl) in Ho. }
  intros j _ _. tx_guard. apply tx_ret. f_equal.
  unfold cascade. cbn. rewrite Ei, delete_insert_id by done.
  unfold with_job. rewrite Hs, Hr. cbn. unfold drop_snapshot. rewrite lookup_insert_eq.
  rewrite bool_decide_true by done. rewrite delete_insert_id by done.
  destruct d as [dj dr ds di dw]. unfold set_scrape_idempotency, set_queued_run_snapshots, set_jobs. cbn in *. f_equal.
  - apply map_filter_id. intros i s Hs'. cbn. by apply (Hsn i s).
  - rewrite map_filter_id; [apply map_filter_id|].
    + intros k i Hk. cbn. by rewrite (bool_decide_false _ (Hi k i Hk)).
    + intros k i Hk. apply map_lookup_filter_Some in Hk as [Hk _]. cbn. by apply (Hi k i).
Qed.
End undo.

(** ** An undisturbed submission without a receipt *)

Section delivered.
Context `{Vault} `{JsonText} {Q R A : Type} `{DeliveryQueue Q} `{ResultFiles R} `{CronScheduler A} `{Deployment}.
Context `{Printable} `{Submitting Q}.
Implicit Types (h : host Q R A) (job : Job) (rid : string).

Abbreviation base h := (db (stores h)).

(** The queue knows a delivery of the run. *)
Definition delivered rid h : Prop := inspect_delivery (clock h) rid (pool h) ≠ Ok st_missing.

(** Only the stores changed: the job was saved. *)
Record accepted (config_yaml_ : string) h h' job rid : Prop := {
  ac_db : base h' = with_job nonces job (base h);
  ac_job : submission job rid;
  ac_config : config_yaml job = config_yaml_;
  ac_unused : unused (base h) (job_id job);
  ac_snapshot : queued_run_snapshots (base h) !! rid = None;
}.
Definition untouched h h' : Prop := pool h' = pool h ∧ clock h' = clock h.

Lemma exec_save job rid mode hours h :
  submission job rid →
  let r := exec (save_attempt job None mode hours) h in
  untouched h r.2 ∧
  match r.1 with
  | Ok (job', new) => job' = job ∧ new = true ∧ base r.2 = with_job nonces job (base h) ∧
                      queued_run_snapshots (base h) !! rid = None
  | Raise _ => base r.2 = base h
  end.
Proof.
  intros Hj. cbv zeta. unfold save_attempt. rewrite exec_bind, exec_await. unfold on_store. cbn [fst snd].
  pose proof (save_effect nonces admission_limits job rid (base h) Hj) as He. cbv zeta in He.
  destruct (save_job nonces admission_limits job (base h)) as [[x|e] d']; cbn in He |- *; by destruct_and?.
Qed.

Lemma exec_save_attempts yaml config mode hours rest : ∀ last h,
  Forall (λ x, unused (base h) (d_job_id x)) rest →
  let r := exec (save_attempts rest yaml config None mode hours last) h in
  untouched h r.2 ∧
  match r.1 with
  | Ok (job, new) => new = true ∧ ∃ rid, accepted yaml h r.2 job rid
  | Raise _ => base r.2 = base h
  end.
Proof.
  induction rest as [|x rest IH]; intros last h Hu; cbv zeta; cbn [save_attempts]; [done|].
  apply Forall_cons in Hu as [Hx Hu]. destruct (_adhoc_job_name _ _) as [nm|]; [|done].
  rewrite exec_bind. unfold current_time. rewrite exec_local. cbn [fst snd]. rewrite exec_attempt.
  set (job := adhoc_job x nm yaml config (clock h)).
  assert (submission job (d_run_id x)) as Hj by by constructor.
  destruct (exec_save job (d_run_id x) mode hours h Hj) as [Hunt Hs]. cbv zeta in Hs, Hunt.
  destruct (exec (save_attempt job None mode hours) h) as [[[job' new]|e] h1]; cbn [fst snd] in *.
  - destruct Hs as (-> & -> & Hb & Hn). cbn [exec fst snd]. split; [done|]. split; [done|]. exists (d_run_id x). by constructor.
  - destruct (is_duplicate e); [|done]. rewrite <- Hs in Hu. specialize (IH (Some e) h1 Hu). cbv zeta in IH.
    destruct IH as [[? ?] IH]. split; [destruct Hunt; split; congruence|].
    destruct (exec (save_attempts rest yaml config None mode hours (Some e)) h1) as [[[job' new]|e'] h2]; cbn [fst snd] in *.
    + destruct IH as (-> & rid & [? ? ? ? ?]). rewrite Hs in *. split; [done|]. exists rid. by constructor.
    + by rewrite IH, Hs.
Qed.

Lemma exec_deliver yaml config job rid h0 h :
  accepted yaml h0 h job rid →
  let r := exec (deliver_submission job rid yaml config None) h in
  match r.1 with
  | Ok _ => stores r.2 = stores h ∧ delivered rid r.2
  | Raise _ => base r.2 = base h0
  end.
Proof.
  intros [Hb Hj _ Hu Hn]. cbv zeta. unfold deliver_submission, enqueue_run. rewrite exec_attempt, exec_await. cbn [fst snd].
  pose proof (enqueue_delivers (clock h) (job_id job) yaml (priority (queue_delivery_metadata config))
    (needs_browser (queue_delivery_metadata config)) rid "adhoc" (pool h)) as Hd.
  destruct (enqueue _ _ _ _ _ _ _ (pool h)) as [[[]|e] q]; cbn [in_queue fst snd] in *.
  - cbn. split; [done|]. by apply Hd.
  - rewrite exec_bind. unfold except. rewrite exec_attempt, exec_bind, exec_call. cbn [fst snd stores set_pool].
    rewrite Hb, (rollback_undoes nonces job rid (base h0) Hj Hu Hn). done.
Qed.

Lemma exec_read {B} (f : DB → outcome store_error B) h :
  exec (job_call (read f)) h = (in_store (f (base h)), set_stores {| db := base h; used := used (stores h) |} h).
Proof. by rewrite exec_call. Qed.

(** The wait and the last reads change nothing of this. *)
Lemma exec_outcome job rid signalled replayed h :
  let r := exec (durable_outcome job rid signalled replayed) h in
  untouched h r.2 ∧ base r.2 = base h ∧
  ∀ s, r.1 = Ok s → s_job s = job_id job ∧ s_run s = rid.
Proof.
  cbv zeta. unfold durable_outcome. rewrite exec_bind. unfold get_job. rewrite exec_read. cbn [fst snd].
  set (h1 := set_stores _ h). destruct (in_store _) as [found_job|]; [|by split_and!].
  rewrite exec_bind. destruct (opt_eqb _ _); cbn [exec fst snd].
  - split_and!; try done. by intros s [= <-].
  - unfold get_job_run. rewrite exec_read. cbn [fst snd].
    destruct (in_store _) as [run|]; cbn [exec fst snd]; split_and!; try done. by intros s [= <-].
Qed.

Lemma exec_wait rid timeout h : (exec (wait_for_queued_job rid timeout) h).2 = h.
Proof.
  unfold wait_for_queued_job. rewrite exec_attempt, exec_await. cbn [fst snd].
  destruct (in_library _) as [|[]]; try done. cbn. by repeat case_match.
Qed.
End delivered.

(** ** What is reported, whatever else happens *)

Section reported.
Context `{Vault} `{JsonText} {Q R A : Type} `{DeliveryQueue Q} `{ResultFiles R} `{CronScheduler A} `{Deployment}.
Context `{Printable} `{Submitting Q}.
Implicit Types (h : host Q R A) (job : Job) (rid : string).
Context (rely : host Q R A → host Q R A → Prop) (fails : channel → Prop).

(** The database holds this outcome of the run: its job still shows it, or its row does. *)
Definition durable (jid rid : string) (s : JobStatus) h : Prop :=
  (∃ j, jobs (db (stores h)) !! jid = Some j ∧ j_current_run_id j = Some rid ∧ j_status j = s) ∨
  (∃ r, job_runs (db (stores h)) !! rid = Some r ∧ r_job_id r = jid ∧ r_status r = s).
Definition reported (o : outcome exn ScrapeSubmission) h : Prop :=
  match o with
  | Ok s => s_completed s = true → _RESULT_BEARING_STATUSES (s_status s) = true ∧ durable (s_job s) (s_run s) (s_status s) h
  | Raise _ => True
  end.

Lemma row_status jid j job : row_to_job jid j = Ok job → status job = j_status j ∧ current_run_id job = j_current_run_id j.
Proof.
  unfold row_to_job. intros E. repeat (case_match; try done); by injection E as <-.
Qed.

Lemma outcome_reported job rid signalled replayed :
  always rely fails (λ _, True) (durable_outcome job rid signalled replayed) reported.
Proof.
  unfold durable_outcome.
  eapply (always_bind _ _ _ _ _ (λ o h, match o with
    | Ok found_job => ∃ j, jobs (db (stores h)) !! job_id job = Some j ∧ row_to_job (job_id job) j = Ok found_job
    | Raise _ => True end)); [| |done].
  { apply always_await; [done| |by intros h e _ _]. intros h _. unfold on_store, get_job, read. cbn.
    destruct (jobs (db (stores h)) !! job_id job) as [j|] eqn:Hj; [|done]. cbn.
    destruct (row_to_job (job_id job) j) eqn:Hr; cbn; [|done]. by exists j. }
  intros found_job. destruct (opt_eqb (current_run_id found_job) rid) eqn:Hc; cbn [bind attempt].
  - apply always_return. intros h (j & Hj & Hr). apply row_status in Hr as [Hs Hcur].
    apply opt_eqb_true in Hc. cbn. rewrite andb_true_r. intros [_ Hb]%andb_true_iff.
    split; [done|]. left. exists j. split_and!; congruence.
  - eapply (always_bind _ _ _ _ _ (λ o h, match o with
      | Ok (Some r) => job_runs (db (stores h)) !! rid = Some r ∧ r_job_id r = job_id job
      | _ => True end)); [| |done].
    + apply (always_pre _ _ (λ _, True)); [|done]. apply always_await; [done| |by intros h e _ _].
      intros h _. unfold on_store, get_job_run, read. cbn.
      destruct (job_runs (db (stores h)) !! rid) as [r|] eqn:Hr; [|done]. by case_bool_decide.
    + intros [r|]; apply always_return; intros h Hr; cbn; [|by rewrite andb_false_r].
      intros [[_ Hb]%andb_true_iff _]%andb_true_iff. split; [done|]. right. exists r. by destruct Hr.
Qed.

Lemma anything {B} (p : proc (host Q R A) B) : always rely fails (λ _, True) p (λ _ _, True).
Proof.
  intros n h _. revert n h. induction p as [a|e|C m k IH|c sh C m k IH]; intros n h; cbn; auto.
Qed.

Lemma submission_reported yaml config t p idempotency hours :
  always rely fails (λ _, True) (submit_scrape_job yaml config t p idempotency hours) reported.
Proof.
  unfold submit_scrape_job. eapply always_bind; [apply anything|intros [job new]|done].
  destruct (current_run_id job) as [rid|]; [|by apply always_throw].
  eapply always_bind; [apply anything|intros []|done].
  destruct (negb _); [by apply always_return|].
  eapply always_bind; [apply anything|intros signalled|done]. apply outcome_reported.
Qed.
End reported.

(** ** The wait for a replayed submission ends *)

Section polling.
Context `{Vault} `{JsonText} {Q R A : Type} `{DeliveryQueue Q} `{ResultFiles R} `{CronScheduler A} `{Deployment}.
Implicit Types (h : host Q R A).

(** Time does not go back. *)
Definition time_passes h h' : Prop := monotonic_clock h ≤ monotonic_clock h'.
Abbreviation always := (always time_passes (λ _, False)).
Definition not_stuck {B} (o : outcome exn B) h : Prop := o ≠ Raise (Broken "fuel").

Lemma not_stuck_raise {B C} e h : not_stuck (Raise e : outcome exn B) h → not_stuck (Raise e : outcome exn C) h.
Proof. intros Hn [= ->]. by apply Hn. Qed.

Definition enough_fuel (fuel : nat) (deadline : Z) h : Prop :=
  0 < Z.of_nat fuel ∧ deadline - monotonic_clock h < Z.of_nat fuel.
Lemma fuel_stable fuel deadline : stable time_passes (enough_fuel fuel deadline).
Proof. intros h h' [? ?] Ht. unfold time_passes in Ht. split; [done|lia]. Qed.

Lemma poll_ends fuel jid deadline delay :
  0 < delay → always (enough_fuel fuel deadline) (poll_persisted_job fuel jid deadline delay) not_stuck.
Proof.
  intros Hd. revert deadline. induction fuel as [|fuel IH]; intros deadline; cbn [poll_persisted_job].
  { apply always_throw. intros h [? _]. lia. }
  eapply (always_bind _ _ _ _ _ (λ o h, enough_fuel (S fuel) deadline h ∧ not_stuck o h));
    [| |intros e h [_ ?]; by eapply not_stuck_raise].
  { apply always_await; [apply fuel_stable| |intros h e Hh [->|[]]; by split; (split; [exact Hh|])].
    intros h Hh. split; [exact Hh|]. unfold not_stuck, on_store.
    destruct (get_job jid (db (stores h))) as [[job|e] d]; by cbn. }
  intros job. destruct (_RESULT_BEARING_STATUSES (status job)); [by apply always_return|].
  destruct (_ || _); [by apply always_return|].
  eapply (always_bind _ _ _ _ _ (λ o h, enough_fuel (S fuel) deadline h ∧ o = Ok (monotonic_clock h)));
    [|intros now|by intros e h [_ ?]].
  { apply always_local. by intros h [? _]. }
  destruct (Z.leb_spec (deadline - now) 0); [by apply always_return|].
  apply (always_pre _ _ (λ h, deadline - now < Z.of_nat (S fuel) ∧ now ≤ monotonic_clock h));
    [|intros h [[_ ?] [= ->]]; split; [done|lia]].
  eapply (always_bind _ _ _ _ _ (λ o h, not_stuck o h ∧ (o = Ok tt → enough_fuel fuel deadline h)));
    [|intros []; eapply always_pre; [apply IH|]; intros h [_ ?]; auto|intros e h [? _]; by eapply not_stuck_raise].
  apply always_await; [| |intros h e _ [->|[]]; by split; (split; [|intros ?])].
  - intros h h' [? ?] Ht. unfold time_passes in *. split; [done|lia].
  - intros h [Hf Hn]. cbn. split; [done|]. intros _. unfold enough_fuel. cbn. lia.
Qed.
End polling.

(** Waiting for a replayed submission terminates: with a positive poll delay, and time
    that does not go back, the loop always ends by one of its own returns within the fuel of
    one round per time unit of the timeout. *)
Theorem persisted_wait_terminates `{Vault} `{JsonText} {Q R A : Type} `{DeliveryQueue Q} `{ResultFiles R}
    `{CronScheduler A} `{Deployment} n jid timeout delay (h h' : host Q R A) o :
  0 < delay → 0 ≤ timeout →
  runs time_passes (λ _, False) n (wait_for_persisted_job jid timeout delay) h o h' → o ≠ Raise (Broken "fuel").
Proof.
  intros Hd Ht Hr. change (not_stuck o h').
  eapply (always_runs time_passes (λ _, False) n (λ _, True)); [|done|exact Hr]. unfold wait_for_persisted_job.
  eapply (always_bind _ _ _ _ _ (λ o h, o = Ok (monotonic_clock h))); [by apply always_local|intros now|by intros ? ? ?].
  eapply always_pre; [by apply poll_ends|]. intros h0 [= ->]. unfold enough_fuel. lia.
Qed.

(** [C24] A completed submission is durable. Whatever else the service, the queue and the
    clocks do meanwhile, whatever fails and whenever the request is cancelled: when a
    submission is reported completed, its status is one that has a result, and the database
    holds that status for exactly the submitted run, at the job that still shows this run or
    in the run's own row. *)
Theorem completed_submission_is_durable `{Vault} `{JsonText} {Q R A : Type} `{DeliveryQueue Q} `{ResultFiles R}
    `{CronScheduler A} `{Deployment} `{Printable} `{Submitting Q} rely fails n yaml config t p idempotency hours
    (h h' : host Q R A) s :
  runs rely fails n (submit_scrape_job yaml config t p idempotency hours) h (Ok s) h' → s_completed s = true →
  _RESULT_BEARING_STATUSES (s_status s) = true ∧ durable (s_job s) (s_run s) (s_status s) h'.
Proof.
  intros Hr. change (reported (Ok s) h').
  by eapply (always_runs rely fails); [apply submission_reported| |exact Hr].
Qed.

(** [C25] A submission without a receipt is delivered or undone. Undisturbed, and with unused
    job ids drawn: if it returns, the queue knows the delivery of its run and the database is
    the one before with the job saved; if it raises (no name left, no capacity, the queue
    refused the run), the database is exactly what it was, unless the exception came from the
    wait for the result, after the delivery. *)
Theorem submission_delivered_or_undone `{Vault} `{JsonText} {Q R A : Type} `{DeliveryQueue Q} `{ResultFiles R}
    `{CronScheduler A} `{Deployment} `{Printable} `{Submitting Q} yaml config t p hours (h : host Q R A) :
  Forall (λ x, unused (db (stores h)) (d_job_id x)) draws →
  let r := exec (submit_scrape_job yaml config t p None hours) h in
  match r.1 with
  | Ok s => ∃ job, accepted yaml h r.2 job (s_run s) ∧ s_job s = job_id job ∧ delivered (s_run s) r.2
  | Raise _ => db (stores r.2) = db (stores h) ∨ ∃ job rid, accepted yaml h r.2 job rid ∧ delivered rid r.2
  end.
Proof.
  intros Hu. cbv zeta. unfold submit_scrape_job, _save_adhoc_job. rewrite exec_bind.
  set (mode := if should_wait_for_completion config then _ else _).
  assert (Forall (λ x, unused (db (stores h)) (d_job_id x)) (take _ADHOC_JOB_SAVE_ATTEMPTS draws)) as Hu'.
  { rewrite Forall_forall in *. intros x Hx. apply Hu. eapply elem_of_sublist; [exact Hx|apply sublist_take]. }
  pose proof (exec_save_attempts yaml config mode hours _ None h Hu') as Hs. cbv zeta in Hs.
  destruct (exec (save_attempts _ yaml config None mode hours None) h) as [[[job new]|e] h1]; cbn [fst snd] in *; [|by left; apply Hs].
  destruct Hs as (_ & -> & rid & Ha). rewrite (sub_run _ _ (ac_job _ _ _ _ _ Ha)).
  rewrite exec_bind. pose proof (exec_deliver yaml config job rid h h1 Ha) as Hd. cbv zeta in Hd.
  destruct (exec (deliver_submission job rid yaml config None) h1) as [[[]|e] h2]; cbn [fst snd] in *; [|by left].
  destruct Hd as [Hst Hd]. assert (accepted yaml h h2 job rid) as Ha2.
  { destruct Ha as [Hb ? ? ? ?]. constructor; try done. by rewrite Hst. }
  destruct (should_wait_for_completion config); cbn [negb exec fst snd]; [|by exists job].
  rewrite exec_bind. pose proof (exec_wait rid t h2) as Hw.
  destruct (exec (wait_for_queued_job rid t) h2) as [[signalled|e] h3]; cbn [fst snd] in *; subst h3;
    [|by right; exists job, rid].
  pose proof (exec_outcome job rid signalled false h2) as Ho. cbv zeta in Ho.
  destruct Ho as ([Hp Hcl] & Hb & Hok). set (r := exec (durable_outcome job rid signalled false) h2) in *.
  assert (accepted yaml h r.2 job rid) as Ha3 by (destruct Ha2; constructor; try done; by rewrite Hb).
  assert (delivered rid r.2) as Hd3 by (unfold delivered; by rewrite Hp, Hcl).
  destruct r.1 as [s|e] eqn:Hr; [|by right; exists job, rid].
  destruct (Hok s eq_refl) as [-> ->]. by exists job.
Qed.

(** ** A submission, and its replay *)

#[export] Instance sample_printable : Printable := {| printable_other _ := true |}.
#[export] Instance sample_submitting : Submitting (RedisPool GRedis) := {|
  draws := [{| d_job_id := "j5"; d_run_id := "r5"; d_suffix := "0a1b2c3d" |}];
  queue_result _ _ _ := Ok tt |}.

Definition sync_config : ScrapeConfig := {|
  cfg_project := "p"; cfg_name := "n"; cfg_targets := cfg_targets sample_config; cfg_priority := "normal";
  cfg_mode := mode_sync; cfg_fail_strategy := fs_partial; cfg_page_cache := cache_off; cfg_deadline_at := None;
  cfg_limits := cfg_limits sample_config; cfg_group_by := by_target; cfg_webhook := None; resolved_secret_values := [] |}.
Definition sample_receipt : IdempotencyContext := {| caller_scope := "c"; key_digest := "k" |}.

Definition empty_host := host_of initial 1000.
Definition submitted_once := exec (submit_scrape_job "project: p" sync_config 5 1 (Some sample_receipt) 24) empty_host.
(** A worker takes the run and finishes it; then the request comes again. *)
Definition worked : world :=
  call (call (stores submitted_once.2) (claim_run u0 "r5" "j5" "adhoc" sample_hash 1010))
    (finalize_owned_run u0 "j5" "r5" complete 3 0 1020 900 None).
Definition replayed := exec (submit_scrape_job "project: p" sync_config 5 1 (Some sample_receipt) 24)
  (set_stores worked submitted_once.2).
Definition replay_answer : ScrapeSubmission :=
  {| s_job := "j5"; s_run := "r5"; s_status := complete; s_completed := true; s_replayed := true |}.

Lemma replay_runs :
  runs serves (λ _, False) 0 (submit_scrape_job "project: p" sync_config 5 1 (Some sample_receipt) 24)
    (set_stores worked submitted_once.2) (Ok replay_answer) replayed.2.
Proof.
  assert (replayed.1 = Ok replay_answer) as E by by vm_compute. rewrite <- E.
  exact (exec_runs serves (λ _, False) 0 (submit_scrape_job "project: p" sync_config 5 1 (Some sample_receipt) 24) _).
Qed.

Lemma completed_submission_is_durable_witness : durable "j5" "r5" complete replayed.2.
Proof.
  exact (proj2 (completed_submission_is_durable serves _ 0 "project: p" sync_config 5 1 (Some sample_receipt) 24 _ _ _
    replay_runs eq_refl)).
Defined.

(** Without a receipt: the pool that was not started refuses the run. *)
Definition refusing_host := set_pool {| redis := g_empty; pool_started := false; pool_stopping := false |} empty_host.
Definition refused := exec (submit_scrape_job "project: p" sample_config 5 1 None 24) refusing_host.

Lemma unused_initially jid : unused empty_db jid.
Proof. constructor; try done; intros ? ?; by rewrite ?lookup_empty. Qed.

Lemma submission_delivered_or_undone_witness :
  refused.1 = Raise (InQueue NotStarted) ∧
  (db (stores refused.2) = db (stores refusing_host) ∨
   ∃ job rid, accepted "project: p" refusing_host refused.2 job rid ∧ delivered rid refused.2).
Proof.
  assert (refused.1 = Raise (InQueue NotStarted)) as E by by vm_compute. split; [exact E|].
  assert (Forall (λ x, unused (db (stores refusing_host)) (d_job_id x)) draws) as Hu.
  { apply Forall_forall. intros x _. apply unused_initially. }
  pose proof (submission_delivered_or_undone "project: p" sample_config 5 1 24 refusing_host Hu) as Hs. cbv zeta in Hs.
  change (exec (submit_scrape_job "project: p" sample_config 5 1 None 24) refusing_host) with refused in Hs.
  rewrite E in Hs. exact Hs.
Defined.

Lemma persisted_wait_terminates_witness :
  (exec (wait_for_persisted_job "j1" 5 2) (host_of submitted 1000)).1 = Ok false ∧
  (exec (wait_for_persisted_job "j1" 5 2) (host_of submitted 1000)).1 ≠ Raise (Broken "fuel").
Proof.
  split; [by vm_compute|].
  exact (persisted_wait_terminates 0 "j1" 5 2 _ _ _ Z.lt_0_2 (Zle_bool_imp_le 0 5 eq_refl)
    (exec_runs time_passes (λ _, False) 0 (wait_for_persisted_job "j1" 5 2) (host_of submitted 1000))).
Defined.
