(* ===== verification/Scheduler.v ===== *)
(** * The scheduler ([scheduler/cron.py])

    [SchedulerService]: registering schedules, what happens when one fires, and manual
    runs. Log lines are left out. *)

From S2P Require Import Prelude.
From S2P Require Import Text.
From S2P Require Import Unicode.
From S2P Require Import Crontab.
From S2P Require Import Queue.
From S2P Require Import Envelope.
From S2P Require Import Rows.
From S2P Require Import JobDb.
From S2P Require Import JobModel.
From S2P Require Import Json.
From S2P Require Import JobRecovery.
From S2P Require Import JobStore.
From S2P Require Import JobRuns.
From S2P Require Import System.
From S2P Require Import Proc.
From S2P Require Import Models.
From S2P Require Import Worker.
From S2P Require Import Service.
From S2P Require Import Reconcile.
Open Scope Z_scope.

(** The settings of the scheduler, and which exceptions of the libraries are [ValueError]s
    or [YAMLError]s. *)
Class Scheduling := {
  queued_claim_timeout : Z;
  jitter_max : Z;
  has_result_store : bool;
  value_error_type : string → bool;
  yaml_error_type : string → bool;
}.

Definition ManualTriggerConflictError : exn := Broken "ManualTriggerConflictError".
Definition SchedulerUnavailableError : exn := Broken "SchedulerUnavailableError".
Definition ScheduledJobLifecycleError : exn := Broken "ScheduledJobLifecycleError".
Definition is_key_error (e : exn) : bool := match e with InStore (KeyError _) => true | _ => false end.

Section scheduler.
Context `{Vault} `{JsonText} {Q R A : Type} `{DeliveryQueue Q} `{ResultFiles R} `{CronScheduler A} `{Deployment}.
Context `{Reconciling} `{Scheduling} `{Digits}.
Implicit Types (h : host Q R A) (jid rid : string).

Abbreviation procedure := (proc (host Q R A)).

(** ** Schedules *)

(** [with suppress(JobLookupError)] *)
Definition forget jid h : host Q R A :=
  match Service.remove_job jid (cron h) with Some a => set_cron a h | None => h end.
Definition set_failure jid (code : option string) h : host Q R A :=
  set_failures (match code with Some c => <[jid := c]> (failures h) | None => delete jid (failures h) end) h.

Definition register_job jid (cron_expr timezone_name : string) (enabled : bool) (failure_code : option string) :
    prog (host Q R A) exn unit := λ h,
  match crontab_fields (decode (txt cron_expr)) with
  | Raise e => (Raise (Broken e), h)
  | Ok fields =>
      match cron_trigger fields timezone_name jitter_max with
      | Raise e => (Raise (Broken e), h)
      | Ok trigger =>
          let h := forget jid h in
          let h := set_cron (add_job jid trigger (cron h)) h in
          (Ok tt,
           if negb enabled then set_failure jid None (set_cron (pause_job jid (cron h)) h)
           else set_failure jid failure_code h)
      end
  end.

Definition remove_job jid h : host Q R A := set_failure jid None (forget jid h).

(** What [start] skips: [except (ValueError, ZoneInfoNotFoundError)]. *)
Definition unreadable_schedule (e : exn) : bool :=
  match e with Broken t => value_error_type t || bool_decide (t = "ZoneInfoNotFoundError") | _ => false end.

Fixpoint register_all (rows : list (string * string * string * bool)) (unregistered : gmap string string) :
    prog (host Q R A) exn (gmap string string) :=
  match rows with
  | [] => pret unregistered
  | (jid, cron_expr, timezone_name, enabled) :: rows => λ h,
      match register_job jid cron_expr timezone_name enabled None h with
      | (Ok _, h) => register_all rows unregistered h
      | (Raise e, h) =>
          if unreadable_schedule e
          then register_all rows (<[jid := "persisted_config_invalid"]> unregistered) h
          else (Raise e, h)
      end
  end.

Definition start : procedure unit :=
  let* rows := job_call list_scheduled_jobs in
  let* unregistered := local (register_all rows ∅) in
  let* missed := job_call list_scheduled_trigger_failures in
  do* update (λ h, set_failures (unregistered ∪ list_to_map missed) h) in
  update (λ h, set_healthy_at (Some (clock h)) (set_cron (start_scheduler (cron h)) h)).

(** [with suppress(SchedulerNotRunningError)] *)
Definition shutdown h : host Q R A :=
  match shutdown_scheduler (cron h) with Some a => set_cron a h | None => h end.

Definition background_ok h : bool := aps_running (cron h) && bool_decide (failures h = ∅).
Definition background_detail h : option string :=
  match merge_sort (λ a b, String.leb a b) (map_to_list (failures h)).*1 with
  | jid :: _ =>
      Some ("scheduled callback failures: count=" +:+ String.string_of_list_ascii (digits (N.of_nat (size (failures h)))) +:+
            " job_id=" +:+ jid +:+ " code=" +:+ default "" (failures h !! jid))
  | [] => if background_ok h then None else Some "scheduler is stopped"
  end.

Definition get_next_run_time jid h : option Z :=
  match next_run_time jid (cron h) with Some t => t | None => None end.

(** ** A trigger *)

Definition _failure_code (e : exn) : string :=
  match e with
  | InStore (AdmissionCapacityError reason) => "admission_" +:+ reason
  | InStore SecretDecryptionError => "persisted_config_unavailable"
  | InStore (ValueError _) | InQueue UnknownPriority => "persisted_config_invalid"
  | Broken t =>
      if bool_decide (t = "SchedulerUnavailableError") then "queue_state_unavailable"
      else if bool_decide (t = "MemoryError") then "enqueue_resource_exhausted"
      else if bool_decide (t = "SecretDecryptionError") || bool_decide (t = "SecretKeyConfigurationError")
      then "persisted_config_unavailable"
      else if value_error_type t || yaml_error_type t then "persisted_config_invalid"
      else "scheduled_callback_failed"
  | _ => "scheduled_callback_failed"
  end.

Definition _reconcile_stale_queued_run (job : Job) (now : Z) : procedure unit :=
  match current_run_id job, updated_at job with
  | Some run_id, Some queued_at =>
      let trigger := match current_trigger job with
                     | Some t => t
                     | None => match schedule_cron job with Some _ => "scheduled" | None => "adhoc" end
                     end in
      let queued_job :=
        {| q_job_id := job_id job; q_run_id := run_id; q_config_yaml := config_yaml job; q_queued_at := queued_at;
           q_trigger := trigger; q_schedule_cron := schedule_cron job;
           q_schedule_enabled := schedule_enabled job |} in
      except (let* _ := reconcile_stale_queued_job queued_job (now - queued_claim_timeout) now in Return tt)
        (λ e, if is_queued_reconciliation_error e then Throw SchedulerUnavailableError else Throw e)
  | _, _ => Return tt
  end.

Definition _job_has_active_run (job : Job) (now : Z) : procedure bool :=
  match status job, current_run_id job with
  | queued, None => Return false
  | queued, Some _ =>
      match updated_at job with
      | None => Return true
      | Some _ =>
          if run_lease_is_active (updated_at job) queued_claim_timeout now then Return true
          else do* _reconcile_stale_queued_run job now in Return true
      end
  | running, None => Return false
  | running, Some run_id =>
      let* run := job_call (get_job_run (job_id job) run_id) in
      match run with
      | Some r =>
          if negb (bool_decide (r_status r = running)) then Return false
          else Return (run_lease_is_active (r_heartbeat_at r) running_heartbeat_timeout now)
      | None => Return false
      end
  | _, _ => Return false
  end.

Definition closed (job : Job) : bool := bool_decide (status job = cancelled) || bool_decide (status job = deleting).

(** [except Exception as exc:] of the enqueue: the run fails. *)
Definition enqueue_failed jid (trigger : string) (raise_enqueue_errors : bool) rid (e : exn) :
    procedure (option (string * string)) :=
  let* failed_at := current_time in
  let* _ := job_call (fail_queued_run nonces jid rid failed_at) in
  if bool_decide (trigger = "scheduled") || raise_enqueue_errors then Throw e else Return None.

(** The new run is queued, then delivered; if it is not delivered, it fails. *)
Definition queue_and_deliver jid (job : Job) (trigger : string) (raise_enqueue_errors : bool) rid
    (m : QueueDeliveryMetadata) (now : Z) : procedure (option (string * string)) :=
  let* queued := await JobChannel (on_store
    (queue_run nonces admission_limits jid (status job) (current_run_id job) rid trigger now None
       (Some (config_yaml job)) (bool_decide (trigger = "scheduled"))) {[ rid ]}) in
  if negb queued then Return None
  else
    attempt (enqueue_run (job_id job) (config_yaml job) (priority m) (needs_browser m) rid trigger) (λ o,
      match o with
      | Ok _ => Return (Some (rid, sha256 (config_yaml job)))
      | Raise Cancelled => Throw Cancelled
      | Raise e => enqueue_failed jid trigger raise_enqueue_errors rid e
      end).

(** A stale running job is recovered first; [None] when another task was faster. *)
Definition recovered_job jid (job : Job) (now : Z) : procedure (option Job) :=
  if negb (bool_decide (status job = running)) then Return (Some job)
  else
    let* recovered := job_call (recover_stale_run jid (current_run_id job) (now - running_heartbeat_timeout) now) in
    if negb recovered then Return None
    else
      do* (if has_result_store then let* _ := reconcile_terminal_webhook_intents None in Return tt else Return tt) in
      let* job := job_call (get_job jid) in Return (Some job).

Definition _trigger_job jid (trigger : string) (raise_enqueue_errors : bool) (new_run_id : option string) :
    procedure (option (string * string)) :=
  attempt (job_call (get_job jid)) (λ o,
    match o with
    | Raise e => if is_key_error e then do* update (remove_job jid) in Return None else Throw e
    | Ok job =>
        if closed job then do* update (remove_job jid) in Return None
        else if bool_decide (trigger = "scheduled") && negb (schedule_enabled job) then Return None
        else
          let* now := current_time in
          let* active := _job_has_active_run job now in
          if (active : bool) then Return None
          else
            let* job := recovered_job jid job now in
            match job with
            | None => Return None
            | Some job =>
                let* config := load (config_yaml job) in
                queue_and_deliver jid job trigger raise_enqueue_errors (or_text new_run_id generate_run_id)
                  (queue_delivery_metadata config) now
            end
    end).

(** ** The callback of a schedule *)

Definition record_missed jid rid (e : exn) : procedure unit :=
  let code := _failure_code e in
  let* failed_at := current_time in
  attempt (await JobChannel (on_store (record_scheduled_trigger_failure jid rid failed_at code) {[ rid ]})) (λ o,
    match o with
    | Raise Cancelled => Throw Cancelled
    | Raise _ => update (set_failure jid (Some code))
    | Ok persisted => update (set_failure jid (if (persisted : bool) then Some code else None))
    end).

Definition _run_scheduled_callback jid rid : procedure unit :=
  attempt (_trigger_job jid "scheduled" false (Some rid)) (λ o,
    match o with
    | Raise Cancelled => Throw Cancelled
    | Raise e => record_missed jid rid e
    | Ok None => Return tt
    | Ok (Some _) =>
        attempt (job_call (clear_scheduled_trigger_failure jid)) (λ o,
          match o with
          | Raise Cancelled => Throw Cancelled
          | Raise _ => update (set_failure jid (Some "schedule_health_persistence_failed"))
          | Ok _ => update (λ h, set_healthy_at (Some (clock h)) (set_failure jid None h))
          end)
    end).

(** ** A manual run *)

Definition trigger_job_now jid : procedure (string * string) :=
  let* job := job_call (get_job jid) in
  match schedule_cron job with
  | None => Throw ScheduledJobLifecycleError
  | Some _ =>
      if closed job then Throw ScheduledJobLifecycleError
      else
        let* now := current_time in
        let* active := _job_has_active_run job now in
        if (active : bool) then Throw ManualTriggerConflictError
        else
          let* result := _trigger_job jid "manual" true None in
          match result with None => Throw ManualTriggerConflictError | Some r => Return r end
  end.
End scheduler.
