(* ===== verification/SchedulerSpec.v ===== *)
(** * Triggers do not strand the run they queue

    Whatever the rest of the service does meanwhile, and whatever call but those on the job
    store fails: when a trigger ends without being cancelled, its new run was delivered to
    the queue, or no job is queued under it. First a sample scheduler. *)

From S2P Require Import Prelude.
From S2P Require Import Text.
From S2P Require Import Unicode.
From S2P Require Import Crontab.
From S2P Require Import Redis.
From S2P Require Import Queue.
From S2P Require Import Envelope.
From S2P Require Import Rows.
From S2P Require Import JobDb.
From S2P Require Import JobModel.
From S2P Require Import Tx.
From S2P Require Import Json.
From S2P Require Import Outbox.
From S2P Require Import JobTerminal.
From S2P Require Import JobRecovery.
From S2P Require Import JobStore.
From S2P Require Import TxStore.
From S2P Require Import JobRuns.
From S2P Require Import Lifecycle.
From S2P Require Import LifecycleStore.
From S2P Require Import System.
From S2P Require Import Samples.
From S2P Require Import Guarantees.
From S2P Require Import Proc.
From S2P Require Import Models.
From S2P Require Import Worker.
From S2P Require Import Service.
From S2P Require Import Reconcile.
From S2P Require Import Scheduler.
Open Scope Z_scope.

#[export] Instance sample_scheduling : Scheduling := {|
  queued_claim_timeout := 300; jitter_max := 120; has_result_store := true;
  value_error_type t := bool_decide (t = "ValueError"); yaml_error_type t := bool_decide (t = "YAMLError") |}.
#[export] Instance sample_digits : Digits := {| other_digit _ := false; other_value _ := None |}.

(** A run is triggered; a pool that was not started refuses it, and the run fails. *)
Definition stopped_host := set_pool {| redis := g_empty; pool_started := false; pool_stopping := false |} sample_host.
Example sample_triggers :
  option_map j_status (jobs (db (stores (exec (_trigger_job "j1" "manual" true None) sample_host).2)) !! "j1") = Some queued ∧
  (exec (_trigger_job "j1" "manual" true None) stopped_host).1 = Raise (InQueue NotStarted) ∧
  option_map j_status (jobs (db (stores (exec (_trigger_job "j1" "manual" true None) stopped_host).2)) !! "j1") = Some failed.
Proof. vm_compute. repeat split. Qed.

Create HintDb strands discriminated.

(** ** In the lifecycle *)

(** Only [jid] may be queued under [rid], which is drawn. *)
Definition only_queued (jid rid : string) (a : astate) : Prop :=
  rid ∈ a_used a ∧ ∀ jid', a_jobs a !! jid' = Some (queued, Some rid) → jid' = jid.

Lemma only_queued_step jid rid a a' : only_queued jid rid a → astep a a' → only_queued jid rid a'.
Proof.
  intros [U O] St. split; [by apply (used_step _ _ St)|].
  destruct St; simpl in *; intros; lookups; unfold drawn in *;
    try match goal with Hf : finished (a_status ?r) = true, Hs : a_status ?r = queued |- _ => by rewrite Hs in Hf end;
    naive_solver.
Qed.

Lemma only_queued_rtc jid rid a a' : only_queued jid rid a → rtc astep a a' → only_queued jid rid a'.
Proof. intros O St. eapply (rtc_invariant astep); eauto using only_queued_step. Qed.

Section strands.
Context `{Vault} `{JsonText} {Q R A : Type} `{DeliveryQueue Q} `{ResultFiles R} `{CronScheduler A} `{Deployment}.
Context `{Reconciling} `{Scheduling} `{Digits}.
Implicit Types (h : host Q R A) (jid rid : string) (w : world).

(** A job that waits under this run id has no row for it yet. *)
Definition unrecorded rid w : Prop :=
  ∀ jid j, jobs (db w) !! jid = Some j → j_status j = queued → j_current_run_id j = Some rid →
    job_runs (db w) !! rid = None.

(** The rest of the service makes any of its store calls, but it does not use the run id that
    this task drew before this task did, nor records a missed fire under it while its run is
    queued; the queue, the clocks and the schedules change as they like. *)
Definition rely rid h h' : Prop :=
  (stores h' = stores h ∨ sstep (stores h) (stores h')) ∧
  (rid ∉ used (stores h) → rid ∉ used (stores h')) ∧
  (unrecorded rid (stores h) → unrecorded rid (stores h')).

Context (fails : channel → Prop) (store_returns : ¬ fails JobChannel) (rid : string).
Abbreviation always := (always (rely rid) fails).

(** Before the run is queued, and after. *)
Definition fresh h : Prop := consistent (absw (stores h)) ∧ rid ∉ used (stores h).
Definition mine jid h : Prop := only_queued jid rid (absw (stores h)) ∧ unrecorded rid (stores h).

Lemma rely_steps h h' : rely rid h h' → rtc astep (absw (stores h)) (absw (stores h')).
Proof. intros ([->|St] & _); [done|]. by apply sstep_sim. Qed.

Lemma fresh_run_stable : stable (rely rid) fresh.
Proof.
  intros h h' [C U] Hr. split; [|by apply Hr].
  by eapply consistent_rtc; [apply rely_steps|].
Qed.

Lemma mine_stable jid : stable (rely rid) (mine jid).
Proof.
  intros h h' [O U] Hr. split; [|by apply Hr].
  by eapply only_queued_rtc; [|apply rely_steps].
Qed.

Lemma fresh_unqueued h : fresh h → unqueued rid (stores h).
Proof.
  intros [C U] jid j Hj _ Hc. apply U.
  apply (current_used _ C jid (j_status j)). apply absw_job in Hj. by rewrite Hj, Hc.
Qed.

(** ** Steps that keep the run id fresh *)

Definition stays {B} (p : proc (host Q R A) B) : Prop := always fresh p (λ _, fresh).

Lemma stays_return {B} (b : B) : stays (Return b).
Proof. by apply always_return. Qed.
Lemma stays_throw {B} e : stays (Throw e : proc _ B).
Proof. by apply always_throw. Qed.
Lemma stays_attempt {B C} (p : proc (host Q R A) B) (k : outcome exn B → proc _ C) :
  stays p → (∀ o, stays (k o)) → stays (attempt p k).
Proof. intros Hp Hk. by eapply always_attempt. Qed.
Lemma stays_bind {B C} (p : proc (host Q R A) B) (k : B → proc _ C) :
  stays p → (∀ b, stays (k b)) → stays (bind p k).
Proof. intros Hp Hk. eapply always_bind; eauto. Qed.
Lemma stays_except {B} (p : proc (host Q R A) B) k : stays p → (∀ e, stays (k e)) → stays (except p k).
Proof. intros Hp Hk. eapply always_except; eauto. Qed.

Lemma stays_local {B} (m : prog (host Q R A) exn B) : (∀ h, stores (m h).2 = stores h) → stays (local m).
Proof. intros Hm. apply always_local. intros h [C U]. split; by rewrite Hm. Qed.
Lemma stays_await {B} c (m : prog (host Q R A) exn B) : (∀ h, stores (m h).2 = stores h) → stays (await c m).
Proof.
  intros Hm. apply always_await; [apply fresh_run_stable|..]; intros h; unfold fresh; by rewrite ?Hm.
Qed.
(** A call on the store that only makes steps of the lifecycle. *)
Lemma keeps_call {B} (m : store B) :
  (∀ d U, rtc astep (abs d U) (abs (m d).2 U)) → stays (job_call m).
Proof.
  intros Hm. apply always_await; [apply fresh_run_stable|..].
  - intros h [C U]. split; cbn; rewrite union_empty_r_L; [|done].
    eapply consistent_rtc; [apply Hm|done].
  - intros h e [C U] _. split; [done|]. split; cbn; rewrite union_empty_r_L; [|done].
    eapply consistent_rtc; [apply Hm|done].
Qed.

Lemma stays_read {B} (f : DB → outcome store_error B) : stays (job_call (read f)).
Proof. by apply keeps_call. Qed.

Ltac keep :=
  repeat first
    [ solve [auto with strands] | apply stays_return | apply stays_throw
    | apply stays_bind; [|intros ?] | apply stays_attempt; [|intros [?|[]]] | apply stays_except; [|intros ?]
    | apply stays_local; done | apply stays_await; done | apply stays_read
    | case_match ].

Lemma keeps_fail_delivery job t expected : stays (fail_delivery job t expected).
Proof. unfold fail_delivery. keep. apply keeps_call. intros. apply abs_fail_queued_run_recovery. Qed.
#[local] Hint Resolve keeps_fail_delivery : strands.

Lemma keeps_restore job m sb t : stays (restore_delivery job m sb t).
Proof.
  unfold restore_delivery. keep. apply keeps_call. intros. by rewrite abs_reserve_queued_run_recovery.
Qed.
#[local] Hint Resolve keeps_restore : strands.

Lemma keeps_missing job sb t : stays (missing_delivery job sb t).
Proof. unfold missing_delivery. keep. Qed.
#[local] Hint Resolve keeps_missing : strands.

Lemma keeps_reconcile_job job sb t : stays (reconcile_stale_queued_job job sb t).
Proof. unfold reconcile_stale_queued_job. keep. Qed.
#[local] Hint Resolve keeps_reconcile_job : strands.

Lemma keeps_active job t : stays (_job_has_active_run job t).
Proof.
  unfold _job_has_active_run, _reconcile_stale_queued_run. keep.
Qed.

Lemma stays_ensure c known counts d : stays (ensure_candidate c known counts d).
Proof. unfold ensure_candidate. keep. apply keeps_call. intros. apply abs_reconcile. Qed.
#[local] Hint Resolve stays_ensure : strands.

Lemma keeps_candidate c : stays (_candidate c).
Proof.
  unfold _candidate, _load_terminal_config, _load_result_metadata, metadata_of. keep.
Qed.
#[local] Hint Resolve keeps_candidate : strands.

Lemma keeps_candidates l counts e : stays (reconcile_candidates l counts e).
Proof.
  revert counts e. induction l as [|c l IH]; intros counts e; cbn [reconcile_candidates]; [apply stays_return|].
  apply stays_bind; [apply keeps_candidate|intros o]. apply stays_bind; [|intros _; apply IH].
  unfold mark_failed_candidate. keep. apply keeps_call. intros. by rewrite abs_mark_reconciliation_failure.
Qed.

Lemma keeps_terminal limit : stays (reconcile_terminal_webhook_intents limit).
Proof.
  unfold reconcile_terminal_webhook_intents.
  apply stays_bind; [|intros l; apply stays_bind; [apply keeps_candidates|intros; keep]].
  unfold list_terminal_webhook_candidates. destruct limit as [[|n]|]; by apply keeps_call.
Qed.
#[local] Hint Resolve keeps_terminal keeps_active : strands.

Lemma keeps_recovered jid job t : stays (recovered_job jid job t).
Proof.
  unfold recovered_job. keep. apply keeps_call. intros. apply abs_recover_stale_run.
Qed.
#[local] Hint Resolve keeps_recovered : strands.

(** ** Queueing, delivering, failing *)

(** A queued run that fails is not queued any more. *)
Lemma fail_queued_run_unqueues u jid t w :
  only_queued jid rid (absw w) → unrecorded rid w → unqueued rid (call w (fail_queued_run u jid rid t)).
Proof.
  intros O Hun jid' j' Hj' Hs Hc.
  assert (jid' = jid) as ->.
  { apply (only_queued_rtc jid rid (absw w) (absw (call w (fail_queued_run u jid rid t)))); [done|apply abs_fail_queued_run|].
    apply absw_job in Hj'. by rewrite Hj', Hs, Hc. }
  revert Hj'. unfold call. cbn [db]. unfold fail_queued_run.
  apply (by_tx _ _ (λ d', jobs d' !! jid = Some j' → False)).
  apply tx_update_job.
  - intros j Hj [Hq Hr]%owned_as_true. cbn [Z.eqb negb]. tx_guard.
    eapply tx_failed_queued_run_inserted; [apply lookup_insert_eq|done|exact (Hun jid j Hj Hq Hr)|].
    apply tx_ret. intros (i & Hi & E)%count_lookup. cbn in Hi. rewrite lookup_insert_eq in Hi.
    injection Hi as <-. unfold abs_job in E. cbn in E. congruence.
  - intros Hno. tx_guard. apply tx_rollback_with. intros Hj'. specialize (Hno j' Hj').
    by rewrite (proj2 (owned_as_true queued rid j') (conj Hs Hc)) in Hno.
Qed.

(** Queueing changes the job alone, or nothing. *)
Lemma queue_run_effect u adm jid s cur new trigger t config en d :
  let r := queue_run u adm jid s cur new trigger t None config en d in
  match r.1 with
  | Ok true => ∃ j', jobs r.2 = <[jid := j']> (jobs d) ∧ job_runs r.2 = job_runs d
  | _ => r.2 = d
  end.
Proof.
  cbv zeta. unfold queue_run, _check_admission. destruct (closed_lifecycle s); [done|].
  match goal with |- match (transaction ?b d).1 with _ => _ end => apply (tx_transaction b d (λ o d',
    match o with Ok true => ∃ j', jobs d' = <[jid := j']> (jobs d) ∧ job_runs d' = job_runs d | _ => d' = d end)) end.
  txs; try done; try (eexists; split; reflexivity).
Qed.

Definition delivered h : Prop := inspect_delivery (clock h) rid (pool h) ≠ Ok st_missing.

(** What a trigger may end in. *)
Definition no_strand (o : outcome exn (option (string * string))) h : Prop :=
  match o with
  | Ok (Some (r, _)) => r = rid ∧ delivered h
  | Raise Cancelled => True
  | _ => unqueued rid (stores h)
  end.

Lemma queue_keeps_or_mine jid s cur trigger t config en h :
  fresh h →
  let r := on_store (queue_run nonces admission_limits jid s cur rid trigger t None config en) {[ rid ]} h in
  match r.1 with Ok true => mine jid r.2 | _ => unqueued rid (stores r.2) end.
Proof.
  intros Hf. pose proof (fresh_unqueued h Hf) as Hu. destruct Hf as [C U]. cbv zeta. unfold on_store. cbn [fst snd].
  pose proof (queue_run_effect nonces admission_limits jid s cur rid trigger t config en (db (stores h))) as He.
  cbv zeta in He. destruct (queue_run _ _ _ _ _ _ _ _ _ _ _ _) as [o d']. cbn [fst snd] in *.
  assert (job_runs (db (stores h)) !! rid = None) as Hrow.
  { destruct (job_runs (db (stores h)) !! rid) eqn:E; [|done]. exfalso. apply U.
    eapply (runs_used _ C). by apply absw_run. }
  destruct o as [[]|e]; cbn [in_store]; [|unfold unqueued; cbn; by rewrite He..].
  destruct He as (j' & Hj & Hr). split; [split|].
  - cbn. set_solver.
  - intros jid' (j & Hl & Hs & Hc)%absw_job_inv. cbn in Hl. rewrite Hj in Hl.
    apply lookup_insert_Some in Hl as [[-> _]|[_ Hl]]; [done|]. by destruct (Hu _ _ Hl Hs).
  - intros jid' j _ _ _. cbn. by rewrite Hr.
Qed.

Definition cut_short {B} (o : outcome exn B) (P : Prop) : Prop := o = Raise Cancelled ∨ P.

Lemma failing_unqueues jid trigger b e :
  e ≠ Cancelled →
  always (mine jid) (enqueue_failed jid trigger b rid e)
    (λ o h, cut_short o (unqueued rid (stores h) ∧ ∀ r, o ≠ Ok (Some r))).
Proof.
  intros He. unfold enqueue_failed.
  eapply (always_bind _ _ _ _ _ (λ o h, mine jid h ∧ is_ok o = true)).
  { by apply always_local. }
  2:{ by intros e' h [_ ?]. }
  intros t. eapply (always_bind _ _ _ _ _ (λ o h, cut_short o (unqueued rid (stores h)))).
  - apply (always_pre _ _ (mine jid)); [|by intros h []]. apply always_await; [apply mine_stable|..].
    + intros h [Ho Hun]. right. cbn. rewrite union_empty_r_L.
      apply (fail_queued_run_unqueues nonces jid t (stores h) Ho Hun).
    + intros h e' _ [->|?]; [by split; left|done].
  - intros ok. destruct (_ || _); [apply always_throw|apply always_return]; intros h [?|?]; try done; by right.
  - intros e' h [Hc|Hu]; [left; congruence|by right].
Qed.

Lemma cut_short_no_strand o h : cut_short o (unqueued rid (stores h) ∧ ∀ r, o ≠ Ok (Some r)) → no_strand o h.
Proof. intros [->|[Hu Ho]]; [done|]. destruct o as [[r|]|[]]; try done. by destruct (Ho r). Qed.

Lemma deliver_strands_nothing jid job trigger b m t :
  always fresh (queue_and_deliver jid job trigger b rid m t) no_strand.
Proof.
  unfold queue_and_deliver.
  eapply (always_bind _ _ _ _ _ (λ o h, match o with
      | Ok true => mine jid h | Raise Cancelled => True | _ => unqueued rid (stores h) end)).
  3:{ intros e h Hq. by destruct e. }
  - apply always_await; [apply fresh_run_stable|..].
    + intros h Hf. pose proof (queue_keeps_or_mine jid (status job) (current_run_id job) trigger t
        (Some (config_yaml job)) (bool_decide (trigger = "scheduled")) h Hf) as Hq. cbv zeta in Hq.
      destruct (on_store _ _ h) as [[[]|[]] h']; done.
    + by intros h e Hf [->|?].
  - intros [|]; [|by apply always_return]. cbn [negb].
    eapply (always_attempt _ _ _ _ _ (λ o h, match o with
      | Ok _ => delivered h | Raise Cancelled => True | Raise _ => mine jid h end)).
    + apply always_await; [apply mine_stable|..].
      * intros h Hm. cbn. pose proof (enqueue_delivers (clock h) (job_id job) (config_yaml job) (priority m)
          (needs_browser m) rid trigger (pool h)) as Hd.
        destruct (enqueue _ _ _ _ _ _ _ _) as [[[]|e] q]; cbn in *; [by apply Hd|done].
      * intros h e Hm _. by destruct e.
    + intros [[]|e]; [by apply always_return|].
      assert (e = Cancelled ∨ e ≠ Cancelled) as [->|He] by (destruct e; auto); [by apply always_throw|].
      pose proof (failing_unqueues jid trigger b e He) as Hf. destruct e; try done;
        (eapply always_weaken; [exact Hf|done|intros; by apply cut_short_no_strand]).
Qed.

Lemma trigger_strands_nothing jid trigger b new :
  or_text new generate_run_id = rid → always fresh (_trigger_job jid trigger b new) no_strand.
Proof.
  intros Hrid.
  assert (∀ h, fresh h → no_strand (Ok None) h) as Hnone by apply fresh_unqueued.
  assert (∀ err h, fresh h → no_strand (Raise err) h) as Hraise by (intros err h Hf; destruct err; try done; by apply fresh_unqueued).
  unfold _trigger_job. eapply always_attempt; [apply (stays_read (λ d, _))|]. intros [job|err].
  2:{ destruct (is_key_error err); [|by apply always_throw, Hraise].
      eapply always_bind; [apply stays_local|intros ?; by apply always_return|apply Hraise]. 
      intros h. unfold remove_job, set_failure, forget. by destruct (Service.remove_job _ _). }
  destruct (closed job).
  { eapply always_bind; [apply stays_local|intros ?; by apply always_return|apply Hraise]. 
    intros h. unfold remove_job, set_failure, forget. by destruct (Service.remove_job _ _). }
  destruct (_ && _); [by apply always_return|].
  eapply always_bind; [by apply stays_local|intros t|apply Hraise].
  eapply always_bind; [apply keeps_active|intros [|]; [by apply always_return|]|apply Hraise].
  eapply always_bind; [apply keeps_recovered|intros [job'|]; [|by apply always_return]|apply Hraise].
  eapply always_bind; [by apply stays_await|intros config; rewrite Hrid|apply Hraise].
  apply deliver_strands_nothing.
Qed.
End strands.

(** [C23] A trigger does not strand the run that it queues. Take a new run id that nothing
    else uses or records a missed fire under, and any run of [_trigger_job] in which the rest
    of the service makes any store calls of [sstep] in between, the job store answers, every other call may fail before or after its effect, and the task is
    cancelled at any time. If it reports a run, the queue knows a delivery of exactly this
    run; if it reports none or raises anything but the cancellation, no job is left queued
    under the run id. (It says nothing of the run that the job had before: a trigger may
    replace a running one, which is then never finished, see [queue_over_running_orphans].) *)
Theorem triggered_run_not_stranded `{Vault} `{JsonText} {Q R A : Type} `{DeliveryQueue Q} `{ResultFiles R}
    `{CronScheduler A} `{Deployment} `{Reconciling} `{Scheduling} `{Digits}
    (fails : channel → Prop) n jid trigger b new rid (h h' : host Q R A) o :
  ¬ fails JobChannel → or_text new generate_run_id = rid →
  rtc sstep initial (stores h) → rid ∉ used (stores h) →
  runs (rely rid) fails n (_trigger_job jid trigger b new) h o h' →
  match o with
  | Ok (Some (r, _)) => r = rid ∧ inspect_delivery (clock h') rid (pool h') ≠ Ok st_missing
  | Raise Cancelled => True
  | _ => unqueued rid (stores h')
  end.
Proof.
  intros Hf Hrid Hw Hu Hr.
  change (no_strand rid o h'). eapply (always_runs (rely rid) fails); [by apply trigger_strands_nothing| |exact Hr].
  split; [by apply reachable_consistent|done].
Qed.

Definition sample_triggered := exec (_trigger_job "j1" "manual" true None) sample_host.
Lemma sample_triggered_runs :
  runs (rely "r2") (λ _, False) 0 (_trigger_job "j1" "manual" true None) sample_host
    (Ok (Some ("r2", sample_hash))) sample_triggered.2.
Proof.
  assert (sample_triggered.1 = Ok (Some ("r2", sample_hash))) as E by by vm_compute. rewrite <- E.
  exact (exec_runs (rely "r2") (λ _, False) 0 (_trigger_job "j1" "manual" true None) sample_host).
Qed.

Lemma triggered_run_not_stranded_witness :
  sample_triggered.1 = Ok (Some ("r2", sample_hash)) ∧
  inspect_delivery (clock sample_triggered.2) "r2" (pool sample_triggered.2) ≠ Ok st_missing.
Proof.
  split; [by vm_compute|].
  refine (proj2 (triggered_run_not_stranded (λ _, False) 0 "j1" "manual" true None "r2" sample_host
    sample_triggered.2 _ (λ F, F) eq_refl finished_reachable _ sample_triggered_runs)).
  apply (bool_decide_unpack _). by vm_compute.
Defined.
