(* ===== verification/JobLifecycle.v ===== *)
(** * Cancelling and deleting a job ([api/job_lifecycle.py])

    The orchestration over the job store, the scheduler, the queue, the error log and the
    results. Log lines are left out. *)

From S2P Require Import Prelude.
From S2P Require Import LocalResults.
From S2P Require Import LocalResultsSpec.
From S2P Require Import ResultRemoval.
From S2P Require Import ResultClients.
From S2P Require Import Redis.
From S2P Require Import Queue.
From S2P Require Import Envelope.
From S2P Require Import Rows.
From S2P Require Import JobDb.
From S2P Require Import JobModel.
From S2P Require Import Tx.
From S2P Require Import Json.
From S2P Require Import JobDeletion.
From S2P Require Import JobRuns.
From S2P Require Import Lifecycle.
From S2P Require Import LifecycleStore.
From S2P Require Import System.
From S2P Require Import Samples.
From S2P Require Import StoreSpec.
From S2P Require Import Guarantees.
From S2P Require Import Proc.
From S2P Require Import Models.
From S2P Require Import ErrorStore.
From S2P Require Import Worker.
From S2P Require Import Service.
From S2P Require Import Reconcile.
From S2P Require Import ReconcileSpec.
From S2P Require Import Scheduler.
Open Scope Z_scope.

(** [WorkerPool.cancel_run], at a time. *)
Class DeliveryCancel (Q : Type) := {
  cancel_delivery : Z → string → prog Q queue_error RunCancellationResult;
}.
(** As [Queue.cancel_run] has it; [E] is what the queue's other users and the worker do
    meanwhile. *)
Definition RedisCancel {T : Type} `{Redis T} `{QueueNames} (E : Z → cancel_env (T := T)) : DeliveryCancel (RedisPool T) := {|
  cancel_delivery now rid := λ q,
    let r := cancel_run (pool_started q) (E now) rid (redis q) in
    (r.1, {| redis := r.2; pool_started := pool_started q; pool_stopping := pool_stopping q |}) |}.

(** [JobLifecycleRequestError], with its status code. *)
Definition JobLifecycleRequestError (status_code : string) : exn := Broken ("JobLifecycleRequestError " +:+ status_code).

Definition _ACTIVE_QUEUE_STATES (st : QueueDeliveryState) : bool :=
  match st with st_queued | st_deferred | st_in_progress => true | _ => false end.

Section lifecycle.
Context `{Vault} `{JsonText} {Q R A : Type} `{DeliveryQueue Q} `{ResultFiles R} `{CronScheduler A} `{Deployment}.
Context `{DeliveryCancel Q}.
Implicit Types (h : host Q R A) (jid rid : string).

Abbreviation procedure := (proc (host Q R A)).

Definition cancel_in_queue rid : procedure RunCancellationResult :=
  await QueueChannel (λ h, let r := cancel_delivery (clock h) rid (pool h) in (in_queue r.1, set_pool r.2 h)).

Definition cancel_current_job jid (expected_run_id : option string) : procedure unit :=
  let* requested_at := current_time in
  let* o := except (job_call (cancel_job jid requested_at expected_run_id))
              (λ _, Throw (JobLifecycleRequestError "500")) in
  match co_action o with
  | run_conflict | c_conflict => Throw (JobLifecycleRequestError "409")
  | c_missing => Throw (JobLifecycleRequestError "404")
  | c_cancelled | already_cancelled =>
      do* update (Scheduler.remove_job jid) in
      if negb (queue_quiescence_required o) then Return tt
      else
        match co_run_id o with
        | None => Throw (Broken "AssertionError")
        | Some run_id =>
            let* queue_result := cancel_in_queue run_id in
            match rc_outcome queue_result with
            | oc_unavailable => Throw (JobLifecycleRequestError "503")
            | oc_timeout => Throw (JobLifecycleRequestError "504")
            | _ => Return tt
            end
        end
  end.

Definition _cleanup_deletion_phase (operation : procedure unit) : procedure unit :=
  except operation (λ _, Throw (JobLifecycleRequestError "500")).

(** The queue no longer has the run. *)
Definition verify_quiescence (run_id : option string) : procedure unit :=
  match run_id with
  | None => Return tt
  | Some run_id =>
      let* queue_state := except (inspect run_id) (λ _, Throw (JobLifecycleRequestError "503")) in
      if _ACTIVE_QUEUE_STATES queue_state then Throw (JobLifecycleRequestError "503") else Return tt
  end.

Definition finish_deletion jid (delete_results_too : bool) : procedure unit :=
  let* finalized := except (job_call (finalize_job_deletion jid delete_results_too None))
                      (λ _, Throw (JobLifecycleRequestError "500")) in
  match finalized with
  | f_pending_webhook_conflict | f_policy_conflict | not_reserved => Throw (JobLifecycleRequestError "409")
  | deleted | f_missing | unexpired_idempotency_conflict => Return tt
  end.

Definition delete_reserved_job jid (delete_results_too : bool) : procedure unit :=
  let* requested_at := current_time in
  let* reservation := except (job_call (reserve_job_deletion jid delete_results_too requested_at))
                        (λ _, Throw (JobLifecycleRequestError "500")) in
  match dr_action reservation with
  | r_missing => Return tt
  | r_active_conflict | policy_conflict | pending_webhook_conflict => Throw (JobLifecycleRequestError "409")
  | reservation_created | resumed =>
      do* update (Scheduler.remove_job jid) in
      do* verify_quiescence (dr_run_id reservation) in
      do* _cleanup_deletion_phase (error_call (delete_errors_for_job jid)) in
      do* (if delete_results_too
           then _cleanup_deletion_phase (remove_results jid (dr_owned_run_ids reservation)) else Return tt) in
      finish_deletion jid delete_results_too
  end.
End lifecycle.

(** * Cancellation stops a run, deletion can be resumed

    What the two requests promise when they return, and that a deletion that was interrupted
    anywhere after its reservation is completed by the same request. *)

(** ** Cancellation *)

Section cancel.
Context `{Vault} `{JsonText}.

Lemma cancel_leaves jid t rid d o :
  (cancel_job jid t (Some rid) d).1 = Ok o → co_action o = c_cancelled ∨ co_action o = already_cancelled →
  co_run_id o = Some rid ∧
  ∃ j', jobs (cancel_job jid t (Some rid) d).2 !! jid = Some j' ∧ j_current_run_id j' = Some rid ∧ j_status j' = cancelled.
Proof.
  unfold cancel_job. match goal with |- (transaction ?b ?d).1 = _ → _ → _ ∧ _ =>
    apply (tx_transaction b d (λ x d', x = Ok o → co_action o = c_cancelled ∨ co_action o = already_cancelled →
      co_run_id o = Some rid ∧ ∃ j', jobs d' !! jid = Some j' ∧ j_current_run_id j' = Some rid ∧ j_status j' = cancelled)) end.
  apply tx_bind_query. cbn beta. destruct (jobs d !! jid) as [j|] eqn:Hj; cbn iota.
  2:{ apply tx_rollback_with. by intros [= <-] [?|?]. }
  case_bool_decide as Hc; cbn [negb]. 2:{ apply tx_rollback_with. by intros [= <-] [?|?]. }
  case_bool_decide as Hs.
  { apply tx_rollback_with. intros [= <-] _. cbn. split; [done|]. by exists j. }
  destruct (is_active (j_status j)) eqn:Ha; cbn [negb]. 2:{ apply tx_rollback_with. by intros [= <-] [?|?]. }
  assert (∀ d1, jobs d1 = jobs d → tx_post d d1
    (let! n := update_job jid (λ j0, bool_decide (j_status j0 = j_status j) && opt_is (j_current_run_id j0) (j_current_run_id j))
        (λ j, set_j_updated_at (Some t) (set_j_schedule_enabled false (set_j_status cancelled j))) in
     if negb (n =? 1) then praise (RuntimeError "Job cancellation lost ownership inside its transaction")
     else pret (cancellation_outcome jid (j_current_run_id j) (j_status j) c_cancelled cancelled))
    (λ x d', x = Ok o → co_action o = c_cancelled ∨ co_action o = already_cancelled →
      co_run_id o = Some rid ∧ ∃ j', jobs d' !! jid = Some j' ∧ j_current_run_id j' = Some rid ∧ j_status j' = cancelled)) as Hrest.
  { intros d1 E. apply tx_update_job; rewrite E.
    - intros j' Hj' _. simplify_eq. tx_guard. apply tx_ret. intros [= <-] _. cbn. split; [done|].
      rewrite lookup_insert_eq. by eexists.
    - intros _. tx_guard. by apply tx_raise. }
  case_bool_decide as Hr; [|by apply Hrest]. unfold cancel_current_run. rewrite Hc. apply tx_bind_assoc.
  apply tx_update_run; [intros r _ _ _|intros _]; tx_guard; [|by apply tx_raise].
  apply tx_bind_ret. rewrite Hc in Hrest. by apply Hrest.
Qed.
End cancel.

Section stops.
Context `{Vault} `{JsonText} {Q R A : Type} `{DeliveryQueue Q} `{ResultFiles R} `{CronScheduler A} `{Deployment}.
Context `{DeliveryCancel Q}.
Implicit Types (h : host Q R A) (jid rid : string).
Context (fails : channel → Prop) (rid : string).
Abbreviation always := (always serves fails).

Definition over_for_good h : Prop := ended rid (absw (stores h)).
Lemma stays_over : stable serves over_for_good.
Proof. intros h h' C [E|St]; unfold over_for_good; [by rewrite E|]. eapply ended_rtc; [done|by apply sstep_sim]. Qed.

Definition stops (o : outcome exn unit) h : Prop := o = Ok tt → over_for_good h.

Lemma cancel_stops jid : always sound (cancel_current_job jid (Some rid)) stops.
Proof.
  unfold cancel_current_job. eapply (always_bind _ _ _ _ _ (λ _, sound)); [by apply always_local|intros t|done].
  set (settled := λ (o : CancellationOutcome) h, co_action o = c_cancelled ∨ co_action o = already_cancelled →
    co_run_id o = Some rid ∧ over_for_good h).
  eapply (always_bind _ _ _ _ _ (λ x h, match x with Ok o => settled o h | Raise _ => True end)); [|intros o|done].
  - eapply (always_except _ _ _ _ _ (λ x h, match x with Ok o => settled o h | Raise _ => True end));
      [|done|intros e; by apply always_throw|done].
    apply always_await; [apply sound_stable| |by intros h e _ _]. intros h C. unfold on_store. cbn.
    destruct (cancel_job jid t (Some rid) (db (stores h))) as [[o|e] d'] eqn:E; cbn; [|done]. intros Ha.
    pose proof (cancel_leaves jid t rid (db (stores h)) o) as Hl. rewrite E in Hl. cbn in Hl.
    destruct (Hl eq_refl Ha) as (Hr & j & Hj & Hc & Hs). split; [done|]. unfold over_for_good. cbn. rewrite union_empty_r_L.
    apply (idle_ended _ jid (j_status j)); [|rewrite <- Hc; by apply abs_jobs_at|by rewrite Hs..].
    eapply consistent_rtc; [|exact C].
    assert (d' = (cancel_job jid t (Some rid) (db (stores h))).2) as -> by by rewrite E.
    apply abs_cancel_job.
  - assert (always (λ h, co_run_id o = Some rid ∧ over_for_good h)
      (do* update (Scheduler.remove_job jid) in
       if negb (queue_quiescence_required o) then Return tt
       else match co_run_id o with
            | None => Throw (Broken "AssertionError")
            | Some run_id =>
                let* queue_result := cancel_in_queue run_id in
                match rc_outcome queue_result with
                | oc_unavailable => Throw (JobLifecycleRequestError "503")
                | oc_timeout => Throw (JobLifecycleRequestError "504")
                | _ => Return tt
                end
            end) stops) as Hrest.
    { eapply (always_bind _ _ _ _ _ (λ _, over_for_good)); [| |done].
      - apply always_local. intros h [_ Ho]. unfold over_for_good in *. cbn.
        unfold Scheduler.remove_job, set_failure, forget. by destruct (Service.remove_job jid (cron h)).
      - intros []. destruct (negb _); [apply always_return; by intros h Ho _|].
        destruct (co_run_id o) as [r|]; [|by apply always_throw].
        eapply (always_bind _ _ _ _ _ (λ _, over_for_good)); [|intros q|done].
        + apply always_await; [apply stays_over|intros h Ho; exact Ho|intros h e Ho _; split; exact Ho].
        + destruct (rc_outcome q); first [by apply always_throw|apply always_return; by intros h Ho _]. }
    destruct (co_action o) eqn:Ha; try by apply always_throw.
    all: eapply always_pre; [exact Hrest|]; intros h Hh; apply Hh; rewrite Ha; auto.
Qed.
End stops.

(** ** Deletion in the database *)

Section deletes.
Context `{Vault} `{JsonText}.
Context (jid : string) (del : bool).
Implicit Types (d : DB) (cur : option string).

Definition reservable (j : JobRow) : Prop :=
  (is_active (j_status j) = false ∧ j_status j ≠ deleting) ∨
  (j_status j = deleting ∧ j_delete_results_on_delete j = Some del).

(** The job may be deleted with this policy; [reserved]: it is being deleted. *)
Record deletable d cur : Prop := {
  dl_row : ∃ j, jobs d !! jid = Some j ∧ j_current_run_id j = cur ∧ reservable j;
  dl_pending : has_pending_webhook d jid = false;
}.
Record reserved d cur : Prop := {
  rv_row : ∃ j, jobs d !! jid = Some j ∧ j_current_run_id j = cur ∧ j_status j = deleting ∧ j_delete_results_on_delete j = Some del;
  rv_pending : has_pending_webhook d jid = false;
}.
(** Nothing in the database mentions the job. *)
Record gone_db d : Prop := {
  gn_jobs : jobs d !! jid = None;
  gn_runs k r : job_runs d !! k = Some r → r_job_id r ≠ jid;
  gn_snapshots k s : queued_run_snapshots d !! k = Some s → s_job_id s ≠ jid;
  gn_webhooks k w : webhook_deliveries d !! k = Some w → w_job_id w ≠ jid;
  gn_idempotency k i : scrape_idempotency d !! k = Some i → i_job_id i ≠ jid;
}.

Lemma reserved_deletable d cur : reserved d cur → deletable d cur.
Proof. intros [(j & ? & ? & ? & ?) ?]. constructor; [|done]. exists j. unfold reservable. auto. Qed.

Lemma complete_reserves d prior cur t a j :
  jobs d !! jid = Some j → j_status j = prior → j_current_run_id j = cur → has_pending_webhook d jid = false →
  (a = reservation_created ∨ a = resumed ∧ prior = deleting ∧ j_delete_results_on_delete j = Some del) →
  tx_post d d (complete_reservation jid del t prior cur a)
    (λ x d', ∃ o, x = Ok o ∧ dr_action o = a ∧ dr_run_id o = cur ∧ reserved d' cur).
Proof.
  intros Hj Hs Hc Hp Ha. unfold complete_reservation. apply tx_bind_query. rewrite Hp.
  destruct Ha as [->|(-> & -> & Hd)].
  - rewrite bool_decide_true by done. apply tx_bind_assoc, tx_update_job.
    + intros j' Hj' _. simplify_eq. tx_guard. apply tx_bind_ret, tx_bind_query, tx_ret. eexists. split; [done|].
      cbn. split_and!; try done. constructor; [|exact Hp]. cbn. rewrite lookup_insert_eq. by eexists.
    + intros Hno. specialize (Hno j Hj). rewrite bool_decide_true in Hno by done. unfold opt_is in Hno.
      by rewrite bool_decide_true in Hno.
  - rewrite bool_decide_false by done. apply tx_bind_ret, tx_bind_query, tx_ret. eexists. split; [done|].
    cbn. split_and!; try done. constructor; [|done]. by exists j.
Qed.

Lemma reserve_effect d cur t :
  deletable d cur →
  let r := reserve_job_deletion jid del t d in
  ∃ o, r.1 = Ok o ∧ (dr_action o = reservation_created ∨ dr_action o = resumed) ∧ dr_run_id o = cur ∧ reserved r.2 cur.
Proof.
  intros [(j & Hj & Hc & Hr) Hp]. cbv zeta. unfold reserve_job_deletion.
  match goal with |- ∃ o, (transaction ?b ?d).1 = _ ∧ _ => apply (tx_transaction b d (λ x d', ∃ o, x = Ok o ∧
    (dr_action o = reservation_created ∨ dr_action o = resumed) ∧ dr_run_id o = cur ∧ reserved d' cur)) end.
  apply tx_bind_query. rewrite Hj. rewrite Hc.
  assert (∀ a, (a = reservation_created ∨ a = resumed ∧ j_status j = deleting ∧ j_delete_results_on_delete j = Some del) →
    tx_post d d (complete_reservation jid del t (j_status j) cur a) (λ x d', ∃ o, x = Ok o ∧
      (dr_action o = reservation_created ∨ dr_action o = resumed) ∧ dr_run_id o = cur ∧ reserved d' cur)) as Hk.
  { intros a Ha. eapply tx_mono; [by eapply complete_reserves|]. intros x d' (o & -> & Hao & ? & ?).
    exists o. split_and!; try done. destruct Ha as [->|[-> _]]; auto. }
  destruct Hr as [[Ha Hd]|[Hs Hpol]].
  - destruct (j_status j); try done; apply Hk; auto.
  - rewrite Hs in *. rewrite (proj2 (opt_eqb_true _ _) Hpol). apply Hk. auto.
Qed.

Lemma finalize_effect d cur :
  reserved d cur →
  let r := finalize_job_deletion jid del None d in r.1 = Ok deleted ∧ gone_db r.2.
Proof.
  intros [(j & Hj & Hc & Hs & Hpol) Hp]. cbv zeta.
  assert ((finalize_job_deletion jid del None d).1 = Ok deleted) as Hok.
  { unfold finalize_job_deletion. match goal with |- (transaction ?b ?d).1 = _ =>
      apply (tx_transaction b d (λ x _, x = Ok deleted)) end.
    apply tx_bind_query. rewrite Hj, Hs, (proj2 (opt_eqb_true _ _) Hpol), bool_decide_true by done. cbn [negb].
    apply tx_bind_query. rewrite Hp. apply tx_bind_query. cbn iota.
    apply tx_keep_webhooks. intros _. apply tx_keep_idempotency, tx_keep_snapshots, tx_keep_runs. apply tx_delete_job; cbn.
    - intros. by tx_guard.
    - intros Hno. specialize (Hno j Hj). rewrite Hs, (proj2 (opt_eqb_true _ _) Hpol) in Hno. done. }
  split; [done|]. destruct (job_deletion_is_complete jid del None d) as [(_ & _ & _ & _ & Hjobs & Hr & Hsn & Hw & Hi)|[? _]]; [|done].
  constructor.
  - by rewrite Hjobs, lookup_delete_eq.
  - intros k r Hk%Hr. by destruct Hk.
  - intros k r Hk%Hsn. by destruct Hk.
  - intros k r Hk%Hw. by destruct Hk.
  - intros k i Hk%Hi. by destruct Hk.
Qed.

Lemma gone_reserve d t :
  jobs d !! jid = None →
  (∃ o, (reserve_job_deletion jid del t d).1 = Ok o ∧ dr_action o = r_missing) ∧ (reserve_job_deletion jid del t d).2 = d.
Proof.
  intros Hj. unfold reserve_job_deletion. match goal with |- (∃ o, (transaction ?b ?d).1 = _ ∧ _) ∧ _ =>
    apply (tx_transaction b d (λ x d', (∃ o, x = Ok o ∧ dr_action o = r_missing) ∧ d' = d)) end.
  apply tx_bind_query. rewrite Hj. apply tx_rollback_with. split; [|done]. by eexists.
Qed.
End deletes.

(** ** Deletion, interrupted and resumed *)

Section resumes.
Context `{Vault} `{JsonText} {Q R A : Type} `{DeliveryQueue Q} `{ResultFiles R} `{CronScheduler A} `{Deployment}.
Implicit Types (h : host Q R A).
Context (fails : channel → Prop) (N : nat) (jid : string) (del : bool) (cur : option string).
Abbreviation triple := (triple eq fails N).

(** The queue answers, and the run is not active in it. *)
Definition quiet h : Prop :=
  ∀ rid, cur = Some rid → ∃ st, inspect_delivery (clock h) rid (pool h) = Ok st ∧ _ACTIVE_QUEUE_STATES st = false.
Definition errors_gone h : Prop := ∀ k r, error_rows (errors h) !! k = Some r → e_job_id r ≠ jid.
(** Nothing is left of the job. *)
Record cleared h : Prop := {
  cl_db : gone_db jid (db (stores h));
  cl_errors : errors_gone h;
  cl_results : del = true → ¬ has_results jid (artifacts h);
}.

Definition ended_well h : Prop := quiet h ∧ cleared h.
Definition unfinished h : Prop := quiet h ∧ (deletable jid del (db (stores h)) cur ∨ cleared h).
Definition reserved_now h : Prop := quiet h ∧ reserved jid del (db (stores h)) cur.
Lemma reserved_unfinished h : reserved_now h → unfinished h.
Proof. intros [Hq Hr]. split; [done|]. left. by apply reserved_deletable. Qed.

(** The results that the deletion reserves can be removed. *)
Definition removable h : Prop :=
  del = true → ∀ t o, (reserve_job_deletion jid del t (db (stores h))).1 = Ok o →
    (delete_results jid (dr_owned_run_ids o) (artifacts h)).1 = Ok tt.

(** Whether the result store is known to remove them. *)
Context (answers : Prop).
(** Nothing interferes, and the results can be removed. *)
Definition calm : Prop := N = 0%nat ∧ (∀ c, ¬ fails c) ∧ answers.
Lemma calm_quiet : calm → N = 0%nat ∧ ∀ c, ¬ fails c.
Proof. by intros (? & ? & _). Qed.
Definition starts h : Prop := unfinished h ∧ (answers → removable h).
Definition owned_removable (o : DeletionReservationOutcome) h : Prop :=
  answers → del = true → (delete_results jid (dr_owned_run_ids o) (artifacts h)).1 = Ok tt.
Lemma eq_stable (P : host Q R A → Prop) : stable eq P.
Proof. by intros h h' Hh <-. Qed.

Abbreviation outcome_ok := (or_stopped calm unfinished).
Lemma request_call {B} c (m : prog (host Q R A) exn B) (P : host Q R A → Prop) (P' : B → host Q R A → Prop) :
  (∀ h, P h → unfinished h ∧ unfinished (m h).2 ∧ ∃ x, (m h).1 = Ok x ∧ P' x (m h).2) →
  triple P (await c m) (outcome_ok P').
Proof.
  intros Hm. apply step_call; [apply calm_quiet|apply eq_stable|]. intros h Hh.
  destruct (Hm h Hh) as (Hu1 & Hu2 & x & E & Hx). split; [done|]. split; [done|]. by rewrite E.
Qed.
Lemma request_phase {B} code (p : proc (host Q R A) B) (P : host Q R A → Prop) (P' : B → host Q R A → Prop) :
  triple P p (outcome_ok P') → triple P (except p (λ _, Throw (JobLifecycleRequestError code))) (outcome_ok P').
Proof. by apply (step_phase eq fails N calm unfinished (λ _, JobLifecycleRequestError code)). Qed.

Definition after_errors h : Prop := reserved_now h ∧ errors_gone h.
Definition after_results h : Prop := after_errors h ∧ (del = true → ¬ has_results jid (artifacts h)).

Lemma errors_deleted h : errors_gone (set_errors (delete_errors_for_job jid (errors h)).2 h).
Proof.
  intros k r. cbn. rewrite map_lookup_filter_Some. cbn. intros [_ Hr].
  by rewrite negb_true_iff, bool_decide_eq_false in Hr.
Qed.

Lemma verify_step (F : host Q R A → Prop) :
  triple (λ h, reserved_now h ∧ F h) (verify_quiescence cur) (outcome_ok (λ _ h, reserved_now h ∧ F h)).
Proof.
  unfold verify_quiescence. destruct cur as [rid|] eqn:Hc; [|by apply triple_return].
  eapply (step_then _ _ _ _ _ _ _ _ (λ st h, (reserved_now h ∧ F h) ∧ _ACTIVE_QUEUE_STATES st = false)).
  - apply request_phase, request_call. intros h [Hr Hf]. pose proof (reserved_unfinished h Hr) as Hu. split_and!; [done|done|].
    destruct (proj1 Hr rid Hc) as (st & Hi & Ha). exists st. cbn. by rewrite Hi.
  - intros st. destruct (_ACTIVE_QUEUE_STATES st); [|by apply triple_return; intros h []].
    by intros n h _ [_ ?].
Qed.

Lemma finish_step : triple after_results (finish_deletion jid del) (outcome_ok (λ _, ended_well)).
Proof.
  unfold finish_deletion. eapply (step_then _ _ _ _ _ _ _ _ (λ x h, x = deleted ∧ ended_well h)).
  - apply request_phase, request_call. intros h [[[Hq Hr] He] Hres]. pose proof (finalize_effect _ _ _ _ Hr) as [Ho Hg].
    assert (cleared (on_store (finalize_job_deletion jid del None) ∅ h).2) as Hc by by constructor.
    split_and!; [by apply reserved_unfinished|by split; [|right]|]. exists deleted. cbn. by rewrite Ho.
  - intros x. destruct x; try (by intros n h _ [? _]). apply triple_return. by intros h [_ ?].
Qed.

Lemma results_step o :
  triple (λ h, after_errors h ∧ owned_removable o h)
    (if del then _cleanup_deletion_phase (remove_results jid (dr_owned_run_ids o)) else Return tt)
    (outcome_ok (λ _, after_results)).
Proof.
  destruct del eqn:Hdel; [|apply triple_return; intros h [Hh _]; split; [done|]; by rewrite Hdel].
  apply request_phase, (step_call _ _ _ _ _ calm_quiet); [apply eq_stable|]. intros h [[Hr He] Hown].
  set (m := λ h, let r := delete_results jid (dr_owned_run_ids o) (artifacts h) in (in_library r.1, set_artifacts r.2 h)).
  assert (reserved_now (m h).2) as Hn by exact Hr. split_and!; [by apply reserved_unfinished|by apply reserved_unfinished|].
  pose proof (deleted_leaves_none jid (dr_owned_run_ids o) (artifacts h)) as Hnone.
  unfold owned_removable in Hown. unfold m. destruct (delete_results _ _ _) as [[[]|e] r] eqn:E; cbn in *.
  - split; [by split|]. intros _. by apply Hnone.
  - split; [done|]. intros (_ & _ & Ha). by discriminate (Hown Ha Hdel).
Qed.

Lemma errors_step o :
  triple (λ h, reserved_now h ∧ owned_removable o h) (_cleanup_deletion_phase (error_call (delete_errors_for_job jid)))
    (outcome_ok (λ _ h, after_errors h ∧ owned_removable o h)).
Proof.
  apply request_phase, request_call. intros h [Hr Ho]. pose proof (reserved_unfinished h Hr) as Hu.
  assert (reserved_now (set_errors (delete_errors_for_job jid (errors h)).2 h)) as Hn by exact Hr.
  split_and!; [done|by apply reserved_unfinished|]. exists tt. split; [done|]. split; [|exact Ho]. split; [done|apply errors_deleted].
Qed.

Lemma reserve_deletion_step t :
  triple starts (except (job_call (reserve_job_deletion jid del t)) (λ _, Throw (JobLifecycleRequestError "500")))
    (outcome_ok (λ o h, (dr_action o = r_missing ∧ ended_well h) ∨
      ((dr_action o = reservation_created ∨ dr_action o = resumed) ∧ dr_run_id o = cur ∧ reserved_now h ∧ owned_removable o h))).
Proof.
  apply request_phase, request_call. intros h [Hu Hrem]. split; [done|]. destruct Hu as [Hq [Hd|Hc]].
  - destruct (reserve_effect jid del _ cur t Hd) as (o & Ho & Ha & Hr & Hres).
    assert (reserved_now (on_store (reserve_job_deletion jid del t) ∅ h).2) as Hn by by split.
    split; [by apply reserved_unfinished|]. exists o. cbn. rewrite Ho. split; [done|]. right. split_and!; try done.
    intros Hans Hdel. by apply (Hrem Hans Hdel t).
  - destruct (gone_reserve jid del _ t (gn_jobs _ _ (cl_db _ Hc))) as [(o & Ho & Ha) Hs].
    assert (cleared (on_store (reserve_job_deletion jid del t) ∅ h).2) as Hn.
    { destruct Hc. constructor; cbn; [by rewrite Hs|done..]. }
    split; [by split; [|right]|]. exists o. cbn. rewrite Ho. split; [done|]. by left.
Qed.

Lemma delete_step : triple starts (delete_reserved_job jid del) (outcome_ok (λ _, ended_well)).
Proof.
  unfold delete_reserved_job. eapply (step_then _ _ _ _ _ _ _ _ (λ _, starts)); [by apply triple_local|intros t].
  eapply step_then; [apply reserve_deletion_step|]. intros o.
  assert (dr_run_id o = cur → triple (λ h, reserved_now h ∧ owned_removable o h)
    (do* update (Scheduler.remove_job jid) in
     do* verify_quiescence (dr_run_id o) in
     do* _cleanup_deletion_phase (error_call (delete_errors_for_job jid)) in
     do* (if del then _cleanup_deletion_phase (remove_results jid (dr_owned_run_ids o)) else Return tt) in
     finish_deletion jid del) (outcome_ok (λ _, ended_well))) as Hrest.
  { intros ->. eapply (step_then _ _ _ _ _ _ _ _ (λ _ h, reserved_now h ∧ owned_removable o h)).
    { apply triple_local. intros h Hr. split; [done|]. unfold reserved_now, quiet, owned_removable in *. cbn.
      unfold Scheduler.remove_job, set_failure, forget. by destruct (Service.remove_job jid (cron h)). }
    intros []. eapply step_then; [apply verify_step|intros []]. eapply step_then; [apply errors_step|intros []].
    eapply step_then; [apply results_step|intros []; exact finish_step]. }
  intros n h Hn Hh. destruct (dr_action o) eqn:Ha.
  all: try (by destruct Hh as [[? _]|[[?|?] _]]).
  1,2: by destruct Hh as [[? _]|(_ & Hr & Hh)]; [|apply Hrest].
  by destruct Hh as [[_ Hc]|[[?|?] _]]; [split_and!|..].
Qed.
End resumes.

(** ** The requests *)

Section requests.
Context `{Vault} `{JsonText} {Q R A : Type} `{DeliveryQueue Q} `{ResultFiles R} `{CronScheduler A} `{Deployment}.
Context `{DeliveryCancel Q}.
Implicit Types (h : host Q R A).

(** [C26] A cancellation of a run that answers, stops the run for good: whatever the stores,
    the queue and the rest of the service did during the request, and whatever they do
    after it, the run is not active and every claim, heartbeat, finalization or failure of
    it is refused. *)
Theorem cancellation_stops_run h h' fails n jid rid w :
  rtc sstep initial (stores h) → runs serves fails n (cancel_current_job jid (Some rid)) h (Ok tt) h' →
  rtc sstep (stores h') w → stopped rid (db w).
Proof.
  intros Hi Hr Hw. apply ended_refuses, (ended_rtc rid (absw (stores h'))); [|by apply sstep_rtc_sim].
  refine (always_runs serves fails n sound _ (stops rid) h (Ok tt) h' _ _ Hr eq_refl); [apply cancel_stops|].
  by apply reachable_consistent.
Qed.

(** [C27] A deletion can be resumed wherever it was interrupted. Take a job that may be
    deleted with this policy (it is not active, or is being deleted with the same policy, and
    no webhook of it is pending), whose run the queue answers for and does not know as
    active, and let nobody else touch the stores. Cancelled or failed in any call, its result
    store included, the request leaves a state from which the same request, undisturbed,
    returns and leaves nothing of the job: no row of it in any table, no logged error, and no
    results if they were to be deleted; provided that the result store can remove what is
    left of the results then. When the first request returned, that is so already. *)
Theorem interrupted_deletion_resumes h h' fails n o jid del cur :
  deletable jid del (db (stores h)) cur → quiet cur h →
  runs eq fails n (delete_reserved_job jid del) h o h' →
  (o = Ok tt → cleared jid del h') ∧
  (removable jid del h' →
   let again := exec (delete_reserved_job jid del) h' in again.1 = Ok tt ∧ cleared jid del again.2).
Proof.
  intros Hd Hq Hr.
  assert (or_stopped (calm fails n False) (unfinished jid del cur) (λ _, ended_well jid del cur) o h') as Ho.
  { refine (triple_runs eq fails n _ _ _ h o h' (delete_step fails n jid del cur False) _ Hr). split; [|done]. by split; [|left]. }
  split; [intros ->; apply Ho|]. intros Hrem. cbv zeta.
  assert (unfinished jid del cur h') as Hu by (destruct o as [[]|e]; [split; [|right]; apply Ho|apply Ho]).
  pose proof (triple_runs eq (λ _, False) 0 _ _ _ h' _ _ (delete_step (λ _, False) 0 jid del cur True) (conj Hu (λ _, Hrem))
    (exec_runs eq (λ _, False) 0 _ h')) as Hx.
  destruct (exec _ h').1 as [[]|e]; [by destruct Hx|]. exfalso. apply Hx. split_and!; [done|by intros ? ?|done].
Qed.
End requests.

(** ** At concrete inputs *)

#[export] Instance sample_cancel : DeliveryCancel (RedisPool GRedis) := RedisCancel (λ now,
  {| env _ s := s; Queue.fails _ := false; now_at _ := now; clock_at _ := now; abort s := (AbortTimeout, s) |}).

Definition claimed_host := host_of claimed_w 25.
Definition cancelling := exec (cancel_current_job "j1" (Some "r1")) claimed_host.

Lemma cancelling_runs : runs serves (λ _, False) 0 (cancel_current_job "j1" (Some "r1")) claimed_host (Ok tt) cancelling.2.
Proof.
  pose proof (exec_runs serves (λ _, False) 0 (cancel_current_job "j1" (Some "r1")) claimed_host) as Hr.
  fold cancelling in Hr. assert (cancelling.1 = Ok tt) as E by by vm_compute. by rewrite E in Hr.
Qed.

Lemma cancellation_stops_run_witness :
  run_is_active "j1" "r1" (db (stores claimed_host)) = true ∧ stopped "r1" (db (stores cancelling.2)).
Proof.
  split; [by vm_compute|].
  exact (cancellation_stops_run claimed_host cancelling.2 _ 0 "j1" "r1" _ claimed_reachable cancelling_runs (rtc_refl _ _)).
Defined.

(** The job of a finished run, with a result on a disk that will fail, and a logged error. *)
Definition torn_host : host (RedisPool GRedis) archive (gmap string Z * bool) := {|
  stores := delivered_w; clock := 70; monotonic_clock := 70;
  pool := {| redis := g_empty; pool_started := true; pool_stopping := false |};
  artifacts := sample_error_disk saved_archive.2;
  errors := {| error_rows := {[ 1%Z := error_row (sample_error "a" 5 None) ]}; next_error_id := 2 |};
  cron := (∅, true); failures := ∅; healthy_at := None |}.
(** The removal of the results fails after the errors are gone. *)
Definition torn_deletion := exec (delete_reserved_job "j1" true) torn_host.

Lemma interrupted_deletion_resumes_witness :
  torn_deletion.1 = Raise (JobLifecycleRequestError "500") ∧
  (let again := exec (delete_reserved_job "j1" true) torn_deletion.2 in again.1 = Ok tt ∧ cleared "j1" true again.2).
Proof.
  split; [by vm_compute|].
  refine (proj2 (interrupted_deletion_resumes torn_host torn_deletion.2 (λ _, False) 0 torn_deletion.1 "j1" true (Some "r1")
    _ _ (exec_runs eq (λ _, False) 0 _ torn_host)) _).
  - constructor; [|by vm_compute]. eexists. split; [by vm_compute|]. split; [by vm_compute|]. left. split; by vm_compute.
  - intros rid [= <-]. exists st_missing. split; by vm_compute.
  - intros _ t o Ho. vm_compute in Ho. injection Ho as <-. by vm_compute.
Defined.
