(* ===== verification/Cleanup.v ===== *)
(** * Periodic cleanup ([storage/cleanup.py])

    A pass bounds each of its phases by a number of items and all of them by one deadline
    ([_CleanupCycleBudget]); it drains the expired and the excess results, the artifacts, the
    idempotency records, the secrets of dead deliveries and the history of errors, ad hoc
    jobs and scheduled runs. The stores are an interface, [RetentionStores], over a state of
    their own; the budget of the pass is kept beside that state. *)

From S2P Require Import Prelude.
From S2P Require Import Rows.
From S2P Require Import JobDb.
From S2P Require Import JobDeletion.
From S2P Require Import Artifacts.
From S2P Require Import Proc.
From S2P Require Import Service.
Open Scope Z_scope.

(** ** The stores *)

(** Every operation is a procedure on the state; a reading of the clock may take time, and
    two readings in a row do not go back. *)
Class RetentionStores (S : Type) := {
  clock_read : S → Z * S;
  clock_forward s : (clock_read s).1 <= (clock_read (clock_read s).2).1;
  utc_now : S → Z;
  day : Z;
  delete_expired : Z → Z → proc S Z;
  prune_excess_per_job : Z → Z → proc S Z;
  reconcile_artifacts : Z → bool → option Z → Z → Z → Z → Z → proc S ResultReconciliationReport;
  delete_expired_idempotency_records : Z → Z → proc S Z;
  scrub_terminal_deliveries : Z → Z → Z → Z → proc S (Z * Z);
  delete_expired_errors : Z → Z → proc S Z;
  delete_errors_for_job_batch : string → Z → proc S (Z * bool);
  delete_errors_for_run_batch : string → Z → proc S (Z * bool);
  list_adhoc_jobs_for_retention : Z → Z → Z → Z → proc S (list string);
  reserve_job_deletion : string → bool → Z → proc S DeletionReservationAction;
  finalize_job_deletion : string → bool → Z → proc S DeletionFinalizationAction;
  list_scheduled_runs_for_retention : Z → Z → Z → Z → proc S (list (string * string));
  prune_scheduled_run_for_retention : string → string → Z → Z → Z → proc S (bool * Z);
  sleep : Z → proc S unit;
}.

(** A procedure on a part of the state. *)
Fixpoint zoom {S T A} (get : T → S) (put : S → T → T) (p : proc S A) : proc T A :=
  match p with
  | Return a => Return a
  | Throw e => Throw e
  | Local m k => Local (λ t, let r := m (get t) in (r.1, put r.2 t)) (λ o, zoom get put (k o))
  | Await c sh m k => Await c sh (λ t, let r := m (get t) in (r.1, put r.2 t)) (λ o, zoom get put (k o))
  end.

(** ** The budget of a cycle *)

Record CleanupCycleOutcome := { o_saturated : bool; processed_items : Z }.
(** [_CleanupCycleBudget] *)
Record Cycle := {
  max_items_per_phase : Z;
  max_seconds : Z;
  _started : Z;
  _phase_items : gmap string Z;
  saturated : bool;
}.
Definition deadline (c : Cycle) : Z := _started c + max_seconds c.
Definition items_of (c : Cycle) (phase : string) : Z := default 0 (_phase_items c !! phase).
Definition total_items (c : Cycle) : Z := map_fold (λ _ n m, n + m) 0 (_phase_items c).
Definition add_items (phase : string) (count : Z) (c : Cycle) : Cycle :=
  {| max_items_per_phase := max_items_per_phase c; max_seconds := max_seconds c; _started := _started c;
     _phase_items := <[phase := items_of c phase + count]> (_phase_items c); saturated := saturated c |}.
Definition saturate (c : Cycle) : Cycle :=
  {| max_items_per_phase := max_items_per_phase c; max_seconds := max_seconds c; _started := _started c;
     _phase_items := _phase_items c; saturated := true |}.

(** The stores, the budget of the pass that runs, the monitor of the loop if it has one, and
    what [mark_last_success] recorded. *)
Record sweep (S : Type) := {
  service : S;
  cycle : Cycle;
  loop_monitor : option Monitor.monitor;
  last_success : option Z;
}.
Arguments service {S}. Arguments cycle {S}. Arguments loop_monitor {S}. Arguments last_success {S}.
Definition set_service {S} (v : S) (t : sweep S) : sweep S :=
  {| service := v; cycle := cycle t; loop_monitor := loop_monitor t; last_success := last_success t |}.
Definition set_cycle {S} (v : Cycle) (t : sweep S) : sweep S :=
  {| service := service t; cycle := v; loop_monitor := loop_monitor t; last_success := last_success t |}.

(** [HistoryRetentionPolicy] *)
Record HistoryRetentionPolicy := {
  adhoc_job_retention_days : Z;
  scheduled_run_retention_days : Z;
  scheduled_run_retention_count : Z;
  error_retention_days : Z;
  webhook_tombstone_retention_days : Z;
  adhoc_job_batch_size : Z;
  scheduled_run_batch_size : Z;
  error_batch_size : Z;
}.

(** The arguments of [run_cleanup]; a store that may be absent is a flag. *)
Record cleanup_arguments := {
  retention_days : Z;
  max_results_per_job : Z;
  webhook_outbox_store : bool;
  webhook_delivered_retention_days : option Z;
  webhook_failed_retention_days : option Z;
  webhook_cleanup_batch_size : Z;
  result_cleanup_batch_size : Z;
  orphan_grace_seconds : Z;
  reconciliation_dry_run : bool;
  job_store : bool;
  idempotency_cleanup_batch_size : Z;
  error_store : bool;
  history_policy : option HistoryRetentionPolicy;
  cycle_max_items_per_phase : Z;
  cycle_max_seconds : Z;
}.

Section cleanup.
Context {S : Type} `{RetentionStores S}.
Implicit Types (t : sweep S) (phase : string).

Abbreviation sweeping := (proc (sweep S)).
Abbreviation step := (prog (sweep S) exn).

Definition stored {A} (p : proc S A) : sweeping A := zoom service set_service p.
Definition _clock : step Z := λ t, let r := clock_read (service t) in (Ok r.1, set_service r.2 t).
Definition on_cycle (f : Cycle → Cycle) : step unit := pmodify (λ t, set_cycle (f (cycle t)) t).
Definition the_cycle : step Cycle := λ t, (Ok (cycle t), t).

(** [_CleanupCycleBudget.__init__] *)
Definition new_cycle (max_items max_time : Z) : step unit :=
  if max_items <? 1 then praise (Broken "ValueError")
  else if max_time <=? 0 then praise (Broken "ValueError")
  else
    let! now := _clock in
    on_cycle (λ _, {| max_items_per_phase := max_items; max_seconds := max_time; _started := now;
                      _phase_items := ∅; saturated := false |}).

Definition next_limit phase (batch_size : Z) : step Z :=
  if batch_size <? 1 then praise (Broken "ValueError")
  else
    let! now := _clock in
    let! c := the_cycle in
    if deadline c <=? now then do! on_cycle saturate in pret 0
    else
      let remaining := max_items_per_phase c - items_of c phase in
      if remaining <=? 0 then do! on_cycle saturate in pret 0
      else pret (Z.min batch_size remaining).

(** True when the phase goes on. *)
Definition record phase (count limit : Z) (has_more : option bool) : step bool :=
  if (count <? 0) || (limit <? count) then praise (Broken "RuntimeError")
  else
    do! on_cycle (add_items phase count) in
    if count <? limit then
      if default false has_more then
        let! now := _clock in
        let! c := the_cycle in
        if deadline c <=? now then do! on_cycle saturate in pret false
        else praise (Broken "RuntimeError")
      else pret false
    else if opt_eqb has_more false then pret false
    else
      let! next := next_limit phase limit in
      if next =? 0 then do! on_cycle saturate in pret false
      else pret true.

(** ** Draining

    A loop runs on fuel; [None] is fuel that ran out, which does not happen: a round adds an
    item to a phase or is the last. *)

Definition loop_fuel : sweeping nat :=
  local (λ t, (Ok (Datatypes.S (Z.to_nat (max_items_per_phase (cycle t)))), t)).
Definition finished {A} (o : option A) : sweeping A :=
  match o with Some x => Return x | None => Throw (Broken "OutOfFuel") end.

Section drain.
Context (phase : string) (batch_size : Z) (operation : Z → proc S Z).
Fixpoint drain (fuel : nat) (total : Z) : sweeping (option Z) :=
  match fuel with
  | O => Return None
  | Datatypes.S fuel =>
      let* limit := local (next_limit phase batch_size) in
      if limit =? 0 then Return (Some total)
      else
        let* count := stored (operation limit) in
        let* more := local (record phase count limit None) in
        if more : bool then drain fuel (total + count) else Return (Some (total + count))
  end.
Definition _drain_count_phase : sweeping Z :=
  let* fuel := loop_fuel in
  let* total := drain fuel 0 in
  finished total.
End drain.

Section artifacts.
Context (grace_seconds : Z) (dry : bool) (now : option Z) (batch_size : Z).
(** [next_limit] of a scan that is not over, else 0. *)
Definition scan_limit phase (pending : bool) : sweeping Z :=
  if pending then local (next_limit phase batch_size) else Return 0.
(** What a page says of one scan: whether it is still pending. *)
Definition scan_recorded phase (limit inspected : Z) (exhausted pending : bool) : sweeping bool :=
  if limit =? 0 then Return pending
  else
    do* local (record phase inspected limit (Some (negb exhausted))) in
    Return (negb exhausted).
Definition with_pending (r : ResultReconciliationReport) (metadata_pending filesystem_pending : bool) :
    ResultReconciliationReport :=
  {| dry_run := dry_run r; totals := totals r; metadata_scan_exhausted := negb metadata_pending;
     filesystem_scan_exhausted := negb filesystem_pending |}.

Fixpoint drain_artifacts (fuel : nat) (aggregate : ResultReconciliationReport) (metadata_pending filesystem_pending : bool) :
    sweeping (option ResultReconciliationReport) :=
  match fuel with
  | O => Return None
  | Datatypes.S fuel =>
      if negb (metadata_pending || filesystem_pending)
      then Return (Some (with_pending aggregate metadata_pending filesystem_pending))
      else
        let* metadata_limit := scan_limit "artifact_metadata" metadata_pending in
        let* filesystem_limit := scan_limit "artifact_filesystem" filesystem_pending in
        if (metadata_limit =? 0) && (filesystem_limit =? 0)
        then Return (Some (with_pending aggregate metadata_pending filesystem_pending))
        else
          let* c := local the_cycle in
          let* page := stored (reconcile_artifacts grace_seconds dry now batch_size metadata_limit filesystem_limit (deadline c)) in
          let* aggregate := of_outcome (merged_with aggregate page (negb (metadata_limit =? 0)) (negb (filesystem_limit =? 0))) in
          let* metadata_pending := scan_recorded "artifact_metadata" metadata_limit
            (counts (totals page) metadata_rows_inspected) (metadata_scan_exhausted page) metadata_pending in
          let* filesystem_pending := scan_recorded "artifact_filesystem" filesystem_limit
            (counts (totals page) filesystem_entries_inspected) (filesystem_scan_exhausted page) filesystem_pending in
          drain_artifacts fuel aggregate metadata_pending filesystem_pending
  end.
Definition _drain_artifact_reconciliation : sweeping ResultReconciliationReport :=
  let* fuel := loop_fuel in
  let* report := drain_artifacts (2 * fuel + 2) (empty_report dry) true true in
  finished report.
End artifacts.

(** ** Durable history *)

Section history.
Context (policy : HistoryRetentionPolicy) (observed_at : Z).
Definition before (days : Z) : Z := observed_at - days * day.
Definition tombstone_before : Z := before (webhook_tombstone_retention_days policy).

(** What a round over the candidates notes. *)
Record progress := { retry_pending : bool; made_progress : bool; failed_phases : list string }.
Definition retry (n : progress) : progress :=
  {| retry_pending := true; made_progress := made_progress n; failed_phases := failed_phases n |}.
Definition progressed (n : progress) : progress :=
  {| retry_pending := retry_pending n; made_progress := true; failed_phases := failed_phases n |}.
(** [_history_failure] *)
Definition history_failure (name : string) (n : progress) : progress :=
  {| retry_pending := retry_pending n; made_progress := made_progress n; failed_phases := failed_phases n ++ [name] |}.

(** A batch of errors of a candidate; true when none is left and the candidate can go. *)
Definition error_batch phase (delete_errors : Z → proc S (Z * bool)) (n : progress) : sweeping (bool * progress) :=
  let* error_limit := local (next_limit phase (error_batch_size policy)) in
  if error_limit =? 0 then Return (false, retry n)
  else
    let* batch := stored (delete_errors error_limit) in
    do* local (record phase batch.1 error_limit None) in
    let n := if batch.1 =? 0 then n else progressed n in
    Return (if batch.2 then (false, retry n) else (true, n)).

Definition adhoc_errors (job_id : string) (n : progress) : sweeping (bool * progress) :=
  except (
    let* action := stored (reserve_job_deletion job_id false observed_at) in
    if negb (bool_decide (action = reservation_created) || bool_decide (action = resumed)) then Return (false, n)
    else error_batch "adhoc_job_errors" (delete_errors_for_job_batch job_id) n)
  (λ _, Return (false, history_failure "adhoc_errors" n)).
Definition adhoc_finalization (job_id : string) (n : progress) : sweeping progress :=
  except (
    let* action := stored (finalize_job_deletion job_id false observed_at) in
    match action with
    | unexpired_idempotency_conflict => Return n
    | deleted | f_missing => Return (progressed n)
    | _ => Throw (Broken "RuntimeError")
    end)
  (λ _, Return (history_failure "adhoc_finalization" n)).
Definition adhoc_job (job_id : string) (n : progress) : sweeping progress :=
  let* ready := adhoc_errors job_id n in
  if ready.1 : bool then adhoc_finalization job_id ready.2 else Return ready.2.

Definition scheduled_errors (run_id : string) (n : progress) : sweeping (bool * progress) :=
  except (error_batch "scheduled_run_errors" (delete_errors_for_run_batch run_id) n)
    (λ _, Return (false, history_failure "scheduled_errors" n)).
Definition scheduled_pruning (job_id run_id : string) (n : progress) : sweeping progress :=
  except (
    let* pruned := stored (prune_scheduled_run_for_retention job_id run_id
                             (before (scheduled_run_retention_days policy)) tombstone_before
                             (scheduled_run_retention_count policy)) in
    Return (if pruned.1 : bool then progressed n else n))
  (λ _, Return (history_failure "scheduled_pruning" n)).
Definition scheduled_run (x : string * string) (n : progress) : sweeping progress :=
  let* ready := scheduled_errors x.2 n in
  if ready.1 : bool then scheduled_pruning x.1 x.2 ready.2 else Return ready.2.

(** Selecting candidates until a selection is neither full nor worth repeating. *)
Section rounds.
Context {C : Type} (phase selection_phase : string) (batch_size : Z).
Context (select : Z → proc S (list C)) (visit : C → progress → sweeping progress).
Fixpoint visit_all (candidates : list C) (n : progress) : sweeping progress :=
  match candidates with
  | [] => Return n
  | c :: candidates => let* n := visit c n in visit_all candidates n
  end.
Fixpoint candidate_rounds (fuel : nat) (failed : list string) : sweeping (option (list string)) :=
  match fuel with
  | O => Return None
  | Datatypes.S fuel =>
      let* limit := local (next_limit phase batch_size) in
      if limit =? 0 then Return (Some failed)
      else
        let* selected := except (let* l := stored (select limit) in Return (Some l)) (λ _, Return None) in
        match selected with
        | None => Return (Some (failed ++ [selection_phase]))
        | Some candidates =>
            let* selection_full := local (record phase (Z.of_nat (length candidates)) limit None) in
            let* n := visit_all candidates {| retry_pending := false; made_progress := false; failed_phases := failed |} in
            if negb selection_full && negb (retry_pending n && made_progress n) then Return (Some (failed_phases n))
            else candidate_rounds fuel (failed_phases n)
        end
  end.
Definition drain_candidates (failed : list string) : sweeping (list string) :=
  let* fuel := loop_fuel in
  let* names := candidate_rounds fuel failed in
  finished names.
End rounds.

(** A phase that adds its name to the failures when it raises. *)
Definition guarded {A} (name : string) (p : sweeping A) (failed : list string) : sweeping (list string) :=
  except (do* p in Return failed) (λ _, Return (failed ++ [name])).

Definition drain_adhoc_jobs : list string → sweeping (list string) :=
  drain_candidates "adhoc_candidates" "adhoc_selection" (adhoc_job_batch_size policy)
    (list_adhoc_jobs_for_retention (before (adhoc_job_retention_days policy)) observed_at tombstone_before) adhoc_job.
Definition drain_scheduled_runs : list string → sweeping (list string) :=
  drain_candidates "scheduled_candidates" "scheduled_selection" (scheduled_run_batch_size policy)
    (list_scheduled_runs_for_retention (before (scheduled_run_retention_days policy)) tombstone_before
       (scheduled_run_retention_count policy)) scheduled_run.

Definition _cleanup_durable_history : sweeping (list string) :=
  let* failed := guarded "error_retention"
    (_drain_count_phase "expired_errors" (error_batch_size policy)
       (delete_expired_errors (before (error_retention_days policy)))) [] in
  let* failed := drain_adhoc_jobs failed in
  drain_scheduled_runs failed.
End history.

(** ** A pass *)

Definition artifact_phase (a : cleanup_arguments) (now : option Z) (failed : list string) : sweeping (list string) :=
  except (
    let* reconciliation := _drain_artifact_reconciliation (orphan_grace_seconds a) (reconciliation_dry_run a) now
                             (result_cleanup_batch_size a) in
    Return (if bool_decide (operation_failures (totals reconciliation) = []) then failed
            else failed ++ ["artifact_reconciliation"]))
  (λ _, Return (failed ++ ["artifact_reconciliation"])).

(** Both counts of a scrub count against the phase. *)
Definition scrub_batch (delivered_before failed_before scrubbed_at limit : Z) : proc S Z :=
  let* summary := scrub_terminal_deliveries delivered_before failed_before scrubbed_at limit in
  Return (summary.1 + summary.2).
Definition webhook_phase (a : cleanup_arguments) (observed_at : Z) (failed : list string) : sweeping (list string) :=
  if webhook_outbox_store a then
    match webhook_delivered_retention_days a, webhook_failed_retention_days a with
    | Some delivered, Some failed_days =>
        guarded "webhook_retention"
          (_drain_count_phase "webhook_secrets" (webhook_cleanup_batch_size a)
             (scrub_batch (before observed_at delivered) (before observed_at failed_days) observed_at)) failed
    | _, _ => Throw (Broken "ValueError")
    end
  else Return failed.

Definition history_phase (a : cleanup_arguments) (observed_at : Z) (failed : list string) : sweeping (list string) :=
  if negb (Bool.eqb (error_store a) (match history_policy a with Some _ => true | None => false end))
  then Throw (Broken "ValueError")
  else match history_policy a with
       | Some policy =>
           if job_store a && error_store a
           then let* more := _cleanup_durable_history policy observed_at in Return (failed ++ more)
           else Return failed
       | None => Return failed
       end.

(** The failed phases of a pass, in their order. *)
Definition cleanup_phases (a : cleanup_arguments) (now : option Z) : sweeping (list string) :=
  let* failed := guarded "expired_result_retention"
    (_drain_count_phase "expired_results" (result_cleanup_batch_size a) (delete_expired (retention_days a))) [] in
  let* failed := guarded "per_job_result_retention"
    (_drain_count_phase "excess_results" (result_cleanup_batch_size a) (prune_excess_per_job (max_results_per_job a))) failed in
  let* failed := artifact_phase a now failed in
  let* today := local (λ t, (Ok (utc_now (service t)), t)) in
  let observed_at := default today now in
  let* failed := if job_store a
    then guarded "idempotency_retention"
           (_drain_count_phase "idempotency_records" (idempotency_cleanup_batch_size a)
              (delete_expired_idempotency_records observed_at)) failed
    else Return failed in
  let* failed := webhook_phase a observed_at failed in
  history_phase a observed_at failed.

Definition run_cleanup (a : cleanup_arguments) (now : option Z) : sweeping CleanupCycleOutcome :=
  do* local (new_cycle (cycle_max_items_per_phase a) (cycle_max_seconds a)) in
  let* failed := cleanup_phases a now in
  match failed with
  | [] => let* c := local the_cycle in Return {| o_saturated := saturated c; processed_items := total_items c |}
  | _ => Throw (Broken "CleanupIncompleteError")
  end.

(** A note to the monitor at the time of the clock. *)
Definition monitored (f : Z → Monitor.monitor → Monitor.monitor) : step unit :=
  let! now := _clock in
  pmodify (λ t, {| service := service t; cycle := cycle t; loop_monitor := f now <$> loop_monitor t; last_success := last_success t |}).
Definition mark_last_success : step unit :=
  pmodify (λ t, {| service := service t; cycle := cycle t; loop_monitor := loop_monitor t; last_success := Some (utc_now (service t)) |}).

(** One round of the loop of [start_cleanup_loop]: a saturated pass is followed up early. *)
Definition cleanup_round (a : cleanup_arguments) (interval catchup_delay : Z) : sweeping unit :=
  let* sleep_seconds := attempt (run_cleanup a None) (λ o,
    match o with
    | Raise Cancelled => Throw Cancelled
    | Raise _ => do* local (monitored Monitor.record_failure) in Return interval
    | Ok outcome =>
        do* local (monitored Monitor.record_success) in
        do* local mark_last_success in
        Return (if o_saturated outcome then catchup_delay else interval)
    end) in
  stored (sleep sleep_seconds).
End cleanup.
