(* ===== verification/CleanupSpec.v ===== *)
(** * What cleanup guarantees

    A pass stays within its budget and ends, whatever fails, and a pass that returns without
    reporting itself saturated has left nothing due. *)

From S2P Require Import Prelude.
From S2P Require Import Rows.
From S2P Require Import JobDb.
From S2P Require Import JobDeletion.
From S2P Require Import Artifacts.
From S2P Require Import Proc.
From S2P Require Import Service.
From S2P Require Import Cleanup.
Open Scope Z_scope.

(** * Bounds and termination *)

(** ** The budget *)

Section budget.
Context {S : Type} `{RetentionStores S}.
Implicit Types (t : sweep S) (c : Cycle) (phase : string).

Lemma items_added phase count c phase' :
  items_of (add_items phase count c) phase' = items_of c phase' + if bool_decide (phase' = phase) then count else 0.
Proof.
  unfold items_of, add_items; cbn. case_bool_decide as E; [subst; by rewrite lookup_insert_eq|].
  rewrite lookup_insert_ne by done. lia.
Qed.
Lemma items_saturated c phase : items_of (saturate c) phase = items_of c phase.
Proof. done. Qed.

(** What [next_limit] answers: an error, nothing with the cycle saturated, or a limit that
    fits. *)
Lemma next_limit_cases phase b t :
  (next_limit phase b t).1 = Raise (Broken "ValueError") ∧ cycle (next_limit phase b t).2 = cycle t ∧ b < 1 ∨
  (next_limit phase b t).1 = Ok 0 ∧ cycle (next_limit phase b t).2 = saturate (cycle t) ∨
  ∃ l, (next_limit phase b t).1 = Ok l ∧ cycle (next_limit phase b t).2 = cycle t ∧ 1 <= l <= b ∧
       l <= max_items_per_phase (cycle t) - items_of (cycle t) phase.
Proof.
  unfold next_limit. case_match eqn:Hb; [left; split_and!; [done..|lia]|]. unfold pbind at 1, _clock. cbn.
  case_match; [by right; left|]. case_match eqn:Hr; [by right; left|].
  right; right. eexists. split_and!; [done|done|lia..].
Qed.

(** What [record] does with a count. *)
Lemma record_cases phase count l m t :
  (record phase count l m t).1 = Raise (Broken "RuntimeError") ∧
    (cycle (record phase count l m t).2 = cycle t ∨
     0 <= count <= l ∧ cycle (record phase count l m t).2 = add_items phase count (cycle t)) ∨
  (record phase count l m t).1 = Raise (Broken "ValueError") ∧ l < 1 ∧ 0 <= count <= l ∧
    cycle (record phase count l m t).2 = add_items phase count (cycle t) ∨
  (record phase count l m t).1 = Ok false ∧ 0 <= count <= l ∧
    (cycle (record phase count l m t).2 = add_items phase count (cycle t) ∨
     cycle (record phase count l m t).2 = saturate (add_items phase count (cycle t)) ∨
     cycle (record phase count l m t).2 = saturate (saturate (add_items phase count (cycle t)))) ∨
  (record phase count l m t).1 = Ok true ∧ count = l ∧ cycle (record phase count l m t).2 = add_items phase count (cycle t).
Proof.
  unfold record. destruct ((count <? 0) || (l <? count)) eqn:E; [left; auto|]. apply orb_false_iff in E as [E1 E2].
  unfold pbind at 1. cbn. destruct (count <? l) eqn:El.
  { destruct (default false m).
    - unfold pbind, _clock. cbn. case_match; [right; right; left; auto with lia|left; split; [done|right; auto with lia]].
    - right; right; left; auto with lia. }
  destruct (opt_eqb m false); [right; right; left; auto with lia|].
  set (t1 := set_cycle _ t). unfold pbind.
  destruct (next_limit_cases phase l t1) as [(E & Ec & Hl)|[(E & Ec)|(n & E & Ec & Hn & _)]];
    destruct (next_limit phase l t1) as [o t2]; cbn in *; subst o.
  - right; left. split_and!; auto with lia.
  - right; right; left. cbn. split_and!; auto with lia. right; right. cbn. by rewrite Ec.
  - replace (n =? 0) with false by lia. right; right; right. split_and!; [done|lia|done].
Qed.

(** Each phase is within the budget of the cycle, and is one of the eleven. *)
Definition phase_names : list string :=
  ["expired_results"; "excess_results"; "artifact_metadata"; "artifact_filesystem"; "idempotency_records";
   "webhook_secrets"; "expired_errors"; "adhoc_candidates"; "adhoc_job_errors"; "scheduled_candidates";
   "scheduled_run_errors"].
Inductive known phase : Prop := known_name (Hname : existsb (String.eqb phase) phase_names = true).
Definition within (m : Z) c : Prop :=
  max_items_per_phase c = m ∧ (∀ phase, 0 <= items_of c phase <= m) ∧ ∀ phase n, _phase_items c !! phase = Some n → known phase.

Lemma within_saturate m c : within m c → within m (saturate c).
Proof. done. Qed.
Lemma within_add m phase count c :
  within m c → known phase → 0 <= count <= m - items_of c phase → within m (add_items phase count c).
Proof.
  intros (Hm & Hi & Hd) Hp Hc. split_and!; [done| |].
  2:{ cbn. intros phase' n [[<- _]|[_ Hn]]%lookup_insert_Some; [done|by eapply Hd]. }
  intros phase'. rewrite items_added.
  specialize (Hi phase'). case_bool_decide; [subst|]; lia.
Qed.

Lemma total_within m c : within m c → total_items c <= 11 * m.
Proof.
  intros (_ & Hi & Hd). unfold total_items.
  assert (∀ p n, _phase_items c !! p = Some n → 0 <= n <= m) as Hn
    by (intros p n Hp; specialize (Hi p); unfold items_of in Hi; by rewrite Hp in Hi).
  assert (map_fold (λ _ n k, n + k) 0 (_phase_items c) <= Z.of_nat (size (dom (_phase_items c))) * m) as Hsum.
  { rewrite size_dom. clear Hi Hd. induction (_phase_items c) as [|p n l Hp Hf IH] using map_first_key_ind; [done|].
    rewrite map_fold_insert_first_key, map_size_insert_None by done.
    assert (map_fold (λ _ n k, n + k) 0 l <= Z.of_nat (size l) * m) by (apply IH; intros p' n' Hl; apply (Hn p'); rewrite lookup_insert_ne; naive_solver).
    specialize (Hn p n (lookup_insert_eq _ _ _)). lia. }
  assert (size (dom (_phase_items c)) ≤ 11)%nat as Hsize.
  { change 11%nat with (length phase_names). rewrite <- (size_list_to_set (C := gset string)) by (by vm_compute; repeat constructor; set_solver).
    apply subseteq_size. intros p [n Hp]%elem_of_dom. apply elem_of_list_to_set.
    destruct (Hd p n Hp) as [Hname]. apply existsb_exists in Hname as (q & Hq & ->%String.eqb_eq). by apply list_elem_of_In. }
  assert (0 <= m) by by specialize (Hi ""); lia. nia.
Qed.
End budget.

(** ** Every phase keeps it *)

Section pass.
Context {S : Type} `{RetentionStores S} (rely : sweep S → sweep S → Prop) (fails : channel → Prop).
(** Nobody else holds the budget of the pass. *)
Context (rely_cycle : ∀ t t', rely t t' → cycle t' = cycle t).
Implicit Types (t : sweep S) (c : Cycle) (phase : string) (m k : Z).
Abbreviation always := (always rely fails).

Lemma stored_keeps {A} (J : Cycle → Prop) (p : proc S A) : always (λ t, J (cycle t)) (stored p) (λ _ t, J (cycle t)).
Proof.
  intros n t. revert n t. induction p as [a|e|B q f IH|ch sh B q f IH]; intros n t Ht; cbn; [done..|by apply IH|].
  intros t1 Hr. assert (J (cycle t1)) as H1 by (refine (rtc_invariant rely (λ t, J (cycle t)) _ _ _ Hr Ht); intros ? ? ? E; by rewrite (rely_cycle _ _ E)).
  split_and!; [by apply IH|intros n' _ t2 [->| ->]; by apply IH|intros _ e t2 [->| ->]; by apply IH].
Qed.

(** A limit holds until the count is recorded. *)
Definition limited m phase (l : Z) c : Prop := within m c ∧ (l = 0 ∨ 1 <= l <= m - items_of c phase).
Lemma limit_keeps (J : Cycle → Prop) m phase b :
  (∀ c, J c → J (saturate c)) →
  always (λ t, within m (cycle t) ∧ J (cycle t)) (local (next_limit phase b))
    (λ o t, (within m (cycle t) ∧ J (cycle t)) ∧ ∀ l, o = Ok l → limited m phase l (cycle t)).
Proof.
  intros HJ. apply always_local. intros t [Hw Hj]. pose proof Hw as (Hm & _).
  destruct (next_limit_cases phase b t) as [(-> & -> & _)|[(-> & ->)|(l & -> & -> & Hl & Hr)]].
  - done.
  - split; [by split; [apply within_saturate|apply HJ]|]. intros l [= <-]. split; [by apply within_saturate|by left].
  - split; [done|]. intros ? [= <-]. split; [done|right; lia].
Qed.
Lemma limited_stored {A} (J : Cycle → Prop) m phase l (p : proc S A) :
  always (λ t, (within m (cycle t) ∧ J (cycle t)) ∧ limited m phase l (cycle t)) (stored p)
    (λ _ t, (within m (cycle t) ∧ J (cycle t)) ∧ limited m phase l (cycle t)).
Proof. exact (stored_keeps (λ c, (within m c ∧ J c) ∧ limited m phase l c) p). Qed.

Lemma recorded_keeps (J : Cycle → Prop) m phase count l more t :
  known phase → (∀ c, J c → J (saturate c)) → (∀ c n, 0 <= n → J c → J (add_items phase n c)) → l ≠ 0 →
  J (cycle t) → limited m phase l (cycle t) →
  within m (cycle (record phase count l more t).2) ∧ J (cycle (record phase count l more t).2).
Proof.
  intros Hp HJ Ha Hl Hj [Hw [?|Hr]]; [done|].
  assert (0 <= count <= l → within m (add_items phase count (cycle t)) ∧ J (add_items phase count (cycle t))) as Hadd
    by (intros; split; [apply within_add; auto with lia|by apply Ha; [lia|]]).
  destruct (record_cases phase count l more t)
    as [(_ & [->|(? & ->)])|[(_ & _ & ? & ->)|[(_ & ? & [->|[->| ->]])|(_ & -> & ->)]]]; auto with lia;
    destruct Hadd as [? ?]; try lia; auto.
Qed.
Lemma record_keeps (J : Cycle → Prop) m phase count l more :
  known phase → (∀ c, J c → J (saturate c)) → (∀ c n, 0 <= n → J c → J (add_items phase n c)) → l ≠ 0 →
  always (λ t, (within m (cycle t) ∧ J (cycle t)) ∧ limited m phase l (cycle t)) (local (record phase count l more))
    (λ _ t, within m (cycle t) ∧ J (cycle t)).
Proof. intros Hp HJ Ha Hl. apply always_local. intros t [[_ Hj] Hr]. by apply recorded_keeps. Qed.

Section counts.
Context (phase : string) (Hphase : known phase).

(** The fuel of a drain is more than what the phase has left. *)
Lemma drain_keeps m b (op : Z → proc S Z) fuel total :
  always (λ t, within m (cycle t) ∧ m - items_of (cycle t) phase < Z.of_nat fuel) (drain phase b op fuel total)
    (λ o t, within m (cycle t) ∧ o ≠ Ok None).
Proof.
  revert total. induction fuel as [|fuel IH]; intros total; cbn [drain].
  { apply always_return. intros t [(_ & Hi & _) Hf]. specialize (Hi phase). lia. }
  eapply always_bind; [apply (limit_keeps (λ c, m - items_of c phase < Z.of_nat (Datatypes.S fuel))); done| |by intros e t [[? _] _]].
  intros l. destruct (l =? 0) eqn:El; [apply always_return; by intros t [[? _] _]|].
  eapply always_pre; [|intros t [Ht Hl]; exact (conj Ht (Hl l eq_refl))].
  eapply always_bind; [apply (limited_stored (λ c, m - items_of c phase < Z.of_nat (Datatypes.S fuel)))| |by intros e t [[? _] _]]. intros count.
  eapply (always_bind _ _ _ _ _ (λ o t, within m (cycle t) ∧ (o = Ok true → m - items_of (cycle t) phase < Z.of_nat fuel)));
    [|intros [|]; [|by apply always_return; intros t [? _]]|by intros e t [? _]].
  - apply always_local. intros t [[_ Hf] Hl]. destruct (recorded_keeps (λ _, True) m phase count l None t) as [Hw _]; try done; [lia|].
    split; [done|]. intros Ho. destruct Hl as [_ Hl].
    destruct (record_cases phase count l None t) as [(E & _)|[(E & _)|[(E & _)|(_ & -> & ->)]]]; try congruence.
    rewrite items_added, bool_decide_true by done. lia.
  - eapply always_pre; [apply IH|]. intros t [Hw Hf]. split; [done|by apply Hf].
Qed.
End counts.
Lemma loop_fuel_keeps m (J : Cycle → Prop) :
  always (λ t, within m (cycle t) ∧ J (cycle t)) loop_fuel
    (λ o t, (within m (cycle t) ∧ J (cycle t)) ∧ o = Ok (Datatypes.S (Z.to_nat m))).
Proof. apply always_local. intros t [Hw ?]. split; [done|]. destruct Hw as (Hm & _). cbn. by rewrite Hm. Qed.

Lemma drained_keeps m phase b (op : Z → proc S Z) :
  known phase → always (λ t, within m (cycle t)) (_drain_count_phase phase b op) (λ _ t, within m (cycle t)).
Proof.
  intros Hp. unfold _drain_count_phase.
  eapply (always_bind _ _ _ _ _ (λ o t, within m (cycle t) ∧ o = Ok (Datatypes.S (Z.to_nat m)))); [| |by intros e t [? _]].
  - eapply always_weaken; [apply (loop_fuel_keeps m (λ _, True))|done|naive_solver].
  - intros fuel. eapply (always_bind _ _ _ _ _ (λ _ t, within m (cycle t))); [|intros [x|]; [by apply always_return|by apply always_throw]|done].
    eapply always_weaken; [by apply (drain_keeps phase Hp m b op fuel 0)| |by intros o t [? _]].
    intros t [Hw [= ->]]. split; [done|]. destruct Hw as (_ & Hi & _). specialize (Hi phase). lia.
Qed.

Lemma guarded_keeps {A} (J : Cycle → Prop) name (p : proc (sweep S) A) failed :
  always (λ t, J (cycle t)) p (λ _ t, J (cycle t)) → always (λ t, J (cycle t)) (guarded name p failed) (λ _ t, J (cycle t)).
Proof.
  intros Hp. unfold guarded. apply (always_except _ _ _ _ _ (λ _ t, J (cycle t))); [|done|intros e; by apply always_return|done].
  eapply always_bind; [exact Hp|intros x; by apply always_return|done].
Qed.
(** ** Candidates *)

Definition kept (J : Cycle → Prop) m t : Prop := within m (cycle t) ∧ J (cycle t).
Definition monotone (J : Cycle → Prop) : Prop :=
  (∀ c, J c → J (saturate c)) ∧ ∀ phase c n, 0 <= n → J c → J (add_items phase n c).

Lemma stored_kept {A} (J : Cycle → Prop) m (p : proc S A) : always (kept J m) (stored p) (λ _, kept J m).
Proof. exact (stored_keeps (λ c, within m c ∧ J c) p). Qed.

Lemma except_keeps {A} (P : sweep S → Prop) (p : proc (sweep S) A) (h : exn → proc (sweep S) A) :
  always P p (λ _, P) → (∀ e, always P (h e) (λ _, P)) → always P (except p h) (λ _, P).
Proof. intros Hp Hh. by apply (always_except _ _ _ _ _ (λ _, P)). Qed.

Lemma error_batch_keeps (J : Cycle → Prop) m policy phase del n :
  known phase → monotone J → always (kept J m) (error_batch policy phase del n) (λ _, kept J m).
Proof.
  intros Hp [HJ Ha]. unfold error_batch. eapply always_bind; [by apply (limit_keeps J)| |by intros e t [? _]].
  intros l. destruct (l =? 0) eqn:El; [apply always_return; by intros t [? _]|].
  eapply always_pre; [|intros t [Ht Hl]; exact (conj Ht (Hl l eq_refl))].
  eapply always_bind; [apply (limited_stored J)| |by intros e t [? _]]. intros batch.
  eapply always_bind; [apply (record_keeps J); [done|done|by apply Ha|lia]| |done].
  intros more. by apply always_return.
Qed.

Lemma adhoc_job_keeps (J : Cycle → Prop) m policy observed_at job_id n :
  monotone J → always (kept J m) (adhoc_job policy observed_at job_id n) (λ _, kept J m).
Proof.
  intros HJ. unfold adhoc_job. eapply (always_bind _ _ _ _ _ (λ _, kept J m)); [|intros [[] n']|done].
  - apply except_keeps; [|intros e; by apply always_return]. eapply always_bind; [apply stored_kept| |done].
    intros action. destruct (negb _); [by apply always_return|]. apply error_batch_keeps; [by constructor|done].
  - apply except_keeps; [|intros e; by apply always_return]. eapply always_bind; [apply stored_kept| |done].
    intros []; first [by apply always_return | by apply always_throw].
  - by apply always_return.
Qed.

Lemma scheduled_run_keeps (J : Cycle → Prop) m policy observed_at x n :
  monotone J → always (kept J m) (scheduled_run policy observed_at x n) (λ _, kept J m).
Proof.
  intros HJ. unfold scheduled_run. eapply (always_bind _ _ _ _ _ (λ _, kept J m)); [|intros [[] n']|done].
  - apply except_keeps; [|intros e; by apply always_return]. apply error_batch_keeps; [by constructor|done].
  - apply except_keeps; [|intros e; by apply always_return]. eapply always_bind; [apply stored_kept| |done].
    intros pruned. by apply always_return.
  - by apply always_return.
Qed.

Section rounds.
Context {C : Type} (phase selection_phase : string) (b : Z) (select : Z → proc S (list C)).
Context (visit : C → progress → proc (sweep S) progress) (m : Z) (Hphase : known phase).
Context (visit_keeps : ∀ J x n, monotone J → always (kept J m) (visit x n) (λ _, kept J m)).

Lemma at_least_monotone k : monotone (λ c, k < items_of c phase).
Proof. split; [done|]. intros p c n Hn Hk. rewrite items_added. case_bool_decide; lia. Qed.

Lemma visit_all_keeps (J : Cycle → Prop) l n : monotone J → always (kept J m) (visit_all visit l n) (λ _, kept J m).
Proof.
  intros HJ. revert n. induction l as [|x l IH]; intros n; cbn; [by apply always_return|].
  eapply always_bind; [by apply visit_keeps|apply IH|done].
Qed.

Lemma rounds_keep fuel failed :
  always (kept (λ c, m - Z.of_nat fuel < items_of c phase) m)
    (candidate_rounds phase selection_phase b select visit fuel failed) (λ o t, within m (cycle t) ∧ o ≠ Ok None).
Proof.
  revert failed. induction fuel as [|fuel IH]; intros failed; cbn [candidate_rounds].
  { apply always_return. intros t [(_ & Hi & _) Hf]. specialize (Hi phase). lia. }
  set (J := λ c, m - Z.of_nat (Datatypes.S fuel) < items_of c phase).
  eapply always_bind; [by apply (limit_keeps J)| |by intros e t [[? _] _]].
  intros l. destruct (l =? 0) eqn:El; [apply always_return; by intros t [[? _] _]|].
  eapply always_pre; [|intros t [Ht Hl]; exact (conj Ht (Hl l eq_refl))].
  eapply (always_bind _ _ _ _ _ (λ _ t, kept J m t ∧ limited m phase l (cycle t))); [|intros [l'|]|by intros e t [[? _] _]].
  { apply except_keeps; [|intros e; by apply always_return].
    eapply always_bind; [apply (limited_stored J)|intros x; by apply always_return|done]. }
  2:{ apply always_return. by intros t [[? _] _]. }
  set (count := Z.of_nat (length l')).
  eapply (always_bind _ _ _ _ _ (λ o t, within m (cycle t) ∧ ∀ full, o = Ok full →
    m - Z.of_nat (Datatypes.S fuel) + count < items_of (cycle t) phase ∧ (full = true → 1 <= count)));
    [|intros full|by intros e t [? _]].
  { apply always_local. intros t [[_ Hk] Hl]. destruct (recorded_keeps (λ _, True) m phase count l None t) as [Hw _]; try done; [lia|].
    split; [done|]. intros full Hf. destruct Hl as [_ Hl]. unfold J in Hk.
    destruct (record_cases phase count l None t) as [(E & _)|[(E & _)|[(E & ? & [->|[->| ->]])|(_ & -> & ->)]]]; try congruence;
      rewrite ?items_saturated, items_added, bool_decide_true by done; (split; [lia|intros ->; congruence || lia]). }
  eapply (always_bind _ _ _ _ _ (λ o t, within m (cycle t) ∧ m - Z.of_nat (Datatypes.S fuel) + count < items_of (cycle t) phase ∧
    (full = true → 1 <= count) ∧ ∀ n, o = Ok n → l' = [] → retry_pending n = false)); [|intros n|by intros e t [? _]].
  { destruct l' as [|x l'].
    - apply always_return. intros t [Hw Hf]. destruct (Hf full eq_refl) as [? ?]. split_and!; try done. by intros n [= <-].
    - intros k t [Hw Hf]. destruct (Hf full eq_refl) as [Hc Hfull].
      eapply wp_mono; [|apply (visit_all_keeps _ (x :: l') _ (at_least_monotone (m - Z.of_nat (Datatypes.S fuel) + count))); by split].
      cbn beta. intros n o t' [? ?]. by split_and!. }
  destruct (negb full && _) eqn:Eend; [apply always_return; by intros t [? _]|].
  eapply always_pre; [apply IH|]. intros t (Hw & Hc & Hfull & Hempty). split; [done|].
  assert (1 <= count); [|lia]. destruct full; [by apply Hfull|]. unfold count. destruct l' as [|x l']; [|cbn; lia].
  cbn in Eend. by rewrite (Hempty n eq_refl eq_refl) in Eend.
Qed.

Lemma candidates_keep failed :
  always (λ t, within m (cycle t)) (drain_candidates phase selection_phase b select visit failed) (λ _ t, within m (cycle t)).
Proof.
  unfold drain_candidates. eapply (always_bind _ _ _ _ _ (λ o t, within m (cycle t) ∧ o = Ok (Datatypes.S (Z.to_nat m)))); [| |by intros e t [? _]].
  - eapply always_weaken; [apply (loop_fuel_keeps m (λ _, True))|done|naive_solver].
  - intros fuel. eapply (always_bind _ _ _ _ _ (λ _ t, within m (cycle t))); [|intros [x|]; [by apply always_return|by apply always_throw]|done].
    eapply always_weaken; [apply (rounds_keep fuel failed)| |by intros o t [? _]].
    intros t [Hw [= ->]]. split; [done|]. destruct Hw as (_ & Hi & _). specialize (Hi phase). lia.
Qed.
End rounds.
End pass.

(** ** The scans of the artifacts *)

Section scans.
Context {S : Type} `{RetentionStores S} (rely : sweep S → sweep S → Prop) (fails : channel → Prop).
Context (rely_cycle : ∀ t t', rely t t' → cycle t' = cycle t).
Implicit Types (t : sweep S) (c : Cycle) (phase other : string) (m k : Z) (pending : bool).
Abbreviation always := (always rely fails).

(** The deadline has passed, and the clock does not go back. *)
Definition late t : Prop := deadline (cycle t) <= (clock_read (service t)).1.

Lemma late_ticks t : late t → late (set_service (clock_read (service t)).2 t).
Proof. unfold late. cbn. pose proof (clock_forward (service t)). lia. Qed.
Lemma limit_late phase b t :
  late t → late (next_limit phase b t).2 ∧ ∀ l, (next_limit phase b t).1 = Ok l → l = 0.
Proof.
  intros Ht. pose proof (late_ticks t Ht) as H1. unfold next_limit. destruct (b <? 1); [done|].
  unfold pbind at 1, _clock. cbn. apply Z.leb_le in Ht. cbn in Ht. rewrite Ht. cbn. split; [exact H1|]. by intros l [= <-].
Qed.
Lemma record_late phase count l more t : late t → late (record phase count l more t).2.
Proof.
  intros Ht. pose proof (late_ticks t Ht) as H1. unfold record. destruct (_ || _); [done|]. unfold pbind at 1. cbn.
  set (t1 := set_cycle _ t). assert (late t1) as Ht1 by done.
  destruct (count <? l).
  - destruct (default false more); [|done]. unfold pbind, _clock. cbn. apply Z.leb_le in Ht1. cbn in Ht1. rewrite Ht1. exact H1.
  - destruct (opt_eqb more false); [done|]. destruct (limit_late phase l t1 Ht1) as [Hl _]. unfold pbind.
    destruct (next_limit phase l t1) as [[n|e] t2]; [|done]. cbn in *. by destruct (n =? 0).
Qed.
(** A page that is short of its limit although there is more means that the time is up. *)
Lemma record_short phase count l t b :
  (record phase count l (Some true) t).1 = Ok b → late (record phase count l (Some true) t).2 ∨ count = l.
Proof.
  unfold record. destruct (_ || _) eqn:E; [done|]. apply orb_false_iff in E as [_ E]. unfold pbind at 1. cbn.
  destruct (count <? l) eqn:El; [|intros _; right; lia]. unfold pbind, _clock. cbn.
  match goal with |- context[Z.leb ?x ?y] => destruct (Z.leb_spec x y) as [Hle|] end; [|done]. intros _. left.
  unfold late. cbn. pose proof (clock_forward (service t)). unfold deadline in *. cbn in *. lia.
Qed.

(** What is left of a scan, counting its end; 0 when it is over. *)
Definition scan_left phase pending m c : Z := if pending then m - items_of c phase + 1 else 0.

Lemma scan_limit_keeps (J : Cycle → Prop) (X : Prop) phase b pending m :
  (∀ c, J c → J (saturate c)) →
  always (λ t, within m (cycle t) ∧ J (cycle t) ∧ (late t ∨ X)) (scan_limit b phase pending)
    (λ o t, within m (cycle t) ∧ J (cycle t) ∧
            ∀ l, o = Ok l → limited m phase l (cycle t) ∧ (l ≠ 0 → pending = true) ∧ (late t ∧ l = 0 ∨ X)).
Proof.
  intros HJ. unfold scan_limit. destruct pending.
  - apply always_local. intros t (Hw & Hj & Hx). pose proof Hw as (Hm & _).
    assert (∀ l, (next_limit phase b t).1 = Ok l → late (next_limit phase b t).2 ∧ l = 0 ∨ X) as Hl.
    { intros l El. destruct Hx as [Hx|]; [|by right]. left. destruct (limit_late phase b t Hx). auto. }
    destruct (next_limit_cases phase b t) as [(-> & -> & _)|[(E & ->)|(l & E & -> & Hr)]].
    + done.
    + rewrite E in *. split_and!; [done|by apply HJ|]. intros l [= <-]. split_and!; [split; [done|by left]|done|by apply Hl].
    + rewrite E in *. split_and!; [done..|]. intros ? [= <-]. split_and!; [split; [done|right; lia]|done|by apply Hl].
  - apply always_return. intros t (Hw & Hj & Hx). split_and!; [done..|]. intros l [= <-].
    split_and!; [split; [done|by left]|done|]. destruct Hx; auto.
Qed.

Lemma scan_recorded_keeps phase other other_pending l lo inspected exhausted pending m k :
  phase ≠ other → known phase → (l ≠ 0 → pending = true) →
  always (λ t, limited m phase l (cycle t) ∧ limited m other lo (cycle t) ∧
               (late t ∨ scan_left phase pending m (cycle t) + scan_left other other_pending m (cycle t) <= k))
    (scan_recorded phase l inspected exhausted pending)
    (λ o t, within m (cycle t) ∧ ∀ pending', o = Ok pending' → limited m other lo (cycle t) ∧
      (late t ∨ scan_left phase pending' m (cycle t) + scan_left other other_pending m (cycle t) <= k - if l =? 0 then 0 else 1)).
Proof.
  intros Hne Hp Hpend. unfold scan_recorded. destruct (l =? 0) eqn:El.
  { apply always_return. intros t (Hl & Ho & Hk). split; [by destruct Hl|]. intros ? [= <-]. split; [done|]. by rewrite Z.sub_0_r. }
  assert (l ≠ 0) as Hl0 by lia. specialize (Hpend Hl0). subst pending.
  eapply (always_bind _ _ _ _ _ (λ o t, within m (cycle t) ∧ (is_Some (match o with Ok b => Some b | _ => None end) → limited m other lo (cycle t) ∧
    (late t ∨ scan_left phase (negb exhausted) m (cycle t) + scan_left other other_pending m (cycle t) <= k - 1))));
    [| |by intros e t [? _]].
  2:{ intros b. apply always_return. intros t [? Ho]. split; [done|]. intros ? [= <-]. by apply Ho. }
  apply always_local. intros t (Hl & [Hw Ho] & Hk).
  destruct (recorded_keeps (λ _, True) m phase inspected l (Some (negb exhausted)) t) as [Hw' _]; try done.
  split; [done|]. intros [b Hb]. destruct (record phase inspected l (Some (negb exhausted)) t).1 as [b'|e] eqn:E; [|done].
  destruct (record_cases phase inspected l (Some (negb exhausted)) t) as [(E' & _)|[(E' & _)|Hc]]; try congruence.
  assert (0 <= inspected ∧ items_of (cycle (record phase inspected l (Some (negb exhausted)) t).2) phase = items_of (cycle t) phase + inspected ∧
    items_of (cycle (record phase inspected l (Some (negb exhausted)) t).2) other = items_of (cycle t) other) as (Hn & Ei & Eo).
  { destruct Hl as [_ Hl]. destruct Hc as [(_ & ? & [->|[->| ->]])|(_ & -> & ->)]; rewrite ?items_saturated, !items_added, bool_decide_true, (bool_decide_false (other = phase)) by done; lia. }
  split; [split; [done|]; by rewrite Eo|]. destruct Hk as [Hk|Hk]; [left; by apply record_late|].
  unfold scan_left in *. rewrite Ei, Eo. destruct exhausted; cbn [negb] in *.
  - right. destruct Hw as (_ & Hi & _). specialize (Hi phase). lia.
  - destruct (record_short phase inspected l t b' E) as [?| ->]; [by left|right]. destruct Hl as [_ Hl]. lia.
Qed.

Lemma scans_keep grace dry now b m fuel r mp fp :
  always (λ t, within m (cycle t) ∧ (0 < fuel)%nat ∧
               (late t ∨ scan_left "artifact_metadata" mp m (cycle t) + scan_left "artifact_filesystem" fp m (cycle t) < Z.of_nat fuel))
    (drain_artifacts grace dry now b fuel r mp fp) (λ o t, within m (cycle t) ∧ o ≠ Ok None).
Proof.
  revert r mp fp. induction fuel as [|fuel IH]; intros r mp fp.
  { apply always_return. intros t (_ & ? & _). lia. }
  intros n0 t0 (Hw0 & _ & H0). set (k := scan_left "artifact_metadata" mp m (cycle t0) + scan_left "artifact_filesystem" fp m (cycle t0)) in *.
  set (J := λ c, scan_left "artifact_metadata" mp m c + scan_left "artifact_filesystem" fp m c = k).
  set (X := k < Z.of_nat (Datatypes.S fuel)).
  revert n0. cut (always (λ t, within m (cycle t) ∧ J (cycle t) ∧ (late t ∨ X)) (drain_artifacts grace dry now b (Datatypes.S fuel) r mp fp)
    (λ o t, within m (cycle t) ∧ o ≠ Ok None)). { intros Ha n0. exact (Ha n0 t0 (conj Hw0 (conj eq_refl H0))). }
  clear Hw0 H0. cbn [drain_artifacts]. destruct (negb (mp || fp)) eqn:Epend; [apply always_return; by intros t [? _]|].
  eapply always_bind; [by apply (scan_limit_keeps J X)| |by intros e t [? _]]. intros ml.
  eapply (always_bind _ _ _ _ _ (λ o t, within m (cycle t) ∧ (∀ fl, o = Ok fl → (limited m "artifact_metadata" ml (cycle t) ∧
    limited m "artifact_filesystem" fl (cycle t) ∧ J (cycle t)) ∧ (ml ≠ 0 → mp = true) ∧ (fl ≠ 0 → fp = true) ∧ (ml = 0 ∧ fl = 0 ∨ X))));
    [|intros fl|by intros e t [? _]].
  { intros n t (Hw & Hj & Hl). destruct (Hl ml eq_refl) as (Hlim & Hmp & Hx).
    eapply wp_mono; [|apply (scan_limit_keeps (λ c, limited m "artifact_metadata" ml c ∧ J c) X); [by intros c [[Hw1 Hl1] Hj1]|]].
    - cbn beta. intros n' o t' (Hw' & [Hlim' Hj'] & Hfl). split; [done|]. intros fl Ho. destruct (Hfl fl Ho) as (Hlf & Hfp & Hx').
      split_and!; try done. destruct Hx as [[_ ?]|]; [|by right]. destruct Hx' as [[_ ?]|]; auto.
    - split_and!; [done..|]. destruct Hx as [[? _]|]; auto. }
  destruct ((ml =? 0) && (fl =? 0)) eqn:Ezero; [apply always_return; by intros t [? _]|].
  eapply (always_pre _ _ (λ t, limited m "artifact_metadata" ml (cycle t) ∧ limited m "artifact_filesystem" fl (cycle t) ∧
    scan_left "artifact_metadata" mp m (cycle t) + scan_left "artifact_filesystem" fp m (cycle t) <= Z.of_nat fuel ∧
    (ml ≠ 0 → mp = true) ∧ (fl ≠ 0 → fp = true))).
  2:{ intros t [_ Hl]. destruct (Hl fl eq_refl) as ((? & ? & Hj) & ? & ? & Hx). split_and!; try done. unfold J, X in *. lia. }
  clear J X k. set (I := λ c, limited m "artifact_metadata" ml c ∧ limited m "artifact_filesystem" fl c ∧
    scan_left "artifact_metadata" mp m c + scan_left "artifact_filesystem" fp m c <= Z.of_nat fuel ∧
    (ml ≠ 0 → mp = true) ∧ (fl ≠ 0 → fp = true)).
  assert (∀ c, I c → within m c) as HI by (intros c (Hl & _); by destruct Hl).
  assert (∀ c, I c → (0 < fuel)%nat) as Hfuel.
  { intros c (Hl & _ & Hk & _). destruct Hl as [(_ & Hi & _) _]. pose proof (Hi "artifact_metadata"). pose proof (Hi "artifact_filesystem").
    unfold scan_left in Hk. destruct mp, fp; cbn in Epend; lia || done. }
  destruct (decide (0 < fuel)%nat) as [Hf|Hf]; [|intros n s Hi; by destruct Hf; apply (Hfuel _ Hi)].
  eapply (always_bind _ _ _ _ _ (λ _ t, I (cycle t))); [by apply always_local| |by intros e t Hi%HI]. intros c.
  eapply (always_bind _ _ _ _ _ (λ _ t, I (cycle t))); [by apply (stored_keeps rely fails rely_cycle I)| |by intros e t Hi%HI]. intros page.
  eapply (always_bind _ _ _ _ _ (λ _ t, I (cycle t))); [by apply always_outcome| |by intros e t Hi%HI]. intros aggregate.
  destruct (decide (ml ≠ 0 → mp = true)) as [Hmp|Hmp]; [|by intros n s (? & ? & ? & ? & ?)].
  destruct (decide (fl ≠ 0 → fp = true)) as [Hfp|Hfp]; [|by intros n s (? & ? & ? & ? & ?)].
  eapply (always_bind _ _ _ _ _ (λ o t, within m (cycle t) ∧ ∀ mp', o = Ok mp' → limited m "artifact_filesystem" fl (cycle t) ∧
    (late t ∨ scan_left "artifact_metadata" mp' m (cycle t) + scan_left "artifact_filesystem" fp m (cycle t) <=
      Z.of_nat fuel - (if ml =? 0 then 0 else 1)))); [| |by intros e t [? _]].
  { eapply always_pre; [apply scan_recorded_keeps; [done|by constructor|done]|]. intros t (? & ? & ? & _). split_and!; auto. }
  intros mp'. cbn beta. eapply (always_bind _ _ _ _ _ (λ o t, within m (cycle t) ∧ ∀ fp', o = Ok fp' → limited m "artifact_metadata" 0 (cycle t) ∧
    (late t ∨ scan_left "artifact_filesystem" fp' m (cycle t) + scan_left "artifact_metadata" mp' m (cycle t) <=
      Z.of_nat fuel - (if ml =? 0 then 0 else 1) - (if fl =? 0 then 0 else 1)))); [| |by intros e t [? _]].
  { eapply always_pre; [apply scan_recorded_keeps; [done|by constructor|done]|].
    intros t [Hw Hl]. destruct (Hl mp' eq_refl) as [? Hk]. split_and!; [done|split; [done|by left]|]. rewrite Z.add_comm. done. }
  intros fp'. cbn beta. eapply always_pre; [apply IH|]. intros t [Hw Hl]. destruct (Hl fp' eq_refl) as [_ Hk].
  split_and!; [done..|]. destruct Hk as [?|Hk]; [by left|right]. rewrite Z.add_comm.
  destruct (ml =? 0), (fl =? 0); done || lia.
Qed.

Lemma artifacts_keep grace dry now b m :
  always (λ t, within m (cycle t)) (_drain_artifact_reconciliation grace dry now b) (λ _ t, within m (cycle t)).
Proof.
  unfold _drain_artifact_reconciliation.
  eapply (always_bind _ _ _ _ _ (λ o t, within m (cycle t) ∧ o = Ok (Datatypes.S (Z.to_nat m)))); [| |by intros e t [? _]].
  - eapply always_weaken; [apply (loop_fuel_keeps rely fails m (λ _, True))|done|naive_solver].
  - intros fuel. eapply (always_bind _ _ _ _ _ (λ _ t, within m (cycle t))); [|intros [x|]; [by apply always_return|by apply always_throw]|done].
    eapply always_weaken; [apply scans_keep| |by intros o t [? _]].
    intros t [Hw [= ->]]. split_and!; [done|lia|right]. destruct Hw as (_ & Hi & _). unfold scan_left.
    pose proof (Hi "artifact_metadata"). pose proof (Hi "artifact_filesystem"). lia.
Qed.
End scans.

(** ** The pass *)

Section run.
Context {S : Type} `{RetentionStores S} (rely : sweep S → sweep S → Prop) (fails : channel → Prop).
Context (rely_cycle : ∀ t t', rely t t' → cycle t' = cycle t).
Implicit Types (t : sweep S) (a : cleanup_arguments) (m : Z).
Abbreviation always := (always rely fails).

Lemma adhoc_jobs_keep policy observed_at failed m :
  always (λ t, within m (cycle t)) (drain_adhoc_jobs policy observed_at failed) (λ _ t, within m (cycle t)).
Proof. apply candidates_keep; [done|by constructor|]. intros J x n. by apply adhoc_job_keeps. Qed.
Lemma scheduled_runs_keep policy observed_at failed m :
  always (λ t, within m (cycle t)) (drain_scheduled_runs policy observed_at failed) (λ _ t, within m (cycle t)).
Proof. apply candidates_keep; [done|by constructor|]. intros J x n. by apply scheduled_run_keeps. Qed.

Lemma phases_keep a now m :
  always (λ t, within m (cycle t)) (cleanup_phases a now) (λ _ t, within m (cycle t)).
Proof.
  assert (∀ name phase b op failed, known phase →
    always (λ t, within m (cycle t)) (guarded name (_drain_count_phase phase b op) failed) (λ _ t, within m (cycle t))) as Hg.
  { intros name phase b op failed Hp. by apply (guarded_keeps rely fails (within m)), drained_keeps. }
  unfold cleanup_phases. apply always_then; [apply Hg; by constructor|intros f1]. apply always_then; [apply Hg; by constructor|intros f2].
  apply always_then; [|intros f3].
  { unfold artifact_phase. apply (except_keeps _ _ (λ t, within m (cycle t))); [|intros e; by apply always_return].
    apply always_then; [by apply artifacts_keep|intros r; by apply always_return]. }
  apply always_then; [by apply always_local|intros today]. apply always_then.
  { destruct (job_store a); [apply Hg; by constructor|by apply always_return]. }
  intros f4. apply always_then; [|intros f5].
  { unfold webhook_phase. repeat (case_match; try by first [apply always_return|apply always_throw]). apply Hg. by constructor. }
  unfold history_phase. destruct (negb _); [by apply always_throw|]. destruct (history_policy a) as [policy|]; [|by apply always_return].
  destruct (_ && _); [|by apply always_return]. apply always_then; [|intros more; by apply always_return].
  unfold _cleanup_durable_history. apply always_then; [apply Hg; by constructor|intros f6].
  apply always_then; [apply adhoc_jobs_keep|intros f7; apply scheduled_runs_keep].
Qed.

Lemma new_cycle_within a t :
  1 <= cycle_max_items_per_phase a → 0 < cycle_max_seconds a →
  (new_cycle (cycle_max_items_per_phase a) (cycle_max_seconds a) t).1 = Ok tt ∧
  within (cycle_max_items_per_phase a) (cycle (new_cycle (cycle_max_items_per_phase a) (cycle_max_seconds a) t).2).
Proof.
  intros Hm Hs. unfold new_cycle. rewrite (proj2 (Z.ltb_ge _ _)), (proj2 (Z.leb_gt _ _)) by done.
  split; [done|]. split_and!; [done| |by intros phase n Hn]. intros phase. unfold items_of. cbn. rewrite lookup_empty. cbn. lia.
Qed.

(** [C36] Whatever the stores raise, however often the pass is cancelled and whatever the rest
    of the service does meanwhile, no phase of a cleanup pass counts more items than the
    limit of the cycle, and what a completed pass reports is the budget it used: at most
    that limit for each of the eleven phases, and whether a limit or the deadline was hit. *)
Theorem cleanup_within_budget n a now t o t' :
  1 <= cycle_max_items_per_phase a → 0 < cycle_max_seconds a →
  runs rely fails n (run_cleanup a now) t o t' →
  (∀ phase, 0 <= items_of (cycle t') phase <= cycle_max_items_per_phase a) ∧
  ∀ outcome, o = Ok outcome →
    processed_items outcome = total_items (cycle t') ∧ processed_items outcome <= 11 * cycle_max_items_per_phase a ∧
    o_saturated outcome = saturated (cycle t').
Proof.
  intros Hm Hs Hrun. set (m := cycle_max_items_per_phase a) in *.
  cut (within m (cycle t') ∧ ∀ outcome, o = Ok outcome → processed_items outcome = total_items (cycle t') ∧ o_saturated outcome = saturated (cycle t')).
  { intros [Hw Ho]. split; [apply Hw|]. intros outcome Hout. destruct (Ho outcome Hout) as [-> ?].
    split_and!; [done|by apply total_within|done]. }
  refine (always_runs rely fails n (λ _, True) (run_cleanup a now) (λ o t, within m (cycle t) ∧ ∀ outcome, o = Ok outcome →
    processed_items outcome = total_items (cycle t) ∧ o_saturated outcome = saturated (cycle t)) t o t' _ I Hrun).
  unfold run_cleanup. eapply (always_bind _ _ _ _ _ (λ o t, within m (cycle t) ∧ o = Ok tt)); [| |by intros e t1 [? ?]].
  { apply always_local. intros t1 _. destruct (new_cycle_within a t1 Hm Hs). auto. }
  intros u. eapply (always_bind _ _ _ _ _ (λ _ t, within m (cycle t))); [| |done].
  { eapply always_pre; [apply phases_keep|]. by intros t1 [? _]. }
  intros [|x l]; [|by apply always_throw]. eapply (always_bind _ _ _ _ _ (λ o t, within m (cycle t) ∧ o = Ok (cycle t))); [by apply always_local| |by intros e t1 [? ?]].
  intros c. apply always_return. intros t1 [Hw [= ->]]. split; [done|]. by intros outcome [= <-].
Qed.

(** [C37] No loop of a pass outlives its budget: whatever fails or interferes, the draining of
    a phase, of the two scans of the artifacts and of either kind of candidates ends after
    at most as many rounds as the cycle allows items (plus one; twice that, plus two, for the
    two scans, which run side by side). *)
Theorem cleanup_loops_end n m t :
  within m (cycle t) →
  let rounds := Datatypes.S (Z.to_nat m) in
  (∀ phase b op o t', known phase → runs rely fails n (drain phase b op rounds 0) t o t' → o ≠ Ok None) ∧
  (∀ grace dry now b r o t', runs rely fails n (drain_artifacts grace dry now b (2 * rounds + 2) r true true) t o t' → o ≠ Ok None) ∧
  (∀ policy observed_at b select failed o t',
    runs rely fails n (candidate_rounds "adhoc_candidates" "adhoc_selection" b select (adhoc_job policy observed_at) rounds failed) t o t' →
    o ≠ Ok None) ∧
  (∀ policy observed_at b select failed o t',
    runs rely fails n (candidate_rounds "scheduled_candidates" "scheduled_selection" b select (scheduled_run policy observed_at) rounds failed) t o t' →
    o ≠ Ok None).
Proof.
  intros Hw rounds. pose proof Hw as (_ & Hi & _).
  assert (∀ phase, m - items_of (cycle t) phase < Z.of_nat rounds) as Hf by (intros phase; specialize (Hi phase); lia).
  split_and!.
  - intros phase b op o t' Hp Hr. by eapply (always_runs rely fails n _ _ _ t o t' (drain_keeps rely fails rely_cycle phase Hp m b op rounds 0)).
  - intros grace dry now b r o t' Hr.
    eapply (always_runs rely fails n _ _ _ t o t' (scans_keep rely fails rely_cycle grace dry now b m (2 * rounds + 2) r true true)); [|done].
    split_and!; [done|lia|right]. unfold scan_left. pose proof (Hf "artifact_metadata"). pose proof (Hf "artifact_filesystem"). lia.
  - intros policy observed_at b select failed o t' Hr.
    eapply (always_runs rely fails n _ _ _ t o t' (rounds_keep rely fails rely_cycle "adhoc_candidates" "adhoc_selection" b select
      (adhoc_job policy observed_at) m ltac:(by constructor) ltac:(intros J x k; by apply adhoc_job_keeps) rounds failed)); [|done].
    split; [done|]. specialize (Hf "adhoc_candidates"). lia.
  - intros policy observed_at b select failed o t' Hr.
    eapply (always_runs rely fails n _ _ _ t o t' (rounds_keep rely fails rely_cycle "scheduled_candidates" "scheduled_selection" b select
      (scheduled_run policy observed_at) m ltac:(by constructor) ltac:(intros J x k; by apply scheduled_run_keeps) rounds failed)); [|done].
    split; [done|]. specialize (Hf "scheduled_candidates"). lia.
Qed.
End run.

(** * What a pass that is not saturated has done *)

(** Work a pass is there to do, up to a time that has come. *)
Inductive due :=
| nothing_until (time : Z)
| idempotency_until (time : Z)
| secrets_until (delivered_before failed_before : Z)
| errors_until (time : Z).
(** The time from which on nothing of the kind becomes due any more, if what the service
    writes is stamped within [lag] before the time it is written. *)
Definition due_time (lag : Z) (k : due) : Z :=
  match k with
  | nothing_until time | idempotency_until time => time
  | errors_until time => time + lag
  | secrets_until delivered_before failed_before => Z.max delivered_before failed_before + lag
  end.

(** The calls of a pass. *)
Inductive store_call {S : Type} `{RetentionStores S} : ∀ A, proc S A → Prop :=
| call_delete_expired days limit : store_call _ (delete_expired days limit)
| call_prune_excess n limit : store_call _ (prune_excess_per_job n limit)
| call_reconcile grace dry now b ml fl d : store_call _ (reconcile_artifacts grace dry now b ml fl d)
| call_idempotency time limit : store_call _ (delete_expired_idempotency_records time limit)
| call_scrub delivered failed_at time limit : store_call _ (scrub_batch delivered failed_at time limit)
| call_errors time limit : store_call _ (delete_expired_errors time limit)
| call_job_errors jid limit : store_call _ (delete_errors_for_job_batch jid limit)
| call_run_errors rid limit : store_call _ (delete_errors_for_run_batch rid limit)
| call_list_adhoc expired observed tombstone limit : store_call _ (list_adhoc_jobs_for_retention expired observed tombstone limit)
| call_reserve jid results time : store_call _ (reserve_job_deletion jid results time)
| call_finalize jid results time : store_call _ (finalize_job_deletion jid results time)
| call_list_runs expired tombstone n limit : store_call _ (list_scheduled_runs_for_retention expired tombstone n limit)
| call_prune jid rid expired tombstone n : store_call _ (prune_scheduled_run_for_retention jid rid expired tombstone n).

Section contract.
Context {S : Type} `{RetentionStores S} (settled : due → S → Prop).
(** Nothing of the kind is left, and its time has come. *)
Definition held (k : due) (s : S) : Prop := due_time day k <= utc_now s ∧ settled k s.
(** A call that answers less than its limit has left nothing. *)
Definition exhausts (rely : S → S → Prop) (fails : channel → Prop) (k : due) (limit : Z) (p : proc S Z) : Prop :=
  always rely fails (λ s, due_time day k <= utc_now s) p
    (λ o s, due_time day k <= utc_now s ∧ ∀ x, o = Ok x → x < limit → settled k s).
End contract.

(** What a pass relies on: what is settled stays so, whoever runs, and the three deletions
    that are drained are exhaustive. *)
Class RetentionContract (S : Type) `{RetentionStores S} (rely : S → S → Prop) (fails : channel → Prop) := {
  settled : due → S → Prop;
  settled_nothing time s : settled (nothing_until time) s;
  rely_held k : stable rely (held settled k);
  clock_held k s : held settled k s → held settled k (clock_read s).2;
  call_held k A (p : proc S A) : store_call A p → always rely fails (held settled k) p (λ _, held settled k);
  idempotency_exhausted time limit : 1 <= limit →
    exhausts settled rely fails (idempotency_until time) limit (delete_expired_idempotency_records time limit);
  secrets_exhausted delivered_before failed_before time limit : 1 <= limit →
    exhausts settled rely fails (secrets_until delivered_before failed_before) limit
      (scrub_batch delivered_before failed_before time limit);
  errors_exhausted time limit : 1 <= limit →
    exhausts settled rely fails (errors_until time) limit (delete_expired_errors time limit);
}.

Section complete.
Context {S : Type} `{RetentionStores S} {srely : S → S → Prop} {fails : channel → Prop} `{!RetentionContract S srely fails}.
Context (rely : sweep S → sweep S → Prop).
Context (rely_cycle : ∀ t t', rely t t' → cycle t' = cycle t).
Context (rely_service : ∀ t t', rely t t' → srely (service t) (service t')).
Implicit Types (t : sweep S) (k : due) (phase : string) (I : sweep S → Prop).
Abbreviation always := (always rely fails).
Abbreviation held := (held settled).

Lemma stored_lift {A} (J : Cycle → Prop) (P : S → Prop) (p : proc S A) Q :
  Proc.always srely fails P p Q → always (λ t, J (cycle t) ∧ P (service t)) (stored p) (λ o t, J (cycle t) ∧ Q o (service t)).
Proof.
  intros Hp n t [Hj Ht]. specialize (Hp n (service t) Ht). clear Ht. revert n t Hj Hp.
  induction p as [a|e|B q f IH|ch sh B q f IH]; intros n t Hj Hw; cbn in *; [by split..|by apply IH|].
  intros t1 Hr. assert (cycle t1 = cycle t ∧ rtc srely (service t) (service t1)) as [Hc Hs].
  { clear -Hr rely_cycle rely_service. induction Hr as [t|t t2 t1 Hstep _ [IHc IHs]]; [by split|].
    split; [by rewrite IHc, (rely_cycle t t2)|]. eapply rtc_l; eauto. }
  destruct (Hw (service t1) Hs) as (H1 & H2 & H3). split_and!.
  - apply IH; [by rewrite <- Hc in Hj|done].
  - intros n' Hn t2 [->| ->]; (apply IH; [by rewrite <- Hc in Hj|eapply (H2 n' Hn); auto]).
  - intros Hf e t2 [->| ->]; (apply IH; [by rewrite <- Hc in Hj|eapply (H3 Hf); auto]).
Qed.

(** ** An invariant of the steps is one of the pass *)

Class kept_by_steps I : Prop := {
  kept_call A (p : proc S A) : store_call A p → always I (stored p) (λ _, I);
  kept_limit phase b : always I (local (next_limit phase b)) (λ _, I);
  kept_record phase count limit more : always I (local (record phase count limit more)) (λ _, I);
}.

Section steps.
Context I `{!kept_by_steps I}.
Lemma return_kept {A} (x : A) : always I (Return x) (λ _, I).
Proof. by apply always_return. Qed.
Lemma reading_kept {A} (f : sweep S → outcome exn A) : always I (local (λ t, (f t, t))) (λ _, I).
Proof. by apply always_local. Qed.

Lemma drain_kept phase b (op : Z → proc S Z) fuel total :
  (∀ l, always I (stored (op l)) (λ _, I)) → always I (drain phase b op fuel total) (λ _, I).
Proof.
  intros Hop. revert total. induction fuel as [|fuel IH]; intros total; cbn [drain]; [apply return_kept|].
  apply always_then; [apply kept_limit|intros l]. destruct (l =? 0); [apply return_kept|].
  apply always_then; [apply Hop|intros count]. apply always_then; [apply kept_record|intros [|]]; [apply IH|apply return_kept].
Qed.
Lemma drained_kept phase b (op : Z → proc S Z) :
  (∀ l, always I (stored (op l)) (λ _, I)) → always I (_drain_count_phase phase b op) (λ _, I).
Proof.
  intros Hop. apply always_then; [apply reading_kept|intros fuel]. apply always_then; [by apply drain_kept|intros [x|]; [apply return_kept|by apply always_throw]].
Qed.
Lemma guarded_kept {A} name (p : proc (sweep S) A) failed : always I p (λ _, I) → always I (guarded name p failed) (λ _, I).
Proof.
  intros Hp. apply except_keeps; [|intros e; apply return_kept]. apply always_then; [done|intros x; apply return_kept].
Qed.

Lemma scan_recorded_kept phase l n exhausted pending : always I (scan_recorded phase l n exhausted pending) (λ _, I).
Proof. unfold scan_recorded. destruct (l =? 0); [apply return_kept|]. apply always_then; [apply kept_record|intros x; apply return_kept]. Qed.
Lemma scan_limit_kept phase b pending : always I (scan_limit b phase pending) (λ _, I).
Proof. unfold scan_limit. destruct pending; [apply kept_limit|apply return_kept]. Qed.
Lemma scans_kept grace dry now b fuel r mp fp : always I (drain_artifacts grace dry now b fuel r mp fp) (λ _, I).
Proof.
  revert r mp fp. induction fuel as [|fuel IH]; intros r mp fp; cbn [drain_artifacts]; [apply return_kept|].
  destruct (negb _); [apply return_kept|]. apply always_then; [apply scan_limit_kept|intros ml].
  apply always_then; [apply scan_limit_kept|intros fl]. destruct (_ && _); [apply return_kept|].
  apply always_then; [apply reading_kept|intros c]. apply always_then; [apply kept_call; constructor|intros page].
  apply always_then; [by apply always_outcome|intros r']. apply always_then; [apply scan_recorded_kept|intros mp'].
  apply always_then; [apply scan_recorded_kept|intros fp']. apply IH.
Qed.
Lemma artifacts_kept grace dry now b : always I (_drain_artifact_reconciliation grace dry now b) (λ _, I).
Proof.
  apply always_then; [apply reading_kept|intros fuel]. apply always_then; [apply scans_kept|intros [x|]; [apply return_kept|by apply always_throw]].
Qed.

Lemma error_batch_kept policy phase del n :
  (∀ l, always I (stored (del l)) (λ _, I)) → always I (error_batch policy phase del n) (λ _, I).
Proof.
  intros Hdel. apply always_then; [apply kept_limit|intros l]. destruct (l =? 0); [apply return_kept|].
  apply always_then; [apply Hdel|intros batch]. apply always_then; [apply kept_record|intros b; apply return_kept].
Qed.
Lemma candidates_kept {C} phase sel b (select : Z → proc S (list C)) visit failed :
  (∀ l, always I (stored (select l)) (λ _, I)) → (∀ x n, always I (visit x n) (λ _, I)) →
  always I (drain_candidates phase sel b select visit failed) (λ _, I).
Proof.
  intros Hsel Hv. apply always_then; [apply reading_kept|intros fuel]. apply always_then; [|intros [x|]; [apply return_kept|by apply always_throw]].
  revert failed. induction fuel as [|fuel IH]; intros failed; cbn [candidate_rounds]; [apply return_kept|].
  apply always_then; [apply kept_limit|intros l]. destruct (l =? 0); [apply return_kept|].
  apply always_then; [|intros [l'|]; [|apply return_kept]].
  { apply except_keeps; [|intros e; apply return_kept]. apply always_then; [apply Hsel|intros x; apply return_kept]. }
  apply always_then; [apply kept_record|intros full]. apply always_then; [|intros n; destruct (_ && _); [apply return_kept|apply IH]].
  generalize {| retry_pending := false; made_progress := false; failed_phases := failed |}.
  induction l' as [|x l' IHl]; intros n; cbn; [apply return_kept|]. apply always_then; [apply Hv|apply IHl].
Qed.
Lemma adhoc_job_kept policy observed_at job_id n : always I (adhoc_job policy observed_at job_id n) (λ _, I).
Proof.
  apply always_then; [|intros [[] n']; [|apply return_kept]]; (apply except_keeps; [|intros e; apply return_kept]).
  - apply always_then; [apply kept_call; constructor|intros action]. destruct (negb _); [apply return_kept|].
    apply error_batch_kept. intros l. apply kept_call. constructor.
  - apply always_then; [apply kept_call; constructor|]. intros []; first [apply return_kept|by apply always_throw].
Qed.
Lemma scheduled_run_kept policy observed_at x n : always I (scheduled_run policy observed_at x n) (λ _, I).
Proof.
  apply always_then; [|intros [[] n']; [|apply return_kept]]; (apply except_keeps; [|intros e; apply return_kept]).
  - apply error_batch_kept. intros l. apply kept_call. constructor.
  - apply always_then; [apply kept_call; constructor|]. intros pruned. apply return_kept.
Qed.
Lemma adhoc_jobs_kept policy observed_at failed : always I (drain_adhoc_jobs policy observed_at failed) (λ _, I).
Proof. apply candidates_kept; [intros l; apply kept_call; constructor|intros x n; apply adhoc_job_kept]. Qed.
Lemma scheduled_runs_kept policy observed_at failed : always I (drain_scheduled_runs policy observed_at failed) (λ _, I).
Proof. apply candidates_kept; [intros l; apply kept_call; constructor|intros x n; apply scheduled_run_kept]. Qed.
Lemma artifact_phase_kept a now failed : always I (artifact_phase a now failed) (λ _, I).
Proof.
  apply except_keeps; [|intros e; apply return_kept]. apply always_then; [apply artifacts_kept|intros r; apply return_kept].
Qed.
End steps.

(** ** What is drained stays drained *)

(** Settled, unless the pass has noted that it is not through. *)
Definition settled_or (C : Cycle → Prop) k t : Prop := C (cycle t) ∨ held k (service t).
Definition drained k t : Prop := settled_or (λ c, saturated c = true) k t.
Definition come k t : Prop := settled_or (λ _, False) (nothing_until (due_time day k)) t.

Lemma limit_effect phase b t :
  let t' := (next_limit phase b t).2 in
  (service t' = service t ∨ service t' = (clock_read (service t)).2) ∧ (cycle t' = cycle t ∨ cycle t' = saturate (cycle t)).
Proof.
  cbn. unfold next_limit. destruct (b <? 1); [auto|]. unfold pbind at 1, _clock. cbn. repeat case_match; cbn; auto.
Qed.
Lemma record_effect phase count l more t (C : Cycle → Prop) :
  (∀ c, C c → C (saturate c)) → (∀ p n c, C c → C (add_items p n c)) →
  let t' := (record phase count l more t).2 in
  (service t' = service t ∨ service t' = (clock_read (service t)).2) ∧ (C (cycle t) → C (cycle t')).
Proof.
  intros HC Ha. cbn. unfold record. destruct (_ || _); [auto|]. unfold pbind at 1. cbn. destruct (count <? l).
  { destruct (default false more); [|split; [by left|by intros; apply Ha]]. unfold pbind, _clock. cbn.
    case_match; (split; [by right|]); intros Hcy; [by apply HC, Ha|by apply Ha]. }
  destruct (opt_eqb more false); [split; [by left|by intros; apply Ha]|]. set (t1 := set_cycle _ t). unfold pbind.
  destruct (limit_effect phase l t1) as [Hs Hc]. destruct (next_limit phase l t1) as [[n|e] t2]; cbn in *.
  - destruct (n =? 0); cbn; (split; [done|]); intros Hcy; destruct Hc as [->| ->]; auto.
  - split; [done|]. intros Hcy. destruct Hc as [->| ->]; auto.
Qed.

#[local] Instance settled_or_kept (C : Cycle → Prop) k :
  (∀ c, C c → C (saturate c)) → (∀ p n c, C c → C (add_items p n c)) → kept_by_steps (settled_or C k).
Proof.
  intros HC Ha. split.
  - intros A p Hp n t [Ht|Ht].
    + eapply wp_mono; [|apply (stored_keeps rely fails rely_cycle C p n t Ht)]. intros ? o t' ?. by left.
    + eapply wp_mono; [|apply (stored_lift (λ _, True) (held k) p (λ _, held k)); [by apply call_held|done]]. intros ? o t' [_ ?]. by right.
  - intros phase b. apply always_local. intros t Ht. destruct (limit_effect phase b t) as [Hs Hc]. destruct Ht as [Ht|Ht].
    + left. destruct Hc as [->| ->]; auto.
    + right. destruct Hs as [->| ->]; [done|by apply clock_held].
  - intros phase count l more. apply always_local. intros t Ht. destruct (record_effect phase count l more t C HC Ha) as [Hs Hc].
    destruct Ht as [Ht|Ht]; [left; auto|]. right. destruct Hs as [->| ->]; [done|by apply clock_held].
Qed.
#[local] Instance drained_kept_by k : kept_by_steps (drained k).
Proof. by apply settled_or_kept. Qed.
#[local] Instance come_kept_by k : kept_by_steps (come k).
Proof. by apply settled_or_kept. Qed.

Lemma come_time k t : come k t ↔ due_time day k <= utc_now (service t).
Proof.
  unfold come, settled_or, CleanupSpec.held. cbn. split; [by intros [|[? _]]|]. intros Ht. right. split; [done|]. apply settled_nothing.
Qed.

Lemma limit_saturates phase b t : (next_limit phase b t).1 = Ok 0 → saturated (cycle (next_limit phase b t).2) = true.
Proof.
  destruct (next_limit_cases phase b t) as [(-> & _)|[(_ & ->)|(l & -> & _ & Hl & _)]]; [done..|]. intros [= ->]. lia.
Qed.
Lemma record_stops phase count l t :
  (record phase count l None t).1 = Ok false →
  count < l ∧ service (record phase count l None t).2 = service t ∨ saturated (cycle (record phase count l None t).2) = true.
Proof.
  unfold record. destruct (_ || _); [done|]. unfold pbind at 1. cbn. destruct (count <? l) eqn:El; [intros _; left; split; [lia|done]|].
  cbn. set (t1 := set_cycle _ t). unfold pbind. pose proof (limit_saturates phase l t1) as Hs.
  destruct (next_limit phase l t1) as [[n|e] t2]; cbn in *; [|done]. destruct (n =? 0) eqn:En; [|done]. intros _. by right.
Qed.

Lemma local_keeps {A} I (m : prog (sweep S) exn A) t : always I (local m) (λ _, I) → I t → I (m t).2.
Proof. intros Ha Ht. specialize (Ha 0%nat t Ht). cbn in Ha. by destruct (m t) as [[]]. Qed.

Lemma drain_exhausts k phase b (op : Z → proc S Z) fuel total :
  (∀ l, 1 <= l → exhausts settled srely fails k l (op l)) →
  always (come k) (drain phase b op fuel total) (λ o t, come k t ∧ ∀ n, o = Ok (Some n) → drained k t).
Proof.
  intros Hop. revert total. induction fuel as [|fuel IH]; intros total; cbn [drain]; [by apply always_return|].
  eapply (always_bind _ _ _ _ _ (λ o t, come k t ∧ ∀ l, o = Ok l → 0 <= l ∧ (l = 0 → saturated (cycle t) = true))); [| |by intros e t [? _]].
  { apply always_local. intros t Ht. split; [by apply (local_keeps (come k)); [apply kept_limit|]|].
    intros l Hl. split; [|intros ->; by apply limit_saturates].
    destruct (next_limit_cases phase b t) as [(E & _)|[(E & _)|(l' & E & _ & Hl' & _)]]; rewrite E in Hl; simplify_eq; lia. }
  intros l. destruct (l =? 0) eqn:El.
  { apply always_return. intros t [Hc Hl]. split; [done|]. intros n _. left. apply (Hl l eq_refl). lia. }
  destruct (decide (1 <= l)) as [Hl1|Hl1]; [|intros n t [_ Hl]; specialize (Hl l eq_refl); lia].
  eapply (always_bind _ _ _ _ _ (λ o t, come k t ∧ ∀ c, o = Ok c → c < l → held k (service t))); [| |by intros e t [? _]].
  { eapply always_weaken; [apply (stored_lift (λ _, True) _ _ _ (Hop l Hl1))|by intros t [?%come_time _]|].
    intros o t (_ & Ht & Hs). split; [by apply come_time|]. intros c Ho Hc. split; [done|by apply (Hs c)]. }
  intros count. eapply (always_bind _ _ _ _ _ (λ o t, come k t ∧ (o = Ok false → drained k t))); [| |by intros e t [? _]].
  { apply always_local. intros t [Ht Hh]. split; [by apply (local_keeps (come k)); [apply kept_record|]|].
    intros [[Hc Hs]|Hs]%record_stops; [right; rewrite Hs; by apply (Hh count)|by left]. }
  intros [|]; [eapply always_pre; [apply IH|by intros t [? _]]|]. apply always_return. intros t [? Hd]. split; [done|]. intros n _. by apply Hd.
Qed.
End complete.

(** ** Failures are not forgotten *)

Section failures.
Context {S : Type} `{RetentionStores S} (rely : sweep S → sweep S → Prop) (fails : channel → Prop).
(** A part that answers without a failed phase was given none. *)
Definition remembers {A} (names : A → list string) (failed : list string) (p : proc (sweep S) A) : Prop :=
  always rely fails (λ _, True) p (λ o _, ∀ x, o = Ok x → names x = [] → failed = []).

Lemma remembers_return {A} (names : A → list string) failed (x : A) : (names x = [] → failed = []) → remembers names failed (Return x).
Proof. intros Hx. apply always_return. by intros t _ ? [= <-]. Qed.
Lemma remembers_then {A B} names failed (p : proc (sweep S) A) (k : A → proc (sweep S) B) :
  (∀ x, remembers names failed (k x)) → remembers names failed (bind p k).
Proof.
  intros Hk. unfold remembers. eapply (always_bind _ _ _ _ _ (λ _ _, True)); [|exact Hk|done].
  clear. intros n t _. generalize n, t. clear. induction p as [a|e|C m f IH|c sh C m f IH]; intros n t; cbn; auto.
Qed.
Lemma remembers_on {A B} (mid : A → list string) names failed (p : proc (sweep S) A) (k : A → proc (sweep S) B) :
  remembers mid failed p → (∀ x, remembers names (mid x) (k x)) → remembers names failed (bind p k).
Proof.
  intros Hp Hk. eapply (always_bind _ _ _ _ _ (λ o _, ∀ x, o = Ok x → mid x = [] → failed = [])); [exact Hp| |done].
  intros x n t Hx. eapply wp_mono; [|apply (Hk x); done]. cbn beta. intros ? o t' Ho y Hy Hn. apply (Hx x eq_refl). by apply (Ho y).
Qed.
Lemma remembers_except {A} names failed (p : proc (sweep S) A) h :
  remembers names failed p → (∀ e, remembers names failed (h e)) → remembers names failed (except p h).
Proof.
  intros Hp Hh. eapply always_except; [exact Hp|done| |done]. intros e. eapply always_pre; [apply Hh|done].
Qed.
Lemma not_empty (l : list string) x : l ++ [x] ≠ [].
Proof. by destruct l. Qed.

Lemma guarded_remembers {A} name (p : proc (sweep S) A) failed : remembers id failed (guarded name p failed).
Proof.
  apply remembers_except; [|intros e; apply remembers_return; by intros ?%not_empty]. apply remembers_then. intros x. by apply remembers_return.
Qed.
Lemma error_batch_remembers policy phase del n :
  remembers (λ x, failed_phases x.2) (failed_phases n) (error_batch policy phase del n).
Proof.
  apply remembers_then. intros l. destruct (l =? 0); [by apply remembers_return|].
  apply remembers_then. intros batch. apply remembers_then. intros b. apply remembers_return. by destruct batch.2, (_ =? 0).
Qed.
Lemma adhoc_job_remembers policy observed_at job_id n :
  remembers failed_phases (failed_phases n) (adhoc_job policy observed_at job_id n).
Proof.
  apply (remembers_on (λ x, failed_phases x.2)).
  - apply remembers_except; [|intros e; apply remembers_return; by intros ?%not_empty]. apply remembers_then. intros action.
    destruct (negb _); [by apply remembers_return|apply error_batch_remembers].
  - intros [[] n']; [|by apply remembers_return].
    apply remembers_except; [|intros e; apply remembers_return; by intros ?%not_empty]. apply remembers_then.
    intros []; first [by apply remembers_return|by apply always_throw].
Qed.
Lemma scheduled_run_remembers policy observed_at x n :
  remembers failed_phases (failed_phases n) (scheduled_run policy observed_at x n).
Proof.
  apply (remembers_on (λ x, failed_phases x.2)).
  - apply remembers_except; [apply error_batch_remembers|intros e; apply remembers_return; by intros ?%not_empty].
  - intros [[] n']; [|by apply remembers_return].
    apply remembers_except; [|intros e; apply remembers_return; by intros ?%not_empty]. apply remembers_then.
    intros pruned. apply remembers_return. by destruct pruned.1.
Qed.
Lemma candidates_remember {C} phase sel b (select : Z → proc S (list C)) visit failed :
  (∀ x n, remembers failed_phases (failed_phases n) (visit x n)) →
  remembers id failed (drain_candidates phase sel b select visit failed).
Proof.
  intros Hv. apply remembers_then. intros fuel. apply (remembers_on (λ o, default ["OutOfFuel"] o)); [|intros [x|]; [by apply remembers_return|by apply always_throw]].
  revert failed. induction fuel as [|fuel IH]; intros failed; cbn [candidate_rounds]; [by apply remembers_return|].
  apply remembers_then. intros l. destruct (l =? 0); [by apply remembers_return|].
  apply remembers_then. intros [l'|]; [|apply remembers_return; by intros ?%not_empty].
  apply remembers_then. intros full. apply (remembers_on failed_phases).
  - change failed with (failed_phases {| retry_pending := false; made_progress := false; failed_phases := failed |}) at 1.
    generalize {| retry_pending := false; made_progress := false; failed_phases := failed |}.
    induction l' as [|x l' IHl]; intros n; cbn; [by apply remembers_return|]. eapply remembers_on; [apply Hv|apply IHl].
  - intros n. destruct (_ && _); [by apply remembers_return|].
    apply IH.
Qed.
End failures.

(** ** The pass drains *)

Section drains.
Context {S : Type} `{RetentionStores S} {srely : S → S → Prop} {fails : channel → Prop} `{!RetentionContract S srely fails}.
Context (rely : sweep S → sweep S → Prop).
Context (rely_cycle : ∀ t t', rely t t' → cycle t' = cycle t).
Context (rely_service : ∀ t t', rely t t' → srely (service t) (service t')).
Implicit Types (t : sweep S) (k : due) (ks : list due) (phase : string) (failed : list string).
Abbreviation always := (always rely fails).
Abbreviation drained := (drained (fails := fails)).
Abbreviation come := (come (fails := fails)).
Abbreviation kept_by_steps := (kept_by_steps (fails := fails) rely).

Lemma any_end {A} (p : proc (sweep S) A) : always (λ _, True) p (λ _ _, True).
Proof. intros n t _. revert n t. induction p as [a|e|C m f IH|c sh C m f IH]; intros n t; cbn; auto. Qed.

(** On to the next part when a part answers. *)
Definition answers {A} (M : A → sweep S → Prop) (o : outcome exn A) t : Prop := ∀ x, o = Ok x → M x t.
Lemma then_answers {A B} (P : sweep S → Prop) M (M' : B → sweep S → Prop) (p : proc (sweep S) A) (f : A → proc (sweep S) B) :
  always P p (answers M) → (∀ x, always (M x) (f x) (answers M')) → always P (bind p f) (answers M').
Proof.
  intros Hp Hf. eapply always_bind; [exact Hp| |by intros e t _ x].
  intros x. eapply always_pre; [apply Hf|]. intros t Ht. by apply Ht.
Qed.
Lemma return_answers {A} (P : sweep S → Prop) (M : A → sweep S → Prop) (x : A) : (∀ t, P t → M x t) → always P (Return x) (answers M).
Proof. intros Hx. apply always_return. intros t Ht y [= <-]. by apply Hx. Qed.
Lemma throw_answers {A} (P : sweep S → Prop) (M : A → sweep S → Prop) e : always P (Throw e) (answers M).
Proof. by apply always_throw. Qed.

Fixpoint all_drained ks t : Prop := match ks with [] => True | k :: ks => drained k t ∧ all_drained ks t end.
(** The time [observed_at] has come, and what was drained is, unless a phase failed. *)
Definition so_far (observed_at : Z) ks failed t : Prop := come (nothing_until observed_at) t ∧ (failed = [] → all_drained ks t).

Lemma kept_and I I' : kept_by_steps I → kept_by_steps I' → kept_by_steps (λ t, I t ∧ I' t).
Proof. intros [Hc Hl Hr] [Hc' Hl' Hr']. split; intros; apply always_and; auto. Qed.
Lemma all_drained_kept ks : kept_by_steps (all_drained ks).
Proof.
  induction ks as [|k ks IH]; cbn; [split; intros; apply any_end|]. apply kept_and; [|exact IH].
  by apply settled_or_kept.
Qed.
Lemma so_far_kept observed_at ks failed : kept_by_steps (so_far observed_at ks failed).
Proof.
  apply kept_and; [by apply settled_or_kept|]. destruct failed as [|x failed].
  - destruct (all_drained_kept ks) as [Hc Hl Hr]. split; intros; (eapply always_weaken; [first [by apply Hc|apply Hl|apply Hr]|by auto|by auto]).
  - split; intros; (eapply always_weaken; [apply any_end|done|done]).
Qed.
#[local] Existing Instance so_far_kept.

Lemma come_earlier k observed_at t : due_time day k <= observed_at → come (nothing_until observed_at) t → come k t.
Proof. rewrite !come_time. cbn. lia. Qed.

(** A phase that does not forget failures and keeps what was drained. *)
Lemma kept_phase observed_at ks failed (p : proc (sweep S) (list string)) :
  always (so_far observed_at ks failed) p (λ _, so_far observed_at ks failed) → remembers rely fails id failed p →
  always (so_far observed_at ks failed) p (answers (so_far observed_at ks)).
Proof.
  intros Hk Hr. eapply always_weaken; [apply (always_and _ _ _ _ _ _ _ Hk Hr)|by auto|].
  intros o t [[Hc Hd] Ho] l El. split; [done|]. intros Hl. apply Hd. by apply (Ho l El).
Qed.

Lemma count_phase observed_at ks k name phase b op failed :
  due_time day k <= observed_at → (∀ l, store_call _ (op l)) → (∀ l, 1 <= l → exhausts settled srely fails k l (op l)) →
  always (so_far observed_at ks failed) (guarded name (_drain_count_phase phase b op) failed) (answers (so_far observed_at (k :: ks))).
Proof.
  intros Hk Hcall Hop.
  assert (always (so_far observed_at ks failed) (_drain_count_phase phase b op)
    (λ o t, so_far observed_at ks failed t ∧ answers (λ _, drained k) o t)) as Hd.
  { eapply always_weaken; [apply (always_and _ _ (so_far observed_at ks failed) (come k) _ (λ _, so_far observed_at ks failed) (answers (λ _, drained k)))|..].
    - apply drained_kept; [apply _|intros l; apply kept_call; [apply _|apply Hcall]].
    - eapply (then_answers _ (λ _, come k)).
      + apply always_local. by intros t Ht x _.
      + intros fuel. eapply (then_answers _ (λ o t, ∀ n, o = Some n → drained k t)).
        * eapply always_weaken; [by apply (drain_exhausts rely rely_cycle rely_service k phase b op fuel 0)|done|].
          intros o t [_ Ho] x -> n ->. by apply (Ho n).
        * intros [n|]; [|apply throw_answers]. apply return_answers. intros t Ht. by apply (Ht n).
    - intros t Ht. split; [done|]. destruct Ht as [Hc _]. by eapply come_earlier.
    - done. }
  unfold guarded. eapply (always_except _ _ _ _ _ (λ o t, so_far observed_at ks failed t ∧ answers (λ l t, l = failed ∧ drained k t) o t)).
  - eapply always_bind; [exact Hd| |by intros e t [? _]]. intros n. apply always_return. intros t [Ht Hn]. split; [done|].
    intros l [= <-]. split; [done|by apply (Hn n)].
  - intros l t [[Hc Ht] Hl] l' [= <-]. destruct (Hl l eq_refl) as [-> Hdr]. split; [done|]. intros Hf. split; [done|by apply Ht].
  - intros e. apply return_answers. intros t [[Hc _] _]. split; [done|]. by intros ?%not_empty.
  - by intros t _ x.
Qed.

(** What a pass at a time is there to drain. *)
Definition dues (a : cleanup_arguments) (observed_at : Z) : list due :=
  match history_policy a with
  | Some policy => if job_store a && error_store a then [errors_until (before observed_at (error_retention_days policy))] else []
  | None => []
  end ++
  match webhook_outbox_store a, webhook_delivered_retention_days a, webhook_failed_retention_days a with
  | true, Some delivered, Some failed_days => [secrets_until (before observed_at delivered) (before observed_at failed_days)]
  | _, _, _ => []
  end ++
  if job_store a then [idempotency_until observed_at] else [].
(** No retention period is negative. *)
Definition looks_back (a : cleanup_arguments) : Prop := ∀ observed_at k, k ∈ dues a observed_at → due_time day k <= observed_at.

Lemma all_drained_app ks ks' t : all_drained ks t → all_drained ks' t → all_drained (ks ++ ks') t.
Proof. induction ks as [|k ks IH]; cbn; [done|]. intros [? ?] ?. auto. Qed.

Lemma history_drains a observed_at ks failed :
  looks_back a →
  always (so_far observed_at ks failed) (history_phase a observed_at failed)
    (answers (so_far observed_at (match history_policy a with
       | Some policy => if job_store a && error_store a then [errors_until (before observed_at (error_retention_days policy))] else []
       | None => [] end ++ ks))).
Proof.
  intros Hback. specialize (Hback observed_at). unfold dues in Hback. unfold history_phase.
  destruct (negb _); [apply throw_answers|]. destruct (history_policy a) as [policy|]; [|by apply return_answers].
  destruct (job_store a && error_store a); [|by apply return_answers]. cbn [app].
  set (k := errors_until _) in *. assert (due_time day k <= observed_at) as Hk by (apply Hback; set_solver).
  eapply (always_bind _ _ _ _ _ (λ o t, so_far observed_at ks failed t ∧ answers (so_far observed_at [k]) o t)); [| |by intros e t _ x].
  - eapply always_weaken; [apply (always_and _ _ (so_far observed_at ks failed) (so_far observed_at [] []) _ (λ _, so_far observed_at ks failed) (answers (so_far observed_at [k])))|..].
    + apply always_then; [apply guarded_kept, drained_kept; [apply _|intros l; apply kept_call; [apply _|constructor]]|intros f].
      apply always_then; [by apply adhoc_jobs_kept; apply _|intros f']. by apply scheduled_runs_kept; apply _.
    + eapply then_answers; [apply (count_phase observed_at [] k); [done|intros l; constructor|intros l Hl; by apply errors_exhausted]|intros f].
      eapply then_answers; [apply kept_phase; [by apply adhoc_jobs_kept; apply _|]|intros f'].
      { apply candidates_remember. intros x n. apply adhoc_job_remembers. }
      apply kept_phase; [by apply scheduled_runs_kept; apply _|]. apply candidates_remember. intros x n. apply scheduled_run_remembers.
    + intros t Ht. split; [done|]. by split; [apply Ht|].
    + done.
  - intros more. apply return_answers. intros t [[Hc Hd] Hm]. destruct (Hm more eq_refl) as [_ Hm'].
    split; [done|]. intros [Hf Hmore]%app_eq_nil. cbn. split; [by apply Hm'|by apply Hd].
Qed.

Lemma webhooks_drain a observed_at ks failed :
  looks_back a →
  always (so_far observed_at ks failed) (webhook_phase a observed_at failed)
    (answers (so_far observed_at (match webhook_outbox_store a, webhook_delivered_retention_days a, webhook_failed_retention_days a with
       | true, Some delivered, Some failed_days => [secrets_until (before observed_at delivered) (before observed_at failed_days)]
       | _, _, _ => [] end ++ ks))).
Proof.
  intros Hback. specialize (Hback observed_at). unfold dues in Hback. unfold webhook_phase.
  destruct (webhook_outbox_store a); [|by apply return_answers].
  destruct (webhook_delivered_retention_days a), (webhook_failed_retention_days a); try apply throw_answers.
  apply count_phase; [apply Hback; set_solver|intros l; constructor|intros l Hl; by apply secrets_exhausted].
Qed.

Lemma saturated_new a t : saturated (cycle (new_cycle (cycle_max_items_per_phase a) (cycle_max_seconds a) t).2) = false ∨
  (new_cycle (cycle_max_items_per_phase a) (cycle_max_seconds a) t).1 = Raise (Broken "ValueError").
Proof. unfold new_cycle. destruct (_ <? 1); [by right|]. destruct (_ <=? 0); [by right|by left]. Qed.

(** The time read in the middle of the pass, or the time that was given. *)
Definition pass_time (started : Z) (now : option Z) (observed_at : Z) : Prop :=
  match now with Some x => observed_at = x | None => started <= observed_at end.

Lemma phases_drain a now started :
  looks_back a → (∀ x, now = Some x → x <= started) →
  always (come (nothing_until started)) (cleanup_phases a now)
    (answers (λ failed t, ∃ observed_at, pass_time started now observed_at ∧ so_far observed_at (dues a observed_at) failed t)).
Proof.
  intros Hback Hnow. unfold cleanup_phases.
  assert (∀ name phase b op (failed : list string), (∀ l, store_call _ (op l)) →
    always (so_far started [] failed) (guarded name (_drain_count_phase phase b op) failed) (answers (so_far started []))) as Hg.
  { intros name phase b op failed Hcall. apply kept_phase; [|apply guarded_remembers].
    apply guarded_kept, drained_kept; [apply _|intros l; apply kept_call; [apply _|apply Hcall]]. }
  eapply always_pre; [|intros t Ht; exact (conj Ht (λ _ : [] = [], I) : so_far started [] [] t)].
  eapply then_answers; [apply Hg; constructor|intros f1]. eapply then_answers; [apply Hg; constructor|intros f2].
  eapply then_answers; [apply kept_phase; [apply artifact_phase_kept; apply _|]|intros f3].
  { apply remembers_except; [|intros e; apply remembers_return; by intros ?%not_empty]. apply remembers_then. intros r.
    apply remembers_return. case_bool_decide; [done|by intros ?%not_empty]. }
  eapply (then_answers _ (λ today t, started <= today ∧ so_far (default today now) [] f3 t)).
  { apply always_local. intros t [Hc _] x [= <-]. apply come_time in Hc. cbn in Hc. split; [done|].
    split; [|done]. apply come_time. cbn. destruct now as [x|]; cbn; [|lia]. specialize (Hnow x eq_refl). lia. }
  intros today. cbv zeta. set (observed_at := default today now).
  eapply (always_bind _ _ _ _ _ (λ o t, started <= today ∧ answers (so_far observed_at (if job_store a then [idempotency_until observed_at] else [])) o t));
    [| |by intros e t _ x].
  { intros n t [Hs Ht]. eapply wp_mono; [|refine ((_ : always (so_far observed_at [] f3) _ (answers (so_far observed_at (if job_store a then [idempotency_until observed_at] else [])))) n t Ht)].
    - by intros ? o t' Ho.
    - destruct (job_store a); [|by apply return_answers].
      apply count_phase; [done|intros l; constructor|intros l Hl; by apply idempotency_exhausted]. }
  intros f4 n t [Hs Ht]. revert n t Ht.
  cut (always (so_far observed_at (if job_store a then [idempotency_until observed_at] else []) f4)
    (let* failed := webhook_phase a observed_at f4 in history_phase a observed_at failed) (answers (so_far observed_at (dues a observed_at)))).
  { intros Ha n t Ht. eapply wp_mono; [|apply Ha; by apply Ht]. cbn beta. intros ? o t' Ho x Hx. exists observed_at.
    split; [|by apply Ho]. unfold pass_time, observed_at. by destruct now. }
  eapply then_answers; [by apply webhooks_drain|intros f5]. by apply history_drains.
Qed.

(** A pass that completes unsaturated has left nothing that was due. *)
Lemma unsaturated_is_settled n a now t outcome t' :
  looks_back a → (∀ x, now = Some x → x <= utc_now (service t)) →
  runs rely fails n (run_cleanup a now) t (Ok outcome) t' → o_saturated outcome = false →
  ∃ observed_at, pass_time (utc_now (service t)) now observed_at ∧ observed_at <= utc_now (service t') ∧
    Forall (λ k, settled k (service t')) (dues a observed_at).
Proof.
  intros Hback Hnow Hrun Hsat. set (started := utc_now (service t)) in *.
  assert (answers (λ outcome t', o_saturated outcome = saturated (cycle t') ∧
    ∃ observed_at, pass_time started now observed_at ∧ so_far observed_at (dues a observed_at) [] t') (Ok outcome) t') as Ho.
  { refine (always_runs rely fails n (λ t', t' = t) (run_cleanup a now) _ t _ t' _ eq_refl Hrun). unfold run_cleanup.
    eapply (then_answers _ (λ _, come (nothing_until started))).
    - apply always_local. intros ? -> x Hx. apply come_time. cbn. unfold new_cycle in *.
      destruct (_ <? 1); [done|]. destruct (_ <=? 0); [done|]. cbn.
      refine (proj1 (clock_held (nothing_until started) (service t) _)). split; [done|apply settled_nothing].
    - intros u. eapply then_answers; [by apply phases_drain|]. intros [|x l]; [|apply throw_answers].
      eapply (then_answers _ (λ c t, c = cycle t ∧ ∃ observed_at, pass_time started now observed_at ∧ so_far observed_at (dues a observed_at) [] t)); [apply always_local; intros t1 Ht1 x [= <-]; split; [done|exact Ht1]|].
      intros c. apply return_answers. intros t1 [-> Ht1]. split; [done|exact Ht1]. }
  destruct (Ho outcome eq_refl) as (Hsame & observed_at & Hat & Hc & Hd). specialize (Hd eq_refl). exists observed_at.
  split_and!; [done|by apply come_time in Hc|]. rewrite Hsame in Hsat. clear -Hd Hsat.
  induction (dues a observed_at) as [|k ks IH]; [done|]. destruct Hd as [[Hs|[_ Hk]] Hd]; [congruence|]. constructor; auto.
Qed.
End drains.
