(* ===== verification/CleanupHost.v ===== *)
(** * Cleanup of the real stores

    The calls of a cleanup pass on the host: the job store and the outbox in [jobs.db], the
    error store, the result store; and that they honour the contract cleanup relies on, with what
    that means for a pass over them. *)

From S2P Require Import Prelude.
From S2P Require Import Paths.
From S2P Require Import Queue.
From S2P Require Import Envelope.
From S2P Require Import Rows.
From S2P Require Import JobDb.
From S2P Require Import JobModel.
From S2P Require Import Tx.
From S2P Require Import TxStore.
From S2P Require Import Json.
From S2P Require Import JsonEncoding.
From S2P Require Import JobDeletion.
From S2P Require Import JobRetention.
From S2P Require Import JobStore.
From S2P Require Import Outbox.
From S2P Require Import OutboxSpec.
From S2P Require Import System.
From S2P Require Import Samples.
From S2P Require Import ScrubSpec.
From S2P Require Import LocalResultsSpec.
From S2P Require Import Artifacts.
From S2P Require Import ArtifactsSpec.
From S2P Require Import LocalResults.
From S2P Require Import Proc.
From S2P Require Import Models.
From S2P Require Import ErrorStore.
From S2P Require Import Worker.
From S2P Require Import Service.
From S2P Require Import ResultClients.
From S2P Require Import Cleanup.
From S2P Require Import CleanupSpec.
Open Scope Z_scope.

Section host.
Context {Q A : Type} `{Vault} `{JsonText} `{ErrorText} `{ResultSettings} `{JsonReader} `{Printable}.
(** How many looks at the clock of the reconciliation pass before a deadline. *)
Context (looks : Z → host Q archive A → option nat).
Implicit Types (h : host Q archive A) (jid rid : string).

(** A query of the job store. *)
Definition job_query {B} (f : DB → outcome store_error B) : proc (host Q archive A) B :=
  await JobChannel (λ h, (in_store (f (db (stores h))), h)).
(** A call of the result store works on the archive of the host. *)
Definition result_call {B} (p : proc archive B) : proc (host Q archive A) B := zoom artifacts set_artifacts p.
Definition natural (p : proc (host Q archive A) nat) : proc (host Q archive A) Z :=
  let* n := p in Return (Z.of_nat n).
Definition error_batch_call (m : errors_db → outcome store_error (nat * bool) * errors_db) : proc (host Q archive A) (Z * bool) :=
  let* batch := error_call m in Return (Z.of_nat batch.1, batch.2).

(** A day of the clock. *)
Definition one_day : Z := LocalResults.SECONDS_PER_DAY * second.

#[export] Program Instance host_retention : RetentionStores (host Q archive A) := {|
  clock_read h := (monotonic_clock h, h);
  utc_now := clock;
  day := one_day;
  delete_expired days limit := result_call (LocalResults.delete_expired days (Z.to_nat limit));
  prune_excess_per_job n limit := result_call (LocalResults.prune_excess_per_job (Z.to_nat n) (Z.to_nat limit));
  reconcile_artifacts grace dry now batch metadata_limit filesystem_limit deadline :=
    do* update (λ h, set_artifacts (set_checks_left (looks deadline h) (artifacts h)) h) in
    result_call (Artifacts.reconcile_artifacts grace dry now batch (Some metadata_limit) (Some filesystem_limit));
  delete_expired_idempotency_records time limit :=
    job_call (JobStore.delete_expired_idempotency_records time (Z.to_nat limit));
  scrub_terminal_deliveries delivered_before failed_before time limit :=
    let* counts := job_call (Outbox.scrub_terminal_deliveries delivered_before failed_before time (Z.to_nat limit)) in
    Return (Z.of_nat counts.1, Z.of_nat counts.2);
  delete_expired_errors time limit := natural (error_call (ErrorStore.delete_expired_errors time (Z.to_nat limit)));
  delete_errors_for_job_batch jid limit := error_batch_call (ErrorStore.delete_errors_for_job_batch jid (Z.to_nat limit));
  delete_errors_for_run_batch rid limit := error_batch_call (ErrorStore.delete_errors_for_run_batch rid (Z.to_nat limit));
  list_adhoc_jobs_for_retention expired observed tombstone limit :=
    job_query (JobRetention.list_adhoc_jobs_for_retention expired observed tombstone (Z.to_nat limit));
  reserve_job_deletion jid results time :=
    let* o := job_call (JobDeletion.reserve_job_deletion jid results time) in Return (dr_action o);
  finalize_job_deletion jid results time := job_call (JobDeletion.finalize_job_deletion jid results (Some time));
  list_scheduled_runs_for_retention expired tombstone n limit :=
    job_query (JobRetention.list_scheduled_runs_for_retention expired tombstone n (Z.to_nat limit));
  prune_scheduled_run_for_retention jid rid expired tombstone n :=
    job_call (JobRetention.prune_scheduled_run_for_retention jid rid expired tombstone n);
  sleep d := Service.sleep d |}.
Next Obligation. done. Qed.

(** ** What is due in the stores *)

Definition db_settled (k : due) (d : DB) : Prop :=
  match k with
  | idempotency_until time => ∀ key i, scrape_idempotency d !! key = Some i → time < i_expires_at i
  | secrets_until delivered_before failed_before =>
      ∀ id w, webhook_deliveries d !! id = Some w → scrub_eligible delivered_before failed_before w = false
  | _ => True
  end.
Definition errors_settled (k : due) (e : errors_db) : Prop :=
  match k with errors_until time => ∀ id r, error_rows e !! id = Some r → time < e_timestamp r | _ => True end.
Definition host_settled (k : due) h : Prop := db_settled k (db (stores h)) ∧ errors_settled k (errors h).

(** When a delivery was delivered or given up. *)
Definition finished_at (w : WebhookRow) : option Z :=
  match w_status w with
  | Delivery.delivered => w_delivered_at w
  | Delivery.failed => w_failed_at w
  | _ => None
  end.

(** The rest of the service, between two steps of the pass: time does not go back, and what
    it writes is news. A record of a submission expires later than now; a delivery that it
    finishes and an error that it logs happened less than a day ago (a worker logs the errors
    of a run after the attempts they are stamped with). It may remove and scrub at will. *)
Record host_rely h h' : Prop := {
  hr_clock : clock h <= clock h';
  hr_records key i : scrape_idempotency (db (stores h')) !! key = Some i →
    scrape_idempotency (db (stores h)) !! key = Some i ∨ clock h < i_expires_at i;
  hr_deliveries id w t : webhook_deliveries (db (stores h')) !! id = Some w →
    w_scrubbed_at w = None → finished_at w = Some t →
    webhook_deliveries (db (stores h)) !! id = Some w ∨ clock h < t + one_day;
  hr_errors id r : error_rows (errors h') !! id = Some r →
    error_rows (errors h) !! id = Some r ∨ clock h < e_timestamp r + one_day;
}.

Lemma eligible_finished delivered_before failed_before w :
  scrub_eligible delivered_before failed_before w = true →
  w_scrubbed_at w = None ∧ ∃ t, finished_at w = Some t ∧ t <= Z.max delivered_before failed_before.
Proof.
  unfold scrub_eligible, finished_at, opt_leb. rewrite andb_true_iff, orb_true_iff, !andb_true_iff, !bool_decide_eq_true.
  intros [Hs [[-> Ht]|[-> Ht]]]; (split; [done|]); [destruct (w_delivered_at w) as [t|]|destruct (w_failed_at w) as [t|]];
    try done; exists t; (split; [done|lia]).
Qed.

(** What is settled for good stays so. *)
Lemma relied_on k h h' : host_rely h h' → due_time one_day k <= clock h → host_settled k h → host_settled k h'.
Proof.
  intros [_ Hi Hw He] Ht [Hd Hs]. split; destruct k as [time|time|a b|time]; try done; cbn [due_time db_settled errors_settled] in *.
  - intros key i [Hold|Hnew]%Hi; [by apply (Hd key)|lia].
  - intros id w Hrow. apply not_true_is_false. intros Hel. pose proof (eligible_finished _ _ _ Hel) as (Hn & t & Hf & Hle).
    destruct (Hw id w t Hrow Hn Hf) as [Hold|Hnew]; [by rewrite (Hd id w Hold) in Hel|lia].
  - intros id r [Hold|Hnew]%He; [by apply (Hs id)|lia].
Qed.

(** So do the calls of the service: a worker's errors, a new submission, a delivery. *)
Lemma log_relied errors h :
  Forall (λ e, clock h < er_timestamp e + one_day) errors →
  host_rely h (set_errors (ErrorStore.log_errors errors (Service.errors h)).2 h).
Proof.
  intros He. split; cbn; [lia|by left|by left|]. intros id r.
  assert (∀ d, error_rows (foldl insert_error d errors) !! id = Some r →
    error_rows d !! id = Some r ∨ clock h < e_timestamp r + one_day) as Hl.
  { induction He as [|e l Ht _ IH]; intros d; [by left|]. intros [Hr|Hr]%IH; [|by right]. cbn in Hr.
    apply lookup_insert_Some in Hr as [[_ <-]|[_ Hr]]; [by right|by left]. }
  unfold ErrorStore.log_errors. destruct errors; [by left|apply Hl].
Qed.
Lemma delivery_relied id t n k h :
  clock h < t + one_day →
  host_rely h (set_stores {| db := (Outbox.mark_delivered id t n k (db (stores h))).2; used := used (stores h) |} h).
Proof.
  intros Ht. unfold Outbox.mark_delivered, Outbox._pending_update. apply (by_tx _ _ (λ d, host_rely h (set_stores {| db := d; used := _ |} h))).
  txs; split; cbn; try lia; try (by left). intros id' x t'. rewrite lookup_insert_Some. intros [[<- <-]|[_ Hw]]; [|by left].
  unfold finished_at, Outbox.count_attempts. destruct (bool_decide _); cbn; intros _ [= <-]; by right.
Qed.

(** No record and no delivery is added. *)
Definition db_le (d d' : DB) : Prop :=
  scrape_idempotency d ⊆ scrape_idempotency d' ∧ webhook_deliveries d ⊆ webhook_deliveries d'.
Lemma db_le_refl d : db_le d d.
Proof. done. Qed.
Lemma db_settled_le k d d' : db_le d d' → db_settled k d' → db_settled k d.
Proof. intros [Hi Hw] Hs. destruct k; cbn in *; [done| | |done]; intros x y Hx; eapply Hs, lookup_weaken; eauto. Qed.

Ltac subsets := split; cbn; repeat first [done|apply map_filter_subseteq|etrans; [apply map_filter_subseteq|]].
Lemma reserve_le jid results time d : db_le (JobDeletion.reserve_job_deletion jid results time d).2 d.
Proof. apply (by_tx _ d (λ d', db_le d' d)). unfold complete_reservation. txs; by split. Qed.
Lemma finalize_le jid results time d : db_le (JobDeletion.finalize_job_deletion jid results time d).2 d.
Proof. apply (by_tx _ d (λ d', db_le d' d)). txs; try done. all: subsets. Qed.
Lemma prune_le jid rid expired tombstone n d :
  db_le (JobRetention.prune_scheduled_run_for_retention jid rid expired tombstone n d).2 d.
Proof.
  unfold JobRetention.prune_scheduled_run_for_retention. destruct (n <? 1); [done|].
  apply (by_tx _ d (λ d', db_le d' d)). txs; try done. all: subsets.
Qed.

Lemma expired_records time d :
  (JobStore.delete_expired_idempotency_records time 0 d).2 = d ∧
  ∀ limit, (0 < limit)%nat → db_le (JobStore.delete_expired_idempotency_records time limit d).2 d ∧
    ∀ n, (JobStore.delete_expired_idempotency_records time limit d).1 = Ok n → n < Z.of_nat limit →
      db_settled (idempotency_until time) (JobStore.delete_expired_idempotency_records time limit d).2.
Proof.
  split; [done|]. intros limit Hl. unfold JobStore.delete_expired_idempotency_records.
  replace (limit <? 1)%nat with false by (symmetry; apply Nat.ltb_ge; lia).
  match goal with |- context [transaction ?body d] =>
    apply (tx_transaction body d (λ r d', db_le d' d ∧ ∀ n, r = Ok n → _ → db_settled _ d')) end.
  txs. split; [subsets|]. intros n [= <-] Hn. cbn.
  unfold expired_idempotency in *. set (l := merge_sort _ _) in *. rewrite length_fmap, length_take in Hn.
  rewrite take_ge by lia. intros key i [Hi Hkeep]%map_lookup_filter_Some. cbn in Hkeep.
  apply negb_true_iff, bool_decide_eq_false in Hkeep. destruct (Z.le_gt_cases (i_expires_at i) time) as [Hle|]; [|lia].
  destruct Hkeep. apply list_elem_of_fmap. exists (key, i). split; [done|]. unfold l. rewrite merge_sort_Permutation.
  apply list_elem_of_filter. split; [done|]. by apply elem_of_map_to_list.
Qed.

Lemma scrub_frame a b time n d :
  scrape_idempotency (Outbox.scrub_terminal_deliveries a b time n d).2 = scrape_idempotency d.
Proof.
  unfold Outbox.scrub_terminal_deliveries. destruct (n <? 1)%nat; [done|].
  apply (by_tx _ d (λ d', scrape_idempotency d' = scrape_idempotency d)). txs.
  fold (selected scrub_key (scrub_eligible a b) n d).
  apply tx_scrub_rows; [by apply (selected_part_NoDup a b n d Delivery.delivered)|by apply selected_part_scrubbable|].
  apply tx_scrub_rows; [by apply (selected_part_NoDup a b n d Delivery.failed)| |by txs].
  intros id Hin. destruct (selected_part_scrubbable a b n d Delivery.failed id Hin) as (w & Hw & Hs).
  exists w. split; [|done]. cbn. rewrite (scrub_all_lookup _ _ _ _ w Hw), bool_decide_false; [done|].
  by apply selected_parts_disjoint.
Qed.
(** Every selected row is delivered or failed. *)
Lemma selected_length a b n d :
  let rows := selected scrub_key (scrub_eligible a b) n d in
  (length (of_status Delivery.delivered rows) + length (of_status Delivery.failed rows))%nat = length rows.
Proof.
  intros rows. assert (∀ x, x ∈ rows → w_status x.2 = Delivery.delivered ∨ w_status x.2 = Delivery.failed) as Hr.
  { intros [id w] Hx. apply selected_elem in Hx as [_ He]. unfold scrub_eligible in He.
    rewrite andb_true_iff, orb_true_iff, !andb_true_iff, !bool_decide_eq_true in He. cbn. naive_solver. }
  clearbody rows. unfold of_status. induction rows as [|x l IH]; [done|].
  rewrite !filter_cons. assert (∀ y, y ∈ l → y ∈ x :: l) as Hin by (intros; by apply elem_of_cons; right).
  specialize (IH (λ y Hy, Hr y (Hin y Hy))).
  destruct (Hr x (list_elem_of_here _ _)) as [E|E]; rewrite E.
  - rewrite decide_True, decide_False by done. cbn. lia.
  - rewrite decide_False, decide_True by done. cbn. lia.
Qed.

Lemma scrub_settles a b time n d :
  (∀ k, db_settled k d → db_settled k (Outbox.scrub_terminal_deliveries a b time n d).2) ∧
  ((0 < n)%nat → ∀ counts, (Outbox.scrub_terminal_deliveries a b time n d).1 = Ok counts → (counts.1 + counts.2 < n)%nat →
    db_settled (secrets_until a b) (Outbox.scrub_terminal_deliveries a b time n d).2).
Proof.
  destruct (decide (0 < n)%nat) as [Hn|Hn]; [|unfold Outbox.scrub_terminal_deliveries;
    replace (n <? 1)%nat with true by (symmetry; apply Nat.ltb_lt; lia); by split].
  destruct (scrub_erases_selected a b time n d Hn) as (Hc & Hrows & Hnone & Hlater).
  set (d' := (Outbox.scrub_terminal_deliveries a b time n d).2) in *. set (rows := selected _ _ _ _) in *.
  assert (∀ id w', webhook_deliveries d' !! id = Some w' → ∃ w, webhook_deliveries d !! id = Some w ∧
    w' = if bool_decide (id ∈ rows.*1) then scrub time w else w) as Hback.
  { intros id w' Hw'. destruct (webhook_deliveries d !! id) as [w|] eqn:Hw; [|by rewrite (Hnone id Hw) in Hw'].
    exists w. split; [done|]. rewrite (Hrows id w Hw) in Hw'. by simplify_eq. }
  assert (∀ x y w, scrub_eligible x y (scrub time w) = false) as Hscrubbed.
  { intros x y w. unfold scrub_eligible. rewrite bool_decide_false; [done|]. by destruct w. }
  split.
  - intros [| time'|x y|]; cbn; try done.
    + intros Hi. cut (scrape_idempotency d' = scrape_idempotency d); [by intros ->|]. apply scrub_frame.
    + intros Hs id w' (w & Hw & ->)%Hback. case_bool_decide; [apply Hscrubbed|by apply (Hs id)].
  - intros _ counts Ho Hlt. rewrite Hc in Ho. injection Ho as <-. cbn in Hlt.
    intros id w' (w & Hw & ->)%Hback. case_bool_decide as Hin; [apply Hscrubbed|].
    destruct (scrub_eligible a b w) eqn:He; [|done]. destruct (Hlater id w Hw He Hin) as [Hlen _].
    pose proof (selected_length a b n d) as Hp. cbv zeta in Hp. fold rows in Hp. lia.
Qed.
(** ** Errors *)

Lemma fewer_errors k P n e : errors_settled k e → errors_settled k (delete_oldest P n e).2.
Proof. destruct k; cbn; try done. intros Hs id r [Hr _]%map_lookup_filter_Some. by apply (Hs id). Qed.
Lemma oldest_all (P : ErrorRow → bool) n e id r :
  ((delete_oldest P n e).1 < n)%nat → error_rows (delete_oldest P n e).2 !! id = Some r → P r = false.
Proof.
  unfold delete_oldest. cbn. unfold oldest. set (l := merge_sort _ _). rewrite length_fmap, length_take. intros Hn.
  rewrite take_ge by lia. intros [Hr Hkeep]%map_lookup_filter_Some. cbn in Hkeep. apply negb_true_iff, bool_decide_eq_false in Hkeep.
  destruct (P r) eqn:HP; [|done]. destruct Hkeep. apply list_elem_of_fmap. exists (id, r). split; [done|]. unfold l.
  rewrite merge_sort_Permutation. apply list_elem_of_filter. split; [done|]. by apply elem_of_map_to_list.
Qed.

(** ** The contract *)

Section contract.
Context (fails : channel → Prop).
Abbreviation held := (held host_settled).
Abbreviation always := (always host_rely fails).

Lemma held_stable k : stable host_rely (held k).
Proof. intros h h' [Ht Hs] Hr. split; [pose proof (hr_clock _ _ Hr); unfold utc_now in *; cbn in *; lia|by apply (relied_on k h)]. Qed.
Lemma came_stable k : stable host_rely (λ h, due_time day k <= utc_now h).
Proof. intros h h' Ht Hr. pose proof (hr_clock _ _ Hr). unfold utc_now in *. cbn in *. lia. Qed.

(** A call on the databases alone. *)
Lemma held_call {B} ch (m : prog (host Q archive A) exn B) k :
  (∀ h, clock (m h).2 = clock h) → (∀ h, host_settled k h → host_settled k (m h).2) →
  always (held k) (await ch m) (λ _, held k).
Proof.
  intros Hc Hm. assert (∀ h, held k h → held k (m h).2) as Hh.
  { intros h [Ht Hs]. split; [unfold utc_now in *; cbn in *; by rewrite Hc|by apply Hm]. }
  apply always_await; [apply held_stable|done|]. intros h e Hs _. split; [done|by apply Hh].
Qed.
Lemma held_job {B} (m : JobDb.store B) k : (∀ d, db_settled k d → db_settled k (m d).2) → always (held k) (job_call m) (λ _, held k).
Proof. intros Hm. apply held_call; [done|]. intros h [Hd He]. split; [by apply Hm|done]. Qed.
Lemma held_errors {B} (m : errors_db → outcome store_error B * errors_db) k :
  (∀ e, errors_settled k e → errors_settled k (m e).2) → always (held k) (error_call m) (λ _, held k).
Proof. intros Hm. apply held_call; [done|]. intros h [Hd He]. split; [done|by apply Hm]. Qed.
Lemma held_return {B C} (p : proc (host Q archive A) B) (f : B → C) k :
  always (held k) p (λ _, held k) → always (held k) (let* x := p in Return (f x)) (λ _, held k).
Proof. intros Hp. apply always_then; [done|]. intros x. by apply always_return. Qed.
Lemma held_archive {B} (p : proc archive B) k : always (held k) (result_call p) (λ _, held k).
Proof.
  intros n h Hh. unfold result_call. revert n h Hh. induction p as [x|e|C m f IH|c sh C m f IH]; intros n h Hh; cbn; [done..|by apply IH|].
  intros h1 Hr. assert (held k h1) as H1h by exact (rtc_invariant host_rely (held k) (held_stable k) _ _ Hr Hh).
  split_and!; [by apply IH|intros n' _ h2 [->| ->]; by apply IH|intros _ e h2 [->| ->]; by apply IH].
Qed.

Lemma error_batch_held column value l e k : errors_settled k e → errors_settled k (_delete_error_batch column value l e).2.
Proof.
  intros Hs. unfold _delete_error_batch. destruct (l <? 1)%nat; [done|]. by apply fewer_errors.
Qed.

Lemma every_call_held k B (p : proc (host Q archive A) B) : store_call B p → always (held k) p (λ _, held k).
Proof.
  destruct 1.
  - apply held_archive.
  - apply held_archive.
  - refine (always_then host_rely fails (held k) (update _) (λ _, result_call _) _ (λ _, held_archive _ k)).
    apply always_local. by intros h Hh.
  - apply held_job. intros d Hd. destruct (expired_records time d) as [H0d Hl].
    destruct (decide (0 < Z.to_nat limit)%nat) as [Hp|Hp].
    + eapply db_settled_le; [by apply Hl|done].
    + replace (Z.to_nat limit) with 0%nat by lia. by rewrite H0d.
  - apply held_return, held_return, held_job. intros d. apply scrub_settles.
  - apply held_return, held_errors. intros e He. unfold ErrorStore.delete_expired_errors. destruct (_ <? 1)%nat; [done|]. by apply fewer_errors.
  - apply held_return, held_errors. intros e. apply error_batch_held.
  - apply held_return, held_errors. intros e. apply error_batch_held.
  - by apply held_call.
  - apply held_return, held_job. intros d Hd. eapply db_settled_le; [apply reserve_le|done].
  - apply held_job. intros d Hd. eapply db_settled_le; [apply finalize_le|done].
  - by apply held_call.
  - apply held_job. intros d Hd. eapply db_settled_le; [apply prune_le|done].
Qed.

(** A call whose answer is below the limit leaves nothing. *)
Definition leaves_nothing {B} (f : B → Z) k (limit : Z) (o : outcome exn B) h : Prop :=
  due_time day k <= utc_now h ∧ ∀ x, o = Ok x → f x < limit → host_settled k h.
Lemma call_exhausts ch {B} (m : prog (host Q archive A) exn B) (f : B → Z) k limit :
  (∀ h, clock (m h).2 = clock h) → (∀ h x, (m h).1 = Ok x → f x < limit → host_settled k (m h).2) →
  always (λ h, due_time day k <= utc_now h) (await ch m) (leaves_nothing f k limit).
Proof.
  intros Hc Hm. apply always_await; [apply came_stable|..].
  - intros h Ht. split; [unfold utc_now in *; cbn in *; by rewrite Hc|]. intros x. apply Hm.
  - intros h e Ht _. assert (due_time day k <= utc_now (m h).2) by (unfold utc_now in *; cbn in *; by rewrite Hc). done.
Qed.
Lemma return_exhausts {B C} (p : proc (host Q archive A) B) (g : B → C) (f : C → Z) k limit :
  always (λ h, due_time day k <= utc_now h) p (leaves_nothing (λ x, f (g x)) k limit) →
  always (λ h, due_time day k <= utc_now h) (let* x := p in Return (g x)) (leaves_nothing f k limit).
Proof.
  intros Hp. eapply always_bind; [exact Hp| |].
  - intros x. apply always_return. intros h [Ht Hx]. split; [done|]. intros ? [= <-]. by apply Hx.
  - intros e h [Ht _]. by split.
Qed.

#[export] Instance host_contract : RetentionContract (host Q archive A) host_rely fails.
Proof.
  refine {| settled := host_settled |}.
  - intros time h. by split.
  - apply held_stable.
  - done.
  - apply every_call_held.
  - intros time limit Hl. apply (call_exhausts _ _ id); [done|]. intros h x. cbn. unfold in_store.
    destruct (JobStore.delete_expired_idempotency_records time (Z.to_nat limit) (db (stores h))).1 as [n|e] eqn:E; [|done].
    intros [= <-] Hn. split; [|done]. apply (proj2 (expired_records time _) (Z.to_nat limit)) with (n := n); [lia|done|unfold id in Hn; lia].
  - intros a b time limit Hl. do 2 apply return_exhausts. apply call_exhausts; [done|]. intros h x. cbn. unfold in_store.
    destruct (Outbox.scrub_terminal_deliveries a b time (Z.to_nat limit) (db (stores h))).1 as [n|e] eqn:E; [|done].
    intros [= <-] Hn. split; [|done]. apply (proj2 (scrub_settles a b time (Z.to_nat limit) _)) with (counts := n); [lia|done|lia].
  - intros time limit Hl. apply return_exhausts, call_exhausts; [done|]. intros h x. cbn. unfold in_store, ErrorStore.delete_expired_errors.
    destruct (Z.to_nat limit <? 1)%nat; [done|]. intros [= <-] Hn. split; [done|]. cbn. intros id r Hr.
    assert ((e_timestamp r <=? time) = false) as Ht; [|lia].
    eapply (oldest_all (λ r, e_timestamp r <=? time) (Z.to_nat limit) (errors h) id); [|exact Hr]. cbn in *. lia.
Defined.
End contract.

(** ** A pass over the stores *)

(** The retention periods that the settings allow ([Field(ge=1)]). *)
Definition keeps_a_day (a : cleanup_arguments) : Prop :=
  (∀ policy, history_policy a = Some policy → 1 <= error_retention_days policy) ∧
  (∀ days, webhook_delivered_retention_days a = Some days → 1 <= days) ∧
  (∀ days, webhook_failed_retention_days a = Some days → 1 <= days).
Lemma a_day_back a : 0 <= second → keeps_a_day a → looks_back (S := host Q archive A) a.
Proof.
  intros Hs (He & Hd & Hf) time k. change day with one_day. unfold one_day, LocalResults.SECONDS_PER_DAY, dues. rewrite !elem_of_app. intros [Hk|[Hk|Hk]].
  - destruct (history_policy a) as [policy|]; [|by apply elem_of_nil in Hk]. specialize (He policy eq_refl).
    destruct (_ && _); [|by apply elem_of_nil in Hk]. apply list_elem_of_singleton in Hk as ->. cbn [due_time].
    unfold before. change day with one_day. unfold one_day, LocalResults.SECONDS_PER_DAY. nia.
  - destruct (webhook_outbox_store a); [|by apply elem_of_nil in Hk].
    destruct (webhook_delivered_retention_days a) as [d|]; [|by apply elem_of_nil in Hk]. specialize (Hd d eq_refl).
    destruct (webhook_failed_retention_days a) as [f|]; [|by apply elem_of_nil in Hk]. specialize (Hf f eq_refl).
    apply list_elem_of_singleton in Hk as ->. cbn [due_time]. unfold before. change day with one_day.
    unfold one_day, LocalResults.SECONDS_PER_DAY. nia.
  - destruct (job_store a); [|by apply elem_of_nil in Hk]. apply list_elem_of_singleton in Hk as ->. cbn. lia.
Qed.

(** What others do between two steps of the pass: they leave its own counters alone. *)
Definition pass_rely (t t' : sweep (host Q archive A)) : Prop :=
  cycle t' = cycle t ∧ host_rely (service t) (service t').

(** [C35] A pass that completes without reporting itself saturated was thorough: at the time
    it worked with (the time it was given, which has come, or one read while it ran), when it
    completes, no idempotency record has expired, no finished delivery past its retention has
    unscrubbed secrets, and no error record is older than its retention, in each store the
    pass was given. It assumes retention periods of at least a day and that what the rest of
    the service writes meanwhile is news: new idempotency records expire later than the
    moment they appear, and errors and finished deliveries are stored less than a day after
    the time they are stamped with. The rest may do anything else in between, and any call
    may fail. *)
Theorem unsaturated_pass_is_thorough fails n a now t outcome t' :
  0 <= second → keeps_a_day a → (∀ x, now = Some x → x <= clock (service t)) →
  runs pass_rely fails n (run_cleanup a now) t (Ok outcome) t' → o_saturated outcome = false →
  ∃ observed_at, pass_time (clock (service t)) now observed_at ∧ observed_at <= clock (service t') ∧
    Forall (λ k, host_settled k (service t')) (dues a observed_at).
Proof.
  intros Hs Ha Hnow Hr Hsat. exact (unsaturated_is_settled (srely := host_rely) (fails := fails) pass_rely
    ltac:(by intros ? ? [? _]) ltac:(by intros ? ? [_ ?]) n a now t outcome t' (a_day_back a Hs Ha) Hnow Hr Hsat).
Qed.
End host.

(** ** A sample pass *)

Definition sample_records : gmap (string * string) IdempotencyRow :=
  <[("s", "new") := {| i_request_hash := "h"; i_job_id := "j2"; i_run_id := "r2"; i_response_mode := "async";
                       i_created_at := 0; i_expires_at := 200000 |}]>
    {[("s", "old") := {| i_request_hash := "h"; i_job_id := "j"; i_run_id := "r"; i_response_mode := "async";
                         i_created_at := 0; i_expires_at := 9 |}]}.
(** Old results, a folder that no row names, old errors, secrets and records. *)
Definition cluttered_host : host unit archive unit := {|
  stores := {| db := set_scrape_idempotency sample_records sample_outbox; used := ∅ |};
  clock := 100000; monotonic_clock := 0; pool := tt; artifacts := littered;
  errors := (ErrorStore.log_errors sample_errors no_errors).2; cron := tt; failures := ∅; healthy_at := None |}.
#[export] Instance sample_retention : RetentionStores (host unit archive unit) := host_retention (λ _ _, None).

Definition sample_policy : HistoryRetentionPolicy := {|
  adhoc_job_retention_days := 1; scheduled_run_retention_days := 1; scheduled_run_retention_count := 2;
  error_retention_days := 1; webhook_tombstone_retention_days := 1;
  adhoc_job_batch_size := 5; scheduled_run_batch_size := 5; error_batch_size := 1 |}.
Definition sample_arguments : cleanup_arguments := {|
  retention_days := 1; max_results_per_job := 5; webhook_outbox_store := true;
  webhook_delivered_retention_days := Some 1; webhook_failed_retention_days := Some 1; webhook_cleanup_batch_size := 1;
  result_cleanup_batch_size := 2; orphan_grace_seconds := 10; reconciliation_dry_run := false; job_store := true;
  idempotency_cleanup_batch_size := 3; error_store := true; history_policy := Some sample_policy;
  cycle_max_items_per_phase := 4; cycle_max_seconds := 60 |}.
Definition sample_sweep : sweep (host unit archive unit) := {|
  service := cluttered_host;
  cycle := {| max_items_per_phase := 4; max_seconds := 1; _started := 0; _phase_items := ∅; saturated := true |};
  loop_monitor := None; last_success := None |}.
Definition swept : outcome exn CleanupCycleOutcome * sweep (host unit archive unit) :=
  exec (run_cleanup sample_arguments (Some 100000)) sample_sweep.
Definition thorough_outcome : CleanupCycleOutcome := {| o_saturated := false; processed_items := 10 |}.

Lemma swept_runs : runs (λ _ _, False) (λ _, False) 0 (run_cleanup sample_arguments (Some 100000)) sample_sweep (Ok thorough_outcome) swept.2.
Proof.
  assert (swept.1 = Ok thorough_outcome) as E by by vm_compute. rewrite <- E.
  exact (exec_runs (λ _ _, False) (λ _, False) 0 (run_cleanup sample_arguments (Some 100000)) sample_sweep).
Qed.

Lemma swept_undisturbed :
  runs pass_rely (λ _, False) 0 (run_cleanup sample_arguments (Some 100000)) sample_sweep (Ok thorough_outcome) swept.2.
Proof.
  assert (swept.1 = Ok thorough_outcome) as E by by vm_compute. rewrite <- E.
  exact (exec_runs _ (λ _, False) 0 (run_cleanup sample_arguments (Some 100000)) sample_sweep).
Qed.

Lemma cleanup_within_budget_witness :
  (∀ phase, 0 <= items_of (cycle swept.2) phase <= 4) ∧ processed_items thorough_outcome <= 44.
Proof.
  assert (1 <= cycle_max_items_per_phase sample_arguments) as Hm by done.
  assert (0 < cycle_max_seconds sample_arguments) as Hs by done.
  destruct (cleanup_within_budget (λ _ _, False) (λ _, False) ltac:(done) 0 sample_arguments (Some 100000) sample_sweep
    (Ok thorough_outcome) swept.2 Hm Hs swept_runs) as [Hi Ho].
  split; [exact Hi|]. exact (proj1 (proj2 (Ho thorough_outcome eq_refl))).
Defined.

Lemma cleanup_loops_end_witness :
  (exec (drain "expired_errors" 1 (Cleanup.delete_expired_errors 13600) 5 0) sample_sweep).1 ≠ Ok None.
Proof.
  assert (within 4 (cycle sample_sweep)) as Hw.
  { split_and!; [done| |by intros phase n]. intros phase. unfold items_of. cbn. rewrite lookup_empty. cbn. lia. }
  refine (proj1 (cleanup_loops_end (λ _ _, False) (λ _, False) ltac:(done) 0 4 sample_sweep Hw) "expired_errors" 1
    (Cleanup.delete_expired_errors 13600) _ _ _ (exec_runs (λ _ _, False) (λ _, False) 0 (drain "expired_errors" 1 (Cleanup.delete_expired_errors 13600) 5 0) sample_sweep)).
  by constructor.
Defined.

Lemma unsaturated_pass_is_thorough_witness :
  ¬ host_settled (errors_until 13600) cluttered_host ∧ ¬ host_settled (idempotency_until 100000) cluttered_host ∧
  Forall (λ k, host_settled k (service swept.2)) (dues sample_arguments 100000).
Proof.
  split; [|split].
  - intros [_ He]. specialize (He 1 (error_row (sample_error "a" 5 (Some sample_selectors))) eq_refl). by vm_compute in He.
  - intros [Hd _]. assert (scrape_idempotency (db (stores cluttered_host)) !! ("s", "old") = sample_records !! ("s", "old")) as E by done.
    specialize (Hd ("s", "old") _ E). by vm_compute in Hd.
  - assert (0 <= second) as Hs by done.
    assert (keeps_a_day sample_arguments) as Ha by (split_and!; intros ? [= <-]; done).
    destruct (unsaturated_pass_is_thorough (λ _ _, None) (λ _, False) 0 sample_arguments (Some 100000) sample_sweep
      thorough_outcome swept.2 Hs Ha ltac:(by intros x [= <-]) swept_undisturbed eq_refl) as (time & Ht & _ & Hall).
    cbn in Ht. subst time. exact Hall.
Defined.
