(* ===== verification/Proxy.v ===== *)
(** * Proxy URLs ([engine/proxy.py])

    Which proxy URLs a configuration may name, the session placeholder in their
    credentials, and the proxy that a target uses. *)

From S2P Require Import Prelude.
From S2P Require Import Text.
From S2P Require Import Unicode.
From S2P Require Import Redaction.
From S2P Require Import SensitiveData.
From S2P Require Import IpPolicy.
From S2P Require Import UrlGuard.
Open Scope Z_scope.

Definition _DIRECT_PROXY : text := txt "direct".
Definition _ALLOWED_PROXY_SCHEMES : list text := [txt "http"; txt "https"; txt "socks5"].
Definition PROXY_SESSION_PLACEHOLDER : text := txt "{session}".

(** [text.replace(old, new)] and [text.count(old)] for a non-empty [old]. Every step drops a
    character, so the length of the text is enough fuel. *)
Fixpoint substitute_from (fuel : nat) (old new t : text) : text * nat :=
  match fuel, t with
  | Datatypes.S fuel, a :: t' =>
      match cut_prefix old t with
      | Some rest => let '(r, n) := substitute_from fuel old new rest in (new ++ r, Datatypes.S n)
      | None => let '(r, n) := substitute_from fuel old new t' in (a :: r, n)
      end
  | _, _ => (t, O)
  end.
Definition substitute (old new t : text) : text := (substitute_from (length t) old new t).1.
Definition occurrence_count (old t : text) : nat := (substitute_from (length t) old [] t).2.

Definition apply_proxy_session (proxy_url : option text) (token : text) : option text :=
  match proxy_url with
  | None => None
  | Some t => if contains PROXY_SESSION_PLACEHOLDER t then Some (substitute PROXY_SESSION_PLACEHOLDER token t) else Some t
  end.

(** [char in text] *)
Definition has (n : Z) (t : text) : bool := existsb (λ a, bool_decide (a = chr n)) t.
Definition has_brace (t : text) : bool := has 123 t || has 125 t.

Section proxies.
Context `{NetLib}.

Definition invalid (reason : string) : result unit := Raise (ValueError reason).
Definition ensure (b : bool) (reason : string) : result unit := if b then Ok tt else invalid reason.
Definition parsed_or_malformed (t : text) : result ParseResult :=
  match urlparse t with Some p => Ok p | None => Raise (ValueError "Invalid URL") end.

Definition _validate_session_placeholder (proxy_url : text) : result unit :=
  if negb (has_brace proxy_url) then Ok tt
  else
    do? ensure (negb (has_brace (substitute PROXY_SESSION_PLACEHOLDER [] proxy_url)))
          "Proxy URL braces are only allowed in the {session} placeholder" in
    let? parsed := parsed_or_malformed proxy_url in
    let '(user, found, _) := rpartition_on (chr 64) (netloc parsed) in
    let userinfo := if found then user else [] in
    ensure (bool_decide (occurrence_count PROXY_SESSION_PLACEHOLDER userinfo =
                         occurrence_count PROXY_SESSION_PLACEHOLDER proxy_url))
      "The {session} placeholder is only supported in proxy credentials".

Definition normalize_proxy_url (value : text) : result text :=
  let proxy_url := Text.strip value in
  if bool_decide (proxy_url = _DIRECT_PROXY) then Ok proxy_url
  else
    do? ensure (negb (has 92 proxy_url)) "Proxy URL must not contain backslashes" in
    do? ensure (negb (existsb isspace (decode proxy_url))) "Proxy URL must not contain whitespace" in
    do? ensure (negb (existsb control_char proxy_url)) "Proxy URL must not contain control characters" in
    do? _validate_session_placeholder proxy_url in
    let? parsed := parsed_or_malformed proxy_url in
    do? ensure (bool_decide (lower_text (scheme parsed) ∈ _ALLOWED_PROXY_SCHEMES))
          "Proxy URL scheme must be one of: direct, http, https, socks5" in
    match hostname lower_text parsed with
    | None | Some [] => Raise (ValueError "Proxy URL must include a hostname")
    | Some host =>
        do? ensure (negb (has 37 host)) "Proxy URL hostname must not contain percent escapes" in
        do? ensure (is_ok (port parsed)) "Proxy URL port is invalid" in
        Ok proxy_url
    end.

Definition normalize_public_proxy_url (value : text) : result text :=
  let? proxy_url := normalize_proxy_url value in
  if bool_decide (proxy_url = _DIRECT_PROXY) then Ok proxy_url
  else do? assert_public_url _ALLOWED_PROXY_SCHEMES false true proxy_url in Ok proxy_url.

(** An operator's default is resolved, and must resolve. *)
Definition normalize_service_proxy_url (value : text) : result text :=
  let? proxy_url := normalize_proxy_url value in
  if bool_decide (proxy_url = _DIRECT_PROXY) then Ok proxy_url
  else do? assert_public_url _ALLOWED_PROXY_SCHEMES true false proxy_url in Ok proxy_url.

Definition not_direct (url : text) : option text := if bool_decide (url = _DIRECT_PROXY) then None else Some url.
(** The URLs of [target.proxy] and of [job_proxy]. *)
Definition resolve_proxy (target_proxy job_proxy : option text) (service_proxy_url : text) : option text :=
  match target_proxy, job_proxy with
  | Some url, _ => not_direct url
  | None, Some url => not_direct url
  | None, None =>
      match service_proxy_url with [] => None | _ => not_direct (Text.strip service_proxy_url) end
  end.

Definition redact_proxy_url (url : text) : result text :=
  let? parsed := parsed_or_malformed url in
  match hostname lower_text parsed with
  | None | Some [] => Ok url
  | Some host =>
      match port parsed with
      | Raise _ | Ok None => Ok host
      | Ok (Some p) => Ok (with_port host (Some p))
      end
  end.

(** ** What an accepted proxy URL promises *)

(** The placeholder is the only use of braces, so that a run's token leaves none. *)
Lemma cut_prefix_app p t rest : cut_prefix p t = Some rest → t = p ++ rest.
Proof.
  revert t. induction p as [|a p IH]; intros t; cbn; [by intros [= ->]|].
  destruct t as [|b t]; [done|]. case_bool_decide as E; [|done]. intros Hr. by rewrite E, (IH t Hr).
Qed.
Lemma has_app n s t : has n (s ++ t) = has n s || has n t.
Proof. apply existsb_app. Qed.
Lemma has_brace_app s t : has_brace (s ++ t) = has_brace s || has_brace t.
Proof. unfold has_brace. rewrite !has_app. by destruct (has 123 s), (has 123 t), (has 125 s). Qed.

Lemma substitute_braces fuel old new t :
  has_brace new = false → has_brace (substitute_from fuel old [] t).1 = false →
  has_brace (substitute_from fuel old new t).1 = false.
Proof.
  intros Hn. revert t. induction fuel as [|fuel IH]; intros t; [done|]. cbn [substitute_from].
  destruct t as [|a t']; [done|]. destruct (cut_prefix old (a :: t')) as [rest|].
  - specialize (IH rest). destruct (substitute_from fuel old [] rest), (substitute_from fuel old new rest). cbn [fst] in *.
    intros Hb. rewrite has_brace_app, Hn. by apply IH.
  - specialize (IH t'). destruct (substitute_from fuel old [] t') as [r n], (substitute_from fuel old new t') as [r' n'].
    cbn [fst] in *. change (a :: r) with ([a] ++ r). change (a :: r') with ([a] ++ r').
    rewrite !has_brace_app. intros [-> Hr]%orb_false_iff. by apply IH.
Qed.

Lemma normalized_cases value url :
  normalize_proxy_url value = Ok url →
  url = _DIRECT_PROXY ∨
  (_validate_session_placeholder url = Ok tt ∧ existsb isspace (decode url) = false ∧
   existsb control_char url = false).
Proof.
  unfold normalize_proxy_url. cbv zeta. case_bool_decide as Hd; [intros [= <-]; by left|]. right.
  revert H0. unfold rbind, ensure, invalid. intros Hn. revert Hn.
  destruct (negb (has 92 _)); [|done]. destruct (existsb isspace _) eqn:Es; [done|]. cbn [negb].
  destruct (existsb control_char _) eqn:Ec; [done|]. cbn [negb].
  destruct (_validate_session_placeholder _) as [[]|] eqn:Ep; [|done].
  destruct (parsed_or_malformed _); [|done]. destruct (bool_decide _); [|done].
  repeat case_match; try done; intros [= <-]; done.
Qed.

Lemma substitute_brace_free fuel old new t :
  has_brace t = false → has_brace new = false → has_brace (substitute_from fuel old new t).1 = false.
Proof.
  intros Ht Hn. revert t Ht. induction fuel as [|fuel IH]; intros t Ht; [done|]. cbn [substitute_from].
  destruct t as [|a t']; [done|]. destruct (cut_prefix old (a :: t')) as [rest|] eqn:Ec.
  - apply cut_prefix_app in Ec. rewrite Ec, has_brace_app in Ht. apply orb_false_iff in Ht as [_ Ht].
    specialize (IH rest Ht). destruct (substitute_from fuel old new rest). cbn [fst] in *. by rewrite has_brace_app, Hn, IH.
  - change (a :: t') with ([a] ++ t') in Ht. rewrite has_brace_app in Ht. apply orb_false_iff in Ht as [Ha Ht].
    specialize (IH t' Ht). destruct (substitute_from fuel old new t') as [r n]. cbn [fst] in *.
    change (a :: r) with ([a] ++ r). by rewrite has_brace_app, Ha, IH.
Qed.

Lemma substitute_absent fuel old new t : contains old t = false → (substitute_from fuel old new t).1 = t.
Proof.
  revert t. induction fuel as [|fuel IH]; intros t Hc; [done|]. cbn [substitute_from].
  destruct t as [|a t']; [done|]. cbn [contains] in Hc. destruct (cut_prefix old (a :: t')); [done|].
  specialize (IH t' Hc). destruct (substitute_from fuel old new t') as [r n]. cbn [fst] in *. by rewrite IH.
Qed.

(** A run's token completes an accepted proxy URL: whatever the configuration writes, the
    URL that [normalize_proxy_url] accepts has no brace left once a token without braces
    replaces the session placeholder. *)
Lemma session_completes_the_url value url token completed :
  normalize_proxy_url value = Ok url → has_brace token = false →
  apply_proxy_session (Some url) token = Some completed → has_brace completed = false.
Proof.
  intros Hn Ht. assert (has_brace url = false ∨ has_brace (substitute PROXY_SESSION_PLACEHOLDER [] url) = false) as Hb.
  { apply normalized_cases in Hn as [->|[Hv _]]; [by left|]. revert Hv. unfold _validate_session_placeholder.
    destruct (has_brace url) eqn:Eb; [|by left]. right. cbn [negb] in Hv.
    unfold ensure, invalid, rbind in Hv. destruct (has_brace (substitute _ _ _)); done. }
  cbn. unfold substitute in *. destruct (contains _ url) eqn:Ec; intros [= <-].
  - destruct Hb as [Hb|Hb]; [by apply substitute_brace_free|by apply substitute_braces].
  - rewrite substitute_absent in Hb by done. by destruct Hb.
Qed.
End proxies.
