(* ===== verification/Fields.v ===== *)
(** * Typed fields of a document (the validators of [config/schema.py])

    A document is what the YAML loader builds. A validator reads a value and gives a typed
    one, or all the errors it finds, each with its location and the value it is about, as
    pydantic collects them. What pydantic makes of a value of another type than a field's
    own (a number written as a string, say) is a parameter ([Pydantic]). Messages are
    shortened to their fixed parts.

    The state of a validator is what is left of the configuration's budget of regular
    expressions ([config/transforms.py]). *)

From Stdlib Require Import QArith.
From S2P Require Import Prelude.
From S2P Require Import Text.
From S2P Require Import Redaction.
From S2P Require Import Unicode.
From S2P Require Import Transforms.
Open Scope Z_scope.

(** ** Documents *)

Inductive pyfloat := FFinite (q : Q) | FInfinite | FNan.
(** The key of a mapping: another value than a string is known by an identity and [str(key)]. *)
Inductive ykey := KStr (s : text) | KOther (id : Z) (shown : text).
#[export] Instance ykey_eq_dec : EqDecision ykey.
Proof. solve_decision. Defined.

(** [YOther]: a value of another type, such as a date or bytes. *)
Inductive yaml :=
| YNone | YBool (b : bool) | YInt (n : Z) | YFloat (f : pyfloat) | YStr (s : text)
| YList (l : list yaml) | YDict (members : list (ykey * yaml)) | YOther (id : Z).
Abbreviation members := (list (ykey * yaml)).

Definition key (name : string) : ykey := KStr (txt name).
(** [data.get(key)]; the loader refuses duplicate keys. *)
Fixpoint get (k : ykey) (m : members) : option yaml :=
  match m with [] => None | (k', v) :: m => if decide (k = k') then Some v else get k m end.

(** ** Validators *)

Inductive part := AtKey (k : ykey) | AtIndex (i : nat) | AtLabel (label : string).
Record verror := { v_loc : list part; v_msg : string; v_input : yaml }.
(** An exception that is no [ValueError] leaves a validator as it is. *)
Inductive vexn := ValidationError (errors : list verror) | Crash (exception : string).

(** The state: the budget of [config_regex_budget]. *)
Definition vprog (A : Type) : Type := prog (option Z) vexn A.

Definition vfail {A} (input : yaml) (msg : string) : vprog A :=
  praise (ValidationError [{| v_loc := []; v_msg := msg; v_input := input |}]).
Definition vcheck (input : yaml) (b : bool) (msg : string) : vprog unit := if b then pret tt else vfail input msg.

(** Both parts run; their errors add up. *)
Definition vap {A B} (f : vprog (A → B)) (m : vprog A) : vprog B := λ s,
  match f s with
  | (Raise (Crash e), s) => (Raise (Crash e), s)
  | (Raise (ValidationError l), s) =>
      match m s with
      | (Raise (Crash e), s) => (Raise (Crash e), s)
      | (Raise (ValidationError l'), s) => (Raise (ValidationError (l ++ l')), s)
      | (Ok _, s) => (Raise (ValidationError l), s)
      end
  | (Ok g, s) => match m s with (Ok a, s) => (Ok (g a), s) | (Raise e, s) => (Raise e, s) end
  end.
Notation "f <*> m" := (vap f m) (at level 62, left associativity) : scrape_scope.

(** The errors of [m] are about a part of the value. *)
Definition below (p : part) (e : verror) : verror :=
  {| v_loc := p :: v_loc e; v_msg := v_msg e; v_input := v_input e |}.
Definition at_ {A} (p : part) (m : vprog A) : vprog A := λ s,
  match m s with
  | (Raise (ValidationError l), s) => (Raise (ValidationError (map (below p) l)), s)
  | r => r
  end.

(** ** pydantic *)

Class Pydantic := {
  (** The lax conversions of a float or a string, and of other values. *)
  lax_int_other : yaml → option Z;
  lax_bool_other : yaml → option bool;
  lax_str_other : yaml → option text;
  lax_list_other : yaml → option (list yaml);
  (** [float(text)] and [float(n)]; [None] is the [ValueError] and the [OverflowError]. *)
  float_of_text : text → option pyfloat;
  float_of_int : Z → option pyfloat;
  (** [bool | float], [AwareDatetime] and [str(HttpUrl)]: what they accept is left open. *)
  bool_or_float : yaml → option (bool + pyfloat);
  aware_datetime : yaml → option Z;
  http_url : yaml → option text;
}.

Section fields.
Context `{Pydantic}.

Definition lax_int (v : yaml) : option Z :=
  match v with
  | YInt n => Some n
  | YBool b => Some (Z.b2z b)
  | YNone | YList _ | YDict _ => None
  | YFloat _ | YStr _ | YOther _ => lax_int_other v
  end.
Definition lax_bool (v : yaml) : option bool :=
  match v with YBool b => Some b | YNone | YList _ | YDict _ => None | _ => lax_bool_other v end.
Definition lax_str (v : yaml) : option text :=
  match v with YStr s => Some s | YOther _ => lax_str_other v | _ => None end.
Definition lax_list (v : yaml) : option (list yaml) :=
  match v with YList l => Some l | YOther _ => lax_list_other v | _ => None end.

Definition is_ybool (v : yaml) : bool := match v with YBool _ => true | _ => false end.
Definition numeric_boolean : string := "numeric configuration values must not be booleans".

(** [_reject_boolean_numeric_values] on a field that holds a number, then its bounds. *)
Definition within (v : yaml) (lo hi : option Z) (n : Z) : vprog Z :=
  if match lo with Some lo => n <? lo | None => false end then vfail v "greater_than_equal"
  else if match hi with Some hi => hi <? n | None => false end then vfail v "less_than_equal"
  else pret n.
Definition any_int (v : yaml) : vprog Z := match lax_int v with Some n => pret n | None => vfail v "int_type" end.
Definition integer (lo hi : option Z) (v : yaml) : vprog Z :=
  if is_ybool v then vfail v numeric_boolean
  else let! n := any_int v in within v lo hi n.
(** [strict=True] *)
Definition strict_integer (lo : Z) (v : yaml) : vprog Z :=
  match v with
  | YBool _ => vfail v numeric_boolean
  | YInt n => within v (Some lo) None n
  | _ => vfail v "int_type"
  end.
Definition boolean (v : yaml) : vprog bool := match lax_bool v with Some b => pret b | None => vfail v "bool_type" end.
Definition string_ (v : yaml) : vprog text := match lax_str v with Some s => pret s | None => vfail v "string_type" end.
Definition bounded_string (lo hi : nat) (v : yaml) : vprog text :=
  let! s := string_ v in
  if (py_len s <? lo)%nat then vfail v "string_too_short"
  else if (hi <? py_len s)%nat then vfail v "string_too_long"
  else pret s.
(** A string enumeration. *)
Fixpoint member_of {A} (table : list (string * A)) (s : text) : option A :=
  match table with [] => None | (n, a) :: table => if decide (s = txt n) then Some a else member_of table s end.
Definition enumeration {A} (table : list (string * A)) (v : yaml) : vprog A :=
  match v with
  | YStr s => match member_of table s with Some a => pret a | None => vfail v "enum" end
  | _ => vfail v "enum"
  end.
(** [Optional] *)
Definition nullable {A} (validate : yaml → vprog A) (v : yaml) : vprog (option A) :=
  match v with YNone => pret None | _ => let! a := validate v in pret (Some a) end.

(** [max_length], if the field has one. *)
Definition too_many {A} (max : option nat) (l : list A) : bool :=
  match max with Some n => (n <? length l)%nat | None => false end.
(** The items of a list, all of them. *)
Fixpoint items {A} (validate : yaml → vprog A) (i : nat) (l : list yaml) : vprog (list A) :=
  match l with
  | [] => pret []
  | v :: l => pret cons <*> at_ (AtIndex i) (validate v) <*> items validate (S i) l
  end.
Definition list_of {A} (max : option nat) (validate : yaml → vprog A) (v : yaml) : vprog (list A) :=
  match lax_list v with
  | None => vfail v "list_type"
  | Some l => if too_many max l then vfail v "too_long" else items validate 0 l
  end.
(** [list[int]]: no item of a list is a boolean. *)
Definition list_of_ints (max : option nat) (v : yaml) : vprog (list Z) :=
  match v with
  | YBool _ => vfail v numeric_boolean
  | YList l => if existsb is_ybool l then vfail v numeric_boolean else list_of max any_int v
  | _ => list_of max any_int v
  end.

(** [dict[str, ...]] *)
Definition key_text (k : ykey) : vprog text :=
  match k with KStr s => pret s | KOther _ _ => at_ (AtLabel "[key]") (vfail YNone "string_type") end.
Fixpoint entries {A} (validate : yaml → vprog A) (m : members) : vprog (list (text * A)) :=
  match m with
  | [] => pret []
  | (k, v) :: m =>
      pret (λ k a l, (k, a) :: l) <*> at_ (AtKey k) (key_text k) <*> at_ (AtKey k) (validate v) <*> entries validate m
  end.
Definition dict_of {A} (lo : nat) (hi : option nat) (validate : yaml → vprog A) (v : yaml) : vprog (list (text * A)) :=
  match v with
  | YDict m =>
      if too_many hi m then vfail v "too_long"
      else let! l := entries validate m in if (length m <? lo)%nat then vfail v "too_short" else pret l
  | _ => vfail v "dict_type"
  end.

(** A field of a model; a default is not validated. *)
Definition required {A} (name : string) (validate : yaml → vprog A) (m : members) : vprog A :=
  at_ (AtKey (key name)) match get (key name) m with Some v => validate v | None => vfail (YDict m) "missing" end.
Definition optional_ {A} (name : string) (default : A) (validate : yaml → vprog A) (m : members) : vprog A :=
  match get (key name) m with Some v => at_ (AtKey (key name)) (validate v) | None => pret default end.

(** [extra="forbid"] *)
Fixpoint no_extra (names : list string) (m : members) : vprog unit :=
  match m with
  | [] => pret tt
  | (k, v) :: m =>
      pret (λ _ _, tt) <*>
      at_ (AtKey k)
        match k with
        | KOther _ _ => vfail v "invalid_key"
        | KStr s => vcheck v (existsb (λ n, bool_decide (s = txt n)) names) "extra_forbidden"
        end <*>
      no_extra names m
  end.

(** [StrictConfigModel]: the fields, no others, and the validators of the whole model. *)
Definition model {A} (names : list string) (fields : members → vprog A) (after : members → A → vprog A) (v : yaml) : vprog A :=
  match v with
  | YDict m => let! a := pret (λ a _, a) <*> fields m <*> no_extra names m in after m a
  | _ => vfail v "model_type"
  end.
Definition no_after {A} (_ : members) (a : A) : vprog A := pret a.

(** A union of a text and a model. *)
Definition text_or_model {A B} (short : text → B) (long : A → B) (label : string) (validate : yaml → vprog A) (v : yaml) : vprog B := λ s,
  match lax_str v with
  | Some t => (Ok (short t), s)
  | None =>
      match validate v s with
      | (Ok a, s) => (Ok (long a), s)
      | (Raise (Crash e), s) => (Raise (Crash e), s)
      | (Raise (ValidationError l), s) =>
          (Raise (ValidationError ({| v_loc := [AtLabel "str"]; v_msg := "string_type"; v_input := v |} ::
                                   map (below (AtLabel label)) l)), s)
      end
  end.
End fields.

(** ** What a validator's result promises *)

Definition vpost {A} (m : vprog A) (P : A → Prop) : Prop := ∀ s a s', m s = (Ok a, s') → P a.

Lemma vpost_ret {A} (a : A) (P : A → Prop) : P a → vpost (pret a) P.
Proof. by intros Ha s a' s' [= <- _]. Qed.
Lemma vpost_fail {A} v msg (P : A → Prop) : vpost (vfail v msg) P.
Proof. by intros s a s' [=]. Qed.
Lemma vpost_raise {A} e (P : A → Prop) : vpost (praise e) P.
Proof. by intros s a s' [=]. Qed.
Lemma vpost_mono {A} (m : vprog A) (P Q : A → Prop) : vpost m P → (∀ a, P a → Q a) → vpost m Q.
Proof. intros Hm HQ s a s' E. by eapply HQ, Hm. Qed.
Lemma vpost_true {A} (m : vprog A) : vpost m (λ _, True).
Proof. done. Qed.
Lemma vpost_bind {A B} (m : vprog A) (k : A → vprog B) (P : A → Prop) (Q : B → Prop) :
  vpost m P → (∀ a, P a → vpost (k a) Q) → vpost (pbind m k) Q.
Proof.
  intros Hm Hk s b s' E. unfold pbind in E. destruct (m s) as [[a|e] s1] eqn:Em; [|done].
  by eapply Hk; [eapply Hm|].
Qed.
Lemma vpost_ap {A B} (f : vprog (A → B)) (m : vprog A) (P : A → Prop) (Q : B → Prop) :
  vpost f (λ g, ∀ a, P a → Q (g a)) → vpost m P → vpost (f <*> m) Q.
Proof.
  intros Hf Hm s b s' E. unfold vap in E. destruct (f s) as [[g|[l|e]] s1] eqn:Ef.
  - destruct (m s1) as [[a|e] s2] eqn:Em; [|done]. injection E as <- <-. eapply Hf; [done|by eapply Hm].
  - destruct (m s1) as [[a|[l'|e]] s2]; done.
  - done.
Qed.
Lemma vpost_at {A} p (m : vprog A) (P : A → Prop) : vpost m P → vpost (at_ p m) P.
Proof.
  intros Hm s a s' E. unfold at_ in E. destruct (m s) as [[a'|[l|e]] s1] eqn:Em; [|done..].
  injection E as <- <-. by eapply Hm.
Qed.
Lemma vpost_check v b msg : vpost (vcheck v b msg) (λ _, b = true).
Proof. unfold vcheck. destruct b; [by apply vpost_ret|apply vpost_fail]. Qed.
Lemma vpost_if {A} (b : bool) (m n : vprog A) (P : A → Prop) :
  (b = true → vpost m P) → (b = false → vpost n P) → vpost (if b then m else n) P.
Proof. destruct b; auto. Qed.
