(* ===== verification/Schema.v ===== *)
(** * The configuration schema ([config/schema.py])

    The models of a job's configuration and every validator of theirs: from a document to
    a typed configuration, or to the errors. Cron triggers and time zones are parameters,
    as are pydantic's conversions ([Fields.v]) and the network library ([UrlGuard.v]). *)

From Stdlib Require Import QArith.
From S2P Require Import Prelude.
From S2P Require Import Text.
From S2P Require Import Unicode.
From S2P Require Import Paths.
From S2P Require Import Crontab.
From S2P Require Import Redaction.
From S2P Require Import Transforms.
From S2P Require Import Resilience.
From S2P Require Import Models.
From S2P Require Import IpPolicy.
From S2P Require Import UrlGuard.
From S2P Require Import Proxy.
From S2P Require Import Fields.
Open Scope Z_scope.

Definition _FORBIDDEN_CUSTOM_HEADERS : list string :=
  ["connection"; "content-length"; "expect"; "host"; "keep-alive"; "proxy-authenticate"; "proxy-authorization";
   "proxy-connection"; "te"; "trailer"; "transfer-encoding"; "upgrade"].
Definition _ALLOWED_BROWSER_ADDITIONAL_ARGUMENTS : list string := ["custom_fonts_only"; "fonts"; "locale"; "window"].
Definition _MAX_BLOCK_URL_PATTERN_CHARS : nat := 2048.
Definition _MAX_BROWSER_FONTS : nat := 64.
Definition _MAX_BROWSER_FONT_NAME_CHARS : nat := 128.
Definition _MAX_BROWSER_LOCALES : nat := 16.
Definition _MAX_BROWSER_LOCALE_CHARS : nat := 64.
Definition _MAX_BROWSER_WINDOW_DIMENSION : Z := 16384.
Definition MAX_BROWSER_ACTIONS : nat := 50.
Definition MAX_BROWSER_BLOCK_RULES : nat := 100.
Definition MAX_BROWSER_ACTION_REPEAT : Z := 50.
Definition MAX_BROWSER_HUMANIZE_SECONDS : Q := 60.
Definition MAX_BROWSER_TIMEOUT_MS : Z := 300000.
Definition MAX_BROWSER_WAIT_MS : Z := 60000.
Definition MAX_DETECTION_CSS_SELECTORS : nat := 50.
Definition MAX_DETECTION_PATTERNS : nat := 100.
Definition MAX_DETECTION_TEXT_PATTERN_CHARS : nat := 512.
Definition MAX_DOMAIN_RATE_LIMIT_SECONDS : Z := 3600.
Definition MAX_EXECUTION_CONCURRENCY : Z := 50.
Definition MAX_EXECUTION_DELAY_SECONDS : Z := 3600.
Definition MAX_PAGINATION_PAGES : Z := 100.
Definition MAX_PAGE_PARAM_CHARS : nat := 64.
Definition MAX_PAGE_PARAM_VALUE : Z := 1000000.
Definition MAX_RETRY_ATTEMPTS : Z := 10.
Definition MAX_RETRY_BACKOFF_SECONDS : Z := 300.
Definition MAX_RETRYABLE_STATUSES : nat := 32.
Definition MAX_REQUIRED_FIELDS : nat := 100.
Definition MAX_SELECTORS_PER_TARGET : nat := 100.
Definition MAX_SELECTOR_FIELD_NAME_CHARS : nat := 256.
Definition MAX_SELECTOR_QUERY_CHARS : nat := 4096.
Definition MAX_TARGETS_PER_JOB : nat := 100.
Definition MAX_WEBHOOK_TIMEOUT_SECONDS : Z := 60.

(** ** Enumerations *)

Inductive BrowserActionType := click_ | wait_for_selector_ | wait_ms_ | scroll | repeat_click.
Inductive SelectorType := css | xpath.
Inductive PaginationMode := by_link | by_click.
Inductive PriorityLevel := prio_high | prio_normal | prio_low.
Inductive WebhookStatus := on_complete | on_partial | on_failed.
#[export] Instance PaginationMode_eq_dec : EqDecision PaginationMode.
Proof. solve_decision. Defined.

Definition fetcher_types := [("basic", basic); ("stealthy", stealthy); ("dynamic", dynamic)].
Definition action_types :=
  [("click", click_); ("wait_for_selector", wait_for_selector_); ("wait_ms", wait_ms_); ("scroll", scroll);
   ("repeat_click", repeat_click)].
Definition selector_types := [("css", css); ("xpath", xpath)].
Definition pagination_modes := [("link", by_link); ("click", by_click)].
Definition backoff_strategies :=
  [("exponential", Retry.exponential); ("linear", Retry.linear); ("fixed", Retry.fixed)].
Definition on_empty_actions := [("retry", on_retry); ("warn", on_warn); ("fail", on_fail); ("skip", on_skip)].
Definition execution_modes := [("auto", mode_auto); ("sync", mode_sync); ("async", mode_async)].
Definition priority_levels := [("high", prio_high); ("normal", prio_normal); ("low", prio_low)].
Definition groupings := [("target", by_target); ("merge", by_merge)].
Definition page_cache_modes := [("off", cache_off); ("record", cache_record); ("replay", cache_replay)].
Definition fail_strategies :=
  [("partial", fs_partial); ("all_or_nothing", fs_all_or_nothing); ("continue", fs_continue)].
Definition webhook_statuses := [("complete", on_complete); ("partial", on_partial); ("failed", on_failed)].

(** ** Regular expressions *)

(** A non-empty text of the characters of a class. *)
Definition all_of (p : Ascii.ascii → bool) (t : text) : bool := match t with [] => false | _ => forallb p t end.
Definition alnum_char (a : Ascii.ascii) : bool := is_letter a || is_digit a.
Definition one_of (codes : list Z) (a : Ascii.ascii) : bool := existsb (λ n, code a =? n) codes.
(** [[!#$%&'*+\-.^_`|~0-9A-Za-z]+] *)
Definition header_name (t : text) : bool :=
  all_of (λ a, alnum_char a || one_of [33; 35; 36; 37; 38; 39; 42; 43; 45; 46; 94; 95; 96; 124; 126] a) t.
(** [[A-Za-z0-9._\[\]-]+] *)
Definition page_param_text (t : text) : bool := all_of (λ a, alnum_char a || one_of [46; 95; 91; 93; 45] a) t.
(** [[A-Za-z]{2,8}(?:-[A-Za-z0-9]{1,8})*] *)
Definition browser_locale (t : text) : bool :=
  match split_on (chr 45) t with
  | first :: rest =>
      (2 <=? length first)%nat && (length first <=? 8)%nat && forallb is_letter first &&
      forallb (λ p, (1 <=? length p)%nat && (length p <=? 8)%nat && forallb alnum_char p) rest
  | [] => false
  end.
(** [[a-z0-9](?:[a-z0-9-]{0,61}[a-z0-9])?], parted by dots; at most 253 characters. *)
Definition lower_alnum (a : Ascii.ascii) : bool := is_lower a || is_digit a.
Definition host_label (l : text) : bool :=
  (length l <=? 63)%nat && all_of (λ a, lower_alnum a || one_of [45] a) l &&
  match head l, last l with Some a, Some b => lower_alnum a && lower_alnum b | _, _ => false end.
Definition block_allow_host (t : text) : bool := (length t <=? 253)%nat && forallb host_label (split_on dot t).

(** ** The library *)

Class SchemaLib := {
  casefold : text → text;
  (** What [ZoneInfo(name)] and [CronTrigger(...)] raise, if anything. *)
  ZoneInfo : text → option string;
  CronTrigger : cron_fields → option string;
}.

(** ** Models *)

Record MapDetectionConfig := { md_text : list text; md_css : list text; md_price : list text }.
Record StockPatternConfig := { sp_text : list text; sp_css : list text }.
Record StockDetectionConfig := {
  in_stock : option StockPatternConfig; out_of_stock : option StockPatternConfig;
  limited_stock : option StockPatternConfig; backorder : option StockPatternConfig;
  preorder : option StockPatternConfig }.
Record SelectorLong := { sl_query : text; sl_type : SelectorType; sl_transform : option text }.
Inductive SelectorValue := Short (query : text) | Long (selector : SelectorLong).
Record ProxyConfig := { px_url : text }.
Record PaginationConfig := {
  pg_mode : PaginationMode; pg_next : option SelectorValue; pg_page_param : option text;
  pg_page_first : Z; pg_page_step : Z; pg_max_pages : Z }.
Record BrowserActionConfig := {
  ba_type : BrowserActionType; ba_selector : option text; ba_optional : bool; ba_timeout_ms : option Z;
  ba_wait_ms : option Z; ba_times : Z; ba_pixels : Z; ba_max_times : Z; ba_wait_for_selector : option text }.
Record BrowserConfig := {
  br_timeout_ms : Z; br_disable_resources : bool; br_block_third_party : bool;
  br_third_party_allow_hosts : list text; br_block_url_patterns : list text; br_network_idle : bool;
  br_stealth : bool; br_hide_canvas : bool; br_real_chrome : bool; br_cdp_url : option text;
  br_nstbrowser_mode : bool; br_humanize : option (bool + pyfloat); br_os_randomize : bool; br_geoip : bool;
  br_disable_ads : bool; br_additional_arguments : list (text * yaml); br_useragent : option text;
  br_extra_headers : list (text * text); br_click_selector : option text; br_click_timeout_ms : option Z;
  br_click_wait_ms : option Z; br_wait_for_selector : option text; br_wait_ms : option Z;
  br_actions : list BrowserActionConfig }.
Record TargetConfig := {
  tg_url : text; tg_fetcher : FetcherType; tg_adaptive_domain : option text; tg_browser : option BrowserConfig;
  tg_item_selector : option SelectorValue; tg_selectors : list (text * SelectorValue);
  tg_pagination : option PaginationConfig; tg_proxy : option ProxyConfig;
  tg_map_detection : option MapDetectionConfig; tg_stock_detection : option StockDetectionConfig }.
Record RetryConfig := {
  rt_max_attempts : Z; rt_backoff : Retry.BackoffStrategy; rt_backoff_max : Z; rt_retryable_status : list Z }.
Record ValidationConfig := { va_required_fields : list text; va_min_results : Z; va_on_empty : OnEmptyAction }.
Record ExecutionConfig := {
  ex_max_requests : option Z; ex_max_fetched_bytes : option Z; ex_max_extracted_records : option Z;
  ex_max_serialized_result_bytes : option Z; ex_deadline_at : option Z; ex_concurrency : Z; ex_delay_between : Z;
  ex_post_target_delay : Z; ex_domain_rate_limit : Z; ex_reuse_browser : bool; ex_mode : ExecutionMode;
  ex_priority : PriorityLevel; ex_fail_strategy : FailStrategy; ex_page_cache : PageCacheMode;
  ex_domain_daily_page_limit : option Z }.
Record ScheduleConfig := { sc_cron : text; sc_timezone : text; sc_enabled : bool }.
Record OutputConfig := { ou_group_by : GroupBy }.
Record WebhookConfig := { wh_url : text; wh_on : list WebhookStatus; wh_headers : list (text * text); wh_timeout : Z }.
Record ScrapeConfig := {
  cf_project : text; cf_name : text; cf_target : option TargetConfig; cf_targets : option (list TargetConfig);
  cf_adaptive : option bool; cf_proxy : option ProxyConfig; cf_retry : RetryConfig; cf_validation : ValidationConfig;
  cf_execution : ExecutionConfig; cf_schedule : option ScheduleConfig; cf_webhook : option WebhookConfig;
  cf_output : OutputConfig; cf_resolved_secret_values : list text }.

(** [RetryConfig()] and the like *)
Definition default_retry : RetryConfig :=
  {| rt_max_attempts := 3; rt_backoff := Retry.exponential; rt_backoff_max := 30;
     rt_retryable_status := [429; 500; 502; 503; 504] |}.
Definition default_validation : ValidationConfig :=
  {| va_required_fields := []; va_min_results := 0; va_on_empty := on_warn |}.
Definition default_execution : ExecutionConfig :=
  {| ex_max_requests := None; ex_max_fetched_bytes := None; ex_max_extracted_records := None;
     ex_max_serialized_result_bytes := None; ex_deadline_at := None; ex_concurrency := 2; ex_delay_between := 2;
     ex_post_target_delay := 0; ex_domain_rate_limit := 3; ex_reuse_browser := false; ex_mode := mode_auto;
     ex_priority := prio_normal; ex_fail_strategy := fs_partial; ex_page_cache := cache_off;
     ex_domain_daily_page_limit := None |}.

Section schema.
Context `{Pydantic} `{NetLib} `{RegexLib} (settings : Settings) `{Printable} `{Digits} `{SchemaLib}.

(** ** Shared validators *)

(** The loop of [_validate_pattern_list]. *)
Fixpoint normalize_patterns (input : yaml) (max_item_chars : nat) (case_insensitive allow_explicit_empty : bool)
    (seen values : list text) : vprog (list text) :=
  match values with
  | [] => pret []
  | value :: values =>
      let rest := λ seen, normalize_patterns input max_item_chars case_insensitive allow_explicit_empty seen values in
      if allow_explicit_empty && bool_decide (value = []) then
        do! vcheck input (negb (bool_decide (value ∈ seen))) "values must be unique" in
        let! l := rest (value :: seen) in pret (value :: l)
      else
        let item := Text.strip value in
        do! vcheck input (negb (bool_decide (item = []))) "values must not be blank" in
        do! vcheck input (py_len item <=? max_item_chars)%nat "values must not exceed their characters" in
        let identity := if case_insensitive then casefold item else item in
        do! vcheck input (negb (bool_decide (identity ∈ seen))) "values must be unique" in
        let! l := rest (identity :: seen) in
        pret ((if case_insensitive then lower_text item else item) :: l)
  end.
Definition _validate_pattern_list (input : yaml) (max_item_chars : nat) (case_insensitive allow_explicit_empty : bool)
    (values : list text) : vprog (list text) :=
  normalize_patterns input max_item_chars case_insensitive allow_explicit_empty [] values.
(** A field [list[str]] that is such a list. *)
Definition pattern_field (max max_item_chars : nat) (case_insensitive allow_explicit_empty : bool) (v : yaml) : vprog (list text) :=
  let! l := list_of (Some max) string_ v in _validate_pattern_list v max_item_chars case_insensitive allow_explicit_empty l.

Definition blank (t : text) : bool := bool_decide (Text.strip t = []).
Definition _validate_short_selector_query (input : yaml) (value : text) : vprog text :=
  do! vcheck input (negb (blank value)) "Selector queries must not be blank" in
  do! vcheck input (py_len value <=? MAX_SELECTOR_QUERY_CHARS)%nat "Selector queries must not exceed 4096 characters" in
  pret value.
Definition short_selector_field (v : yaml) : vprog (option text) :=
  let! s := nullable string_ v in
  match s with
  | None => pret None
  | Some value => let! value := _validate_short_selector_query v value in pret (Some value)
  end.

Definition header_value_ok (value : text) : bool := negb (has 13 value || has 10 value || has 0 value).
Fixpoint check_headers (input : yaml) (seen : list text) (headers : list (text * text)) : vprog unit :=
  match headers with
  | [] => pret tt
  | (name, value) :: headers =>
      do! vcheck input (header_name name) "Invalid HTTP header name" in
      let lowered_name := lowered name in
      do! vcheck input (negb (bool_decide (lowered_name ∈ seen))) "Duplicate HTTP header name" in
      do! vcheck input (negb (existsb (λ h, bool_decide (lowered_name = txt h)) _FORBIDDEN_CUSTOM_HEADERS))
            "HTTP header is managed by the HTTP client" in
      do! vcheck input (header_value_ok value) "must not contain CR, LF, or NUL" in
      check_headers input (lowered_name :: seen) headers
  end.
Definition headers_field (v : yaml) : vprog (list (text * text)) :=
  let! headers := dict_of 0 None string_ v in
  do! check_headers v [] headers in
  pret headers.

(** A [ValueError] of the URL guard is an error of the field; an [OSError] is not. *)
Definition of_guard {A} (input : yaml) (r : result A) : vprog A :=
  match r with
  | Ok a => pret a
  | Raise (URLResolutionError _) => praise (Crash "URLResolutionError")
  | Raise _ => vfail input "unsafe URL"
  end.

(** ** Detection *)

Definition validate_MapDetectionConfig : yaml → vprog MapDetectionConfig :=
  model ["text_patterns"; "css_selectors"; "price_value_patterns"]
    (λ m, pret Build_MapDetectionConfig
      <*> optional_ "text_patterns" [] (pattern_field MAX_DETECTION_PATTERNS MAX_DETECTION_TEXT_PATTERN_CHARS true false) m
      <*> optional_ "css_selectors" [] (pattern_field MAX_DETECTION_CSS_SELECTORS MAX_SELECTOR_QUERY_CHARS false false) m
      <*> optional_ "price_value_patterns" []
            (pattern_field MAX_DETECTION_PATTERNS MAX_DETECTION_TEXT_PATTERN_CHARS false true) m)
    no_after.
Definition validate_StockPatternConfig : yaml → vprog StockPatternConfig :=
  model ["text_patterns"; "css_selectors"]
    (λ m, pret Build_StockPatternConfig
      <*> optional_ "text_patterns" [] (pattern_field MAX_DETECTION_PATTERNS MAX_DETECTION_TEXT_PATTERN_CHARS true false) m
      <*> optional_ "css_selectors" [] (pattern_field MAX_DETECTION_CSS_SELECTORS MAX_SELECTOR_QUERY_CHARS false false) m)
    no_after.
Definition validate_StockDetectionConfig : yaml → vprog StockDetectionConfig :=
  model ["in_stock"; "out_of_stock"; "limited_stock"; "backorder"; "preorder"]
    (λ m, pret Build_StockDetectionConfig
      <*> optional_ "in_stock" None (nullable validate_StockPatternConfig) m
      <*> optional_ "out_of_stock" None (nullable validate_StockPatternConfig) m
      <*> optional_ "limited_stock" None (nullable validate_StockPatternConfig) m
      <*> optional_ "backorder" None (nullable validate_StockPatternConfig) m
      <*> optional_ "preorder" None (nullable validate_StockPatternConfig) m)
    no_after.

(** ** Selectors *)

(** [parse_transform_pipeline] of [SelectorLong]; an [IndexError] is no [ValueError]. *)
Definition check_transform (input : yaml) (value : text) : vprog unit := λ budget,
  match parse_transform_pipeline settings (decode value) budget with
  | (Ok _, budget) => (Ok tt, budget)
  | (Raise IndexError, budget) => praise (Crash "IndexError") budget
  | (Raise _, budget) => vfail input "Invalid selector transform" budget
  end.
Definition query_field (v : yaml) : vprog text :=
  let! value := bounded_string 1 MAX_SELECTOR_QUERY_CHARS v in
  do! vcheck v (negb (blank value)) "Selector queries must not be blank" in
  pret value.
Definition transform_field (v : yaml) : vprog (option text) :=
  let! value := nullable string_ v in
  match value with
  | None => pret None
  | Some t => do! check_transform v t in pret (Some t)
  end.
Definition validate_SelectorLong : yaml → vprog SelectorLong :=
  model ["query"; "type"; "transform"]
    (λ m, pret Build_SelectorLong
      <*> required "query" query_field m
      <*> optional_ "type" css (enumeration selector_types) m
      <*> optional_ "transform" None transform_field m)
    no_after.
Definition selector_value : yaml → vprog SelectorValue := text_or_model Short Long "SelectorLong" validate_SelectorLong.
(** [_validate_next_selector] and [_validate_item_selector] *)
Definition check_short (input : yaml) (s : SelectorValue) : vprog unit :=
  match s with Short q => do! _validate_short_selector_query input q in pret tt | Long _ => pret tt end.
Definition optional_selector (v : yaml) : vprog (option SelectorValue) :=
  let! s := nullable selector_value v in
  match s with None => pret None | Some s => do! check_short v s in pret (Some s) end.

(** ** Proxies and pagination *)

Definition proxy_url_field (v : yaml) : vprog text :=
  let! value := string_ v in of_guard v (normalize_public_proxy_url value).
Definition validate_ProxyConfig : yaml → vprog ProxyConfig :=
  model ["url"] (λ m, pret Build_ProxyConfig <*> required "url" proxy_url_field m) no_after.

Definition page_param_field (v : yaml) : vprog (option text) :=
  let! value := nullable (bounded_string 1 MAX_PAGE_PARAM_CHARS) v in
  match value with
  | None => pret None
  | Some t =>
      do! vcheck v (page_param_text t) "page_param must contain only letters, digits and . _ - [ ] characters" in
      pret (Some t)
  end.
Definition _validate_page_source (m : members) (p : PaginationConfig) : vprog PaginationConfig :=
  match pg_mode p, pg_next p, pg_page_param p with
  | by_click, None, _ => vfail (YDict m) "click pagination requires a next selector"
  | by_click, Some _, Some _ => vfail (YDict m) "page_param is only supported in link pagination mode"
  | by_link, None, None => vfail (YDict m) "pagination requires a next selector or page_param"
  | _, _, _ => pret p
  end.
Definition validate_PaginationConfig : yaml → vprog PaginationConfig :=
  model ["mode"; "next"; "page_param"; "page_first"; "page_step"; "max_pages"]
    (λ m, pret Build_PaginationConfig
      <*> optional_ "mode" by_link (enumeration pagination_modes) m
      <*> optional_ "next" None optional_selector m
      <*> optional_ "page_param" None page_param_field m
      <*> optional_ "page_first" 1 (integer (Some 0) (Some MAX_PAGE_PARAM_VALUE)) m
      <*> optional_ "page_step" 1 (integer (Some 1) (Some MAX_PAGE_PARAM_VALUE)) m
      <*> optional_ "max_pages" 10 (integer (Some 1) (Some MAX_PAGINATION_PAGES)) m)
    _validate_page_source.

(** ** Browser actions *)

Definition needs_selector (t : BrowserActionType) : bool :=
  match t with click_ | wait_for_selector_ | repeat_click => true | wait_ms_ | scroll => false end.
(** [allowed_fields] *)
Definition allowed_fields (t : BrowserActionType) : list string :=
  match t with
  | click_ => ["type"; "selector"; "optional"; "timeout_ms"; "wait_ms"; "wait_for_selector"]
  | wait_for_selector_ => ["type"; "selector"; "optional"; "timeout_ms"; "wait_ms"]
  | wait_ms_ => ["type"; "optional"; "wait_ms"]
  | scroll => ["type"; "optional"; "wait_ms"; "times"; "pixels"]
  | repeat_click => ["type"; "selector"; "optional"; "timeout_ms"; "wait_ms"; "max_times"; "wait_for_selector"]
  end.
(** [not value] *)
Definition falsy (t : option text) : bool := match t with None | Some [] => true | Some _ => false end.
Definition _validate_action_requirements (m : members) (a : BrowserActionConfig) : vprog BrowserActionConfig :=
  do! vcheck (YDict m) (negb (needs_selector (ba_type a) && falsy (ba_selector a))) "action requires 'selector'" in
  do! vcheck (YDict m)
        (match ba_type a, ba_wait_ms a with wait_ms_, None => false | _, _ => true end)
        "wait_ms action requires 'wait_ms'" in
  do! vcheck (YDict m)
        (forallb (λ x, existsb (λ n, bool_decide (x.1 = key n)) (allowed_fields (ba_type a))) m)
        "action does not use field(s)" in
  pret a.
Definition pixels_field (v : yaml) : vprog Z :=
  let! n := integer None None v in
  do! vcheck v (negb (n =? 0)) "pixels must be non-zero" in
  pret n.
Definition validate_BrowserActionConfig : yaml → vprog BrowserActionConfig :=
  model ["type"; "selector"; "optional"; "timeout_ms"; "wait_ms"; "times"; "pixels"; "max_times"; "wait_for_selector"]
    (λ m, pret Build_BrowserActionConfig
      <*> required "type" (enumeration action_types) m
      <*> optional_ "selector" None short_selector_field m
      <*> optional_ "optional" false boolean m
      <*> optional_ "timeout_ms" None (nullable (integer (Some 1) (Some MAX_BROWSER_TIMEOUT_MS))) m
      <*> optional_ "wait_ms" None (nullable (integer (Some 0) (Some MAX_BROWSER_WAIT_MS))) m
      <*> optional_ "times" 1 (integer (Some 1) (Some MAX_BROWSER_ACTION_REPEAT)) m
      <*> optional_ "pixels" 1200 pixels_field m
      <*> optional_ "max_times" 1 (integer (Some 1) (Some MAX_BROWSER_ACTION_REPEAT)) m
      <*> optional_ "wait_for_selector" None short_selector_field m)
    _validate_action_requirements.

(** ** Browsers *)

Definition useragent_field (v : yaml) : vprog (option text) :=
  let! value := nullable string_ v in
  match value with
  | None => pret None
  | Some t => do! vcheck v (header_value_ok t) "useragent must not contain CR, LF, or NUL" in pret (Some t)
  end.

(** [not math.isfinite(duration) or not 0 < duration <= MAX_BROWSER_HUMANIZE_SECONDS] *)
Definition duration_ok (f : pyfloat) : bool :=
  match f with FFinite q => negb (Qle_bool q 0) && Qle_bool q MAX_BROWSER_HUMANIZE_SECONDS | _ => false end.
Definition _validate_humanize (v : yaml) : vprog unit :=
  let valid := λ f, vcheck v (duration_ok f) "browser.humanize numeric duration must be finite, positive, and bounded" in
  match v with
  | YStr t => match float_of_text t with Some f => valid f | None => pret tt end
  | YInt n => valid (default FInfinite (float_of_int n))
  | YFloat f => valid f
  | YNone | YBool _ | YList _ | YDict _ | YOther _ => pret tt
  end.
Definition humanize_field (v : yaml) : vprog (option (bool + pyfloat)) :=
  do! _validate_humanize v in
  nullable (λ v, match v with
                 | YBool b => pret (inl b)
                 | _ => match bool_or_float v with Some x => pret x | None => vfail v "union" end
                 end) v.

(** The host of an entry of [third_party_allow_hosts]. *)
Definition remove_wildcard (t : text) : text := default t (cut_prefix (txt "*.") t).
Fixpoint allow_hosts (input : yaml) (hosts entries : list text) : vprog (list text) :=
  match entries with
  | [] => pret hosts
  | entry :: entries =>
      let! host := match canonical_hostname (remove_wildcard entry) with
                   | Ok host => pret host
                   | Raise (UrlGuard.ValueError _) => vfail input "Value error"
                   | Raise (UnsafeURLError _) => pret []
                   | Raise (URLResolutionError _) => praise (Crash "URLResolutionError")
                   end in
      do! vcheck input (block_allow_host host) "browser.third_party_allow_hosts entries must be host names" in
      allow_hosts input (if bool_decide (host ∈ hosts) then hosts else hosts ++ [host]) entries
  end.
Definition allow_hosts_field (v : yaml) : vprog (list text) :=
  let! entries := pattern_field MAX_BROWSER_BLOCK_RULES 253 true false v in allow_hosts v [] entries.
Definition block_patterns_field (v : yaml) : vprog (list text) :=
  let! patterns := pattern_field MAX_BROWSER_BLOCK_RULES _MAX_BLOCK_URL_PATTERN_CHARS false false v in
  do! vcheck v (negb (existsb (λ p, existsb isspace (decode p)) patterns))
        "browser.block_url_patterns values must not contain whitespace" in
  pret patterns.

(** [value.get(name)]; null is no value. *)
Definition argument (name : string) (l : list (text * yaml)) : option yaml :=
  match find (λ x, bool_decide (x.1 = txt name)) l with Some (_, YNone) | None => None | Some (_, v) => Some v end.
Definition locale_ok (v : yaml) : bool :=
  match v with
  | YStr t => (py_len t <=? _MAX_BROWSER_LOCALE_CHARS)%nat && browser_locale t
  | _ => false
  end.
Definition font_ok (v : yaml) : bool :=
  match v with
  | YStr t => negb (blank t) && (py_len t <=? _MAX_BROWSER_FONT_NAME_CHARS)%nat && forallb (λ a, 32 <=? code a) t
  | _ => false
  end.
Definition dimension_ok (v : yaml) : bool :=
  match v with YInt n => (1 <=? n) && (n <=? _MAX_BROWSER_WINDOW_DIMENSION) | _ => false end.
Definition check_locale (v : yaml) (locale : option yaml) : vprog unit :=
  match locale with
  | None => pret tt
  | Some locale =>
      let locales := match locale with YList l => l | _ => [locale] end in
      do! vcheck v ((1 <=? length locales)%nat && (length locales <=? _MAX_BROWSER_LOCALES)%nat)
            "locale must contain between 1 and 16 locale tags" in
      vcheck v (forallb locale_ok locales) "locale must be a locale tag or a list of locale tags"
  end.
Definition check_fonts (v : yaml) (fonts : option yaml) : vprog unit :=
  match fonts with
  | None => pret tt
  | Some (YList l) =>
      do! vcheck v (length l <=? _MAX_BROWSER_FONTS)%nat "fonts must be a list of at most 64 font names" in
      vcheck v (forallb font_ok l) "fonts contains an invalid font name"
  | Some _ => vfail v "fonts must be a list of at most 64 font names"
  end.
Definition check_custom_fonts (v : yaml) (custom_fonts_only fonts : option yaml) : vprog unit :=
  match custom_fonts_only with
  | None | Some (YBool false) => pret tt
  | Some (YBool true) =>
      vcheck v (match fonts with None | Some (YList []) => false | Some _ => true end)
        "custom_fonts_only requires at least one font"
  | Some _ => vfail v "custom_fonts_only must be a boolean"
  end.
Definition check_window (v : yaml) (window : option yaml) : vprog unit :=
  match window with
  | None => pret tt
  | Some window =>
      vcheck v (match window with YList [w; h] => dimension_ok w && dimension_ok h | _ => false end)
        "window must be a two-item list of positive integer dimensions"
  end.
Definition additional_arguments_field (v : yaml) : vprog (list (text * yaml)) :=
  let! value := dict_of 0 None pret v in
  do! vcheck v (forallb (λ x, existsb (λ n, bool_decide (x.1 = txt n)) _ALLOWED_BROWSER_ADDITIONAL_ARGUMENTS) value)
        "browser.additional_arguments contains unsupported or unsafe option(s)" in
  do! check_locale v (argument "locale" value) in
  do! check_fonts v (argument "fonts" value) in
  do! check_custom_fonts v (argument "custom_fonts_only" value) (argument "fonts" value) in
  do! check_window v (argument "window" value) in
  pret value.

Definition cdp_schemes : list text := [txt "http"; txt "https"; txt "ws"; txt "wss"].
Definition cdp_url_field (v : yaml) : vprog (option text) :=
  let! value := nullable string_ v in
  match value with
  | None => pret None
  | Some t => do! of_guard v (assert_public_url cdp_schemes false true t) in pret (Some t)
  end.

Definition browser_fields : list string :=
  ["timeout_ms"; "disable_resources"; "block_third_party"; "third_party_allow_hosts"; "block_url_patterns";
   "network_idle"; "stealth"; "hide_canvas"; "real_chrome"; "cdp_url"; "nstbrowser_mode"; "humanize"; "os_randomize";
   "geoip"; "disable_ads"; "additional_arguments"; "useragent"; "extra_headers"; "click_selector";
   "click_timeout_ms"; "click_wait_ms"; "wait_for_selector"; "wait_ms"; "actions"].
Definition _require_blocking_for_allow_hosts (m : members) (b : BrowserConfig) : vprog BrowserConfig :=
  do! vcheck (YDict m) (bool_decide (br_third_party_allow_hosts b = []) || br_block_third_party b)
        "browser.third_party_allow_hosts requires block_third_party: true" in
  pret b.
Definition validate_BrowserConfig : yaml → vprog BrowserConfig :=
  model browser_fields
    (λ m, pret Build_BrowserConfig
      <*> optional_ "timeout_ms" 60000 (integer (Some 1) (Some MAX_BROWSER_TIMEOUT_MS)) m
      <*> optional_ "disable_resources" true boolean m
      <*> optional_ "block_third_party" false boolean m
      <*> optional_ "third_party_allow_hosts" [] allow_hosts_field m
      <*> optional_ "block_url_patterns" [] block_patterns_field m
      <*> optional_ "network_idle" false boolean m
      <*> optional_ "stealth" false boolean m
      <*> optional_ "hide_canvas" false boolean m
      <*> optional_ "real_chrome" false boolean m
      <*> optional_ "cdp_url" None cdp_url_field m
      <*> optional_ "nstbrowser_mode" false boolean m
      <*> optional_ "humanize" None humanize_field m
      <*> optional_ "os_randomize" false boolean m
      <*> optional_ "geoip" false boolean m
      <*> optional_ "disable_ads" false boolean m
      <*> optional_ "additional_arguments" [] additional_arguments_field m
      <*> optional_ "useragent" None useragent_field m
      <*> optional_ "extra_headers" [] headers_field m
      <*> optional_ "click_selector" None short_selector_field m
      <*> optional_ "click_timeout_ms" (Some 3000) (nullable (integer (Some 1) (Some MAX_BROWSER_TIMEOUT_MS))) m
      <*> optional_ "click_wait_ms" None (nullable (integer (Some 0) (Some MAX_BROWSER_WAIT_MS))) m
      <*> optional_ "wait_for_selector" None short_selector_field m
      <*> optional_ "wait_ms" None (nullable (integer (Some 0) (Some MAX_BROWSER_WAIT_MS))) m
      <*> optional_ "actions" [] (list_of (Some MAX_BROWSER_ACTIONS) validate_BrowserActionConfig) m)
    _require_blocking_for_allow_hosts.

(** ** Targets *)

Definition target_url_field (v : yaml) : vprog text :=
  let! value := string_ v in
  do! of_guard v (assert_public_url http_schemes false true value) in
  pret value.
Fixpoint check_selectors (input : yaml) (l : list (text * SelectorValue)) : vprog unit :=
  match l with
  | [] => pret tt
  | (name, selector) :: l =>
      do! vcheck input (negb (bool_decide (name = [])) && (py_len name <=? MAX_SELECTOR_FIELD_NAME_CHARS)%nat)
            "Selector field names must contain between 1 and 256 characters" in
      do! check_short input selector in
      check_selectors input l
  end.
Definition selectors_field (v : yaml) : vprog (list (text * SelectorValue)) :=
  let! value := dict_of 1 (Some MAX_SELECTORS_PER_TARGET) selector_value v in
  do! check_selectors v value in
  pret value.
Definition is_basic (f : FetcherType) : bool := bool_decide (f = basic).
(** [_reject_browser_config_for_basic_fetcher], then [_require_browser_for_click_pagination]. *)
Definition check_fetcher (m : members) (t : TargetConfig) : vprog TargetConfig :=
  do! vcheck (YDict m) (negb (is_basic (tg_fetcher t) && match tg_browser t with Some _ => true | None => false end))
        "browser configuration requires a dynamic or stealthy fetcher" in
  do! vcheck (YDict m)
        (negb (match tg_pagination t with Some p => bool_decide (pg_mode p = by_click) | None => false end &&
               is_basic (tg_fetcher t)))
        "click pagination requires a dynamic or stealthy fetcher" in
  pret t.
Definition validate_TargetConfig : yaml → vprog TargetConfig :=
  model ["url"; "fetcher"; "adaptive_domain"; "browser"; "item_selector"; "selectors"; "pagination"; "proxy";
         "map_detection"; "stock_detection"]
    (λ m, pret Build_TargetConfig
      <*> required "url" target_url_field m
      <*> optional_ "fetcher" basic (enumeration fetcher_types) m
      <*> optional_ "adaptive_domain" None (nullable string_) m
      <*> optional_ "browser" None (nullable validate_BrowserConfig) m
      <*> optional_ "item_selector" None optional_selector m
      <*> required "selectors" selectors_field m
      <*> optional_ "pagination" None (nullable validate_PaginationConfig) m
      <*> optional_ "proxy" None (nullable validate_ProxyConfig) m
      <*> optional_ "map_detection" None (nullable validate_MapDetectionConfig) m
      <*> optional_ "stock_detection" None (nullable validate_StockDetectionConfig) m)
    check_fetcher.

(** ** Policies *)

Definition retryable_status_field (v : yaml) : vprog (list Z) :=
  let! l := list_of_ints (Some MAX_RETRYABLE_STATUSES) v in
  do! vcheck v (forallb (λ status, (100 <=? status) && (status <=? 599)) l)
        "retryable_status values must be valid HTTP status codes" in
  pret l.
Definition validate_RetryConfig : yaml → vprog RetryConfig :=
  model ["max_attempts"; "backoff"; "backoff_max"; "retryable_status"]
    (λ m, pret Build_RetryConfig
      <*> optional_ "max_attempts" 3 (integer (Some 1) (Some MAX_RETRY_ATTEMPTS)) m
      <*> optional_ "backoff" Retry.exponential (enumeration backoff_strategies) m
      <*> optional_ "backoff_max" 30 (integer (Some 0) (Some MAX_RETRY_BACKOFF_SECONDS)) m
      <*> optional_ "retryable_status" [429; 500; 502; 503; 504] retryable_status_field m)
    no_after.

Definition validate_ValidationConfig : yaml → vprog ValidationConfig :=
  model ["required_fields"; "min_results"; "on_empty"]
    (λ m, pret Build_ValidationConfig
      <*> optional_ "required_fields" [] (pattern_field MAX_REQUIRED_FIELDS MAX_SELECTOR_FIELD_NAME_CHARS false false) m
      <*> optional_ "min_results" 0 (integer (Some 0) None) m
      <*> optional_ "on_empty" on_warn (enumeration on_empty_actions) m)
    no_after.

Definition deadline_field (v : yaml) : vprog Z :=
  match aware_datetime v with Some t => pret t | None => vfail v "datetime" end.
Definition execution_fields : list string :=
  ["max_requests"; "max_fetched_bytes"; "max_extracted_records"; "max_serialized_result_bytes"; "deadline_at";
   "concurrency"; "delay_between"; "post_target_delay"; "domain_rate_limit"; "reuse_browser"; "mode"; "priority";
   "fail_strategy"; "page_cache"; "domain_daily_page_limit"].
Definition _validate_post_target_delay (m : members) (e : ExecutionConfig) : vprog ExecutionConfig :=
  do! vcheck (YDict m) (negb ((0 <? ex_post_target_delay e) && negb (ex_concurrency e =? 1)))
        "execution.post_target_delay requires execution.concurrency=1" in
  pret e.
Definition validate_ExecutionConfig : yaml → vprog ExecutionConfig :=
  model execution_fields
    (λ m, pret Build_ExecutionConfig
      <*> optional_ "max_requests" None (nullable (strict_integer 1)) m
      <*> optional_ "max_fetched_bytes" None (nullable (strict_integer 1)) m
      <*> optional_ "max_extracted_records" None (nullable (strict_integer 1)) m
      <*> optional_ "max_serialized_result_bytes" None (nullable (strict_integer 4096)) m
      <*> optional_ "deadline_at" None (nullable deadline_field) m
      <*> optional_ "concurrency" 2 (integer (Some 1) (Some MAX_EXECUTION_CONCURRENCY)) m
      <*> optional_ "delay_between" 2 (integer (Some 0) (Some MAX_EXECUTION_DELAY_SECONDS)) m
      <*> optional_ "post_target_delay" 0 (integer (Some 0) (Some MAX_EXECUTION_DELAY_SECONDS)) m
      <*> optional_ "domain_rate_limit" 3 (integer (Some 0) (Some MAX_DOMAIN_RATE_LIMIT_SECONDS)) m
      <*> optional_ "reuse_browser" false boolean m
      <*> optional_ "mode" mode_auto (enumeration execution_modes) m
      <*> optional_ "priority" prio_normal (enumeration priority_levels) m
      <*> optional_ "fail_strategy" fs_partial (enumeration fail_strategies) m
      <*> optional_ "page_cache" cache_off (enumeration page_cache_modes) m
      <*> optional_ "domain_daily_page_limit" None (nullable (strict_integer 1)) m)
    _validate_post_target_delay.

(** A [ValueError] is an error of the field, and so is an unknown zone. *)
Definition cron_field (v : yaml) : vprog text :=
  let! value := string_ v in
  match crontab_fields (decode value) with
  | Raise _ => vfail v "Invalid cron expression"
  | Ok fields =>
      match CronTrigger fields with
      | None => pret value
      | Some e => if bool_decide (e = "ValueError") then vfail v "Invalid cron expression" else praise (Crash e)
      end
  end.
Definition timezone_field (v : yaml) : vprog text :=
  let! value := string_ v in
  match ZoneInfo value with
  | None => pret value
  | Some e => if bool_decide (e ∈ ["ZoneInfoNotFoundError"; "ValueError"]) then vfail v "Invalid IANA timezone"
              else praise (Crash e)
  end.
Definition validate_ScheduleConfig : yaml → vprog ScheduleConfig :=
  model ["cron"; "timezone"; "enabled"]
    (λ m, pret Build_ScheduleConfig
      <*> required "cron" cron_field m
      <*> optional_ "timezone" (txt "UTC") timezone_field m
      <*> optional_ "enabled" true boolean m)
    no_after.

Definition validate_OutputConfig : yaml → vprog OutputConfig :=
  model ["group_by"] (λ m, pret Build_OutputConfig <*> optional_ "group_by" by_target (enumeration groupings) m) no_after.

Definition webhook_url_field (v : yaml) : vprog text :=
  match http_url v with
  | None => vfail v "url"
  | Some url => do! of_guard v (assert_public_url http_schemes false true url) in pret url
  end.
Definition validate_WebhookConfig : yaml → vprog WebhookConfig :=
  model ["url"; "on"; "headers"; "timeout"]
    (λ m, pret Build_WebhookConfig
      <*> required "url" webhook_url_field m
      <*> optional_ "on" [on_complete; on_partial] (list_of None (enumeration webhook_statuses)) m
      <*> optional_ "headers" [] headers_field m
      <*> optional_ "timeout" 10 (integer (Some 1) (Some MAX_WEBHOOK_TIMEOUT_SECONDS)) m)
    no_after.

(** ** The configuration *)

Definition storage_component (v : yaml) : vprog text :=
  let! value := string_ v in
  match safe_path_part (String.string_of_list_ascii value) with
  | Ok part => pret (txt part)
  | Raise _ => vfail v "project/name"
  end.
Definition targets_field (v : yaml) : vprog (list TargetConfig) :=
  let! l := list_of (Some MAX_TARGETS_PER_JOB) validate_TargetConfig v in
  do! vcheck v (negb (bool_decide (length l = 0%nat))) "too_short" in
  pret l.
Definition set_targets (l : list TargetConfig) (c : ScrapeConfig) : ScrapeConfig :=
  {| cf_project := cf_project c; cf_name := cf_name c; cf_target := cf_target c; cf_targets := Some l;
     cf_adaptive := cf_adaptive c; cf_proxy := cf_proxy c; cf_retry := cf_retry c; cf_validation := cf_validation c;
     cf_execution := cf_execution c; cf_schedule := cf_schedule c; cf_webhook := cf_webhook c;
     cf_output := cf_output c; cf_resolved_secret_values := cf_resolved_secret_values c |}.
(** ["_source" in target.selectors] *)
Definition uses_source (t : TargetConfig) : bool := existsb (λ x, bool_decide (x.1 = txt "_source")) (tg_selectors t).
Definition _normalize_targets (m : members) (c : ScrapeConfig) : vprog ScrapeConfig :=
  let! c := match cf_target c, cf_targets c with
            | Some _, Some _ => vfail (YDict m) "Specify either 'target' or 'targets', not both"
            | None, None => vfail (YDict m) "One of 'target' or 'targets' must be provided"
            | Some t, None => pret (set_targets [t] c)
            | None, Some _ => pret c
            end in
  do! vcheck (YDict m)
        (negb (bool_decide (ou_group_by (cf_output c) = by_merge) && existsb uses_source (default [] (cf_targets c))))
        "Selector field name '_source' is reserved when output.group_by is 'merge'" in
  pret c.
Definition config_fields : list string :=
  ["project"; "name"; "target"; "targets"; "adaptive"; "proxy"; "retry"; "validation"; "execution"; "schedule";
   "webhook"; "output"].
Definition validate_ScrapeConfig : yaml → vprog ScrapeConfig :=
  model config_fields
    (λ m, pret (λ project name target targets adaptive proxy retry validation execution schedule webhook output,
                  Build_ScrapeConfig project name target targets adaptive proxy retry validation execution schedule
                    webhook output [])
      <*> required "project" storage_component m
      <*> required "name" storage_component m
      <*> optional_ "target" None (nullable validate_TargetConfig) m
      <*> optional_ "targets" None (nullable targets_field) m
      <*> optional_ "adaptive" None (nullable boolean) m
      <*> optional_ "proxy" None (nullable validate_ProxyConfig) m
      <*> optional_ "retry" default_retry validate_RetryConfig m
      <*> optional_ "validation" default_validation validate_ValidationConfig m
      <*> optional_ "execution" default_execution validate_ExecutionConfig m
      <*> optional_ "schedule" None (nullable validate_ScheduleConfig) m
      <*> optional_ "webhook" None (nullable validate_WebhookConfig) m
      <*> optional_ "output" {| ou_group_by := by_target |} validate_OutputConfig m)
    _normalize_targets.

Definition resolved_targets (c : ScrapeConfig) : outcome string (list TargetConfig) :=
  match cf_targets c with Some l => Ok l | None => Raise "RuntimeError" end.

(** The defaults are what an empty document gives. *)
Example empty_retry s : validate_RetryConfig (YDict []) s = (Ok default_retry, s).
Proof. reflexivity. Qed.
Example empty_validation s : validate_ValidationConfig (YDict []) s = (Ok default_validation, s).
Proof. reflexivity. Qed.
Example empty_execution s : validate_ExecutionConfig (YDict []) s = (Ok default_execution, s).
Proof. reflexivity. Qed.
End schema.

(** ** What is sent to the browser fetchers ([BROWSER_FETCH_KWARGS]) *)

Inductive send_when := truthy | always_ | not_none.
Record BrowserFetchKwarg := { field_name : string; kwarg_name : string; send : send_when }.
(** The value of a field, as far as its truth is concerned. *)
Inductive kwarg_value := KNone | KFalsy | KTruthy.
Definition should_send (k : BrowserFetchKwarg) (v : kwarg_value) : bool :=
  match send k, v with
  | always_, _ => true
  | not_none, KNone => false
  | not_none, _ => true
  | truthy, KTruthy => true
  | truthy, _ => false
  end.
Definition kwarg (field name : string) (s : send_when) : BrowserFetchKwarg :=
  {| field_name := field; kwarg_name := name; send := s |}.
Definition BROWSER_FETCH_KWARGS : list BrowserFetchKwarg :=
  [kwarg "timeout_ms" "timeout" always_; kwarg "disable_resources" "disable_resources" always_;
   kwarg "network_idle" "network_idle" always_; kwarg "stealth" "stealth" always_;
   kwarg "hide_canvas" "hide_canvas" always_; kwarg "real_chrome" "real_chrome" always_;
   kwarg "nstbrowser_mode" "nstbrowser_mode" always_; kwarg "useragent" "useragent" truthy;
   kwarg "extra_headers" "extra_headers" truthy; kwarg "cdp_url" "cdp_url" truthy;
   kwarg "humanize" "humanize" not_none; kwarg "os_randomize" "os_randomize" truthy; kwarg "geoip" "geoip" truthy;
   kwarg "disable_ads" "disable_ads" truthy; kwarg "additional_arguments" "additional_arguments" truthy;
   kwarg "wait_for_selector" "wait_selector" truthy; kwarg "wait_ms" "wait" not_none].
