(* ===== verification/SchemaSpec.v ===== *)
(** * Accepted configurations are well formed

    Whatever the document, a configuration that the schema accepts keeps its bounds, its
    parts fit together, and the document has no unknown key at any depth. *)

From Stdlib Require Import QArith.
From S2P Require Import Prelude.
From S2P Require Import Text.
From S2P Require Import Unicode.
From S2P Require Import Paths.
From S2P Require Import Crontab.
From S2P Require Import Redaction.
From S2P Require Import Transforms.
From S2P Require Import Resilience.
From S2P Require Import Models.
From S2P Require Import IpPolicy.
From S2P Require Import UrlGuard.
From S2P Require Import Proxy.
From S2P Require Import Fields.
From S2P Require Import Schema.
From S2P Require Import UrlGuardSpec.
From S2P Require Import TransformsSpec.
Open Scope Z_scope.

(** ** Fields *)

Definition opt {A} (P : A → Prop) (o : option A) : Prop := ∀ a, o = Some a → P a.
Definition range (lo hi : option Z) (n : Z) : Prop :=
  match lo with Some lo => lo ≤ n | None => True end ∧ match hi with Some hi => n ≤ hi | None => True end.
Definition at_most {A} (max : option nat) (l : list A) : Prop :=
  match max with Some n => (length l ≤ n)%nat | None => True end.
(** Every key of a mapping is the name of a field. *)
Definition known (names : list string) (m : members) : Prop := ∀ k v, (k, v) ∈ m → ∃ n, n ∈ names ∧ k = key n.

Create HintDb schema discriminated.

Section fields.
Context `{Pydantic}.

Lemma within_ok v lo hi n : vpost (within v lo hi n) (range lo hi).
Proof.
  unfold within. apply vpost_if; [intros _; apply vpost_fail|intros Hl].
  apply vpost_if; [intros _; apply vpost_fail|intros Hh]. apply vpost_ret. split; repeat case_match; try done; lia.
Qed.
Lemma integer_ok lo hi v : vpost (integer lo hi v) (range lo hi).
Proof.
  unfold integer. apply vpost_if; [intros _; apply vpost_fail|intros _].
  eapply vpost_bind; [apply vpost_true|intros n _; apply within_ok].
Qed.
Lemma strict_integer_ok lo v : vpost (strict_integer lo v) (λ n, lo ≤ n).
Proof. destruct v; try apply vpost_fail. eapply vpost_mono; [apply within_ok|]. by intros ? [Hn _]. Qed.
Lemma bounded_string_ok lo hi v : vpost (bounded_string lo hi v) (λ s, (lo ≤ py_len s ≤ hi)%nat).
Proof.
  unfold bounded_string. eapply vpost_bind; [apply vpost_true|intros s _].
  apply vpost_if; [intros _; apply vpost_fail|intros Hl%Nat.ltb_ge].
  apply vpost_if; [intros _; apply vpost_fail|intros Hh%Nat.ltb_ge]. by apply vpost_ret.
Qed.
Lemma nullable_ok {A} (validate : yaml → vprog A) P v :
  (∀ v, vpost (validate v) P) → vpost (nullable validate v) (opt P).
Proof.
  intros Hv. assert (vpost (let! a := validate v in pret (Some a)) (opt P)) as Hs.
  { eapply vpost_bind; [apply Hv|]. intros a Ha. apply vpost_ret. by intros ? [= <-]. }
  destruct v; try exact Hs. by apply vpost_ret.
Qed.
Lemma items_ok {A} (validate : yaml → vprog A) P i l :
  (∀ v, vpost (validate v) P) → vpost (items validate i l) (λ r, Forall P r ∧ length r = length l).
Proof.
  intros Hv. revert i. induction l as [|v l IH]; intros i; [by apply vpost_ret|]. cbn [items].
  eapply vpost_ap; [|apply IH]. eapply vpost_ap; [|apply vpost_at, Hv]. apply vpost_ret.
  intros a Ha r [Hr E]. cbn. by rewrite E; split; [constructor|].
Qed.
Lemma list_of_ok {A} max (validate : yaml → vprog A) P v :
  (∀ v, vpost (validate v) P) → vpost (list_of max validate v) (λ l, Forall P l ∧ at_most max l).
Proof.
  intros Hv. unfold list_of. destruct (lax_list v) as [l|]; [|apply vpost_fail].
  apply vpost_if; [intros _; apply vpost_fail|intros Hl]. eapply vpost_mono; [by apply items_ok|].
  intros r [Hr E]. split; [done|]. unfold too_many, at_most in *. destruct max; [|done]. apply Nat.ltb_ge in Hl. lia.
Qed.
Lemma entries_ok {A} (validate : yaml → vprog A) P m :
  (∀ v, vpost (validate v) P) → vpost (entries validate m) (λ l, Forall (λ x, P x.2) l ∧ length l = length m).
Proof.
  intros Hv. induction m as [|[k v] m IH]; [by apply vpost_ret|]. cbn [entries].
  eapply vpost_ap; [|apply IH]. eapply vpost_ap; [|apply vpost_at, Hv].
  eapply vpost_ap; [|apply vpost_at, vpost_true]. apply vpost_ret.
  intros t _ a Ha l [Hl E]. cbn. by rewrite E; split; [constructor|].
Qed.
Lemma dict_of_ok {A} lo hi (validate : yaml → vprog A) P v :
  (∀ v, vpost (validate v) P) →
  vpost (dict_of lo hi validate v) (λ l, Forall (λ x, P x.2) l ∧ (lo ≤ length l)%nat ∧ at_most hi l).
Proof.
  intros Hv. unfold dict_of. destruct v as [| | | | | |m|]; try apply vpost_fail.
  apply vpost_if; [intros _; apply vpost_fail|intros Hh].
  eapply vpost_bind; [by apply entries_ok|]. intros l [Hl E].
  apply vpost_if; [intros _; apply vpost_fail|intros Hlo%Nat.ltb_ge]. apply vpost_ret.
  split_and!; [done|lia|]. unfold too_many, at_most in *. destruct hi; [|done]. apply Nat.ltb_ge in Hh. lia.
Qed.

(** A default is used where the document has no such key. *)
Lemma optional_ok {A} name (d : A) validate P m :
  (∀ v, vpost (validate v) P) → P d →
  vpost (optional_ name d validate m) (λ a, P a ∧ (get (key name) m = None → a = d)).
Proof.
  intros Hv Hd. unfold optional_. destruct (get (key name) m).
  - apply vpost_at. eapply vpost_mono; [apply Hv|]. done.
  - by apply vpost_ret.
Qed.
Lemma required_ok {A} name (validate : yaml → vprog A) P m :
  (∀ v, vpost (validate v) P) → vpost (required name validate m) P.
Proof. intros Hv. unfold required. apply vpost_at. destruct (get (key name) m); [done|apply vpost_fail]. Qed.

Lemma no_extra_ok names m : vpost (no_extra names m) (λ _, known names m).
Proof.
  induction m as [|[k v] m IH]; [apply vpost_ret; intros k v Hin; by apply elem_of_nil in Hin|]. cbn [no_extra].
  eapply vpost_ap; [|apply IH]. eapply (vpost_ap _ _ (λ _, ∃ n, n ∈ names ∧ k = key n)).
  - apply vpost_ret. intros [] Hk [] Hm k' v' [[= -> ->]|Hin]%elem_of_cons; [done|by eapply Hm].
  - apply vpost_at. destruct k as [s|]; [|apply vpost_fail]. eapply vpost_mono; [apply vpost_check|].
    intros _ (n & Hn%list_elem_of_In & ->%bool_decide_eq_true)%existsb_exists. by exists n.
Qed.
Lemma model_ok {A} names (fields : members → vprog A) after P Q v :
  (∀ m, vpost (fields m) (P m)) → (∀ m a, known names m → P m a → vpost (after m a) Q) →
  vpost (model names fields after v) Q.
Proof.
  intros Hf Ha. unfold model. destruct v as [| | | | | |m|]; try apply vpost_fail.
  eapply (vpost_bind _ _ (λ a, known names m ∧ P m a)); [|intros a [Hk Hp]; by apply Ha].
  eapply vpost_ap; [|apply no_extra_ok]. eapply vpost_ap; [|apply Hf]. apply vpost_ret. by intros a Hp [] Hk.
Qed.
Lemma model_plain {A} names (fields : members → vprog A) P v :
  (∀ m, vpost (fields m) P) → vpost (model names fields no_after v) P.
Proof. intros Hf. eapply (model_ok _ _ _ (λ _, P)); [done|]. intros m a _ Ha. by apply vpost_ret. Qed.
Lemma text_or_model_ok {A B} (short : text → B) (long : A → B) label validate (P : A → Prop) (Q : B → Prop) v :
  (∀ t, Q (short t)) → (∀ v, vpost (validate v) P) → (∀ a, P a → Q (long a)) →
  vpost (text_or_model short long label validate v) Q.
Proof.
  intros Hs Hv Hl s b s' E. unfold text_or_model in E. destruct (lax_str v) as [t|]; [by injection E as <- <-|].
  destruct (validate v s) as [[a|[l|e]] s1] eqn:Ev; [|done..]. injection E as <- <-. eapply Hl, Hv, Ev.
Qed.
End fields.

#[export] Hint Resolve integer_ok strict_integer_ok bounded_string_ok : schema.
#[export] Hint Resolve vpost_true | 50 : schema.

(** A validator is made of validators. *)
Ltac field_post :=
  lazymatch goal with
  | |- vpost (nullable _ _) _ => eapply nullable_ok; intros ?; field_post
  | |- vpost (list_of _ _ _) _ => eapply list_of_ok; intros ?; field_post
  | |- vpost (dict_of _ _ _ _) _ => eapply dict_of_ok; intros ?; field_post
  | _ => solve [eauto with schema]
  end.
(** The fields of a model, last to first. *)
Ltac each_field :=
  lazymatch goal with
  | |- vpost (_ <*> _) _ =>
      eapply vpost_ap; cycle 1;
      [first [ eapply optional_ok; [intros ?; field_post|]
             | eapply required_ok; intros ?; field_post ]
      | each_field ]
  | |- vpost (pret _) _ => apply vpost_ret; intros; destruct_and?
  | _ => idtac
  end.
(** What is left: the defaults, and that the fields make up the model. *)
Ltac model_goal :=
  solve [auto with schema | done | split; vm_compute; first [discriminate | exact I] | by split_and! | by constructor | by repeat constructor].
Ltac plain_model := apply model_plain; intros m; each_field; try model_goal.

(** ** The shape of a document *)

Section shapes.
Context `{Pydantic}.

(** What a document is at each place: anything; a value with a property; a mapping with these
    keys and no others, some of whose members have a shape; null or of a shape; a list; a
    mapping from any keys; a text or of a shape. *)
#[warnings="-register-all"]
Inductive shape :=
| Anything
| Such (P : yaml → Prop)
| Keys (names : list string) (members : list (string * shape))
| Maybe (s : shape)
| Each (s : shape)
| Values (s : shape)
| OrText (s : shape).

Fixpoint fits (s : shape) (v : yaml) : Prop :=
  match s with
  | Anything => True
  | Such P => P v
  | Keys names parts =>
      ∃ m, v = YDict m ∧ known names m ∧
        (fix all parts := match parts with
           | [] => True
           | (n, s) :: parts => (∀ w, get (key n) m = Some w → fits s w) ∧ all parts
           end) parts
  | Maybe s => v = YNone ∨ fits s v
  | Each s => ∃ l, lax_list v = Some l ∧ Forall (fits s) l
  | Values s => ∃ m, v = YDict m ∧ Forall (λ x, fits s x.2) m
  | OrText s => is_Some (lax_str v) ∨ fits s v
  end.

(** What the validator accepts has the shape. *)
Definition accepts {A} (validate : yaml → vprog A) (s : shape) : Prop := ∀ v, vpost (validate v) (λ _, fits s v).
(** A field that has the shape, if it is there. *)
Definition part_fits (m : members) (x : string * shape) : Prop := ∀ w, get (key x.1) m = Some w → fits x.2 w.

Lemma fits_keys names parts m : known names m → Forall (part_fits m) parts → fits (Keys names parts) (YDict m).
Proof.
  intros Hk Hp. exists m. split_and!; [done..|]. clear Hk. induction Hp as [|[n s] parts Hx _ IH]; [done|]. by split.
Qed.

Lemma then_fits {A B} (p : yaml → vprog A) (k : yaml → A → vprog B) s : accepts p s → accepts (λ v, pbind (p v) (k v)) s.
Proof. intros Hp v. eapply vpost_bind; [apply Hp|]. by intros a Hf b' ? ? _. Qed.
Lemma nullable_fits {A} (p : yaml → vprog A) s : accepts p s → accepts (nullable p) (Maybe s).
Proof.
  intros Hp v. assert (vpost (let! a := p v in pret (Some a)) (λ _, fits (Maybe s) v)) as Hs.
  { eapply vpost_bind; [apply Hp|]. intros a Hf. apply vpost_ret. by right. }
  destruct v; try exact Hs. apply vpost_ret. by left.
Qed.
Lemma items_fit {A} (p : yaml → vprog A) s i l : accepts p s → vpost (items p i l) (λ _, Forall (fits s) l).
Proof.
  intros Hp. revert i. induction l as [|v l IH]; intros i; [by apply vpost_ret|]. cbn [items].
  eapply vpost_ap; [|apply IH]. eapply vpost_ap; [|apply vpost_at, Hp]. apply vpost_ret. intros a Ha r Hr. by constructor.
Qed.
Lemma list_of_fits {A} max (p : yaml → vprog A) s : accepts p s → accepts (list_of max p) (Each s).
Proof.
  intros Hp v. unfold list_of. destruct (lax_list v) as [l|] eqn:El; [|apply vpost_fail].
  apply vpost_if; [intros _; apply vpost_fail|intros _]. eapply vpost_mono; [by apply items_fit|]. intros ? Hl. by exists l.
Qed.
Lemma entries_fit {A} (p : yaml → vprog A) s m : accepts p s → vpost (entries p m) (λ _, Forall (λ x, fits s x.2) m).
Proof.
  intros Hp. induction m as [|[k v] m IH]; [by apply vpost_ret|]. cbn [entries].
  eapply vpost_ap; [|apply IH]. eapply vpost_ap; [|apply vpost_at, Hp].
  eapply vpost_ap; [|apply vpost_at, vpost_true]. apply vpost_ret. intros t _ a Ha l Hl. by constructor.
Qed.
Lemma dict_of_fits {A} lo hi (p : yaml → vprog A) s : accepts p s → accepts (dict_of lo hi p) (Values s).
Proof.
  intros Hp v. unfold dict_of. destruct v as [| | | | | |m|]; try apply vpost_fail.
  apply vpost_if; [intros _; apply vpost_fail|intros _]. eapply vpost_bind; [by apply entries_fit|]. intros l Hl.
  apply vpost_if; [intros _; apply vpost_fail|intros _]. apply vpost_ret. by exists m.
Qed.
Lemma text_or_model_fits {A B} (short : text → B) (long : A → B) label p s :
  accepts p s → accepts (text_or_model short long label p) (OrText s).
Proof.
  intros Hp v st b st' E. unfold text_or_model in E. cbn. destruct (lax_str v) as [t|]; [by left|].
  destruct (p v st) as [[a|[l|e]] s1] eqn:Ev; [|done..]. right. by eapply Hp.
Qed.

Lemma optional_fits {A} name (d : A) p s m : accepts p s → vpost (optional_ name d p m) (λ _, part_fits m (name, s)).
Proof.
  intros Hp. unfold optional_, part_fits. cbn [fst snd]. destruct (get (key name) m) as [v|]; [|by apply vpost_ret].
  apply vpost_at. eapply vpost_mono; [apply Hp|]. by intros ? Hf ? [= <-].
Qed.
Lemma required_fits {A} name (p : yaml → vprog A) s m : accepts p s → vpost (required name p m) (λ _, part_fits m (name, s)).
Proof.
  intros Hp. unfold required, part_fits. cbn [fst snd]. apply vpost_at. destruct (get (key name) m) as [v|]; [|apply vpost_fail].
  eapply vpost_mono; [apply Hp|]. by intros ? Hf ? [= <-].
Qed.
(** A field among the others. *)
Lemma field_here {A B} (f : vprog (A → B)) (m : vprog A) (X : Prop) : vpost m (λ _, X) → vpost (f <*> m) (λ _, X).
Proof. intros Hm. eapply (vpost_ap _ _ (λ _, X)); [|exact Hm]. by intros ? ? ? _. Qed.
Lemma field_before {A B} (f : vprog (A → B)) (m : vprog A) (X : Prop) : vpost f (λ _, X) → vpost (f <*> m) (λ _, X).
Proof. intros Hf. eapply (vpost_ap _ _ (λ _, True)); [|apply vpost_true]. eapply vpost_mono; [exact Hf|]. done. Qed.
Lemma model_fits {A} names (fields : members → vprog A) after parts :
  (∀ m, Forall (λ x, vpost (fields m) (λ _, part_fits m x)) parts) → accepts (model names fields after) (Keys names parts).
Proof.
  intros Hf v. unfold model. destruct v as [| | | | | |m|]; try apply vpost_fail.
  eapply (vpost_bind _ _ (λ _, fits (Keys names parts) (YDict m))); [|by intros a Hk s a' s' _].
  eapply (vpost_ap _ _ (λ _, known names m)); [|apply no_extra_ok].
  eapply (vpost_ap _ _ (λ _, Forall (part_fits m) parts)).
  - apply vpost_ret. intros a Hp _ Hk. by apply fits_keys.
  - intros s a s' E. eapply Forall_impl; [apply Hf|]. intros x Hx. by eapply Hx.
Qed.

(** A duration in seconds, where [humanize] is a number or a text that [float] reads. *)
Definition humanize_checked (v : yaml) : Prop :=
  match v with
  | YInt n => ∃ f, float_of_int n = Some f ∧ duration_ok f = true
  | YFloat f => duration_ok f = true
  | YStr t => ∀ f, float_of_text t = Some f → duration_ok f = true
  | _ => True
  end.
Lemma humanize_fits v : vpost (_validate_humanize v) (λ _, humanize_checked v).
Proof.
  unfold _validate_humanize. destruct v as [|b|n|f|t|l|m|id]; cbn [humanize_checked]; try (by apply vpost_ret).
  - eapply vpost_mono; [apply vpost_check|]. intros ? Hd. destruct (float_of_int n) as [f|]; [by exists f|done].
  - eapply vpost_mono; [apply vpost_check|]. done.
  - destruct (float_of_text t) as [f|]; [|by apply vpost_ret]. eapply vpost_mono; [apply vpost_check|]. by intros ? Hd ? [= <-].
Qed.

(** *** The configuration *)

Definition action_shape : shape :=
  Keys ["type"; "selector"; "optional"; "timeout_ms"; "wait_ms"; "times"; "pixels"; "max_times"; "wait_for_selector"] [].
Definition browser_shape : shape := Keys browser_fields [("humanize", Such humanize_checked); ("actions", Each action_shape)].
Definition selector_shape : shape := OrText (Keys ["query"; "type"; "transform"] []).
Definition pagination_shape : shape :=
  Keys ["mode"; "next"; "page_param"; "page_first"; "page_step"; "max_pages"] [("next", Maybe selector_shape)].
Definition proxy_shape : shape := Keys ["url"] [].
Definition map_shape : shape := Keys ["text_patterns"; "css_selectors"; "price_value_patterns"] [].
Definition pattern_shape : shape := Keys ["text_patterns"; "css_selectors"] [].
Definition stock_shape : shape :=
  Keys ["in_stock"; "out_of_stock"; "limited_stock"; "backorder"; "preorder"]
    [("in_stock", Maybe pattern_shape); ("out_of_stock", Maybe pattern_shape); ("limited_stock", Maybe pattern_shape);
     ("backorder", Maybe pattern_shape); ("preorder", Maybe pattern_shape)].
Definition target_shape : shape :=
  Keys ["url"; "fetcher"; "adaptive_domain"; "browser"; "item_selector"; "selectors"; "pagination"; "proxy";
        "map_detection"; "stock_detection"]
    [("browser", Maybe browser_shape); ("item_selector", Maybe selector_shape); ("selectors", Values selector_shape);
     ("pagination", Maybe pagination_shape); ("proxy", Maybe proxy_shape); ("map_detection", Maybe map_shape);
     ("stock_detection", Maybe stock_shape)].
Definition retry_shape : shape := Keys ["max_attempts"; "backoff"; "backoff_max"; "retryable_status"] [].
Definition validation_shape : shape := Keys ["required_fields"; "min_results"; "on_empty"] [].
Definition execution_shape : shape := Keys execution_fields [].
Definition schedule_shape : shape := Keys ["cron"; "timezone"; "enabled"] [].
Definition webhook_shape : shape := Keys ["url"; "on"; "headers"; "timeout"] [].
Definition output_shape : shape := Keys ["group_by"] [].
Definition config_shape : shape :=
  Keys config_fields
    [("target", Maybe target_shape); ("targets", Maybe (Each target_shape)); ("proxy", Maybe proxy_shape);
     ("retry", retry_shape); ("validation", validation_shape); ("execution", execution_shape);
     ("schedule", Maybe schedule_shape); ("webhook", Maybe webhook_shape); ("output", output_shape)].
Lemma action_fits : accepts validate_BrowserActionConfig action_shape.
Proof. apply model_fits. intros m. constructor. Qed.
End shapes.

Create HintDb shapes discriminated.
#[export] Hint Resolve nullable_fits list_of_fits action_fits : shapes.
(** Each part of a shape is a field of the model. *)
Ltac find_part :=
  first [ apply field_here; first [apply optional_fits | apply required_fits]; try solve [auto with shapes]
        | apply field_before; find_part ].
Ltac each_part := intros m; repeat (apply Forall_cons; split; [find_part|]); try apply Forall_nil_2.

(** ** Well-formed configurations *)

Section wf.
Context `{Pydantic} `{NetLib} `{RegexLib} (settings : Settings) `{Printable} `{Digits} `{SchemaLib}.

(** What a normalized list of patterns is: the trimmed items in order, lowered if case does
    not matter, of which no two are the same, none is blank and none too long. *)
Definition pattern_item (max : nat) (allow_empty : bool) (t : text) : Prop :=
  (allow_empty = true ∧ t = []) ∨ (t ≠ [] ∧ (∃ raw, t = Text.strip raw) ∧ (py_len t ≤ max)%nat).
Definition patterns_ok (count max : nat) (case_insensitive allow_empty : bool) (l : list text) : Prop :=
  (length l ≤ count)%nat ∧
  ∃ items, l = map (if case_insensitive then lower_text else id) items ∧ Forall (pattern_item max allow_empty) items ∧
    NoDup (map (if case_insensitive then casefold else id) items).

Definition query_ok (t : text) : Prop := blank t = false ∧ (py_len t ≤ MAX_SELECTOR_QUERY_CHARS)%nat.
Definition transform_ok (t : text) : Prop :=
  ∃ b ts b', parse_transform_pipeline settings (decode t) b = (Ok ts, b').
Definition selector_ok (s : SelectorValue) : Prop :=
  match s with Short q => query_ok q | Long l => query_ok (sl_query l) ∧ opt transform_ok (sl_transform l) end.
Definition header_ok (x : text * text) : Prop :=
  header_name x.1 = true ∧ Forall (λ h, lowered x.1 ≠ txt h) _FORBIDDEN_CUSTOM_HEADERS ∧ header_value_ok x.2 = true.
Definition headers_ok (l : list (text * text)) : Prop := Forall header_ok l ∧ NoDup (map (λ x, lowered x.1) l).
Definition public_url (schemes : list text) (url : text) : Prop := assert_public_url schemes false true url = Ok tt.

Definition map_detection_ok (d : MapDetectionConfig) : Prop :=
  patterns_ok 100 512 true false (md_text d) ∧ patterns_ok 50 4096 false false (md_css d) ∧
  patterns_ok 100 512 false true (md_price d).
Definition stock_pattern_ok (p : StockPatternConfig) : Prop :=
  patterns_ok 100 512 true false (sp_text p) ∧ patterns_ok 50 4096 false false (sp_css p).
Definition stock_detection_ok (d : StockDetectionConfig) : Prop :=
  Forall (opt stock_pattern_ok) [in_stock d; out_of_stock d; limited_stock d; backorder d; preorder d].

(** A proxy is none, or public; braces are those of the session placeholder. *)
Definition proxy_ok (p : ProxyConfig) : Prop :=
  px_url p = _DIRECT_PROXY ∨
  (public_url _ALLOWED_PROXY_SCHEMES (px_url p) ∧ _validate_session_placeholder (px_url p) = Ok tt).

Record pagination_ok (p : PaginationConfig) : Prop := {
  pgo_next : opt selector_ok (pg_next p);
  pgo_param : opt (λ t, page_param_text t = true ∧ (1 ≤ py_len t ≤ 64)%nat) (pg_page_param p);
  pgo_first : 0 ≤ pg_page_first p ≤ 1000000;
  pgo_step : 1 ≤ pg_page_step p ≤ 1000000;
  pgo_pages : 1 ≤ pg_max_pages p ≤ 100;
  pgo_source : match pg_mode p with
               | by_click => pg_next p ≠ None ∧ pg_page_param p = None
               | by_link => pg_next p ≠ None ∨ pg_page_param p ≠ None
               end }.

(** The fields that an action does not use have their defaults. *)
Definition unused (a : BrowserActionConfig) (name : string) : Prop := name ∉ allowed_fields (ba_type a).
Record action_ok (a : BrowserActionConfig) : Prop := {
  ao_selector : opt query_ok (ba_selector a);
  ao_timeout : opt (λ n, 1 ≤ n ≤ 300000) (ba_timeout_ms a);
  ao_wait : opt (λ n, 0 ≤ n ≤ 60000) (ba_wait_ms a);
  ao_times : 1 ≤ ba_times a ≤ 50;
  ao_pixels : ba_pixels a ≠ 0;
  ao_max_times : 1 ≤ ba_max_times a ≤ 50;
  ao_then : opt query_ok (ba_wait_for_selector a);
  ao_needs_selector : needs_selector (ba_type a) = true → ba_selector a ≠ None;
  ao_needs_wait : ba_type a = wait_ms_ → ba_wait_ms a ≠ None;
  ao_unused :
    (unused a "selector" → ba_selector a = None) ∧ (unused a "timeout_ms" → ba_timeout_ms a = None) ∧
    (unused a "times" → ba_times a = 1) ∧ (unused a "pixels" → ba_pixels a = 1200) ∧
    (unused a "max_times" → ba_max_times a = 1) ∧ (unused a "wait_for_selector" → ba_wait_for_selector a = None) }.

Definition arguments_ok (l : list (text * yaml)) : Prop :=
  Forall (λ x, ∃ n, n ∈ _ALLOWED_BROWSER_ADDITIONAL_ARGUMENTS ∧ x.1 = txt n) l ∧
  opt (λ v, match v with
            | YList locales => (1 ≤ length locales ≤ 16)%nat ∧ Forall (λ x, locale_ok x = true) locales
            | _ => locale_ok v = true
            end) (argument "locale" l) ∧
  opt (λ v, ∃ fonts, v = YList fonts ∧ (length fonts ≤ 64)%nat ∧ Forall (λ x, font_ok x = true) fonts) (argument "fonts" l) ∧
  opt (λ v, v = YBool false ∨ v = YBool true ∧ ∃ f fs, argument "fonts" l = Some (YList (f :: fs)))
    (argument "custom_fonts_only" l) ∧
  opt (λ v, ∃ w h, v = YList [YInt w; YInt h] ∧ 1 ≤ w ≤ 16384 ∧ 1 ≤ h ≤ 16384) (argument "window" l).

Record browser_ok (b : BrowserConfig) : Prop := {
  bo_timeout : 1 ≤ br_timeout_ms b ≤ 300000;
  bo_hosts : Forall (λ h, block_allow_host h = true) (br_third_party_allow_hosts b) ∧ NoDup (br_third_party_allow_hosts b);
  bo_blocking : br_third_party_allow_hosts b ≠ [] → br_block_third_party b = true;
  bo_patterns : patterns_ok 100 2048 false false (br_block_url_patterns b) ∧
                Forall (λ p, existsb isspace (decode p) = false) (br_block_url_patterns b);
  bo_cdp : opt (public_url cdp_schemes) (br_cdp_url b);
  bo_arguments : arguments_ok (br_additional_arguments b);
  bo_useragent : opt (λ t, header_value_ok t = true) (br_useragent b);
  bo_headers : headers_ok (br_extra_headers b);
  bo_click : opt query_ok (br_click_selector b);
  bo_click_timeout : opt (λ n, 1 ≤ n ≤ 300000) (br_click_timeout_ms b);
  bo_click_wait : opt (λ n, 0 ≤ n ≤ 60000) (br_click_wait_ms b);
  bo_wait_for : opt query_ok (br_wait_for_selector b);
  bo_wait : opt (λ n, 0 ≤ n ≤ 60000) (br_wait_ms b);
  bo_actions : Forall action_ok (br_actions b) ∧ (length (br_actions b) ≤ 50)%nat }.

Record target_ok (t : TargetConfig) : Prop := {
  to_url : public_url http_schemes (tg_url t);
  to_browser : opt browser_ok (tg_browser t);
  to_item : opt selector_ok (tg_item_selector t);
  to_selectors : Forall (λ x, x.1 ≠ [] ∧ (py_len x.1 ≤ 256)%nat ∧ selector_ok x.2) (tg_selectors t);
  to_count : (1 ≤ length (tg_selectors t) ≤ 100)%nat;
  to_pagination : opt pagination_ok (tg_pagination t);
  to_proxy : opt proxy_ok (tg_proxy t);
  to_map : opt map_detection_ok (tg_map_detection t);
  to_stock : opt stock_detection_ok (tg_stock_detection t);
  to_fetcher : tg_fetcher t = basic → tg_browser t = None ∧ opt (λ p, pg_mode p = by_link) (tg_pagination t) }.

Record retry_ok (r : RetryConfig) : Prop := {
  ro_attempts : 1 ≤ rt_max_attempts r ≤ 10;
  ro_backoff : 0 ≤ rt_backoff_max r ≤ 300;
  ro_statuses : Forall (λ s, 100 ≤ s ≤ 599) (rt_retryable_status r) ∧ (length (rt_retryable_status r) ≤ 32)%nat }.
Definition validation_ok (v : ValidationConfig) : Prop :=
  patterns_ok 100 256 false false (va_required_fields v) ∧ 0 ≤ va_min_results v.
Record execution_ok (e : ExecutionConfig) : Prop := {
  eo_requests : opt (λ n, 1 ≤ n) (ex_max_requests e);
  eo_bytes : opt (λ n, 1 ≤ n) (ex_max_fetched_bytes e);
  eo_records : opt (λ n, 1 ≤ n) (ex_max_extracted_records e);
  eo_result : opt (λ n, 4096 ≤ n) (ex_max_serialized_result_bytes e);
  eo_concurrency : 1 ≤ ex_concurrency e ≤ 50;
  eo_between : 0 ≤ ex_delay_between e ≤ 3600;
  eo_post : 0 ≤ ex_post_target_delay e ≤ 3600;
  eo_rate : 0 ≤ ex_domain_rate_limit e ≤ 3600;
  eo_daily : opt (λ n, 1 ≤ n) (ex_domain_daily_page_limit e);
  eo_sequential : ex_post_target_delay e ≠ 0 → ex_concurrency e = 1 }.
Definition schedule_ok (s : ScheduleConfig) : Prop :=
  (∃ fields, crontab_fields (decode (sc_cron s)) = Ok fields ∧ CronTrigger fields = None) ∧
  (sc_timezone s = txt "UTC" ∨ ZoneInfo (sc_timezone s) = None).
Record webhook_ok (w : WebhookConfig) : Prop := {
  wo_url : public_url http_schemes (wh_url w);
  wo_headers : headers_ok (wh_headers w);
  wo_timeout : 1 ≤ wh_timeout w ≤ 60 }.

Definition safe_part (t : text) : Prop := ∃ s, safe_path_part s = Ok s ∧ t = txt s.
Record config_ok (c : ScrapeConfig) : Prop := {
  co_project : safe_part (cf_project c);
  co_name : safe_part (cf_name c);
  co_targets : ∃ l, resolved_targets c = Ok l ∧ (1 ≤ length l ≤ 100)%nat ∧ Forall target_ok l ∧
                    (∀ t, cf_target c = Some t → l = [t]) ∧
                    (ou_group_by (cf_output c) = by_merge → Forall (λ t, uses_source t = false) l);
  co_proxy : opt proxy_ok (cf_proxy c);
  co_retry : retry_ok (cf_retry c);
  co_validation : validation_ok (cf_validation c);
  co_execution : execution_ok (cf_execution c);
  co_schedule : opt schedule_ok (cf_schedule c);
  co_webhook : opt webhook_ok (cf_webhook c) }.

(** ** The validators *)

Lemma check_bind {A} v b msg (k : unit → vprog A) P :
  (b = true → vpost (k tt) P) → vpost (pbind (vcheck v b msg) k) P.
Proof. intros Hk. eapply vpost_bind; [apply vpost_check|]. by intros []. Qed.

Lemma normalize_patterns_ok input max ci ae seen values :
  (ae = true → ci = false) →
  vpost (normalize_patterns input max ci ae seen values) (λ l, length l = length values ∧ ∃ items,
    l = map (if ci then lower_text else id) items ∧ Forall (pattern_item max ae) items ∧
    NoDup (map (if ci then casefold else id) items) ∧
    ∀ i, i ∈ map (if ci then casefold else id) items → i ∉ seen).
Proof.
  intros Hci. revert seen. induction values as [|value values IH]; intros seen; cbn [normalize_patterns].
  { apply vpost_ret. split; [done|]. exists []. split_and!; [done|constructor..|]. intros i []%elem_of_nil. }
  assert (∀ item identity : text, identity ∉ seen → identity = (if ci then casefold else id) item →
    pattern_item max ae item →
    vpost (let! l := normalize_patterns input max ci ae (identity :: seen) values in
           pret ((if ci then lower_text item else item) :: l)) (λ l, length l = S (length values) ∧ ∃ items,
      l = map (if ci then lower_text else id) items ∧ Forall (pattern_item max ae) items ∧
      NoDup (map (if ci then casefold else id) items) ∧
      ∀ i, i ∈ map (if ci then casefold else id) items → i ∉ seen)) as Hstep.
  { intros item identity Hn -> Hitem. eapply vpost_bind; [apply IH|]. intros l (El & items & -> & Hitems & Hnd & Hseen).
    apply vpost_ret. cbn [length]. split; [by rewrite El|]. exists (item :: items). cbn [map].
    split_and!; [by destruct ci|by constructor| |].
    - constructor; [|done]. intros Hin. apply (Hseen _ Hin). by left.
    - intros i [->|Hi]%elem_of_cons; [done|]. intros Hs. apply (Hseen _ Hi). by right. }
  apply vpost_if.
  - intros [Hae ->%bool_decide_eq_true]%andb_true_iff. apply check_bind. intros Hs%negb_true_iff%bool_decide_eq_false.
    specialize (Hstep [] [] Hs). rewrite (Hci Hae) in *. apply Hstep; [done|]. by left.
  - intros _. cbv zeta. apply check_bind. intros Hb%negb_true_iff%bool_decide_eq_false.
    apply check_bind. intros Hl%Nat.leb_le. apply check_bind. intros Hs%negb_true_iff%bool_decide_eq_false.
    apply Hstep; [done|by destruct ci|]. right. split_and!; [done|by eexists|done].
Qed.
Lemma pattern_field_ok count max ci ae v :
  (ae = true → ci = false) → vpost (pattern_field count max ci ae v) (patterns_ok count max ci ae).
Proof.
  intros Hci. unfold pattern_field. eapply vpost_bind; [eapply (list_of_ok _ _ (λ _, True)); intros; apply vpost_true|].
  intros l [_ Hl]. eapply vpost_mono; [by apply normalize_patterns_ok|].
  intros r (E & items & -> & Hi & Hn & _). split; [by rewrite E|]. by exists items.
Qed.
Lemma plain_patterns_ok count max ci v : vpost (pattern_field count max ci false v) (patterns_ok count max ci false).
Proof. by apply pattern_field_ok. Qed.
Lemma price_patterns_ok count max v : vpost (pattern_field count max false true v) (patterns_ok count max false true).
Proof. by apply pattern_field_ok. Qed.
Hint Resolve plain_patterns_ok price_patterns_ok : schema.
Lemma patterns_nil count max ci ae : patterns_ok count max ci ae [].
Proof. split; [cbn; lia|]. exists []. split_and!; [done|constructor..]. Qed.
Hint Resolve patterns_nil : schema.
Lemma opt_none {A} (P : A → Prop) : opt P None.
Proof. done. Qed.
Hint Resolve opt_none : schema.
Lemma opt_some {A} (P : A → Prop) a : P a → opt P (Some a).
Proof. by intros Ha ? [= <-]. Qed.

Lemma short_query_ok input t : vpost (_validate_short_selector_query input t) query_ok.
Proof.
  unfold _validate_short_selector_query. apply check_bind. intros Hb%negb_true_iff. apply check_bind.
  intros Hl%Nat.leb_le. by apply vpost_ret.
Qed.
Lemma short_selector_ok v : vpost (short_selector_field v) (opt query_ok).
Proof.
  unfold short_selector_field. eapply vpost_bind; [apply vpost_true|]. intros [t|] _; [|by apply vpost_ret].
  eapply vpost_bind; [apply short_query_ok|]. intros q Hq. by apply vpost_ret, opt_some.
Qed.

Lemma check_headers_ok input seen l :
  vpost (check_headers input seen l) (λ _, headers_ok l ∧ ∀ x, x ∈ l → lowered x.1 ∉ seen).
Proof.
  revert seen. induction l as [|[name value] l IH]; intros seen; cbn [check_headers].
  { apply vpost_ret. split; [split; constructor|]. intros x []%elem_of_nil. }
  apply check_bind. intros Hn. cbv zeta. apply check_bind. intros Hs%negb_true_iff%bool_decide_eq_false.
  apply check_bind. intros Hf%negb_true_iff. apply check_bind. intros Hv.
  eapply vpost_mono; [apply IH|]. intros [] [[Hl Hnd] Hseen]. split; [split|].
  - constructor; [|done]. split_and!; [done| |done]. apply Forall_forall. intros h Hh E.
    cut (existsb (λ h, bool_decide (lowered name = txt h)) _FORBIDDEN_CUSTOM_HEADERS = true); [by rewrite Hf|].
    apply existsb_exists. exists h. split; [by apply list_elem_of_In|]. by apply bool_decide_eq_true.
  - cbn. constructor; [|done]. intros (x & E & Hx)%list_elem_of_fmap. apply (Hseen x Hx). rewrite <- E. by left.
  - intros x [->|Hx]%elem_of_cons; [done|]. intros Hin. apply (Hseen x Hx). by right.
Qed.
Lemma headers_field_ok v : vpost (headers_field v) headers_ok.
Proof.
  unfold headers_field. eapply vpost_bind; [apply vpost_true|]. intros l _.
  eapply vpost_bind; [apply check_headers_ok|]. intros [] [Hl _]. by apply vpost_ret.
Qed.
Lemma headers_nil : headers_ok [].
Proof. split; constructor. Qed.
Lemma of_guard_ok {A} v (r : result A) : vpost (of_guard v r) (λ a, r = Ok a).
Proof. destruct r as [a|[]]; [by apply vpost_ret|apply vpost_fail|apply vpost_raise|apply vpost_fail]. Qed.
Hint Resolve short_selector_ok headers_field_ok headers_nil : schema.

Lemma map_detection_valid v : vpost (validate_MapDetectionConfig v) map_detection_ok.
Proof. plain_model. Qed.
Lemma stock_pattern_valid v : vpost (validate_StockPatternConfig v) stock_pattern_ok.
Proof. plain_model. Qed.
Hint Resolve map_detection_valid stock_pattern_valid : schema.
Lemma stock_detection_valid v : vpost (validate_StockDetectionConfig v) stock_detection_ok.
Proof. plain_model. by repeat (constructor; [assumption|]). Qed.
Hint Resolve stock_detection_valid : schema.

Lemma check_transform_ok v t : vpost (check_transform settings v t) (λ _, transform_ok t).
Proof.
  intros s [] s' E. unfold check_transform in E. destruct (parse_transform_pipeline _ _ s) as [[ts|[]] b] eqn:Ep; try done.
  by exists s, ts, b.
Qed.
Lemma transform_field_ok v : vpost (transform_field settings v) (opt transform_ok).
Proof.
  unfold transform_field. eapply vpost_bind; [apply vpost_true|]. intros [t|] _; [|by apply vpost_ret].
  eapply vpost_bind; [apply check_transform_ok|]. intros [] Ht. by apply vpost_ret, opt_some.
Qed.
Lemma query_field_ok v : vpost (query_field v) query_ok.
Proof.
  unfold query_field. eapply vpost_bind; [apply bounded_string_ok|]. intros q [_ Hl]. apply check_bind.
  intros Hb%negb_true_iff. by apply vpost_ret.
Qed.
Hint Resolve transform_field_ok query_field_ok : schema.
Lemma selector_long_valid v :
  vpost (validate_SelectorLong settings v) (λ l, query_ok (sl_query l) ∧ opt transform_ok (sl_transform l)).
Proof. plain_model. Qed.
Hint Resolve selector_long_valid : schema.

(** A field whose value is checked again, if it is a text. *)
Definition long_ok (s : SelectorValue) : Prop :=
  match s with Short _ => True | Long l => query_ok (sl_query l) ∧ opt transform_ok (sl_transform l) end.
Lemma selector_value_ok v : vpost (selector_value settings v) long_ok.
Proof. unfold selector_value. eapply text_or_model_ok; [done|apply selector_long_valid|done]. Qed.
Lemma check_short_ok v s : long_ok s → vpost (check_short v s) (λ _, selector_ok s).
Proof.
  intros Hs. destruct s as [q|l]; cbn [check_short]; [|by apply vpost_ret].
  unfold _validate_short_selector_query. eapply (vpost_bind _ _ (λ _, query_ok q)); [|intros ? Hq; by apply vpost_ret].
  apply check_bind. intros Hb%negb_true_iff. apply check_bind. intros Hl%Nat.leb_le. by apply vpost_ret.
Qed.
Lemma optional_selector_ok v : vpost (optional_selector settings v) (opt selector_ok).
Proof.
  unfold optional_selector. eapply vpost_bind; [eapply nullable_ok, selector_value_ok|].
  intros [s|] Hs; [|by apply vpost_ret]. eapply vpost_bind; [apply check_short_ok; by apply Hs|].
  intros [] Hok. by apply vpost_ret, opt_some.
Qed.
Hint Resolve optional_selector_ok : schema.

Lemma proxy_url_ok v : vpost (proxy_url_field v) (λ url, proxy_ok {| px_url := url |}).
Proof.
  unfold proxy_url_field. eapply vpost_bind; [apply vpost_true|]. intros t _.
  eapply vpost_mono; [apply of_guard_ok|]. intros url. unfold normalize_public_proxy_url, rbind.
  destruct (normalize_proxy_url t) as [p|] eqn:En; [|done]. case_bool_decide as Hd; [intros [= <-]; by left|].
  destruct (assert_public_url _ _ _ _) as [[]|] eqn:Ea; [|done]. intros [= <-]. right.
  apply normalized_cases in En as [|[Hv _]]; [done|]. by split.
Qed.
Hint Resolve proxy_url_ok : schema.
Lemma proxy_valid v : vpost (validate_ProxyConfig v) proxy_ok.
Proof. plain_model. Qed.

Lemma page_param_ok v : vpost (page_param_field v) (opt (λ t, page_param_text t = true ∧ (1 ≤ py_len t ≤ 64)%nat)).
Proof.
  unfold page_param_field. eapply vpost_bind; [eapply nullable_ok; intros ?; apply bounded_string_ok|].
  intros [t|] Ht; [|by apply vpost_ret]. apply check_bind. intros Hp. apply vpost_ret, opt_some. split; [done|by apply Ht].
Qed.
Hint Resolve page_param_ok : schema.
Lemma pagination_valid v : vpost (validate_PaginationConfig settings v) pagination_ok.
Proof.
  eapply (model_ok _ _ _ (λ _ p, opt selector_ok (pg_next p) ∧
    opt (λ t, page_param_text t = true ∧ (1 ≤ py_len t ≤ 64)%nat) (pg_page_param p) ∧ 0 ≤ pg_page_first p ≤ 1000000 ∧
    1 ≤ pg_page_step p ≤ 1000000 ∧ 1 ≤ pg_max_pages p ≤ 100)).
  - intros m. each_field; try model_goal.
  - intros m p _ (Hn & Hp & Hf & Hs & Hm). unfold _validate_page_source.
    destruct (pg_mode p) eqn:Em, (pg_next p) eqn:En, (pg_page_param p) eqn:Ep; try apply vpost_fail; apply vpost_ret;
      constructor; rewrite ?Em, ?En, ?Ep; auto.
Qed.

(** ** Actions *)

Lemma get_known m name (l : list string) :
  forallb (λ x, existsb (λ n, bool_decide (x.1 = key n)) l) m = true → name ∉ l → get (key name) m = None.
Proof.
  intros Hm Hn. induction m as [|[k v] m IH]; [done|]. cbn in *. apply andb_true_iff in Hm as [Hk Hm].
  destruct (decide (key name = k)) as [<-|]; [|by apply IH]. destruct Hn.
  apply existsb_exists in Hk as (n & Hn%list_elem_of_In & E%bool_decide_eq_true).
  assert (name = n) as ->; [|done]. unfold key in E. injection E as E. unfold txt in E.
  rewrite <- (String.string_of_list_ascii_of_string name), E. apply String.string_of_list_ascii_of_string.
Qed.
Lemma pixels_ok v : vpost (pixels_field v) (λ n, n ≠ 0).
Proof.
  unfold pixels_field. eapply vpost_bind; [apply vpost_true|]. intros n _. apply check_bind.
  intros Hn%negb_true_iff%Z.eqb_neq. by apply vpost_ret.
Qed.
Hint Resolve pixels_ok : schema.
(** What the fields of an action have by themselves. *)
Record action_fields (m : members) (a : BrowserActionConfig) : Prop := {
  af_selector : opt query_ok (ba_selector a) ∧ (get (key "selector") m = None → ba_selector a = None);
  af_timeout : opt (range (Some 1) (Some 300000)) (ba_timeout_ms a) ∧ (get (key "timeout_ms") m = None → ba_timeout_ms a = None);
  af_wait : opt (range (Some 0) (Some 60000)) (ba_wait_ms a) ∧ (get (key "wait_ms") m = None → ba_wait_ms a = None);
  af_times : range (Some 1) (Some 50) (ba_times a) ∧ (get (key "times") m = None → ba_times a = 1);
  af_pixels : ba_pixels a ≠ 0 ∧ (get (key "pixels") m = None → ba_pixels a = 1200);
  af_max_times : range (Some 1) (Some 50) (ba_max_times a) ∧ (get (key "max_times") m = None → ba_max_times a = 1);
  af_then : opt query_ok (ba_wait_for_selector a) ∧ (get (key "wait_for_selector") m = None → ba_wait_for_selector a = None) }.
Lemma action_valid v : vpost (validate_BrowserActionConfig v) action_ok.
Proof.
  eapply (model_ok _ _ _ action_fields).
  - intros m. each_field; try model_goal.
  - intros m a _ [Hs Ht Hw Hn Hp Hx Hf]. unfold _validate_action_requirements.
    apply check_bind. intros Hsel%negb_true_iff. apply check_bind. intros Hwait. apply check_bind. intros Hk. apply vpost_ret.
    assert (∀ name, unused a name → get (key name) m = None) as Hu by (intros name; by apply get_known).
    destruct_and?. constructor; try done.
    + intros Hneed E. by rewrite Hneed, E in Hsel.
    + intros E En. by rewrite E, En in Hwait.
    + split_and!; intros Hun%Hu; auto.
Qed.
Hint Resolve action_valid : schema.

Lemma forallb_Forall {A} (p : A → bool) l : forallb p l = true → Forall (λ x, p x = true) l.
Proof. intros Hl. apply Forall_forall. intros x Hx. apply forallb_forall with (x := x) in Hl; [done|by apply list_elem_of_In]. Qed.

(** ** Browsers *)

Lemma allow_hosts_ok input hosts entries :
  Forall (λ h, block_allow_host h = true) hosts → NoDup hosts →
  vpost (allow_hosts input hosts entries) (λ l, Forall (λ h, block_allow_host h = true) l ∧ NoDup l).
Proof.
  revert hosts. induction entries as [|e entries IH]; intros hosts Hb Hn; cbn [allow_hosts]; [by apply vpost_ret|].
  eapply vpost_bind; [apply vpost_true|]. intros host _. apply check_bind. intros Hh. apply IH.
  - case_bool_decide; [done|]. apply Forall_app. by split; [|constructor].
  - case_bool_decide; [done|]. apply NoDup_app. split_and!; [done| |apply NoDup_singleton].
    intros x Hx ->%list_elem_of_singleton. done.
Qed.
Lemma allow_hosts_field_ok v :
  vpost (allow_hosts_field v) (λ l, Forall (λ h, block_allow_host h = true) l ∧ NoDup l).
Proof.
  unfold allow_hosts_field. eapply vpost_bind; [apply vpost_true|]. intros l _. apply allow_hosts_ok; constructor.
Qed.
Lemma block_patterns_ok v :
  vpost (block_patterns_field v) (λ l, patterns_ok 100 2048 false false l ∧
    Forall (λ p, existsb isspace (decode p) = false) l).
Proof.
  unfold block_patterns_field. eapply vpost_bind; [apply plain_patterns_ok|]. intros l Hl. apply check_bind.
  intros Hs%negb_true_iff. apply vpost_ret. split; [done|]. apply Forall_forall. intros p Hp.
  apply not_true_iff_false. intros E. revert Hs. apply eq_true_false_abs, existsb_exists.
  exists p. split; [by apply list_elem_of_In|done].
Qed.
Lemma useragent_ok v : vpost (useragent_field v) (opt (λ t, header_value_ok t = true)).
Proof.
  unfold useragent_field. eapply vpost_bind; [apply vpost_true|]. intros [t|] _; [|by apply vpost_ret].
  apply check_bind. intros Ht. by apply vpost_ret, opt_some.
Qed.
Lemma cdp_url_ok v : vpost (cdp_url_field v) (opt (public_url cdp_schemes)).
Proof.
  unfold cdp_url_field. eapply vpost_bind; [apply vpost_true|]. intros [t|] _; [|by apply vpost_ret].
  eapply vpost_bind; [apply of_guard_ok|]. intros [] Ht. by apply vpost_ret, opt_some.
Qed.

Lemma check_locale_ok v o : vpost (check_locale v o) (λ _, opt (λ v, match v with
    | YList locales => (1 ≤ length locales ≤ 16)%nat ∧ Forall (λ x, locale_ok x = true) locales
    | _ => locale_ok v = true
    end) o).
Proof.
  destruct o as [locale|]; [|by apply vpost_ret]. unfold check_locale. apply check_bind.
  intros [Hl%Nat.leb_le Hh%Nat.leb_le]%andb_true_iff. eapply vpost_mono; [apply vpost_check|]. intros [] Hok.
  apply opt_some. destruct locale; cbn in Hok; rewrite ?andb_true_r in Hok; try done.
  split; [done|]. by apply forallb_Forall.
Qed.
Lemma check_fonts_ok v o :
  vpost (check_fonts v o) (λ _, opt (λ v, ∃ fonts, v = YList fonts ∧ (length fonts ≤ 64)%nat ∧ Forall (λ x, font_ok x = true) fonts) o).
Proof.
  destruct o as [[| | | | |l| |]|]; try apply vpost_fail; [|by apply vpost_ret]. cbn [check_fonts]. apply check_bind.
  intros Hl%Nat.leb_le. eapply vpost_mono; [apply vpost_check|]. intros [] Hok. apply opt_some.
  exists l. split_and!; [done..|]. by apply forallb_Forall.
Qed.
Lemma check_custom_fonts_ok v o fonts :
  opt (λ v, ∃ fs, v = YList fs ∧ (length fs ≤ 64)%nat ∧ Forall (λ x, font_ok x = true) fs) fonts →
  vpost (check_custom_fonts v o fonts) (λ _, opt (λ v, v = YBool false ∨
    v = YBool true ∧ ∃ f fs, fonts = Some (YList (f :: fs))) o).
Proof.
  intros Hf. destruct o as [[|[]| | | | | |]|]; try apply vpost_fail; try (apply vpost_ret; apply opt_some; by left).
  - eapply vpost_mono; [apply vpost_check|]. intros [] Hok. apply opt_some. right. split; [done|].
    destruct fonts as [x|]; [|done]. destruct (Hf x eq_refl) as ([|f fs] & -> & _); [done|]. by eexists _, _.
  - by apply vpost_ret.
Qed.
Lemma dimension_range v : dimension_ok v = true → ∃ n, v = YInt n ∧ 1 ≤ n ≤ 16384.
Proof. destruct v; try done. cbn. intros [Hlo%Z.leb_le Hhi%Z.leb_le]%andb_true_iff. by eexists. Qed.
Lemma check_window_ok v o :
  vpost (check_window v o) (λ _, opt (λ v, ∃ w h, v = YList [YInt w; YInt h] ∧ 1 ≤ w ≤ 16384 ∧ 1 ≤ h ≤ 16384) o).
Proof.
  destruct o as [x|]; [|by apply vpost_ret]. unfold check_window. eapply vpost_mono; [apply vpost_check|].
  intros [] Hok. apply opt_some. destruct x as [| | | | |[|w [|h [|]]]| |]; try done.
  apply andb_true_iff in Hok as [(w' & -> & Hw)%dimension_range (h' & -> & Hh)%dimension_range]. by exists w', h'.
Qed.
Lemma additional_arguments_ok v : vpost (additional_arguments_field v) arguments_ok.
Proof.
  unfold additional_arguments_field. eapply vpost_bind; [apply vpost_true|]. intros l _. apply check_bind. intros Hk.
  eapply vpost_bind; [apply check_locale_ok|]. intros [] Hl. eapply vpost_bind; [apply check_fonts_ok|]. intros [] Hf.
  eapply vpost_bind; [by apply check_custom_fonts_ok|]. intros [] Hc.
  eapply vpost_bind; [apply check_window_ok|]. intros [] Hw. apply vpost_ret. split_and!; try done.
  apply forallb_Forall in Hk. eapply Forall_impl; [exact Hk|]. cbv beta. intros x (n & Hn%list_elem_of_In & E%bool_decide_eq_true)%existsb_exists.
  by exists n.
Qed.
Lemma arguments_nil : arguments_ok [].
Proof. split_and!; [constructor|done..]. Qed.
Hint Resolve allow_hosts_field_ok block_patterns_ok useragent_ok cdp_url_ok additional_arguments_ok
  arguments_nil : schema.

Lemma browser_valid v : vpost (validate_BrowserConfig v) browser_ok.
Proof.
  eapply (model_ok _ _ _ (λ _ b, (br_third_party_allow_hosts b ≠ [] → br_block_third_party b = true) → browser_ok b)).
  - intros m. each_field; try model_goal.
    + apply opt_some. split; by vm_compute.
    + split; [auto with schema|constructor].
  - intros m b _ Hb. unfold _require_blocking_for_allow_hosts. apply check_bind. intros Hblock. apply vpost_ret, Hb.
    intros Hne. apply orb_true_iff in Hblock as [E%bool_decide_eq_true|]; done.
Qed.
Hint Resolve browser_valid pagination_valid proxy_valid : schema.

(** ** Targets and policies *)

Lemma target_url_ok v : vpost (target_url_field v) (public_url http_schemes).
Proof.
  unfold target_url_field. eapply vpost_bind; [apply vpost_true|]. intros t _.
  eapply vpost_bind; [apply of_guard_ok|]. intros [] Ht. by apply vpost_ret.
Qed.
Lemma check_selectors_ok v l :
  Forall (λ x, long_ok x.2) l →
  vpost (check_selectors v l) (λ _, Forall (λ x, x.1 ≠ [] ∧ (py_len x.1 ≤ 256)%nat ∧ selector_ok x.2) l).
Proof.
  induction 1 as [|[name s] l Hs _ IH]; cbn [check_selectors]; [by apply vpost_ret|]. apply check_bind.
  intros [Hn%negb_true_iff%bool_decide_eq_false Hl%Nat.leb_le]%andb_true_iff.
  eapply vpost_bind; [by apply check_short_ok|]. intros [] Hok. eapply vpost_mono; [apply IH|]. by constructor.
Qed.
Lemma selectors_field_ok v :
  vpost (selectors_field settings v) (λ l, Forall (λ x, x.1 ≠ [] ∧ (py_len x.1 ≤ 256)%nat ∧ selector_ok x.2) l ∧
    (1 ≤ length l ≤ 100)%nat).
Proof.
  unfold selectors_field. eapply vpost_bind; [eapply dict_of_ok, selector_value_ok|]. intros l (Hl & Hlo & Hhi).
  eapply vpost_bind; [by apply check_selectors_ok|]. intros [] Hok. by apply vpost_ret.
Qed.
Hint Resolve target_url_ok selectors_field_ok : schema.
Lemma target_valid v : vpost (validate_TargetConfig settings v) target_ok.
Proof.
  eapply (model_ok _ _ _ (λ _ t,
    (tg_fetcher t = basic → tg_browser t = None ∧ opt (λ p, pg_mode p = by_link) (tg_pagination t)) → target_ok t)).
  - intros m. each_field; try model_goal.
  - intros m t _ Ht. unfold check_fetcher, is_basic. apply check_bind. intros Hb. apply check_bind. intros Hp.
    apply vpost_ret, Ht. intros E. rewrite E in *. apply negb_true_iff in Hb, Hp. split; [by destruct (tg_browser t)|].
    intros p Ep. rewrite Ep in Hp. by destruct (pg_mode p).
Qed.
Hint Resolve target_valid : schema.

Lemma retryable_status_ok v :
  vpost (retryable_status_field v) (λ l, Forall (λ s, 100 ≤ s ≤ 599) l ∧ (length l ≤ 32)%nat).
Proof.
  unfold retryable_status_field. eapply (vpost_bind _ _ (λ l, (length l ≤ 32)%nat)).
  - assert (∀ v, vpost (list_of (Some MAX_RETRYABLE_STATUSES) any_int v) (λ l, (length l ≤ 32)%nat)) as Hl.
    { intros w. eapply vpost_mono; [eapply (list_of_ok _ _ (λ _, True)); intros; apply vpost_true|]. by intros l [_ Hl]. }
    destruct v as [| | | | |l| |]; cbn [list_of_ints]; try apply Hl; [apply vpost_fail|].
    apply vpost_if; [intros _; apply vpost_fail|intros _; apply Hl].
  - intros l Hl. apply check_bind. intros Hs%forallb_Forall. apply vpost_ret. split; [|done].
    eapply Forall_impl; [exact Hs|]. cbv beta. intros n [Hlo%Z.leb_le Hhi%Z.leb_le]%andb_true_iff. lia.
Qed.
Lemma default_statuses_ok : Forall (λ s, 100 ≤ s ≤ 599) [429; 500; 502; 503; 504] ∧
  (length [429; 500; 502; 503; 504] ≤ 32)%nat.
Proof. split; [repeat constructor; lia|cbn; lia]. Qed.
Lemma default_retry_ok : retry_ok default_retry.
Proof. constructor; cbn; [lia..|apply default_statuses_ok]. Qed.
Hint Resolve retryable_status_ok default_statuses_ok default_retry_ok : schema.
Lemma retry_valid v : vpost (validate_RetryConfig v) retry_ok.
Proof.
  plain_model.
Qed.
Lemma validation_valid v : vpost (validate_ValidationConfig v) validation_ok.
Proof. plain_model. split; [done|]. by eapply proj1. Qed.
Lemma default_validation_ok : validation_ok default_validation.
Proof. split; [apply patterns_nil|cbn; lia]. Qed.

Lemma execution_valid v : vpost (validate_ExecutionConfig v) execution_ok.
Proof.
  eapply (model_ok _ _ _ (λ _ e, 0 ≤ ex_post_target_delay e ∧
    ((ex_post_target_delay e ≠ 0 → ex_concurrency e = 1) → execution_ok e))).
  - intros m. each_field; try model_goal. split; [by eapply proj1|by constructor].
  - intros m e _ [Hp He]. unfold _validate_post_target_delay. apply check_bind.
    intros Hd%negb_true_iff%andb_false_iff. apply vpost_ret, He. intros Hne.
    destruct Hd as [Hd%Z.ltb_ge|Hd%negb_false_iff%Z.eqb_eq]; [lia|done].
Qed.
Lemma default_execution_ok : execution_ok default_execution.
Proof. by constructor. Qed.

Lemma cron_ok v : vpost (cron_field v) (λ t, ∃ fields, crontab_fields (decode t) = Ok fields ∧ CronTrigger fields = None).
Proof.
  unfold cron_field. eapply vpost_bind; [apply vpost_true|]. intros t _.
  destruct (crontab_fields _) as [f|] eqn:Ef; [|apply vpost_fail]. destruct (CronTrigger f) as [e|] eqn:Ec.
  - apply vpost_if; intros _; [apply vpost_fail|apply vpost_raise].
  - apply vpost_ret. by exists f.
Qed.
Lemma timezone_ok v : vpost (timezone_field v) (λ t, t = txt "UTC" ∨ ZoneInfo t = None).
Proof.
  unfold timezone_field. eapply vpost_bind; [apply vpost_true|]. intros t _. destruct (ZoneInfo t) eqn:Ez.
  - apply vpost_if; intros _; [apply vpost_fail|apply vpost_raise].
  - apply vpost_ret. by right.
Qed.
Lemma default_zone_ok : txt "UTC" = txt "UTC" ∨ ZoneInfo (txt "UTC") = None.
Proof. by left. Qed.
Lemma webhook_url_ok v : vpost (webhook_url_field v) (public_url http_schemes).
Proof.
  unfold webhook_url_field. destruct (http_url v) as [url|]; [|apply vpost_fail].
  eapply vpost_bind; [apply of_guard_ok|]. intros [] Ht. by apply vpost_ret.
Qed.
Hint Resolve retry_valid validation_valid default_validation_ok execution_valid default_execution_ok cron_ok
  timezone_ok default_zone_ok webhook_url_ok : schema.
Lemma schedule_valid v : vpost (validate_ScheduleConfig v) schedule_ok.
Proof. plain_model. Qed.
Lemma webhook_valid v : vpost (validate_WebhookConfig v) webhook_ok.
Proof. plain_model. Qed.

(** ** The configuration *)

Lemma storage_component_ok v : vpost (storage_component v) safe_part.
Proof.
  unfold storage_component. eapply vpost_bind; [apply vpost_true|]. intros t _.
  destruct (safe_path_part _) as [p|] eqn:Ep; [|apply vpost_fail]. apply vpost_ret. exists p. split; [|done].
  assert (p = String.string_of_list_ascii t) as ->; [|done]. unfold safe_path_part in Ep. by repeat case_match; simplify_eq.
Qed.
Lemma targets_field_ok v :
  vpost (targets_field settings v) (λ l, Forall target_ok l ∧ (1 ≤ length l ≤ 100)%nat).
Proof.
  unfold targets_field. eapply vpost_bind; [eapply list_of_ok; intros ?; apply target_valid|]. intros l [Hl Hmax].
  apply check_bind. intros Hn%negb_true_iff%bool_decide_eq_false. apply vpost_ret. split; [done|]. cbn in Hmax.
  unfold MAX_TARGETS_PER_JOB in Hmax. lia.
Qed.
Hint Resolve storage_component_ok targets_field_ok schedule_valid webhook_valid : schema.

(** The fields by themselves. *)
Record config_parts (c : ScrapeConfig) : Prop := {
  cp_project : safe_part (cf_project c);
  cp_name : safe_part (cf_name c);
  cp_target : opt target_ok (cf_target c);
  cp_targets : opt (λ l, Forall target_ok l ∧ (1 ≤ length l ≤ 100)%nat) (cf_targets c);
  cp_proxy : opt proxy_ok (cf_proxy c);
  cp_retry : retry_ok (cf_retry c);
  cp_validation : validation_ok (cf_validation c);
  cp_execution : execution_ok (cf_execution c);
  cp_schedule : opt schedule_ok (cf_schedule c);
  cp_webhook : opt webhook_ok (cf_webhook c) }.
Lemma normalize_targets_ok m c : config_parts c → vpost (_normalize_targets m c) config_ok.
Proof.
  intros []. unfold _normalize_targets.
  eapply (vpost_bind _ _ (λ c', config_parts c' ∧ ∃ l, cf_targets c' = Some l ∧ (1 ≤ length l ≤ 100)%nat ∧
    Forall target_ok l ∧ ∀ t, cf_target c' = Some t → l = [t])).
  - destruct (cf_target c) as [t|] eqn:Et, (cf_targets c) as [l|] eqn:El; try apply vpost_fail; apply vpost_ret.
    + assert (target_ok t) by by apply cp_target0. split.
      * constructor; cbn; try done; [by rewrite Et|]. apply opt_some. split; [by constructor|cbn; lia].
      * exists [t]. cbn. split_and!; [done|lia|lia|by constructor|]. intros t' E. congruence.
    + destruct (cp_targets0 l eq_refl) as [Hl Hlen]. split; [by constructor; rewrite ?Et, ?El|].
      exists l. split_and!; [done|lia|lia|done|]. intros t' E. congruence.
  - intros c' ([] & l & El & Hlen & Hl & Ht). apply check_bind. intros Hs%negb_true_iff. apply vpost_ret.
    constructor; try done. exists l. unfold resolved_targets. rewrite El in *. split_and!; try done; [lia|lia|].
    intros Hg. cbn [default] in Hs. rewrite Hg in Hs. cbn [andb] in Hs. rewrite bool_decide_true in Hs by done.
    cbn [andb] in Hs. apply Forall_forall. intros t Hin. apply not_true_iff_false. intros E. revert Hs.
    apply eq_true_false_abs, existsb_exists. exists t. split; [by apply list_elem_of_In|done].
Qed.
Lemma config_valid v : vpost (validate_ScrapeConfig settings v) config_ok.
Proof.
  eapply (model_ok _ _ _ (λ _, config_parts)); [|intros m c _; apply normalize_targets_ok].
  intros m. each_field; try model_goal.
Qed.

(** ** The document, down to its leaves *)

Lemma browser_fits : accepts validate_BrowserConfig browser_shape.
Proof.
  apply model_fits. each_part. intros v. unfold humanize_field. eapply vpost_bind; [apply humanize_fits|by intros ? Hd ? ? ? _].
Qed.
Lemma selector_fits : accepts (selector_value settings) selector_shape.
Proof. apply text_or_model_fits, model_fits. each_part. Qed.
Lemma optional_selector_fits : accepts (optional_selector settings) (Maybe selector_shape).
Proof. apply then_fits, nullable_fits, selector_fits. Qed.
Lemma selectors_fits : accepts (selectors_field settings) (Values selector_shape).
Proof. apply then_fits, dict_of_fits, selector_fits. Qed.
Hint Resolve browser_fits optional_selector_fits selectors_fits : shapes.
Lemma pagination_fits : accepts (validate_PaginationConfig settings) pagination_shape.
Proof. apply model_fits. each_part. Qed.
Lemma proxy_fits : accepts validate_ProxyConfig proxy_shape.
Proof. apply model_fits. each_part. Qed.
Lemma detection_fits : accepts validate_MapDetectionConfig map_shape.
Proof. apply model_fits. each_part. Qed.
Lemma pattern_fits : accepts validate_StockPatternConfig pattern_shape.
Proof. apply model_fits. each_part. Qed.
Hint Resolve pagination_fits proxy_fits detection_fits pattern_fits : shapes.
Lemma stock_fits : accepts validate_StockDetectionConfig stock_shape.
Proof. apply model_fits. each_part. Qed.
Hint Resolve stock_fits : shapes.
Lemma target_fits : accepts (validate_TargetConfig settings) target_shape.
Proof. apply model_fits. each_part. Qed.
Lemma targets_fits : accepts (targets_field settings) (Each target_shape).
Proof. apply then_fits, list_of_fits, target_fits. Qed.
Lemma retry_fits : accepts validate_RetryConfig retry_shape.
Proof. apply model_fits. each_part. Qed.
Lemma validation_fits : accepts validate_ValidationConfig validation_shape.
Proof. apply model_fits. each_part. Qed.
Lemma execution_fits : accepts validate_ExecutionConfig execution_shape.
Proof. apply model_fits. each_part. Qed.
Lemma schedule_fits : accepts validate_ScheduleConfig schedule_shape.
Proof. apply model_fits. each_part. Qed.
Lemma webhook_fits : accepts validate_WebhookConfig webhook_shape.
Proof. apply model_fits. each_part. Qed.
Lemma output_fits : accepts validate_OutputConfig output_shape.
Proof. apply model_fits. each_part. Qed.
Hint Resolve target_fits targets_fits retry_fits validation_fits execution_fits schedule_fits webhook_fits output_fits : shapes.
Lemma config_fits : accepts (validate_ScrapeConfig settings) config_shape.
Proof. apply model_fits. each_part. Qed.

(** [C38] An accepted configuration is well formed: it has one to a hundred targets, whose
    URLs, proxies and debugging endpoints are public, whose selectors, transforms, patterns,
    headers and browser actions are valid and use only their own fields, whose fetchers fit
    their browser settings and pagination; and every number but the one of [humanize] is
    within its bounds. The document has no unknown key, neither at its top nor in any mapping
    nested in it that a model reads, and where it gives [humanize] as a number, or as a text
    that [float] reads, the number is positive and at most 60. (What [bool | float] makes of
    other values is left open.) *)
Theorem accepted_config_is_well_formed doc budget config budget' :
  validate_ScrapeConfig settings doc budget = (Ok config, budget') → config_ok config ∧ fits config_shape doc.
Proof. intros E. split; [by eapply config_valid|by eapply config_fits]. Qed.
End wf.

(** ** An accepted document *)

Section sample.
#[local] Instance sample_pydantic : Pydantic := {|
  lax_int_other _ := None;
  lax_bool_other _ := None;
  lax_str_other _ := None;
  lax_list_other _ := None;
  float_of_text _ := None;
  float_of_int n := Some (FFinite (inject_Z n));
  bool_or_float v :=
    match v with YInt n => Some (inr (FFinite (inject_Z n))) | YFloat f => Some (inr f) | _ => None end;
  aware_datetime _ := None;
  http_url v := match v with YStr t => Some t | _ => None end;
|}.
#[local] Instance sample_schema_lib : SchemaLib := {| casefold := lowered; ZoneInfo _ := None; CronTrigger _ := None |}.
#[local] Instance ascii_printable : Printable := {| printable_other _ := false |}.
#[local] Instance no_other_digits : Digits := {| other_digit _ := false; other_value _ := None |}.

Definition entry (name : string) (v : yaml) : ykey * yaml := (key name, v).
Definition str (s : string) : yaml := YStr (txt s).
(** A shop whose pages are turned by a click, with a consent dialog to close first. *)
Definition sample_target : yaml := YDict
  [entry "url" (str "http://shop.test"); entry "fetcher" (str "stealthy");
   entry "browser" (YDict
     [entry "block_third_party" (YBool true); entry "third_party_allow_hosts" (YList [str " *.CDN.test "]);
      entry "humanize" (YInt 2); entry "additional_arguments" (YDict [entry "locale" (str "en-US")]);
      entry "extra_headers" (YDict [entry "X-Shop" (str "1")]);
      entry "actions" (YList [YDict [entry "type" (str "click"); entry "selector" (str "#ok"); entry "wait_ms" (YInt 200)]])]);
   entry "selectors" (YDict
     [entry "price" (YDict [entry "query" (str ".price"); entry "transform" (str "trim")]); entry "name" (str "h1")]);
   entry "pagination" (YDict [entry "mode" (str "click"); entry "next" (str "a.next"); entry "max_pages" (YInt 5)])].
Definition sample_document : yaml := YDict
  [entry "project" (str "shop"); entry "name" (str "prices"); entry "target" sample_target;
   entry "retry" (YDict [entry "max_attempts" (YInt 2); entry "retryable_status" (YList [YInt 503])]);
   entry "execution" (YDict [entry "concurrency" (YInt 1); entry "post_target_delay" (YInt 5)]);
   entry "schedule" (YDict [entry "cron" (str "0 6 * * 1-5")]);
   entry "webhook" (YDict [entry "url" (str "http://hooks.test"); entry "on" (YList [str "failed"])])].
Definition sample_outcome : outcome vexn ScrapeConfig * option Z :=
  @validate_ScrapeConfig _ sample_lib sample_regex sample_settings _ _ _ sample_document (Some 10).

Lemma accepted_config_is_well_formed_witness :
  ∃ config budget, sample_outcome = (Ok config, budget) ∧
    @config_ok sample_lib sample_regex sample_settings _ _ _ config ∧
    fits config_shape sample_document.
Proof.
  assert (is_ok sample_outcome.1 = true) as Hok by (vm_compute; reflexivity).
  destruct sample_outcome as [[config|e] budget] eqn:E; [|discriminate Hok].
  exists config, budget. split; [reflexivity|].
  exact (@accepted_config_is_well_formed _ sample_lib sample_regex sample_settings _ _ _ _ _ _ _ E).
Defined.

(** Errors of several fields are collected, each with its location. *)
Definition sample_errors (v : yaml) : list (list part * string) :=
  match (@validate_ExecutionConfig _ v None).1 with
  | Raise (ValidationError l) => map (λ e, (v_loc e, v_msg e)) l
  | _ => []
  end.
Example collected_errors :
  sample_errors (YDict [entry "concurrency" (YBool true); entry "delay_between" (YInt 3601); entry "turbo" (YInt 1)]) =
  [([AtKey (key "concurrency")], numeric_boolean); ([AtKey (key "delay_between")], "less_than_equal");
   ([AtKey (key "turbo")], "extra_forbidden")].
Proof. vm_compute. reflexivity. Qed.
(** A key that no model knows is refused wherever it is. *)
Example nested_extra :
  match (@validate_TargetConfig _ sample_lib sample_regex sample_settings _
    (YDict [entry "url" (str "http://shop.test"); entry "fetcher" (str "dynamic"); entry "selectors" (YDict [entry "name" (str "h1")]);
            entry "browser" (YDict [entry "actions" (YList [YDict [entry "type" (str "scroll"); entry "speed" (YInt 1)]])])]) None).1 with
  | Raise (ValidationError l) => map v_loc l
  | _ => []
  end = [[AtKey (key "browser"); AtKey (key "actions"); AtIndex 0; AtKey (key "speed")]].
Proof. vm_compute. reflexivity. Qed.
(** [humanize] as a value that [float] is not asked about, such as bytes, escapes the bound:
    the checks pass it on, and pydantic may read a number of any size from it. *)
Example unchecked_duration id : _validate_humanize (YOther id) = pret tt.
Proof. reflexivity. Qed.
(** A delay after each target makes sense for one target at a time. *)
Example sequential_only :
  sample_errors (YDict [entry "post_target_delay" (YInt 5)]) =
  [([], "execution.post_target_delay requires execution.concurrency=1")].
Proof. vm_compute. reflexivity. Qed.

Definition sample_proxy : text := txt "http://user-{session}:pw@gate.test:8080".
Lemma session_completes_the_url_witness :
  ∃ completed, apply_proxy_session (Some sample_proxy) (txt "0f3a") = Some completed ∧ has_brace sample_proxy = true ∧
    has_brace completed = false.
Proof.
  assert (@normalize_proxy_url sample_lib sample_proxy = Ok sample_proxy) as E by (vm_compute; reflexivity).
  exists (txt "http://user-0f3a:pw@gate.test:8080"). split; [reflexivity|split; [reflexivity|]].
  exact (@session_completes_the_url sample_lib _ _ (txt "0f3a") _ E eq_refl eq_refl).
Defined.
End sample.
