(* ===== verification/Loader.v ===== *)
(** * Loading a configuration ([config/loader.py])

    From a parsed document to a typed configuration: strings that no encoder accepts are
    refused, references to deployment secrets are authorized for the document's project and
    resolved from the environment, and what a failure says is withheld where it could quote
    a secret. PyYAML, the environment and the spellings of a secret that the library computes
    are parameters. *)

From S2P Require Import Prelude.
From S2P Require Import Text.
From S2P Require Import Unicode.
From S2P Require Import Paths.
From S2P Require Import Crontab.
From S2P Require Import Redaction.
From S2P Require Import SensitiveData.
From S2P Require Import Transforms.
From S2P Require Import IpPolicy.
From S2P Require Import UrlGuard.
From S2P Require Import Fields.
From S2P Require Import Schema.
From S2P Require Import SchemaSpec.
From S2P Require Import UrlGuardSpec.
From S2P Require Import TransformsSpec.
Open Scope Z_scope.

(** ** References to secrets *)

Definition name_char (a : Ascii.ascii) : bool := is_upper a || is_digit a || one_of [95] a.
Fixpoint span_name (t : text) : text * text :=
  match t with
  | a :: t' => if name_char a then let '(n, r) := span_name t' in (a :: n, r) else ([], t)
  | [] => ([], [])
  end.
Definition SECRET_PREFIX : text := txt "SCRAPEYARD_SECRET_".
(** [_SECRET_REFERENCE_RE] at the start of a text: the variable and the rest. *)
Definition reference_at (t : text) : option (text * text) :=
  match cut_prefix (txt "${" ++ SECRET_PREFIX) t with
  | None => None
  | Some r =>
      match span_name r with
      | ((_ :: _) as name, a :: rest) => if bool_decide (a = chr 125) then Some (SECRET_PREFIX ++ name, rest) else None
      | _ => None
      end
  end.
(** A text as characters and references, left to right. Every step drops a character, so the
    length of the text is enough fuel. *)
Fixpoint pieces_from (fuel : nat) (t : text) : list (Ascii.ascii + text) :=
  match fuel, t with
  | S fuel, a :: t' =>
      match reference_at t with
      | Some (variable, rest) => inr variable :: pieces_from fuel rest
      | None => inl a :: pieces_from fuel t'
      end
  | _, _ => []
  end.
Definition pieces (t : text) : list (Ascii.ascii + text) := pieces_from (length t) t.
Definition variables (t : text) : list text := omap (λ p, match p with inr v => Some v | inl _ => None end) (pieces t).
(** [_SECRET_REFERENCE_RE.search] *)
Definition refers (t : text) : bool := negb (bool_decide (variables t = [])).

(** The variables of all strings; keys are not searched. *)
Fixpoint _secret_references (v : yaml) : list text :=
  match v with
  | YDict m => flat_map (λ x, _secret_references x.2) m
  | YList l => flat_map _secret_references l
  | YStr t => variables t
  | YNone | YBool _ | YInt _ | YFloat _ | YOther _ => []
  end.
Fixpoint _resolve_secret_references (resolve : text → text) (v : yaml) : yaml :=
  match v with
  | YDict m => YDict (map (λ x, (x.1, _resolve_secret_references resolve x.2)) m)
  | YList l => YList (map (_resolve_secret_references resolve) l)
  | YStr t => YStr (flat_map (λ p, match p with inl a => [a] | inr variable => resolve variable end) (pieces t))
  | YNone | YBool _ | YInt _ | YFloat _ | YOther _ => v
  end.

(** The first reference in the browser headers of a target. *)
Definition target_header_reference (target : yaml) : option text :=
  match target with
  | YDict t =>
      match get (key "browser") t with
      | Some (YDict b) =>
          match get (key "extra_headers") b with
          | Some (YDict h) => head (omap (λ x, match x.2 with YStr s => head (variables s) | _ => None end) h)
          | _ => None
          end
      | _ => None
      end
  | _ => None
  end.
Definition _browser_header_secret_reference (data : members) : option text :=
  let targets := default YNone (get (key "target") data) ::
                 match get (key "targets") data with Some (YList l) => l | _ => [] end in
  head (omap target_header_reference targets).

(** ** Surrogates *)

Definition has_surrogate (t : text) : bool := existsb surrogate (decode t).
Definition shown_key (k : ykey) : text := match k with KStr s => s | KOther _ shown => shown end.
(** The first key or string with a surrogate. *)
Fixpoint _surrogate_location (v : yaml) : option (list part) :=
  match v with
  | YStr t => if has_surrogate t then Some [] else None
  | YDict m =>
      (fix go m :=
         match m with
         | [] => None
         | (k, v) :: m =>
             if has_surrogate (shown_key k) then Some [AtKey k]
             else match _surrogate_location v with Some l => Some (AtKey k :: l) | None => go m end
         end) m
  | YList l =>
      (fix go i l :=
         match l with
         | [] => None
         | v :: l => match _surrogate_location v with Some p => Some (AtIndex i :: p) | None => go (S i) l end
         end) O l
  | YNone | YBool _ | YInt _ | YFloat _ | YOther _ => None
  end.

(** ** Errors *)

Inductive load_error :=
| ConfigError (reason : string)
| YamlError (reason : string)
| Invalid (errors : list verror)
(** The report of a document with secrets, as one text. *)
| Reported (detail : text)
| Uncaught (exception : string).

Class LoaderLib := {
  (** [yaml.load] with the service's loader. *)
  load_yaml : text → outcome string yaml;
  (** [repr(secret)[1:-1]] and [json.dumps(secret)[1:-1]] *)
  repr_text : text → text;
  json_escaped : text → text;
  (** [re.sub(re.escape(spelling), "<redacted>", text, flags=re.IGNORECASE)] *)
  redact_spelling : text → text → text;
}.

Record LoaderSettings := {
  transform_settings : Settings;
  (** [parsed_secret_reference_allowlist().get(project, frozenset())] *)
  allowlist : text → list text;
}.

Definition MIN_DEPLOYMENT_SECRET_LENGTH : nat := 8.
Definition _WITHHELD_MESSAGE : string :=
  "invalid; the message is withheld because the value holds a deployment secret".

Abbreviation lresult := (outcome load_error).
Definition lbind {A B} (m : lresult A) (k : A → lresult B) : lresult B :=
  match m with Ok a => k a | Raise e => Raise e end.
Notation "'let%' x := m 'in' k" := (lbind m (λ x, k))
  (at level 10, x name, m at level 200, k at level 200) : scrape_scope.
Notation "'do%' m 'in' k" := (lbind m (λ _, k))
  (at level 10, m at level 200, k at level 200) : scrape_scope.
Definition lensure (b : bool) (reason : string) : lresult unit := if b then Ok tt else Raise (ConfigError reason).

(** [sorted(set)] *)
Definition text_le (a b : text) : Prop := text_leb a b = true.
#[export] Instance text_le_dec a b : Decision (text_le a b).
Proof. unfold text_le. apply _. Defined.
Definition sorted_set (l : list text) : list text := merge_sort text_le (remove_dups l).

Section loader.
Context `{Pydantic} `{NetLib} `{RegexLib} `{Printable} `{Digits} `{SchemaLib} `{LoaderLib} (settings : LoaderSettings).

Definition _reject_surrogates (data : members) : lresult unit :=
  lensure (bool_decide (_surrogate_location (YDict data) = None)) "Config strings must not contain surrogate code points".

Definition literal (name : string) (data : members) : option text :=
  match get (key name) data with
  | Some (YStr t) => if refers t then None else Some t
  | _ => None
  end.
Definition _literal_project (data : members) : lresult text :=
  match literal "project" data with
  | None => Raise (ConfigError "Config project must be a literal string before secret references are resolved")
  | Some t =>
      match safe_path_part (String.string_of_list_ascii t) with
      | Ok part => Ok (txt part)
      | Raise e => Raise (ConfigError e)
      end
  end.
Definition _require_literal_name (data : members) : lresult unit :=
  lensure (bool_decide (is_Some (literal "name" data)))
    "Config name must be a literal string before secret references are resolved".

Definition load_yaml_mapping (yaml_str : text) : lresult members :=
  match load_yaml yaml_str with
  | Raise e => Raise (YamlError e)
  | Ok (YDict m) => Ok m
  | Ok _ => Raise (ConfigError "YAML root must be a mapping")
  end.
Definition parse_config_project (yaml_str : text) : lresult (members * text) :=
  let% data := load_yaml_mapping yaml_str in
  let% project := _literal_project data in
  Ok (data, project).

(** ** What a failure says *)

(** The path of each string that holds a reference. *)
Fixpoint _secret_paths (v : yaml) : list (list part) :=
  match v with
  | YDict m => flat_map (λ x, map (cons (AtKey x.1)) (_secret_paths x.2)) m
  | YList l =>
      (fix go i l :=
         match l with [] => [] | v :: l => map (cons (AtIndex i)) (_secret_paths v) ++ go (S i) l end) O l
  | YStr t => if refers t then [[]] else []
  | YNone | YBool _ | YInt _ | YFloat _ | YOther _ => []
  end.

(** A label of a union may be the key of a mapping. *)
Definition step (p : part) (v : yaml) : option (part * yaml) :=
  match p, v with
  | AtKey k, YDict m => option_map (pair (AtKey k)) (get k m)
  | AtLabel l, YDict m => option_map (pair (AtKey (key l))) (get (key l) m)
  | AtIndex i, YList l => option_map (pair (AtIndex i)) (l !! i)
  | _, _ => None
  end.
Fixpoint _input_path (v : yaml) (loc : list part) : list part :=
  match loc with
  | [] => []
  | p :: loc => match step p v with Some (p, v) => p :: _input_path v loc | None => [] end
  end.
Fixpoint _holds_secret (secrets : list text) (v : yaml) : bool :=
  match v with
  | YDict m => existsb (λ x, _holds_secret secrets x.2) m
  | YList l => existsb (_holds_secret secrets) l
  | YStr t => existsb (λ s, contains (casefold s) (casefold t)) secrets
  | YNone | YBool _ | YInt _ | YFloat _ | YOther _ => false
  end.

#[local] Instance part_eq_dec : EqDecision part.
Proof. solve_decision. Defined.
Definition withheld (data : members) (secrets : list text) (e : verror) : bool :=
  let path := _input_path (YDict data) (v_loc e) in
  existsb (λ secret, bool_decide (take (length path) secret = path)) (_secret_paths (YDict data)) ||
  _holds_secret secrets (v_input e).
Definition message (data : members) (secrets : list text) (e : verror) : string :=
  if withheld data secrets e then _WITHHELD_MESSAGE else v_msg e.

Fixpoint join_with (sep : text) (l : list text) : text :=
  match l with [] => [] | [t] => t | t :: l => t ++ sep ++ join_with sep l end.
Definition show_part (p : part) : text :=
  match p with AtKey k => shown_key k | AtIndex i => str_int (Z.of_nat i) | AtLabel l => txt l end.
Definition location_text (loc : list part) : text :=
  match join_with (txt ".") (map show_part loc) with [] => txt "config" | t => t end.
Definition detail (data : members) (secrets : list text) (errors : list verror) : text :=
  join_with (txt "; ")
    (map (λ e, location_text (v_loc e) ++ txt ": " ++ txt (message data secrets e)) errors).

Definition spellings (secret : text) : list text :=
  [secret; quote secret; quote_plus secret; repr_text secret; json_escaped secret].
Definition _redact_secret_spellings (t : text) (secrets : list text) : text :=
  foldl (λ t spelling, redact_spelling spelling t) t
    (merge_sort longer (remove_dups (flat_map spellings secrets))).

(** ** The loader *)

(** The loop over the sorted references. *)
Fixpoint read_secrets (environ : text → option text) (references : list text) : lresult (list (text * text)) :=
  match references with
  | [] => Ok []
  | reference :: references =>
      match environ reference with
      | None => Raise (ConfigError "Missing deployment secret reference")
      | Some resolved =>
          do% lensure (MIN_DEPLOYMENT_SECRET_LENGTH <=? py_len resolved)%nat
                "Deployment secret reference must contain at least 8 characters" in
          let% rest := read_secrets environ references in
          Ok ((reference, resolved) :: rest)
      end
  end.
Definition authorized (project : text) : list text := allowlist settings project ++ allowlist settings (txt "*").
Definition resolved_secrets (environ : text → option text) (data : members) : lresult (list (text * text)) :=
  let references := _secret_references (YDict data) in
  if bool_decide (references = []) then Ok []
  else
    do% lensure (bool_decide (_browser_header_secret_reference data = None))
          "Deployment secret reference is not allowed in browser.extra_headers" in
    let% project := _literal_project data in
    do% _require_literal_name data in
    do% lensure (forallb (λ r, bool_decide (r ∈ authorized project)) references)
          "Deployment secret reference is not allowed for project" in
    read_secrets environ (sorted_set references).

(** [resolved_secrets[variable]]; every variable of the document has a value. *)
Definition value_of (secrets : list (text * text)) (variable : text) : text :=
  match find (λ x, bool_decide (x.1 = variable)) secrets with Some (_, v) => v | None => [] end.
Definition with_secrets (values : list text) (c : ScrapeConfig) : ScrapeConfig :=
  {| cf_project := cf_project c; cf_name := cf_name c; cf_target := cf_target c; cf_targets := cf_targets c;
     cf_adaptive := cf_adaptive c; cf_proxy := cf_proxy c; cf_retry := cf_retry c; cf_validation := cf_validation c;
     cf_execution := cf_execution c; cf_schedule := cf_schedule c; cf_webhook := cf_webhook c;
     cf_output := cf_output c; cf_resolved_secret_values := values |}.
(** [tuple(value for value in dict.fromkeys(values) if value)] *)
Fixpoint from_keys (seen values : list text) : list text :=
  match values with
  | [] => []
  | v :: values => if bool_decide (v ∈ seen) then from_keys seen values else v :: from_keys (v :: seen) values
  end.
Definition known_values (secrets : list (text * text)) : list text :=
  filter (λ v, v ≠ []) (from_keys [] (map snd secrets)).

(** The members are the keyword arguments of [ScrapeConfig], and those are strings. *)
Definition validate_keywords (data : members) : outcome vexn ScrapeConfig :=
  if existsb (λ x, match x.1 with KOther _ _ => true | KStr _ => false end) data then Raise (Crash "TypeError")
  else (validate_ScrapeConfig (transform_settings settings) (YDict data) (Some _MAX_CONFIG_REGEX_EXPANSION)).1.

Definition resolved_document (secrets : list (text * text)) (data : members) : members :=
  map (λ x, (x.1, _resolve_secret_references (value_of secrets) x.2)) data.
Definition load_config_mapping (environ : text → option text) (data : members) : lresult ScrapeConfig :=
  do% _reject_surrogates data in
  let% secrets := resolved_secrets environ data in
  match validate_keywords (resolved_document secrets data) with
  | Ok config => Ok (with_secrets (known_values secrets) config)
  | Raise (ValidationError errors) =>
      match secrets with
      | [] => Raise (Invalid errors)
      | _ =>
          let values := map snd secrets in
          let shown := detail data (filter (λ v, v ≠ []) values) errors in
          Raise (Reported (_redact_secret_spellings shown values))
      end
  | Raise (Crash e) =>
      match secrets with
      | [] => Raise (Uncaught e)
      | _ => Raise (ConfigError "Config is invalid; the message is withheld")
      end
  end.
Definition load_config (environ : text → option text) (yaml_str : text) : lresult ScrapeConfig :=
  let% data := load_yaml_mapping yaml_str in load_config_mapping environ data.
End loader.

(** ** What loading promises *)

Section promises.
Context `{Pydantic} `{NetLib} `{RegexLib} `{Printable} `{Digits} `{SchemaLib} `{LoaderLib} (settings : LoaderSettings).
Implicit Types (environ : text → option text) (data : members) (secrets : list (text * text)).

Lemma sorted_set_elem r l : r ∈ sorted_set l ↔ r ∈ l.
Proof. unfold sorted_set. rewrite merge_sort_Permutation. apply elem_of_remove_dups. Qed.

(** The secrets that were read are those of the references, each long enough. *)
Lemma read_secrets_ok environ references secrets :
  read_secrets environ references = Ok secrets →
  map fst secrets = references ∧ Forall (λ x, environ x.1 = Some x.2 ∧ (8 ≤ py_len x.2)%nat) secrets.
Proof.
  revert secrets. induction references as [|r references IH]; intros secrets; cbn [read_secrets]; [by intros [= <-]|].
  destruct (environ r) as [v|] eqn:Ev; [|done]. unfold lensure, lbind.
  destruct (MIN_DEPLOYMENT_SECRET_LENGTH <=? py_len v)%nat eqn:El; [|done]. apply Nat.leb_le in El.
  destruct (read_secrets environ references) as [rest|]; [|done]. intros [= <-].
  destruct (IH rest eq_refl) as [<- Hrest]. by split; [|constructor].
Qed.
Lemma literal_project_ok data project : _literal_project data = Ok project → literal "project" data = Some project.
Proof.
  unfold _literal_project. destruct (literal _ _) as [t|]; [|done]. destruct (safe_path_part _) as [p|] eqn:Ep; [|done].
  intros [= <-]. f_equal. assert (p = String.string_of_list_ascii t) as ->.
  { unfold safe_path_part in Ep. by repeat case_match; simplify_eq. }
  symmetry. apply String.list_ascii_of_string_of_list_ascii.
Qed.
Lemma resolved_cases environ data secrets :
  resolved_secrets settings environ data = Ok secrets →
  (_secret_references (YDict data) = [] ∧ secrets = []) ∨
  ∃ project, literal "project" data = Some project ∧ _browser_header_secret_reference data = None ∧
    Forall (λ r, r ∈ authorized settings project) (_secret_references (YDict data)) ∧
    read_secrets environ (sorted_set (_secret_references (YDict data))) = Ok secrets.
Proof.
  unfold resolved_secrets. case_bool_decide as He; [intros [= <-]; by left|]. unfold lensure, lbind.
  destruct (bool_decide (_ = None)) eqn:Eh; [|done]. destruct (_literal_project data) as [project|] eqn:Ep; [|done].
  destruct (_require_literal_name data); [|done]. destruct (forallb _ _) eqn:Ef; [|done]. intros Hs. right.
  exists project. split_and!; [by apply literal_project_ok|by apply bool_decide_eq_true in Eh| |done].
  apply forallb_Forall in Ef. eapply Forall_impl; [exact Ef|]. cbv beta. by intros r Hr%bool_decide_eq_true.
Qed.

Lemma from_keys_elem seen values v : v ∈ from_keys seen values ↔ v ∈ values ∧ v ∉ seen.
Proof.
  revert seen. induction values as [|w values IH]; intros seen; cbn [from_keys].
  { split; [by intros []%elem_of_nil|by intros [[]%elem_of_nil _]]. }
  case_bool_decide as Hw; rewrite ?elem_of_cons, IH, ?elem_of_cons; [|destruct (decide (v = w)) as [->|]]; naive_solver.
Qed.
Lemma known_values_elem secrets v : v ∈ known_values secrets ↔ v ∈ map snd secrets ∧ v ≠ [].
Proof. unfold known_values. rewrite list_elem_of_filter, from_keys_elem. split; [naive_solver|]. intros [Hv Hn]. split_and!; [done..|]. by intros []%elem_of_nil. Qed.

Lemma with_secrets_ok values c :
  config_ok (transform_settings settings) c → config_ok (transform_settings settings) (with_secrets values c).
Proof. intros []. by constructor. Qed.
Lemma loaded environ data config :
  load_config_mapping settings environ data = Ok config →
  ∃ secrets c, resolved_secrets settings environ data = Ok secrets ∧ config = with_secrets (known_values secrets) c ∧
    config_ok (transform_settings settings) c.
Proof.
  unfold load_config_mapping, lbind. destruct (_reject_surrogates data); [|done].
  destruct (resolved_secrets settings environ data) as [secrets|] eqn:Es; [|done].
  destruct (validate_keywords settings _) as [c|[l|e]] eqn:Ev; [|by destruct secrets..]. intros [= <-].
  exists secrets, c. split_and!; [done..|]. unfold validate_keywords in Ev. destruct (existsb _ _); [done|].
  destruct (validate_ScrapeConfig _ _ _) as [r s] eqn:E. cbn in Ev. subst r. by eapply config_valid.
Qed.

(** [C39] A loaded configuration is well formed, and its secrets are exactly those its document
    refers to: every referenced variable is authorized for the document's literal project, was
    set, is at least eight characters long, and its value is known to the redaction of the
    run; and redaction knows no other value. *)
Theorem loaded_secrets_are_exact environ data config :
  load_config_mapping settings environ data = Ok config →
  config_ok (transform_settings settings) config ∧
  (∀ r, r ∈ _secret_references (YDict data) → ∃ project v,
     literal "project" data = Some project ∧ r ∈ authorized settings project ∧ environ r = Some v ∧
     (8 ≤ py_len v)%nat ∧ v ∈ cf_resolved_secret_values config) ∧
  (∀ v, v ∈ cf_resolved_secret_values config → ∃ r, r ∈ _secret_references (YDict data) ∧ environ r = Some v).
Proof.
  intros (secrets & c & Hs & -> & Hc)%loaded. split; [by apply with_secrets_ok|]. cbn [cf_resolved_secret_values with_secrets].
  apply resolved_cases in Hs as [[-> ->]|(project & Hp & _ & Ha & [Hfst Hall]%read_secrets_ok)].
  { split; [by intros r []%elem_of_nil|by intros v []%elem_of_nil]. }
  rewrite Forall_forall in Ha. rewrite Forall_forall in Hall. split.
  - intros r Hr. assert (r ∈ map fst secrets) as ([r' v] & -> & Hx)%list_elem_of_fmap by by rewrite Hfst, sorted_set_elem.
    destruct (Hall _ Hx) as [Hv Hlen]. cbn in *. exists project, v. split_and!; [done|by apply Ha|done..|].
    apply known_values_elem. split; [|by intros ->; cbn in Hlen; lia]. apply list_elem_of_fmap. by exists (r', v).
  - intros v [([r v'] & -> & Hx)%list_elem_of_fmap _]%known_values_elem. exists r. split; [|by apply (Hall _ Hx)].
    rewrite <- sorted_set_elem, <- Hfst. apply list_elem_of_fmap. by exists (r, v').
Qed.

(** [C40] Other secrets do not matter: two environments that agree on the variables that are
    authorized for the document's project give the same configuration or the same error. *)
Theorem unauthorized_secrets_do_not_matter environ environ' data :
  (∀ project r, literal "project" data = Some project → r ∈ authorized settings project → environ r = environ' r) →
  load_config_mapping settings environ data = load_config_mapping settings environ' data.
Proof.
  intros Henv. assert (resolved_secrets settings environ data = resolved_secrets settings environ' data) as E.
  { unfold resolved_secrets. case_bool_decide; [done|]. unfold lensure, lbind. destruct (bool_decide _); [|done].
    destruct (_literal_project data) as [project|] eqn:Ep; [|done]. destruct (_require_literal_name data); [|done].
    destruct (forallb _ _) eqn:Ef; [|done]. apply literal_project_ok in Ep. apply forallb_Forall in Ef.
    assert (∀ r, r ∈ sorted_set (_secret_references (YDict data)) → environ r = environ' r) as Hr.
    { intros r Hr. rewrite sorted_set_elem in Hr. rewrite Forall_forall in Ef. eapply Henv; [done|].
      specialize (Ef r Hr). by apply bool_decide_eq_true in Ef. }
    revert Hr. generalize (sorted_set (_secret_references (YDict data))). intros l. induction l as [|r l IH]; [done|].
    intros Hr. cbn [read_secrets]. rewrite (Hr r) by by left. destruct (environ' r); [|done]. unfold lensure, lbind.
    destruct (_ <=? _)%nat; [|done]. rewrite IH; [done|]. intros r' Hr'. apply Hr. by right. }
  unfold load_config_mapping. by rewrite E.
Qed.
End promises.

(** ** A document with a secret *)

Section sample.
#[local] Existing Instance sample_pydantic.
#[local] Existing Instance sample_schema_lib.
#[local] Existing Instance ascii_printable.
#[local] Existing Instance no_other_digits.
#[local] Instance sample_loader : LoaderLib :=
  {| load_yaml _ := Raise "no document"; repr_text t := t; json_escaped t := t; redact_spelling _ t := t |}.
Definition hook_variable : text := txt "SCRAPEYARD_SECRET_HOOK".
Definition other_variable : text := txt "SCRAPEYARD_SECRET_OTHER".
Definition sample_loader_settings : LoaderSettings :=
  {| transform_settings := sample_settings;
     allowlist project := if bool_decide (project = txt "shop") then [hook_variable] else [] |}.
Definition hook_environ (other : option text) (variable : text) : option text :=
  if bool_decide (variable = hook_variable) then Some (txt "s3cret-value")
  else if bool_decide (variable = other_variable) then other else None.

Definition hook_document : members :=
  [entry "project" (str "shop"); entry "name" (str "prices"); entry "target" sample_target;
   entry "webhook" (YDict [entry "url" (str "http://hooks.test");
                           entry "headers" (YDict [entry "Authorization" (str "Bearer ${SCRAPEYARD_SECRET_HOOK}")])])].
Abbreviation load_sample := (@load_config_mapping sample_pydantic sample_lib sample_regex ascii_printable no_other_digits
  sample_schema_lib sample_loader sample_loader_settings).

Example hook_header :
  match load_sample (hook_environ None) hook_document with
  | Ok config => option_map wh_headers (cf_webhook config) = Some [(txt "Authorization", txt "Bearer s3cret-value")]
  | Raise _ => False
  end.
Proof. vm_compute. reflexivity. Qed.

(** The error about a value that holds a secret does not quote it; the others are as they are. *)
Example withheld_report :
  load_sample (hook_environ None)
    [entry "project" (str "shop"); entry "name" (str "prices"); entry "target" sample_target; entry "turbo" (YInt 1);
     entry "webhook" (YDict [entry "url" (str "x${SCRAPEYARD_SECRET_HOOK}")])] =
  Raise (Reported (txt ("webhook.url: " +:+ _WITHHELD_MESSAGE +:+ "; turbo: extra_forbidden"))).
Proof. vm_compute. reflexivity. Qed.

Lemma loaded_secrets_are_exact_witness :
  ∃ config, load_sample (hook_environ None) hook_document = Ok config ∧
    @config_ok sample_lib sample_regex sample_settings ascii_printable no_other_digits sample_schema_lib config ∧
    (∀ v, v ∈ cf_resolved_secret_values config →
       ∃ r, r ∈ _secret_references (YDict hook_document) ∧ hook_environ None r = Some v).
Proof.
  assert (is_ok (load_sample (hook_environ None) hook_document) = true) as Hok by (vm_compute; reflexivity).
  destruct (load_sample (hook_environ None) hook_document) as [config|e] eqn:E; [|discriminate Hok].
  exists config. split; [reflexivity|].
  pose proof (@loaded_secrets_are_exact sample_pydantic sample_lib sample_regex ascii_printable no_other_digits
    sample_schema_lib sample_loader sample_loader_settings _ _ _ E) as (Hc & _ & Hv).
  exact (conj Hc Hv).
Defined.

Lemma unauthorized_secrets_do_not_matter_witness :
  hook_environ None other_variable ≠ hook_environ (Some (txt "another-secret")) other_variable ∧
  load_sample (hook_environ None) hook_document =
  load_sample (hook_environ (Some (txt "another-secret"))) hook_document.
Proof.
  split; [vm_compute; discriminate|].
  apply (@unauthorized_secrets_do_not_matter sample_pydantic sample_lib sample_regex ascii_printable no_other_digits
    sample_schema_lib sample_loader sample_loader_settings).
  intros project r Hp Hr.
  assert (literal "project" hook_document = Some (txt "shop")) as E by (vm_compute; reflexivity).
  assert (project = txt "shop") as -> by congruence.
  assert (authorized sample_loader_settings (txt "shop") = [hook_variable]) as Ea by (vm_compute; reflexivity).
  rewrite Ea in Hr. apply list_elem_of_singleton in Hr as ->. reflexivity.
Defined.
End sample.
